(* ===== verification/_CoqProject ===== *)
-Q . S2P
Prelude.v
Json.v
SchemaModel.v
SchemaNormal.v
Schema.v
SchemaDecode.v
Redaction.v
Usage.v
Observation.v
Sse.v
Client.v
Failure.v
StoreDb.v
InferenceGate.v
GateRefinement.v
GateClaims.v
RequestQueue.v
Jobs.v
JobProofs.v
JobClaims.v
Budget.v
Lists.v
Admission.v
Item.v
ContextPatch.v
ContextText.v
HistoryDb.v
HistoryOps.v
HistoryProofs.v
HistoryClaims.v
ContextOrder.v
Mailbox.v
ContextBlocks.v
ContextEdit.v
ContextDraft.v
Finalize.v
Requests.v
ToolSurface.v
ReplayRecords.v
ReplayEvidence.v
ReplayClaims.v
ReplayProvider.v
Compaction.v
Presentation.v
Paging.v
ActorMedia.v
ActorOutput.v
ActorForms.v
FormClaims.v
Portability.v
Projection.v
Agents.v
Claims.v
HostDb.v
HostCommands.v
HostClaims.v
HostBinding.v
ContextCommit.v
ContextSteps.v
ContextClaims.v
