(* ===== verification/Prelude.v ===== *)
(** * A verification of the exomonad harness

    The harness drives language-model agents: an Engine sends a conversation
    to a provider, reads the streamed answer, runs the tool calls it contains
    as jobs, and keeps everything that must survive a restart in a Store. This
    library models the parts that decide what may happen, translated from the
    Rust sources under [src/crates], and proves what makes them correct.

    ** The parts and their files

    How the parts meet: a host admits a round through the Store's inference
    gate ([InferenceGate], over the rows of [StoreDb]); the transport reads the
    answer ([Client] frames bytes, [Sse] assembles the turn, [Observation] and
    [Usage] retain metadata, [Redaction] cleans diagnostics, [Failure]
    classifies and stores failures); completed call items become jobs
    ([Jobs]), whose arguments were admitted by strict schemas ([SchemaModel]);
    [RequestQueue] orders model requests and [Budget] limits what a cell spends.
    What was said is kept in the Store's conversation rows ([HistoryDb],
    [HistoryOps]), as items ([Item]) and mail ([Mailbox]), and the claims of
    requests on running calls beside it ([Claims]). Hosts reach their actors
    through bindings, commands and inputs ([HostDb], [HostCommands]). What was
    said is read back for the next request in the provider's order
    ([ContextOrder]), projected for the model that will read it
    ([Projection], [Portability]), edited in blocks ([ContextBlocks],
    [ContextText], [ContextPatch], [ContextEdit], [ContextDraft]) or compacted
    ([Compaction]), an edit committed once ([ContextCommit]); [Requests] turns it into the body that is sent, under a
    contract of [Admission]; a turn is sealed and recorded ([ReplayRecords]),
    ends with a finalize call ([Finalize]), and is replayed by
    [ReplayProvider]. A host's tools are projected onto what a route knows
    ([ToolSurface]), beside the verbs by which agents work with each other
    ([Agents]). What an actor shows a person, and asks, is checked by
    [Presentation] and kept by the Store ([ActorMedia], [ActorOutput],
    [ActorForms]).

    - [Prelude]: Rust's [Result] and [?] as a monad with guards, traversals,
      64-bit arithmetic, record update, the shared tactics.
    - [Json]: [serde_json::Value], objects as sorted entry lists.
    - [SchemaModel], [SchemaNormal], [Schema], [SchemaDecode]:
      [harness-schema/src/lib.rs]. [normalize_schema], [validate_value],
      [function_tool] and [ArgumentProjection] keep their names.
      Normalisation is idempotent and yields a normal form; replacing a
      tagged [oneOf] by [anyOf] accepts the same values; number comparison is
      the exact rational order across integers and floats; an admitted tool is
      strict; decoding recovers exactly the arguments that were encoded.
    - [Redaction], [Observation], [Usage]: [transport/http_error.rs],
      [transport/observation.rs], [transport/usage.rs]. A credential does
      not survive redaction, retained text is bounded and cut at a character,
      the observed tail is the tail of the run, counters survive storage.
    - [Sse], [Client]: [transport/sse.rs] ([ResponseAssembly]) and the reading
      half of [transport/client.rs] ([SseFramer], [read_response_observed]).
      A finished turn is what the events said; the result does not depend on
      how the network cut the body into chunks; a framed event reads back;
      every ending is classified; observing changes nothing.
    - [Failure]: [provider/failure.rs] and [transport/request_failure.rs].
      Which metadata is kept, and that a stored failure reads back.
    - [StoreDb], [InferenceGate], [GateRefinement], [GateClaims]:
      [store/inference.rs] over the rows it reads and writes
      ([store/embedded_round.rs], [store/embedded.rs], [store/terminal.rs],
      types of [embedding.rs]). A transaction maps rows to an error or to a
      value and new rows. [gate_step] of [GateRefinement] is the abstract
      promise about one actor's gate; every Store operation refines it, for any
      sequence of operations. From it: a block is granted at most once, one
      attempt runs at a time, a stale attempt cannot finish or block,
      repeated commands answer the same, automatic retries keep their budget.
    - [RequestQueue]: [RequestScheduler] of [turn.rs]. Admission order and
      the queue's invariant.
    - [Jobs], [JobProofs], [JobClaims]: [JobScheduler], [InvocationAdmission]
      and the spawned task of [turn.rs], with [provider/activation.rs].
      Each critical section of the jobs mutex is one function; [job_step] of
      [JobProofs] interleaves them freely, panics and aborts included. The
      registry's invariant, finality of outputs, conservation of permits, no
      start after cancellation, the activation fence, the exact pending
      inventory, no lost claimant, and progress of every launched task.
    - [Budget]: [CellBudget] of [invocation.rs], scopes shared by
      reference. Exact accounting within limits, and the latch.

    - [Lists]: the list, sorting and embedding lemmas the files below share.
    - [Admission]: [transport/admission.rs], limits and endpoints of a
      native transport contract.
    - [Item]: [item.rs], calls and outputs as JSON items, formats and settings.
    - [HistoryDb], [HistoryOps], [HistoryProofs], [HistoryClaims]: the
      conversation rows of [store/mod.rs] (requests, items, events,
      settings, mail), [store/provider_response.rs], the recording half of
      [store/replay.rs] and [store/output_publication.rs]. Every transaction
      keeps the rows well formed and only appends; a recorded response reads back in
      the provider's order; outputs and mail are attached once; a lineage ends.
    - [Claims]: the claims of [store/mod.rs], the outcomes of
      [store/terminal.rs], the invocations of [store/validation.rs] and the
      copying of claims in [store/context.rs]. An operation is settled once
      and for all its claimants, over any run of the Store. The example
      [odd_format_unreadable] shows an output that is settled and can no longer be read.
    - [ContextOrder]: [ordered_occurrences] of [store/context.rs]: reading
      history is a permutation that puts every response in its provider's order
      and no output before its call.
    - [ContextPatch]: [context.rs]. A patch is accepted exactly when its
      targets are unique, current and do not collide, and is applied whole.
    - [ContextText], [ContextBlocks], [ContextEdit], [ContextDraft]: text overlays, the blocks
      of a prefix and the edit of one, from [store/context.rs]. Overlays
      change the shown text only; blocks partition the prefix and keep calls with
      their results; an accepted draft keeps every protected group, in order.
    - [Portability], [Projection]: [store/context/portability_note.rs],
      [checked_projection] of [store/context.rs] and the frozen prefixes of
      [checkpoint.rs]. A history is shown to a model with the sealed items of
      its own responses only; responses of other models become notes without
      their secrets, and nothing is lost or shown twice. The example
      [shared_first_item] shows records for which this fails.
    - [ContextCommit], [ContextSteps], [ContextClaims]: snapshots, receipts and
      the commit of a draft ([begin_context] and [commit_context_tx] of
      [store/context.rs]) over all rows of the Store, with the frozen copy for later
      children and the claims carried to a copied window. A commit keeps every
      invariant of the rows, happens once and keeps its receipt, refuses
      snapshots of an older generation, and installs exactly the rewritten window.
    - [Mailbox]: [mailbox.rs], envelopes and how runs of them are shown.
    - [Finalize]: [finalize.rs], the tool that ends a program's turn.
    - [Requests]: the construction of bodies in [transport/client.rs], with
      [transport/identity.rs] and the manifests of [transport/mod.rs].
      A dispatched body is the request; the DeepSeek body says nothing else.
    - [ReplayRecords], [ReplayEvidence], [ReplayClaims]: [store/replay.rs].
      Sealing, recording and decoding a turn is a round trip; completion is
      proved by the record; evidence without provider rows is unambiguous.
    - [ReplayProvider]: [replay.rs]. Recorded turns are answered in order;
      recorded outputs are restored as they were settled.
    - [ToolSurface]: the tool manifests of [embedding.rs] and
      [embedding/tool_encoding.rs]. A tool projected onto a route that knows
      only plain functions admits exactly the calls its host declared.
    - [Compaction]: [compaction.rs], the two strategies. The window a
      strategy builds, item by item, and what it retains.
    - [Presentation]: the crate [harness-presentation]. Which views and forms
      are admitted; a form's initial values are a valid draft of it.
    - [Paging]: what a reader with cursors promises (the class [Pager]) and
      that following the cursors reads everything once.
    - [ActorMedia], [ActorOutput], [ActorForms], [FormClaims]:
      [store/media.rs], [store/actor_output.rs], [store/forms.rs]. Images are
      kept once under their digest; an output is published once; the
      operations on a form implement its lease ([lease_step], the abstract
      specification), settled forms are final, and the pages of outputs
      and pending forms instantiate [Pager]. The examples
      [retained_output_unreadable] and [saved_form_unreadable] show rows that
      are stored and can no longer be read.

    - [Agents]: [agents.rs] and [all_tools] of [provider.rs]. The grammar of
      agent paths, the dispatcher of the verbs against the schemas that
      advertise them, and whom a running job may message.

    - [HostDb], [HostCommands], [HostClaims], [HostBinding]:
      [store/embedded.rs], [store/embedded_commands.rs],
      [store/account_selection.rs], the request writer of
      [store/embedded_round.rs] and the agent rows of [store/mod.rs], over all
      rows of the Store at once ([StoreRows]; inference admission works on its
      view [gate_db]). [host_step] is one transaction of any component.
      Commands refine the machine [command_move] and are handed out once; an
      input is one envelope; a gate still refines its machine among all other
      transactions; a binding passes whole to its successor; a seed reads back.

    ** Conventions

    Fallible code returns [result E A]. Code that mutates on paths that fail
    returns the state beside the result. A field assignment is
    [r <| f := v |>]. A [u64] is a [Z] with saturating, checked or wrapping
    addition as the source has it; [usize] counters bounded by a collection's
    length are [nat]. Text is UTF-8 bytes. Clocks, fresh identifiers, channel
    endings and what providers answer are arguments, universally quantified in
    the theorems. Code outside the repository is a section variable: SHA-256,
    BLAKE3, base64, JSON parsing and printing ([from_str], [to_string], the
    lengths of texts), SVG and URL parsing and header values. The context
    projection of a recovery ([store/context.rs]) is the class
    [ProjectionOwner]; the witnesses instantiate each of them.

    ** Fuel

    Recursion that is not structural carries fuel, and its sufficiency is
    proved. Schemas: the size of the documents
    ([validate_value_fuel_enough], [normalize_schema_fuel_enough]). Text
    replacement: one more than the text's length. The metadata scan: the number
    of nodes it may visit. The frontier walk: two more than the number of
    requests, since it refuses to visit one twice ([frontier_spec] shows that
    it ends). A request's lineage: one more than the number of requests
    ([lineage_exact]).
    [run_task] takes seven steps, the longest path of a task.

    ** Not modelled

    SQL, HTTP, WebSockets, OAuth and files; the round driver of [engine.rs] and
    the agent runtime over it; commits of a draft to the Store, the portability of a
    projection and the installation of a compacted window; checkpoints; chat pages.
    Waiting on channels is not modelled: a channel is the last value sent. Of
    timeouts only the outcome is. Mutexes are taken as fair or not; no theorem
    depends on it.

    ** Plan

    In this order: the commit of a context draft with its generations and
    receipts, and the portability check of a projection ([store/context.rs]),
    discharging [ProjectionOwner]; preparation of a provider request
    ([store/prepared_request.rs]); installing a compacted window
    ([store/compaction.rs]); the scheduling decisions of [engine.rs] (which
    calls and envelopes a round takes, against the interfaces here); checkpoints
    ([checkpoint.rs]). *)

From stdpp Require Export base tactics relations list strings gmap pretty sorting.
From Stdlib Require Export ZArith Lia Ascii.

#[global] Open Scope string_scope.
#[global] Open Scope list_scope.
#[global] Open Scope Z_scope.

(** ** Rust's [Result] *)

Inductive result (E A : Type) : Type :=
| Ok (a : A)
| Err (e : E).
Arguments Ok {E A} a.
Arguments Err {E A} e.

Definition rbind {E A B} (r : result E A) (k : A -> result E B) : result E B :=
  match r with
  | Ok a => k a
  | Err e => Err e
  end.

Definition rmap {E A B} (f : A -> B) (r : result E A) : result E B :=
  match r with
  | Ok a => Ok (f a)
  | Err e => Err e
  end.

Definition map_err {E F A} (f : E -> F) (r : result E A) : result F A :=
  match r with
  | Ok a => Ok a
  | Err e => Err (f e)
  end.

Definition ok_or {E A} (o : option A) (e : E) : result E A :=
  match o with
  | Some a => Ok a
  | None => Err e
  end.

Definition is_ok {E A} (r : result E A) : bool :=
  match r with Ok _ => true | Err _ => false end.

Definition is_err {E A} (r : result E A) : bool := negb (is_ok r).

Declare Scope rust_scope.
Delimit Scope rust_scope with rust.
Notation "'do' x <- c ; k" := (rbind c (fun x => k))
  (at level 10, x name, c at level 100, k at level 200) : rust_scope.
Notation "'do' ' p <- c ; k" := (rbind c (fun x => match x with p => k end))
  (at level 10, p strict pattern, c at level 100, k at level 200) : rust_scope.
Notation "'guard' b 'else' e ; k" := (if b then k else Err e)
  (at level 10, b at level 100, e at level 100, k at level 200) : rust_scope.
Notation "'refuse' b 'with' e ; k" := (if b then Err e else k)
  (at level 10, b at level 100, e at level 100, k at level 200) : rust_scope.
#[global] Open Scope rust_scope.

#[export] Instance result_eq_dec {E A} `{EqDecision E, EqDecision A} : EqDecision (result E A).
Proof. solve_decision. Defined.

Lemma rbind_Ok {E A B} (r : result E A) (k : A -> result E B) b :
  rbind r k = Ok b <-> exists a, r = Ok a /\ k a = Ok b.
Proof. destruct r; simpl; naive_solver. Qed.

Lemma rbind_Err {E A B} (r : result E A) (k : A -> result E B) e :
  rbind r k = Err e <-> r = Err e \/ exists a, r = Ok a /\ k a = Err e.
Proof. destruct r; simpl; naive_solver. Qed.

Lemma ok_or_Ok {E A} (o : option A) (e : E) a : ok_or o e = Ok a <-> o = Some a.
Proof. destruct o; simpl; naive_solver. Qed.

Lemma map_err_Ok {E F A} (f : E -> F) (r : result E A) a : map_err f r = Ok a -> r = Ok a.
Proof. destruct r; simpl; [by intros [= ->]|done]. Qed.

Lemma is_ok_true {E A} (r : result E A) : is_ok r = true <-> exists a, r = Ok a.
Proof. destruct r; simpl; naive_solver. Qed.

Lemma is_ok_unit {E} (r : result E unit) : is_ok r = true <-> r = Ok tt.
Proof. destruct r as [[]|]; simpl; naive_solver. Qed.

Lemma Ok_inj {E A} (a b : A) : @Ok E A a = Ok b -> a = b.
Proof. by intros [= ->]. Qed.

(** Invert every successful bind, guard and [ok_or] of the hypotheses. *)
Ltac inv_ok :=
  repeat match goal with
  | H : rbind _ _ = Ok _ |- _ =>
      let x := fresh "x" in let H1 := fresh "Hr" in
      apply rbind_Ok in H as (x & H1 & H)
  | H : ok_or _ _ = Ok _ |- _ => apply ok_or_Ok in H
  | H : (if ?b then Err _ else _) = Ok _ |- _ =>
      let E := fresh "Hg" in destruct b eqn:E; [discriminate H|]
  | H : (if ?b then _ else Err _) = Ok _ |- _ =>
      let E := fresh "Hg" in destruct b eqn:E; [|discriminate H]
  | H : Ok _ = Ok _ |- _ => apply Ok_inj in H
  | H : Err _ = Ok _ |- _ => discriminate H
  | H : Ok _ = Err _ |- _ => discriminate H
  end.

(** Case on the outermost conditional of an equation's left-hand side. *)
Ltac case_if :=
  match goal with
  | |- (if ?b then _ else _) = _ => let E := fresh "Hb" in destruct b eqn:E
  end.

(** Evaluate the comparisons of literal strings in the goal. *)
Ltac eval_decide :=
  repeat match goal with
  | |- context [if @decide ?P ?d then ?x else ?y] =>
      first
        [ rewrite (@decide_True _ P d x y)
            by solve [reflexivity | left; reflexivity | right; reflexivity]
        | rewrite (@decide_False _ P d x y)
            by solve [discriminate | intros [?|?]; discriminate] ]
  end.

(** Close a decidable goal on literals by evaluating its decision procedure. *)
Ltac by_decide := apply (bool_decide_unpack _); vm_compute; exact I.

(** ** Fallible traversals: [iter().map(..).collect::<Result<_,_>>()] and
    [for] loops with [?]. *)

Section traverse.
Context {E A B : Type}.

Fixpoint map_result (f : A -> result E B) (l : list A) : result E (list B) :=
  match l with
  | [] => Ok []
  | x :: l' => do y <- f x; do ys <- map_result f l'; Ok (y :: ys)
  end.

Fixpoint imap_result_from (n : nat) (f : nat -> A -> result E B) (l : list A)
    : result E (list B) :=
  match l with
  | [] => Ok []
  | x :: l' => do y <- f n x; do ys <- imap_result_from (S n) f l'; Ok (y :: ys)
  end.

Fixpoint fold_result (f : B -> A -> result E B) (acc : B) (l : list A) : result E B :=
  match l with
  | [] => Ok acc
  | x :: l' => do acc' <- f acc x; fold_result f acc' l'
  end.

Lemma map_result_Ok f l ys :
  map_result f l = Ok ys <-> Forall2 (fun x y => f x = Ok y) l ys.
Proof.
  revert ys. induction l as [|x l IH]; intros ys; simpl.
  - split; [intros [= <-]; constructor | inversion 1; done].
  - rewrite rbind_Ok. setoid_rewrite rbind_Ok. split.
    + intros (y & Hy & ys' & Hys & [= <-]). constructor; [done|]. by apply IH.
    + inversion 1 as [|? y ? ys' Hy Hys]; subst. exists y. split; [done|].
      exists ys'. split; [by apply IH | done].
Qed.

Lemma imap_result_from_Ok n f l ys :
  imap_result_from n f l = Ok ys <->
  length ys = length l /\
  forall i x y, l !! i = Some x -> ys !! i = Some y -> f (n + i)%nat x = Ok y.
Proof.
  revert n ys. induction l as [|x l IH]; intros n ys; simpl.
  - split.
    + intros [= <-]. split; [done|]. intros i x y Hx. by rewrite lookup_nil in Hx.
    + intros [Hl _]. by destruct ys.
  - rewrite rbind_Ok. setoid_rewrite rbind_Ok. split.
    + intros (y & Hy & ys' & Hys & [= <-]). apply IH in Hys as [Hl Hf].
      split; [simpl; lia|]. intros [|i] x' y' Hx' Hy'; simplify_eq/=.
      * by rewrite Nat.add_0_r.
      * rewrite Nat.add_succ_r. by apply (Hf i).
    + intros [Hl Hf]. destruct ys as [|y ys]; [done|]. exists y. split.
      * specialize (Hf 0%nat x y eq_refl eq_refl). by rewrite Nat.add_0_r in Hf.
      * exists ys. split; [|done]. apply IH. split; [simpl in Hl; lia|].
        intros i x' y' Hx' Hy'. replace (S n + i)%nat with (n + S i)%nat by lia.
        by apply (Hf (S i)).
Qed.
End traverse.

Abbreviation imap_result := (imap_result_from 0).

(** Traversals whose body is replaced by one that agrees on the members. *)
Lemma map_result_ext {E A B} (f g : A -> result E B) l :
  Forall (fun x => f x = g x) l -> map_result f l = map_result g l.
Proof. induction 1 as [|x l Hx _ IH]; simpl; [done|]. by rewrite Hx, IH. Qed.

Lemma imap_result_from_ext {E A B} n (f g : nat -> A -> result E B) l :
  Forall (fun x => forall i, f i x = g i x) l ->
  imap_result_from n f l = imap_result_from n g l.
Proof.
  intros H. revert n. induction H as [|x l Hx _ IH]; intros n; simpl; [done|].
  by rewrite Hx, IH.
Qed.

Lemma fold_result_ext {E A B} (f g : B -> A -> result E B) l acc :
  Forall (fun x => forall a, f a x = g a x) l ->
  fold_result f acc l = fold_result g acc l.
Proof.
  intros H. revert acc. induction H as [|x l Hx _ IH]; intros acc; simpl; [done|].
  rewrite Hx. destruct (g acc x); simpl; [apply IH | done].
Qed.

(** What every round of a loop preserves, indexed by the part done, holds at its end. *)
Lemma fold_result_inv {E A B} (f : B -> A -> result E B) (I : list A -> B -> Prop) l :
  (forall past acc x acc', I past acc -> f acc x = Ok acc' -> I (past ++ [x]) acc') ->
  forall past acc acc', I past acc -> fold_result f acc l = Ok acc' -> I (past ++ l) acc'.
Proof.
  intros Hstep. induction l as [|x l IH]; intros past acc acc' HI H; simpl in H.
  - injection H as <-. by rewrite app_nil_r.
  - apply rbind_Ok in H as (acc1 & H1 & H). rewrite cons_middle, app_assoc. eapply IH; [|exact H]. by eapply Hstep.
Qed.

(** ** Machine integers *)

Definition u64_max : Z := 18446744073709551615.
Definition i64_max : Z := 9223372036854775807.
Definition i64_min : Z := -9223372036854775808.

Definition in_u64 (n : Z) : Prop := 0 <= n <= u64_max.
Definition in_i64 (n : Z) : Prop := i64_min <= n <= i64_max.

(** [u64::saturating_add] and [u64::checked_add]. *)
Definition saturating_add_u64 (a b : Z) : Z := Z.min u64_max (a + b).
Definition checked_add_u64 (a b : Z) : option Z :=
  if decide (a + b <= u64_max) then Some (a + b) else None.

Lemma saturating_add_u64_range a b :
  in_u64 a -> in_u64 b -> in_u64 (saturating_add_u64 a b).
Proof. unfold in_u64, saturating_add_u64. lia. Qed.

Lemma checked_add_u64_Some a b c :
  checked_add_u64 a b = Some c <-> c = a + b /\ a + b <= u64_max.
Proof. unfold checked_add_u64. case_decide; naive_solver. Qed.

(** [u64] addition in a release build. *)
Definition wrapping_add_u64 (a b : Z) : Z := (a + b) mod 2 ^ 64.

Lemma wrapping_add_u64_small a b :
  0 <= a -> 0 <= b -> a + b <= u64_max -> wrapping_add_u64 a b = a + b.
Proof. intros. unfold wrapping_add_u64, u64_max in *. apply Z.mod_small. lia. Qed.

(** ** Record update

    [r <| field := v |>] is [r] with one field assigned, as an assignment to a
    struct field is. A record declares its eta expansion once. *)

Class Eta (R : Type) := eta : R -> R.
Class Setter {R A : Type} (proj : R -> A) := assign : (A -> A) -> R -> R.

Ltac solve_setter :=
  match goal with
  | |- @Setter ?R ?A ?proj =>
      let i := constr:(_ : Eta R) in
      let e := eval red in i in
      let f := eval pattern proj in e in
      match f with
      | ?g _ => exact (fun (change : A -> A) => g (fun r => change (proj r)))
      end
  end.
#[export] Hint Extern 1 (Setter _) => solve_setter : typeclass_instances.

Declare Scope update_scope.
Notation "r <| proj ::= f |>" := (assign (proj := proj) f r)
  (at level 12, f at next level, left associativity) : update_scope.
Notation "r <| proj := v |>" := (assign (proj := proj) (fun _ => v) r)
  (at level 12, v at level 200, left associativity) : update_scope.
#[global] Open Scope update_scope.

(** Evaluate field updates and projections. *)
Ltac upd_simpl := unfold assign in *; cbn beta iota in *; simpl in *.
