(* ===== verification/Json.v ===== *)
(** JSON documents as the program manipulates them ([serde_json::Value] with
    the default [BTreeMap] object representation).

    - Text is a byte string holding UTF-8, so [String.length] is Rust's [len]
      and byte order is Rust's [Ord] on [str].
    - A number keeps [serde_json]'s three internal forms; a finite [f64] is a
      dyadic rational [mant * 2^expo] with an odd or null mantissa, which makes
      structural equality the numeric equality [PartialEq] uses for floats.
    - An object is the key-sorted entry list a [BTreeMap] iterates over. *)

From S2P Require Import Prelude.

(** ** Byte order on strings *)

Fixpoint str_ltb (a b : string) : bool :=
  match a, b with
  | EmptyString, EmptyString => false
  | EmptyString, String _ _ => true
  | String _ _, EmptyString => false
  | String x a', String y b' =>
      if (N_of_ascii x <? N_of_ascii y)%N then true
      else if (N_of_ascii y <? N_of_ascii x)%N then false
      else str_ltb a' b'
  end.

Definition str_lt (a b : string) : Prop := str_ltb a b = true.

Lemma N_of_ascii_inj x y : N_of_ascii x = N_of_ascii y -> x = y.
Proof. intros H. by rewrite <- (ascii_N_embedding x), <- (ascii_N_embedding y), H. Qed.

Lemma str_ltb_irrefl a : str_ltb a a = false.
Proof. induction a as [|x a IH]; simpl; [done|]. by rewrite N.ltb_irrefl. Qed.

Lemma str_lt_trans a b c : str_lt a b -> str_lt b c -> str_lt a c.
Proof.
  unfold str_lt. revert b c.
  induction a as [|x a IH]; intros [|y b] [|z c]; simpl; try done.
  destruct (N.ltb_spec (N_of_ascii x) (N_of_ascii y)),
    (N.ltb_spec (N_of_ascii y) (N_of_ascii x)),
    (N.ltb_spec (N_of_ascii y) (N_of_ascii z)),
    (N.ltb_spec (N_of_ascii z) (N_of_ascii y)),
    (N.ltb_spec (N_of_ascii x) (N_of_ascii z)),
    (N.ltb_spec (N_of_ascii z) (N_of_ascii x)); try done; try lia; eauto.
Qed.

Lemma str_ltb_total a b : str_ltb a b = false -> str_ltb b a = false -> a = b.
Proof.
  revert b. induction a as [|x a IH]; intros [|y b]; simpl; try done.
  destruct (N.ltb_spec (N_of_ascii x) (N_of_ascii y)),
    (N.ltb_spec (N_of_ascii y) (N_of_ascii x)); try done.
  intros. f_equal; [apply N_of_ascii_inj; lia | eauto].
Qed.

Lemma str_lt_ne a b : str_lt a b -> a <> b.
Proof. intros H ->. unfold str_lt in H. by rewrite str_ltb_irrefl in H. Qed.

Lemma str_lt_asym a b : str_lt a b -> str_ltb b a = false.
Proof.
  intros H. destruct (str_ltb b a) eqn:E; [|done].
  pose proof (str_lt_trans _ _ _ H E) as H'. unfold str_lt in H'. by rewrite str_ltb_irrefl in H'.
Qed.

(** ** Values *)

Record f64 := F64 { mant : Z; expo : Z }.

Inductive number :=
| PosInt (n : Z)
| NegInt (n : Z)
| Float (f : f64).

Inductive value :=
| VNull
| VBool (b : bool)
| VNumber (n : number)
| VString (s : string)
| VArray (l : list value)
| VObject (m : list (string * value)).

Abbreviation object := (list (string * value)).

#[export] Instance f64_eq_dec : EqDecision f64.
Proof. solve_decision. Defined.
#[export] Instance number_eq_dec : EqDecision number.
Proof. solve_decision. Defined.

Section value_ind.
Variable P : value -> Prop.
Hypothesis Hnull : P VNull.
Hypothesis Hbool : forall b, P (VBool b).
Hypothesis Hnum : forall n, P (VNumber n).
Hypothesis Hstr : forall s, P (VString s).
Hypothesis Harr : forall l, Forall P l -> P (VArray l).
Hypothesis Hobj : forall m, Forall (fun e => P e.2) m -> P (VObject m).

Fixpoint value_ind' (v : value) : P v :=
  match v with
  | VNull => Hnull
  | VBool b => Hbool b
  | VNumber n => Hnum n
  | VString s => Hstr s
  | VArray l =>
      Harr l ((fix go l := match l return Forall P l with
               | [] => Forall_nil_2 _
               | x :: l' => Forall_cons_2 _ _ _ (value_ind' x) (go l')
               end) l)
  | VObject m =>
      Hobj m ((fix go m := match m return Forall (fun e => P e.2) m with
               | [] => Forall_nil_2 _
               | e :: m' => Forall_cons_2 _ _ _ (value_ind' e.2) (go m')
               end) m)
  end.
End value_ind.

#[export] Instance value_eq_dec : EqDecision value.
Proof.
  unfold EqDecision, Decision.
  refine (fix go v w {struct v} : {v = w} + {v <> w} :=
    match v, w with
    | VNull, VNull => left eq_refl
    | VBool b, VBool c => cast_if (decide (b = c))
    | VNumber n, VNumber k => cast_if (decide (n = k))
    | VString s, VString t => cast_if (decide (s = t))
    | VArray l, VArray k =>
        cast_if ((fix gol l k {struct l} : {l = k} + {l <> k} :=
          match l, k with
          | [], [] => left eq_refl
          | x :: l', y :: k' => cast_if_and (go x y) (gol l' k')
          | _, _ => right _
          end) l k)
    | VObject m, VObject n =>
        cast_if ((fix gom m n {struct m} : {m = n} + {m <> n} :=
          match m, n with
          | [], [] => left eq_refl
          | (a, x) :: m', (b, y) :: n' =>
              cast_if_and3 (decide (a = b)) (go x y) (gom m' n')
          | _, _ => right _
          end) m n)
    | _, _ => right _
    end); clear go; try (clear gol); try (clear gom); abstract congruence.
Defined.

Fixpoint value_size (v : value) : nat :=
  match v with
  | VArray l => S (foldr (fun x n => value_size x + n)%nat 0%nat l)
  | VObject m => S (foldr (fun e n => S (value_size e.2) + n)%nat 0%nat m)
  | _ => 1
  end.

(** ** Accessors: [Value::as_*], [Value::is_*], [Value::get], indexing *)

Definition as_str (v : value) : option string :=
  match v with VString s => Some s | _ => None end.
Definition as_array (v : value) : option (list value) :=
  match v with VArray l => Some l | _ => None end.
Definition as_object (v : value) : option object :=
  match v with VObject m => Some m | _ => None end.
Definition as_bool (v : value) : option bool :=
  match v with VBool b => Some b | _ => None end.
Definition as_u64 (v : value) : option Z :=
  match v with VNumber (PosInt n) => Some n | _ => None end.
Definition as_i64 (v : value) : option Z :=
  match v with
  | VNumber (PosInt n) => if n <=? i64_max then Some n else None
  | VNumber (NegInt n) => Some n
  | _ => None
  end.

Definition is_null (v : value) : bool := match v with VNull => true | _ => false end.
Definition is_boolean (v : value) : bool := match v with VBool _ => true | _ => false end.
Definition is_number (v : value) : bool := match v with VNumber _ => true | _ => false end.
Definition is_string (v : value) : bool := match v with VString _ => true | _ => false end.
Definition is_array (v : value) : bool := match v with VArray _ => true | _ => false end.
Definition is_object (v : value) : bool := match v with VObject _ => true | _ => false end.

(** [Map::get], [Map::contains_key], [Map::insert], [Map::remove],
    [Map::retain], [Map::keys]. *)
Fixpoint obj_get (k : string) (m : object) : option value :=
  match m with
  | [] => None
  | (k', v) :: m' => if decide (k = k') then Some v else obj_get k m'
  end.

Definition contains_key (m : object) (k : string) : bool := bool_decide (is_Some (obj_get k m)).

(** [BTreeMap::insert] replaces the value of a present key and otherwise
    places the entry at its position in the key order. *)
Fixpoint obj_replace (k : string) (v : value) (m : object) : object :=
  match m with
  | [] => []
  | (k', v') :: m' => if decide (k = k') then (k, v) :: m' else (k', v') :: obj_replace k v m'
  end.

Fixpoint obj_place (k : string) (v : value) (m : object) : object :=
  match m with
  | [] => [(k, v)]
  | (k', v') :: m' => if str_ltb k k' then (k, v) :: m else (k', v') :: obj_place k v m'
  end.

Definition obj_insert (k : string) (v : value) (m : object) : object :=
  match obj_get k m with
  | Some _ => obj_replace k v m
  | None => obj_place k v m
  end.

Fixpoint obj_remove (k : string) (m : object) : object :=
  match m with
  | [] => []
  | (k', v') :: m' => if decide (k = k') then m' else (k', v') :: obj_remove k m'
  end.

Definition obj_retain (p : string -> bool) (m : object) : object :=
  List.filter (fun e => p e.1) m.

Definition obj_keys (m : object) : list string := m.*1.

(** [Value::get(key)] and [value[key]] (which yields [Null] when absent). *)
Definition vget (k : string) (v : value) : option value :=
  match v with VObject m => obj_get k m | _ => None end.
Definition vidx (v : value) (k : string) : value := default VNull (vget k v).

(** [value == "text"], the comparison of a [Value] with a [str]. *)
Definition veq_str (v : value) (s : string) : bool := bool_decide (v = VString s).

(** [.get(key).and_then(Value::as_str)] and the like. *)
Definition get_str (k : string) (v : value) : option string := vget k v ≫= as_str.
Definition get_u64 (k : string) (v : value) : option Z := vget k v ≫= as_u64.

(** The object literal of [json!], entry by entry. *)
Definition json_object (l : object) : value :=
  VObject (foldl (fun m e => obj_insert e.1 e.2 m) [] l).

(** ** Sorted objects *)

Definition entry_lt (a b : string * value) : Prop := str_lt a.1 b.1.
Definition obj_sorted (m : object) : Prop := StronglySorted entry_lt m.

Inductive value_wf : value -> Prop :=
| wf_null : value_wf VNull
| wf_bool b : value_wf (VBool b)
| wf_num n : value_wf (VNumber n)
| wf_str s : value_wf (VString s)
| wf_arr l : Forall value_wf l -> value_wf (VArray l)
| wf_obj m : obj_sorted m -> Forall (fun e => value_wf e.2) m -> value_wf (VObject m).

Lemma obj_get_insert_eq k v m : obj_get k (obj_insert k v m) = Some v.
Proof.
  unfold obj_insert. destruct (obj_get k m) as [w|] eqn:E; revert E.
  - induction m as [|[k' v'] m IH]; simpl; [done|].
    case_decide as H; simpl; [by rewrite decide_True|]. rewrite decide_False by done. auto.
  - induction m as [|[k' v'] m IH]; simpl; [by rewrite decide_True|].
    case_decide as H; [done|]. intros Hm.
    destruct (str_ltb k k'); simpl; [by rewrite decide_True|]. rewrite decide_False by done. auto.
Qed.

Lemma obj_get_insert_ne k k' v m : k' <> k -> obj_get k' (obj_insert k v m) = obj_get k' m.
Proof.
  intros Hne. unfold obj_insert. destruct (obj_get k m) as [w|].
  - induction m as [|[k0 v0] m IH]; simpl; [done|].
    case_decide; subst; simpl; [by rewrite !decide_False|]. by case_decide.
  - induction m as [|[k0 v0] m IH]; simpl; [by rewrite decide_False|].
    destruct (str_ltb k k0); simpl; [by rewrite (decide_False (P:=k' = k))|]. by case_decide.
Qed.

Lemma obj_get_insert k k' v m :
  obj_get k' (obj_insert k v m) = if decide (k' = k) then Some v else obj_get k' m.
Proof.
  case_decide; subst; [apply obj_get_insert_eq | by apply obj_get_insert_ne].
Qed.

Lemma obj_get_elem k v m : obj_get k m = Some v -> (k, v) ∈ m.
Proof.
  induction m as [|[k' v'] m IH]; simpl; [done|].
  case_decide; intros; simplify_eq; set_solver.
Qed.

Lemma obj_get_key k m : is_Some (obj_get k m) <-> k ∈ obj_keys m.
Proof.
  unfold obj_keys. induction m as [|[k' v'] m IH]; simpl.
  - split; [by intros [? [=]] | set_solver].
  - case_decide; subst; [split; [set_solver | eauto]|]. rewrite IH. set_solver.
Qed.

Lemma obj_get_None k m : obj_get k m = None <-> k ∉ obj_keys m.
Proof. rewrite <- obj_get_key, eq_None_not_Some. done. Qed.

Lemma obj_sorted_nodup m : obj_sorted m -> NoDup (obj_keys m).
Proof.
  unfold obj_keys. induction 1 as [|[k v] m _ IH Hall]; simpl; constructor; [|done].
  intros ([k' v'] & Heq & Hin)%list_elem_of_fmap; simplify_eq/=.
  rewrite Forall_forall in Hall. apply Hall in Hin. by apply str_lt_ne in Hin.
Qed.

Lemma obj_elem_get k v m : obj_sorted m -> (k, v) ∈ m -> obj_get k m = Some v.
Proof.
  induction 1 as [|[k' v'] m _ IH Hall]; [set_solver|].
  intros [[= -> ->]|Hin]%elem_of_cons; simpl; [by rewrite decide_True|].
  rewrite Forall_forall in Hall. pose proof (Hall _ Hin) as Hlt.
  apply str_lt_ne in Hlt; simpl in Hlt. rewrite decide_False by done. auto.
Qed.

Lemma obj_insert_Forall (P : string * value -> Prop) k v m :
  P (k, v) -> Forall P m -> Forall P (obj_insert k v m).
Proof.
  intros Hkv Hm. unfold obj_insert. destruct (obj_get k m) as [w|];
    induction Hm as [|[k' v'] m Hp Hm IH]; simpl.
  - constructor.
  - case_decide; by constructor.
  - repeat constructor. done.
  - destruct (str_ltb k k'); repeat (constructor; try done).
Qed.

Lemma obj_insert_sorted k v m : obj_sorted m -> obj_sorted (obj_insert k v m).
Proof.
  intros Hm. unfold obj_insert. destruct (obj_get k m) as [w|] eqn:E.
  - clear E. induction Hm as [|[k' v'] m Hm IH Hall]; simpl; [constructor|].
    case_decide; subst; [by constructor|]. constructor; [done|].
    clear -Hall. induction Hall as [|[k0 v0] m Hlt Hm IH]; simpl; [by constructor|].
    case_decide; subst; by constructor.
  - revert E. induction Hm as [|[k' v'] m Hm IH Hall]; simpl; [repeat constructor|].
    case_decide as Hk; [done|]. intros Hget. destruct (str_ltb k k') eqn:E.
    + constructor; [by constructor|]. constructor; [done|].
      eapply Forall_impl; [exact Hall|]. intros [k2 v2]. apply str_lt_trans, E.
    + constructor; [by apply IH|].
      assert (entry_lt (k', v') (k, v)) as Hlt.
      { unfold entry_lt; simpl. destruct (str_ltb k' k) eqn:E'; [done|].
        exfalso. by apply Hk, str_ltb_total. }
      pose proof (obj_insert_Forall _ k v m Hlt Hall) as H. unfold obj_insert in H.
      by rewrite Hget in H.
Qed.

Lemma obj_ext m1 m2 :
  obj_sorted m1 -> obj_sorted m2 ->
  (forall k, obj_get k m1 = obj_get k m2) -> m1 = m2.
Proof.
  intros H1. revert m2.
  induction H1 as [|[k1 v1] m1 H1 IH Hall1]; intros m2 H2 Hget.
  - destruct m2 as [|[k v] m2]; [done|]. specialize (Hget k); simpl in Hget.
    by rewrite decide_True in Hget.
  - destruct H2 as [|[k2 v2] m2 H2 Hall2].
    { specialize (Hget k1); simpl in Hget. by rewrite decide_True in Hget. }
    rewrite Forall_forall in Hall1, Hall2.
    assert (k1 = k2) as <-.
    { pose proof (Hget k1) as G1. pose proof (Hget k2) as G2. simpl in G1, G2.
      rewrite decide_True in G1 by done. rewrite (decide_True (P := k2 = k2)) in G2 by done.
      destruct (decide (k1 = k2)) as [|Hne]; [done|].
      rewrite decide_False in G2 by done.
      symmetry in G1. apply obj_get_elem, Hall2 in G1. apply obj_get_elem, Hall1 in G2.
      unfold entry_lt in G1, G2; simpl in G1, G2. apply str_lt_asym in G1.
      unfold str_lt in G2. congruence. }
    assert (v1 = v2) as <-.
    { specialize (Hget k1); simpl in Hget. rewrite !decide_True in Hget by done. congruence. }
    f_equal. apply IH; [done|]. intros k. specialize (Hget k); simpl in Hget.
    case_decide; subst; [|done].
    assert (obj_get k1 m1 = None) as ->.
    { apply eq_None_not_Some. intros [v Hv]. apply obj_get_elem, Hall1 in Hv.
      by apply str_lt_ne in Hv. }
    symmetry. apply eq_None_not_Some. intros [v Hv]. apply obj_get_elem, Hall2 in Hv.
    by apply str_lt_ne in Hv.
Qed.

(** Rebuilding a sorted object by inserting its entries in order. *)
Lemma obj_insert_last k v m :
  Forall (fun e => str_lt e.1 k) m -> obj_insert k v m = m ++ [(k, v)].
Proof.
  intros Hm. unfold obj_insert.
  assert (obj_get k m = None) as ->.
  { apply eq_None_not_Some. intros [w Hw]. rewrite Forall_forall in Hm.
    apply obj_get_elem, Hm in Hw. by apply str_lt_ne in Hw. }
  induction Hm as [|[k' v'] m Hlt Hm IH]; simpl; [done|].
  simpl in Hlt. rewrite (str_lt_asym _ _ Hlt). by rewrite IH.
Qed.

Lemma obj_get_remove_ne k k' m : k' <> k -> obj_get k' (obj_remove k m) = obj_get k' m.
Proof.
  intros Hne. induction m as [|[k0 v0] m IH]; simpl; [done|].
  case_decide; subst; simpl; [by rewrite decide_False|]. by case_decide.
Qed.

Lemma obj_get_remove_eq k m : obj_sorted m -> obj_get k (obj_remove k m) = None.
Proof.
  induction 1 as [|[k0 v0] m Hm IH Hall]; simpl; [done|].
  case_decide; subst; simpl.
  - apply eq_None_not_Some. intros [v Hv]. rewrite Forall_forall in Hall.
    apply obj_get_elem, Hall in Hv. by apply str_lt_ne in Hv.
  - by rewrite decide_False.
Qed.

Lemma vget_remove k k' m : obj_sorted m -> obj_get k (obj_remove k' m) = if decide (k = k') then None else obj_get k m.
Proof. intros Hs. case_decide as E; [subst; by apply obj_get_remove_eq|by apply obj_get_remove_ne]. Qed.

Lemma obj_remove_sublist k m : obj_remove k m `sublist_of` m.
Proof.
  induction m as [|[k' v'] m IH]; simpl; [done|].
  case_decide; [by constructor|]. by constructor.
Qed.

Lemma obj_sorted_sublist m1 m2 : m1 `sublist_of` m2 -> obj_sorted m2 -> obj_sorted m1.
Proof.
  induction 1 as [|e m1 m2 Hs IH|e m1 m2 Hs IH]; [done|..]; inversion 1; subst.
  - constructor; [by apply IH|]. rewrite Forall_forall in *. intros x Hx.
    eapply H3. by eapply elem_of_sublist.
  - by apply IH.
Qed.

(** ** Sizes, for the recursion over documents *)

Lemma value_size_pos v : (0 < value_size v)%nat.
Proof. destruct v; simpl; lia. Qed.

Lemma value_size_elem x l : x ∈ l -> (value_size x < value_size (VArray l))%nat.
Proof. induction 1; simpl in *; lia. Qed.

Lemma value_size_entry k v m : (k, v) ∈ m -> (S (value_size v) < value_size (VObject m))%nat.
Proof.
  intros H. remember (k, v) as e eqn:He. revert He.
  induction H as [e m|e e' m H IH]; intros ->; simpl in *; [lia|].
  specialize (IH eq_refl). lia.
Qed.

Lemma value_size_get k v m : obj_get k m = Some v -> (S (value_size v) < value_size (VObject m))%nat.
Proof. intros. by eapply value_size_entry, obj_get_elem. Qed.

Definition obj_size (m : object) : nat := pred (value_size (VObject m)).

Lemma obj_insert_size k v w m :
  obj_get k m = Some w ->
  (obj_size (obj_insert k v m) + value_size w = obj_size m + value_size v)%nat.
Proof.
  intros H. unfold obj_insert. rewrite H. unfold obj_size; simpl. revert H.
  induction m as [|[k' v'] m IH]; simpl; [done|].
  case_decide; simpl; [intros [= ->]; lia|]. intros H'%IH. lia.
Qed.

Lemma obj_sublist_size m1 m2 : m1 `sublist_of` m2 -> (obj_size m1 <= obj_size m2)%nat.
Proof. unfold obj_size. induction 1; simpl in *; lia. Qed.

Lemma list_filter_sublist {A} (f : A -> bool) l : List.filter f l `sublist_of` l.
Proof. induction l as [|x l IH]; simpl; [done|]. destruct (f x); by constructor. Qed.

Lemma obj_retain_sublist p m : obj_retain p m `sublist_of` m.
Proof. apply list_filter_sublist. Qed.

Lemma obj_get_retain p k m : p k = true -> obj_get k (obj_retain p m) = obj_get k m.
Proof.
  intros Hp. unfold obj_retain. induction m as [|[k' v'] m IH]; simpl; [done|].
  destruct (p k') eqn:E; simpl; [by case_decide|]. by rewrite decide_False by congruence.
Qed.
