(* ===== verification/SchemaModel.v ===== *)
(** Model of [crates/harness-schema/src/lib.rs]: strict function-tool schema
    admission, value validation and host argument projection.

    Recursive functions over documents are written as a body that takes the
    recursive call as an argument ([..._body]) and closed with fuel; the fuel
    is the document's size, and [Schema.v] proves that the closed functions
    satisfy their defining equations without any mention of fuel. *)

From S2P Require Import Prelude Json.

(** ** Errors *)

Inductive SchemaError :=
| UnsupportedSchema (path keyword : string)
| UnsatisfiableSchema (path : string)
| AmbiguousArguments (path : string)
| ValueSchemaMismatch (path : string).

#[export] Instance SchemaError_eq_dec : EqDecision SchemaError.
Proof. solve_decision. Defined.

Definition unsupported (path keyword : string) : SchemaError := UnsupportedSchema path keyword.

Inductive SchemaMode := HostProjection | StrictWire.

#[export] Instance SchemaMode_eq_dec : EqDecision SchemaMode.
Proof. solve_decision. Defined.

(** ** Keyword tables *)

Definition SCHEMA_METADATA : list string :=
  ["$schema"; "$defs"; "definitions"; "title"; "description"; "default";
   "examples"; "deprecated"; "readOnly"; "writeOnly"].

Definition mem (k : string) (l : list string) : bool := bool_decide (k ∈ l).

Definition schema_keywords (kind path : string) : result SchemaError (list string) :=
  if decide (kind = "object") then Ok ["type"; "properties"; "required"; "additionalProperties"]
  else if decide (kind = "array") then Ok ["type"; "items"; "minItems"; "maxItems"]
  else if decide (kind = "string") then Ok ["type"; "minLength"; "maxLength"; "enum"; "const"]
  else if decide (kind = "boolean") then Ok ["type"; "enum"; "const"]
  else if decide (kind = "null") then Ok ["type"]
  else if decide (kind = "integer" \/ kind = "number") then
    Ok ["type"; "minimum"; "maximum"; "exclusiveMinimum"; "exclusiveMaximum"; "enum"; "const"; "format"]
  else Err (unsupported path ("unsupported type " +:+ kind)).

(** ** Exact comparison of JSON numbers *)

(** Finite floats: [float < float], truncation [float as i128] (the callers
    keep it in range) and the sign of [float.fract()]. *)
Definition f64_compare (a b : f64) : comparison :=
  let e := Z.min (expo a) (expo b) in
  (mant a * 2 ^ (expo a - e) ?= mant b * 2 ^ (expo b - e)).

Definition f64_trunc (f : f64) : Z :=
  if 0 <=? expo f then mant f * 2 ^ expo f else Z.quot (mant f) (2 ^ (- expo f)).

Definition f64_fract_mant (f : f64) : Z :=
  if 0 <=? expo f then 0 else Z.rem (mant f) (2 ^ (- expo f)).

Definition as_f64_float (v : value) : option f64 :=
  match v with VNumber (Float f) => Some f | _ => None end.

Definition number_integer (v : value) : option Z :=
  match as_i64 v with
  | Some n => Some n
  | None => as_u64 v
  end.

Definition then_with (c : comparison) (d : comparison) : comparison :=
  match c with Eq => d | _ => c end.

Definition integer_float (integer : Z) (float : f64) : comparison :=
  match f64_compare float (F64 (-1) 127) with
  | Lt => Gt
  | _ =>
      match f64_compare float (F64 1 127) with
      | Lt => then_with (integer ?= f64_trunc float) (0 ?= f64_fract_mant float)
      | _ => Lt
      end
  end.

Definition number_cmp (left right : value) : option comparison :=
  match number_integer left, number_integer right with
  | Some l, Some r => Some (l ?= r)
  | Some l, None => integer_float l <$> as_f64_float right
  | None, Some r => CompOpp ∘ integer_float r <$> as_f64_float left
  | None, None =>
      match as_f64_float left, as_f64_float right with
      | Some l, Some r => Some (f64_compare l r)
      | _, _ => None
      end
  end.

(** ** Value validation *)

(** [text.chars().count()] on UTF-8 bytes: continuation bytes do not count. *)
Fixpoint chars_count (s : string) : nat :=
  match s with
  | EmptyString => 0
  | String c s' =>
      (if N.eqb (N.land (N_of_ascii c) 192) 128 then 0 else 1) + chars_count s'
  end%nat.

Definition matches_type (value schema : value) : bool :=
  match as_str (vidx schema "type") with
  | Some k =>
      if decide (k = "object") then is_object value
      else if decide (k = "array") then is_array value
      else if decide (k = "string") then is_string value
      else if decide (k = "boolean") then is_boolean value
      else if decide (k = "integer") then
        bool_decide (is_Some (as_i64 value)) || bool_decide (is_Some (as_u64 value))
      else if decide (k = "number") then is_number value
      else if decide (k = "null") then is_null value
      else false
  | None => false
  end.

(** One numeric bound of the [for (key, inclusive)] loop. *)
Definition check_bound (value schema : value) (path key : string) (lower inclusive : bool)
    : result SchemaError unit :=
  match vget key schema with
  | None => Ok tt
  | Some bound =>
      do order <- ok_or (number_cmp value bound) (ValueSchemaMismatch path);
      let passes :=
        match order with
        | Gt => lower
        | Lt => negb lower
        | Eq => inclusive
        end in
      guard passes else ValueSchemaMismatch path; Ok tt
  end.

Definition check_bounds (value schema : value) (path : string) : result SchemaError unit :=
  if is_number value then
    do _ <- check_bound value schema path "minimum" true true;
    do _ <- check_bound value schema path "maximum" false true;
    do _ <- check_bound value schema path "exclusiveMinimum" true false;
    check_bound value schema path "exclusiveMaximum" false false
  else Ok tt.

(** [Option<u64>] bounds of a length, with their defaults. *)
Definition length_within (n : nat) (schema : value) (min_key max_key : string) : bool :=
  let min := default 0 (as_u64 (vidx schema min_key)) in
  let max := default u64_max (as_u64 (vidx schema max_key)) in
  (min <=? Z.of_nat n) && (Z.of_nat n <=? max).

Section validate.
Variable rec : value -> value -> string -> result SchemaError unit.

Definition validate_object (object : object) (schema : value) (path : string)
    : result SchemaError unit :=
  do properties <- ok_or (as_object (vidx schema "properties")) (ValueSchemaMismatch path);
  refuse negb (length object =? length properties)%nat with ValueSchemaMismatch path;
  fold_result (fun _ '(key, property_schema) =>
      do child <- ok_or (obj_get key object) (ValueSchemaMismatch (path +:+ "." +:+ key));
      rec child property_schema (path +:+ "." +:+ key))
    tt properties.

Definition validate_array (array : list value) (schema : value) (path : string)
    : result SchemaError unit :=
  guard length_within (length array) schema "minItems" "maxItems" else ValueSchemaMismatch path;
  rmap (fun _ => tt)
    (imap_result (fun index child =>
         rec child (vidx schema "items") (path +:+ "[" +:+ pretty index +:+ "]")) array).

Definition validate_value_body (value schema : value) (path : string) : result SchemaError unit :=
  match as_array (vidx schema "oneOf") with
  | Some variants =>
      guard (length (List.filter (fun variant => is_ok (rec value variant path)) variants) =? 1)%nat
        else ValueSchemaMismatch path; Ok tt
  | None =>
  match as_array (vidx schema "anyOf") with
  | Some variants =>
      guard existsb (fun variant => is_ok (rec value variant path)) variants
        else ValueSchemaMismatch path; Ok tt
  | None =>
      guard matches_type value schema else ValueSchemaMismatch path;
      refuse match vget "const" schema with
             | Some expected => bool_decide (expected <> value)
             | None => false
             end with ValueSchemaMismatch path;
      refuse match as_array (vidx schema "enum") with
             | Some choices => bool_decide (value ∉ choices)
             | None => false
             end with ValueSchemaMismatch path;
      do _ <- check_bounds value schema path;
      match value with
      | VObject object => validate_object object schema path
      | VArray array => validate_array array schema path
      | VString text =>
          guard length_within (chars_count text) schema "minLength" "maxLength"
            else ValueSchemaMismatch path; Ok tt
      | _ => Ok tt
      end
  end
  end.
End validate.

Fixpoint validate_value_fuel (fuel : nat) (value schema : value) (path : string)
    : result SchemaError unit :=
  match fuel with
  | O => Err (ValueSchemaMismatch path)
  | S fuel => validate_value_body (validate_value_fuel fuel) value schema path
  end.

Definition validate_value (value schema : value) (path : string) : result SchemaError unit :=
  validate_value_fuel (S (value_size schema)) value schema path.

(** ** Type unions *)

Fixpoint union_kinds (kinds : list string) (types : list value) (path : string)
    : result SchemaError (list (string * list string)) :=
  match types with
  | [] => Ok []
  | kind :: types' =>
      do kind <- ok_or (match as_str kind with
                        | Some k => if mem k kinds then None else Some k
                        | None => None
                        end) (unsupported path "type union requires distinct string kinds");
      do allowed <- schema_keywords kind path;
      do rest <- union_kinds (kind :: kinds) types' path;
      Ok ((kind, allowed) :: rest)
  end.

(** The first key no branch supports. *)
Definition union_unsupported_key (supported : list (string * list string)) (m : object)
    : option string :=
  list_find (fun key => negb (mem key SCHEMA_METADATA)
               && negb (existsb (fun e => mem key e.2) supported) = true) (obj_keys m) ≫= Some ∘ snd.

Definition enum_malformed (m : object) : bool :=
  match obj_get "enum" m with
  | Some v => match as_array v with Some (_ :: _) => false | _ => true end
  | None => false
  end.

(** One branch of the union: [None] when [null] is excluded by [const]/[enum]. *)
Definition union_variant (m : object) (kind : string) (allowed : list string) : option value :=
  let child := obj_retain (fun key => mem key SCHEMA_METADATA || mem key allowed
                                      || mem key ["enum"; "const"]) m in
  let child := obj_insert "type" (VString kind) child in
  if decide (kind = "null") then
    if match obj_get "const" child with Some v => negb (is_null v) | None => false end
       || match obj_get "enum" child ≫= as_array with
          | Some values => bool_decide (VNull ∉ values)
          | None => false
          end
    then None
    else Some (VObject (obj_remove "const" (obj_remove "enum" child)))
  else Some (VObject child).

Definition type_union_variants (m : object) (types : list value) (path : string)
    : result SchemaError (list value) :=
  refuse match types with [] => true | _ => false end
    with unsupported path "empty type union";
  do supported <- union_kinds [] types path;
  match union_unsupported_key supported m with
  | Some key => Err (unsupported path key)
  | None =>
      refuse enum_malformed m with unsupported path "enum requires a nonempty array";
      let variants := omap (fun e => union_variant m e.1 e.2) supported in
      refuse match variants with [] => true | _ => false end with UnsatisfiableSchema path;
      Ok variants
  end.

(** ** Schema normalisation and admission *)

Definition first_some {A B} (f : A -> option B) (l : list A) : option B :=
  head (omap f l).

(** Host-only documentation keywords refused on the strict wire. *)
Definition strict_wire_refusal (m : object) : option string :=
  match first_some (fun key => if contains_key m key then Some (key +:+ " requires host projection") else None)
          ["$defs"; "definitions"] with
  | Some e => Some e
  | None =>
  match first_some (fun key => match obj_get key m with
          | Some v => if is_string v then None else Some (key +:+ " requires a string")
          | None => None end) ["title"; "description"; "$schema"] with
  | Some e => Some e
  | None =>
  match first_some (fun key => match obj_get key m with
          | Some v => if is_boolean v then None else Some (key +:+ " requires a boolean")
          | None => None end) ["deprecated"; "readOnly"; "writeOnly"] with
  | Some e => Some e
  | None =>
      if match obj_get "examples" m with Some v => negb (is_array v) | None => false end
      then Some "examples requires an array"
      else if contains_key m "format"
        && match obj_get "type" m ≫= as_str with
           | Some k => mem k ["integer"; "number"]
           | None => false
           end
      then Some "numeric format requires host projection"
      else None
  end end end.

(** [object.keys().any(|key| !allowed.contains(key))] of the union forms. *)
Definition union_keyword_ok (keyword : string) (m : object) : bool :=
  forallb (fun key => mem key [keyword; "title"; "description"; "$schema"; "$defs"]) (obj_keys m).

(** [as_array().filter(|variants| !variants.is_empty())]. *)
Definition nonempty_array (v : value) : option (list value) :=
  match as_array v with Some (x :: l) => Some (x :: l) | _ => None end.

(** The singleton string tag of a [oneOf] variant. *)
Definition one_of_tag (variant : value) : option string :=
  match as_array (vidx (vidx (vidx variant "properties") "tag") "enum") with
  | Some [v] => as_str v
  | _ => None
  end.

Definition requires_tag (variant : value) : bool :=
  match as_array (vidx variant "required") with
  | Some required => existsb (fun field => veq_str field "tag") required
  | None => false
  end.

Definition copy_constraints (source target : object) (keys : list string) : object :=
  foldl (fun t key => match obj_get key source with
                      | Some v => obj_insert key v t
                      | None => t
                      end) target keys.

Definition keyword_check (m : object) (path : string) (allowed : list string)
    : result SchemaError unit :=
  match list_find (fun key => negb (mem key SCHEMA_METADATA) && negb (mem key allowed) = true)
          (obj_keys m) with
  | Some (_, key) => Err (unsupported path key)
  | None => Ok tt
  end.

Definition length_check (m : object) (path : string) : result SchemaError unit :=
  match first_some (fun key => match obj_get key m with
          | Some v => if as_u64 v then None else Some (key +:+ " requires a nonnegative integer")
          | None => None end) ["minLength"; "maxLength"; "minItems"; "maxItems"] with
  | Some e => Err (unsupported path e)
  | None => Ok tt
  end.

(** [required] must name distinct declared properties. *)
Fixpoint required_distinct (names : list string) (properties : object) (fields : list value) : bool :=
  match fields with
  | [] => true
  | field :: fields' =>
      match as_str field with
      | None => false
      | Some name =>
          contains_key properties name && negb (mem name names)
          && required_distinct (name :: names) properties fields'
      end
  end.

Definition required_ok (m properties : object) : bool :=
  match obj_get "required" m with
  | None => true
  | Some v => match as_array v with
              | None => false
              | Some fields => required_distinct [] properties fields
              end
  end.

Definition is_required (m : object) (name : string) : bool :=
  match obj_get "required" m ≫= as_array with
  | Some required => existsb (fun field => bool_decide (as_str field = Some name)) required
  | None => false
  end.

Definition nullable_wrap (schema : value) : value :=
  json_object [("anyOf", VArray [schema; json_object [("type", VString "null")]])].

(** Bounds a numeric [format] stands for. *)
Definition format_bounds (schema_type : string) (format : option string) : option (value * value) :=
  let pos n := VNumber (PosInt n) in
  let neg n := VNumber (NegInt n) in
  let float m e := VNumber (Float (F64 m e)) in
  match format with
  | None => None
  | Some f =>
      if decide (schema_type = "integer") then
        if decide (f = "int8") then Some (neg (-128), pos 127)
        else if decide (f = "uint8") then Some (pos 0, pos 255)
        else if decide (f = "int16") then Some (neg (-32768), pos 32767)
        else if decide (f = "uint16") then Some (pos 0, pos 65535)
        else if decide (f = "int32") then Some (neg (-2147483648), pos 2147483647)
        else if decide (f = "uint32") then Some (pos 0, pos 4294967295)
        else if decide (f = "int64") then Some (neg i64_min, pos i64_max)
        else if decide (f = "uint64") then Some (pos 0, pos u64_max)
        else None
      else if decide (schema_type = "number") then
        if decide (f = "float") then Some (float (1 - 2 ^ 24) 104, float (2 ^ 24 - 1) 104)
        else if decide (f = "double") then Some (float (1 - 2 ^ 53) 971, float (2 ^ 53 - 1) 971)
        else None
      else None
  end.

(** Keep an existing bound only when it is strictly tighter. *)
Definition tighten (normalized : object) (key : string) (bound : value) (lower : bool) : object :=
  let tighter :=
    match obj_get key normalized ≫= (fun existing => number_cmp existing bound) with
    | Some Gt => lower
    | Some Lt => negb lower
    | _ => false
    end in
  if tighter then normalized else obj_insert key bound normalized.

Definition BOUND_KEYS : list string :=
  ["minimum"; "maximum"; "exclusiveMinimum"; "exclusiveMaximum"].

Definition bounds_check (schema_type : string) (normalized : object) (path : string)
    : result SchemaError unit :=
  match first_some (fun key => match obj_get key normalized with
          | Some bound =>
              if negb (is_number bound)
                 || (bool_decide (schema_type = "integer")
                     && negb (bool_decide (is_Some (as_i64 bound)))
                     && negb (bool_decide (is_Some (as_u64 bound))))
              then Some (key +:+ " requires a supported numeric bound") else None
          | None => None end) BOUND_KEYS with
  | Some e => Err (unsupported path e)
  | None => Ok tt
  end.

Definition apply_format (m : object) (schema_type : string) (normalized : object) (path : string)
    : result SchemaError object :=
  match obj_get "format" m with
  | None => Ok normalized
  | Some format =>
      match format_bounds schema_type (as_str format) with
      | None => Err (unsupported path "unsupported numeric format")
      | Some (low, high) => Ok (tighten (tighten normalized "minimum" low true) "maximum" high false)
      end
  end.

Definition bounds_numeric (normalized : object) (path : string) : result SchemaError unit :=
  match first_some (fun key => match obj_get key normalized with
          | Some v => if is_number v then None else Some (key +:+ " requires a number")
          | None => None end) BOUND_KEYS with
  | Some e => Err (unsupported path e)
  | None => Ok tt
  end.

Section normalize.
Variable rec : value -> string -> result SchemaError value.
Variable mode : SchemaMode.

(** The loop over [oneOf] variants: tags seen so far, index, normalised. *)
Fixpoint one_of_variants (tags : list string) (index : nat) (variants : list value) (path : string)
    : result SchemaError (list value) :=
  match variants with
  | [] => Ok []
  | variant :: variants' =>
      do tag <- ok_or (one_of_tag variant) (unsupported path "oneOf requires disjoint singleton tags");
      refuse negb (veq_str (vidx variant "type") "object") || mem tag tags || negb (requires_tag variant)
        with unsupported path "oneOf requires distinct required tags";
      do n <- rec variant (path +:+ ".oneOf[" +:+ pretty index +:+ "]");
      do rest <- one_of_variants (tag :: tags) (S index) variants' path;
      Ok (n :: rest)
  end.

Definition normalize_one_of (m : object) (variants : value) (path : string) : result SchemaError value :=
  refuse bool_decide (mode = StrictWire)
    with unsupported path "strict tools require anyOf rather than oneOf";
  guard union_keyword_ok "oneOf" m else unsupported path "unsupported union keyword";
  do variants <- ok_or (nonempty_array variants)
    (unsupported path "oneOf requires nonempty variants");
  do normalized <- one_of_variants [] 0 variants path;
  Ok (json_object [("anyOf", VArray normalized)]).

Definition normalize_any_of (m : object) (variants : value) (path : string) : result SchemaError value :=
  guard union_keyword_ok "anyOf" m else unsupported path "unsupported union keyword";
  do variants <- ok_or (nonempty_array variants)
    (unsupported path "anyOf requires nonempty variants");
  do normalized <- imap_result (fun index variant =>
      rec variant (path +:+ ".anyOf[" +:+ pretty index +:+ "]")) variants;
  Ok (json_object [("anyOf", VArray normalized)]).

(** A normalised branch of a type union, pruned when its constants or
    choices cannot match; [None] drops the branch. *)
Definition prune_branch (normalized : value) (path : string) : option value :=
  if match vget "const" normalized with
     | Some v => is_err (validate_value v normalized path)
     | None => false
     end
  then None
  else match as_array (vidx normalized "enum") with
       | Some choices =>
           match List.filter (fun v => is_ok (validate_value v normalized path)) choices with
           | [] => None
           | viable =>
               match normalized with
               | VObject o => Some (VObject (obj_insert "enum" (VArray viable) o))
               | _ => Some normalized
               end
           end
       | None => Some normalized
       end.

Definition normalize_type_union (m : object) (types : list value) (path : string)
    : result SchemaError value :=
  do children <- type_union_variants m types path;
  do normalized <- map_result (fun child => rec child path) children;
  let variants := omap (fun n => prune_branch n path) normalized in
  refuse match variants with [] => true | _ => false end with UnsatisfiableSchema path;
  Ok (json_object [("anyOf", VArray variants)]).

Definition normalize_property (m : object) (path : string) (acc : object) (e : string * value)
    : result SchemaError object :=
  let '(name, property) := e in
  let property_path := path +:+ ".properties." +:+ name in
  do normalized_property <- rec property property_path;
  let normalized_property :=
    if negb (is_required m name)
       && is_err (validate_value VNull normalized_property property_path)
    then nullable_wrap normalized_property
    else normalized_property in
  Ok (obj_insert name normalized_property acc).

Definition normalize_object (m : object) (normalized : object) (path : string)
    : result SchemaError object :=
  do properties <- ok_or (obj_get "properties" m ≫= as_object)
    (unsupported path "object requires properties object");
  refuse match obj_get "additionalProperties" m with
         | Some v => bool_decide (v <> VBool false)
         | None => false
         end with unsupported path "open object properties are unsupported";
  guard required_ok m properties
    else unsupported path "required must name distinct declared properties";
  refuse bool_decide (mode = StrictWire) && bool_decide (obj_get "additionalProperties" m <> Some (VBool false))
    with unsupported path "strict objects require additionalProperties:false";
  refuse bool_decide (mode = StrictWire)
         && match obj_get "required" m ≫= as_array with
            | Some required => negb (length required =? length properties)%nat
            | None => true
            end
    with unsupported path "strict objects must require every property";
  do normalized_properties <- fold_result (normalize_property m path) [] properties;
  let n := obj_insert "required" (VArray (VString <$> obj_keys properties)) normalized in
  let n := obj_insert "properties" (VObject normalized_properties) n in
  Ok (obj_insert "additionalProperties" (VBool false) n).

Definition normalize_array (m : object) (normalized : object) (path : string)
    : result SchemaError object :=
  do items <- ok_or (obj_get "items" m) (unsupported path "array requires items schema");
  do n <- rec items (path +:+ ".items");
  Ok (copy_constraints m (obj_insert "items" n normalized) ["minItems"; "maxItems"]).

(** The per-type part: keyword admission, copied constraints, bounds. *)
Definition normalize_typed (m : object) (path : string) : result SchemaError value :=
  do schema_type <- ok_or (obj_get "type" m ≫= as_str) (unsupported path "missing or non-string type");
  do allowed <- schema_keywords schema_type path;
  do _ <- keyword_check m path allowed;
  do _ <- length_check m path;
  refuse enum_malformed m with unsupported path "enum requires a nonempty array";
  let normalized := obj_insert "type" (VString schema_type) [] in
  do normalized <-
    (if decide (schema_type = "object") then normalize_object m normalized path
     else if decide (schema_type = "array") then normalize_array m normalized path
     else if decide (schema_type = "string") then
       Ok (copy_constraints m normalized ["minLength"; "maxLength"; "enum"; "const"])
     else if decide (schema_type = "boolean") then
       Ok (copy_constraints m normalized ["enum"; "const"])
     else if decide (schema_type = "integer" \/ schema_type = "number") then
       Ok (copy_constraints m normalized
             ["minimum"; "maximum"; "exclusiveMinimum"; "exclusiveMaximum"; "enum"; "const"])
     else Ok normalized);
  do _ <- bounds_check schema_type normalized path;
  do normalized <- apply_format m schema_type normalized path;
  do _ <- bounds_numeric normalized path;
  Ok (VObject normalized).

Definition normalize_schema_body (schema : value) (path : string) : result SchemaError value :=
  do m <- ok_or (as_object schema) (unsupported path "schema must be an object");
  do _ <- (if decide (mode = StrictWire) then
             match strict_wire_refusal m with
             | Some e => Err (unsupported path e)
             | None => Ok tt
             end
           else Ok tt);
  match obj_get "oneOf" m with
  | Some variants => normalize_one_of m variants path
  | None =>
  match obj_get "anyOf" m with
  | Some variants => normalize_any_of m variants path
  | None =>
  match obj_get "type" m ≫= as_array with
  | Some types => normalize_type_union m types path
  | None => normalize_typed m path
  end end end.
End normalize.

Fixpoint normalize_schema_fuel (fuel : nat) (mode : SchemaMode) (schema : value) (path : string)
    : result SchemaError value :=
  match fuel with
  | O => Err (unsupported path "")
  | S fuel => normalize_schema_body (normalize_schema_fuel fuel mode) mode schema path
  end.

Definition normalize_schema_mode (schema : value) (path : string) (mode : SchemaMode)
    : result SchemaError value :=
  normalize_schema_fuel (S (value_size schema)) mode schema path.

Definition normalize_schema (schema : value) (path : string) : result SchemaError value :=
  normalize_schema_mode schema path HostProjection.

Definition validate_function_parameters (schema : value) : result SchemaError unit :=
  refuse negb (veq_str (vidx schema "type") "object")
    with unsupported "$" "function parameters must be an object";
  rmap (fun _ => tt) (normalize_schema_mode schema "$" StrictWire).

(** ** Host argument projection *)

Inductive ArgumentProjection :=
| PIdentity
| PObject (fields : list (string * bool * ArgumentProjection))
| PArray (items : ArgumentProjection)
| PAlternatives (variants : list (value * ArgumentProjection)).

Section projection_new.
Variable rec : value -> result SchemaError ArgumentProjection.

Definition projection_alternative (variant : value) : result SchemaError (value * ArgumentProjection) :=
  do normalized <- normalize_schema variant "$";
  do projection <- rec variant;
  Ok (normalized, projection).

Definition projection_field (schema : value) (e : string * value)
    : result SchemaError (string * bool * ArgumentProjection) :=
  let '(name, property) := e in
  let required :=
    match as_array (vidx schema "required") with
    | Some names => existsb (fun v => bool_decide (as_str v = Some name)) names
    | None => false
    end in
  do normalized <- normalize_schema property "$";
  let nullable := is_ok (validate_value VNull normalized "$") in
  do projection <- rec property;
  Ok (name, negb required && negb nullable, projection).

Definition projection_new_body (schema : value) : result SchemaError ArgumentProjection :=
  match match as_array (vidx schema "anyOf") with
        | Some variants => Some variants
        | None => as_array (vidx schema "oneOf")
        end with
  | Some variants => rmap PAlternatives (map_result projection_alternative variants)
  | None =>
      match as_array (vidx schema "type") with
      | Some types =>
          do variants <- type_union_variants (default [] (as_object schema)) types "$";
          rmap PAlternatives (map_result projection_alternative variants)
      | None =>
          match as_str (vidx schema "type") with
          | Some kind =>
              if decide (kind = "object") then
                match as_object (vidx schema "properties") with
                | Some properties => rmap PObject (map_result (projection_field schema) properties)
                | None => Ok (PObject [])
                end
              else if decide (kind = "array") then rmap PArray (rec (vidx schema "items"))
              else Ok PIdentity
          | None => Ok PIdentity
          end
      end
  end.
End projection_new.

Fixpoint projection_new_fuel (fuel : nat) (schema : value) : result SchemaError ArgumentProjection :=
  match fuel with
  | O => Err (unsupported "$" "")
  | S fuel => projection_new_body (projection_new_fuel fuel) schema
  end.

Definition ArgumentProjection_new (schema : value) : result SchemaError ArgumentProjection :=
  projection_new_fuel (S (value_size schema)) schema.

(** The candidates of an [Alternatives] projection must agree. *)
Fixpoint merge_candidates (decoded : option value) (candidates : list (result SchemaError value))
    (path : string) : result SchemaError (option value) :=
  match candidates with
  | [] => Ok decoded
  | r :: rest =>
      do candidate <- r;
      refuse match decoded with
             | Some previous => bool_decide (previous <> candidate)
             | None => false
             end with AmbiguousArguments path;
      merge_candidates (Some candidate) rest path
  end.

(** The loop over the fields of an [Object] projection. *)
Definition decode_fields (decode : ArgumentProjection -> value -> string -> result SchemaError value)
    (path : string) : list (string * bool * ArgumentProjection) -> object -> result SchemaError object :=
  fix go fields m :=
    match fields with
    | [] => Ok m
    | (name, omit_null, projection) :: fields' =>
        match obj_get name m with
        | Some child =>
            if omit_null && is_null child then go fields' (obj_remove name m)
            else do child <- decode projection child (path +:+ "." +:+ name);
                 go fields' (obj_insert name child m)
        | None => go fields' m
        end
    end.

(** The decodings of the alternatives whose schema accepts the value. *)
Definition decode_variants (decode : ArgumentProjection -> value -> string -> result SchemaError value)
    (v : value) (path : string) : list (value * ArgumentProjection) -> list (result SchemaError value) :=
  fix go variants :=
    match variants with
    | [] => []
    | (schema, projection) :: variants' =>
        if is_ok (validate_value v schema path) then decode projection v path :: go variants'
        else go variants'
    end.

Fixpoint projection_decode (p : ArgumentProjection) (v : value) (path : string)
    : result SchemaError value :=
  match p with
  | PIdentity => Ok v
  | PObject fields =>
      match v with
      | VObject m => rmap VObject (decode_fields projection_decode path fields m)
      | _ => Ok v
      end
  | PArray projection =>
      match v with
      | VArray values =>
          rmap VArray
            (imap_result (fun index child =>
                 projection_decode projection child (path +:+ "[" +:+ pretty index +:+ "]")) values)
      | _ => Ok v
      end
  | PAlternatives variants =>
      do decoded <- merge_candidates None (decode_variants projection_decode v path variants) path;
      Ok (default v decoded)
  end.

Record FunctionToolSchema := {
  parameters : value;
  projection : ArgumentProjection
}.

Definition FunctionToolSchema_new (schema : value) : result SchemaError FunctionToolSchema :=
  refuse negb (veq_str (vidx schema "type") "object")
    with unsupported "$" "function parameters must be an object";
  do parameters <- normalize_schema schema "$";
  do projection <- ArgumentProjection_new schema;
  Ok {| parameters := parameters; projection := projection |}.

Definition decode_arguments (s : FunctionToolSchema) (arguments : value) : result SchemaError value :=
  projection_decode (projection s) arguments "$".
