(* ===== verification/SchemaNormal.v ===== *)
(** Normal forms of [SchemaModel.v] ([crates/harness-schema]): the recursive
    functions satisfy their defining equations, a normalised schema is a normal
    form, and a normal form normalises to itself. *)

From S2P Require Import Prelude Json SchemaModel.

(** ** The recursive functions satisfy their defining equations *)

Lemma vget_size k v s : vget k s = Some v -> (S (value_size v) < value_size s)%nat.
Proof. destruct s; simpl; try done. apply value_size_get. Qed.

Lemma vidx_size k s : (exists k', vidx s k' <> VNull) -> (value_size (vidx s k) < value_size s)%nat.
Proof.
  intros [k' Hk']. unfold vidx. destruct (vget k s) as [v|] eqn:E; simpl.
  - apply vget_size in E. lia.
  - destruct (vget k' s) as [v'|] eqn:E'; [apply vget_size in E'; lia|].
    unfold vidx in Hk'. by rewrite E' in Hk'.
Qed.

Lemma vidx_array_size k s l x :
  as_array (vidx s k) = Some l -> x ∈ l -> (value_size x < value_size s)%nat.
Proof.
  unfold vidx. destruct (vget k s) as [v|] eqn:E; simpl; [|done].
  destruct v; simpl; try done. intros [= ->] Hx.
  apply vget_size in E. apply value_size_elem in Hx. lia.
Qed.

Lemma vidx_object_size k s m e :
  as_object (vidx s k) = Some m -> e ∈ m -> (value_size e.2 < value_size s)%nat.
Proof.
  unfold vidx. destruct (vget k s) as [v|] eqn:E; simpl; [|done].
  destruct v; simpl; try done. intros [= ->] Hx. destruct e as [n w].
  apply vget_size in E. apply value_size_entry in Hx. simpl in *. lia.
Qed.

Lemma matches_type_object value schema :
  matches_type value schema = true -> exists k, vidx schema k <> VNull.
Proof.
  unfold matches_type. destruct (vidx schema "type") eqn:E; simpl; try done.
  intros _. exists "type". by rewrite E.
Qed.

Lemma validate_value_body_ext rec1 rec2 v s p :
  (forall v' s' p', (value_size s' < value_size s)%nat -> rec1 v' s' p' = rec2 v' s' p') ->
  validate_value_body rec1 v s p = validate_value_body rec2 v s p.
Proof.
  intros Hrec. unfold validate_value_body.
  destruct (as_array (vidx s "oneOf")) as [l|] eqn:E1.
  { erewrite (List.filter_ext_in _ (fun x => is_ok (rec2 v x p))); [done|].
    intros x Hx%list_elem_of_In. rewrite Hrec; [done|]. by eapply vidx_array_size. }
  destruct (as_array (vidx s "anyOf")) as [l|] eqn:E2.
  { assert (existsb (fun x => is_ok (rec1 v x p)) l = existsb (fun x => is_ok (rec2 v x p)) l) as ->;
      [|done].
    assert (forall x, x ∈ l -> is_ok (rec1 v x p) = is_ok (rec2 v x p)) as H.
    { intros x Hx. rewrite Hrec; [done|]. by eapply vidx_array_size. }
    clear -H. induction l as [|x l IH]; simpl; [done|]. rewrite H, IH; set_solver. }
  destruct (matches_type v s) eqn:Em; [|done]. apply matches_type_object in Em.
  do 2 (case_if; [done|]).
  destruct (check_bounds v s p); simpl; [|done].
  destruct v as [| | | |l|m]; try done.
  - unfold validate_array. case_if; [|done]. f_equal.
    apply imap_result_from_ext, Forall_forall. intros x _ i. apply Hrec.
    by apply vidx_size.
  - unfold validate_object. destruct (as_object (vidx s "properties")) as [ps|] eqn:E; simpl; [|done].
    case_if; [done|]. apply fold_result_ext, Forall_forall.
    intros [k ps'] Hin ?. destruct (obj_get k m); simpl; [|done].
    apply Hrec. by eapply (vidx_object_size _ _ _ (k, ps')).
Qed.

Lemma validate_value_fuel_enough n1 n2 v s p :
  (value_size s < n1)%nat -> (value_size s < n2)%nat ->
  validate_value_fuel n1 v s p = validate_value_fuel n2 v s p.
Proof.
  revert n2 v s p. induction n1 as [|n1 IH]; intros [|n2] v s p H1 H2; [lia..|].
  simpl. apply validate_value_body_ext. intros v' s' p' Hs. apply IH; lia.
Qed.

Lemma validate_value_eq v s p :
  validate_value v s p = validate_value_body validate_value v s p.
Proof.
  unfold validate_value at 1. simpl. apply validate_value_body_ext.
  intros v' s' p' Hs. apply validate_value_fuel_enough; lia.
Qed.

Lemma union_variant_size m kind allowed c types :
  obj_get "type" m = Some (VArray types) -> types <> [] -> "type" ∈ allowed ->
  union_variant m kind allowed = Some c -> (value_size c < value_size (VObject m))%nat.
Proof.
  intros Ht Hne Hal. unfold union_variant.
  set (keep := fun key => mem key SCHEMA_METADATA || mem key allowed || mem key ["enum"; "const"]).
  set (ch := obj_insert "type" (VString kind) (obj_retain keep m)).
  assert (obj_size ch < obj_size m)%nat as Hch.
  { subst ch. pose proof (obj_sublist_size _ _ (obj_retain_sublist keep m)) as Hle.
    assert (keep "type" = true) as Ek.
    { unfold keep, mem. by rewrite (bool_decide_true ("type" ∈ allowed)), orb_true_r. }
    pose proof (obj_get_retain keep "type" m Ek) as Hg. rewrite Ht in Hg.
    apply (obj_insert_size _ (VString kind)) in Hg.
    destruct types as [|t types]; [done|]. pose proof (value_size_pos t). simpl in *. lia. }
  assert (forall o, o `sublist_of` ch -> (value_size (VObject o) < value_size (VObject m))%nat) as Hsub.
  { intros o Ho%obj_sublist_size. unfold obj_size in *. simpl in *. lia. }
  destruct (decide (kind = "null")).
  - case_match; [done|]. intros [= <-]. apply Hsub.
    etrans; apply obj_remove_sublist.
  - intros [= <-]. by apply Hsub.
Qed.

Lemma schema_keywords_type kind path allowed :
  schema_keywords kind path = Ok allowed -> "type" ∈ allowed.
Proof.
  unfold schema_keywords. repeat case_decide; intros; simplify_eq; set_solver.
Qed.

Lemma union_kinds_keywords kinds types path supported e :
  union_kinds kinds types path = Ok supported -> e ∈ supported ->
  schema_keywords e.1 path = Ok e.2.
Proof.
  revert kinds supported. induction types as [|t types IH]; intros kinds supported; simpl.
  - intros [= <-]. set_solver.
  - intros H. inv_ok. subst. rewrite elem_of_cons. intros [->|Hin]; [done|]. by eapply IH.
Qed.

(** What a successful type-union split says about its branches. *)
Lemma type_union_variants_Ok m types path vs :
  type_union_variants m types path = Ok vs ->
  types <> [] /\ vs <> [] /\ exists supported,
    union_kinds [] types path = Ok supported /\
    union_unsupported_key supported m = None /\
    enum_malformed m = false /\
    vs = omap (fun e => union_variant m e.1 e.2) supported.
Proof.
  unfold type_union_variants. destruct types as [|t types]; [done|]. intros H. inv_ok.
  destruct (union_unsupported_key _ _) eqn:E; [done|]. inv_ok. subst.
  split_and!; [done| |].
  - intros E'. rewrite E' in *. done.
  - exists x. done.
Qed.

Lemma type_union_variants_size m types path vs c :
  obj_get "type" m = Some (VArray types) ->
  type_union_variants m types path = Ok vs -> c ∈ vs ->
  (value_size c < value_size (VObject m))%nat.
Proof.
  intros Ht (Hne & _ & supported & Hs & _ & _ & ->)%type_union_variants_Ok.
  rewrite list_elem_of_omap. intros (e & He & Hv). eapply union_variant_size; [done..| |done].
  by eapply schema_keywords_type, union_kinds_keywords.
Qed.

Lemma as_array_get k m l : (obj_get k m ≫= as_array) = Some l -> obj_get k m = Some (VArray l).
Proof. destruct (obj_get k m) as [[]|]; simpl; intros; simplify_eq; done. Qed.

Lemma as_object_get k m l : (obj_get k m ≫= as_object) = Some l -> obj_get k m = Some (VObject l).
Proof. destruct (obj_get k m) as [[]|]; simpl; intros; simplify_eq; done. Qed.

Lemma get_array_size k m l x :
  obj_get k m = Some (VArray l) -> x ∈ l -> (value_size x < value_size (VObject m))%nat.
Proof. intros H%value_size_get Hx%value_size_elem. lia. Qed.

Lemma get_object_size k m o e :
  obj_get k m = Some (VObject o) -> e ∈ o -> (value_size e.2 < value_size (VObject m))%nat.
Proof. destruct e. intros H%value_size_get Hx%value_size_entry. simpl in *. lia. Qed.

Lemma nonempty_array_Some v l : nonempty_array v = Some l <-> v = VArray l /\ l <> [].
Proof.
  unfold nonempty_array. destruct v as [| | | |[]|]; simpl; naive_solver.
Qed.

Lemma one_of_variants_ext rec1 rec2 tags i l p :
  Forall (fun x => forall p', rec1 x p' = rec2 x p') l ->
  one_of_variants rec1 tags i l p = one_of_variants rec2 tags i l p.
Proof.
  intros H. revert tags i. induction H as [|x l Hx _ IH]; intros tags i; simpl; [done|].
  destruct (one_of_tag x); simpl; [|done]. case_if; [done|]. rewrite Hx.
  destruct (rec2 _ _); simpl; [|done]. by rewrite IH.
Qed.

Lemma rbind_ext {E A B} (r : result E A) (f g : A -> result E B) :
  (forall a, r = Ok a -> f a = g a) -> rbind r f = rbind r g.
Proof. destruct r; simpl; auto. Qed.

Lemma normalize_schema_body_ext rec1 rec2 mode s p :
  (forall s' p', (value_size s' < value_size s)%nat -> rec1 s' p' = rec2 s' p') ->
  normalize_schema_body rec1 mode s p = normalize_schema_body rec2 mode s p.
Proof.
  intros Hrec. unfold normalize_schema_body. destruct s as [| | | | |m]; simpl; try done.
  apply rbind_ext. intros _ _.
  destruct (obj_get "oneOf" m) as [vs|] eqn:E1.
  { unfold normalize_one_of. case_if; [done|]. case_if; [|done].
    apply rbind_ext. intros l Hl%ok_or_Ok%nonempty_array_Some. f_equal. destruct Hl as [-> _].
    apply one_of_variants_ext, Forall_forall. intros y Hy p'. apply Hrec. by eapply get_array_size. }
  destruct (obj_get "anyOf" m) as [vs|] eqn:E2.
  { unfold normalize_any_of. case_if; [|done].
    apply rbind_ext. intros l Hl%ok_or_Ok%nonempty_array_Some. f_equal. destruct Hl as [-> _].
    apply imap_result_from_ext, Forall_forall.
    intros y Hy i. apply Hrec. by eapply get_array_size. }
  destruct (obj_get "type" m ≫= as_array) as [types|] eqn:E3.
  { apply as_array_get in E3. unfold normalize_type_union. apply rbind_ext. intros vs Hvs. f_equal.
    apply map_result_ext, Forall_forall. intros c Hc. apply Hrec. by eapply type_union_variants_size. }
  unfold normalize_typed. repeat (apply rbind_ext; intros ? ?). case_if; [done|].
  f_equal. case_decide.
  { unfold normalize_object. apply rbind_ext. intros ps Hps%ok_or_Ok%as_object_get.
    case_if; [done|]. case_if; [|done]. do 2 (case_if; [done|]). f_equal.
    apply fold_result_ext, Forall_forall. intros [k q] Hq acc. unfold normalize_property.
    f_equal. apply Hrec. by eapply (get_object_size _ _ _ (k, q)). }
  case_decide; [|done]. unfold normalize_array. apply rbind_ext. intros items Hi%ok_or_Ok.
  f_equal. apply Hrec. apply value_size_get in Hi. lia.
Qed.

Lemma normalize_schema_fuel_enough n1 n2 mode s p :
  (value_size s < n1)%nat -> (value_size s < n2)%nat ->
  normalize_schema_fuel n1 mode s p = normalize_schema_fuel n2 mode s p.
Proof.
  revert n2 s p. induction n1 as [|n1 IH]; intros [|n2] s p H1 H2; [lia..|].
  simpl. apply normalize_schema_body_ext. intros s' p' Hs. apply IH; lia.
Qed.

Lemma normalize_schema_eq s p mode :
  normalize_schema_mode s p mode =
  normalize_schema_body (fun s p => normalize_schema_mode s p mode) mode s p.
Proof.
  unfold normalize_schema_mode at 1. simpl. apply normalize_schema_body_ext.
  intros s' p' Hs. apply normalize_schema_fuel_enough; lia.
Qed.

(** ** Normal forms *)

(** The keywords a normalised schema of a scalar type may carry. *)
Definition copied_keys (kind : string) : list string :=
  if decide (kind = "string") then ["minLength"; "maxLength"; "enum"; "const"]
  else if decide (kind = "boolean") then ["enum"; "const"]
  else if decide (kind = "integer" \/ kind = "number") then
    ["minimum"; "maximum"; "exclusiveMinimum"; "exclusiveMaximum"; "enum"; "const"]
  else [].

Definition SCALARS : list string := ["string"; "boolean"; "integer"; "number"; "null"].

Record constraints_ok (kind : string) (o : object) : Prop := {
  co_sorted : obj_sorted o;
  co_type : obj_get "type" o = Some (VString kind);
  co_length : forall p, length_check o p = Ok tt;
  co_enum : enum_malformed o = false;
  co_bounds : forall p, bounds_check kind o p = Ok tt
}.

Inductive normal : value -> Prop :=
| normal_any vs :
    vs <> [] -> Forall normal vs -> normal (VObject [("anyOf", VArray vs)])
| normal_object ps :
    obj_sorted ps -> Forall (fun e => normal e.2) ps ->
    normal (VObject [("additionalProperties", VBool false); ("properties", VObject ps);
                     ("required", VArray (VString <$> obj_keys ps)); ("type", VString "object")])
| normal_array o items :
    constraints_ok "array" o -> obj_get "items" o = Some items -> normal items ->
    obj_keys o ⊆ ["type"; "items"; "minItems"; "maxItems"] ->
    normal (VObject o)
| normal_scalar kind o :
    kind ∈ SCALARS -> constraints_ok kind o -> obj_keys o ⊆ "type" :: copied_keys kind ->
    normal (VObject o).

Lemma obj_get_copy k m t keys :
  NoDup keys ->
  obj_get k (copy_constraints m t keys) =
  if decide (k ∈ keys) then match obj_get k m with Some v => Some v | None => obj_get k t end
  else obj_get k t.
Proof.
  unfold copy_constraints. revert t. induction keys as [|k' keys IH]; intros t Hnd; cbn [foldl].
  { by rewrite decide_False by set_solver. }
  apply NoDup_cons in Hnd as [Hk' Hnd]. rewrite IH by done.
  destruct (decide (k = k')) as [->|Hne].
  - rewrite (decide_False (P := k' ∈ keys)) by done. rewrite decide_True by set_solver.
    destruct (obj_get k' m); [apply obj_get_insert_eq | done].
  - assert (obj_get k match obj_get k' m with Some v => obj_insert k' v t | None => t end
            = obj_get k t) as ->.
    { destruct (obj_get k' m); [by apply obj_get_insert_ne | done]. }
    destruct (decide (k ∈ keys)).
    + by rewrite decide_True by set_solver.
    + by rewrite decide_False by set_solver.
Qed.

Lemma copy_constraints_sorted m t keys : obj_sorted t -> obj_sorted (copy_constraints m t keys).
Proof.
  unfold copy_constraints. revert t. induction keys as [|k keys IH]; intros t Ht; simpl; [done|].
  apply IH. destruct (obj_get k m); [by apply obj_insert_sorted | done].
Qed.

(** Copying the constraints of an object that has no other key rebuilds it. *)
Lemma copy_constraints_id o t keys :
  obj_sorted o -> obj_sorted t -> NoDup keys ->
  (forall k v, obj_get k t = Some v -> obj_get k o = Some v) ->
  obj_keys o ⊆ obj_keys t ++ keys ->
  copy_constraints o t keys = o.
Proof.
  intros Ho Ht Hnd Hto Hkeys. apply obj_ext; [by apply copy_constraints_sorted | done|].
  intros k. rewrite obj_get_copy by done. destruct (obj_get k t) as [v|] eqn:E.
  - apply Hto in E. rewrite E. by case_decide.
  - destruct (obj_get k o) as [v|] eqn:E'; [|by case_decide].
    assert (k ∈ obj_keys t ++ keys) as [Hk|Hk]%elem_of_app.
    { apply Hkeys, obj_get_key. by eexists. }
    + by apply obj_get_None in E.
    + by rewrite decide_True.
Qed.

Lemma obj_keys_none o l k : obj_keys o ⊆ l -> k ∉ l -> obj_get k o = None.
Proof. intros Hl Hk. apply obj_get_None. set_solver. Qed.

Lemma strict_wire_plain o :
  Forall (fun k => obj_get k o = None) ("format" :: SCHEMA_METADATA) ->
  strict_wire_refusal o = None.
Proof.
  unfold SCHEMA_METADATA. intros H. repeat (apply Forall_cons in H as [? H]).
  unfold strict_wire_refusal, first_some, contains_key; simpl.
  repeat match goal with H : obj_get _ o = None |- _ => rewrite H; clear H end. done.
Qed.

Lemma keyword_check_Ok o p allowed :
  keyword_check o p allowed = Ok tt <->
  Forall (fun k => k ∈ SCHEMA_METADATA \/ k ∈ allowed) (obj_keys o).
Proof.
  unfold keyword_check. destruct (list_find _ _) as [[i k]|] eqn:E.
  - split; [done|]. apply list_find_Some in E as (Hi & Hk & _). rewrite Forall_forall.
    intros H. specialize (H k (list_elem_of_lookup_2 _ _ _ Hi)). unfold mem in Hk.
    destruct (bool_decide_reflect (k ∈ SCHEMA_METADATA)),
      (bool_decide_reflect (k ∈ allowed)); naive_solver.
  - split; [intros _|done]. apply list_find_None in E. eapply Forall_impl; [exact E|].
    intros k Hk. unfold mem in Hk.
    destruct (bool_decide_reflect (k ∈ SCHEMA_METADATA)),
      (bool_decide_reflect (k ∈ allowed)); naive_solver.
Qed.

(** Two objects that agree on the inspected keys pass the same checks. *)
Lemma first_some_ext {A B} (f g : A -> option B) l :
  Forall (fun x => f x = g x) l -> first_some f l = first_some g l.
Proof.
  unfold first_some. intros H. f_equal. induction H as [|x l Hx _ IH]; csimpl; [done|].
  by rewrite Hx, IH.
Qed.

Lemma length_check_ext o1 o2 p :
  Forall (fun k => obj_get k o1 = obj_get k o2) ["minLength"; "maxLength"; "minItems"; "maxItems"] ->
  length_check o1 p = length_check o2 p.
Proof.
  intros H. unfold length_check. erewrite first_some_ext; [done|].
  eapply Forall_impl; [exact H|]. simpl. by intros k ->.
Qed.

Lemma bounds_check_ext kind o1 o2 p :
  Forall (fun k => obj_get k o1 = obj_get k o2) BOUND_KEYS ->
  bounds_check kind o1 p = bounds_check kind o2 p.
Proof.
  intros H. unfold bounds_check. erewrite first_some_ext; [done|].
  eapply Forall_impl; [exact H|]. simpl. by intros k ->.
Qed.

Lemma first_some_None {A B} (f : A -> option B) l :
  first_some f l = None <-> Forall (fun x => f x = None) l.
Proof.
  unfold first_some. induction l as [|x l IH]; csimpl; [by split; [constructor|]|].
  rewrite Forall_cons, <- IH. destruct (f x); simpl; naive_solver.
Qed.

Lemma bounds_check_Ok kind o p :
  bounds_check kind o p = Ok tt <->
  Forall (fun k => forall b, obj_get k o = Some b ->
            is_number b = true /\
            (kind = "integer" -> is_Some (as_i64 b) \/ is_Some (as_u64 b))) BOUND_KEYS.
Proof.
  unfold bounds_check. destruct (first_some _ _) eqn:E.
  - split; [done|]. intros H. exfalso.
    assert (first_some (fun key => match obj_get key o with
      | Some bound => if negb (is_number bound) || (bool_decide (kind = "integer")
            && negb (bool_decide (is_Some (as_i64 bound))) && negb (bool_decide (is_Some (as_u64 bound))))
          then Some (key +:+ " requires a supported numeric bound") else None
      | None => None end) BOUND_KEYS = None); [|congruence].
    apply first_some_None. eapply Forall_impl; [exact H|]. intros k Hk; simpl in *.
    destruct (obj_get k o) as [b|]; [|done]. destruct (Hk b eq_refl) as [-> Hi]; simpl.
    case_bool_decide; simpl; [|done]. destruct (Hi H0) as [Hs|Hs];
      rewrite (bool_decide_true _ Hs); simpl; [done|]. by rewrite andb_false_r.
  - split; [intros _|done]. apply first_some_None in E. eapply Forall_impl; [exact E|].
    intros k Hk b Hb; simpl in Hk. rewrite Hb in Hk. destruct (is_number b); simpl in Hk; [|done].
    split; [done|]. intros ->. rewrite bool_decide_true in Hk by done. simpl in Hk.
    repeat case_bool_decide; naive_solver.
Qed.

Lemma bounds_check_numeric kind o p q :
  bounds_check kind o p = Ok tt -> bounds_numeric o q = Ok tt.
Proof.
  intros H%bounds_check_Ok. unfold bounds_numeric.
  match goal with |- match ?x with _ => _ end = _ => assert (x = None) as ->; [|done] end.
  apply first_some_None. eapply Forall_impl; [exact H|]. intros k Hk; simpl in *.
  destruct (obj_get k o) as [b|]; [|done]. by destruct (Hk b eq_refl) as [-> _].
Qed.

Lemma bounds_check_path kind o p q : bounds_check kind o p = Ok tt -> bounds_check kind o q = Ok tt.
Proof. unfold bounds_check. by case_match. Qed.

Lemma length_check_path o p q : length_check o p = Ok tt -> length_check o q = Ok tt.
Proof. unfold length_check. by case_match. Qed.

(** The final bound checks of a normalised object that has no [format]. *)
Lemma typed_tail kind o p :
  constraints_ok kind o -> obj_get "format" o = None ->
  (do _ <- bounds_check kind o p;
   do normalized <- apply_format o kind o p;
   do _ <- bounds_numeric normalized p; Ok (VObject normalized)) = Ok (VObject o).
Proof.
  intros Hc Hf. rewrite (co_bounds _ _ Hc). simpl. unfold apply_format. rewrite Hf. simpl.
  by rewrite (bounds_check_numeric _ _ _ p (co_bounds _ _ Hc p)).
Qed.

(** The checks [normalize_typed] makes before it dispatches on the type. *)
Lemma typed_head {A} kind o p allowed (k : string -> result SchemaError A) :
  constraints_ok kind o -> schema_keywords kind p = Ok allowed -> obj_keys o ⊆ allowed ->
  (do schema_type <- ok_or (obj_get "type" o ≫= as_str) (unsupported p "missing or non-string type");
   do allowed <- schema_keywords schema_type p;
   do _ <- keyword_check o p allowed;
   do _ <- length_check o p;
   refuse enum_malformed o with unsupported p "enum requires a nonempty array";
   k schema_type) = k kind.
Proof.
  intros Hc Hk Hsub. rewrite (co_type _ _ Hc); simpl. rewrite Hk; simpl.
  assert (keyword_check o p allowed = Ok tt) as ->.
  { apply keyword_check_Ok, Forall_forall. intros x Hx. right. by apply Hsub. }
  simpl. rewrite (co_length _ _ Hc); simpl. by rewrite (co_enum _ _ Hc).
Qed.

Lemma constraints_copy_id kind o keys :
  constraints_ok kind o -> NoDup keys -> obj_keys o ⊆ "type" :: keys ->
  copy_constraints o [("type", VString kind)] keys = o.
Proof.
  intros Hc Hnd Hsub. apply copy_constraints_id; [apply Hc | repeat constructor | done | | done].
  intros k v; simpl. case_decide; [|done]. intros [= <-]. subst. apply Hc.
Qed.

Lemma normalize_typed_scalar rec mode kind o p :
  kind ∈ SCALARS -> constraints_ok kind o -> obj_keys o ⊆ "type" :: copied_keys kind ->
  normalize_typed rec mode o p = Ok (VObject o).
Proof.
  intros Hk Hc Hsub. unfold normalize_typed.
  assert (obj_get "format" o = None) as Hf.
  { eapply obj_keys_none; [exact Hsub|].
    unfold SCALARS in Hk. repeat (apply elem_of_cons in Hk as [->|Hk]; [by_decide|]). by apply elem_of_nil in Hk. }
  unfold SCALARS in Hk. repeat (apply elem_of_cons in Hk as [->|Hk]); [..|set_solver];
    (erewrite (typed_head _ _ _ _ (fun schema_type => _)); [|exact Hc|reflexivity|set_solver]);
    cbn -[copy_constraints bounds_check apply_format bounds_numeric]; eval_decide; cbn [rbind];
    rewrite ?constraints_copy_id by (first [done | by_decide]).
  all: try (by apply typed_tail).
  change [("type", VString "null")] with (copy_constraints o [("type", VString "null")] []).
  rewrite constraints_copy_id by (done || constructor). by apply typed_tail.
Qed.

Lemma normalize_typed_array rec mode o items p :
  constraints_ok "array" o -> obj_get "items" o = Some items ->
  (forall p', rec items p' = Ok items) ->
  obj_keys o ⊆ ["type"; "items"; "minItems"; "maxItems"] ->
  normalize_typed rec mode o p = Ok (VObject o).
Proof.
  intros Hc Hi Hrec Hsub. unfold normalize_typed.
  erewrite (typed_head _ _ _ _ (fun schema_type => _)); [|exact Hc|reflexivity|set_solver].
  eval_decide. unfold normalize_array. rewrite Hi. cbn [ok_or rbind]. rewrite Hrec. cbn [rbind].
  rewrite copy_constraints_id.
  - apply typed_tail; [done|]. eapply obj_keys_none; [exact Hsub | set_solver].
  - apply Hc.
  - apply obj_insert_sorted. repeat constructor.
  - by_decide.
  - intros k v. rewrite obj_get_insert. case_decide; [intros [= <-]; by subst|].
    simpl. case_decide; [|done]. intros [= <-]. subst. apply Hc.
  - cbn. set_solver.
Qed.

(** Rebuilding a sorted property table from properties that normalise to
    themselves and are all required. *)
Lemma fold_properties_id rec m p ps acc :
  obj_sorted (acc ++ ps) ->
  Forall (fun e => is_required m e.1 = true /\ forall p', rec e.2 p' = Ok e.2) ps ->
  fold_result (normalize_property rec m p) acc ps = Ok (acc ++ ps).
Proof.
  intros Hs Hps. revert acc Hs.
  induction Hps as [|[k v] ps [Hreq Hrec] Hps IH]; intros acc Hs; simpl in *.
  { by rewrite app_nil_r. }
  rewrite Hrec; simpl. rewrite Hreq; simpl. rewrite obj_insert_last.
  - rewrite IH; [by rewrite <- app_assoc | by rewrite <- app_assoc].
  - apply Forall_forall. intros e He.
    apply (StronglySorted_app_1_elem_of entry_lt _ _ e (k, v) Hs); set_solver.
Qed.

Lemma required_distinct_keys names ps l :
  NoDup l -> (forall x, x ∈ l -> x ∉ names) -> l ⊆ obj_keys ps ->
  required_distinct names ps (VString <$> l) = true.
Proof.
  intros Hnd. revert names. induction Hnd as [|x l Hx Hnd IH]; intros names Hnames Hl; simpl; [done|].
  unfold contains_key. rewrite bool_decide_true by (apply obj_get_key; set_solver). simpl.
  unfold mem. rewrite bool_decide_false by set_solver. simpl. apply IH; set_solver.
Qed.

Lemma is_required_keys m ks k :
  obj_get "required" m = Some (VArray (VString <$> ks)) -> k ∈ ks -> is_required m k = true.
Proof.
  intros Hm Hk. unfold is_required. rewrite Hm; simpl. apply existsb_exists.
  exists (VString k). split; [|by apply bool_decide_true].
  by apply list_elem_of_In, list_elem_of_fmap_2.
Qed.

Lemma normalize_typed_object rec mode ps p :
  obj_sorted ps -> Forall (fun e => forall p', rec e.2 p' = Ok e.2) ps ->
  let o := [("additionalProperties", VBool false); ("properties", VObject ps);
            ("required", VArray (VString <$> obj_keys ps)); ("type", VString "object")] in
  normalize_typed rec mode o p = Ok (VObject o).
Proof.
  intros Hs Hps o.
  assert (constraints_ok "object" o) as Hc.
  { split; try done. repeat constructor. }
  unfold normalize_typed.
  erewrite (typed_head _ _ _ _ (fun schema_type => _)); [|exact Hc|reflexivity|cbn; set_solver].
  eval_decide. unfold normalize_object, required_ok.
  assert (obj_get "properties" o = Some (VObject ps)) as Hp by done.
  assert (obj_get "additionalProperties" o = Some (VBool false)) as Ha by done.
  assert (obj_get "required" o = Some (VArray (VString <$> obj_keys ps))) as Hr by done.
  rewrite Hp, Ha, Hr. cbn [mbind option_bind as_object as_array ok_or rbind].
  rewrite required_distinct_keys; [|by apply obj_sorted_nodup|set_solver|done].
  rewrite (bool_decide_false (VBool false <> VBool false)) by naive_solver.
  rewrite (bool_decide_false (Some (VBool false) <> _)) by naive_solver.
  assert (length (VString <$> obj_keys ps) = length ps) as ->.
  { unfold obj_keys. by rewrite !length_fmap. }
  rewrite Nat.eqb_refl, !andb_false_r. rewrite fold_properties_id; [done|done|].
  apply Forall_forall. intros [k v] He. rewrite Forall_forall in Hps.
  split; [|by apply (Hps (k, v))].
  eapply is_required_keys; [done|]. apply obj_get_key. eexists. by apply obj_elem_get.
Qed.

Lemma constraints_plain mode kind o l :
  obj_keys o ⊆ l -> Forall (fun k => k ∉ l) ("oneOf" :: "anyOf" :: "format" :: SCHEMA_METADATA) ->
  constraints_ok kind o ->
  (mode = StrictWire -> strict_wire_refusal o = None) /\ obj_get "oneOf" o = None /\ obj_get "anyOf" o = None /\
  (obj_get "type" o ≫= as_array) = None.
Proof.
  intros Hsub Hl Hc. apply Forall_cons in Hl as [H1 Hl]. apply Forall_cons in Hl as [H2 Hl].
  split_and!.
  - intros _. apply strict_wire_plain. eapply Forall_impl; [exact Hl|]. intros k. by apply obj_keys_none.
  - by eapply obj_keys_none.
  - by eapply obj_keys_none.
  - by rewrite (co_type _ _ Hc).
Qed.

Lemma normalize_body_typed rec mode o p :
  (mode = StrictWire -> strict_wire_refusal o = None) /\ obj_get "oneOf" o = None /\ obj_get "anyOf" o = None /\
  (obj_get "type" o ≫= as_array) = None ->
  normalize_schema_body rec mode (VObject o) p = normalize_typed rec mode o p.
Proof.
  intros (H1 & H2 & H3 & H4). unfold normalize_schema_body. cbn [as_object ok_or rbind].
  rewrite H2, H3, H4. destruct (decide (mode = StrictWire)); [by rewrite H1|done].
Qed.

(** A normal form is admitted unchanged in either mode and at any path. *)
Lemma normal_fixpoint n mode p : normal n -> normalize_schema_mode n p mode = Ok n.
Proof.
  revert p. induction n as [n IH] using (induction_ltof1 _ value_size). unfold ltof in IH.
  intros p Hn. rewrite normalize_schema_eq. destruct Hn as [vs Hne Hvs|ps Hs Hps|o items Hc Hi Hn Hsub|kind o Hk Hc Hsub].
  - unfold normalize_schema_body. cbn [as_object ok_or rbind].
    assert ((if decide (mode = StrictWire) then
      match strict_wire_refusal [("anyOf", VArray vs)] with Some e => Err (unsupported p e) | None => Ok tt end
      else Ok tt) = Ok tt) as -> by (by destruct (decide (mode = StrictWire))).
    assert (obj_get "oneOf" [("anyOf", VArray vs)] = None) as -> by done.
    assert (obj_get "anyOf" [("anyOf", VArray vs)] = Some (VArray vs)) as Hg by done.
    rewrite Hg. unfold normalize_any_of. cbn [rbind].
    assert (union_keyword_ok "anyOf" [("anyOf", VArray vs)] = true) as -> by done.
    assert (nonempty_array (VArray vs) = Some vs) as -> by (by apply nonempty_array_Some).
    cbn [ok_or rbind].
    assert (imap_result (fun index variant => normalize_schema_mode variant
      (p +:+ ".anyOf[" +:+ pretty index +:+ "]") mode) vs = Ok vs) as ->; [|done].
    apply imap_result_from_Ok. split; [done|]. intros i x y Hx Hy. simplify_eq.
    rewrite Forall_forall in Hvs. apply list_elem_of_lookup_2 in Hx.
    apply IH; [by eapply get_array_size | by apply Hvs].
  - rewrite normalize_body_typed by done. apply normalize_typed_object; [done|].
    rewrite Forall_forall in *. intros e He p'. apply IH; [|by apply Hps].
    eapply (get_object_size "properties"); [done|done].
  - rewrite normalize_body_typed.
    + eapply normalize_typed_array; [done..| |done]. intros p'. apply IH; [|done].
      apply value_size_get in Hi. lia.
    + eapply constraints_plain; [exact Hsub| |done]. by_decide.
  - rewrite normalize_body_typed; [by eapply normalize_typed_scalar|].
    eapply constraints_plain; [exact Hsub| |done]. unfold SCALARS in Hk.
    repeat (apply elem_of_cons in Hk as [->|Hk]); [by_decide..|set_solver].
Qed.

Lemma length_check_Ok o p :
  length_check o p = Ok tt <->
  Forall (fun k => forall v, obj_get k o = Some v -> is_Some (as_u64 v))
    ["minLength"; "maxLength"; "minItems"; "maxItems"].
Proof.
  unfold length_check. set (l := ["minLength"; _; _; _]).
  set (f := fun key => match obj_get key o with Some v => if as_u64 v then None else Some _ | None => None end).
  destruct (first_some f l) eqn:E.
  - split; [done|]. intros H. exfalso. assert (first_some f l = None); [|congruence].
    apply first_some_None. eapply Forall_impl; [exact H|]. intros k Hk. unfold f. simpl in Hk.
    destruct (obj_get k o) as [v|]; [|done]. by destruct (Hk v eq_refl) as [? ->].
  - split; [intros _|done]. apply first_some_None in E. eapply Forall_impl; [exact E|].
    intros k Hk v Hv. unfold f in Hk. rewrite Hv in Hk. by destruct (as_u64 v).
Qed.

(** An object whose entries (the type aside) come from [m] passes the checks
    [m] passed. *)
Lemma length_check_mono m o p q :
  (forall k v, k ∈ ["minLength"; "maxLength"; "minItems"; "maxItems"] ->
     obj_get k o = Some v -> obj_get k m = Some v) ->
  length_check m p = Ok tt -> length_check o q = Ok tt.
Proof.
  rewrite !length_check_Ok, !Forall_forall. intros Hsub H k Hk v Hv. eapply H; [done|]. by apply Hsub.
Qed.

Lemma enum_malformed_mono m o :
  (forall v, obj_get "enum" o = Some v -> obj_get "enum" m = Some v) ->
  enum_malformed m = false -> enum_malformed o = false.
Proof.
  unfold enum_malformed. intros H. destruct (obj_get "enum" o) as [v|]; [|done].
  by rewrite (H v eq_refl).
Qed.

Lemma obj_get_tighten o key b lower k :
  k <> key -> obj_get k (tighten o key b lower) = obj_get k o.
Proof. intros Hne. unfold tighten. case_match; [done|]. by apply obj_get_insert_ne. Qed.

Lemma tighten_get o key b lower v :
  obj_get key (tighten o key b lower) = Some v -> obj_get key o = Some v \/ v = b.
Proof.
  unfold tighten. case_match; [by left|]. rewrite obj_get_insert_eq. intros [= ->]. by right.
Qed.

Lemma tighten_sorted o key b lower : obj_sorted o -> obj_sorted (tighten o key b lower).
Proof. intros. unfold tighten. case_match; [done|]. by apply obj_insert_sorted. Qed.

Definition bound_ok (kind : string) (b : value) : Prop :=
  is_number b = true /\ (kind = "integer" -> is_Some (as_i64 b) \/ is_Some (as_u64 b)).

Lemma format_bounds_ok kind f low high :
  format_bounds kind f = Some (low, high) -> bound_ok kind low /\ bound_ok kind high.
Proof.
  unfold format_bounds, bound_ok. destruct f as [f|]; [|done].
  repeat case_decide; intros; simplify_eq; split; (split; [done|]);
    intros; first [discriminate | left; eexists; reflexivity | right; eexists; reflexivity].
Qed.

(** Formats only touch the two inclusive bounds, with admissible values. *)
Lemma apply_format_spec m kind o p o' :
  apply_format m kind o p = Ok o' ->
  (forall k, k <> "minimum" -> k <> "maximum" -> obj_get k o' = obj_get k o) /\
  (forall k v, obj_get k o' = Some v -> obj_get k o = Some v \/
      (k = "minimum" \/ k = "maximum") /\ bound_ok kind v /\ obj_get "format" m <> None) /\
  (obj_sorted o -> obj_sorted o').
Proof.
  unfold apply_format. destruct (obj_get "format" m) as [f|]; [|intros [= <-]; naive_solver].
  destruct (format_bounds kind (as_str f)) as [[low high]|] eqn:E; [|done]. intros [= <-].
  apply format_bounds_ok in E as [Hl Hh]. split_and!.
  - intros k Hk1 Hk2. by rewrite !obj_get_tighten.
  - intros k v Hv. destruct (decide (k = "maximum")) as [->|Hk2].
    + apply tighten_get in Hv as [Hv| ->]; [|naive_solver].
      rewrite obj_get_tighten in Hv by done. by left.
    + rewrite obj_get_tighten in Hv by done. destruct (decide (k = "minimum")) as [->|Hk1].
      * apply tighten_get in Hv as [Hv| ->]; naive_solver.
      * rewrite obj_get_tighten in Hv by done. by left.
  - intros Hs. by do 2 apply tighten_sorted.
Qed.

Lemma copy_get_source kind m keys k v :
  k <> "type" -> NoDup keys ->
  obj_get k (copy_constraints m [("type", VString kind)] keys) = Some v ->
  obj_get k m = Some v /\ k ∈ keys.
Proof.
  intros Hk Hnd. rewrite obj_get_copy by done. simpl. rewrite (decide_False (P := k = "type")) by done.
  case_decide; [|done]. by destruct (obj_get k m).
Qed.

Lemma copy_get_type kind m keys :
  "type" ∉ keys -> NoDup keys ->
  obj_get "type" (copy_constraints m [("type", VString kind)] keys) = Some (VString kind).
Proof.
  intros Hk Hnd. rewrite obj_get_copy by done. by rewrite decide_False.
Qed.

(** Normalising a scalar type yields a normal form. *)
Lemma normalize_scalar_normal kind m p q o :
  kind ∈ SCALARS ->
  length_check m p = Ok tt -> enum_malformed m = false ->
  (obj_get "format" m <> None -> kind = "integer" \/ kind = "number") ->
  bounds_check kind (copy_constraints m [("type", VString kind)] (copied_keys kind)) q = Ok tt ->
  apply_format m kind (copy_constraints m [("type", VString kind)] (copied_keys kind)) q = Ok o ->
  normal (VObject o).
Proof.
  intros Hk Hlen Henum Hfmt Hb Hf.
  assert (NoDup (copied_keys kind) /\ "type" ∉ copied_keys kind) as [Hnd Hty].
  { clear -Hk. unfold SCALARS in Hk. repeat (apply elem_of_cons in Hk as [->|Hk]);
      [split; by_decide..|set_solver]. }
  pose proof (apply_format_spec _ _ _ _ _ Hf) as (Hsame & Hget & Hsort).
  assert (forall k v, k <> "type" -> k <> "minimum" -> k <> "maximum" -> obj_get k o = Some v -> obj_get k m = Some v) as Hsrc.
  { intros k v ??? Hv. rewrite Hsame in Hv by done. by apply copy_get_source in Hv as [??]. }
  eapply normal_scalar; [exact Hk| |].
  - split.
    + apply Hsort, copy_constraints_sorted. repeat constructor.
    + rewrite Hsame by done. by apply copy_get_type.
    + intros p'. eapply length_check_mono; [|done]. intros k v Hk'. 
      repeat (apply elem_of_cons in Hk' as [->|Hk']; [by apply Hsrc|]). by apply elem_of_nil in Hk'.
    + eapply enum_malformed_mono; [|done]. intros v. by apply Hsrc.
    + intros p'. apply bounds_check_Ok, Forall_forall. intros k Hk' b Hbk.
      rewrite bounds_check_Ok, Forall_forall in Hb.
      destruct (Hget _ _ Hbk) as [H|(_ & H & _)]; [by eapply Hb | done].
  - intros k Hkk. apply obj_get_key in Hkk as [v Hv]. destruct (decide (k = "type")) as [->|Hne]; [by left|].
    destruct (Hget _ _ Hv) as [H|(Hmm & _ & Hff)].
    + apply copy_get_source in H as [_ H]; [by right|done..].
    + destruct (Hfmt Hff) as [-> | ->]; destruct Hmm as [-> | ->]; by_decide.
Qed.

(** Formats are a keyword of the numeric types only. *)
Lemma keyword_format kind m p allowed :
  schema_keywords kind p = Ok allowed -> keyword_check m p allowed = Ok tt ->
  obj_get "format" m <> None -> kind = "integer" \/ kind = "number".
Proof.
  intros Hk Hc Hf. apply keyword_check_Ok in Hc. rewrite Forall_forall in Hc.
  assert ("format" ∈ obj_keys m) as Hin.
  { apply obj_get_key. destruct (obj_get "format" m); [by eexists|done]. }
  apply Hc in Hin as [Hin|Hin]; [by vm_compute in Hin; repeat (apply elem_of_cons in Hin as [?|Hin]; [done|]); apply elem_of_nil in Hin|].
  unfold schema_keywords in Hk. revert Hk.
  repeat case_decide; intros; simplify_eq; try done;
    repeat (apply elem_of_cons in Hin as [?|Hin]; [done|]); by apply elem_of_nil in Hin.
Qed.

Lemma keyword_format_none kind m p allowed :
  schema_keywords kind p = Ok allowed -> keyword_check m p allowed = Ok tt ->
  kind <> "integer" -> kind <> "number" -> obj_get "format" m = None.
Proof.
  intros Hk Hc H1 H2. destruct (obj_get "format" m) eqn:E; [|done].
  destruct (keyword_format _ _ _ _ Hk Hc) as [?|?]; [by rewrite E|done..].
Qed.

Lemma normalize_array_normal rec m p o :
  length_check m p = Ok tt -> enum_malformed m = false ->
  (forall p' n, rec (vidx (VObject m) "items") p' = Ok n -> normal n) ->
  normalize_array rec m [("type", VString "array")] p = Ok o -> normal (VObject o).
Proof.
  intros Hlen Henum Hrec H. unfold normalize_array in H. inv_ok. subst.
  unfold vidx in Hrec. simpl in Hrec. rewrite Hr in Hrec. apply Hrec in Hr0.
  assert (forall k, obj_get k (copy_constraints m (obj_insert "items" x0 [("type", VString "array")])
            ["minItems"; "maxItems"]) =
          if decide (k = "items") then Some x0 else if decide (k = "type") then Some (VString "array")
          else if decide (k ∈ ["minItems"; "maxItems"]) then obj_get k m else None) as Hget.
  { intros k. rewrite obj_get_copy by by_decide. rewrite obj_get_insert. simpl.
    destruct (decide (k = "items")) as [->|]; [done|]. destruct (decide (k = "type")) as [->|]; [done|].
    case_decide; [|done]. by destruct (obj_get k m). }
  eapply normal_array; [split|by rewrite Hget|done|].
  - apply copy_constraints_sorted, obj_insert_sorted. repeat constructor.
  - by rewrite Hget.
  - intros q. eapply length_check_mono; [|done]. intros k v Hk. rewrite Hget.
    repeat (apply elem_of_cons in Hk as [->|Hk]; [by eval_decide; try case_decide|]).
    by apply elem_of_nil in Hk.
  - eapply enum_malformed_mono; [|done]. intros v. rewrite Hget. by eval_decide; try case_decide.
  - intros q. apply bounds_check_Ok, Forall_forall. intros k Hk b. rewrite Hget. unfold BOUND_KEYS in Hk.
    repeat (apply elem_of_cons in Hk as [->|Hk]; [eval_decide; by rewrite decide_False by by_decide|]).
    by apply elem_of_nil in Hk.
  - intros k Hk. apply obj_get_key in Hk as [v Hv]. rewrite Hget in Hv.
    repeat case_decide; set_solver.
Qed.

(** The property loop appends the normalised properties in key order. *)
Lemma fold_properties_normal rec m p ps acc acc' :
  obj_sorted ps -> Forall (fun e => forall p' n, rec e.2 p' = Ok n -> normal n) ps ->
  obj_sorted acc -> Forall (fun e => normal e.2) acc ->
  Forall (fun a => Forall (fun e => str_lt a.1 e.1) ps) acc ->
  fold_result (normalize_property rec m p) acc ps = Ok acc' ->
  obj_sorted acc' /\ Forall (fun e => normal e.2) acc' /\ obj_keys acc' = obj_keys acc ++ obj_keys ps.
Proof.
  intros Hps. revert acc.
  induction Hps as [|[k v] ps Hps IH Hlt]; intros acc Hrec Hs Hn Hacc Hf; simpl in Hf.
  { injection Hf as <-. by rewrite app_nil_r. }
  apply Forall_cons in Hrec as [Hv Hrec]. simpl in Hv.
  apply rbind_Ok in Hf as (acc1 & Hp & Hf). unfold normalize_property in Hp.
  apply rbind_Ok in Hp as (nv & Hnv & Hp). apply Ok_inj in Hp. subst acc1.
  assert (Forall (fun e => str_lt e.1 k) acc) as Hk.
  { eapply Forall_impl; [exact Hacc|]. intros a Ha. by apply Forall_cons in Ha as [Ha _]. }
  match type of Hf with context [obj_insert k ?e acc] => set (np := e) in Hf end.
  assert (normal np) as Hnp.
  { apply Hv in Hnv. subst np. case_match; [|done]. apply normal_any; [done|].
    constructor; [done|]. constructor; [|constructor].
    apply (normal_scalar "null"); [set_solver| |set_solver]. by split; try done; repeat constructor. }
  rewrite obj_insert_last in Hf by done. eapply IH in Hf as (H1 & H2 & H3); [|done|..].
  - split_and!; [done..|]. rewrite H3. unfold obj_keys. rewrite fmap_app. by rewrite <- app_assoc.
  - rewrite <- (obj_insert_last k) by done. by apply obj_insert_sorted.
  - apply Forall_app. split; [done|by repeat constructor].
  - apply Forall_app. split.
    + eapply Forall_impl; [exact Hacc|]. intros a Ha. by apply Forall_cons in Ha as [_ Ha].
    + constructor; [|constructor]. done.
Qed.

(** Pruning a union branch keeps it normal. *)
Lemma prune_branch_normal n p n' : normal n -> prune_branch n p = Some n' -> normal n'.
Proof.
  intros Hn. unfold prune_branch. case_match; [done|].
  destruct (as_array (vidx n "enum")) as [choices|] eqn:E; [|intros [= <-]; done].
  destruct (List.filter _ choices) as [|c cs] eqn:Ef; [done|].
  assert (exists o, n = VObject o /\ is_Some (obj_get "enum" o)) as (o & -> & He).
  { destruct n as [| | | | |o]; try done. exists o. split; [done|].
    unfold vidx in E; simpl in E. destruct (obj_get "enum" o); [by eexists|done]. }
  intros [= <-].
  inversion Hn as [| |? items Hc Hi Hni Hsub|kind ? Hk Hc Hsub]; subst; try (by destruct He).
  { exfalso. destruct He as [e He].
    assert ("enum" ∈ ["type"; "items"; "minItems"; "maxItems"]) as Hin
      by (apply Hsub, obj_get_key; by eexists).
    repeat (apply elem_of_cons in Hin as [?|Hin]; [done|]). by apply elem_of_nil in Hin. }
  eapply (normal_scalar kind); [done|split|].
  - apply obj_insert_sorted, Hc.
  - rewrite obj_get_insert_ne by done. apply Hc.
  - intros q. eapply length_check_mono; [|apply (co_length _ _ Hc p)].
    intros k v Hk'. rewrite obj_get_insert_ne; [done|]. intros ->. clear -Hk'.
    repeat (apply elem_of_cons in Hk' as [?|Hk']; [done|]). by apply elem_of_nil in Hk'.
  - unfold enum_malformed. by rewrite obj_get_insert_eq.
  - intros q. rewrite <- (co_bounds _ _ Hc q). apply bounds_check_ext, Forall_forall.
    intros k Hk'. rewrite obj_get_insert_ne; [done|]. intros ->. clear -Hk'. unfold BOUND_KEYS in Hk'.
    repeat (apply elem_of_cons in Hk' as [?|Hk']; [done|]). by apply elem_of_nil in Hk'.
  - intros k Hk'. apply Hsub. apply obj_get_key. apply obj_get_key in Hk'.
    rewrite obj_get_insert in Hk'. case_decide; subst; done.
Qed.

Lemma value_wf_get k m v : value_wf (VObject m) -> obj_get k m = Some v -> value_wf v.
Proof.
  inversion 1 as [| | | | |? Hs Hall]; subst. intros Hv%obj_get_elem.
  rewrite Forall_forall in Hall. by apply Hall in Hv.
Qed.

Lemma union_variant_wf m kind allowed c :
  value_wf (VObject m) -> union_variant m kind allowed = Some c -> value_wf c.
Proof.
  inversion 1 as [| | | | |? Hs Hall]; subst. unfold union_variant.
  set (ch := obj_insert _ _ _).
  assert (obj_sorted ch /\ Forall (fun e => value_wf e.2) ch) as [Hs' Hall'].
  { split; [apply obj_insert_sorted; eapply obj_sorted_sublist; [apply obj_retain_sublist|done]|].
    apply obj_insert_Forall; [constructor|]. rewrite Forall_forall in *.
    intros e He. apply Hall. eapply elem_of_sublist; [done|apply obj_retain_sublist]. }
  assert (forall o, o `sublist_of` ch -> value_wf (VObject o)) as Hsub.
  { intros o Ho. constructor; [by eapply obj_sorted_sublist|]. rewrite Forall_forall in *.
    intros e He. apply Hall'. by eapply elem_of_sublist. }
  case_decide.
  - case_match; [done|]. intros [= <-]. apply Hsub. etrans; apply obj_remove_sublist.
  - intros [= <-]. by apply Hsub.
Qed.

Lemma one_of_variants_In rec tags i l p ns n :
  one_of_variants rec tags i l p = Ok ns -> n ∈ ns -> exists v p', v ∈ l /\ rec v p' = Ok n.
Proof.
  revert tags i ns. induction l as [|x l IH]; intros tags i ns H; simpl in H; inv_ok; subst; [set_solver|].
  rewrite elem_of_cons. intros [->|Hn].
  - exists x, (p +:+ ".oneOf[" +:+ pretty i +:+ "]"). split; [by left|done].
  - edestruct IH as (v & p' & Hv & Hp); [done|done|]. exists v, p'. split; [by right|done].
Qed.

Lemma one_of_variants_length rec tags i l p ns :
  one_of_variants rec tags i l p = Ok ns -> length ns = length l.
Proof.
  revert tags i ns. induction l as [|x l IH]; intros tags i ns H; simpl in H; inv_ok; subst; [done|].
  simpl. f_equal. by eapply IH.
Qed.

Lemma imap_result_In {E A B} n (f : nat -> A -> result E B) l ys y :
  imap_result_from n f l = Ok ys -> y ∈ ys -> exists i x, x ∈ l /\ f i x = Ok y.
Proof.
  intros [Hlen H]%imap_result_from_Ok [i Hi]%list_elem_of_lookup.
  destruct (lookup_lt_is_Some_2 l i) as [x Hx].
  { rewrite <- Hlen. by eapply lookup_lt_Some. }
  exists (n + i)%nat, x. split; [by eapply list_elem_of_lookup_2 | by apply H].
Qed.

Lemma map_result_In {E A B} (f : A -> result E B) l ys y :
  map_result f l = Ok ys -> y ∈ ys -> exists x, x ∈ l /\ f x = Ok y.
Proof.
  intros H%map_result_Ok [i Hi]%list_elem_of_lookup.
  eapply Forall2_lookup_r in H as (x & Hx & Hf); [|done].
  exists x. split; [by eapply list_elem_of_lookup_2 | done].
Qed.

Lemma normal_any_of vs :
  vs <> [] -> (forall n, n ∈ vs -> normal n) -> normal (json_object [("anyOf", VArray vs)]).
Proof. intros Hne H. apply normal_any; [done|]. by apply Forall_forall. Qed.

Lemma normalize_typed_normal rec mode m p n :
  value_wf (VObject m) ->
  (forall s' p' n, (value_size s' < value_size (VObject m))%nat -> value_wf s' -> rec s' p' = Ok n -> normal n) ->
  normalize_typed rec mode m p = Ok n -> normal n.
Proof.
  intros Hwf Hrec H. unfold normalize_typed in H.
  apply rbind_Ok in H as (kind & Hty & H). apply rbind_Ok in H as (allowed & Hkw & H).
  apply rbind_Ok in H as ([] & Hkc & H). apply rbind_Ok in H as ([] & Hlen & H).
  destruct (enum_malformed m) eqn:Henum; [done|].
  apply rbind_Ok in H as (o & Ho & H). apply rbind_Ok in H as ([] & Hb & H).
  apply rbind_Ok in H as (o' & Hf & H). apply rbind_Ok in H as ([] & _ & H).
  apply Ok_inj in H. subst n. change (obj_insert "type" (VString kind) []) with [("type", VString kind)] in Ho.
  pose proof (keyword_format _ _ _ _ Hkw Hkc) as Hfmt.
  destruct (decide (kind = "object")) as [->|Hno].
  { unfold normalize_object in Ho. apply rbind_Ok in Ho as (ps & Hps%ok_or_Ok%as_object_get & Ho).
    inv_ok. unfold apply_format in Hf. rewrite (keyword_format_none _ _ _ _ Hkw Hkc) in Hf by done.
    inv_ok. subst. pose proof (value_wf_get _ _ _ Hwf Hps) as Hwfx.
    inversion Hwfx as [| | | | |? Hsx Hallx]; subst.
    apply fold_properties_normal in Hr as (H1 & H2 & H3); [|done| |constructor..].
    - simpl in H3. rewrite <- H3. by apply normal_object.
    - rewrite Forall_forall in *. intros [k v] He p' n'. apply Hrec; [|by apply (Hallx (k, v))].
      by eapply (get_object_size _ _ _ (k, v)). }
  destruct (decide (kind = "array")) as [->|Hna].
  { unfold apply_format in Hf. rewrite (keyword_format_none _ _ _ _ Hkw Hkc) in Hf by done.
    inv_ok. subst. eapply normalize_array_normal; [done..| |done].
    intros p' n'. unfold vidx; simpl. destruct (obj_get "items" m) as [v|] eqn:E; simpl.
    - apply Hrec; [apply value_size_get in E; lia | by eapply value_wf_get].
    - unfold normalize_array in Ho. by rewrite E in Ho. }
  assert (kind ∈ SCALARS /\ o = copy_constraints m [("type", VString kind)] (copied_keys kind)) as [Hsc ->].
  { unfold copied_keys. unfold schema_keywords in Hkw. rewrite (decide_False (P := kind = "object")) in Hkw by done.
    rewrite (decide_False (P := kind = "array")) in Hkw by done.
    destruct (decide (kind = "string")) as [->|]; [inv_ok; split; [by_decide|done]|].
    destruct (decide (kind = "boolean")) as [->|]; [inv_ok; split; [by_decide|done]|].
    destruct (decide (kind = "null")) as [->|]; [split; [by_decide|]; revert Ho; eval_decide; intros [= <-]; done|].
    destruct (decide (kind = "integer" \/ kind = "number")) as [[-> | ->]|]; [..|done];
      (inv_ok; split; [by_decide|done]). }
  by eapply normalize_scalar_normal.
Qed.

Lemma normalize_normal s p mode n :
  value_wf s -> normalize_schema_mode s p mode = Ok n -> normal n.
Proof.
  revert p n. induction s as [s IH] using (induction_ltof1 _ value_size). unfold ltof in IH.
  intros p n Hwf. rewrite normalize_schema_eq. unfold normalize_schema_body.
  destruct s as [| | | | |m]; try done. cbn [as_object ok_or rbind].
  intros H. apply rbind_Ok in H as ([] & _ & H).
  assert (forall k l x, obj_get k m = Some (VArray l) -> x ∈ l -> value_wf x) as Hel.
  { intros k l x Hg Hx. pose proof (value_wf_get _ _ _ Hwf Hg) as Hl. inversion Hl as [| | | |? Hl'|]; subst.
    rewrite Forall_forall in Hl'. by apply Hl'. }
  destruct (obj_get "oneOf" m) as [vs|] eqn:E1.
  { unfold normalize_one_of in H. inv_ok. apply nonempty_array_Some in Hr as [-> Hne]. subst.
    apply normal_any_of.
    - intros ->. apply one_of_variants_length in Hr0. by destruct x.
    - intros n Hn. eapply one_of_variants_In in Hn as (v & p' & Hv & Hn); [|done].
      eapply (IH v); [by eapply get_array_size | by eapply Hel | exact Hn]. }
  destruct (obj_get "anyOf" m) as [vs|] eqn:E2.
  { unfold normalize_any_of in H. inv_ok. apply nonempty_array_Some in Hr as [-> Hne]. subst.
    apply normal_any_of.
    - intros ->. apply imap_result_from_Ok in Hr0 as [Hl _]. by destruct x.
    - intros n Hn. eapply imap_result_In in Hn as (i & v & Hv & Hn); [|done].
      eapply (IH v); [by eapply get_array_size | by eapply Hel | exact Hn]. }
  destruct (obj_get "type" m ≫= as_array) as [types|] eqn:E3.
  { apply as_array_get in E3. unfold normalize_type_union in H. inv_ok. subst. apply normal_any_of.
    - intros E. by rewrite E in *.
    - intros n (n0 & Hn0 & Hp)%list_elem_of_omap. eapply prune_branch_normal; [|done].
      eapply map_result_In in Hn0 as (c & Hc & Hn0); [|done].
      eapply (IH c); [by eapply type_union_variants_size| |exact Hn0].
      apply type_union_variants_Ok in Hr as (_ & _ & sup & _ & _ & _ & ->).
      apply list_elem_of_omap in Hc as (e & _ & Hc). eapply union_variant_wf; [done|exact Hc]. }
  eapply normalize_typed_normal; [done| |done]. intros s' p' n' Hs' Hwf' Hn'. eapply (IH s'); [done|done|exact Hn'].
Qed.

