(* ===== verification/Schema.v ===== *)
(** Theorems about schema admission, validation and argument projection
    ([crates/harness-schema], modelled in [SchemaModel.v]). *)

From S2P Require Import Prelude Json SchemaModel SchemaNormal.
From Stdlib Require Import QArith Qpower.
#[local] Open Scope Z_scope.

(** ** Normalisation *)

(** Normalisation is idempotent and lands in the strict wire subset: a
    schema the host projection produces is admitted as provider parameters
    byte for byte, in either mode and at any path. *)
Theorem normalize_idempotent s p mode n :
  value_wf s -> normalize_schema_mode s p mode = Ok n ->
  forall mode' p', normalize_schema_mode n p' mode' = Ok n.
Proof. intros Hwf H mode' p'. by eapply normal_fixpoint, normalize_normal. Qed.

(** ** Validation against normal forms *)

Lemma elem_of_literal (k : string) (l : list string) : bool_decide (k ∈ l) = false -> k ∈ l -> False.
Proof. intros H%bool_decide_eq_false H'. done. Qed.

(** A normal form with an [enum] is a scalar, hence not a union. *)
Lemma normal_enum_scalar o e :
  normal (VObject o) -> obj_get "enum" o = Some e ->
  obj_get "oneOf" o = None /\ obj_get "anyOf" o = None.
Proof.
  inversion 1 as [| |? items Hc Hi Hni Hsub|kind ? Hk Hc Hsub]; subst; intros He; try done.
  - exfalso. assert ("enum" ∈ obj_keys o) as Hin by (apply obj_get_key; by eexists).
    apply Hsub in Hin. by apply elem_of_literal in Hin.
  - unfold SCALARS in Hk.
    repeat (apply elem_of_cons in Hk as [->|Hk]); [..|by apply elem_of_nil in Hk];
      split; (eapply obj_keys_none; [exact Hsub|by_decide]).
Qed.

Lemma validate_enum v o l p :
  obj_get "oneOf" o = None -> obj_get "anyOf" o = None -> obj_get "enum" o = Some (VArray l) ->
  validate_value v (VObject o) p = Ok tt -> v ∈ l.
Proof.
  intros H1 H2 He. rewrite validate_value_eq. unfold validate_value_body, vidx; simpl.
  rewrite H1, H2, He; simpl. intros H. inv_ok. by apply bool_decide_eq_false, dec_stable in Hg1.
Qed.

Lemma validate_any_of v vs p :
  validate_value v (VObject [("anyOf", VArray vs)]) p = Ok tt <->
  exists n, n ∈ vs /\ validate_value v n p = Ok tt.
Proof.
  rewrite validate_value_eq. unfold validate_value_body, vidx; simpl.
  destruct (existsb _ vs) eqn:E.
  - split; [intros _|done]. apply existsb_exists in E as (n & Hn%list_elem_of_In & Hok%is_ok_unit). eauto.
  - split; [done|]. intros (n & Hn & Hok). exfalso.
    assert (existsb (fun x => is_ok (validate_value v x p)) vs = true); [|congruence].
    apply existsb_exists. exists n. split; [by apply list_elem_of_In | by apply is_ok_unit].
Qed.

Lemma validate_one_of v vs p :
  validate_value v (VObject [("oneOf", VArray vs)]) p =
  if (length (List.filter (fun n => is_ok (validate_value v n p)) vs) =? 1)%nat
  then Ok tt else Err (ValueSchemaMismatch p).
Proof. by rewrite validate_value_eq. Qed.

(** The typed branch keeps an admitted [enum] verbatim. *)
Lemma normalize_typed_enum rec mode m p n e :
  normalize_typed rec mode m p = Ok n -> obj_get "enum" m = Some e ->
  exists o, n = VObject o /\ obj_get "enum" o = Some e.
Proof.
  intros H He. unfold normalize_typed in H.
  apply rbind_Ok in H as (kind & Hty & H). apply rbind_Ok in H as (allowed & Hkw & H).
  apply rbind_Ok in H as ([] & Hkc & H). apply rbind_Ok in H as ([] & _ & H).
  destruct (enum_malformed m); [done|].
  apply rbind_Ok in H as (o & Ho & H). apply rbind_Ok in H as ([] & _ & H).
  apply rbind_Ok in H as (o' & Hf & H). apply rbind_Ok in H as ([] & _ & H).
  apply Ok_inj in H. subst n. exists o'. split; [done|].
  apply apply_format_spec in Hf as (-> & _); [|done..].
  apply keyword_check_Ok in Hkc. rewrite Forall_forall in Hkc.
  assert ("enum" ∈ allowed) as Hal.
  { destruct (Hkc "enum") as [Hin|Hin]; [apply obj_get_key; by eexists| |done].
    by apply elem_of_literal in Hin. }
  change (obj_insert "type" (VString kind) []) with [("type", VString kind)] in Ho.
  unfold schema_keywords in Hkw. revert Ho Hkw.
  repeat case_decide; try done; intros Ho Hkw%Ok_inj; subst allowed; try (by apply elem_of_literal in Hal).
  all: apply Ok_inj in Ho; subst o; rewrite obj_get_copy by by_decide; rewrite decide_True by by_decide; by rewrite He.
Qed.

Lemma obj_get_sublist k v m1 m2 :
  obj_sorted m2 -> m1 `sublist_of` m2 -> obj_get k m1 = Some v -> obj_get k m2 = Some v.
Proof.
  intros Hs Hsub Hk%obj_get_elem. apply obj_elem_get; [done|]. by eapply elem_of_sublist.
Qed.

(** A branch of a type union: its type is the branch's kind, its other keys
    come from the union, and [enum] survives in every branch but [null]'s. *)
Lemma union_variant_spec m kind allowed c :
  obj_sorted m -> union_variant m kind allowed = Some c ->
  exists oc, c = VObject oc /\ obj_sorted oc /\
    (obj_get "type" oc = Some (VString kind)) /\
    (forall k v, k <> "type" -> obj_get k oc = Some v -> obj_get k m = Some v) /\
    (kind <> "null" -> obj_get "enum" oc = obj_get "enum" m) /\
    (kind = "null" -> forall l, obj_get "enum" m = Some (VArray l) -> VNull ∈ l).
Proof.
  intros Hs. unfold union_variant.
  set (keep := fun key => mem key SCHEMA_METADATA || mem key allowed || mem key ["enum"; "const"]).
  set (ch := obj_insert "type" (VString kind) (obj_retain keep m)).
  assert (obj_sorted (obj_retain keep m)) as Hsr
    by (eapply obj_sorted_sublist; [apply obj_retain_sublist|done]).
  assert (obj_sorted ch) as Hsc by (by apply obj_insert_sorted).
  assert (obj_get "enum" ch = obj_get "enum" m) as Hen.
  { subst ch. rewrite obj_get_insert_ne by done. apply obj_get_retain. unfold keep.
    rewrite orb_true_iff. by right. }
  assert (forall k v, k <> "type" -> obj_get k ch = Some v -> obj_get k m = Some v) as Hsrc.
  { intros k v Hk Hv. subst ch. rewrite obj_get_insert_ne in Hv by done.
    eapply obj_get_sublist; [done|apply obj_retain_sublist|done]. }
  case_decide as Hnull.
  - destruct (_ || _) eqn:Ex; [done|]. intros [= <-].
    assert (obj_remove "const" (obj_remove "enum" ch) `sublist_of` ch) as Hsub
      by (etrans; apply obj_remove_sublist).
    eexists. split_and!; [done|by eapply obj_sorted_sublist| | |done|].
    + rewrite !obj_get_remove_ne by done. apply obj_get_insert_eq.
    + intros k v Hk Hv. apply Hsrc; [done|]. by eapply obj_get_sublist.
    + intros _ l Hl. apply orb_false_elim in Ex as [_ Ex]. rewrite Hen, Hl in Ex; simpl in Ex.
      by apply bool_decide_eq_false, dec_stable in Ex.
  - intros [= <-]. eexists. split_and!; [done|done|apply obj_get_insert_eq|done|done|done].
Qed.

Lemma prune_branch_enum n p n' x :
  prune_branch n p = Some n' -> vidx n "enum" = VArray [x] ->
  exists o l, n' = VObject o /\ obj_get "enum" o = Some (VArray l) /\ l ⊆ [x].
Proof.
  unfold prune_branch. case_match; [done|]. intros Hp Hn. rewrite Hn in Hp; simpl in Hp.
  destruct n as [| | | | |o]; try done.
  destruct (is_ok _); [|done]. injection Hp as <-.
  exists (obj_insert "enum" (VArray [x]) o), [x]. by rewrite obj_get_insert_eq.
Qed.

(** A schema whose [enum] is a single value only accepts that value once
    normalised, whatever else it says. *)
Lemma normalize_singleton q p nq x v p' :
  value_wf q -> as_array (vidx q "enum") = Some [x] ->
  normalize_schema q p = Ok nq -> x <> VNull ->
  validate_value v nq p' = Ok tt -> v = x.
Proof.
  intros Hwf He Hn Hx. unfold normalize_schema in Hn.
  pose proof (normalize_normal _ _ _ _ Hwf Hn) as Hnorm.
  destruct q as [| | | | |m]; try done. inversion Hwf as [| | | | |? Hsm Hall]; subst.
  assert (obj_get "enum" m = Some (VArray [x])) as Hm.
  { unfold vidx in He; simpl in He. by destruct (obj_get "enum" m) as [[]|]; simplify_eq/=. }
  assert (forall kw, union_keyword_ok kw m = true -> kw = "enum") as Hunion.
  { intros kw Hu. unfold union_keyword_ok in Hu. rewrite forallb_forall in Hu.
    assert ("enum" ∈ obj_keys m) as Hkey by (apply obj_get_key; by eexists).
    specialize (Hu "enum" (proj1 (list_elem_of_In _ _) Hkey)). apply bool_decide_eq_true in Hu.
    apply elem_of_cons in Hu as [?|Hu]; [done|]. by apply elem_of_literal in Hu. }
  rewrite normalize_schema_eq in Hn. unfold normalize_schema_body in Hn. cbn [as_object ok_or rbind] in Hn.
  rewrite decide_False in Hn by done. cbn [rbind] in Hn.
  destruct (obj_get "oneOf" m) as [vs|] eqn:E1.
  { unfold normalize_one_of in Hn. inv_ok. by apply Hunion in Hg0. }
  destruct (obj_get "anyOf" m) as [vs|] eqn:E2.
  { unfold normalize_any_of in Hn. inv_ok. by apply Hunion in Hg. }
  destruct (obj_get "type" m ≫= as_array) as [types|] eqn:Et.
  - unfold normalize_type_union in Hn. inv_ok. subst nq.
    intros (n & (nb & Hnb & Hpr)%list_elem_of_omap & Hv)%validate_any_of.
    assert (normal n) as Hnn.
    { inversion Hnorm as [? _ Hvs| |? ? Hc|? ? _ Hc]; subst; [|discriminate (co_type _ _ Hc)..].
      rewrite Forall_forall in Hvs. apply Hvs, list_elem_of_omap. eauto. }
    eapply map_result_In in Hnb as (c & Hc & Hnb); [|done].
    apply type_union_variants_Ok in Hr as (_ & _ & sup & _ & _ & _ & ->).
    apply list_elem_of_omap in Hc as ([kind allowed] & _ & Hc). simpl in Hc.
    apply union_variant_spec in Hc as (oc & -> & _ & Hty & Hsrc & Hen & Hnull); [|done].
    assert (kind <> "null") as Hk by (intros ->; specialize (Hnull eq_refl _ Hm); set_solver).
    rewrite normalize_schema_eq, normalize_body_typed in Hnb.
    2: { split_and!; [done| | |by rewrite Hty].
      - destruct (obj_get "oneOf" oc) eqn:E; [|done]. by apply Hsrc in E as E'; [rewrite E' in E1|].
      - destruct (obj_get "anyOf" oc) eqn:E; [|done]. by apply Hsrc in E as E'; [rewrite E' in E2|]. }
    eapply normalize_typed_enum in Hnb as (ob & -> & Hob); [|by rewrite Hen].
    eapply prune_branch_enum in Hpr as (o & l & -> & Ho & Hl); [|by unfold vidx; simpl; rewrite Hob].
    destruct (normal_enum_scalar _ _ Hnn Ho) as [H1 H2].
    eapply validate_enum in Hv; [|done..]. set_solver.
  - intros Hv. eapply normalize_typed_enum in Hn as (o & -> & Ho); [|done].
    destruct (normal_enum_scalar _ _ Hnorm Ho) as [H1 H2].
    eapply validate_enum in Hv; [|done..]. set_solver.
Qed.

Definition object_schema (ps : object) : value :=
  VObject [("additionalProperties", VBool false); ("properties", VObject ps);
           ("required", VArray (VString <$> obj_keys ps)); ("type", VString "object")].

Lemma fold_result_unit_Ok {E A} (f : unit -> A -> result E unit) l :
  fold_result f tt l = Ok tt <-> Forall (fun x => f tt x = Ok tt) l.
Proof.
  induction l as [|x l IH]; simpl; [by split; [constructor|]|].
  rewrite Forall_cons, rbind_Ok, <- IH. split.
  - by intros ([] & ? & ?).
  - intros [? ?]. by exists tt.
Qed.

(** What acceptance by a normalised object schema means: exactly the declared
    properties, each accepted by its own schema. *)
Lemma validate_object_schema v ps p :
  validate_value v (object_schema ps) p = Ok tt <->
  exists o, v = VObject o /\ length o = length ps /\
    forall k q, (k, q) ∈ ps ->
      exists c, obj_get k o = Some c /\ validate_value c q (p +:+ "." +:+ k) = Ok tt.
Proof.
  rewrite validate_value_eq. unfold validate_value_body, object_schema, vidx.
  cbn -[check_bounds validate_object matches_type]. rewrite orb_false_r || idtac.
  assert (forall w, matches_type w (object_schema ps) = is_object w) as Hm by done.
  unfold object_schema in Hm. rewrite Hm. destruct v as [| | | | |o]; simpl; try naive_solver.
  unfold validate_object, vidx; simpl.
  split.
  - intros H. inv_ok. apply fold_result_unit_Ok in H. exists o. split; [done|].
    apply negb_false_iff, Nat.eqb_eq in Hg. split; [done|]. intros k q Hin.
    rewrite Forall_forall in H. specialize (H _ Hin); simpl in H. inv_ok. eauto.
  - intros (o' & [= <-] & Hlen & Hall). rewrite Hlen, Nat.eqb_refl; simpl.
    apply fold_result_unit_Ok, Forall_forall. intros [k q] Hin.
    destruct (Hall k q Hin) as (c & -> & Hc). done.
Qed.

Lemma fold_properties_get rec m p ps acc nps k :
  fold_result (normalize_property rec m p) acc ps = Ok nps -> obj_sorted ps ->
  match obj_get k ps with
  | None => obj_get k nps = obj_get k acc
  | Some q => exists nq, rec q (p +:+ ".properties." +:+ k) = Ok nq /\
      obj_get k nps = Some (if negb (is_required m k) && is_err (validate_value VNull nq (p +:+ ".properties." +:+ k))
                            then nullable_wrap nq else nq)
  end.
Proof.
  intros H Hs. revert acc H. induction Hs as [|[k' q] ps Hs IH Hlt]; intros acc H; simpl in H.
  { apply Ok_inj in H. by subst. }
  apply rbind_Ok in H as (acc' & Hp & H). unfold normalize_property in Hp.
  apply rbind_Ok in Hp as (nq & Hnq & Hp). apply Ok_inj in Hp. subst acc'.
  apply IH in H. cbn [obj_get]. case_decide as Hk.
  - subst k'. destruct (obj_get k ps) as [q'|] eqn:E.
    { apply obj_get_elem in E. rewrite Forall_forall in Hlt. by apply Hlt, str_lt_ne in E. }
    exists nq. split; [done|]. by rewrite H, obj_get_insert_eq.
  - destruct (obj_get k ps); [done|]. by rewrite H, obj_get_insert_ne.
Qed.

(** The normal form of an object schema that is not a union. *)
Lemma normalize_object_inv m p mode n :
  value_wf (VObject m) -> obj_get "type" m = Some (VString "object") ->
  normalize_schema_mode (VObject m) p mode = Ok n ->
  exists ps nps, obj_get "properties" m = Some (VObject ps) /\
    n = object_schema nps /\ obj_keys nps = obj_keys ps /\ obj_sorted nps /\
    forall k q, obj_get k ps = Some q ->
      exists nq, let p' := p +:+ ".properties." +:+ k in
        normalize_schema_mode q p' mode = Ok nq /\
        obj_get k nps = Some (if negb (is_required m k) && is_err (validate_value VNull nq p')
                              then nullable_wrap nq else nq).
Proof.
  intros Hwf Hty. rewrite normalize_schema_eq. unfold normalize_schema_body. cbn [as_object ok_or rbind].
  intros H. apply rbind_Ok in H as ([] & _ & H).
  assert (forall kw, kw <> "type" -> union_keyword_ok kw m = true -> "type" ∈ ["title"; "description"; "$schema"; "$defs"]) as Hunion.
  { intros kw Hkw Hu. unfold union_keyword_ok in Hu. rewrite forallb_forall in Hu.
    assert ("type" ∈ obj_keys m) as Hkey by (apply obj_get_key; by eexists).
    specialize (Hu "type" (proj1 (list_elem_of_In _ _) Hkey)). apply bool_decide_eq_true in Hu.
    by apply elem_of_cons in Hu as [?|Hu]. }
  destruct (obj_get "oneOf" m) as [vs|].
  { unfold normalize_one_of in H. inv_ok. apply Hunion in Hg0; [by apply elem_of_literal in Hg0|done]. }
  destruct (obj_get "anyOf" m) as [vs|].
  { unfold normalize_any_of in H. inv_ok. apply Hunion in Hg; [by apply elem_of_literal in Hg|done]. }
  rewrite Hty in H. cbn [mbind option_bind as_array] in H.
  unfold normalize_typed in H. rewrite Hty in H. cbn [mbind option_bind as_str ok_or rbind] in H.
  apply rbind_Ok in H as (allowed & Hkw & H).
  apply rbind_Ok in H as ([] & Hkc & H). apply rbind_Ok in H as ([] & _ & H).
  destruct (enum_malformed m); [done|].
  apply rbind_Ok in H as (o & Ho & H). apply rbind_Ok in H as ([] & _ & H).
  apply rbind_Ok in H as (o' & Hf & H). apply rbind_Ok in H as ([] & _ & H).
  apply Ok_inj in H. subst n. rewrite decide_True in Ho by done.
  unfold apply_format in Hf. rewrite (keyword_format_none _ _ _ _ Hkw Hkc) in Hf by done.
  apply Ok_inj in Hf. subst o'.
  unfold normalize_object in Ho. apply rbind_Ok in Ho as (ps & Hps%ok_or_Ok%as_object_get & Ho).
  inv_ok. rename x into nps. subst o. pose proof (value_wf_get _ _ _ Hwf Hps) as Hwps.
  inversion Hwps as [| | | | |? Hsp Hap]; subst. exists ps, nps.
  pose proof Hr as Hr'. apply fold_properties_normal in Hr' as (H1 & H2 & H3); [|done| |constructor..].
  2: { rewrite Forall_forall in *. intros e He p' n'. by apply normalize_normal, Hap. }
  simpl in H3. split_and!; [done| |done|done|].
  { unfold object_schema. by rewrite H3. }
  intros k q Hq. pose proof (fold_properties_get _ _ _ _ _ _ k Hr Hsp) as Hget. by rewrite Hq in Hget.
Qed.

(** A normalised [oneOf] variant forces its tag. *)
Lemma variant_tag_forced variant p n tag v p' :
  value_wf variant -> one_of_tag variant = Some tag ->
  veq_str (vidx variant "type") "object" = true -> requires_tag variant = true ->
  normalize_schema variant p = Ok n -> validate_value v n p' = Ok tt ->
  vget "tag" v = Some (VString tag).
Proof.
  intros Hwf Htag Hty Hreq Hn Hv. destruct variant as [| | | | |m]; try done.
  apply bool_decide_eq_true in Hty. unfold vidx in Hty; simpl in Hty.
  destruct (obj_get "type" m) as [ty|] eqn:Ety; [|done]. simpl in Hty. subst ty.
  eapply normalize_object_inv in Hn as (ps & nps & Hps & -> & Hk & Hs & Hget); [|done..].
  unfold one_of_tag, vidx in Htag. cbn [vget] in Htag. rewrite Hps in Htag; simpl in Htag.
  destruct (obj_get "tag" ps) as [q|] eqn:Eq; [|done]. simpl in Htag.
  destruct (as_array (default VNull (vget "enum" q))) as [[|x [|]]|] eqn:Een; try done.
  destruct x; try done. injection Htag as ->.
  assert (is_required m "tag" = true) as Hr.
  { unfold requires_tag, vidx in Hreq; simpl in Hreq. unfold is_required.
    destruct (obj_get "required" m) as [[| | | |fs|]|]; try done. simpl in *.
    apply existsb_exists in Hreq as (f & Hf & Hfe%bool_decide_eq_true). apply existsb_exists.
    exists f. split; [done|]. apply bool_decide_eq_true. by subst f. }
  destruct (Hget _ _ Eq) as (nq & Hnq & Hgq). rewrite Hr in Hgq; simpl in Hgq.
  apply validate_object_schema in Hv as (o & -> & _ & Hall).
  destruct (Hall "tag" nq) as (c & Hc & Hvc); [by apply obj_get_elem|]. simpl. rewrite Hc. f_equal.
  eapply normalize_singleton; [|exact Een|exact Hnq|done|exact Hvc].
  eapply value_wf_get; [|exact Eq]. by eapply value_wf_get.
Qed.

Lemma one_of_variants_tags rec tags i l p ns :
  one_of_variants rec tags i l p = Ok ns ->
  exists ts, length ts = length ns /\ NoDup ts /\ (forall t, t ∈ ts -> t ∉ tags) /\
    forall j t n, ts !! j = Some t -> ns !! j = Some n -> exists v p', v ∈ l /\
      one_of_tag v = Some t /\ veq_str (vidx v "type") "object" = true /\ requires_tag v = true /\
      rec v p' = Ok n.
Proof.
  revert tags i ns. induction l as [|x l IH]; intros tags i ns H; simpl in H.
  { apply Ok_inj in H. subst. exists []. split_and!; [done|constructor|set_solver|done]. }
  apply rbind_Ok in H as (tag & Htag%ok_or_Ok & H). inv_ok. subst.
  rewrite !orb_false_iff, !negb_false_iff in Hg. destruct Hg as [[Hg1 Hg2] Hg3].
  apply bool_decide_eq_false in Hg2.
  apply IH in Hr0 as (ts & Hlen & Hnd & Hdis & Hall). exists (tag :: ts). split_and!.
  - simpl. by rewrite Hlen.
  - constructor; [|done]. intros Hin. apply Hdis in Hin. set_solver.
  - intros t [->|Hin]%elem_of_cons; [done|]. apply Hdis in Hin. set_solver.
  - intros [|j] t n Ht Hn; simplify_eq/=; [eexists x, _; by split_and!; [left|..]|].
    destruct (Hall _ _ _ Ht Hn) as (v & p' & Hv & ?). exists v, p'. split; [by right|done].
Qed.

(** At most one member of a list satisfies a test when two never do. *)
Lemma filter_at_most_one {A} (f : A -> bool) l :
  (forall i j x y, l !! i = Some x -> l !! j = Some y -> f x = true -> f y = true -> i = j) ->
  (length (List.filter f l) <= 1)%nat.
Proof.
  induction l as [|x l IH]; intros H; simpl; [lia|].
  assert (length (List.filter f l) <= 1)%nat as Hl.
  { apply IH. intros i j a b Ha Hb Hfa Hfb. assert (S i = S j); [|lia]. by eapply (H (S i) (S j)). }
  destruct (f x) eqn:E; [|done]. simpl. destruct (List.filter f l) as [|y l'] eqn:Ef; [simpl; lia|].
  exfalso. assert (y ∈ List.filter f l) as Hy by (rewrite Ef; by left).
  apply list_elem_of_In, filter_In in Hy as [Hy Hfy].
  apply list_elem_of_In, list_elem_of_lookup in Hy as [j Hj].
  by specialize (H 0%nat (S j) x y eq_refl Hj E Hfy).
Qed.


(** ** Exact comparison of numbers *)

Definition f64_Q (f : f64) : Q := (inject_Z (mant f) * Qpower (inject_Z 2) (expo f))%Q.

Definition number_Q (n : number) : Q :=
  match n with
  | PosInt n | NegInt n => inject_Z n
  | Float f => f64_Q f
  end.

(** The ranges [serde_json] keeps its integer forms in. *)
Definition number_wf (n : number) : Prop :=
  match n with
  | PosInt n => in_u64 n
  | NegInt n => i64_min <= n < 0
  | Float _ => True
  end.

Lemma pow2_pos e : (0 < Qpower (inject_Z 2) e)%Q.
Proof. apply Qpower_0_lt. done. Qed.

Lemma Qcompare_scale x y c : (0 < c)%Q -> (x * c ?= y * c)%Q = (x ?= y)%Q.
Proof.
  intros Hc. destruct (x ?= y)%Q eqn:E.
  - apply Qeq_alt in E. rewrite E. by apply Qeq_alt.
  - apply Qlt_alt in E. apply Qlt_alt. by apply Qmult_lt_r.
  - apply Qgt_alt in E. apply Qgt_alt. by apply Qmult_lt_r.
Qed.

Lemma Qcompare_inject a b : (inject_Z a ?= inject_Z b)%Q = (a ?= b).
Proof. unfold Qcompare, inject_Z; simpl. by rewrite !Z.mul_1_r. Qed.

Lemma f64_Q_shift f e :
  e <= expo f -> (f64_Q f == inject_Z (mant f * 2 ^ (expo f - e)) * Qpower (inject_Z 2) e)%Q.
Proof.
  intros He. unfold f64_Q. rewrite inject_Z_mult.
  rewrite (Zpower_Qpower 2 (expo f - e)) by lia.
  rewrite <- Qmult_assoc, <- Qpower_plus by done.
  by replace (expo f - e + e) with (expo f) by lia.
Qed.

Lemma f64_compare_exact a b : f64_compare a b = (f64_Q a ?= f64_Q b)%Q.
Proof.
  unfold f64_compare. set (e := Z.min (expo a) (expo b)).
  rewrite (f64_Q_shift a e), (f64_Q_shift b e) by lia.
  by rewrite (Qcompare_scale _ _ _ (pow2_pos e)), Qcompare_inject.
Qed.

Lemma trunc_compare n f :
  then_with (n ?= f64_trunc f) (0 ?= f64_fract_mant f) = (inject_Z n ?= f64_Q f)%Q.
Proof.
  unfold f64_trunc, f64_fract_mant. destruct (Z.leb_spec 0 (expo f)) as [He|He].
  - rewrite (f64_Q_shift f 0) by lia. rewrite Z.sub_0_r. simpl (Qpower _ 0).
    rewrite Qmult_1_r, Qcompare_inject. by destruct (n ?= _).
  - transitivity (f64_Q (F64 n 0) ?= f64_Q f)%Q.
    2: { unfold f64_Q at 1; simpl. by rewrite Qmult_1_r. }
    rewrite <- f64_compare_exact. unfold f64_compare. cbn [mant expo].
    rewrite Z.min_r by lia. replace (expo f - expo f) with 0 by lia.
    replace (0 - expo f) with (- expo f) by lia. rewrite Z.pow_0_r, Z.mul_1_r.
    set (d := 2 ^ (- expo f)). assert (0 < d) as Hd by (apply Z.pow_pos_nonneg; lia).
    pose proof (Z.quot_rem' (mant f) d) as Hqr. pose proof (Z.rem_bound_abs (mant f) d) as Hb.
    set (q := Z.quot (mant f) d) in *. set (r := Z.rem (mant f) d) in *.
    destruct (Z.compare_spec n q); cbn [then_with].
    + subst n. rewrite Hqr. destruct (Z.compare_spec 0 r); symmetry;
        [apply Z.compare_eq_iff|apply Z.compare_lt_iff|apply Z.compare_gt_iff]; lia.
    + symmetry. apply Z.compare_lt_iff. nia.
    + symmetry. apply Z.compare_gt_iff. nia.
Qed.

Lemma integer_float_exact n f :
  - 2 ^ 127 <= n < 2 ^ 127 -> integer_float n f = (inject_Z n ?= f64_Q f)%Q.
Proof.
  intros Hn. unfold integer_float. rewrite !f64_compare_exact.
  assert ((f64_Q f ?= f64_Q (F64 (-1) 127)) = (f64_Q f ?= inject_Z (- 2 ^ 127)))%Q as -> by done.
  assert ((f64_Q f ?= f64_Q (F64 1 127)) = (f64_Q f ?= inject_Z (2 ^ 127)))%Q as -> by done.
  destruct (f64_Q f ?= inject_Z (- 2 ^ 127))%Q eqn:E1.
  2: { symmetry. apply Qgt_alt. apply Qlt_alt in E1. eapply Qlt_le_trans; [exact E1|].
       rewrite <- Zle_Qle. lia. }
  all: destruct (f64_Q f ?= inject_Z (2 ^ 127))%Q eqn:E2; [|apply trunc_compare|].
  all: symmetry; apply Qlt_alt; eapply Qlt_le_trans with (inject_Z (2 ^ 127)); [rewrite <- Zlt_Qlt; lia|].
  all: try (apply Qeq_alt in E2; by rewrite E2).
  all: by apply Qlt_le_weak, Qgt_alt.
Qed.

(** Comparing two JSON numbers is the exact comparison of the rationals
    they denote, also between an integer and a float that no [f64] conversion
    could order. *)
Theorem number_cmp_exact a b :
  number_wf a -> number_wf b ->
  number_cmp (VNumber a) (VNumber b) = Some (number_Q a ?= number_Q b)%Q.
Proof.
  intros Ha Hb. unfold number_cmp.
  assert (forall n, number_wf n -> match n with
     | Float f => number_integer (VNumber n) = None
     | PosInt k | NegInt k => number_integer (VNumber n) = Some k /\ - 2 ^ 127 <= k < 2 ^ 127
     end) as Hint.
  { assert (2 ^ 64 < 2 ^ 127) as H127 by done. intros [k|k|f] Hk; [..|done]; simpl in Hk.
    - unfold in_u64, u64_max in Hk. split; [|lia]. unfold number_integer; simpl. by destruct (k <=? i64_max).
    - unfold i64_min in Hk. split; [done|lia]. }
  pose proof (Hint a Ha) as HA. pose proof (Hint b Hb) as HB.
  destruct a as [a|a|a], b as [b|b|b]; simpl in *;
    repeat match goal with H : _ /\ _ |- _ => destruct H end;
    repeat match goal with H : number_integer _ = _ |- _ => rewrite H; clear H end; simpl.
  all: rewrite ?Qcompare_inject, ?f64_compare_exact; try done.
  all: rewrite integer_float_exact by done; try done.
  all: f_equal; apply Qcompare_antisym.
Qed.

(** A function tool the host builds advertises parameters that pass strict
    provider admission, and a value they accept is an object that carries
    exactly the declared properties. *)
Theorem function_tool_strict schema t :
  value_wf schema -> FunctionToolSchema_new schema = Ok t ->
  validate_function_parameters (parameters t) = Ok tt /\
  exists ps, as_object (vidx schema "properties") = Some ps /\
    forall v p, validate_value v (parameters t) p = Ok tt ->
      exists o, v = VObject o /\ length o = length ps /\ obj_keys ps ⊆ obj_keys o.
Proof.
  intros Hwf H. unfold FunctionToolSchema_new in H. inv_ok. subst t. simpl.
  apply negb_false_iff, bool_decide_eq_true in Hg. destruct schema as [| | | | |m]; try done.
  assert (obj_get "type" m = Some (VString "object")) as Hty.
  { unfold vidx in Hg; simpl in Hg. destruct (obj_get "type" m); simplify_eq/=. done. }
  unfold normalize_schema in Hr.
  pose proof (normalize_normal _ _ _ _ Hwf Hr) as Hn.
  eapply normalize_object_inv in Hr as (ps & nps & Hps & -> & Hk & Hs & _); [|done..]. split.
  - unfold validate_function_parameters. simpl. by rewrite (normal_fixpoint _ StrictWire "$" Hn).
  - exists ps. unfold vidx; simpl. rewrite Hps. split; [done|].
    intros v p (o & -> & Hlen & Hall)%validate_object_schema. exists o. split; [done|].
    assert (length nps = length ps) as Hl.
    { rewrite <- (length_fmap fst nps), <- (length_fmap fst ps). by f_equal. }
    split; [lia|]. rewrite <- Hk. intros k Hkin. apply obj_get_key in Hkin as [q Hq].
    destruct (Hall k q) as (c & Hc & _); [by apply obj_get_elem|]. apply obj_get_key. by eexists.
Qed.

(** ** Concrete instances *)

Definition sample_schema : value :=
  json_object
    [("type", VString "object");
     ("properties", json_object
        [("count", json_object [("type", VString "integer"); ("format", VString "uint8")]);
         ("mode", json_object [("type", VArray [VString "string"; VString "null"]);
                               ("enum", VArray [VString "fast"; VNull])])]);
     ("required", VArray [VString "mode"])].

Definition sample_normal : value := Eval vm_compute in
  match normalize_schema sample_schema "$" with Ok n => n | Err _ => VNull end.

Lemma sample_schema_wf : value_wf sample_schema.
Proof. repeat constructor. Qed.

Lemma normalize_idempotent_witness :
  normalize_schema_mode sample_schema "$" HostProjection = Ok sample_normal /\
  normalize_schema_mode sample_normal "$.x" StrictWire = Ok sample_normal.
Proof.
  split; [vm_compute; reflexivity|].
  apply (normalize_idempotent sample_schema "$" HostProjection sample_normal sample_schema_wf).
  vm_compute; reflexivity.
Defined.

Definition tagged (tag : string) : value :=
  json_object
    [("type", VString "object");
     ("properties", json_object [("tag", json_object [("type", VString "string"); ("enum", VArray [VString tag])])]);
     ("required", VArray [VString "tag"])].

Definition sample_union : object := [("oneOf", VArray [tagged "left"; tagged "right"])].


Lemma number_cmp_exact_witness :
  number_cmp (VNumber (PosInt u64_max)) (VNumber (Float (F64 1 64))) = Some Lt.
Proof.
  rewrite (number_cmp_exact (PosInt u64_max) (Float (F64 1 64)));
    [vm_compute; reflexivity | unfold number_wf, in_u64, u64_max; lia | exact I].
Defined.

Lemma function_tool_strict_witness :
  exists t, FunctionToolSchema_new sample_schema = Ok t /\
    validate_function_parameters (parameters t) = Ok tt.
Proof.
  destruct (FunctionToolSchema_new sample_schema) as [t|e] eqn:E; [|vm_compute in E; discriminate E].
  exists t. split; [reflexivity|].
  apply (function_tool_strict sample_schema t sample_schema_wf E).
Defined.
