(* ===== verification/SchemaDecode.v ===== *)
(** The host argument projection of [crates/harness-schema]
    ([ArgumentProjection::decode]): the nulls that encode omitted optional
    fields, and only those, are removed on dispatch. *)

From S2P Require Import Prelude Json SchemaModel SchemaNormal.

Abbreviation field := (string * bool * ArgumentProjection)%type.
Definition field_names (fields : list field) : list string := (fun f => f.1.1) <$> fields.

(** ** What the provider sends: every declared field, null when omitted *)

Definition encode_fields (encode : ArgumentProjection -> value -> value)
    : list field -> object -> object :=
  fix go fields m :=
    match fields with
    | [] => m
    | (name, omit_null, projection) :: fields' =>
        match obj_get name m with
        | Some child => go fields' (obj_insert name (encode projection child) m)
        | None => go fields' (if omit_null then obj_insert name VNull m else m)
        end
    end.

Fixpoint projection_encode (p : ArgumentProjection) (v : value) : value :=
  match p, v with
  | PObject fields, VObject m => VObject (encode_fields projection_encode fields m)
  | PArray projection, VArray values => VArray (projection_encode projection <$> values)
  | _, _ => v
  end.

(** Host arguments of a union-free projection: an optional field whose schema
    rejects null is absent or not null. *)
Inductive host_arguments : ArgumentProjection -> value -> Prop :=
| ha_identity v : host_arguments PIdentity v
| ha_object fields m :
    NoDup (field_names fields) -> obj_sorted m ->
    (forall name projection, (name, true, projection) ∈ fields -> obj_get name m <> Some VNull) ->
    (forall name omit projection c, (name, omit, projection) ∈ fields -> obj_get name m = Some c ->
       host_arguments projection c) ->
    host_arguments (PObject fields) (VObject m)
| ha_array p l : (forall c, c ∈ l -> host_arguments p c) -> host_arguments (PArray p) (VArray l).

Lemma encode_not_null p v : v <> VNull -> projection_encode p v <> VNull.
Proof. destruct p, v; simpl; congruence. Qed.

Lemma field_name_elem (fields : list field) f : f ∈ fields -> f.1.1 ∈ field_names fields.
Proof. intros. apply list_elem_of_fmap. eauto. Qed.

Lemma encode_fields_sorted enc fields m : obj_sorted m -> obj_sorted (encode_fields enc fields m).
Proof.
  revert m. induction fields as [|[[name omit] p] fields IH]; intros m Hm; simpl; [done|].
  destruct (obj_get name m); apply IH; [by apply obj_insert_sorted|].
  destruct omit; [by apply obj_insert_sorted|done].
Qed.

Lemma encode_fields_get enc fields m :
  NoDup (field_names fields) ->
  (forall k, k ∉ field_names fields -> obj_get k (encode_fields enc fields m) = obj_get k m) /\
  (forall name omit p, (name, omit, p) ∈ fields ->
     obj_get name (encode_fields enc fields m) =
       match obj_get name m with
       | Some c => Some (enc p c)
       | None => if omit : bool then Some VNull else None
       end).
Proof.
  revert m. induction fields as [|[[n o] q] fields IH]; intros m Hnd; [split; set_solver|].
  apply NoDup_cons in Hnd as [Hn Hnd]. cbn [encode_fields].
  set (m' := match obj_get n m with
             | Some child => obj_insert n (enc q child) m
             | None => if o then obj_insert n VNull m else m
             end).
  assert (match obj_get n m with
          | Some child => encode_fields enc fields (obj_insert n (enc q child) m)
          | None => encode_fields enc fields (if o then obj_insert n VNull m else m)
          end = encode_fields enc fields m') as -> by (subst m'; by destruct (obj_get n m)).
  assert (forall k, k <> n -> obj_get k m' = obj_get k m) as Hother.
  { intros k Hk. subst m'. destruct (obj_get n m); [by apply obj_get_insert_ne|].
    destruct o; [by apply obj_get_insert_ne|done]. }
  assert (obj_get n m' = match obj_get n m with
            | Some c => Some (enc q c) | None => if o then Some VNull else None end) as Hself.
  { subst m'. destruct (obj_get n m) eqn:E; [apply obj_get_insert_eq|].
    destruct o; [apply obj_get_insert_eq|done]. }
  destruct (IH m' Hnd) as [IH1 IH2]. split.
  - intros k Hk. apply not_elem_of_cons in Hk as [Hk1 Hk2]. by rewrite IH1, Hother.
  - intros name omit p [[= -> -> ->]|Hin]%elem_of_cons; [by rewrite IH1|].
    rewrite (IH2 _ _ _ Hin), Hother; [done|]. intros ->. by apply field_name_elem in Hin.
Qed.

(** The field loop computes the object described by [g]. *)
Lemma decode_fields_spec dec path fields m (g : string -> option value) :
  obj_sorted m -> NoDup (field_names fields) ->
  (forall name omit p, (name, omit, p) ∈ fields ->
     match obj_get name m with
     | None => g name = None
     | Some c => if omit && is_null c then g name = None
                 else exists c', dec p c (path +:+ "." +:+ name) = Ok c' /\ g name = Some c'
     end) ->
  (forall k, k ∉ field_names fields -> g k = obj_get k m) ->
  exists m', decode_fields dec path fields m = Ok m' /\ obj_sorted m' /\ forall k, obj_get k m' = g k.
Proof.
  revert m. induction fields as [|[[n o] q] fields IH]; intros m Hs Hnd Hf Hk; cbn [decode_fields].
  { exists m. split_and!; [done..|]. intros k. rewrite Hk; [done|set_solver]. }
  apply NoDup_cons in Hnd as [Hn Hnd]. pose proof (Hf n o q ltac:(by left)) as Hfn.
  assert (forall m', obj_sorted m' -> obj_get n m' = g n -> (forall k, k <> n -> obj_get k m' = obj_get k m) ->
     exists m'', decode_fields dec path fields m' = Ok m'' /\ obj_sorted m'' /\ forall k, obj_get k m'' = g k) as Hrest.
  { intros m' Hs' Hself Hother. apply IH; [done..| |].
    - intros name omit p Hin. rewrite Hother; [apply Hf; by right|]. intros ->. by apply field_name_elem in Hin.
    - intros k Hkk. destruct (decide (k = n)) as [->|Hne]; [done|].
      rewrite Hother by done. apply Hk. by apply not_elem_of_cons. }
  destruct (obj_get n m) as [c|] eqn:E; [|by apply Hrest; [|rewrite E|]].
  destruct (o && is_null c).
  - apply Hrest.
    + eapply obj_sorted_sublist; [apply obj_remove_sublist|done].
    + by rewrite obj_get_remove_eq.
    + intros. by apply obj_get_remove_ne.
  - destruct Hfn as (c' & -> & Hc'); simpl. apply Hrest.
    + by apply obj_insert_sorted.
    + by rewrite obj_get_insert_eq.
    + intros. by apply obj_get_insert_ne.
Qed.

(** Sending the omitted optional fields of a host value as explicit nulls
    and projecting the arguments back yields the host value itself. *)
Theorem decode_encode p v path :
  host_arguments p v -> projection_decode p (projection_encode p v) path = Ok v.
Proof.
  intros H. revert path. induction H as [v|fields m Hnd Hs Hnull _ IH|p l _ IH]; intros path; [done|..].
  - simpl. destruct (encode_fields_get projection_encode fields m Hnd) as [He1 He2].
    destruct (decode_fields_spec projection_decode path fields
                (encode_fields projection_encode fields m) (fun k => obj_get k m)) as (m' & -> & Hs' & Hg).
    + by apply encode_fields_sorted.
    + done.
    + intros name omit q Hin. rewrite (He2 _ _ _ Hin). destruct (obj_get name m) as [c|] eqn:E.
      * assert (omit && is_null (projection_encode q c) = false) as ->.
        { destruct omit; [|done]. destruct (projection_encode q c) eqn:Ec; try done. exfalso.
          assert (c <> VNull) as Hc by (intros ->; by eapply Hnull).
          by apply (encode_not_null q) in Hc. }
        exists c. split; [by eapply IH|done].
      * by destruct omit.
    + intros k Hk. by rewrite He1.
    + simpl. do 2 f_equal. by apply obj_ext.
  - simpl. erewrite (proj2 (imap_result_from_Ok 0 _ _ l)); [done|]. split; [by rewrite length_fmap|].
    intros i x y Hx Hy. rewrite list_lookup_fmap, Hy in Hx. injection Hx as <-.
    apply IH. by eapply list_elem_of_lookup_2.
Qed.

(** ** A concrete instance *)

Definition sample_projection : ArgumentProjection :=
  PObject [("count", true, PIdentity); ("items", false, PArray (PObject [("note", true, PIdentity)]))].

Definition sample_arguments : value :=
  json_object [("items", VArray [json_object [("note", VString "n")]; json_object []])].

Lemma decode_encode_witness :
  projection_encode sample_projection sample_arguments =
    json_object [("count", VNull);
                 ("items", VArray [json_object [("note", VString "n")]; json_object [("note", VNull)]])] /\
  projection_decode sample_projection (projection_encode sample_projection sample_arguments) "$" =
    Ok sample_arguments.
Proof.
  split; [vm_compute; reflexivity|]. apply (decode_encode sample_projection sample_arguments "$").
  apply ha_object; [by_decide | repeat constructor | set_solver |].
  intros name omit projection c [[= -> -> ->]|[[= -> -> ->]|[]%elem_of_nil]%elem_of_cons]%elem_of_cons Hc;
    [constructor|]. injection Hc as <-. apply ha_array.
  intros c [->|[->|[]%elem_of_nil]%elem_of_cons]%elem_of_cons;
    (apply ha_object; [by_decide | repeat constructor | set_solver |]);
    intros; repeat match goal with
      | H : (_, _, _) ∈ _ :: _ |- _ => apply elem_of_cons in H as [[= -> -> ->]|H]; [constructor|]
      | H : _ ∈ [] |- _ => apply elem_of_nil in H; destruct H
      end.
Defined.
