(* ===== verification/Redaction.v ===== *)
(** Bounded and redacted provider diagnostics: [redact] and [diagnostic] of
    [transport/http_error.rs] and [metadata] of [transport/observation.rs].

    Text is UTF-8 bytes; a character is its byte sequence. The theorems show
    that an active credential never survives redaction and that retained
    metadata is bounded and cut on a character boundary. *)

From S2P Require Import Prelude Json.

Abbreviation bytes := (list ascii).
Abbreviation char := (list ascii).

Definition bytes_of (s : string) : bytes := String.list_ascii_of_string s.
Definition text_of (b : bytes) : string := String.string_of_list_ascii b.

(** ** UTF-8 characters *)

Definition is_continuation (b : ascii) : bool := N.eqb (N.land (N_of_ascii b) 192) 128.

(** [text.chars()]: a leading byte and the continuation bytes after it. *)
Fixpoint chars (t : bytes) : list char :=
  match t with
  | [] => []
  | b :: t' =>
      match chars t' with
      | (c :: cs) :: rest => if is_continuation c then (b :: c :: cs) :: rest else [b] :: (c :: cs) :: rest
      | rest => [b] :: rest
      end
  end.

(** [str::is_char_boundary]. *)
Definition is_char_boundary (t : bytes) (i : nat) : bool :=
  match t !! i with
  | Some b => negb (is_continuation b)
  | None => (i =? length t)%nat
  end.

(** [char::is_control]: the C0 and C1 control characters and DEL. *)
Definition is_control (c : char) : bool :=
  match c with
  | [b] => (N_of_ascii b <? 32)%N || N.eqb (N_of_ascii b) 127
  | [a; b] => N.eqb (N_of_ascii a) 194 && (128 <=? N_of_ascii b)%N && (N_of_ascii b <=? 159)%N
  | _ => false
  end.

Definition is_ascii_alphanumeric (b : ascii) : bool :=
  let n := N_of_ascii b in
  ((48 <=? n) && (n <=? 57) || (65 <=? n) && (n <=? 90) || (97 <=? n) && (n <=? 122))%N.

(** The characters redaction splits words at. *)
Definition is_delimiter (c : char) : bool :=
  match c with
  | [b] => negb (is_ascii_alphanumeric b) && negb (bool_decide (b ∈ bytes_of "_-./+="))
  | _ => true
  end.

(** ** Searching and replacing *)

Fixpoint starts_with (p t : bytes) : bool :=
  match p, t with
  | [], _ => true
  | a :: p', b :: t' => bool_decide (a = b) && starts_with p' t'
  | _ :: _, [] => false
  end.

(** [text.replace(secret, by)] for a nonempty secret: leftmost, disjoint. *)
Fixpoint replace_fuel (fuel : nat) (secret by_ t : bytes) : bytes :=
  match fuel with
  | O => t
  | S fuel =>
      if starts_with secret t then by_ ++ replace_fuel fuel secret by_ (drop (length secret) t)
      else match t with
           | [] => []
           | b :: t' => b :: replace_fuel fuel secret by_ t'
           end
  end.

Definition replace (secret by_ t : bytes) : bytes := replace_fuel (S (length t)) secret by_ t.

(** [str::split_inclusive] on a character predicate. *)
Fixpoint split_inclusive (delim : char -> bool) (cur : list char) (t : list char) : list (list char) :=
  match t with
  | [] => match cur with [] => [] | _ => [cur] end
  | c :: t' =>
      if delim c then (cur ++ [c]) :: split_inclusive delim [] t'
      else split_inclusive delim (cur ++ [c]) t'
  end.

(** [str::trim_end_matches]. *)
Fixpoint trim_start (delim : char -> bool) (t : list char) : list char :=
  match t with
  | [] => []
  | c :: t' => if delim c then trim_start delim t' else t
  end.

Definition trim_end_matches (delim : char -> bool) (t : list char) : list char :=
  reverse (trim_start delim (reverse t)).

Definition REDACTED : bytes := bytes_of "[redacted]".

Definition ascii_lower (b : ascii) : ascii :=
  if ((65 <=? N_of_ascii b) && (N_of_ascii b <=? 90))%N then ascii_of_N (N_of_ascii b + 32) else b.

Definition eq_ignore_ascii_case (a b : bytes) : bool :=
  bool_decide (ascii_lower <$> a = ascii_lower <$> b).

Definition secret_shape (word : bytes) : bool :=
  starts_with (bytes_of "sk-") word || starts_with (bytes_of "acct_") word || starts_with (bytes_of "account-") word
  || starts_with (bytes_of "org-") word
  || (starts_with (bytes_of "eyJ") word && (length (List.filter (fun b => bool_decide (b ∈ bytes_of ".")) word) =? 2)%nat).

Definition blank_control (c : char) : bytes := if is_control c then bytes_of " " else c.

(** The loop over the parts: output so far is what precedes the result. *)
Fixpoint redact_parts (bearer : bool) (parts : list (list char)) : bytes :=
  match parts with
  | [] => []
  | part :: parts' =>
      let word := trim_end_matches is_delimiter part in
      let delimiter := drop (length word) part in
      match word with
      | [] => concat (blank_control <$> delimiter) ++ redact_parts bearer parts'
      | _ =>
          (if bearer || secret_shape (concat word) then REDACTED else concat (blank_control <$> word))
          ++ concat (blank_control <$> delimiter)
          ++ redact_parts (eq_ignore_ascii_case (concat word) (bytes_of "bearer")) parts'
      end
  end.

Definition redact_secret (t : bytes) (secret : bytes) : bytes :=
  match secret with
  | [] => t
  | _ => replace secret REDACTED t
  end.

Definition redact (text token account : string) : string :=
  let t := foldl redact_secret (bytes_of text) [bytes_of token; bytes_of account] in
  text_of (redact_parts false (split_inclusive is_delimiter [] (chars t))).

(** ** Bounded diagnostics *)

Definition FIELD_LIMIT : nat := 256.
Definition MESSAGE_LIMIT : nat := 2048.
Definition METADATA_BYTES : nat := 128.

Record HttpDiagnostic := {
  code : option string;
  error_type : option string;
  param : option string;
  message : option string
}.

#[export] Instance HttpDiagnostic_eq_dec : EqDecision HttpDiagnostic.
Proof. solve_decision. Defined.

Definition bounded (text : string) (limit : nat) (token account : string) : string :=
  text_of (concat (take limit (chars (bytes_of (redact text token account))))).

Definition diagnostic (code error_type param message : option string) (token account : string)
    : option HttpDiagnostic :=
  let d := {|
    code := (fun t => bounded t FIELD_LIMIT token account) <$> code;
    error_type := (fun t => bounded t FIELD_LIMIT token account) <$> error_type;
    param := (fun t => bounded t FIELD_LIMIT token account) <$> param;
    message := (fun t => bounded t MESSAGE_LIMIT token account) <$> message |} in
  if decide (d = {| code := None; error_type := None; param := None; message := None |}) then None else Some d.

(** Walk [end] back to a character boundary. *)
Fixpoint floor_boundary (t : bytes) (end_ : nat) : nat :=
  if is_char_boundary t end_ then end_
  else match end_ with
       | O => O
       | S e => floor_boundary t e
       end.

Definition metadata (value token account : string) : string * bool :=
  let v := bytes_of (redact value token account) in
  let truncated := (METADATA_BYTES <? length v)%nat in
  let end_ := floor_boundary v (Nat.min (length v) METADATA_BYTES) in
  (text_of (take end_ v), truncated).

(** ** Substrings *)

Definition occurs (s t : bytes) : Prop := exists a b, t = a ++ s ++ b.

(** Secrets whose absence redaction can guarantee: text a credential has. *)
Definition secret_ok (s : bytes) : Prop :=
  s <> [] /\ "["%char ∉ s /\ "]"%char ∉ s /\ " "%char ∉ s /\ ~ occurs s (bytes_of "redacted").

Lemma occurs_cons s c t : occurs s (c :: t) <-> s `prefix_of` c :: t \/ occurs s t.
Proof.
  split.
  - intros ([|x a] & b & H); simpl in H; [left; by exists b|]. injection H as -> ->.
    right. by exists a, b.
  - intros [[b H]|(a & b & ->)]; [by exists [], b | by exists (c :: a), b].
Qed.

Lemma occurs_nil s : occurs s [] -> s = [].
Proof. intros (a & b & H). destruct a, s; simplify_eq/=; done. Qed.

(** A secret does not touch an inserted mark. *)
Lemma prefix_of_mark s t : secret_ok s -> s `prefix_of` REDACTED ++ t -> False.
Proof.
  intros (Hne & Hb & _) [k Hk]. destruct s as [|x s]; [done|]. simpl in Hk. injection Hk as <- _.
  set_solver.
Qed.

Lemma occurs_mark_inner s w t :
  secret_ok s -> w `suffix_of` bytes_of "redacted" -> occurs s (w ++ "]"%char :: t) -> occurs s t.
Proof.
  intros Hs. pose proof Hs as (Hne & _ & Hb & _ & Hocc). revert t.
  induction w as [|x w IH]; intros t Hw; simpl.
  - intros [[k Hk]|H]%occurs_cons; [|done]. destruct s as [|y s]; [done|].
    injection Hk as <- _. set_solver.
  - rewrite occurs_cons. intros [[k Hk]|H].
    + exfalso. destruct Hw as [pre Hpre].
      (* the secret starts inside the mark: it ends there or crosses its end *)
      destruct (decide (length s <= length (x :: w))%nat) as [Hle|Hgt].
      * apply Hocc. assert ((x :: w) = s ++ take (length (x :: w) - length s) k) as Hxw.
        { change (x :: w ++ "]"%char :: t) with ((x :: w) ++ "]"%char :: t) in Hk.
          apply (f_equal (take (length (x :: w)))) in Hk. rewrite take_app_length in Hk.
          by rewrite take_app_ge in Hk. }
        exists pre, (take (length (x :: w) - length s) k). rewrite Hpre. by f_equal.
      * apply Hb. apply list_elem_of_lookup. exists (length (x :: w)).
        change (x :: w ++ "]"%char :: t) with ((x :: w) ++ "]"%char :: t) in Hk.
        rewrite <- (lookup_app_l s k) by lia. rewrite <- Hk. by apply list_lookup_middle.
    + apply IH; [|done]. destruct Hw as [pre Hpre]. exists (pre ++ [x]). by rewrite <- app_assoc.
Qed.

Lemma occurs_mark s t : secret_ok s -> occurs s (REDACTED ++ t) -> occurs s t.
Proof.
  intros Hs H. change (REDACTED ++ t) with ("["%char :: bytes_of "redacted" ++ "]"%char :: t) in H.
  apply occurs_cons in H as [H|H].
  - by destruct (prefix_of_mark s t Hs H).
  - by eapply (occurs_mark_inner s (bytes_of "redacted")).
Qed.

(** ** Redactions of a text: parts cut to the mark or to a blank *)

Inductive redaction : bytes -> bytes -> Prop :=
| red_nil : redaction [] []
| red_keep c t t' : redaction t t' -> redaction (c :: t) (c :: t')
| red_blank u t t' : redaction t t' -> redaction (u ++ t) (" "%char :: t')
| red_mark u t t' : redaction t t' -> redaction (u ++ t) (REDACTED ++ t').

Lemma redaction_refl t : redaction t t.
Proof. induction t; by constructor. Qed.

Lemma redaction_app t1 t1' t2 t2' :
  redaction t1 t1' -> redaction t2 t2' -> redaction (t1 ++ t2) (t1' ++ t2').
Proof.
  intros H H2. induction H; [done|by constructor|..]; rewrite <- app_assoc.
  - by apply red_blank.
  - rewrite <- (app_assoc REDACTED). by apply red_mark.
Qed.

(** Without a blank or a mark the secret was already a prefix. *)
Lemma redaction_prefix s t t' :
  "["%char ∉ s -> " "%char ∉ s -> redaction t t' -> s `prefix_of` t' -> s `prefix_of` t.
Proof.
  intros H1 H2 H. revert s H1 H2. induction H as [|c t t' H IH|u t t' H IH|u t t' H IH];
    intros [|x s] H1 H2 [k Hk]; simpl in *; simplify_eq/=; try (apply prefix_nil); try set_solver.
  apply prefix_cons. apply IH; [set_solver..|]. by exists k.
Qed.

Lemma redaction_occurs s t t' : secret_ok s -> redaction t t' -> occurs s t' -> occurs s t.
Proof.
  intros Hs H. pose proof Hs as (Hne & Hb1 & _ & Hb2 & _).
  induction H as [|c t t' H IH|u t t' H IH|u t t' H IH]; intros Ho.
  - done.
  - apply occurs_cons in Ho as [Hp|Ho]; apply occurs_cons; [left|right; auto].
    eapply redaction_prefix; [done..| |exact Hp]. by constructor.
  - apply occurs_cons in Ho as [[k Hk]|Ho].
    + destruct s; [done|]. injection Hk as <- _. set_solver.
    + destruct (IH Ho) as (a & b & ->). exists (u ++ a), b. by rewrite <- app_assoc.
  - apply occurs_mark in Ho; [|done]. destruct (IH Ho) as (a & b & ->).
    exists (u ++ a), b. by rewrite <- app_assoc.
Qed.

(** ** Replacing and the parts loop are redactions *)

Lemma starts_with_true p t : starts_with p t = true <-> p `prefix_of` t.
Proof.
  revert t. induction p as [|a p IH]; intros [|b t]; simpl.
  - split; [intros _; apply prefix_nil | done].
  - split; [intros _; apply prefix_nil | done].
  - split; [done | intros H; by apply prefix_nil_not in H].
  - rewrite andb_true_iff, bool_decide_eq_true, IH. split.
    + intros [-> H]. by apply prefix_cons.
    + intros H. split; [by eapply prefix_cons_inv_1 | by eapply prefix_cons_inv_2].
Qed.

Lemma replace_fuel_redaction fuel s t : redaction t (replace_fuel fuel s REDACTED t).
Proof.
  revert t. induction fuel as [|fuel IH]; intros t; [apply redaction_refl|]. cbn [replace_fuel].
  destruct (starts_with s t) eqn:E.
  - apply starts_with_true in E as [k ->]. rewrite drop_app_length. by constructor.
  - destruct t; by constructor.
Qed.

Lemma replace_fuel_no_secret fuel s t :
  secret_ok s -> (length t < fuel)%nat -> ~ occurs s (replace_fuel fuel s REDACTED t).
Proof.
  intros Hs. pose proof Hs as (Hne & Hb & _ & Hsp & _). revert t.
  induction fuel as [|fuel IH]; intros t Hlen; [lia|]. cbn [replace_fuel].
  destruct (starts_with s t) eqn:E.
  - apply starts_with_true in E as [k ->]. rewrite drop_app_length.
    intros H%occurs_mark; [|done]. revert H. apply IH. rewrite length_app in Hlen.
    destruct s; [done|]. simpl in Hlen. lia.
  - destruct t as [|b t]; [by intros ->%occurs_nil|].
    intros [Hp|H]%occurs_cons; [|revert H; apply IH; simpl in Hlen; lia].
    assert (s `prefix_of` b :: t) as Hp'.
    { eapply redaction_prefix; [done..| |exact Hp]. constructor. apply replace_fuel_redaction. }
    apply starts_with_true in Hp'. congruence.
Qed.

Lemma redact_secret_redaction t s : redaction t (redact_secret t s).
Proof. destruct s; [apply redaction_refl | apply replace_fuel_redaction]. Qed.

Lemma redact_secret_clears t s : secret_ok s -> ~ occurs s (redact_secret t s).
Proof.
  intros Hs. destruct s; [by destruct Hs|]. apply replace_fuel_no_secret; [done|lia].
Qed.

Lemma concat_chars t : concat (chars t) = t.
Proof.
  induction t as [|b t IH]; [done|]. simpl. destruct (chars t) as [|[|c cs] rest].
  - simpl in *. by rewrite <- IH.
  - simpl in *. by rewrite IH.
  - destruct (is_continuation c); simpl in *; by rewrite IH.
Qed.

Lemma concat_split_inclusive d cur t : concat (split_inclusive d cur t) = cur ++ t.
Proof.
  revert cur. induction t as [|c t IH]; intros cur; simpl.
  - destruct cur; simpl; by rewrite ?app_nil_r.
  - destruct (d c); simpl; rewrite IH; by rewrite <- ?app_assoc.
Qed.

Lemma trim_start_suffix d t : trim_start d t `suffix_of` t.
Proof.
  induction t as [|c t IH]; simpl; [done|]. destruct (d c); [|done].
  by apply suffix_cons_r.
Qed.

Lemma trim_end_prefix d t : trim_end_matches d t `prefix_of` t.
Proof.
  unfold trim_end_matches. destruct (trim_start_suffix d (reverse t)) as [k Hk].
  exists (reverse k). apply (f_equal reverse) in Hk. by rewrite reverse_app, reverse_involutive in Hk.
Qed.

Lemma trim_end_split d part :
  part = trim_end_matches d part ++ drop (length (trim_end_matches d part)) part.
Proof.
  destruct (trim_end_prefix d part) as [k Hk]. revert Hk.
  generalize (trim_end_matches d part). intros w ->. by rewrite drop_app_length.
Qed.

Lemma blank_control_redaction t : redaction (concat t) (concat (blank_control <$> t)).
Proof.
  induction t as [|c t IH]; [constructor|]. cbn [fmap list_fmap concat].
  unfold blank_control at 1. destruct (is_control c).
  - by apply (red_blank c).
  - apply redaction_app; [apply redaction_refl|done].
Qed.

Lemma redact_parts_redaction b parts :
  redaction (concat (concat parts)) (redact_parts b parts).
Proof.
  revert b. induction parts as [|part parts IH]; intros b; [constructor|]. cbn [redact_parts concat].
  rewrite concat_app. rewrite (trim_end_split is_delimiter part) at 1. rewrite concat_app, <- app_assoc.
  destruct (trim_end_matches is_delimiter part) as [|c w] eqn:E.
  - cbn [concat]. rewrite app_nil_l. apply redaction_app; [apply blank_control_redaction | apply IH].
  - apply redaction_app; [|apply redaction_app; [apply blank_control_redaction | apply IH]].
    destruct (b || _); [|apply blank_control_redaction].
    rewrite <- (app_nil_r (concat _)), <- (app_nil_r REDACTED). apply red_mark. constructor.
Qed.

Lemma bytes_text b : bytes_of (text_of b) = b.
Proof. apply String.list_ascii_of_string_of_list_ascii. Qed.

Lemma text_bytes s : text_of (bytes_of s) = s.
Proof. apply String.string_of_list_ascii_of_string. Qed.

Lemma redact_redaction text token account :
  redaction (foldl redact_secret (bytes_of text) [bytes_of token; bytes_of account])
            (bytes_of (redact text token account)).
Proof.
  unfold redact. rewrite bytes_text.
  set (t := foldl _ _ _). rewrite <- (concat_chars t) at 1.
  rewrite <- (app_nil_l (chars t)) at 1. rewrite <- (concat_split_inclusive is_delimiter).
  apply redact_parts_redaction.
Qed.


(** ** Bounds *)

(** A character after the first starts with a byte that continues nothing. *)
Definition leads (c : char) : Prop :=
  exists b bs, c = b :: bs /\ is_continuation b = false /\ Forall (fun x => is_continuation x = true) bs.

Definition starts (c : char) : Prop :=
  exists b bs, c = b :: bs /\ Forall (fun x => is_continuation x = true) bs.

Definition charred (l : list char) : Prop :=
  match l with
  | [] => True
  | c :: rest => starts c /\ Forall leads rest
  end.

Lemma chars_charred t : charred (chars t).
Proof.
  induction t as [|b t IH]; [done|]. simpl. destruct (chars t) as [|[|c cs] rest] eqn:E.
  - split; [by exists b, [] | done].
  - destruct IH as [(? & ? & ? & ?) _]. done.
  - destruct IH as [(x & xs & [= <- <-] & Hxs) Hrest]. destruct (is_continuation c) eqn:Hc.
    + split; [|done]. exists b, (c :: cs). split; [done|]. by constructor.
    + split; [by exists b, []|]. constructor; [|done]. by exists c, cs.
Qed.

Lemma chars_continuations bs t :
  Forall (fun x => is_continuation x = true) bs ->
  match chars t with (c :: _) :: _ => is_continuation c = false | [] :: _ => False | [] => True end ->
  forall b, chars (b :: bs ++ t) = (b :: bs) :: chars t.
Proof.
  intros Hbs Ht. induction Hbs as [|x bs Hx Hbs IH]; intros b.
  - simpl. destruct (chars t) as [|[|c cs] rest]; [done..|]. by rewrite Ht.
  - specialize (IH x). change (chars (b :: (x :: bs) ++ t)) with
      (match chars (x :: bs ++ t) with
       | (c :: cs) :: rest => if is_continuation c then (b :: c :: cs) :: rest else [b] :: (c :: cs) :: rest
       | rest => [b] :: rest
       end). rewrite IH. by rewrite Hx.
Qed.

Lemma chars_concat l : charred l -> chars (concat l) = l.
Proof.
  destruct l as [|c l]; [done|]. intros [(b & bs & -> & Hbs) Hl]. revert b bs Hbs.
  induction Hl as [|c l (x & xs & -> & Hx & Hxs) Hl IH]; intros b bs Hbs.
  - apply (chars_continuations bs []); done.
  - change (concat ((b :: bs) :: (x :: xs) :: l)) with (b :: bs ++ concat ((x :: xs) :: l)).
    rewrite chars_continuations; [by rewrite IH | done |]. by rewrite IH.
Qed.

Lemma chars_take n t : chars (concat (take n (chars t))) = take n (chars t).
Proof.
  apply chars_concat. pose proof (chars_charred t) as H. destruct n, (chars t); simpl in *; try done.
  destruct H as [H1 H2]. split; [done|]. by apply Forall_take.
Qed.

Lemma occurs_prefix s p t : p `prefix_of` t -> occurs s p -> occurs s t.
Proof. intros [k ->] (a & b & ->). exists a, (b ++ k). by rewrite <- !app_assoc. Qed.

Lemma redact_clears text token account s :
  s = token \/ s = account -> secret_ok (bytes_of s) ->
  ~ occurs (bytes_of s) (bytes_of (redact text token account)).
Proof.
  intros Hwhich Hs H. eapply redaction_occurs in H; [|done|apply redact_redaction]. simpl in H.
  destruct Hwhich as [->| ->].
  - eapply redaction_occurs in H; [|done|apply redact_secret_redaction].
    by eapply redact_secret_clears.
  - by eapply redact_secret_clears.
Qed.

Lemma bounded_spec text limit token account :
  (length (chars (bytes_of (bounded text limit token account))) <= limit)%nat /\
  bytes_of (bounded text limit token account) `prefix_of` bytes_of (redact text token account).
Proof.
  unfold bounded. rewrite bytes_text, chars_take. split; [rewrite length_take; lia|].
  set (t := bytes_of (redact _ _ _)). rewrite <- (concat_chars t) at 2.
  rewrite <- (take_drop limit (chars t)) at 2. rewrite concat_app. by eexists.
Qed.

Lemma floor_boundary_spec t n :
  (n <= length t)%nat ->
  (floor_boundary t n <= n)%nat /\
  (is_char_boundary t (floor_boundary t n) = true \/ floor_boundary t n = O) /\
  forall i, (floor_boundary t n < i <= n)%nat -> is_char_boundary t i = false.
Proof.
  induction n as [|n IH]; intros Hn; cbn [floor_boundary].
  - destruct (is_char_boundary t 0) eqn:E; repeat split; try lia; auto.
  - destruct (is_char_boundary t (S n)) eqn:E; [repeat split; auto; lia|].
    destruct IH as (H1 & H2 & H3); [lia|]. repeat split; [lia|done|].
    intros i Hi. destruct (decide (i = S n)) as [->|]; [done|]. apply H3. lia.
Qed.

(** ** Claims *)

(** Neither active credential survives redaction: whatever text the provider returned, the token and the account id do not occur in it anywhere after [redact], also not across the inserted marks, for credentials without brackets and blanks that are not part of the word the mark itself spells. *)
Theorem redact_removes_credentials text token account s :
  s = token \/ s = account -> secret_ok (bytes_of s) ->
  ~ occurs (bytes_of s) (bytes_of (redact text token account)).
Proof. apply redact_clears. Qed.

Lemma redact_removes_credentials_witness :
  ~ occurs (bytes_of "tok-9f3A") (bytes_of (redact "bad key tok-9f3A, Bearer abc; org-1" "tok-9f3A" "acct_7")).
Proof.
  apply (redact_removes_credentials _ "tok-9f3A" "acct_7" "tok-9f3A"); [by left|].
  split; [done|]. split; [by_decide|]. split; [by_decide|]. split; [by_decide|].
  intros (a & b & H). apply (f_equal (fun t => bool_decide ("9"%char ∈ t))) in H. revert H.
  rewrite (bool_decide_eq_true_2 ("9"%char ∈ a ++ _)); [by vm_compute|].
  rewrite !elem_of_app. right; left. by_decide.
Defined.

(** Retained response metadata is what the redacted header value starts with: at most [METADATA_BYTES] bytes, cut on a character boundary and not earlier than needed, flagged truncated exactly when bytes were beyond the limit, and free of both credentials. *)
Theorem metadata_bounded value token account :
  let v := bytes_of (redact value token account) in
  let '(text, truncated) := metadata value token account in
  let n := length (bytes_of text) in
  bytes_of text = take n v /\ (n <= METADATA_BYTES)%nat /\
  (truncated = true <-> (METADATA_BYTES < length v)%nat) /\
  (is_char_boundary v n = true \/ n = O) /\
  (forall i, (n < i <= Nat.min (length v) METADATA_BYTES)%nat -> is_char_boundary v i = false) /\
  (forall s, s = token \/ s = account -> secret_ok (bytes_of s) -> ~ occurs (bytes_of s) (bytes_of text)).
Proof.
  cbv beta iota zeta delta [metadata]. rewrite bytes_text. set (v := bytes_of (redact value token account)).
  set (e := floor_boundary v _).
  destruct (floor_boundary_spec v (Nat.min (length v) METADATA_BYTES)) as (H1 & H2 & H3); [lia|].
  fold e in H1, H2, H3. assert (length (take e v) = e) as -> by (rewrite length_take; lia).
  split; [done|]. split; [lia|]. split; [apply Nat.ltb_lt|]. split; [done|]. split; [done|].
  intros s Hs Hok Ho. eapply (redact_clears value); [done..|]. eapply occurs_prefix; [|exact Ho].
  exists (drop e v). by rewrite take_drop.
Qed.

(** The texts a diagnostic retains, each with its character limit. *)
Definition retained (d : HttpDiagnostic) : list (nat * string) :=
  let field limit o := match o with Some t => [(limit, t)] | None => [] end in
  field FIELD_LIMIT (code d) ++ field FIELD_LIMIT (error_type d) ++ field FIELD_LIMIT (param d)
  ++ field MESSAGE_LIMIT (message d).

(** A provider diagnostic is reported exactly when the provider sent some field, and each retained field is within its character limit and free of both credentials: redaction runs before truncation, so that a cut cannot keep a credential's tail hidden from it. *)
Theorem diagnostic_bounded c e p m token account :
  match diagnostic c e p m token account with
  | None => c = None /\ e = None /\ p = None /\ m = None
  | Some d =>
      (is_Some c \/ is_Some e \/ is_Some p \/ is_Some m) /\
      Forall (fun '(limit, t) =>
        (length (chars (bytes_of t)) <= limit)%nat /\
        forall s, s = token \/ s = account -> secret_ok (bytes_of s) -> ~ occurs (bytes_of s) (bytes_of t))
        (retained d)
  end.
Proof.
  assert (forall text limit, (length (chars (bytes_of (bounded text limit token account))) <= limit)%nat /\
    forall s, s = token \/ s = account -> secret_ok (bytes_of s) ->
      ~ occurs (bytes_of s) (bytes_of (bounded text limit token account))) as Hb.
  { intros text limit. destruct (bounded_spec text limit token account) as [H1 H2]. split; [done|].
    intros s Hs Hok Ho. eapply (redact_clears text); [done..|]. by eapply occurs_prefix. }
  unfold diagnostic. case_decide as Hd.
  - injection Hd as H1 H2 H3 H4. rewrite !fmap_None in *. done.
  - split.
    + destruct c, e, p, m; try done; eauto 6.
    + unfold retained. destruct c, e, p, m; cbn [fmap option_fmap option_map code error_type param message app];
        repeat (apply Forall_cons_2; [apply Hb|]); by apply Forall_nil_2.
Qed.
