(* ===== verification/Usage.v ===== *)
(** Provider token counters: [transport/usage.rs].

    [Usage] is what the provider reported and nothing else; [UsageWire] is its
    stored form with the two legacy versions. The theorems show that storing
    loses nothing, that reading a legacy record never invents a counter, and
    that the known subtotal is the saturated sum of the reported totals. *)

From S2P Require Import Prelude Json.

Inductive RawUsage :=
| Unavailable
| Observed (v : value).

Record Usage := {
  input_tokens : option Z;
  output_tokens : option Z;
  cached_tokens : option Z;
  cache_miss_tokens : option Z;
  cache_write_tokens : option Z;
  reasoning_tokens : option Z;
  raw : RawUsage
}.

Definition Usage_default : Usage :=
  {| input_tokens := None; output_tokens := None; cached_tokens := None; cache_miss_tokens := None;
     cache_write_tokens := None; reasoning_tokens := None; raw := Unavailable |}.

Definition has_reported_totals (u : Usage) : bool :=
  bool_decide (is_Some (input_tokens u)) && bool_decide (is_Some (output_tokens u)).

Definition known_token_subtotal (u : Usage) : Z :=
  foldl saturating_add_u64 0 (option_list (input_tokens u) ++ option_list (output_tokens u)).

Definition from_response_usage (response : value) : Usage :=
  match vget "usage" response with
  | None => Usage_default
  | Some usage =>
      let input_details := vidx usage "input_tokens_details" in
      let output_details := vidx usage "output_tokens_details" in
      {| input_tokens := get_u64 "input_tokens" usage;
         output_tokens := get_u64 "output_tokens" usage;
         cached_tokens := get_u64 "cached_tokens" input_details;
         cache_miss_tokens := get_u64 "prompt_cache_miss_tokens" usage;
         cache_write_tokens := get_u64 "cache_write_tokens" input_details;
         reasoning_tokens := get_u64 "reasoning_tokens" output_details;
         raw := Observed usage |}
  end.

Record UsageWire := {
  wire_version : Z;
  wire_reported : bool;
  wire_input_tokens : option Z;
  wire_output_tokens : option Z;
  wire_cached_tokens : option Z;
  wire_cache_miss_tokens : option Z;
  wire_cache_write_tokens : option Z;
  wire_reasoning_tokens : option Z;
  wire_raw : RawUsage
}.

Definition UsageWire_from (u : Usage) : UsageWire :=
  {| wire_version := 3;
     wire_reported := has_reported_totals u;
     wire_input_tokens := input_tokens u;
     wire_output_tokens := output_tokens u;
     wire_cached_tokens := cached_tokens u;
     wire_cache_miss_tokens := cache_miss_tokens u;
     wire_cache_write_tokens := cache_write_tokens u;
     wire_reasoning_tokens := reasoning_tokens u;
     wire_raw := raw u |}.

(** [option.filter(|count| keep || *count != 0)]. *)
Definition keep_nonzero (keep : bool) (o : option Z) : option Z :=
  match o with
  | Some n => if keep || negb (n =? 0) then Some n else None
  | None => None
  end.

Definition Usage_try_from (w : UsageWire) : result string Usage :=
  if (wire_version w =? 1) || (wire_version w =? 2) then
    refuse wire_reported w && (negb (bool_decide (is_Some (wire_input_tokens w)))
                               || negb (bool_decide (is_Some (wire_output_tokens w))))
      with "reported legacy usage lacks totals";
    Ok {| input_tokens := keep_nonzero (wire_reported w) (wire_input_tokens w);
          output_tokens := keep_nonzero (wire_reported w) (wire_output_tokens w);
          cached_tokens := keep_nonzero (wire_version w =? 2) (wire_cached_tokens w);
          cache_miss_tokens := cache_miss_tokens Usage_default;
          cache_write_tokens := keep_nonzero (wire_version w =? 2) (wire_cache_write_tokens w);
          reasoning_tokens := reasoning_tokens Usage_default;
          raw := raw Usage_default |}
  else if wire_version w =? 3 then
    Ok {| input_tokens := wire_input_tokens w;
          output_tokens := wire_output_tokens w;
          cached_tokens := wire_cached_tokens w;
          cache_miss_tokens := wire_cache_miss_tokens w;
          cache_write_tokens := wire_cache_write_tokens w;
          reasoning_tokens := wire_reasoning_tokens w;
          raw := wire_raw w |}
  else Err "unsupported usage observation version".

(** ** Lemmas *)

(** A stored counter stands for a reading when it is that reading or nothing. *)
Definition refines_counter (read stored : option Z) : Prop := forall n, read = Some n -> stored = Some n.

Lemma keep_nonzero_refines keep o : refines_counter (keep_nonzero keep o) o.
Proof. intros n. destruct o; simpl; [|done]. destruct (keep || _); naive_solver. Qed.

Lemma keep_nonzero_reported o : keep_nonzero true o = o.
Proof. by destruct o. Qed.

Lemma keep_nonzero_positive keep n : n <> 0 -> keep_nonzero keep (Some n) = Some n.
Proof. intros Hn. simpl. rewrite (proj2 (Z.eqb_neq n 0) Hn). by rewrite orb_true_r. Qed.

Lemma saturating_fold l acc :
  0 <= acc <= u64_max -> Forall (fun n => 0 <= n) l ->
  foldl saturating_add_u64 acc l = Z.min u64_max (acc + foldr Z.add 0 l).
Proof.
  intros Hacc Hl. revert acc Hacc. induction Hl as [|n l Hn Hl IH]; intros acc Hacc; simpl.
  - lia.
  - assert (0 <= foldr Z.add 0 l) by (clear IH; induction Hl; simpl; lia).
    rewrite IH; unfold saturating_add_u64, u64_max in *; lia.
Qed.

(** ** Claims *)

(** Reading any stored record back: the current version is what was stored, a legacy version keeps a positive total and an explicitly reported one, drops an unreported zero, never invents a counter, and is refused exactly when it claims totals it lacks; any other version is refused. *)
Theorem usage_wire_faithful (w : UsageWire) :
  match Usage_try_from w with
  | Ok u =>
      (wire_version w = 3 /\ (wire_reported w = has_reported_totals u -> UsageWire_from u = w)) \/
      ((wire_version w = 1 \/ wire_version w = 2) /\
       refines_counter (input_tokens u) (wire_input_tokens w) /\
       refines_counter (output_tokens u) (wire_output_tokens w) /\
       refines_counter (cached_tokens u) (wire_cached_tokens w) /\
       refines_counter (cache_write_tokens u) (wire_cache_write_tokens w) /\
       cache_miss_tokens u = None /\ reasoning_tokens u = None /\ raw u = Unavailable /\
       (wire_reported w = true -> input_tokens u = wire_input_tokens w /\
          output_tokens u = wire_output_tokens w /\ has_reported_totals u = true) /\
       (forall n, n <> 0 -> wire_input_tokens w = Some n -> input_tokens u = Some n) /\
       (forall n, n <> 0 -> wire_output_tokens w = Some n -> output_tokens u = Some n))
  | Err _ =>
      ((wire_version w = 1 \/ wire_version w = 2) /\ wire_reported w = true /\
       (wire_input_tokens w = None \/ wire_output_tokens w = None)) \/
      ~ 1 <= wire_version w <= 3
  end.
Proof.
  unfold Usage_try_from. destruct ((wire_version w =? 1) || (wire_version w =? 2)) eqn:Hv.
  - assert (wire_version w = 1 \/ wire_version w = 2) as Hv' by lia.
    destruct (wire_reported w && _) eqn:Hr.
    + left. apply andb_prop in Hr as [Hr Hm]. split; [done|]. split; [done|].
      apply orb_prop in Hm as [Hm|Hm]; apply negb_true_iff, bool_decide_eq_false in Hm;
        rewrite <- eq_None_not_Some in Hm; auto.
    + right. repeat split; simpl; auto using keep_nonzero_refines.
      * rewrite H. apply keep_nonzero_reported.
      * rewrite H. apply keep_nonzero_reported.
      * rewrite H in *. unfold has_reported_totals; simpl. rewrite !keep_nonzero_reported.
        simpl in Hr. apply orb_false_elim in Hr as [H1 H2]. apply negb_false_iff in H1, H2.
        by rewrite H1, H2.
      * intros n Hn ->. by apply keep_nonzero_positive.
      * intros n Hn ->. by apply keep_nonzero_positive.
  - destruct (wire_version w =? 3) eqn:H3; [|right; lia]. left. split; [lia|].
    intros Hr. unfold UsageWire_from; simpl. rewrite <- Hr. destruct w; simpl in *. f_equal. lia.
Qed.

(** Storing an observation and reading it back gives the same observation, and its known subtotal is the sum of the reported totals, saturated at 64 bits: unknown counters count for nothing and no sum wraps. *)
Theorem usage_roundtrip_and_subtotal (u : Usage) :
  Usage_try_from (UsageWire_from u) = Ok u /\
  (forall i o, in_u64 i -> in_u64 o ->
    input_tokens u = Some i -> output_tokens u = Some o ->
    known_token_subtotal u = Z.min u64_max (i + o)) /\
  (forall i, in_u64 i -> output_tokens u = None -> input_tokens u = Some i -> known_token_subtotal u = i).
Proof.
  split; [by destruct u|]. unfold known_token_subtotal, in_u64. split.
  - intros i o Hi Ho -> ->. simpl option_list. rewrite (saturating_fold ([i] ++ [o])).
    + simpl. lia.
    + unfold u64_max. lia.
    + repeat constructor; lia.
  - intros i Hi -> ->. simpl option_list. rewrite (saturating_fold ([i] ++ [])).
    + simpl. lia.
    + unfold u64_max. lia.
    + repeat constructor; lia.
Qed.
