(* ===== verification/Observation.v ===== *)
(** Bounded native response metadata: [transport/observation.rs], with the
    transport's data types of [transport/mod.rs] and [model.rs] it mentions.

    The theorems show that a run of events leaves exactly the last
    [KIND_TAIL] kinds, counts the unrecognised ones and remembers the last
    recognised one, and that retained response metadata is bounded. *)

From S2P Require Import Prelude Json Redaction Usage.

Inductive Effort := EffortNone | Low | Medium | High | Max.
Inductive ResponsesRoute := ChatGptPlan | DeepSeek.

#[export] Instance Effort_eq_dec : EqDecision Effort.
Proof. solve_decision. Defined.
#[export] Instance ResponsesRoute_eq_dec : EqDecision ResponsesRoute.
Proof. solve_decision. Defined.

Definition KIND_TAIL : nat := 8.

Inductive IncompleteReason := MaxOutputTokens | ContentFilter | Steered | UnknownReason.

Definition IncompleteReason_from_provider (v : string) : IncompleteReason :=
  if decide (v = "max_output_tokens") then MaxOutputTokens
  else if decide (v = "content_filter") then ContentFilter
  else if decide (v = "steered") then Steered
  else UnknownReason.

Inductive EventKind :=
| Created | Completed | Incomplete | Failed | Error
| OutputItemAdded | OutputItemDone | OutputTextDelta
| ReasoningSummaryDelta | ReasoningDelta
| FunctionArgumentsDelta | ToolInputDelta | RefusalDelta
| Missing
| Unknown (sha256 : string).

#[export] Instance EventKind_eq_dec : EqDecision EventKind.
Proof. solve_decision. Defined.

Definition recognized (k : EventKind) : bool :=
  match k with Unknown _ | Missing => false | _ => true end.

Inductive ResponseTerminal :=
| TerminalCompleted
| TerminalResponseFailed
| TerminalError
| TerminalIncomplete (response_id : string) (reason : option IncompleteReason).

Inductive ResponseEnd :=
| CleanEof | ReadFailedEnd | ProviderTerminal | ProtocolError | HttpRejected
| SendFailed | AuthenticationFailed | AdmissionFailed | Abandoned.

Record TransportObservation := {
  version : Z;
  requested_model : option string;
  backend : option ResponsesRoute;
  effective_reasoning : option Effort;
  max_output_tokens : option Z;
  started_at_unix_ms : option Z;
  completed_at_unix_ms : option Z;
  queue_ms : option Z;
  first_event_ms : option Z;
  first_text_ms : option Z;
  first_reasoning_ms : option Z;
  total_ms : option Z;
  dispatch_attempted : option bool;
  usage : option Usage;
  returned_model : option string;
  returned_reasoning_effort : option string;
  reported_max_output_tokens : option Z;
  http_status : option Z;
  server_request_id : option string;
  content_type : option string;
  response_created_id : option string;
  body_elapsed_ms : Z;
  first_byte_ms : option Z;
  received_bytes : option Z;
  received_chunks : option Z;
  framed_events : option Z;
  event_kind_tail : list EventKind;
  sse_event_kind_tail : list EventKind;
  last_recognized_event : option EventKind;
  unknown_event_count : Z;
  unframed_line_bytes : Z;
  unframed_data_bytes : Z;
  unframed_event_name : bool;
  metadata_truncated : bool;
  terminal : option ResponseTerminal;
  end_ : ResponseEnd
}.

#[export] Instance TransportObservation_eta : Eta TransportObservation := fun o =>
  {| version := version o;
     requested_model := requested_model o;
     backend := backend o;
     effective_reasoning := effective_reasoning o;
     max_output_tokens := max_output_tokens o;
     started_at_unix_ms := started_at_unix_ms o;
     completed_at_unix_ms := completed_at_unix_ms o;
     queue_ms := queue_ms o;
     first_event_ms := first_event_ms o;
     first_text_ms := first_text_ms o;
     first_reasoning_ms := first_reasoning_ms o;
     total_ms := total_ms o;
     dispatch_attempted := dispatch_attempted o;
     usage := usage o;
     returned_model := returned_model o;
     returned_reasoning_effort := returned_reasoning_effort o;
     reported_max_output_tokens := reported_max_output_tokens o;
     http_status := http_status o;
     server_request_id := server_request_id o;
     content_type := content_type o;
     response_created_id := response_created_id o;
     body_elapsed_ms := body_elapsed_ms o;
     first_byte_ms := first_byte_ms o;
     received_bytes := received_bytes o;
     received_chunks := received_chunks o;
     framed_events := framed_events o;
     event_kind_tail := event_kind_tail o;
     sse_event_kind_tail := sse_event_kind_tail o;
     last_recognized_event := last_recognized_event o;
     unknown_event_count := unknown_event_count o;
     unframed_line_bytes := unframed_line_bytes o;
     unframed_data_bytes := unframed_data_bytes o;
     unframed_event_name := unframed_event_name o;
     metadata_truncated := metadata_truncated o;
     terminal := terminal o;
     end_ := end_ o |}.

Definition TransportObservation_new (end0 : ResponseEnd) : TransportObservation :=
  {| version := 3;
     requested_model := None;
     backend := None;
     effective_reasoning := None;
     max_output_tokens := None;
     started_at_unix_ms := None;
     completed_at_unix_ms := None;
     queue_ms := None;
     first_event_ms := None;
     first_text_ms := None;
     first_reasoning_ms := None;
     total_ms := None;
     dispatch_attempted := None;
     usage := None;
     returned_model := None;
     returned_reasoning_effort := None;
     reported_max_output_tokens := None;
     http_status := None;
     server_request_id := None;
     content_type := None;
     response_created_id := None;
     body_elapsed_ms := 0;
     first_byte_ms := None;
     received_bytes := None;
     received_chunks := None;
     framed_events := None;
     event_kind_tail := [];
     sse_event_kind_tail := [];
     last_recognized_event := None;
     unknown_event_count := 0;
     unframed_line_bytes := 0;
     unframed_data_bytes := 0;
     unframed_event_name := false;
     metadata_truncated := false;
     terminal := None;
     end_ := end0 |}.

Definition push_kind (tail : list EventKind) (k : EventKind) : list EventKind :=
  (if (length tail =? KIND_TAIL)%nat then drop 1 tail else tail) ++ [k].

(** The known kinds, in the order the match lists them. *)
Definition known_kinds : list (string * EventKind) :=
  [("response.created", Created);
   ("response.completed", Completed);
   ("response.incomplete", Incomplete);
   ("response.failed", Failed);
   ("error", Error);
   ("response.output_item.added", OutputItemAdded);
   ("response.output_item.done", OutputItemDone);
   ("response.output_text.delta", OutputTextDelta);
   ("response.reasoning_summary_text.delta", ReasoningSummaryDelta);
   ("response.reasoning_text.delta", ReasoningDelta);
   ("response.function_call_arguments.delta", FunctionArgumentsDelta);
   ("response.custom_tool_call_input.delta", ToolInputDelta);
   ("response.refusal.delta", RefusalDelta)].

Fixpoint find_kind (v : string) (l : list (string * EventKind)) : option EventKind :=
  match l with
  | [] => None
  | (name, k) :: l' => if decide (v = name) then Some k else find_kind v l'
  end.

Section provider.
(** [format!("{:x}", Sha256::digest(value.as_bytes()))] *)
Variable sha256_hex : string -> string.

Definition EventKind_from_provider (v : option string) : EventKind :=
  match v with
  | Some v => default (Unknown (sha256_hex v)) (find_kind v known_kinds)
  | None => Missing
  end.
End provider.

Definition observe_event (o : TransportObservation) (kind : EventKind) : TransportObservation :=
  let o := if recognized kind then o <| last_recognized_event := Some kind |>
           else o <| unknown_event_count ::= (fun n => saturating_add_u64 n 1) |> in
  o <| event_kind_tail ::= (fun t => push_kind t kind) |>.

Definition sse_event (o : TransportObservation) (kind : EventKind) : TransportObservation :=
  o <| sse_event_kind_tail ::= (fun t => push_kind t kind) |>.

(** One field of provider metadata: retained, with its truncation noted. *)
Definition retain_metadata (token account : string) (v : option string)
    (store : option string -> TransportObservation -> TransportObservation) (o : TransportObservation)
    : TransportObservation :=
  match v with
  | Some v =>
      let '(v, truncated) := metadata v token account in
      store (Some v) (o <| metadata_truncated ::= (fun t => t || truncated) |>)
  | None => o
  end.

Definition observe_response_metadata (o : TransportObservation) (response : value) (token account : string)
    : TransportObservation :=
  let o := o <| usage := Some (from_response_usage response) |> in
  let o := retain_metadata token account (get_str "model" response)
             (fun v o => o <| returned_model := v |>) o in
  let o := retain_metadata token account (vget "reasoning" response ≫= get_str "effort")
             (fun v o => o <| returned_reasoning_effort := v |>) o in
  o <| reported_max_output_tokens := get_u64 "max_output_tokens" response |>.

(** [response] of an HTTP response with its status and textual headers. *)
Definition TransportObservation_response (status : Z) (header : string -> option string) (token account : string)
    : TransportObservation :=
  let o := TransportObservation_new HttpRejected <| http_status := Some status |> in
  let o := retain_metadata token account (header "x-request-id") (fun v o => o <| server_request_id := v |>) o in
  retain_metadata token account (header "content-type") (fun v o => o <| content_type := v |>) o.

(** ** Runs of events *)

Definition tail_of (ks : list EventKind) : list EventKind := drop (length ks - KIND_TAIL) ks.

Lemma push_kind_tail ks k : push_kind (tail_of ks) k = tail_of (ks ++ [k]).
Proof.
  unfold push_kind, tail_of. rewrite length_drop, length_app. simpl length.
  destruct (Nat.eqb_spec (length ks - (length ks - KIND_TAIL))%nat KIND_TAIL) as [E|E].
  - rewrite drop_drop. rewrite drop_app_le by (unfold KIND_TAIL in *; lia).
    do 2 f_equal. unfold KIND_TAIL in *. lia.
  - rewrite drop_app_le by (unfold KIND_TAIL in *; lia). do 2 f_equal. unfold KIND_TAIL in *. lia.
Qed.

(** What a run of events leaves in the observation it is recorded in. *)
Definition run_summary (ks : list EventKind) (o : TransportObservation) : Prop :=
  event_kind_tail o = tail_of ks /\
  unknown_event_count o = Z.min u64_max (Z.of_nat (length (List.filter (fun k => negb (recognized k)) ks))) /\
  last_recognized_event o = last (List.filter recognized ks).

Lemma observe_event_summary ks o k : run_summary ks o -> run_summary (ks ++ [k]) (observe_event o k).
Proof.
  intros (Ht & Hu & Hl). unfold run_summary, observe_event.
  rewrite !List.filter_app, length_app. simpl.
  destruct (recognized k) eqn:E; upd_simpl; rewrite Ht, push_kind_tail.
  - rewrite last_app. simpl. split; [done|]. split; [lia|done].
  - rewrite app_nil_r, Hu. split; [done|]. split; [|done].
    unfold saturating_add_u64, u64_max. lia.
Qed.

Lemma observe_run ks o : run_summary [] o -> run_summary ks (foldl observe_event o ks).
Proof.
  intros Ho. induction ks as [|k ks IH] using rev_ind; [done|].
  rewrite foldl_app. simpl. by apply observe_event_summary.
Qed.

Lemma tail_of_bounded ks : (length (tail_of ks) <= KIND_TAIL)%nat.
Proof. unfold tail_of. rewrite length_drop. lia. Qed.

(** ** Bounded response metadata *)

Definition bounded_text (t : option string) : Prop :=
  forall s, t = Some s -> (String.length s <= METADATA_BYTES)%nat.

Definition retained_bounded (o : TransportObservation) : Prop :=
  bounded_text (returned_model o) /\ bounded_text (returned_reasoning_effort o) /\
  bounded_text (server_request_id o) /\ bounded_text (content_type o) /\
  bounded_text (response_created_id o) /\
  (length (event_kind_tail o) <= KIND_TAIL)%nat /\ (length (sse_event_kind_tail o) <= KIND_TAIL)%nat.

Lemma bytes_of_length s : length (bytes_of s) = String.length s.
Proof. induction s; simpl; [done|]. by f_equal. Qed.

Lemma metadata_length v token account :
  (String.length (metadata v token account).1 <= METADATA_BYTES)%nat.
Proof.
  rewrite <- bytes_of_length. unfold metadata. cbn [fst]. rewrite bytes_text, length_take.
  set (t := bytes_of _).
  destruct (floor_boundary_spec t (Nat.min (length t) METADATA_BYTES)) as [H _]; lia.
Qed.

Lemma metadata_bounded_text v token account :
  bounded_text (Some (metadata v token account).1).
Proof. intros s [= <-]. apply metadata_length. Qed.

Lemma push_kind_bounded t k : (length t <= KIND_TAIL)%nat -> (length (push_kind t k) <= KIND_TAIL)%nat.
Proof.
  intros H. unfold push_kind. rewrite length_app. simpl.
  destruct (Nat.eqb_spec (length t) KIND_TAIL); rewrite ?length_drop; unfold KIND_TAIL in *; lia.
Qed.

Lemma bounded_none : bounded_text None.
Proof. done. Qed.

Create HintDb observation.
#[export] Hint Resolve metadata_bounded_text push_kind_bounded bounded_none : observation.

Lemma new_retained_bounded e : retained_bounded (TransportObservation_new e).
Proof. repeat split; simpl; auto with observation; unfold KIND_TAIL; lia. Qed.

Lemma observe_event_bounded o k : retained_bounded o -> retained_bounded (observe_event o k).
Proof.
  intros (?&?&?&?&?&?&?). unfold observe_event, retained_bounded.
  destruct (recognized k); upd_simpl; auto 10 with observation.
Qed.

Lemma sse_event_bounded o k : retained_bounded o -> retained_bounded (sse_event o k).
Proof. intros (?&?&?&?&?&?&?). unfold sse_event, retained_bounded. upd_simpl. auto 10 with observation. Qed.

(** A stored field keeps the bound when storing a bounded text does. *)
Lemma retain_metadata_bounded token account v store o :
  (forall t p, bounded_text t -> retained_bounded p -> retained_bounded (store t p)) ->
  retained_bounded o -> retained_bounded (retain_metadata token account v store o).
Proof.
  intros Hs Ho. unfold retain_metadata. destruct v as [v|]; [|done].
  pose proof (metadata_bounded_text v token account) as Hm.
  destruct (metadata v token account) as [t tr]. apply Hs; [done|].
  destruct Ho as (?&?&?&?&?&?&?). unfold retained_bounded. upd_simpl. auto 10.
Qed.

Lemma observe_response_metadata_bounded o response token account :
  retained_bounded o -> retained_bounded (observe_response_metadata o response token account).
Proof.
  intros Ho. unfold observe_response_metadata. cbv zeta.
  assert (forall p, retained_bounded p ->
    retained_bounded (p <| reported_max_output_tokens := get_u64 "max_output_tokens" response |>)) as H1.
  { intros p (?&?&?&?&?&?&?). unfold retained_bounded. upd_simpl. auto 10. }
  apply H1. repeat apply retain_metadata_bounded;
    try (intros t p Ht (?&?&?&?&?&?&?); unfold retained_bounded; upd_simpl; auto 10).
  destruct Ho as (?&?&?&?&?&?&?). unfold retained_bounded. upd_simpl. auto 10.
Qed.

(** ** Claims *)

(** Recording any run of provider events in a fresh observation leaves exactly the kinds of its last eight events in order, the saturated number of unrecognised ones, and the kind of the last recognised one. *)
Theorem event_run_summary (end0 : ResponseEnd) (ks : list EventKind) :
  let o := foldl observe_event (TransportObservation_new end0) ks in
  event_kind_tail o = drop (length ks - KIND_TAIL) ks /\
  unknown_event_count o = Z.min u64_max (Z.of_nat (length (List.filter (fun k => negb (recognized k)) ks))) /\
  last_recognized_event o = last (List.filter recognized ks).
Proof. apply observe_run. by repeat split. Qed.
