(* ===== verification/Sse.v ===== *)
(** Assembly of a streamed provider response: [transport/sse.rs], with the
    transport's errors of [transport/mod.rs].

    [accept_observed] mutates the assembly and the observation also on the
    paths that fail, so that a step returns the state beside its result. The
    theorems relate a finished turn to the events that were accepted. *)

From S2P Require Import Prelude Json Redaction Usage Observation.

(** [Item(pub Value)] is the value it wraps. *)
Abbreviation Item := value.

Inductive UnsupportedSemantics :=
| USReasoningEffort | USToolDeclaration | USInputItem | USMessage | USReasoningContent | USCacheComparison.

Inductive CredentialFailure := CredentialMissing | Unreadable | Unsafe | Invalid | WorkerFailed.

Inductive ProviderStreamFailureEvent := ResponseFailed | ErrorEvent.

Inductive StreamInterruption := MissingCompletion | ReadFailed.

Inductive TransportError :=
| ResponseIncomplete (response_id : string) (reason : option IncompleteReason)
| InvalidAdmission
| Unsupported (semantics : UnsupportedSemantics)
| PreparedSelectionMismatch
| ReplayContractMismatch
| UnprovenResponseContract
| MissingOutputIndex
| ConflictingOutputIndex (index : Z)
| IncompleteOutputIndices (index : Z)
| Authentication
| CredentialUnavailable (route : ResponsesRoute) (reason : CredentialFailure)
| ProviderAuthentication (route : ResponsesRoute)
| Http (status : Z) (diagnostic : option HttpDiagnostic)
| ProviderStreamFailure (event : ProviderStreamFailureEvent) (diagnostic : option HttpDiagnostic)
| Stream (text : string)
| IncompleteResponse (why : StreamInterruption)
| ReplayRequestReuse (request : string).

Record CompletedOutputItem := {
  item : Item;
  output_index : Z;
  sequence_number : option Z
}.

Record ResponsesTurn := {
  response_id : string;
  turn_items : list Item;
  turn_usage : Usage
}.

Record ResponseAssembly := {
  items : gmap Z Item;
  tool_names : gmap string string;
  completed : option (string * Usage);
  assembly_response_id : option string
}.

#[export] Instance ResponseAssembly_eta : Eta ResponseAssembly := fun a =>
  {| items := items a; tool_names := tool_names a; completed := completed a;
     assembly_response_id := assembly_response_id a |}.

Definition ResponseAssembly_default : ResponseAssembly :=
  {| items := ∅; tool_names := ∅; completed := None; assembly_response_id := None |}.

Inductive OutputChannel := Assistant | ReasoningSummary | Reasoning | ToolArguments | ToolInput | Refusal.

#[export] Instance OutputChannel_eq_dec : EqDecision OutputChannel.
Proof. solve_decision. Defined.

Inductive StreamEvent :=
| CompletedItem (done : CompletedOutputItem)
| Delta (item_id : string) (channel : OutputChannel) (index : Z) (text : string) (tool_name : option string).

(** What one accepted line of data leaves. *)
Abbreviation accepted :=
  (ResponseAssembly * option TransportObservation * result TransportError (option StreamEvent))%type.

(** ** The branches of [accept_observed] *)

(** [self.response_id.as_deref().is_some_and(|prior| prior != id)] *)
Definition identity_changed (a : ResponseAssembly) (id : string) : bool :=
  match assembly_response_id a with
  | Some prior => negb (bool_decide (prior = id))
  | None => false
  end.

Definition accept_created (a : ResponseAssembly) (event : value) (token account : string)
    (obs : option TransportObservation) : accepted :=
  match vget "response" event ≫= get_str "id" with
  | None => (a, obs, Err (Stream "created response missing id"))
  | Some id =>
      if identity_changed a id then (a, obs, Err (Stream "response identity changed"))
      else
        let obs := (fun o =>
          let '(id, truncated) := metadata id token account in
          o <| response_created_id := Some id |>
            <| metadata_truncated ::= (fun t => t || truncated) |>) <$> obs in
        (a <| assembly_response_id := Some id |>, obs, Ok None)
  end.

Definition accept_added (a : ResponseAssembly) (event : value) (obs : option TransportObservation) : accepted :=
  let item := vidx event "item" in
  let call := match as_str (vidx item "type") with
              | Some kind => bool_decide (kind = "function_call") || bool_decide (kind = "custom_tool_call")
              | None => false
              end in
  if call then
    match as_str (vidx item "name") with
    | Some name =>
        let ids := option_list (as_str (vidx item "id")) ++ option_list (as_str (vidx item "call_id")) in
        (a <| tool_names ::= (fun names => foldl (fun names id => <[id := name]> names) names ids) |>, obs, Ok None)
    | None => (a, obs, Ok None)
    end
  else (a, obs, Ok None).

Definition accept_done (a : ResponseAssembly) (event : value) (obs : option TransportObservation) : accepted :=
  match vget "item" event with
  | None => (a, obs, Err (Stream "missing done item"))
  | Some item =>
      match get_u64 "output_index" event with
      | None => (a, obs, Err MissingOutputIndex)
      | Some output_index =>
          let done := {| item := item; output_index := output_index;
                         sequence_number := get_u64 "sequence_number" event |} in
          match items a !! output_index with
          | Some previous =>
              if decide (previous = item) then (a, obs, Ok (Some (CompletedItem done)))
              else (a, obs, Err (ConflictingOutputIndex output_index))
          | None => (a <| items ::= <[output_index := item]> |>, obs, Ok (Some (CompletedItem done)))
          end
      end
  end.

(** The channel of a delta kind; [None] for every other kind. *)
Definition delta_channel (kind : string) : option OutputChannel :=
  if decide (kind = "response.output_text.delta") then Some Assistant
  else if decide (kind = "response.reasoning_summary_text.delta") then Some ReasoningSummary
  else if decide (kind = "response.reasoning_text.delta") then Some Reasoning
  else if decide (kind = "response.function_call_arguments.delta") then Some ToolArguments
  else if decide (kind = "response.custom_tool_call_input.delta") then Some ToolInput
  else if decide (kind = "response.refusal.delta") then Some Refusal
  else None.

Definition accept_delta (a : ResponseAssembly) (event : value) (channel : OutputChannel)
    (obs : option TransportObservation) : accepted :=
  let item_id :=
    match get_str "item_id" event with
    | Some id => Some id
    | None => if decide (channel = ToolInput) then get_str "call_id" event else None
    end in
  match item_id with
  | None => (a, obs, Err (Stream "delta missing item_id"))
  | Some item_id =>
      let event' := (fun text =>
        Delta item_id channel
          (default 0 (match vget "content_index" event with
                      | Some v => Some v
                      | None => vget "summary_index" event
                      end ≫= as_u64))
          text
          (if decide (channel = ToolArguments \/ channel = ToolInput) then tool_names a !! item_id else None))
        <$> get_str "delta" event in
      (a, obs, Ok event')
  end.

(** The loop over a nonempty terminal output array. *)
Fixpoint place_output (index : nat) (output : list Item) (m : gmap Z Item)
    : gmap Z Item * result TransportError unit :=
  match output with
  | [] => (m, Ok tt)
  | item :: output' =>
      match m !! Z.of_nat index with
      | Some prior =>
          if decide (prior = item) then place_output (S index) output' (<[Z.of_nat index := item]> m)
          else (m, Err (ConflictingOutputIndex (Z.of_nat index)))
      | None => place_output (S index) output' (<[Z.of_nat index := item]> m)
      end
  end.

Definition terminal_output (response : value) : option (list Item) :=
  match vget "output" response ≫= as_array with
  | Some (x :: l) => Some (x :: l)
  | _ => None
  end.

Definition accept_completed (a : ResponseAssembly) (event : value) (obs : option TransportObservation) : accepted :=
  match vget "response" event with
  | None => (a, obs, Err (Stream "missing response"))
  | Some response =>
      match get_str "id" response with
      | None => (a, obs, Err (Stream "missing response id"))
      | Some id =>
          if identity_changed a id then (a, obs, Err (Stream "response identity changed"))
          else
            let '(m, placed) :=
              match terminal_output response with
              | Some output =>
                  match place_output 0 output (items a) with
                  | (m, Ok _) =>
                      if (size m =? length output)%nat then (m, Ok tt)
                      else (m, Err (IncompleteOutputIndices (Z.of_nat (length output))))
                  | (m, Err e) => (m, Err e)
                  end
              | None => (items a, Ok tt)
              end in
            let a := a <| items := m |> in
            match placed with
            | Err e => (a, obs, Err e)
            | Ok _ =>
                (a <| completed := Some (id, from_response_usage response) |>,
                 (fun o => o <| terminal := Some TerminalCompleted |>) <$> obs, Ok None)
            end
      end
  end.

Definition accept_incomplete (a : ResponseAssembly) (event : value) (token account : string)
    (obs : option TransportObservation) : accepted :=
  match vget "response" event with
  | None => (a, obs, Err (Stream "missing response"))
  | Some response =>
      match get_str "id" response with
      | None => (a, obs, Err (Stream "missing response id"))
      | Some id =>
          if identity_changed a id then (a, obs, Err (Stream "response identity changed"))
          else
            let reason := IncompleteReason_from_provider <$> (vget "incomplete_details" response ≫= get_str "reason") in
            let '(response_id, truncated) := metadata id token account in
            let obs := (fun o =>
              o <| metadata_truncated ::= (fun t => t || truncated) |>
                <| terminal := Some (TerminalIncomplete response_id reason) |>) <$> obs in
            (a, obs, Err (ResponseIncomplete response_id reason))
      end
  end.

Definition nested_error (failure : ProviderStreamFailureEvent) (event : value) : option value :=
  match failure with
  | ResponseFailed => vget "response" event ≫= vget "error"
  | ErrorEvent => match vget "error" event with
                  | Some e => if is_object e then Some e else None
                  | None => None
                  end
  end.

Definition failure_field (failure : ProviderStreamFailureEvent) (event : value) (name : string) : option string :=
  match nested_error failure event ≫= get_str name with
  | Some s => Some s
  | None => match failure with
            | ResponseFailed => None
            | ErrorEvent => get_str name event
            end
  end.

Definition accept_failure (a : ResponseAssembly) (event : value) (failure : ProviderStreamFailureEvent)
    (token account : string) (obs : option TransportObservation) : accepted :=
  let obs := (fun o => o <| terminal := Some (match failure with
                                               | ResponseFailed => TerminalResponseFailed
                                               | ErrorEvent => TerminalError
                                               end) |>) <$> obs in
  let error_type := match nested_error failure event ≫= get_str "type" with
                    | Some s => Some s
                    | None => failure_field failure event "error_type"
                    end in
  (a, obs, Err (ProviderStreamFailure failure
    (diagnostic (failure_field failure event "code") error_type (failure_field failure event "param")
       (failure_field failure event "message") token account))).

Section provider.
Variable sha256_hex : string -> string.
(** [serde_json::from_str::<Value>] *)
Variable from_str : string -> option value.

(** What is observed of every event before it is interpreted. *)
Definition observe_envelope (event : value) (token account : string) (obs : option TransportObservation)
    : option TransportObservation :=
  let ty := get_str "type" event in
  let obs := (fun o => observe_event o (EventKind_from_provider sha256_hex ty)) <$> obs in
  let reports := match ty with
                 | Some t => bool_decide (t = "response.completed") || bool_decide (t = "response.incomplete")
                             || bool_decide (t = "response.failed")
                 | None => false
                 end in
  match obs, (if reports then vget "response" event else None) with
  | Some o, Some response => Some (observe_response_metadata o response token account)
  | _, _ => obs
  end.

Definition accept_event (a : ResponseAssembly) (event : value) (token account : string)
    (obs : option TransportObservation) : accepted :=
  let obs := observe_envelope event token account obs in
  match get_str "type" event with
  | None => (a, obs, Ok None)
  | Some t =>
      if decide (t = "response.created") then accept_created a event token account obs
      else if decide (t = "response.output_item.added") then accept_added a event obs
      else if decide (t = "response.output_item.done") then accept_done a event obs
      else match delta_channel t with
      | Some channel => accept_delta a event channel obs
      | None =>
          if decide (t = "response.completed") then accept_completed a event obs
          else if decide (t = "response.incomplete") then accept_incomplete a event token account obs
          else if decide (t = "response.failed") then accept_failure a event ResponseFailed token account obs
          else if decide (t = "error") then accept_failure a event ErrorEvent token account obs
          else (a, obs, Ok None)
      end
  end.

Definition accept_observed (a : ResponseAssembly) (data token account : string)
    (obs : option TransportObservation) : accepted :=
  match from_str data with
  | None => (a, obs, Err (Stream "invalid SSE JSON"))
  | Some event => accept_event a event token account obs
  end.

Definition accept (a : ResponseAssembly) (data : string)
    : ResponseAssembly * result TransportError (option StreamEvent) :=
  let '(a, _, r) := accept_observed a data "" "" None in (a, r).
End provider.

(** ** [finish] *)

Definition index_le (x y : Z * Item) : Prop := x.1 <= y.1.
#[export] Instance index_le_dec : RelDecision index_le.
Proof. intros x y. unfold index_le. apply _. Defined.
#[export] Instance index_le_total : Total index_le.
Proof. intros x y. unfold index_le. lia. Qed.
#[export] Instance index_le_trans : Transitive index_le.
Proof. intros x y z. unfold index_le. lia. Qed.

(** A [BTreeMap] is iterated in the order of its keys. *)
Definition in_order (m : gmap Z Item) : list (Z * Item) := merge_sort index_le (map_to_list m).

Fixpoint contiguous (expected : nat) (l : list (Z * Item)) : result TransportError (list Item) :=
  match l with
  | [] => Ok []
  | (index, item) :: l' =>
      refuse negb (index =? Z.of_nat expected) with IncompleteOutputIndices (Z.of_nat expected);
      do items <- contiguous (S expected) l';
      Ok (item :: items)
  end.

Definition finish (a : ResponseAssembly) : result TransportError ResponsesTurn :=
  match completed a with
  | None => Err (IncompleteResponse MissingCompletion)
  | Some (response_id, usage) =>
      do items <- contiguous 0 (in_order (items a));
      Ok {| response_id := response_id; turn_items := items; turn_usage := usage |}
  end.

Definition is_complete (a : ResponseAssembly) : bool := bool_decide (is_Some (completed a)).

(** ** Items in index order *)

Definition positions (n : nat) (xs : list Item) : list (Z * Item) :=
  imap (fun i x => (Z.of_nat (n + i), x)) xs.

Lemma positions_cons n x xs : positions n (x :: xs) = (Z.of_nat n, x) :: positions (S n) xs.
Proof.
  unfold positions. simpl. f_equal; [by rewrite Nat.add_0_r|]. apply imap_ext. intros i y _. simpl.
  by rewrite Nat.add_succ_r.
Qed.

Lemma contiguous_Ok n l xs : contiguous n l = Ok xs <-> l = positions n xs.
Proof.
  revert n xs. induction l as [|[z x] l IH]; intros n xs; simpl.
  - split; [by intros [= <-] | by destruct xs].
  - destruct (Z.eqb_spec z (Z.of_nat n)) as [->|Hz]; simpl.
    + rewrite rbind_Ok. split.
      * intros (ys & Hys & [= <-]). apply IH in Hys as ->. by rewrite positions_cons.
      * destruct xs as [|y ys]; [done|]. rewrite positions_cons. intros [= -> ->].
        exists ys. by rewrite IH.
    + split; [done|]. destruct xs; [done|]. rewrite positions_cons. by intros [= -> _ _].
Qed.

Lemma elem_of_positions n xs z x :
  (z, x) ∈ positions n xs <-> exists i, z = Z.of_nat (n + i) /\ xs !! i = Some x.
Proof. unfold positions. rewrite elem_of_lookup_imap. naive_solver. Qed.

Lemma in_order_elem m z x : (z, x) ∈ in_order m <-> m !! z = Some x.
Proof. unfold in_order. by rewrite merge_sort_Permutation, elem_of_map_to_list. Qed.

Lemma positions_sorted n xs : StronglySorted index_le (positions n xs).
Proof.
  revert n. induction xs as [|x xs IH]; intros n; [constructor|]. rewrite positions_cons.
  constructor; [apply IH|]. apply Forall_forall. intros [z y] (i & -> & _)%elem_of_positions.
  unfold index_le. simpl. lia.
Qed.

Lemma positions_NoDup n xs : NoDup (positions n xs).
Proof.
  revert n. induction xs as [|x xs IH]; intros n; [constructor|]. rewrite positions_cons.
  constructor; [|apply IH]. rewrite elem_of_positions. intros (i & H & _). lia.
Qed.

(** The items are a sequence when their indices are exactly its positions. *)
Definition sequence_of (m : gmap Z Item) (xs : list Item) : Prop :=
  forall z x, m !! z = Some x <-> exists i, z = Z.of_nat i /\ xs !! i = Some x.

Lemma contiguous_in_order m xs : contiguous 0 (in_order m) = Ok xs <-> sequence_of m xs.
Proof.
  rewrite contiguous_Ok. split.
  - intros H z x. by rewrite <- in_order_elem, H, elem_of_positions.
  - intros H. eapply (StronglySorted_unique_strong index_le).
    + intros [z1 x1] [z2 x2] H1 H2 L1 L2. unfold index_le in *. simpl in *.
      assert (z1 = z2) as -> by lia. apply in_order_elem in H1. apply elem_of_positions in H2.
      apply H in H2. congruence.
    + apply StronglySorted_merge_sort; apply _.
    + apply positions_sorted.
    + apply NoDup_Permutation; [unfold in_order; rewrite merge_sort_Permutation; apply NoDup_map_to_list
                               | apply positions_NoDup |].
      intros [z x]. by rewrite in_order_elem, elem_of_positions.
Qed.

Lemma sequence_of_size m xs : sequence_of m xs -> size m = length xs.
Proof.
  intros H. apply contiguous_in_order, contiguous_Ok in H.
  assert (length (in_order m) = length (positions 0 xs)) as Hl by (by rewrite H).
  unfold in_order in Hl. rewrite merge_sort_Permutation in Hl. unfold positions in Hl.
  rewrite length_imap in Hl. rewrite <- Hl. symmetry. apply length_map_to_list.
Qed.

Lemma finish_Ok a t :
  finish a = Ok t <->
  completed a = Some (response_id t, turn_usage t) /\ sequence_of (items a) (turn_items t).
Proof.
  unfold finish. destruct (completed a) as [[id u]|]; [|naive_solver].
  rewrite rbind_Ok. split.
  - intros (xs & H%contiguous_in_order & [= <-]). done.
  - intros [[= -> ->] H]. exists (turn_items t). split; [by apply contiguous_in_order|]. by destruct t.
Qed.

(** ** What a step does to the items *)

(** The event names an item at an output position: a finalized item, or the
    terminal response's output array. *)
Definition supplies (event : value) (z : Z) (x : Item) : Prop :=
  (get_str "type" event = Some "response.output_item.done" /\
   vget "item" event = Some x /\ get_u64 "output_index" event = Some z) \/
  (get_str "type" event = Some "response.completed" /\
   exists response output i, vget "response" event = Some response /\
     terminal_output response = Some output /\ z = Z.of_nat i /\ output !! i = Some x).

Lemma place_output_grows n output m z x :
  m !! z = Some x -> (place_output n output m).1 !! z = Some x.
Proof.
  revert n m. induction output as [|y output IH]; intros n m H; simpl; [done|].
  destruct (m !! Z.of_nat n) as [prior|] eqn:E.
  - case_decide as Hd; [|done]. apply IH. destruct (decide (z = Z.of_nat n)) as [->|Hz].
    + rewrite lookup_insert_eq. congruence.
    + by rewrite lookup_insert_ne.
  - apply IH. rewrite lookup_insert_ne; [done|]. congruence.
Qed.

Lemma place_output_origin n output m z x :
  (place_output n output m).1 !! z = Some x ->
  m !! z = Some x \/ exists i, z = Z.of_nat (n + i) /\ output !! i = Some x.
Proof.
  revert n m. induction output as [|y output IH]; intros n m H; simpl in H; [by left|].
  assert (forall m', (place_output (S n) output (<[Z.of_nat n := y]> m')).1 !! z = Some x ->
    m' !! z = Some x \/ exists i, z = Z.of_nat (n + i) /\ (y :: output) !! i = Some x) as Hstep.
  { intros m' [H'|(i & -> & Hi)]%IH.
    - apply lookup_insert_Some in H' as [[<- <-]|[_ H']]; [|by left].
      right. exists 0%nat. by rewrite Nat.add_0_r.
    - right. exists (S i). split; [by rewrite Nat.add_succ_r|done]. }
  destruct (m !! Z.of_nat n) as [prior|]; [case_decide|]; auto.
Qed.

Lemma place_output_placed n output m i x :
  (place_output n output m).2 = Ok tt -> output !! i = Some x ->
  (place_output n output m).1 !! Z.of_nat (n + i) = Some x.
Proof.
  revert n m i. induction output as [|y output IH]; intros n m i H Hi; simpl in *; [done|].
  assert ((place_output (S n) output (<[Z.of_nat n := y]> m)).2 = Ok tt ->
    (place_output (S n) output (<[Z.of_nat n := y]> m)).1 !! Z.of_nat (n + i) = Some x) as Hstep.
  { intros H'. destruct i as [|i]; simplify_eq/=.
    - rewrite Nat.add_0_r. apply place_output_grows. apply lookup_insert_eq.
    - rewrite Nat.add_succ_r. by apply (IH (S n)). }
  destruct (m !! Z.of_nat n) as [prior|]; [case_decide|]; auto. done.
Qed.

(** The assembly a step leaves: retained items stay, new ones are supplied. *)
Definition step_items (a : ResponseAssembly) (event : value) (a' : ResponseAssembly) : Prop :=
  (forall z x, items a !! z = Some x -> items a' !! z = Some x) /\
  (forall z x, items a' !! z = Some x -> items a !! z = Some x \/ supplies event z x).

Lemma step_items_same a event a' : items a' = items a -> step_items a event a'.
Proof. intros E. split; rewrite E; auto. Qed.

Lemma accept_done_items a event obs :
  get_str "type" event = Some "response.output_item.done" ->
  step_items a event (accept_done a event obs).1.1.
Proof.
  intros Ht. unfold accept_done.
  destruct (vget "item" event) as [x|] eqn:Hx; [|by apply step_items_same].
  destruct (get_u64 "output_index" event) as [z|] eqn:Hz; [|by apply step_items_same].
  destruct (items a !! z) as [p|] eqn:Hp; [case_decide; by apply step_items_same|].
  cbn [fst snd]. split; upd_simpl; intros z' x'.
  - intros H. rewrite lookup_insert_ne; [done|]. intros ->. congruence.
  - intros [[-> ->]|[_ H]]%lookup_insert_Some; [right; by left | by left].
Qed.

Lemma accept_completed_items a event obs :
  get_str "type" event = Some "response.completed" ->
  step_items a event (accept_completed a event obs).1.1.
Proof.
  intros Ht. unfold accept_completed.
  destruct (vget "response" event) as [response|] eqn:Hr; [|by apply step_items_same].
  destruct (get_str "id" response) as [id|]; [|by apply step_items_same].
  destruct (identity_changed a id); [by apply step_items_same|].
  destruct (terminal_output response) as [output|] eqn:Ho; [|by apply step_items_same].
  pose proof (place_output_grows 0 output (items a)) as Hg.
  pose proof (place_output_origin 0 output (items a)) as Horg.
  destruct (place_output 0 output (items a)) as [m r]. cbn [fst] in *.
  assert (step_items a event (a <| items := m |>)) as Hs.
  { split; upd_simpl; [auto|]. intros z x [H|(i & -> & Hi)]%Horg; [by left|]. right. right.
    split; [done|]. by exists response, output, i. }
  destruct r; [destruct (_ =? _)%nat|]; apply Hs.
Qed.

Section steps.
Variable sha256_hex : string -> string.

(** A property of the outcome holds of [accept_event] when it holds of every
    branch, under the observation the preamble leaves. *)
Lemma accept_event_cases (P : accepted -> Prop) a event token account obs :
  (forall o, P (a, o, Ok None)) ->
  (forall o, get_str "type" event = Some "response.created" -> P (accept_created a event token account o)) ->
  (forall o, P (accept_added a event o)) ->
  (forall o, get_str "type" event = Some "response.output_item.done" -> P (accept_done a event o)) ->
  (forall o c, P (accept_delta a event c o)) ->
  (forall o, get_str "type" event = Some "response.completed" -> P (accept_completed a event o)) ->
  (forall o, P (accept_incomplete a event token account o)) ->
  (forall o f, P (accept_failure a event f token account o)) ->
  P (accept_event sha256_hex a event token account obs).
Proof.
  intros Hnone Hcreated Hadded Hdone Hdelta Hcompleted Hincomplete Hfailure.
  unfold accept_event. cbv zeta.
  generalize (observe_envelope sha256_hex event token account obs). intros o.
  destruct (get_str "type" event) as [t|] eqn:Ht; [|apply Hnone].
  case_decide; [subst; auto|]. case_decide; [auto|]. case_decide; [subst; auto|].
  destruct (delta_channel t); [auto|].
  case_decide; [subst; auto|]. repeat (case_decide; [auto|]). auto.
Qed.

Lemma accept_event_items a event token account obs :
  step_items a event (accept_event sha256_hex a event token account obs).1.1.
Proof.
  apply (accept_event_cases (fun r => step_items a event r.1.1)); intros;
    first [ by apply accept_done_items | by apply accept_completed_items | apply step_items_same ].
  - done.
  - unfold accept_created. repeat case_match; done.
  - unfold accept_added. repeat case_match; done.
  - unfold accept_delta. repeat case_match; done.
  - unfold accept_incomplete. repeat case_match; done.
  - done.
Qed.

(** An announced item is retained at its position. *)
Lemma accept_event_emits a event token account obs d :
  (accept_event sha256_hex a event token account obs).2 = Ok (Some (CompletedItem d)) ->
  items (accept_event sha256_hex a event token account obs).1.1 !! output_index d = Some (item d).
Proof.
  apply (accept_event_cases (fun r => r.2 = Ok (Some (CompletedItem d)) -> items r.1.1 !! output_index d = Some (item d)));
    intros.
  - done.
  - revert H0. unfold accept_created. repeat case_match; done.
  - revert H. unfold accept_added. repeat case_match; done.
  - revert H0. unfold accept_done. repeat case_match; intros; simplify_eq/=; [done|].
    upd_simpl. apply lookup_insert_eq.
  - revert H. unfold accept_delta. repeat case_match; cbn [snd]; destruct (get_str "delta" event); done.
  - revert H0. unfold accept_completed. repeat case_match; done.
  - revert H. unfold accept_incomplete. repeat case_match; done.
  - done.
Qed.

(** The completion record a step leaves is the old one or this event's. *)
Lemma accept_event_completed a event token account obs id u :
  completed (accept_event sha256_hex a event token account obs).1.1 = Some (id, u) ->
  completed a = Some (id, u) \/
  get_str "type" event = Some "response.completed" /\
  exists response, vget "response" event = Some response /\ get_str "id" response = Some id /\
    u = from_response_usage response.
Proof.
  apply (accept_event_cases (fun r => completed r.1.1 = Some (id, u) -> _)); intros.
  - by left.
  - revert H0. unfold accept_created. repeat case_match; by left.
  - revert H. unfold accept_added. repeat case_match; by left.
  - revert H0. unfold accept_done. repeat case_match; by left.
  - revert H. unfold accept_delta. repeat case_match; by left.
  - revert H0. unfold accept_completed. repeat case_match; intros; upd_simpl; simplify_eq; eauto 6.
  - revert H. unfold accept_incomplete. repeat case_match; by left.
  - by left.
Qed.

(** Interpreting events until one is refused. *)
Fixpoint accept_all (a : ResponseAssembly) (events : list value) : result TransportError (ResponseAssembly * list StreamEvent) :=
  match events with
  | [] => Ok (a, [])
  | event :: events' =>
      let '(a, _, r) := accept_event sha256_hex a event "" "" None in
      do emitted <- r;
      do '(a, out) <- accept_all a events';
      Ok (a, option_list emitted ++ out)
  end.

Lemma accept_all_items a events a' out :
  accept_all a events = Ok (a', out) ->
  (forall z x, items a !! z = Some x -> items a' !! z = Some x) /\
  (forall z x, items a' !! z = Some x -> items a !! z = Some x \/ exists e, e ∈ events /\ supplies e z x) /\
  (forall d, CompletedItem d ∈ out -> items a' !! output_index d = Some (item d)) /\
  (forall id u, completed a' = Some (id, u) -> completed a = Some (id, u) \/
    exists e response, e ∈ events /\ get_str "type" e = Some "response.completed" /\
      vget "response" e = Some response /\ get_str "id" response = Some id /\ u = from_response_usage response).
Proof.
  revert a out. induction events as [|e events IH]; intros a out H; simpl in H.
  - apply Ok_inj in H as [= -> <-]. repeat split; auto. intros d Hd. by apply not_elem_of_nil in Hd.
  - pose proof (accept_event_items a e "" "" None) as [Hg Ho].
    pose proof (accept_event_emits a e "" "" None) as He.
    pose proof (accept_event_completed a e "" "" None) as Hc.
    destruct (accept_event sha256_hex a e "" "" None) as [[a1 o1] r]. cbn [fst snd] in *.
    inv_ok. destruct x0 as [a2 out2]. injection H as -> <-.
    destruct (IH _ _ Hr0) as (IH1 & IH2 & IH3 & IH4). split; [auto|]. split; [|split].
    + intros z x' [H|(e' & He' & Hs)]%IH2.
      * apply Ho in H as [H|H]; [by left|right]. exists e. split; [by left|done].
      * right. exists e'. split; [by right|done].
    + intros d [Hd|Hd]%elem_of_app; [|by apply IH3]. apply IH1, He. rewrite Hr.
      destruct x as [x|]; [|by apply not_elem_of_nil in Hd]. by apply list_elem_of_singleton in Hd as ->.
    + intros id u [H|(e' & response & He' & H)]%IH4.
      * apply Hc in H as [H|(Ht & response & H)]; [by left|right]. exists e, response. split; [by left|done].
      * right. exists e', response. split; [by right|done].
Qed.
End steps.

(** ** Claims *)


Definition item_event (i : Z) (x : Item) : value :=
  json_object [("type", VString "response.output_item.done"); ("output_index", VNumber (PosInt i)); ("item", x)].

Definition completed_event (id : string) (output : list Item) : value :=
  json_object [("type", VString "response.completed");
               ("response", json_object [("id", VString id); ("output", VArray output)])].


Lemma place_output_sequence output m m' :
  place_output 0 output m = (m', Ok tt) -> size m' = length output -> sequence_of m' output.
Proof.
  intros Hp Hsize. pose proof (place_output_placed 0 output m) as Hpl. rewrite Hp in Hpl. cbn [fst snd] in Hpl.
  (* the positions already fill a map of that size *)
  set (k := list_to_map (positions 0 output) : gmap Z Item).
  assert (NoDup (positions 0 output).*1) as Hnd.
  { apply (NoDup_fmap_fst (positions 0 output)); [|apply positions_NoDup].
    intros z x y (i & -> & Hi)%elem_of_positions (j & Hj & Hj')%elem_of_positions.
    assert (i = j) as -> by lia. congruence. }
  assert (forall z x, k !! z = Some x <-> (z, x) ∈ positions 0 output) as Hk.
  { intros z x. unfold k. symmetry. by apply elem_of_list_to_map. }
  assert (k ⊆ m') as Hsub.
  { apply map_subseteq_spec. intros z x (i & -> & Hi)%Hk%elem_of_positions. by apply Hpl. }
  assert (k = m') as <-.
  { apply (map_subseteq_size_eq k m'); [done|]. rewrite Hsize. unfold k. rewrite <- length_map_to_list.
    rewrite map_to_list_to_map by done. unfold positions. by rewrite length_imap. }
  intros z x. by rewrite Hk, elem_of_positions.
Qed.

(** A nonempty terminal output array is authoritative: once a completion event carrying it is accepted, the assembly finishes, and the finished turn is that array in its order under the completion's id and usage, whatever was or was not streamed before it. *)
Theorem terminal_output_authoritative sha256_hex a event response output token account obs a' obs' r :
  accept_event sha256_hex a event token account obs = (a', obs', Ok r) ->
  get_str "type" event = Some "response.completed" ->
  vget "response" event = Some response ->
  terminal_output response = Some output ->
  exists id, get_str "id" response = Some id /\ ~ identity_changed a id /\
    finish a' = Ok {| response_id := id; turn_items := output; turn_usage := from_response_usage response |}.
Proof.
  intros H Ht Hr Ho. unfold accept_event in H. rewrite Ht in H. cbv zeta in H.
  rewrite !decide_False in H by done. replace (delta_channel _) with (@None OutputChannel) in H by done.
  rewrite decide_True in H by done. unfold accept_completed in H. rewrite Hr, Ho in H.
  destruct (get_str "id" response) as [id|]; [|done]. exists id. split; [done|].
  destruct (identity_changed a id); [done|]. split; [auto|].
  destruct (place_output 0 output (items a)) as [m [[]|e]] eqn:Hp; [|done].
  destruct (Nat.eqb_spec (size m) (length output)) as [Hs|]; [|done].
  injection H as <- _ _. apply finish_Ok. upd_simpl. split; [done|].
  by eapply place_output_sequence.
Qed.

Lemma terminal_output_authoritative_witness :
  exists a', finish a' = Ok {| response_id := "r"; turn_items := [VString "a"; VString "b"];
                              turn_usage := Usage_default |}.
Proof.
  edestruct (terminal_output_authoritative (fun s => s)
    (ResponseAssembly_default <| items := {[1 := VString "b"]} |>)
    (completed_event "r" [VString "a"; VString "b"])
    (json_object [("id", VString "r"); ("output", VArray [VString "a"; VString "b"])])
    [VString "a"; VString "b"] "" "" None) as (id & Hid & _ & Hf);
    [vm_compute; reflexivity | vm_compute; reflexivity.. |].
  vm_compute in Hid. injection Hid as <-. eexists. exact Hf.
Defined.

(** ** The observation is only observed *)

Lemma accept_created_obs a event token account obs :
  (accept_created a event token account obs).1.1 = (accept_created a event token account None).1.1 /\
  (accept_created a event token account obs).2 = (accept_created a event token account None).2.
Proof. unfold accept_created. repeat case_match; done. Qed.

Lemma accept_added_obs a event obs :
  accept_added a event obs = ((accept_added a event None).1.1, obs, (accept_added a event None).2).
Proof. unfold accept_added. repeat case_match; done. Qed.

Lemma accept_done_obs a event obs :
  accept_done a event obs = ((accept_done a event None).1.1, obs, (accept_done a event None).2).
Proof. unfold accept_done. repeat case_match; done. Qed.

Lemma accept_delta_obs a event c obs :
  accept_delta a event c obs = ((accept_delta a event c None).1.1, obs, (accept_delta a event c None).2).
Proof. unfold accept_delta. repeat case_match; done. Qed.

Lemma accept_completed_obs a event obs :
  (accept_completed a event obs).1.1 = (accept_completed a event None).1.1 /\
  (accept_completed a event obs).2 = (accept_completed a event None).2.
Proof. unfold accept_completed. repeat case_match; done. Qed.

Lemma accept_incomplete_obs a event token account obs :
  (accept_incomplete a event token account obs).1.1 = (accept_incomplete a event token account None).1.1 /\
  (accept_incomplete a event token account obs).2 = (accept_incomplete a event token account None).2.
Proof. unfold accept_incomplete. repeat case_match; done. Qed.

Lemma observe_envelope_None sha event token account : observe_envelope sha event token account None = None.
Proof. unfold observe_envelope. by repeat case_match. Qed.

Lemma accept_event_obs sha a event token account obs :
  (accept_event sha a event token account obs).1.1 = (accept_event sha a event token account None).1.1 /\
  (accept_event sha a event token account obs).2 = (accept_event sha a event token account None).2.
Proof.
  unfold accept_event. rewrite observe_envelope_None.
  generalize (observe_envelope sha event token account obs). clear obs. intros obs. cbv zeta.
  destruct (get_str "type" event) as [t|]; [|done].
  case_decide; [apply accept_created_obs|]. case_decide; [by rewrite accept_added_obs|].
  case_decide; [by rewrite accept_done_obs|].
  destruct (delta_channel t); [by rewrite accept_delta_obs|].
  case_decide; [apply accept_completed_obs|]. case_decide; [apply accept_incomplete_obs|].
  by repeat case_decide.
Qed.

Definition obs_bounded (obs : option TransportObservation) : Prop :=
  forall o, obs = Some o -> retained_bounded o.

(** An update of fields that hold no retained text keeps the bound. *)
Lemma obs_bounded_fmap f obs :
  (forall o, retained_bounded o -> retained_bounded (f o)) -> obs_bounded obs -> obs_bounded (f <$> obs).
Proof. intros Hf Ho o. destruct obs as [o'|]; [|done]. intros [= <-]. by apply Hf, Ho. Qed.

Lemma observe_envelope_bounded sha event token account obs :
  obs_bounded obs -> obs_bounded (observe_envelope sha event token account obs).
Proof.
  intros Ho. unfold observe_envelope. cbv zeta.
  assert (obs_bounded ((fun o => observe_event o (EventKind_from_provider sha (get_str "type" event))) <$> obs)) as H.
  { apply obs_bounded_fmap; [|done]. intros o. apply observe_event_bounded. }
  destruct (_ <$> obs) as [o|]; [|done].
  destruct (if (_ : bool) then _ else _) as [response|]; [|done].
  intros o' [= <-]. by apply observe_response_metadata_bounded, H.
Qed.

Ltac keep_bounds :=
  let o := fresh "o" in intros o (?&?&?&?&?&?&?); unfold retained_bounded; upd_simpl; auto 10 with observation.

Lemma accept_event_bounded sha a event token account obs :
  obs_bounded obs -> obs_bounded (accept_event sha a event token account obs).1.2.
Proof.
  intros Ho%(observe_envelope_bounded sha event token account). unfold accept_event.
  revert Ho. generalize (observe_envelope sha event token account obs). clear obs. intros obs Ho. cbv zeta.
  destruct (get_str "type" event) as [t|]; [|done].
  case_decide.
  { unfold accept_created. destruct (_ ≫= _) as [id|]; [|done]. destruct (identity_changed a id); [done|].
    pose proof (metadata_bounded_text id token account). destruct (metadata id token account).
    apply obs_bounded_fmap; [keep_bounds|done]. }
  case_decide; [by rewrite accept_added_obs|]. case_decide; [by rewrite accept_done_obs|].
  destruct (delta_channel t); [by rewrite accept_delta_obs|].
  case_decide.
  { unfold accept_completed. repeat case_match; first [done | apply obs_bounded_fmap; [keep_bounds|done]]. }
  case_decide.
  { unfold accept_incomplete. repeat case_match; first [done | apply obs_bounded_fmap; [keep_bounds|done]]. }
  repeat case_decide; try done; apply obs_bounded_fmap; try done; keep_bounds.
Qed.

(** Observation never changes interpretation: for every event, the assembly and the result are those of an unobserved run, and what the observation retains of provider text and event kinds stays within its bounds whatever the provider sends. *)
Theorem observation_inert sha256_hex a event token account (o : TransportObservation) :
  let '(a1, o1, r1) := accept_event sha256_hex a event token account (Some o) in
  let '(a2, _, r2) := accept_event sha256_hex a event token account None in
  a1 = a2 /\ r1 = r2 /\ (retained_bounded o -> forall o', o1 = Some o' -> retained_bounded o').
Proof.
  pose proof (accept_event_obs sha256_hex a event token account (Some o)) as [H1 H2].
  pose proof (accept_event_bounded sha256_hex a event token account (Some o)) as H3.
  destruct (accept_event _ _ _ _ _ (Some o)) as [[a1 o1] r1].
  destruct (accept_event _ _ _ _ _ None) as [[a2 o2] r2]. cbn [fst snd] in *. split; [done|]. split; [done|].
  intros Ho. apply H3. by intros ? [= <-].
Qed.
