(* ===== verification/Client.v ===== *)
(** Reading a streamed response: [SseFramer], [visible_event] and
    [read_response_observed] of [transport/client.rs].

    The framer consumes network chunks byte by byte; the reader interprets
    each framed event before it looks at the next. The theorems show that
    interpretation does not depend on how the body was cut into chunks, and
    that every way of ending is classified. *)

From S2P Require Import Prelude Json Redaction Usage Observation Sse.

(** ** UTF-8 validity ([std::str::from_utf8]) *)

Definition cont (b : ascii) (lo hi : N) : bool := (lo <=? N_of_ascii b)%N && (N_of_ascii b <=? hi)%N.

Fixpoint utf8_valid (t : bytes) : bool :=
  match t with
  | [] => true
  | b0 :: t1 =>
      let n := N_of_ascii b0 in
      if (n <? 128)%N then utf8_valid t1
      else if cont b0 194 223 then
        match t1 with
        | b1 :: t2 => cont b1 128 191 && utf8_valid t2
        | _ => false
        end
      else if cont b0 224 239 then
        match t1 with
        | b1 :: b2 :: t3 =>
            cont b1 (if (n =? 224)%N then 160 else 128) (if (n =? 237)%N then 159 else 191)
            && cont b2 128 191 && utf8_valid t3
        | _ => false
        end
      else if cont b0 240 244 then
        match t1 with
        | b1 :: b2 :: b3 :: t4 =>
            cont b1 (if (n =? 240)%N then 144 else 128) (if (n =? 244)%N then 143 else 191)
            && cont b2 128 191 && cont b3 128 191 && utf8_valid t4
        | _ => false
        end
      else false
  end.

(** ** The framer *)

Record FramedEvent := { frame_data : string; frame_event_name : option string }.

Record SseFramer := {
  line : bytes;
  data : list string;
  event_name : option string;
  skip_lf : bool
}.

#[export] Instance SseFramer_eta : Eta SseFramer := fun f =>
  {| line := line f; data := data f; event_name := event_name f; skip_lf := skip_lf f |}.

Definition SseFramer_new : SseFramer := {| line := []; data := []; event_name := None; skip_lf := false |}.

Definition CR : ascii := ascii_of_N 13.
Definition LF : ascii := ascii_of_N 10.
Definition newline : string := String LF EmptyString.
Definition LINE_LIMIT : Z := 1024 * 1024.

(** [line.split_once(':').unwrap_or((line, ""))] *)
Fixpoint split_colon (t : bytes) : bytes * bytes :=
  match t with
  | [] => ([], [])
  | b :: t' => if decide (b = ":"%char) then ([], t')
               else let '(field, v) := split_colon t' in (b :: field, v)
  end.

Definition strip_space (t : bytes) : bytes :=
  match t with
  | b :: t' => if decide (b = " "%char) then t' else t
  | [] => []
  end.

Definition end_line (f : SseFramer) : SseFramer * result TransportError (option FramedEvent) :=
  if utf8_valid (line f) then
    match line f with
    | [] =>
        let name := event_name f in
        let f := f <| event_name := None |> in
        let '(f, event) :=
          match data f with
          | [] => (f, None)
          | lines => (f <| data := [] |>, Some {| frame_data := String.concat newline lines; frame_event_name := name |})
          end in
        (f <| line := [] |>, Ok event)
    | l =>
        let '(field, v) := split_colon l in
        let v := text_of (strip_space v) in
        let f := if decide (field = bytes_of "data") then f <| data ::= (fun d => d ++ [v]) |>
                 else if decide (field = bytes_of "event") then f <| event_name := Some v |>
                 else f in
        (f <| line := [] |>, Ok None)
    end
  else (f, Err (Stream "invalid SSE UTF-8")).

(** One byte of the loop of [push]. *)
Definition push_byte (f : SseFramer) (b : ascii) : SseFramer * result TransportError (option FramedEvent) :=
  let after_cr := skip_lf f in
  let f := f <| skip_lf := false |> in
  if after_cr && bool_decide (b = LF) then (f, Ok None)
  else if bool_decide (b = CR) || bool_decide (b = LF) then
    end_line (f <| skip_lf := bool_decide (b = CR) |>)
  else
    let f := f <| line ::= (fun l => l ++ [b]) |> in
    if LINE_LIMIT <? Z.of_nat (length (line f)) then (f, Err (Stream "SSE line too large"))
    else (f, Ok None).

Fixpoint push (f : SseFramer) (chunk : bytes) : SseFramer * list FramedEvent * option TransportError :=
  match chunk with
  | [] => (f, [], None)
  | b :: chunk' =>
      match push_byte f b with
      | (f, Err e) => (f, [], Some e)
      | (f, Ok event) =>
          let '(f, events, e) := push f chunk' in
          (f, option_list event ++ events, e)
      end
  end.

Definition observe_tail (f : SseFramer) (o : TransportObservation) : TransportObservation :=
  o <| unframed_line_bytes := Z.of_nat (length (line f)) |>
    <| unframed_data_bytes := foldr Z.add 0 ((fun l => Z.of_nat (String.length l)) <$> data f) |>
    <| unframed_event_name := bool_decide (is_Some (event_name f)) |>.

(** ** The reader *)

(** [has] of [visible_event]: a nonempty text part of a kind. *)
Definition has_text (item : Item) (kind : string) : bool :=
  match as_array (vidx item "content") with
  | Some parts => existsb (fun part =>
      veq_str (vidx part "type") kind
      && match as_str (vidx part "text") with Some t => negb (bool_decide (t = "")) | None => false end) parts
  | None => false
  end.

Definition visible (event : StreamEvent) : bool * bool :=
  match event with
  | Delta _ channel _ text _ =>
      (negb (bool_decide (text = "")) && bool_decide (channel = Assistant),
       negb (bool_decide (text = "")) && bool_decide (channel = Reasoning))
  | CompletedItem done =>
      (veq_str (vidx (item done) "type") "message" && veq_str (vidx (item done) "role") "assistant"
         && has_text (item done) "output_text",
       veq_str (vidx (item done) "type") "reasoning" && has_text (item done) "reasoning_text")
  end.

Definition visible_event (elapsed : option Z) (event : StreamEvent) (o : TransportObservation) : TransportObservation :=
  let '(text, reasoning) := visible event in
  let o := if text && negb (bool_decide (is_Some (first_text_ms o))) then o <| first_text_ms := elapsed |> else o in
  if reasoning && negb (bool_decide (is_Some (first_reasoning_ms o))) then o <| first_reasoning_ms := elapsed |> else o.

(** How the body loop ended. *)
Abbreviation ending := (result TransportError ResponsesTurn * ResponseEnd)%type.

(** The body as the network delivers it: chunks, then the end of the stream or
    a failed read. *)
Inductive Body :=
| Eof
| ReadError
| Chunk (chunk : bytes) (rest : Body).

Section reader.
Variable sha256_hex : string -> string.
Variable from_str : string -> option value.
Variables token account : string.
(** Monotonic clock readings: of the body's age at a chunk, and of the
    request's age when an event is framed and when it is shown, by number. *)
Variable body_clock : Z -> Z.
Variables event_clock visible_clock : Z -> option Z.

Definition count (o : option Z) : Z := default 0 o.

(** The observation before a framed event is interpreted. *)
Definition observe_frame (frame : FramedEvent) (o : TransportObservation) : TransportObservation :=
  let n := count (framed_events o) in
  let o := if bool_decide (is_Some (first_event_ms o)) then o else o <| first_event_ms := event_clock n |> in
  let o := o <| framed_events ::= fmap (fun n => wrapping_add_u64 n 1) |> in
  match frame_event_name frame with
  | Some name => sse_event o (EventKind_from_provider sha256_hex (Some name))
  | None => o
  end.

(** The loop over the events framed from one chunk. *)
Fixpoint read_frames (frames : list FramedEvent) (a : ResponseAssembly) (o : TransportObservation)
    : list StreamEvent * TransportObservation * (ResponseAssembly + ending) :=
  match frames with
  | [] => ([], o, inl a)
  | frame :: frames' =>
      let o := observe_frame frame o in
      let '(a, o', r) := accept_observed sha256_hex from_str a (frame_data frame) token account (Some o) in
      let o := default o o' in
      match r with
      | Err e => ([], o, inr (Err e, if bool_decide (is_Some (terminal o)) then ProviderTerminal else ProtocolError))
      | Ok event =>
          let o := match event with
                   | Some event => visible_event (visible_clock (count (framed_events o))) event o
                   | None => o
                   end in
          if is_complete a then (option_list event, o, inr (finish a, ProviderTerminal))
          else
            let '(sent, o, next) := read_frames frames' a o in
            (option_list event ++ sent, o, next)
      end
  end.

Definition observe_chunk (chunk : bytes) (o : TransportObservation) : TransportObservation :=
  let o := match chunk, first_byte_ms o with
           | _ :: _, None => o <| first_byte_ms := Some (body_clock (count (received_chunks o))) |>
           | _, _ => o
           end in
  o <| received_bytes ::= fmap (fun n => wrapping_add_u64 n (Z.of_nat (length chunk))) |>
    <| received_chunks ::= fmap (fun n => wrapping_add_u64 n 1) |>.

Fixpoint read_body (body : Body) (f : SseFramer) (a : ResponseAssembly) (o : TransportObservation)
    : list StreamEvent * TransportObservation * SseFramer * ending :=
  match body with
  | Eof => ([], o, f, (finish a, CleanEof))
  | ReadError => ([], o, f, (map_err (fun _ => IncompleteResponse ReadFailed) (finish a), ReadFailedEnd))
  | Chunk chunk rest =>
      let o := observe_chunk chunk o in
      let '(f, frames, framing_error) := push f chunk in
      let '(sent, o, next) := read_frames frames a o in
      match next with
      | inr ending => (sent, o, f, ending)
      | inl a =>
          match framing_error with
          | Some e => (sent, o, f, (Err e, ProtocolError))
          | None =>
              let '(sent', o, f, ending) := read_body rest f a o in
              (sent ++ sent', o, f, ending)
          end
      end
  end.

(** [read_response_observed]: what is sent to the sink, the observation and
    the framer it leaves, and the result. *)
Definition read_response_observed (status : Z) (header : string -> option string) (body : Body)
    (o : TransportObservation)
    : list StreamEvent * TransportObservation * SseFramer * result TransportError ResponsesTurn :=
  let h := TransportObservation_response status header token account in
  let o := o <| http_status := http_status h |> <| server_request_id := server_request_id h |>
             <| content_type := content_type h |>
             <| metadata_truncated ::= (fun t => t || metadata_truncated h) |> in
  let o := o <| received_bytes := Some 0 |> <| received_chunks := Some 0 |> <| framed_events := Some 0 |> in
  let '(sent, o, f, (r, e)) := read_body body SseFramer_new ResponseAssembly_default o in
  (sent, o <| end_ := e |>, f, r).
End reader.

(** ** Framing is a left action of the bytes *)

Lemma push_app f c1 c2 :
  push f (c1 ++ c2) =
  let '(f, events, e) := push f c1 in
  match e with
  | Some e => (f, events, Some e)
  | None => let '(f, events', e) := push f c2 in (f, events ++ events', e)
  end.
Proof.
  revert f. induction c1 as [|b c1 IH]; intros f; simpl.
  - by destruct (push f c2) as [[? ?] ?].
  - destruct (push_byte f b) as [f1 [ev|e]]; [|done]. rewrite IH.
    destruct (push f1 c1) as [[f2 evs] [e|]]; [done|].
    destruct (push f2 c2) as [[f3 evs'] e']. by rewrite app_assoc.
Qed.

(** ** Arrival counters

    Which chunk brought a byte is recorded in three fields; the rest of the
    observation is about the events. *)
Definition without_arrival (o : TransportObservation) : TransportObservation :=
  o <| received_bytes := None |> <| received_chunks := None |> <| first_byte_ms := None |>.

Ltac by_fields :=
  repeat match goal with o : TransportObservation |- _ => destruct o end; reflexivity.

Lemma observe_event_arrival o k : observe_event (without_arrival o) k = without_arrival (observe_event o k).
Proof. unfold observe_event. destruct (recognized k); by_fields. Qed.

Lemma sse_event_arrival o k : sse_event (without_arrival o) k = without_arrival (sse_event o k).
Proof. by_fields. Qed.

Lemma observe_response_metadata_arrival o response token account :
  observe_response_metadata (without_arrival o) response token account =
  without_arrival (observe_response_metadata o response token account).
Proof.
  unfold observe_response_metadata, retain_metadata.
  repeat case_match; by_fields.
Qed.

Lemma visible_event_arrival elapsed ev o :
  visible_event elapsed ev (without_arrival o) = without_arrival (visible_event elapsed ev o).
Proof.
  unfold visible_event. destruct (visible ev) as [t r].
  change (first_text_ms (without_arrival o)) with (first_text_ms o).
  destruct (t && _); 
  (change (first_reasoning_ms (without_arrival o)) with (first_reasoning_ms o) ||
   change (first_reasoning_ms (without_arrival o <| first_text_ms := elapsed |>)) with (first_reasoning_ms o));
  destruct o; destruct (r && _) eqn:E; simpl in *; rewrite ?E; reflexivity.
Qed.

(** The outcome of a step, seen without the arrival counters. *)
Definition accepted_view (r : accepted) : accepted := (r.1.1, without_arrival <$> r.1.2, r.2).

Lemma observe_envelope_arrival sha event token account obs :
  observe_envelope sha event token account (without_arrival <$> obs) =
  without_arrival <$> observe_envelope sha event token account obs.
Proof.
  unfold observe_envelope. destruct obs as [o|]; simpl; [|by repeat case_match].
  rewrite observe_event_arrival. destruct (if (_ : bool) then _ else _); [|done].
  by rewrite observe_response_metadata_arrival.
Qed.

Lemma accept_event_arrival sha a event token account obs :
  accept_event sha a event token account (without_arrival <$> obs) =
  accepted_view (accept_event sha a event token account obs).
Proof.
  unfold accept_event. rewrite observe_envelope_arrival.
  generalize (observe_envelope sha event token account obs). clear obs. intros obs. cbv zeta.
  assert (forall (f : TransportObservation -> TransportObservation),
    (forall o, f (without_arrival o) = without_arrival (f o)) ->
    f <$> (without_arrival <$> obs) = without_arrival <$> (f <$> obs)) as Hf.
  { intros f H. destruct obs; simpl; [by rewrite H|done]. }
  destruct (get_str "type" event) as [t|]; [|done]. unfold accepted_view.
  case_decide.
  { unfold accept_created. repeat case_match; try done. cbn [fst snd]. rewrite Hf; [done|].
    intros []; reflexivity. }
  case_decide; [by rewrite accept_added_obs, (accept_added_obs _ _ obs)|].
  case_decide; [by rewrite accept_done_obs, (accept_done_obs _ _ obs)|].
  destruct (delta_channel t); [by rewrite accept_delta_obs, (accept_delta_obs _ _ _ obs)|].
  case_decide.
  { unfold accept_completed. repeat case_match; try done; cbn [fst snd];
      (rewrite Hf; [done|]); intros []; reflexivity. }
  case_decide.
  { unfold accept_incomplete. repeat case_match; try done; cbn [fst snd];
      (rewrite Hf; [done|]); intros []; reflexivity. }
  repeat case_decide; try done; unfold accept_failure; cbn [fst snd]; (rewrite Hf; [done|]); intros []; reflexivity.
Qed.

Section chunking.
Variable sha256_hex : string -> string.
Variable from_str : string -> option value.
Variables token account : string.
Variable body_clock : Z -> Z.
Variables event_clock visible_clock : Z -> option Z.

#[local] Abbreviation frames_of := (read_frames sha256_hex from_str token account event_clock visible_clock).
#[local] Abbreviation body_of := (read_body sha256_hex from_str token account body_clock event_clock visible_clock).

Lemma observe_frame_arrival frame o :
  observe_frame sha256_hex event_clock frame (without_arrival o) =
  without_arrival (observe_frame sha256_hex event_clock frame o).
Proof.
  unfold observe_frame. cbv zeta. change (first_event_ms (without_arrival o)) with (first_event_ms o).
  change (framed_events (without_arrival o)) with (framed_events o).
  destruct (frame_event_name frame); destruct (bool_decide _); by_fields.
Qed.

Lemma accept_observed_arrival a d obs :
  accept_observed sha256_hex from_str a d token account (without_arrival <$> obs) =
  accepted_view (accept_observed sha256_hex from_str a d token account obs).
Proof. unfold accept_observed. destruct (from_str d); [apply accept_event_arrival | done]. Qed.

(** An observed step leaves an observation. *)
Lemma read_frames_arrival frames a o :
  frames_of frames a (without_arrival o) =
  let '(sent, o, next) := frames_of frames a o in (sent, without_arrival o, next).
Proof.
  revert a o. induction frames as [|frame frames IH]; intros a o; [done|]. cbn [read_frames].
  rewrite observe_frame_arrival. generalize (observe_frame sha256_hex event_clock frame o). clear o. intros o.
  pose proof (accept_observed_arrival a (frame_data frame) (Some o)) as H. cbn [fmap option_fmap option_map] in H.
  rewrite H. destruct (accept_observed _ _ a _ _ _ (Some o)) as [[a1 o1] r]. cbn [accepted_view fst snd].
  replace (default (without_arrival o) (without_arrival <$> o1)) with (without_arrival (default o o1)) by (by destruct o1).
  generalize (default o o1). clear o o1 H. intros o. destruct r as [ev|e]; [|done].
  set (v := match ev with Some _ => _ | None => without_arrival o end).
  set (w := match ev with Some _ => _ | None => o end).
  assert (v = without_arrival w) as ->.
  { subst v w. destruct ev as [ev|]; [|done]. change (framed_events (without_arrival o)) with (framed_events o).
    apply visible_event_arrival. }
  destruct (is_complete a1); [done|]. rewrite IH. by destruct (frames_of frames a1 w) as [[s2 o2] n2].
Qed.

Lemma read_frames_app l1 l2 a o :
  frames_of (l1 ++ l2) a o =
  let '(sent, o, next) := frames_of l1 a o in
  match next with
  | inr e => (sent, o, inr e)
  | inl a => let '(sent', o, next) := frames_of l2 a o in (sent ++ sent', o, next)
  end.
Proof.
  revert a o. induction l1 as [|frame l1 IH]; intros a o; cbn [app read_frames].
  - by destruct (frames_of l2 a o) as [[? ?] ?].
  - destruct (accept_observed _ _ a _ _ _ _) as [[a1 o1] [ev|e]]; [|done].
    set (w := match ev with Some _ => _ | None => _ end). destruct (is_complete a1); [done|]. rewrite IH.
    destruct (frames_of l1 a1 w) as [[s2 o2] [a2|e2]]; [|done].
    destruct (frames_of l2 a2 o2) as [[s3 o3] n3]. by rewrite app_assoc.
Qed.

Lemma observe_chunk_arrival chunk o :
  without_arrival (observe_chunk body_clock chunk o) = without_arrival o.
Proof. unfold observe_chunk. destruct chunk; [|destruct (first_byte_ms o)]; by_fields. Qed.

(** The body as one chunk. *)
Fixpoint body_bytes (body : Body) : bytes :=
  match body with
  | Chunk c rest => c ++ body_bytes rest
  | _ => []
  end.

Fixpoint body_end (body : Body) : Body :=
  match body with
  | Chunk _ rest => body_end rest
  | e => e
  end.

(** The whole interpretation of a body from its bytes alone. *)
Definition interpret (b : bytes) (e : Body) (f : SseFramer) (a : ResponseAssembly) (o : TransportObservation)
    : list StreamEvent * TransportObservation * ending :=
  let '(_, frames, err) := push f b in
  let '(sent, o, next) := frames_of frames a o in
  (sent, without_arrival o,
   match next with
   | inr ending => ending
   | inl a =>
       match err with
       | Some e => (Err e, ProtocolError)
       | None => match e with
                 | ReadError => (map_err (fun _ => IncompleteResponse ReadFailed) (finish a), ReadFailedEnd)
                 | _ => (finish a, CleanEof)
                 end
       end
   end).

Definition body_view (r : list StreamEvent * TransportObservation * SseFramer * ending) :=
  let '(sent, o, _, e) := r in (sent, without_arrival o, e).

Lemma interpret_arrival b e f a o o' :
  without_arrival o = without_arrival o' -> interpret b e f a o = interpret b e f a o'.
Proof.
  intros H. unfold interpret. destruct (push f b) as [[f1 frames] err].
  pose proof (read_frames_arrival frames a o) as H1. pose proof (read_frames_arrival frames a o') as H2.
  rewrite H in H1. rewrite H1 in H2.
  destruct (frames_of frames a o) as [[s1 o1] n1], (frames_of frames a o') as [[s2 o2] n2].
  by apply pair_equal_spec in H2 as [[-> ->]%pair_equal_spec ->].
Qed.

Lemma read_body_interpret body f a o :
  body_view (body_of body f a o) = interpret (body_bytes body) (body_end body) f a o.
Proof.
  revert f a o. induction body as [| |c rest IH]; intros f a o; [done..|].
  cbn [read_body body_bytes body_end]. 
  rewrite (interpret_arrival _ _ _ _ o (observe_chunk body_clock c o)) by (by rewrite observe_chunk_arrival).
  generalize (observe_chunk body_clock c o). clear o. intros o.
  unfold interpret. rewrite push_app. destruct (push f c) as [[f1 frames] [e|]].
  - by destruct (frames_of frames a o) as [[s1 o1] [a1|e1]].
  - specialize (IH f1). unfold interpret in IH.
    destruct (push f1 (body_bytes rest)) as [[f2 frames2] err2]. rewrite read_frames_app.
    destruct (frames_of frames a o) as [[s1 o1] [a1|e1]]; [|done].
    specialize (IH a1 o1). destruct (body_of rest f1 a1 o1) as [[[s2 o2] f3] e2]. cbn [body_view] in *.
    destruct (frames_of frames2 a1 o1) as [[s3 o3] n3]. by apply pair_equal_spec in IH as [[-> ->]%pair_equal_spec ->].
Qed.

(** C8. Interpretation does not depend on network chunking: two bodies with the same bytes and the same end give the same result, end classification and sent events in the same order, and an observation that differs at most in the arrival counters, also when a line is malformed or the response completes in the middle of a chunk. *)
Theorem chunking_independent body1 body2 f a o :
  body_bytes body1 = body_bytes body2 -> body_end body1 = body_end body2 ->
  body_view (body_of body1 f a o) = body_view (body_of body2 f a o).
Proof. intros H1 H2. by rewrite !read_body_interpret, H1, H2. Qed.
End chunking.

(** ** Round trip with the wire format of an event stream *)

(** A field's value is text on one line, within the line limit. *)
Definition field_value (v : bytes) : Prop :=
  CR ∉ v /\ LF ∉ v /\ utf8_valid v = true /\ Z.of_nat (length v) + 7 <= LINE_LIMIT.

Definition encode_field (name : string) (v : bytes) : bytes := bytes_of name ++ bytes_of ": " ++ v ++ [LF].

Definition encode_event (name : option bytes) (lines : list bytes) : bytes :=
  concat (encode_field "event" <$> option_list name) ++ concat (encode_field "data" <$> lines) ++ [LF].

Lemma push_byte_plain f b :
  b <> CR -> b <> LF -> Z.of_nat (length (line f)) + 1 <= LINE_LIMIT ->
  push_byte f b = (f <| line ::= (fun l => l ++ [b]) |> <| skip_lf := false |>, Ok None).
Proof.
  intros H1 H2 H3. unfold push_byte. cbv zeta.
  rewrite (bool_decide_eq_false_2 (b = LF)), (bool_decide_eq_false_2 (b = CR)), andb_false_r by done. simpl.
  destruct (Z.ltb_spec LINE_LIMIT (Z.of_nat (length (line f ++ [b])))) as [H|H]; [|by destruct f].
  rewrite length_app in H. simpl in H. lia.
Qed.

Lemma push_plain f t :
  CR ∉ t -> LF ∉ t -> t <> [] -> Z.of_nat (length (line f)) + Z.of_nat (length t) <= LINE_LIMIT ->
  push f t = (f <| line ::= (fun l => l ++ t) |> <| skip_lf := false |>, [], None).
Proof.
  revert f. induction t as [|b t IH]; intros f H1 H2 Hne Hlen; [done|].
  apply not_elem_of_cons in H1 as [H1 H1'], H2 as [H2 H2']. cbn [push]. simpl length in Hlen.
  rewrite push_byte_plain by (auto; lia).
  destruct (decide (t = [])) as [->|Ht]; [by destruct f|]. rewrite IH; try done.
  - destruct f. simpl. unfold assign. simpl. by rewrite <- app_assoc.
  - upd_simpl. rewrite length_app. simpl. lia.
Qed.

(** A framer that stands at the start of a line. *)
Definition at_line (f : SseFramer) : Prop := line f = [] /\ skip_lf f = false.

Lemma push_field f name v :
  at_line f -> field_value v -> name = "data" \/ name = "event" ->
  push f (encode_field name v) =
  (if decide (name = "data") then f <| data ::= (fun d => d ++ [text_of v]) |>
   else f <| event_name := Some (text_of v) |>, [], None).
Proof.
  intros [Hl Hs] (Hcr & Hlf & Hu & Hlen) Hname. unfold encode_field.
  replace (bytes_of name ++ bytes_of ": " ++ v ++ [LF]) with ((bytes_of name ++ bytes_of ": " ++ v) ++ [LF])
    by (by rewrite <- !app_assoc).
  assert (CR ∉ bytes_of name ++ bytes_of ": " /\ LF ∉ bytes_of name ++ bytes_of ": ") as [Hn1 Hn2]
    by (destruct Hname as [->| ->]; split; by_decide).
  rewrite push_app, push_plain; cycle 1.
  { rewrite app_assoc, elem_of_app. by intros [?|?]. }
  { rewrite app_assoc, elem_of_app. by intros [?|?]. }
  { by destruct Hname as [->| ->]. }
  { rewrite Hl, !length_app. destruct Hname as [->| ->]; simpl length; lia. }
  cbn [push]. unfold push_byte. cbv zeta.
  destruct f as [l d e s]. simpl in Hl, Hs. subst l s. unfold assign. simpl line.
  unfold end_line. cbn [line app].
  destruct Hname as [->| ->]; cbn [bytes_of String.list_ascii_of_string app utf8_valid];
    cbn -[utf8_valid text_of]; rewrite Hu; cbn -[text_of]; done.
Qed.

Lemma push_data_fields f lines :
  at_line f -> Forall field_value lines ->
  push f (concat (encode_field "data" <$> lines)) = (f <| data ::= (fun d => d ++ (text_of <$> lines)) |>, [], None).
Proof.
  intros Hf Hl. revert f Hf. induction Hl as [|v lines Hv Hl IH]; intros f Hf; cbn [fmap list_fmap concat].
  - destruct f. unfold assign. simpl. by rewrite app_nil_r.
  - rewrite push_app, push_field by auto. rewrite decide_True by done. rewrite IH by done.
    destruct f. unfold assign. simpl. by rewrite <- app_assoc.
Qed.

(** Framing inverts the event stream's wire format: the lines of one event, in any number, with or without a name, come out as exactly that event, its data joined by newlines, and leave the framer as it started. *)
Theorem framing_roundtrip name lines :
  lines <> [] -> Forall field_value (option_list name ++ lines) ->
  push SseFramer_new (encode_event name lines) =
  (SseFramer_new, [{| frame_data := String.concat newline (text_of <$> lines);
                      frame_event_name := text_of <$> name |}], None).
Proof.
  intros Hne [Hname Hlines]%Forall_app. unfold encode_event. rewrite push_app.
  assert (push SseFramer_new (concat (encode_field "event" <$> option_list name)) =
          (SseFramer_new <| event_name := text_of <$> name |>, [], None)) as ->.
  { destruct name as [n|]; [|done]. inversion Hname; subst. simpl option_list. cbn [fmap list_fmap concat].
    rewrite app_nil_r, push_field by (auto; by split). by rewrite decide_False. }
  rewrite push_app, push_data_fields by (done || by split).
  cbn [push]. unfold push_byte, end_line, assign. simpl. by destruct lines.
Qed.

Lemma framing_roundtrip_witness :
  push SseFramer_new (encode_event (Some (bytes_of "e")) [bytes_of "{}"; []]) =
  (SseFramer_new, [{| frame_data := String.concat newline ["{}"; ""]; frame_event_name := Some "e" |}], None).
Proof.
  apply (framing_roundtrip (Some (bytes_of "e")) [bytes_of "{}"; []]); [done|].
  repeat (apply Forall_cons_2; [split; [by_decide|]; split; [by_decide|]; split; [reflexivity|]; by_decide |]).
  apply Forall_nil_2.
Defined.

(** ** How reading can end *)

Section endings.
Variable sha256_hex : string -> string.
Variable from_str : string -> option value.
Variables token account : string.
Variable body_clock : Z -> Z.
Variables event_clock visible_clock : Z -> option Z.

#[local] Abbreviation frames_of := (read_frames sha256_hex from_str token account event_clock visible_clock).
#[local] Abbreviation body_of := (read_body sha256_hex from_str token account body_clock event_clock visible_clock).

(** What an ending says: success is a completion the provider sent. *)
Definition ending_ok (e : ending) : Prop :=
  match e with
  | (Ok _, end_) => end_ = ProviderTerminal
  | (Err err, CleanEof) => err = IncompleteResponse MissingCompletion
  | (Err err, ReadFailedEnd) => err = IncompleteResponse ReadFailed
  | (Err err, ProviderTerminal) => True
  | (Err err, ProtocolError) => True
  | (Err _, _) => False
  end.

Lemma read_frames_ending frames a o :
  is_complete a = false ->
  match (frames_of frames a o).2 with
  | inl a' => is_complete a' = false
  | inr e => ending_ok e
  end.
Proof.
  revert a o. induction frames as [|frame frames IH]; intros a o Ha; cbn [read_frames]; [done|].
  destruct (accept_observed _ _ a _ _ _ _) as [[a1 o1] [ev|e]].
  - set (w := match ev with Some _ => _ | None => _ end). destruct (is_complete a1) eqn:Hc.
    + cbn [fst snd]. unfold ending_ok. by destruct (finish a1).
    + specialize (IH a1 w Hc). by destruct (frames_of frames a1 w) as [[s2 o2] [a2|e2]].
  - cbn [fst snd]. unfold ending_ok. by destruct (bool_decide _).
Qed.

Lemma finish_incomplete a : is_complete a = false -> finish a = Err (IncompleteResponse MissingCompletion).
Proof.
  unfold is_complete, finish. intros H%bool_decide_eq_false. destruct (completed a); [|done].
  destruct H. eauto.
Qed.

Lemma read_body_ending body f a o :
  is_complete a = false -> ending_ok (body_of body f a o).2.
Proof.
  revert f a o. induction body as [| |c rest IH]; intros f a o Ha; cbn [read_body].
  - by rewrite finish_incomplete.
  - by rewrite finish_incomplete.
  - destruct (push f c) as [[f1 frames] err].
    pose proof (read_frames_ending frames a (observe_chunk body_clock c o) Ha) as H.
    destruct (frames_of frames a _) as [[s1 o1] [a1|e1]]; [|done]. cbn [fst snd] in H.
    destruct err as [e|]; [done|]. specialize (IH f1 a1 o1 H).
    by destruct (body_of rest f1 a1 o1) as [[[s2 o2] f2] e2].
Qed.

End endings.

Lemma chunking_independent_witness :
  let from_str := fun _ : string => Some (completed_event "r" [VString "a"]) in
  let read := fun body => body_view (read_body (fun s => s) from_str "" "" (fun n => n) (fun _ => None) (fun _ => None)
                body SseFramer_new ResponseAssembly_default (TransportObservation_new Abandoned)) in
  let wire := bytes_of "data: x" ++ [LF; LF] in
  read (Chunk (take 3 wire) (Chunk (drop 3 wire) Eof)) = read (Chunk wire Eof).
Proof. apply (chunking_independent (fun s => s)); vm_compute; reflexivity. Defined.
