(* ===== verification/Failure.v ===== *)
(** Tool failures and their bounded metadata: [provider/failure.rs].

    A failure carries a message and, when it is small and shallow enough,
    structured metadata. The theorems show which metadata is admitted, that
    the bounded traversal agrees with the byte limit, and what storing a
    failure keeps. *)

From S2P Require Import Prelude Json.

Definition MAX_TOOL_FAILURE_METADATA_BYTES : Z := 8192.
Definition MAX_TOOL_FAILURE_METADATA_DEPTH : Z := 8.

Inductive MetadataOmission := SizeLimit | DepthLimit.

#[export] Instance MetadataOmission_eq_dec : EqDecision MetadataOmission.
Proof. solve_decision. Defined.

Record ToolFailure := {
  failure_message : string;
  provider_context : bool;
  failure_metadata : option value;
  metadata_omitted : option MetadataOmission;
  result_receipt : option value
}.

#[export] Instance ToolFailure_eta : Eta ToolFailure := fun f =>
  {| failure_message := failure_message f; provider_context := provider_context f;
     failure_metadata := failure_metadata f; metadata_omitted := metadata_omitted f;
     result_receipt := result_receipt f |}.

#[export] Instance ToolFailure_eq_dec : EqDecision ToolFailure.
Proof. solve_decision. Defined.

Definition ToolFailure_from (message : string) : ToolFailure :=
  {| failure_message := message; provider_context := false; failure_metadata := None;
     metadata_omitted := None; result_receipt := None |}.

Definition with_tool_prefix (f : ToolFailure) : ToolFailure :=
  if provider_context f then f
  else f <| failure_message ::= (fun m => "tool failed: " +:+ m) |> <| provider_context := true |>.

Definition fmt_provider (f : ToolFailure) : string :=
  if provider_context f then failure_message f else "tool failed: " +:+ failure_message f.

Definition with_result_receipt (f : ToolFailure) (receipt : value) : ToolFailure :=
  f <| result_receipt := Some receipt |>.

Definition without_result_receipt (f : ToolFailure) : ToolFailure := f <| result_receipt := None |>.

Definition omission_str (r : MetadataOmission) : string :=
  match r with SizeLimit => "size_limit" | DepthLimit => "depth_limit" end.

Definition output_value (f : ToolFailure) : value :=
  let output := [("error", VString (failure_message f))] in
  let output := match failure_metadata f, metadata_omitted f with
                | Some metadata, _ => obj_insert "failure" metadata output
                | None, Some reason => obj_insert "failure" (json_object [("metadata_omitted", VString (omission_str reason))]) output
                | None, None => output
                end in
  VObject (match result_receipt f with
           | Some receipt => obj_insert "result" receipt output
           | None => output
           end).

(** ** Admission of metadata *)

Definition children_of (v : value) : list value :=
  match v with
  | VArray l => l
  | VObject m => m.*2
  | _ => []
  end.

(** The worklist loop; the top of the stack is the head of the list. *)
Fixpoint scan (fuel : nat) (pending : list (value * Z)) (visited : Z) : result MetadataOmission unit :=
  match fuel with
  | O => Err SizeLimit
  | S fuel =>
      match pending with
      | [] => Ok tt
      | (v, depth) :: pending =>
          refuse MAX_TOOL_FAILURE_METADATA_DEPTH <? depth with DepthLimit;
          let visited := visited + 1 in
          let children := children_of v in
          refuse MAX_TOOL_FAILURE_METADATA_BYTES <? visited + Z.of_nat (length pending) + Z.of_nat (length children)
            with SizeLimit;
          scan fuel (reverse ((fun c => (c, depth + 1)) <$> children) ++ pending) visited
      end
  end.

Fixpoint nodes (v : value) : nat :=
  match v with
  | VArray l => S (foldr (fun x n => nodes x + n)%nat 0%nat l)
  | VObject m => S (foldr (fun e n => nodes e.2 + n)%nat 0%nat m)
  | _ => 1
  end.

Section encoding.
(** [serde_json::to_string]: the compact encoding [to_writer] writes. *)
Variable to_string : value -> string.

Definition admit_metadata (metadata : value) : result MetadataOmission unit :=
  do _ <- scan (S (nodes metadata)) [(metadata, 1)] 0;
  guard Z.of_nat (String.length (to_string metadata)) <=? MAX_TOOL_FAILURE_METADATA_BYTES else SizeLimit;
  Ok tt.

Definition with_metadata (message : string) (metadata : value) : ToolFailure :=
  let failure := ToolFailure_from message in
  match admit_metadata metadata with
  | Ok _ => failure <| failure_metadata := Some metadata |>
  | Err reason => failure <| metadata_omitted := Some reason |>
  end.

(** ** The stored form *)

Definition serialize (f : ToolFailure) : value :=
  if negb (provider_context f) && bool_decide (failure_metadata f = None)
     && bool_decide (metadata_omitted f = None) && bool_decide (result_receipt f = None)
  then VString (failure_message f)
  else VObject (foldl (fun m e => obj_insert e.1 e.2 m) []
    ([("message", VString (failure_message f))]
     ++ (if provider_context f then [("provider_context", VBool true)] else [])
     ++ option_list ((fun m => ("metadata", m)) <$> failure_metadata f)
     ++ option_list ((fun r => ("metadata_omitted", VString (omission_str r))) <$> metadata_omitted f)
     ++ option_list ((fun r => ("result_receipt", r)) <$> result_receipt f))).

(** An [Option<Value>] field: absent and null both read as [None]. *)
Definition optional (o : option value) : option value :=
  match o with
  | Some VNull => None
  | o => o
  end.

Definition read_omission (o : option value) : option (option MetadataOmission) :=
  match optional o with
  | None => Some None
  | Some (VString s) =>
      if decide (s = "size_limit") then Some (Some SizeLimit)
      else if decide (s = "depth_limit") then Some (Some DepthLimit) else None
  | Some _ => None
  end.

Definition deserialize (wire : value) : option ToolFailure :=
  match wire with
  | VString message => Some (ToolFailure_from message)
  | VObject m =>
      message ← obj_get "message" m ≫= as_str;
      context ← (match obj_get "provider_context" m with
                 | None => Some false
                 | Some v => as_bool v
                 end);
      omitted ← read_omission (obj_get "metadata_omitted" m);
      let receipt := optional (obj_get "result_receipt" m) in
      match optional (obj_get "metadata" m) with
      | Some metadata =>
          Some (with_metadata message metadata <| provider_context := context |> <| result_receipt := receipt |>)
      | None =>
          Some {| failure_message := message; provider_context := context; failure_metadata := None;
                  metadata_omitted := omitted; result_receipt := receipt |}
      end
  | _ => None
  end.
End encoding.

(** Look up literal keys in objects built by insertion. *)
Ltac obj_lookup :=
  repeat match goal with
  | |- context [obj_get ?k (obj_insert ?k ?v ?m)] => rewrite (obj_get_insert_eq k v m)
  | |- context [obj_get ?k (obj_insert ?j ?v ?m)] => rewrite (obj_get_insert_ne j k v m) by done
  end.

(** ** The traversal *)

Fixpoint depth (v : value) : Z :=
  match v with
  | VArray l => 1 + foldr (fun x n => Z.max (depth x) n) 0 l
  | VObject m => 1 + foldr (fun e n => Z.max (depth e.2) n) 0 m
  | _ => 1
  end.

Definition total (l : list (value * Z)) : nat := foldr (fun p n => nodes p.1 + n)%nat 0%nat l.

Lemma total_app l k : total (l ++ k) = (total l + total k)%nat.
Proof. induction l as [|p l IH]; simpl; [done|]. rewrite IH. lia. Qed.

Lemma total_reverse l : total (reverse l) = total l.
Proof.
  induction l as [|p l IH]; [done|]. rewrite reverse_cons, total_app, IH. simpl. lia.
Qed.

Lemma total_children v d : nodes v = S (total ((fun c => (c, d)) <$> children_of v)).
Proof.
  destruct v; simpl; try done; f_equal.
  - induction l; simpl; [done|]. by rewrite IHl.
  - induction m; simpl; [done|]. by rewrite IHm.
Qed.

Lemma total_length l : (length l <= total l)%nat.
Proof.
  induction l as [|[x d] l IH]; [done|]. unfold total in *. simpl.
  assert (1 <= nodes x)%nat by (destruct x; simpl; lia). lia.
Qed.

Lemma children_count v : (length (children_of v) <= pred (nodes v))%nat.
Proof.
  rewrite (total_children v 0). simpl pred. etransitivity; [|apply total_length]. by rewrite length_fmap.
Qed.

(** The values of the stack stay within the depth limit. *)
Definition shallow (p : value * Z) : Prop := depth p.1 + p.2 - 1 <= MAX_TOOL_FAILURE_METADATA_DEPTH.

Lemma depth_foldr {A} (f : A -> Z) l n :
  0 <= n -> (foldr (fun x m => Z.max (f x) m) 0 l <= n <-> Forall (fun x => f x <= n) l).
Proof.
  intros Hn. induction l as [|x l IH]; simpl; [split; [constructor|lia]|].
  rewrite Forall_cons, <- IH. lia.
Qed.

Lemma shallow_children v d :
  d <= MAX_TOOL_FAILURE_METADATA_DEPTH ->
  shallow (v, d) <-> Forall shallow ((fun c => (c, d + 1)) <$> children_of v).
Proof.
  intros Hd. rewrite Forall_fmap. unfold shallow. simpl.
  destruct v; simpl; try (split; [constructor|unfold MAX_TOOL_FAILURE_METADATA_DEPTH in *; lia]).
  - rewrite (Forall_iff _ l (fun x => depth x <= MAX_TOOL_FAILURE_METADATA_DEPTH - d)) by (intros; simpl; lia).
    rewrite <- depth_foldr by lia. lia.
  - rewrite Forall_fmap. rewrite (Forall_iff _ m (fun e => depth e.2 <= MAX_TOOL_FAILURE_METADATA_DEPTH - d)) by (intros; simpl; lia).
    rewrite <- (depth_foldr (fun e => depth e.2)) by lia. lia.
Qed.

Lemma depth_positive v : 1 <= depth v.
Proof.
  destruct v; simpl; try lia.
  - assert (0 <= foldr (fun x n => Z.max (depth x) n) 0 l) by (induction l; simpl; lia). lia.
  - assert (0 <= foldr (fun e n => Z.max (depth e.2) n) 0 m) by (induction m; simpl; lia). lia.
Qed.

(** The loop decides depth and size, and its fuel is never what stops it. *)
Lemma scan_spec fuel pending visited :
  (total pending < fuel)%nat -> 0 <= visited <= MAX_TOOL_FAILURE_METADATA_BYTES ->
  match scan fuel pending visited with
  | Ok _ => Forall shallow pending /\ visited + Z.of_nat (total pending) <= MAX_TOOL_FAILURE_METADATA_BYTES
  | Err DepthLimit => ~ Forall shallow pending
  | Err SizeLimit => MAX_TOOL_FAILURE_METADATA_BYTES < visited + Z.of_nat (total pending)
  end.
Proof.
  revert pending visited. induction fuel as [|fuel IH]; intros pending visited Hfuel Hvis; [lia|].
  destruct pending as [|[v d] pending]; cbn [scan]; [simpl; split; [constructor|lia]|].
  destruct (Z.ltb_spec MAX_TOOL_FAILURE_METADATA_DEPTH d) as [Hd|Hd].
  { intros H. apply Forall_cons_1 in H as [H _]. pose proof (depth_positive v). unfold shallow in H. simpl in H. lia. }
  cbv zeta. simpl total in *. pose proof (children_count v) as Hc.
  pose proof (total_length pending) as Hp.
  assert (1 <= nodes v)%nat by (destruct v; simpl; lia).
  destruct (Z.ltb_spec MAX_TOOL_FAILURE_METADATA_BYTES
    (visited + 1 + Z.of_nat (length pending) + Z.of_nat (length (children_of v)))) as [Hs|Hs]; [lia|].
  set (k := (fun c => (c, d + 1)) <$> children_of v).
  pose proof (total_children v (d + 1)) as Ht. fold k in Ht.
  specialize (IH (reverse k ++ pending) (visited + 1)). rewrite total_app, total_reverse in IH.
  assert (Forall shallow (reverse k ++ pending) <-> Forall shallow ((v, d) :: pending)) as Hsh.
  { rewrite Forall_app, Forall_reverse, Forall_cons. subst k. by rewrite <- shallow_children. }
  destruct (scan fuel (reverse k ++ pending) (visited + 1)) as [[]|[]];
    (rewrite Hsh in IH || idtac); (split; [apply IH|]; lia) || (apply IH; lia) || (specialize (IH ltac:(lia) ltac:(lia)); lia).
Qed.

(** ** Claims *)

Section claims.
Variable to_string : value -> string.
(** Each value of a document takes at least a byte of its encoding. *)
Hypothesis encodes_nodes : forall v, (nodes v <= String.length (to_string v))%nat.

Lemma admit_metadata_spec v :
  match admit_metadata to_string v with
  | Ok _ => depth v <= MAX_TOOL_FAILURE_METADATA_DEPTH /\
            Z.of_nat (String.length (to_string v)) <= MAX_TOOL_FAILURE_METADATA_BYTES
  | Err DepthLimit => MAX_TOOL_FAILURE_METADATA_DEPTH < depth v
  | Err SizeLimit => MAX_TOOL_FAILURE_METADATA_BYTES < Z.of_nat (String.length (to_string v))
  end.
Proof.
  unfold admit_metadata. pose proof (encodes_nodes v) as Hn.
  assert (total [(v, 1)] = nodes v) as Ht by (unfold total; simpl; lia).
  pose proof (scan_spec (S (nodes v)) [(v, 1)] 0) as H. rewrite Ht in H.
  specialize (H ltac:(lia) ltac:(unfold MAX_TOOL_FAILURE_METADATA_BYTES; lia)).
  destruct (scan (S (nodes v)) [(v, 1)] 0) as [[]|[]]; simpl rbind;
    rewrite ?Forall_singleton in H; unfold shallow in H; cbn [fst snd] in H; cbv iota; [|lia|lia].
  destruct (Z.leb_spec (Z.of_nat (String.length (to_string v))) MAX_TOOL_FAILURE_METADATA_BYTES); lia.
Qed.

End claims.

Definition one_byte_per_node (v : value) : string := String.string_of_list_ascii (replicate (nodes v) "x"%char).


(** Failures the constructors build: retained metadata was admitted. *)
Definition constructed (to_string : value -> string) (f : ToolFailure) : Prop :=
  match failure_metadata f with
  | Some m => admit_metadata to_string m = Ok tt /\ metadata_omitted f = None
  | None => True
  end.

Lemma with_metadata_admitted to_string message v :
  admit_metadata to_string v = Ok tt ->
  with_metadata to_string message v = ToolFailure_from message <| failure_metadata := Some v |>.
Proof. intros H. unfold with_metadata. by rewrite H. Qed.

Lemma optional_cases v : optional (Some v) = Some v \/ v = VNull.
Proof. destruct v; auto. Qed.

Lemma read_omission_str r : read_omission (Some (VString (omission_str r))) = Some (Some r).
Proof. by destruct r. Qed.

(** C38. Storing a failure and reading it back keeps everything, the message, the prefix context, admitted metadata or the reason it was omitted, and the operation's receipt, with one exception: metadata or a receipt that is JSON null is read back as absent. *)
Theorem failure_roundtrip to_string f :
  constructed to_string f ->
  deserialize to_string (serialize f) = Some (f <| failure_metadata ::= optional |> <| result_receipt ::= optional |>).
Proof.
  destruct f as [msg ctx md om rr]. unfold constructed, serialize. simpl. intros Hc.
  destruct ctx, md as [md|], om as [om|], rr as [rr|]; simpl in Hc;
    try (destruct Hc as [Hc Hom]; discriminate Hom);
    try (destruct (optional_cases md) as [Em| ->]); try (destruct (optional_cases rr) as [Er| ->]); upd_simpl;
    rewrite ?Em, ?Er;
    cbn -[with_metadata optional read_omission omission_str obj_insert obj_get];
    obj_lookup;
    cbn -[with_metadata optional read_omission omission_str];
    rewrite ?read_omission_str; cbn -[with_metadata optional omission_str];
    rewrite ?Em, ?Er; cbn -[with_metadata omission_str];
    rewrite ?with_metadata_admitted by (destruct Hc; done); reflexivity.
Qed.

Lemma failure_roundtrip_witness :
  deserialize one_byte_per_node
    (serialize (with_result_receipt (with_metadata one_byte_per_node "m" (VBool true)) VNull)) =
  Some (with_metadata one_byte_per_node "m" (VBool true)).
Proof.
  apply (failure_roundtrip one_byte_per_node (with_result_receipt (with_metadata one_byte_per_node "m" (VBool true)) VNull)).
  split; vm_compute; reflexivity.
Defined.
