(* ===== verification/StoreDb.v ===== *)
(** The durable rows inference admission reads and writes, and the readers it
    shares with its neighbours: bindings ([store/embedded.rs]), the request
    frontier ([store/embedded_round.rs]) and operation cleanup evidence
    ([store/terminal.rs]), with the host's data types ([embedding.rs]).

    A table is a finite map by its primary key; a transaction is a function
    from rows to an error or a value with new rows, so that a failed
    transaction leaves the rows as they were. Stored JSON columns are the
    values they encode. The theorems show that the frontier walk ends and
    finds the one unbroken chain of pending requests. *)

From S2P Require Import Prelude Json Redaction Usage Observation Sse Failure.

(** ** Identities and inference data *)

Record HostIdentity := { run : string; actor : string; incarnation : string }.

Inductive ConversationIdentity :=
| Standalone (store : string) (actor : string)
| Embedded (run : string) (actor : string) (incarnation : string).

Record OperationId := { origin : ConversationIdentity; op_request : string; call : string }.

Definition identity_actor (c : ConversationIdentity) : string := match c with Standalone _ actor | Embedded _ actor _ => actor end.

#[export] Instance HostIdentity_eq_dec : EqDecision HostIdentity.
Proof. solve_decision. Defined.
#[export] Instance ConversationIdentity_eq_dec : EqDecision ConversationIdentity.
Proof. solve_decision. Defined.
#[export] Instance OperationId_eq_dec : EqDecision OperationId.
Proof. solve_decision. Defined.

Definition conversation_actor (c : ConversationIdentity) : string :=
  match c with Standalone _ a => a | Embedded _ a _ => a end.

(** The tools the harness answers itself ([agents.rs]). *)
Definition is_agent_verb (name : string) : bool :=
  bool_decide (name ∈ ["spawn_agent"; "send_message"; "followup_task"; "wait_agent"; "checkpoint"; "set_effort";
                       "list_agents"; "interrupt_agent"]).

(** [transport/request_failure.rs] *)
Inductive RequestFailure :=
| RFAuthentication
| RFCredentialUnavailable (route : ResponsesRoute) (reason : CredentialFailure)
| RFProviderAuthentication (route : ResponsesRoute)
| RFHttp (status : Z) (diagnostic : option HttpDiagnostic).

Inductive TransportFailureKind :=
| Rejected (failure : RequestFailure)
| Interrupted (cause : StreamInterruption)
| ProviderFailed (event : ProviderStreamFailureEvent) (diagnostic : option HttpDiagnostic)
| ProviderIncomplete (response_id : string) (reason : option IncompleteReason)
| OtherFailure.

Definition failure_kind (e : TransportError) : TransportFailureKind :=
  match e with
  | ResponseIncomplete id reason => ProviderIncomplete id reason
  | CredentialUnavailable route reason => Rejected (RFCredentialUnavailable route reason)
  | ProviderAuthentication route => Rejected (RFProviderAuthentication route)
  | Authentication => Rejected RFAuthentication
  | Http status d => Rejected (RFHttp status d)
  | IncompleteResponse cause => Interrupted cause
  | ProviderStreamFailure event d => ProviderFailed event d
  | InvalidAdmission | Unsupported _ | PreparedSelectionMismatch | ReplayContractMismatch
  | UnprovenResponseContract | MissingOutputIndex | ConflictingOutputIndex _ | IncompleteOutputIndices _
  | Stream _ | ReplayRequestReuse _ => OtherFailure
  end.

Definition request_failure (e : TransportError) : option RequestFailure :=
  match failure_kind e with
  | Rejected failure => Some failure
  | Interrupted _ | ProviderFailed _ _ | ProviderIncomplete _ _ | OtherFailure => None
  end.

Inductive InferenceBlockReason :=
| StreamInterrupted (cause : StreamInterruption)
| BlockProviderStreamFailure (event : ProviderStreamFailureEvent) (diagnostic : option HttpDiagnostic)
| RequestRejected (failure : RequestFailure)
| BlockResponseIncomplete (response_id : string) (reason : option IncompleteReason)
| ContinuityUnproven
| HostInterrupted.

Inductive ContinuationRefusal :=
| ExactProjectionUnavailable | RefusedContinuityUnproven | UncertainEffects | Stale.

Record InferenceBlock := {
  block_request : string;
  block_generation : Z;
  block_reason : InferenceBlockReason;
  continuation_refusal : option ContinuationRefusal
}.

#[export] Instance InferenceBlock_eta : Eta InferenceBlock := fun b =>
  {| block_request := block_request b; block_generation := block_generation b; block_reason := block_reason b;
     continuation_refusal := continuation_refusal b |}.

#[export] Instance StreamInterruption_eq_dec : EqDecision StreamInterruption.
Proof. solve_decision. Defined.
#[export] Instance ProviderStreamFailureEvent_eq_dec : EqDecision ProviderStreamFailureEvent.
Proof. solve_decision. Defined.
#[export] Instance CredentialFailure_eq_dec : EqDecision CredentialFailure.
Proof. solve_decision. Defined.
#[export] Instance IncompleteReason_eq_dec : EqDecision IncompleteReason.
Proof. solve_decision. Defined.
#[export] Instance RequestFailure_eq_dec : EqDecision RequestFailure.
Proof. solve_decision. Defined.
#[export] Instance InferenceBlockReason_eq_dec : EqDecision InferenceBlockReason.
Proof. solve_decision. Defined.
#[export] Instance ContinuationRefusal_eq_dec : EqDecision ContinuationRefusal.
Proof. solve_decision. Defined.
#[export] Instance InferenceBlock_eq_dec : EqDecision InferenceBlock.
Proof. solve_decision. Defined.

Inductive RecoveryMode := Exact | VisibleHistory.

#[export] Instance RecoveryMode_eq_dec : EqDecision RecoveryMode.
Proof. solve_decision. Defined.

Inductive InputContinuation :=
| Queued
| Granted (block : InferenceBlock)
| Refused (block : InferenceBlock) (reason : ContinuationRefusal).

(** [store/terminal.rs], [provider.rs] *)
Inductive TerminalOutcome :=
| NotStarted
| Success
| FailureOutcome (failure : ToolFailure)
| Cancelled
| CancelledWithReceipt (receipt : result ToolFailure value)
| CancelledWithValueReceipt
| InterruptedOutcome
| CancellationUnconfirmed (detail : ToolFailure).

#[export] Instance TerminalOutcome_eq_dec : EqDecision TerminalOutcome.
Proof. solve_decision. Defined.

Inductive OutputFormat := LegacyOpaque | NativeReceiptV1.

#[export] Instance OutputFormat_eq_dec : EqDecision OutputFormat.
Proof. solve_decision. Defined.

(** ** Errors *)

(** The errors the modelled operations raise or classify; [OtherStoreError]
    stands for the variants none of them distinguishes. *)
Inductive StoreError :=
| ContextOpaqueModel
| ContextError (name : string)
| ConflictingProviderItem (request : string) (index : Z)
| IncompleteProviderPrefix (request : string) (index : Z)
| InvalidProviderEvidence (request : string)
| UnsupportedReplayOutcome (operation : OperationId)
| ConflictingReplayOutcome (operation : OperationId)
| MissingReplayItem (hash : string)
| ConflictingCommand
| InvalidCommandState
| InferenceBlocked (block : InferenceBlock)
| InferenceRunning
| StaleInferenceRecovery
| InferenceRecoveryUncertain (operation : OperationId)
| InvalidEmbeddedFrontier
| UnownedEmbeddedRequest
| InvalidEmbeddedBinding
| Sql (message : string)
| ConflictingProviderIssuance (request : string)
| MissingRequest (request : string)
| InvalidOutputPublication (operation : OperationId) (claimant : string)
| UnboundOutputPublication (request : string) (position : Z)
| InconsistentOutputPublication (request : string) (position : Z)
| OperationOriginMismatch
| ProviderAdmission (error : TransportError)
| InvalidReplayOwnership (event : Z)
| InvalidCompletionMarker (event : Z)
| OtherStoreError (name : string).

Definition is_inference_projection_refusal (e : StoreError) : bool :=
  match e with
  | ContextOpaqueModel | ContextError _ | IncompleteProviderPrefix _ _ | InvalidProviderEvidence _
  | ConflictingProviderItem _ _ => true
  | _ => false
  end.

(** ** Gate rows *)

Inductive Gate :=
| Idle
| AutoRetry (incarnation : string) (block : InferenceBlock) (attempt : Z) (due_ms : Z)
| Running (incarnation : string) (attempt : string)
| Blocked (block : InferenceBlock)
| Recovering (incarnation : string) (operation : string) (block : InferenceBlock) (resume_head : string).

#[export] Instance Gate_eq_dec : EqDecision Gate.
Proof. solve_decision. Defined.

(** ** Rows *)

Record RequestRow := {
  parent_id : option string;
  branch : string;
  embedded_run : option string;
  embedded_incarnation : option string;
  round_phase : option string
}.

Record ClaimRow := {
  claim_operation : OperationId;
  claim_request : string;
  claim_state : string;
  output_hash : option string;
  terminal_json : option (TerminalOutcome * OutputFormat)
}.

Record EnvelopeRow := { recipient : string; delivered_request : option string }.

Record IntentRow := {
  intent_identity : HostIdentity;
  intent_attempt : option string;
  intent_outcome : InputContinuation
}.

(** [server.rs] and [store/embedded_commands.rs] *)
Inductive HostCommand :=
| SelectAccount (target : HostIdentity) (account_id : string)
| Input (target : HostIdentity) (text : string)
| Interrupt (target : HostIdentity) (expected_round : string)
| Retire (target : HostIdentity)
| Recover (target : HostIdentity) (expected_block : InferenceBlock) (mode : RecoveryMode).

Inductive EmbeddedCommandState :=
| CmdQueued | CmdDispatching | CmdInputAdmitted | CmdControlRequested | CmdRecoveryAuthorized
| CmdAccountSelected | CmdRefused | CmdUnconfirmed.

#[export] Instance EmbeddedCommandState_eq_dec : EqDecision EmbeddedCommandState.
Proof. solve_decision. Defined.

(** [context.rs] *)
Record RecoveryProjectionReceipt := {
  omitted : list string;
  unknown_response_completeness : list string
}.

Inductive CommandControl := ControlInterrupt | ControlRetire.

Inductive CommandReceiptOutcome :=
| AccountSelected (target : HostIdentity) (account_id : string)
| RecoveryAuthorized (target : HostIdentity) (block : InferenceBlock) (mode : RecoveryMode) (projection : RecoveryProjectionReceipt)
| ContinuationRefused (target : HostIdentity) (block : InferenceBlock) (reason : ContinuationRefusal)
| CommandAdmitted (continuation : option InputContinuation) (target : option HostIdentity) (envelope_id : Z) (wake_error : option string)
| ControlRequested (target : HostIdentity) (control : CommandControl)
| CommandUnconfirmed (target : HostIdentity) (reason : string)
| CommandRefused (target : option HostIdentity) (reason : string).

Record CommandReceipt := { command_id : string; outcome : CommandReceiptOutcome }.

(** A row of commands, with its [rowid]. *)
Record CommandRow := {
  command : HostCommand;
  command_state : EmbeddedCommandState;
  receipt : option CommandReceipt;
  command_envelope : option Z;
  command_rowid : Z
}.

#[export] Instance CommandRow_eta : Eta CommandRow := fun r =>
  {| command := command r; command_state := command_state r; receipt := receipt r; command_envelope := command_envelope r;
     command_rowid := command_rowid r |}.

#[export] Instance InputContinuation_eq_dec : EqDecision InputContinuation.
Proof. solve_decision. Defined.
#[export] Instance HostCommand_eq_dec : EqDecision HostCommand.
Proof. solve_decision. Defined.
#[export] Instance RecoveryProjectionReceipt_eq_dec : EqDecision RecoveryProjectionReceipt.
Proof. solve_decision. Defined.
#[export] Instance CommandControl_eq_dec : EqDecision CommandControl.
Proof. solve_decision. Defined.
#[export] Instance CommandReceiptOutcome_eq_dec : EqDecision CommandReceiptOutcome.
Proof. solve_decision. Defined.
#[export] Instance CommandReceipt_eq_dec : EqDecision CommandReceipt.
Proof. solve_decision. Defined.
#[export] Instance HostIdentity_countable : Countable HostIdentity.
Proof.
  refine (inj_countable' (fun i => (run i, actor i, incarnation i)) (fun t => {| run := t.1.1; actor := t.1.2; incarnation := t.2 |}) _).
  by intros [].
Defined.

Record Db := {
  bindings : gmap string (string * string);            (* actor -> run, incarnation *)
  agents : gmap string (option string);                (* path -> head_request *)
  requests : gmap string RequestRow;
  model_interrupted : gmap string StreamInterruption;  (* latest event per request *)
  claims : list ClaimRow;
  item_formats : gmap string (option OutputFormat);    (* items by hash *)
  provider_items : gset string;                        (* requests with a retained item *)
  provider_requests : gmap string string;              (* request -> state *)
  envelopes : gmap Z EnvelopeRow;
  inference : gmap (string * string) (Z * Gate);       (* run, actor -> generation, state *)
  retry_lineage : gmap (string * string) Z;
  intents : gmap Z IntentRow;                          (* by envelope *)
  commands : gmap (string * string) CommandRow         (* run, operation *)
}.

#[export] Instance Db_eta : Eta Db := fun d =>
  {| bindings := bindings d; agents := agents d; requests := requests d; model_interrupted := model_interrupted d;
     claims := claims d; item_formats := item_formats d; provider_items := provider_items d;
     provider_requests := provider_requests d; envelopes := envelopes d; inference := inference d;
     retry_lineage := retry_lineage d; intents := intents d; commands := commands d |}.

Definition Db_empty : Db :=
  {| bindings := ∅; agents := ∅; requests := ∅; model_interrupted := ∅; claims := []; item_formats := ∅;
     provider_items := ∅; provider_requests := ∅; envelopes := ∅; inference := ∅; retry_lineage := ∅;
     intents := ∅; commands := ∅ |}.

(** ** Bindings *)

Definition matches_binding (db : Db) (identity : HostIdentity) : bool :=
  match bindings db !! actor identity with
  | Some (r, i) => bool_decide (r = run identity) && bool_decide (i = incarnation identity)
  | None => false
  end.

(** ** The request frontier *)

Record EmbeddedRoundFrontier := {
  settled_head : option string;
  pending_head : option string;
  pending_interruption : option StreamInterruption
}.

#[export] Instance EmbeddedRoundFrontier_eq_dec : EqDecision EmbeddedRoundFrontier.
Proof. solve_decision. Defined.

(** The rows of [parent_id IS tip AND branch = actor]. At most two are read:
    any second row is an error, so that their order does not matter. *)
Definition successors (db : Db) (tip : option string) (branch_ : string) : list (string * RequestRow) :=
  take 2 (List.filter (fun row => bool_decide (parent_id row.2 = tip) && bool_decide (branch row.2 = branch_))
            (map_to_list (requests db))).

(** The walk from the settled head; [seen] bounds it by the number of rows. *)
Fixpoint frontier_tip (fuel : nat) (db : Db) (identity : HostIdentity) (tip : option string) (seen : gset string)
    : result StoreError (option string) :=
  match fuel with
  | O => Err InvalidEmbeddedFrontier
  | S fuel =>
      match successors db tip (actor identity) with
      | [] => Ok tip
      | [(id, row)] =>
          refuse negb (bool_decide (embedded_run row = Some (run identity)))
                 || match embedded_incarnation row with Some i => bool_decide (i = "") | None => true end
            with UnownedEmbeddedRequest;
          refuse negb (bool_decide (round_phase row = Some "pending")) || bool_decide (id ∈ seen)
            with InvalidEmbeddedFrontier;
          frontier_tip fuel db identity (Some id) ({[id]} ∪ seen)
      | _ => Err InvalidEmbeddedFrontier
      end
  end.

Definition frontier (db : Db) (identity : HostIdentity) : result StoreError EmbeddedRoundFrontier :=
  guard matches_binding db identity else InvalidEmbeddedBinding;
  do settled <- ok_or (agents db !! actor identity) (Sql "query returned no rows");
  do tip <- frontier_tip (S (S (size (requests db)))) db identity settled ∅;
  let pending := if decide (tip = settled) then None else tip in
  Ok {| settled_head := settled;
        pending_head := pending;
        pending_interruption := pending ≫= (fun request => model_interrupted db !! request) |}.

(** [pending_head.or(settled_head)] *)
Definition frontier_head (f : EmbeddedRoundFrontier) : option string :=
  match pending_head f with
  | Some request => Some request
  | None => settled_head f
  end.

Inductive EmbeddedRoundOutcome := RoundCompleted | RoundCancelled | RoundRejected.

Definition round_outcome_str (o : EmbeddedRoundOutcome) : string :=
  match o with RoundCompleted => "completed" | RoundCancelled => "cancelled" | RoundRejected => "rejected" end.

Record EmbeddedRoundSettlement := {
  settlement_store_id : string;
  settlement_identity : HostIdentity;
  settlement_previous : option string;
  settlement_request : string;
  settlement_outcome : EmbeddedRoundOutcome
}.

Inductive EmbeddedRoundSettlementResult :=
| Committed (s : EmbeddedRoundSettlement)
| AlreadySettled
| StaleFrontier.

#[export] Instance RequestRow_eta : Eta RequestRow := fun r =>
  {| parent_id := parent_id r; branch := branch r; embedded_run := embedded_run r;
     embedded_incarnation := embedded_incarnation r; round_phase := round_phase r |}.

Definition settle_tx (db : Db) (store_id : string) (identity : HostIdentity) (expected : option string)
    (request : string) (out : EmbeddedRoundOutcome) : result StoreError (EmbeddedRoundSettlementResult * Db) :=
  do current <- frontier db identity;
  do already <-
    (if bool_decide (settled_head current = Some request) && bool_decide (pending_head current = None) then
       do row <- ok_or (requests db !! request) (Sql "query returned no rows");
       Ok (bool_decide (round_phase row = Some (round_outcome_str out)))
     else Ok false);
  if (already : bool) then Ok (AlreadySettled, db)
  else if negb (bool_decide (settled_head current = expected)) || negb (bool_decide (pending_head current = Some request))
  then Ok (StaleFrontier, db)
  else if negb (bool_decide (agents db !! actor identity = Some expected)) then Ok (StaleFrontier, db)
  else
    let db := db <| agents ::= <[actor identity := Some request]> |> in
    match requests db !! request with
    | Some row =>
        guard bool_decide (round_phase row = Some "pending") else InvalidEmbeddedFrontier;
        Ok (Committed {| settlement_store_id := store_id; settlement_identity := identity;
                         settlement_previous := expected; settlement_request := request;
                         settlement_outcome := out |},
            db <| requests ::= <[request := row <| round_phase := Some (round_outcome_str out) |>]> |>)
    | None => Err InvalidEmbeddedFrontier
    end.

(** ** Cleanup evidence of operations *)

Inductive OperationCleanupEvidence :=
| EvidenceNotStarted
| EvidenceTerminal (terminal : TerminalOutcome)
| Uncertain.

(** The settled claims of the operation agree on hash, outcome and format;
    [format_of] reads the format of the stored output item. *)
Definition agree_terminal (format_of : string -> result StoreError OutputFormat) (operation : OperationId)
    (found : option (string * TerminalOutcome * OutputFormat)) (row : ClaimRow) : result StoreError (option (string * TerminalOutcome * OutputFormat)) :=
  match output_hash row, terminal_json row with
  | Some hash, Some (terminal, format) =>
      do item_format <- format_of hash;
      refuse negb (bool_decide (item_format = format)) with ConflictingReplayOutcome operation;
      let candidate := (hash, terminal, format) in
      refuse match found with Some previous => negb (bool_decide (previous = candidate)) | None => false end
        with ConflictingReplayOutcome operation;
      Ok (Some candidate)
  | _, _ => Err (UnsupportedReplayOutcome operation)
  end.

Definition settled_terminal (format_of : string -> result StoreError OutputFormat) (rows : list ClaimRow) (operation : OperationId)
    : result StoreError (option (string * TerminalOutcome * OutputFormat)) :=
  fold_result (agree_terminal format_of operation) None
    (List.filter (fun row => bool_decide (claim_operation row = operation) && bool_decide (claim_state row = "settled")) rows).

Definition exact_terminal (db : Db) (operation : OperationId)
    : result StoreError (option (string * TerminalOutcome * OutputFormat)) :=
  settled_terminal (fun hash => do raw_format <- ok_or (item_formats db !! hash) (MissingReplayItem hash); Ok (default LegacyOpaque raw_format))
    (claims db) operation.

Definition operation_cleanup_evidence (db : Db) (operation : OperationId) : result StoreError OperationCleanupEvidence :=
  do found <- exact_terminal db operation;
  match found with
  | Some (_, terminal, _) =>
      Ok match terminal with
         | Success | FailureOutcome _ | Cancelled | CancelledWithReceipt _ | CancelledWithValueReceipt =>
             EvidenceTerminal terminal
         | NotStarted | InterruptedOutcome | CancellationUnconfirmed _ => Uncertain
         end
  | None =>
      let interrupted := List.find (fun row => bool_decide (claim_operation row = operation)
                           && bool_decide (claim_request row = op_request operation)
                           && bool_decide (claim_state row = "interrupted")) (claims db) in
      Ok match interrupted ≫= terminal_json with
         | Some (NotStarted, _) => EvidenceNotStarted
         | _ => Uncertain
         end
  end.

(** ** The walk and its chain *)

Definition owned_pending (identity : HostIdentity) (row : RequestRow) : bool :=
  bool_decide (embedded_run row = Some (run identity))
  && match embedded_incarnation row with Some i => negb (bool_decide (i = "")) | None => false end
  && bool_decide (round_phase row = Some "pending").

(** Each request of the chain is the only successor of the one before it, was
    admitted for this run and is still pending; the last one has none. *)
Inductive pending_chain (db : Db) (identity : HostIdentity) : option string -> list string -> option string -> Prop :=
| chain_end tip : successors db tip (actor identity) = [] -> pending_chain db identity tip [] tip
| chain_step tip id row l tip' :
    successors db tip (actor identity) = [(id, row)] -> owned_pending identity row = true ->
    pending_chain db identity (Some id) l tip' -> pending_chain db identity tip (id :: l) tip'.

Lemma successors_in db tip b id row : (id, row) ∈ successors db tip b -> is_Some (requests db !! id).
Proof.
  unfold successors. intros H. apply elem_of_take in H as (i & H & _).
  apply list_elem_of_lookup_2 in H. apply list_elem_of_In, List.filter_In in H as [H _].
  apply list_elem_of_In, elem_of_map_to_list in H. eauto.
Qed.

Lemma frontier_step_true (identity : HostIdentity) row (id : string) (seen : gset string) :
  negb (bool_decide (embedded_run row = Some (run identity)))
    || match embedded_incarnation row with Some i => bool_decide (i = "") | None => true end = false ->
  negb (bool_decide (round_phase row = Some "pending")) || bool_decide (id ∈ seen) = false ->
  owned_pending identity row = true /\ id ∉ seen.
Proof.
  unfold owned_pending. intros [H1 H2]%orb_false_elim [H3 H4]%orb_false_elim.
  apply negb_false_iff in H1, H3. rewrite H1, H3. apply bool_decide_eq_false in H4.
  split; [|done]. destruct (embedded_incarnation row); [|done]. by rewrite H2.
Qed.

Lemma frontier_tip_chain fuel db identity tip seen tip' :
  frontier_tip fuel db identity tip seen = Ok tip' ->
  exists l, pending_chain db identity tip l tip' /\ NoDup l /\ Forall (fun id => id ∉ seen) l.
Proof.
  revert tip seen. induction fuel as [|fuel IH]; intros tip seen H; [done|]. simpl in H.
  destruct (successors db tip (actor identity)) as [|[id row] [|]] eqn:E; [| |done].
  - injection H as <-. exists []. split; [by constructor|]. split; constructor.
  - inv_ok. destruct (frontier_step_true identity row id seen Hg Hg0) as [Ho Hn].
    apply IH in H as (l & Hc & Hd & Hs). exists (id :: l). split; [by econstructor|].
    rewrite Forall_forall in Hs. split.
    + constructor; [|done]. intros Hin. specialize (Hs id Hin). set_solver.
    + constructor; [done|]. apply Forall_forall. intros x Hx. specialize (Hs x Hx). set_solver.
Qed.

Lemma frontier_tip_complete fuel db identity tip l tip' seen :
  pending_chain db identity tip l tip' -> NoDup l -> Forall (fun id => id ∉ seen) l ->
  (length l < fuel)%nat -> frontier_tip fuel db identity tip seen = Ok tip'.
Proof.
  intros H. revert fuel seen. induction H as [tip E|tip id row l tip' E Ho H IH]; intros fuel seen Hd Hs Hf;
    (destruct fuel as [|fuel]; [simpl in *; lia|]); cbn [frontier_tip]; rewrite E; [done|].
  apply NoDup_cons in Hd as [Hid Hd]. apply Forall_cons in Hs as [Hsid Hs].
  unfold owned_pending in Ho. apply andb_prop in Ho as [[H1 H2]%andb_prop H3]. rewrite H1, H3. simpl.
  destruct (embedded_incarnation row); [|done]. apply negb_true_iff in H2. rewrite H2.
  rewrite (bool_decide_eq_false_2 (id ∈ seen)) by done. apply IH; [done| |simpl in Hf; lia].
  rewrite Forall_forall in *. intros x Hx. specialize (Hs x Hx). set_solver.
Qed.

(** A chain of distinct requests is no longer than the table. *)
Lemma pending_chain_length db identity tip l tip' :
  pending_chain db identity tip l tip' -> NoDup l -> (length l <= size (requests db))%nat.
Proof.
  intros H Hd. assert (list_to_set l ⊆ dom (requests db)) as Hsub.
  { clear Hd. induction H as [|tip id row l tip' E Ho H IH]; simpl; [set_solver|].
    assert (id ∈ dom (requests db)); [|set_solver]. apply elem_of_dom. eapply successors_in. rewrite E. left. }
  apply subseteq_size in Hsub. rewrite size_list_to_set in Hsub by done. by rewrite size_dom in Hsub.
Qed.

Lemma frontier_spec db identity f :
  frontier db identity = Ok f <->
  matches_binding db identity = true /\
  exists settled l tip, agents db !! actor identity = Some settled /\
    pending_chain db identity settled l tip /\ NoDup l /\
    f = {| settled_head := settled;
           pending_head := if decide (tip = settled) then None else tip;
           pending_interruption := (if decide (tip = settled) then None else tip) ≫= (fun r => model_interrupted db !! r) |}.
Proof.
  unfold frontier. destruct (matches_binding db identity); [|naive_solver].
  rewrite rbind_Ok. setoid_rewrite ok_or_Ok. setoid_rewrite rbind_Ok. split.
  - intros (settled & Hs & tip & Ht & [= <-]). split; [done|].
    apply frontier_tip_chain in Ht as (l & Hc & Hd & _). by exists settled, l, tip.
  - intros [_ (settled & l & tip & Hs & Hc & Hd & ->)]. exists settled. split; [done|]. exists tip. split; [|done].
    apply frontier_tip_complete with l; [done..| |].
    + apply Forall_forall. intros x _. apply not_elem_of_empty.
    + apply pending_chain_length in Hc; [lia|done].
Qed.

(** ** Settling a round *)

Lemma pending_chain_end db identity tip l tip' :
  pending_chain db identity tip l tip' -> successors db tip' (actor identity) = [].
Proof. by induction 1. Qed.

Lemma successors_nil db tip b :
  successors db tip b = [] <->
  forall id row, requests db !! id = Some row -> ~ (parent_id row = tip /\ branch row = b).
Proof.
  unfold successors. set (p := fun row : string * RequestRow => _). split.
  - intros H id row Hr [Hp Hb].
    assert ((id, row) ∈ List.filter p (map_to_list (requests db))) as Hin.
    { apply list_elem_of_In, List.filter_In. split; [by apply list_elem_of_In, elem_of_map_to_list|].
      subst p. simpl. by rewrite !bool_decide_eq_true_2. }
    destruct (List.filter p _); [by apply not_elem_of_nil in Hin|done].
  - intros H. destruct (List.filter p (map_to_list (requests db))) as [|[id row] l] eqn:E; [done|].
    assert (In (id, row) (List.filter p (map_to_list (requests db)))) as Hin by (rewrite E; by left).
    apply List.filter_In in Hin as [Hin Hp]. apply list_elem_of_In, elem_of_map_to_list in Hin.
    subst p. simpl in Hp. apply andb_prop in Hp as [Hp Hb]. apply bool_decide_eq_true in Hp, Hb.
    by destruct (H id row Hin).
Qed.

(** A committed settlement moves the head onto the request it settles. *)
Lemma settle_committed db store_id identity expected request out s db' :
  settle_tx db store_id identity expected request out = Ok (Committed s, db') ->
  exists row, requests db !! request = Some row /\ round_phase row = Some "pending" /\
    db' = db <| agents ::= <[actor identity := Some request]> |>
             <| requests ::= <[request := row <| round_phase := Some (round_outcome_str out) |>]> |> /\
    settlement_request s = request /\ settlement_previous s = expected /\
    matches_binding db identity = true /\ agents db !! actor identity = Some expected /\
    successors db (Some request) (actor identity) = [].
Proof.
  unfold settle_tx. intros H. inv_ok. rename x into cur, x0 into already. apply frontier_spec in Hr.
  destruct Hr as [Hm (settled & l & tip & Ha & Hc & Hd & ->)]. destruct already; [done|]. cbn in H.
  destruct (negb _ || negb _) eqn:E; [done|]. apply orb_false_elim in E as [E1 E2].
  apply negb_false_iff, bool_decide_eq_true in E1, E2.
  destruct (negb _) eqn:E3; [done|]. apply negb_false_iff, bool_decide_eq_true in E3.
  change (requests (db <| agents ::= <[actor identity := Some request]> |>)) with (requests db) in H.
  destruct (requests db !! request) as [row|]; [|done]. inv_ok. injection H as <- <-.
  apply bool_decide_eq_true in Hg. exists row. repeat split; try done.
  case_decide; [done|]. subst tip. by eapply pending_chain_end.
Qed.

Lemma settle_frontier db store_id identity expected request out s db' :
  settle_tx db store_id identity expected request out = Ok (Committed s, db') ->
  frontier db' identity = Ok {| settled_head := Some request; pending_head := None; pending_interruption := None |}.
Proof.
  intros (row & Hr & Hp & -> & _ & _ & Hm & Ha & Hs)%settle_committed. apply frontier_spec. split; [done|].
  exists (Some request), [], (Some request). split; [|split; [|split; [constructor|by rewrite decide_True]]].
  - upd_simpl. apply lookup_insert_eq.
  - constructor. apply successors_nil. upd_simpl. intros id row' Hrow.
    rewrite successors_nil in Hs. apply lookup_insert_Some in Hrow as [[<- <-]|[_ Hrow]]; simpl; eauto.
Qed.

(** ** Claims *)

(** C37. The frontier is exactly the unbroken chain of pending requests after the settled head: the walk always ends, and it succeeds exactly when the binding matches, the agent exists and every step has a single successor admitted for this run and still pending, with no request visited twice; the pending head is the chain's last request. *)
Theorem frontier_exact db identity f :
  frontier db identity = Ok f <->
  matches_binding db identity = true /\
  exists settled l tip, agents db !! actor identity = Some settled /\
    pending_chain db identity settled l tip /\ NoDup l /\
    f = {| settled_head := settled;
           pending_head := if decide (tip = settled) then None else tip;
           pending_interruption := (if decide (tip = settled) then None else tip) ≫= (fun r => model_interrupted db !! r) |}.
Proof. apply frontier_spec. Qed.

Lemma frontier_exact_witness :
  exists f, frontier (Db_empty <| bindings := {["a" := ("r", "i")]} |> <| agents := {["a" := None]} |>
      <| requests := {["q" := {| parent_id := None; branch := "a"; embedded_run := Some "r";
                                 embedded_incarnation := Some "i"; round_phase := Some "pending" |}]} |>)
    {| run := "r"; actor := "a"; incarnation := "i" |} = Ok f /\ pending_head f = Some "q".
Proof.
  eexists. split.
  - apply frontier_exact. split; [reflexivity|].
    exists None, ["q"], (Some "q"). split; [reflexivity|].
    split; [|split; [by_decide|reflexivity]].
    eapply chain_step; [vm_compute; reflexivity | reflexivity | constructor; vm_compute; reflexivity].
  - reflexivity.
Defined.

(** Settling a round commits once: a committed settlement was for the pending head over the expected settled head, makes that request the settled head with nothing pending, changes no other request or agent, and settling the same round again, under any expectation, reports it already settled and changes nothing. *)
Theorem settle_once db store_id identity expected request out s db' expected' :
  settle_tx db store_id identity expected request out = Ok (Committed s, db') ->
  agents db !! actor identity = Some expected /\
  frontier db' identity = Ok {| settled_head := Some request; pending_head := None; pending_interruption := None |} /\
  (forall a, a <> actor identity -> agents db' !! a = agents db !! a) /\
  (forall r, r <> request -> requests db' !! r = requests db !! r) /\
  settle_tx db' store_id identity expected' request out = Ok (AlreadySettled, db').
Proof.
  intros H. pose proof (settle_frontier _ _ _ _ _ _ _ _ H) as Hf.
  apply settle_committed in H as (row & Hr & Hp & -> & _ & _ & _ & Ha & _). split; [done|]. split; [done|].
  split; [intros a Hne; upd_simpl; by rewrite lookup_insert_ne|].
  split; [intros r Hne; upd_simpl; by rewrite lookup_insert_ne|].
  unfold settle_tx. rewrite Hf. simpl rbind. rewrite !bool_decide_eq_true_2 by done. simpl andb. cbv iota.
  upd_simpl. rewrite lookup_insert_eq. simpl. by rewrite bool_decide_eq_true_2.
Qed.

Definition settle_db : Db :=
  Db_empty <| bindings := {["a" := ("r", "i")]} |> <| agents := {["a" := None]} |>
      <| requests := {["q" := {| parent_id := None; branch := "a"; embedded_run := Some "r";
                                 embedded_incarnation := Some "i"; round_phase := Some "pending" |}]} |>.

Lemma settle_once_witness :
  exists db', frontier db' {| run := "r"; actor := "a"; incarnation := "i" |} =
    Ok {| settled_head := Some "q"; pending_head := None; pending_interruption := None |}.
Proof.
  eexists. eapply (settle_once settle_db "s" {| run := "r"; actor := "a"; incarnation := "i" |} None "q" RoundCompleted _ _ None).
  vm_compute. reflexivity.
Defined.
