(* ===== verification/InferenceGate.v ===== *)
(** Durable inference admission: [store/inference.rs].

    Each bound actor has one gate row. A model round may begin only when the
    gate is idle or a recovery was granted for the current head; an
    interruption blocks it under a new generation, and only an explicit or
    automatic grant for that very block, with every affected operation's
    cleanup confirmed, lets inference continue.

    An operation is a transaction: a function from rows to an error or to a
    value with the new rows. Fresh identifiers and the clock are arguments. *)

From S2P Require Import Prelude Json Redaction Usage Observation Sse Failure StoreDb.

(** ** The projection owner

    Publishing a recovery projection belongs to the context component
    ([store/context.rs]). Admission relies on it to check the identity and the
    exact history, and to touch no admission row when it publishes a visible
    history. *)
Class ProjectionOwner := {
  validate_identity : Db -> string -> ConversationIdentity -> result StoreError unit;
  preflight_target : Db -> ConversationIdentity -> string -> result StoreError unit;
  publish_visible : Db -> HostIdentity -> string -> result StoreError (string * RecoveryProjectionReceipt * Db);
  publish_visible_rows db identity head head' receipt db' :
    publish_visible db identity head = Ok (head', receipt, db') ->
    inference db' = inference db /\ retry_lineage db' = retry_lineage db /\ commands db' = commands db
}.

Definition RecoveryProjectionReceipt_default : RecoveryProjectionReceipt :=
  {| omitted := []; unknown_response_completeness := [] |}.

Definition publish_recovery_projection `{ProjectionOwner} (db : Db) (identity : HostIdentity) (head : string)
    (mode : RecoveryMode) (store_id : string) : result StoreError (string * RecoveryProjectionReceipt * Db) :=
  let conversation := Embedded (run identity) (actor identity) (incarnation identity) in
  do _ <- validate_identity db store_id conversation;
  match mode with
  | Exact => do _ <- preflight_target db conversation head; Ok (head, RecoveryProjectionReceipt_default, db)
  | VisibleHistory => publish_visible db identity head
  end.

(** ** Rows and data *)

Definition key (identity : HostIdentity) : string * string := (run identity, actor identity).

Definition read (db : Db) (identity : HostIdentity) : option (Z * Gate) := inference db !! key identity.

Definition write (db : Db) (identity : HostIdentity) (generation : Z) (state : Gate) : Db :=
  db <| inference ::= <[key identity := (generation, state)]> |>.

Inductive HostInferenceState :=
| HostAutoRetry (block : InferenceBlock) (attempt maximum delay_ms : Z)
| HostIdle
| HostRunning
| HostBlocked (block : InferenceBlock)
| HostRecovering (operation_id : string) (block : InferenceBlock).

#[export] Instance HostInferenceState_eq_dec : EqDecision HostInferenceState.
Proof. solve_decision. Defined.

Record EmbeddedRoundSnapshot := {
  snapshot_store_id : string;
  snapshot_identity : HostIdentity;
  snapshot_frontier : EmbeddedRoundFrontier;
  snapshot_inference : HostInferenceState;
  snapshot_generation : Z;
  snapshot_first_envelope : option Z
}.

#[export] Instance EmbeddedRoundSnapshot_eq_dec : EqDecision EmbeddedRoundSnapshot.
Proof. solve_decision. Defined.

Inductive InferenceAttemptDisposition := DispositionCompleted | DispositionCancelled.

Record InferenceAttempt := {
  attempt_identity : HostIdentity;
  attempt_id : string;
  recovering : bool
}.

Record AutomaticRetry := {
  retry_block : InferenceBlock;
  retry_attempt : Z;
  retry_delay_ms : Z
}.

(** ** Operations inside a transaction *)

Definition old_owner (identity : HostIdentity) (state : Gate) : bool :=
  match state with
  | Running i _ | Recovering i _ _ _ | AutoRetry i _ _ _ => negb (bool_decide (i = incarnation identity))
  | _ => false
  end.

Definition new_block (request : string) (generation : Z) (reason : InferenceBlockReason) : InferenceBlock :=
  {| block_request := request; block_generation := generation; block_reason := reason; continuation_refusal := None |}.

Definition next_generation (generation : Z) : result StoreError Z :=
  ok_or (checked_add_u64 generation 1) StaleInferenceRecovery.

Definition initialize (db : Db) (identity : HostIdentity) : result StoreError (Z * Gate * Db) :=
  guard matches_binding db identity else InvalidEmbeddedBinding;
  match read db identity with
  | Some (generation, state) =>
      if old_owner identity state then
        do f <- frontier db identity;
        match frontier_head f with
        | Some request =>
            do generation <- next_generation generation;
            let state := Blocked (new_block request generation HostInterrupted) in
            Ok (generation, state, write db identity generation state)
        | None => Ok (generation, Idle, write db identity generation Idle)
        end
      else Ok (generation, state, db)
  | None =>
      do f <- frontier db identity;
      let '(generation, state) :=
        match pending_head f with
        | Some request =>
            (1, Blocked (new_block request 1 (match pending_interruption f with
                                              | Some cause => StreamInterrupted cause
                                              | None => ContinuityUnproven
                                              end)))
        | None => (0, Idle)
        end in
      Ok (generation, state, write db identity generation state)
  end.

Definition block_tx (db : Db) (identity : HostIdentity) (request : string) (reason : InferenceBlockReason)
    : result StoreError (InferenceBlock * Db) :=
  do '(generation, state, db) <- initialize db identity;
  do f <- frontier db identity;
  refuse negb (bool_decide (frontier_head f = Some request)) with StaleInferenceRecovery;
  let advance :=
    do generation <- next_generation generation;
    let block := new_block request generation reason in
    Ok (block, write db identity generation (Blocked block)) in
  match state with
  | Blocked block =>
      if bool_decide (block_request block = request) && bool_decide (block_reason block = reason)
      then Ok (block, db) else advance
  | _ => advance
  end.

Definition retry_delay (attempt : Z) : Z := if attempt =? 1 then 1000 else 3000.

Definition projection (state : Gate) : HostInferenceState :=
  match state with
  | AutoRetry _ block attempt _ => HostAutoRetry block attempt 2 (retry_delay attempt)
  | Idle => HostIdle
  | Running _ _ => HostRunning
  | Blocked block => HostBlocked block
  | Recovering _ operation block _ => HostRecovering operation block
  end.

(** The recursive query: the request and its ancestors. *)
Fixpoint lineage (fuel : nat) (db : Db) (id : string) : list string :=
  match fuel with
  | O => []
  | S fuel => id :: match requests db !! id ≫= parent_id with
                    | Some parent => lineage fuel db parent
                    | None => []
                    end
  end.

Definition parent_of (db : Db) (a b : string) : Prop := requests db !! a ≫= parent_id = Some b.

Lemma lineage_nsteps db n m id x : nsteps (parent_of db) n id x -> (n < m)%nat -> x ∈ lineage m db id.
Proof.
  intros H. revert m. induction H as [id|n id y x Hp _ IH]; intros [|m] Hm; simpl; try lia; [by left|].
  right. unfold parent_of in Hp. rewrite Hp. apply IH. lia.
Qed.

(** A shortest way to an ancestor passes every request at most once. *)
Lemma shortest_way db n id x :
  nsteps (parent_of db) n id x -> (forall k, nsteps (parent_of db) k id x -> n <= k)%nat ->
  exists l, length l = n /\ NoDup l /\
    forall a, a ∈ l -> is_Some (requests db !! a) /\ exists k, (k <= n)%nat /\ nsteps (parent_of db) k a x.
Proof.
  induction 1 as [id|n id y x Hp Hs IH]; intros Hmin.
  - exists []. split_and!; [done|constructor|by intros a ?%elem_of_nil].
  - destruct IH as (l & Hl & Hnd & Hin).
    { intros k Hk. apply le_S_n, Hmin. by eapply nsteps_l. }
    exists (id :: l). split_and!; [simpl; lia| |].
    + constructor; [|done]. intros Hid. destruct (Hin id Hid) as (_ & k & Hk & Hks). apply Hmin in Hks. lia.
    + intros a [->|Ha]%elem_of_cons.
      * split; [unfold parent_of in Hp; by destruct (requests db !! id)|]. exists (S n). split; [lia|by eapply nsteps_l].
      * destruct (Hin a Ha) as (? & k & Hk & Hks). split; [done|]. exists k. split; [lia|done].
Qed.

Lemma lineage_sound db n id x : x ∈ lineage n db id -> rtc (parent_of db) id x.
Proof.
  revert id. induction n as [|n IH]; intros id; simpl; [by intros ?%elem_of_nil|].
  intros [->|Hx]%elem_of_cons; [done|]. destruct (requests db !! id ≫= parent_id) as [y|] eqn:E.
  - eapply rtc_l; [exact E|by apply IH].
  - by apply elem_of_nil in Hx.
Qed.

(** The fuel of [affected] suffices: the lineage is the request and all its ancestors. *)
Lemma lineage_exact db id x : x ∈ lineage (S (size (requests db))) db id <-> rtc (parent_of db) id x.
Proof.
  split; [apply lineage_sound|]. intros [n Hn]%rtc_nsteps.
  destruct (decide (x ∈ lineage (S (size (requests db))) db id)) as [|Hout]; [done|]. exfalso.
  revert Hn. induction (lt_wf n) as [n _ IH]. intros Hn. destruct (shortest_way db n id x Hn) as (l & Hl & Hnd & Hin).
  { intros k Hk. destruct (decide (n <= k)%nat) as [|Hlt]; [done|]. exfalso. apply (IH k); [lia|done]. }
  apply Hout. eapply lineage_nsteps; [exact Hn|]. rewrite <- Hl.
  assert (length l <= size (requests db))%nat; [|lia].
  rewrite <- size_dom, <- (size_list_to_set (C := gset string) l) by done. apply subseteq_size.
  intros a Ha%elem_of_list_to_set. by apply elem_of_dom, Hin.
Qed.

(** The operations claimed along the lineage by this actor in this run or
    before it was embedded. *)
Definition affected (db : Db) (identity : HostIdentity) (head : string) : list OperationId :=
  let ids := lineage (S (size (requests db))) db head in
  claim_operation <$> List.filter (fun row =>
    bool_decide (claim_request row ∈ ids)
    && bool_decide (conversation_actor (origin (claim_operation row)) = actor identity)
    && match origin (claim_operation row) with
       | Embedded r _ _ => bool_decide (r = run identity)
       | Standalone _ _ => true
       end) (claims db).

(** A claim of the actor that an inference from [head] depends on. *)
Definition depends (db : Db) (identity : HostIdentity) (head : string) (row : ClaimRow) : Prop :=
  row ∈ claims db /\ rtc (parent_of db) head (claim_request row) /\
  conversation_actor (origin (claim_operation row)) = actor identity /\
  match origin (claim_operation row) with Embedded r _ _ => r = run identity | Standalone _ _ => True end.

Lemma affected_exact db identity head op :
  op ∈ affected db identity head <-> exists row, depends db identity head row /\ claim_operation row = op.
Proof.
  unfold affected, depends. rewrite list_elem_of_fmap. split.
  - intros (row & -> & Hin). apply list_elem_of_In, filter_In in Hin as [Hin Hb]. rewrite <- list_elem_of_In in Hin.
    exists row. rewrite !andb_true_iff, !bool_decide_eq_true, lineage_exact in Hb. destruct Hb as [[Hl Ha] Ho].
    split_and!; try done. destruct (origin (claim_operation row)); [done|by apply bool_decide_eq_true in Ho].
  - intros (row & (Hin & Hl & Ha & Ho) & <-). exists row. split; [done|]. apply list_elem_of_In, filter_In.
    rewrite <- list_elem_of_In, !andb_true_iff, !bool_decide_eq_true, lineage_exact. split_and!; try done.
    destruct (origin (claim_operation row)); [done|by apply bool_decide_eq_true].
Qed.

Definition cleanup_safe (evidence : OperationCleanupEvidence) : bool :=
  match evidence with
  | EvidenceNotStarted => true
  | EvidenceTerminal _ => true
  | Uncertain => false
  end.

Definition validate_cleanup (db : Db) (identity : HostIdentity) (head : string) : result StoreError unit :=
  fold_result (fun _ operation =>
    do evidence <- operation_cleanup_evidence db operation;
    guard cleanup_safe evidence else InferenceRecoveryUncertain operation;
    Ok tt) tt (affected db identity head).

(** The least undelivered envelope of the actor. *)
Definition first_envelope (db : Db) (identity : HostIdentity) : option Z :=
  foldr (fun e acc =>
    if bool_decide (recipient e.2 = actor identity) && bool_decide (delivered_request e.2 = None)
    then Some (match acc with Some m => Z.min e.1 m | None => e.1 end) else acc) None (map_to_list (envelopes db)).

Definition selected_snapshot (db : Db) (store_id : string) (identity : HostIdentity) (f : EmbeddedRoundFrontier)
    (generation : Z) (state : Gate) : EmbeddedRoundSnapshot :=
  {| snapshot_store_id := store_id; snapshot_identity := identity; snapshot_frontier := f;
     snapshot_inference := projection state; snapshot_generation := generation;
     snapshot_first_envelope := first_envelope db identity |}.

Definition expire_intents (db : Db) (identity : HostIdentity) (attempt : string) : Db :=
  db <| intents ::= fmap (fun row =>
    if bool_decide (intent_identity row = identity) && bool_decide (intent_attempt row = Some attempt)
    then {| intent_identity := intent_identity row; intent_attempt := None; intent_outcome := intent_outcome row |}
    else row) |>.

Definition refusal (error : StoreError) : option ContinuationRefusal :=
  match error with
  | ContextOpaqueModel | IncompleteProviderPrefix _ _ => Some ExactProjectionUnavailable
  | _ =>
      if is_inference_projection_refusal error then Some RefusedContinuityUnproven
      else match error with
           | InferenceRecoveryUncertain _ => Some UncertainEffects
           | StaleInferenceRecovery | InvalidEmbeddedBinding => Some Stale
           | ConflictingReplayOutcome _ | UnsupportedReplayOutcome _ => Some RefusedContinuityUnproven
           | _ => None
           end
  end.

Section owner.
Context `{ProjectionOwner}.
(** [self.store_id] *)
Variable store_id : string.

Definition grant_tx (db : Db) (identity : HostIdentity) (expected : InferenceBlock) (operation : string)
    (mode : RecoveryMode) : result StoreError (RecoveryProjectionReceipt * Db) :=
  do '(generation, state, db) <- initialize db identity;
  do block <- match state with
              | Blocked block | AutoRetry _ block _ _ => Ok block
              | _ => Err StaleInferenceRecovery
              end;
  do f <- frontier db identity;
  refuse negb (bool_decide (block = expected)) || negb (bool_decide (frontier_head f = Some (block_request block)))
    with StaleInferenceRecovery;
  do _ <- validate_cleanup db identity (block_request block);
  do '(resume_head, receipt, db) <- publish_recovery_projection db identity (block_request block) mode store_id;
  Ok (receipt, write db identity generation (Recovering (incarnation identity) operation block resume_head)).

Definition mark_continuation_refusal (db : Db) (identity : HostIdentity) (expected : InferenceBlock)
    (reason : ContinuationRefusal) : result StoreError (InferenceBlock * Db) :=
  do '(generation, state, db) <- initialize db identity;
  match state with
  | Blocked block | AutoRetry _ block _ _ =>
      if bool_decide (block = expected) && negb (bool_decide (continuation_refusal block = Some reason)) then
        do generation <- next_generation generation;
        let block := block <| continuation_refusal := Some reason |> <| block_generation := generation |> in
        Ok (block, write db identity generation (Blocked block))
      else Ok (block, db)
  | _ => Ok (expected, db)
  end.

(** A savepoint: on a classified refusal the rows are those before the grant. *)
Definition checked_exact_grant (db : Db) (identity : HostIdentity) (block : InferenceBlock) (operation : string)
    : result StoreError (InputContinuation * Db) :=
  match grant_tx db identity block operation Exact with
  | Ok (_, db') => Ok (Granted block, db')
  | Err error =>
      match refusal error with
      | None => Err error
      | Some reason =>
          do '(observed, db) <- mark_continuation_refusal db identity block reason;
          Ok (Refused observed reason, db)
      end
  end.

Definition admit_input_continuation_tx (db : Db) (identity : HostIdentity) (envelope : Z) (operation : string)
    : result StoreError (InputContinuation * Db) :=
  match intents db !! envelope with
  | Some row => Ok (intent_outcome row, db)
  | None =>
      do '(_, state, db) <- initialize db identity;
      do '(attempt, out, db) <-
        match state with
        | Running _ attempt => Ok (Some attempt, Queued, db)
        | Blocked block | AutoRetry _ block _ _ =>
            do '(out, db) <- checked_exact_grant db identity block operation; Ok (None, out, db)
        | Idle | Recovering _ _ _ _ => Ok (None, Queued, db)
        end;
      Ok (out, db <| intents ::= <[envelope := {| intent_identity := identity; intent_attempt := attempt;
                                                    intent_outcome := out |}]> |>)
  end.

(** ** Store operations: one transaction each *)

Definition embedded_inference_state (db : Db) (identity : HostIdentity) : result StoreError (HostInferenceState * Db) :=
  do '(_, state, db) <- initialize db identity; Ok (projection state, db).

Definition select_embedded_round (db : Db) (identity : HostIdentity) : result StoreError (EmbeddedRoundSnapshot * Db) :=
  do '(generation, state, db) <- initialize db identity;
  do f <- frontier db identity;
  Ok (selected_snapshot db store_id identity f generation state, db).

(** [fresh] is the attempt's new UUID. *)
Definition begin_inference (db : Db) (identity : HostIdentity) (expected : option string)
    (selected : option EmbeddedRoundSnapshot) (fresh : string) : result StoreError (InferenceAttempt * Db) :=
  do '(generation, state, db) <- initialize db identity;
  do f <- frontier db identity;
  refuse match selected with
         | Some selected => negb (bool_decide (selected_snapshot db store_id identity f generation state = selected))
         | None => false
         end with StaleInferenceRecovery;
  refuse negb (bool_decide (settled_head f = expected)) with StaleInferenceRecovery;
  do _ <- match state with
          | Idle => Ok tt
          | Blocked block | AutoRetry _ block _ _ => Err (InferenceBlocked block)
          | Running _ _ => Err InferenceRunning
          | Recovering i _ _ resume_head =>
              refuse negb (bool_decide (i = incarnation identity)) || negb (bool_decide (frontier_head f = Some resume_head))
                with StaleInferenceRecovery;
              validate_cleanup db identity resume_head
          end;
  Ok ({| attempt_identity := identity; attempt_id := fresh;
         recovering := match state with Recovering _ _ _ _ => true | _ => false end |},
      write db identity generation (Running (incarnation identity) fresh)).

Definition begin_embedded_inference (db : Db) (identity : HostIdentity) (expected : option string) (fresh : string)
    : result StoreError (InferenceAttempt * Db) := begin_inference db identity expected None fresh.

Definition begin_selected_embedded_inference (db : Db) (identity : HostIdentity) (snapshot : EmbeddedRoundSnapshot)
    (fresh : string) : result StoreError (InferenceAttempt * Db) :=
  begin_inference db identity (settled_head (snapshot_frontier snapshot)) (Some snapshot) fresh.

Definition finish_embedded_inference (db : Db) (attempt : InferenceAttempt) (disposition : InferenceAttemptDisposition)
    : result StoreError (unit * Db) :=
  let identity := attempt_identity attempt in
  do '(generation, state, db) <- initialize db identity;
  match state with
  | Running i current =>
      if bool_decide (i = incarnation identity) && bool_decide (current = attempt_id attempt) then
        let db := match disposition with
                  | DispositionCompleted => db <| retry_lineage ::= delete (key identity) |>
                  | DispositionCancelled => db
                  end in
        let db := expire_intents db identity (attempt_id attempt) in
        Ok (tt, write db identity generation Idle)
      else Err StaleInferenceRecovery
  | Blocked _ => Ok (tt, db)
  | _ => Err StaleInferenceRecovery
  end.

Definition block_embedded_inference (db : Db) (identity : HostIdentity) (request : string) (reason : InferenceBlockReason)
    : result StoreError (InferenceBlock * Db) :=
  do _ <- validate_cleanup db identity request;
  block_tx db identity request reason.

(** One identity of the start-up loop. *)
Definition recover_one (acc : Z * Db) (identity : HostIdentity) : result StoreError (Z * Db) :=
  let '(n, db) := acc in
  do '(_, state, db) <- initialize db identity;
  do f <- frontier db identity;
  if match state with
     | Running _ _ | Recovering _ _ _ _ | AutoRetry _ _ _ _ => true
     | Idle => bool_decide (is_Some (pending_head f))
     | Blocked _ => false
     end
  then
    match frontier_head f with
    | Some request => do '(_, db) <- block_tx db identity request HostInterrupted; Ok (n + 1, db)
    | None =>
        do '(generation, _) <- ok_or (read db identity) InvalidEmbeddedFrontier;
        Ok (n + 1, write db identity generation Idle)
    end
  else Ok (n, db).

Definition bound_identities (db : Db) (run_ : string) : list HostIdentity :=
  (fun b => {| run := run_; actor := b.1; incarnation := b.2.2 |})
    <$> List.filter (fun b => bool_decide (b.2.1 = run_)) (map_to_list (bindings db)).

Definition recover_embedded_inference_after_host_loss (db : Db) (run_ : string) : result StoreError (Z * Db) :=
  fold_result recover_one (0, db) (bound_identities db run_).

Definition continue_queued_input (db : Db) (attempt : InferenceAttempt) (fresh : string) : result StoreError (bool * Db) :=
  let identity := attempt_identity attempt in
  do '(_, state, db) <- initialize db identity;
  let eligible := existsb (fun e =>
    bool_decide (intent_identity e.2 = identity) && bool_decide (intent_attempt e.2 = Some (attempt_id attempt))
    && match envelopes db !! e.1 with
       | Some env => bool_decide (delivered_request env = None)
       | None => false
       end) (map_to_list (intents db)) in
  let db := expire_intents db identity (attempt_id attempt) in
  if eligible then
    match state with
    | Blocked block =>
        do '(out, db) <- checked_exact_grant db identity block fresh;
        Ok (match out with Granted _ => true | _ => false end, db)
    | _ => Ok (false, db)
    end
  else Ok (false, db).

(** Provider output or claims exist, or the attempt is not known interrupted. *)
Definition escaped (db : Db) (request : string) : bool :=
  bool_decide (request ∈ provider_items db)
  || existsb (fun row => bool_decide (claim_request row = request)) (claims db)
  || negb (bool_decide (provider_requests db !! request = Some "interrupted")).

Definition is_stream_interrupted (r : InferenceBlockReason) : bool :=
  match r with StreamInterrupted _ => true | _ => false end.

(** [now] is the current time in milliseconds. *)
Definition reserve_automatic_retry (db : Db) (identity : HostIdentity) (expected : InferenceBlock) (now : Z)
    : result StoreError (option AutomaticRetry * Db) :=
  do '(generation, state, db) <- initialize db identity;
  match state with
  | Blocked block =>
      if negb (bool_decide (block = expected)) || negb (is_stream_interrupted (block_reason block))
         || bool_decide (is_Some (continuation_refusal block)) then Ok (None, db)
      else if escaped db (block_request block) then Ok (None, db)
      else
        do _ <- validate_cleanup db identity (block_request block);
        let used := default 0 (retry_lineage db !! key identity) in
        if 2 <=? used then Ok (None, db)
        else
          match publish_recovery_projection db identity (block_request block) Exact store_id with
          | Err error =>
              match refusal error with
              | Some reason =>
                  do generation <- next_generation generation;
                  let refused := block <| continuation_refusal := Some reason |> <| block_generation := generation |> in
                  Ok (None, write db identity generation (Blocked refused))
              | None => Err error
              end
          | Ok _ =>
              let attempt := used + 1 in
              let delay_ms := retry_delay attempt in
              let db := db <| retry_lineage ::= <[key identity := attempt]> |> in
              Ok (Some {| retry_block := block; retry_attempt := attempt; retry_delay_ms := delay_ms |},
                  write db identity generation (AutoRetry (incarnation identity) block attempt (now + delay_ms)))
          end
  | _ => Ok (None, db)
  end.

Definition activate_automatic_retry (db : Db) (identity : HostIdentity) (retry : AutomaticRetry) (fresh : string)
    : result StoreError (bool * Db) :=
  do '(_, state, db) <- initialize db identity;
  let grant :=
    do '(out, db) <- checked_exact_grant db identity (retry_block retry) fresh;
    Ok (match out with Granted _ => true | _ => false end, db) in
  match state with
  | Recovering i _ block _ =>
      if bool_decide (i = incarnation identity) && bool_decide (block = retry_block retry) then Ok (true, db) else Ok (false, db)
  | AutoRetry i block attempt _ =>
      if bool_decide (i = incarnation identity) && bool_decide (block = retry_block retry)
         && bool_decide (attempt = retry_attempt retry) then grant else Ok (false, db)
  | _ => Ok (false, db)
  end.

Definition cancel_automatic_retry (db : Db) (identity : HostIdentity) (retry : AutomaticRetry) : result StoreError (unit * Db) :=
  do '(_, state, db) <- initialize db identity;
  if match state with
     | AutoRetry _ block attempt _ => bool_decide (block = retry_block retry) && bool_decide (attempt = retry_attempt retry)
     | Recovering i _ block _ => bool_decide (i = incarnation identity) && bool_decide (block = retry_block retry)
     | _ => false
     end
  then do '(_, db) <- block_tx db identity (block_request (retry_block retry)) HostInterrupted; Ok (tt, db)
  else Ok (tt, db).

(** The savepoint of [authorize_embedded_recovery]. *)
Definition authorize_grant (db : Db) (identity : HostIdentity) (operation : string) (block : InferenceBlock) (mode : RecoveryMode)
    : result StoreError (CommandReceiptOutcome * Db) :=
  do '(_, state, db) <- initialize db identity;
  guard (match state with Blocked _ => true | _ => false end) else StaleInferenceRecovery;
  do '(receipt, db) <- grant_tx db identity block operation mode;
  Ok (RecoveryAuthorized identity block mode receipt, db).

Definition authorize_embedded_recovery (db : Db) (identity : HostIdentity) (operation : string)
    : result StoreError (CommandReceipt * Db) :=
  do record <- ok_or (commands db !! (run identity, operation)) InvalidCommandState;
  match command record with
  | Recover target expected_block mode =>
      refuse negb (bool_decide (target = identity)) with ConflictingCommand;
      match receipt record with
      | Some receipt => Ok (receipt, db)
      | None =>
          guard bool_decide (command_state record = CmdDispatching) else InvalidCommandState;
          do '(state, out, db) <-
            match authorize_grant db identity operation expected_block mode with
            | Ok (out, db) => Ok (CmdRecoveryAuthorized, out, db)
            | Err error =>
                match refusal error with
                | Some reason =>
                    do db <- (if decide (reason = Stale) then Ok db
                              else do '(_, db) <- mark_continuation_refusal db identity expected_block reason; Ok db);
                    Ok (CmdRefused, ContinuationRefused identity expected_block reason, db)
                | None => Err error
                end
            end;
          let written := {| command_id := operation; outcome := out |} in
          (* the update hits the row that is still dispatching *)
          match commands db !! (run identity, operation) with
          | Some row =>
              guard bool_decide (command_state row = CmdDispatching) else InvalidCommandState;
              Ok (written, db <| commands ::= <[(run identity, operation) := row <| command_state := state |>
                                                                               <| receipt := Some written |>]> |>)
          | None => Err InvalidCommandState
          end
      end
  | _ => Err InvalidCommandState
  end.
End owner.
