(* ===== verification/GateRefinement.v ===== *)
(** The abstract gate machine and the refinement of [InferenceGate] to it.

    [gate_step] is what admission promises of one actor's gate row; every
    Store operation moves the row of its identity by such steps and leaves
    the other rows alone. The theorems then follow by rule induction. *)

From S2P Require Import Prelude Json Redaction Usage Observation Sse Failure StoreDb InferenceGate.

(** ** The abstract machine *)

(** The state holds the block: it waits for a grant of it. *)
Definition holds (s : Gate) (b : InferenceBlock) : Prop :=
  match s with
  | Blocked b' | AutoRetry _ b' _ _ => b' = b
  | _ => False
  end.

Definition carries (s : Gate) (b : InferenceBlock) : Prop :=
  match s with
  | Blocked b' | AutoRetry _ b' _ _ | Recovering _ _ b' _ => b' = b
  | _ => False
  end.

Definition owned (s : Gate) : Prop :=
  match s with
  | Running _ _ | Recovering _ _ _ _ | AutoRetry _ _ _ _ => True
  | _ => False
  end.

Definition may_begin (s : Gate) : Prop :=
  match s with
  | Idle | Recovering _ _ _ _ => True
  | _ => False
  end.

Abbreviation row := (option (Z * Gate)).

Inductive gate_step : row -> row -> Prop :=
| gs_init_idle : gate_step None (Some (0, Idle))
| gs_init_blocked b : block_generation b = 1 -> gate_step None (Some (1, Blocked b))
| gs_block g s b : block_generation b = g + 1 -> g + 1 <= u64_max -> gate_step (Some (g, s)) (Some (g + 1, Blocked b))
| gs_release g s : owned s -> gate_step (Some (g, s)) (Some (g, Idle))
| gs_grant g s b i op h : holds s b -> gate_step (Some (g, s)) (Some (g, Recovering i op b h))
| gs_begin g s i a : may_begin s -> gate_step (Some (g, s)) (Some (g, Running i a))
| gs_reserve g b i n due : 1 <= n <= 2 -> gate_step (Some (g, Blocked b)) (Some (g, AutoRetry i b n due)).

Abbreviation gate_steps := (rtc gate_step).

(** Generations are 64-bit, a carried block is of the row's generation, and a
    reserved retry is the first or the second. *)
Definition row_wf (r : row) : Prop :=
  match r with
  | None => True
  | Some (g, s) =>
      0 <= g <= u64_max /\ (forall b, carries s b -> block_generation b = g) /\
      match s with AutoRetry _ _ n _ => 1 <= n <= 2 | _ => True end
  end.

Lemma holds_carries s b : holds s b -> carries s b.
Proof. by destruct s. Qed.

Lemma gate_step_wf r r' : gate_step r r' -> row_wf r -> row_wf r'.
Proof.
  intros H. destruct H as [|b Hb|g s b Hb Hg|g s Ho|g s b i op h Hh|g s i a Hm|g b i n due Hn]; simpl; unfold u64_max in *.
  - intros _. split; [lia|done].
  - intros _. split; [lia|]. split; [by intros ? <-|done].
  - intros (Hr & _). split; [lia|]. split; [by intros ? <-|done].
  - intros (Hr & _). done.
  - intros (Hr & Hc & _). split; [done|]. split; [|done]. intros ? <-. by apply Hc, holds_carries.
  - intros (Hr & _). done.
  - intros (Hr & Hc & _). done.
Qed.

Lemma gate_steps_wf r r' : gate_steps r r' -> row_wf r -> row_wf r'.
Proof. induction 1; eauto using gate_step_wf. Qed.

(** Once past a grant, the row holds no block until its generation grows. *)
Definition past (g0 : Z) (r : row) : Prop :=
  match r with
  | None => False
  | Some (g, s) => g0 < g \/ (g = g0 /\ forall b, ~ holds s b)
  end.

Lemma gate_step_past g0 r r' : gate_step r r' -> past g0 r -> past g0 r'.
Proof.
  intros H. destruct H as [|b Hb|g s b Hb Hg|g s Ho|g s b i op h Hh|g s i a Hm|g b i n due Hn]; simpl; [done|done|..].
  all: intros [?|[-> Hno]]; [left; lia|].
  all: first [ left; lia | by destruct (Hno b) | right; split; [done|]; by intros ? ? ].
Qed.

Lemma gate_steps_past g0 r r' : gate_steps r r' -> past g0 r -> past g0 r'.
Proof. induction 1; eauto using gate_step_past. Qed.

(** ** Rows of a database *)

Definition gate_row (db : Db) (k : string * string) : row := inference db !! k.

(** At most two automatic retries are recorded of an interrupted lineage. *)
Definition budget (db : Db) : Prop := forall k n, retry_lineage db !! k = Some n -> 1 <= n <= 2.

(** The row of [k] moves by abstract steps, no other row changes and the retry
    budget is kept. *)
Definition moves (k : string * string) (db db' : Db) : Prop :=
  gate_steps (gate_row db k) (gate_row db' k) /\
  (forall k', k' <> k -> gate_row db' k' = gate_row db k') /\
  (budget db -> budget db').

#[export] Instance moves_refl k : Reflexive (moves k).
Proof. intros db. split; [apply rtc_refl|]. by split. Qed.

#[export] Instance moves_trans k : Transitive (moves k).
Proof.
  intros d1 d2 d3 (H1 & H1' & H1'') (H2 & H2' & H2''). split; [by etrans|]. split; [|by auto].
  intros k' Hk. by rewrite H2', H1'.
Qed.

#[export] Instance moves_preorder k : PreOrder (moves k).
Proof. split; apply _. Qed.

Lemma moves_budget k db db' :
  inference db' = inference db -> (budget db -> budget db') -> moves k db db'.
Proof. intros E Hb. unfold moves, gate_row. rewrite E. split; [apply rtc_refl|]. by split. Qed.

Lemma moves_same k db db' :
  inference db' = inference db -> retry_lineage db' = retry_lineage db -> moves k db db'.
Proof. intros E E'. apply moves_budget; [done|]. unfold budget. by rewrite E'. Qed.

Lemma moves_write db identity g s g' s' :
  read db identity = Some (g, s) -> gate_step (Some (g, s)) (Some (g', s')) ->
  moves (key identity) db (write db identity g' s').
Proof.
  intros Hr Hs. unfold moves, gate_row, write. upd_simpl. split; [|split; [|done]].
  - unfold read in Hr. rewrite Hr, lookup_insert_eq. by apply rtc_once.
  - intros k' Hk. by rewrite lookup_insert_ne.
Qed.

Lemma read_write db identity g s : read (write db identity g s) identity = Some (g, s).
Proof. unfold read, write. upd_simpl. apply lookup_insert_eq. Qed.

Lemma next_generation_Ok g g' : next_generation g = Ok g' -> g' = g + 1 /\ g + 1 <= u64_max.
Proof. unfold next_generation. intros H%ok_or_Ok%checked_add_u64_Some. done. Qed.

(** ** Each operation refines the machine *)

Lemma initialize_moves db identity g s db' :
  initialize db identity = Ok (g, s, db') ->
  moves (key identity) db db' /\ read db' identity = Some (g, s) /\ old_owner identity s = false /\
  matches_binding db identity = true /\ db' = db <| inference := inference db' |>.
Proof.
  unfold initialize. intros H. inv_ok. destruct (read db identity) as [[g0 s0]|] eqn:Hrd.
  - destruct (old_owner identity s0) eqn:Ho; inv_ok.
    + rename x into f. destruct (frontier_head f) as [request|]; inv_ok.
      * apply next_generation_Ok in Hr0 as [-> Hle]. injection H as <- <- <-.
        split; [by eapply moves_write, gs_block|]. rewrite read_write. by destruct db.
      * injection H as <- <- <-. split; [eapply moves_write; [done|]; apply gs_release; by destruct s0|].
        rewrite read_write. by destruct db.
    + injection H as <- <- <-. split; [done|]. split; [done|]. split; [done|]. by destruct db.
  - inv_ok. rename x into f. assert (forall g s, gate_step None (Some (g, s)) ->
      moves (key identity) db (write db identity g s)) as Hw.
    { intros g1 s1 Hs. unfold moves, gate_row, write. upd_simpl. split; [|split; [|done]].
      - unfold read in Hrd. rewrite Hrd, lookup_insert_eq. by apply rtc_once.
      - intros k' Hk. by rewrite lookup_insert_ne. }
    destruct (pending_head f); injection H as <- <- <-; rewrite read_write; (split; [apply Hw; by constructor|]);
      by destruct db.
Qed.

Lemma block_tx_moves db identity request reason b db' :
  block_tx db identity request reason = Ok (b, db') -> moves (key identity) db db'.
Proof.
  unfold block_tx. intros H. apply rbind_Ok in H as ([[g s] db1] & Hi & H). apply initialize_moves in Hi as (Hm & Hrd & _).
  inv_ok. assert (forall H', rbind (next_generation g) (fun generation =>
      Ok (new_block request generation reason,
          write db1 identity generation (Blocked (new_block request generation reason)))) = Ok (b, db') ->
      H' = tt -> moves (key identity) db db') as Hadv.
  { intros _ Ha _. inv_ok. apply next_generation_Ok in Hr0 as [-> Hle]. injection Ha as _ <-.
    etrans; [exact Hm|]. by eapply moves_write, gs_block. }
  destruct s; try by eapply (Hadv tt).
  destruct (_ && _); [|by eapply (Hadv tt)]. injection H as _ <-. done.
Qed.

Section owner.
Context `{ProjectionOwner}.
Variable store_id : string.

Lemma publish_rows db identity head mode head' receipt db' :
  publish_recovery_projection db identity head mode store_id = Ok (head', receipt, db') ->
  inference db' = inference db /\ retry_lineage db' = retry_lineage db /\ commands db' = commands db.
Proof.
  unfold publish_recovery_projection. intros Hp. inv_ok. destruct mode; inv_ok.
  - by injection Hp as _ _ <-.
  - by eapply publish_visible_rows.
Qed.

(** What a grant found and what it leaves. *)
Lemma grant_tx_spec db identity expected op mode receipt db' :
  grant_tx store_id db identity expected op mode = Ok (receipt, db') ->
  exists g s db1 h, initialize db identity = Ok (g, s, db1) /\ holds s expected /\
    validate_cleanup db1 identity (block_request expected) = Ok tt /\
    moves (key identity) db db' /\
    read db' identity = Some (g, Recovering (incarnation identity) op expected h).
Proof.
  unfold grant_tx. intros Hg. apply rbind_Ok in Hg as ([[g s] db1] & Hi & Hg).
  pose proof (initialize_moves _ _ _ _ _ Hi) as (Hm & Hrd & _). inv_ok. rename x into b, x0 into f.
  destruct x1. destruct x2 as [[h r] db2]. injection Hg as _ <-.
  apply orb_false_elim in Hg0 as [Hb _]. apply negb_false_iff, bool_decide_eq_true in Hb. subst b.
  apply publish_rows in Hr2 as (Hinf & Hrl & _). assert (holds s expected) as Hh by (destruct s; simpl in *; naive_solver).
  exists g, s, db1, h. split; [done|]. split; [done|]. split; [done|]. rewrite read_write. split; [|done].
  etrans; [exact Hm|]. assert (read db2 identity = Some (g, s)) as Hrd2 by (unfold read in *; by rewrite Hinf).
  etrans; [by apply moves_same|]. eapply moves_write; [done|]. by apply gs_grant.
Qed.

Lemma mark_refusal_moves db identity expected reason b db' :
  mark_continuation_refusal db identity expected reason = Ok (b, db') -> moves (key identity) db db'.
Proof.
  unfold mark_continuation_refusal. intros Hg. apply rbind_Ok in Hg as ([[g s] db1] & Hi & Hg).
  apply initialize_moves in Hi as (Hm & Hrd & _).
  assert (forall block, rbind (next_generation g) (fun generation =>
      Ok (block <| continuation_refusal := Some reason |> <| block_generation := generation |>,
          write db1 identity generation (Blocked (block <| continuation_refusal := Some reason |> <| block_generation := generation |>))))
        = Ok (b, db') -> moves (key identity) db db') as Hadv.
  { intros block Ha. inv_ok. apply next_generation_Ok in Hr as [-> Hle]. injection Ha as _ <-.
    etrans; [exact Hm|]. by eapply moves_write, gs_block. }
  destruct s; try (injection Hg as _ <-; done); (destruct (_ && _); [by eapply Hadv | injection Hg as _ <-; done]).
Qed.

Lemma checked_grant_moves db identity b op out db' :
  checked_exact_grant store_id db identity b op = Ok (out, db') -> moves (key identity) db db'.
Proof.
  unfold checked_exact_grant. destruct (grant_tx store_id db identity b op Exact) as [[r db1]|e] eqn:Hg.
  - intros [= <- <-]. by apply grant_tx_spec in Hg as (? & ? & ? & ? & _ & _ & _ & Hm & _).
  - destruct (refusal e); [|done]. intros Hr. inv_ok. destruct x as [b' db1]. injection Hr as _ <-.
    by eapply mark_refusal_moves.
Qed.

(** Open the [initialize] an operation starts with. *)
Ltac open_initialize Hop :=
  let g := fresh "g" in let s := fresh "s" in let db1 := fresh "db1" in
  let Hi := fresh "Hi" in let Hm := fresh "Hm" in let Hrd := fresh "Hrd" in
  apply rbind_Ok in Hop as ([[g s] db1] & Hi & Hop);
  pose proof (initialize_moves _ _ _ _ _ Hi) as (Hm & Hrd & _).

Lemma expire_intents_rows db identity attempt : inference (expire_intents db identity attempt) = inference db.
Proof. done. Qed.

Lemma begin_inference_spec db identity expected selected fresh a db' :
  begin_inference store_id db identity expected selected fresh = Ok (a, db') ->
  exists g s db1, initialize db identity = Ok (g, s, db1) /\ may_begin s /\
    db' = write db1 identity g (Running (incarnation identity) fresh) /\
    a = {| attempt_identity := identity; attempt_id := fresh;
           recovering := match s with Recovering _ _ _ _ => true | _ => false end |} /\
    (exists f, frontier db1 identity = Ok f /\ settled_head f = expected /\
      (forall i op b h, s = Recovering i op b h ->
        i = incarnation identity /\ frontier_head f = Some h /\ validate_cleanup db1 identity h = Ok tt)).
Proof.
  unfold begin_inference. intros Hop. apply rbind_Ok in Hop as ([[g s] db1] & Hi & Hop). inv_ok.
  injection Hop as <- <-. exists g, s, db1. rename x into f. apply negb_false_iff, bool_decide_eq_true in Hg0.
  split; [done|]. split; [by destruct s|]. split; [done|]. split; [done|]. exists f. split; [done|]. split; [done|].
  intros i op b h ->. inv_ok. apply orb_false_elim in Hg1 as [H1 H2].
  apply negb_false_iff, bool_decide_eq_true in H1, H2. by destruct x0.
Qed.

Lemma begin_inference_moves db identity expected selected fresh a db' :
  begin_inference store_id db identity expected selected fresh = Ok (a, db') -> moves (key identity) db db'.
Proof.
  intros (g & s & db1 & Hi & Hb & -> & _)%begin_inference_spec.
  apply initialize_moves in Hi as (Hm & Hrd & _). etrans; [exact Hm|]. by eapply moves_write, gs_begin.
Qed.

Lemma finish_moves db a d db' :
  finish_embedded_inference db a d = Ok (tt, db') -> moves (key (attempt_identity a)) db db'.
Proof.
  unfold finish_embedded_inference. intros Hop. open_initialize Hop. destruct s; try done.
  - destruct (_ && _); [|done]. injection Hop as <-. etrans; [exact Hm|].
    set (db2 := expire_intents _ _ _). assert (inference db2 = inference db1) as E by (by destruct d).
    transitivity db2.
    + apply moves_budget; [done|]. destruct d; [|done]. intros Hb k n Hk. apply (Hb k).
      unfold db2, expire_intents in Hk. upd_simpl. apply lookup_delete_Some in Hk. apply Hk.
    + eapply moves_write; [unfold read in *; by rewrite E|]. by apply gs_release.
  - by injection Hop as <-.
Qed.

Lemma recover_one_moves n db identity n' db' :
  recover_one (n, db) identity = Ok (n', db') -> moves (key identity) db db'.
Proof.
  unfold recover_one. intros Hop. open_initialize Hop. inv_ok. rename x into f.
  destruct (match s with Running _ _ | Recovering _ _ _ _ | AutoRetry _ _ _ _ => true | _ => _ end) eqn:E;
    [|by injection Hop as _ <-].
  destruct (frontier_head f) as [request|] eqn:Hh; inv_ok.
  - destruct x as [b db2]. injection Hop as _ <-. etrans; [exact Hm|]. by eapply block_tx_moves.
  - destruct x as [g' s']. injection Hop as _ <-. rewrite Hrd in Hr0. injection Hr0 as <- <-.
    etrans; [exact Hm|]. eapply moves_write; [done|]. apply gs_release. destruct s; try done.
    apply bool_decide_eq_true in E as [x Hx]. unfold frontier_head in Hh. by rewrite Hx in Hh.
Qed.

Lemma continue_queued_moves db a fresh r db' :
  continue_queued_input store_id db a fresh = Ok (r, db') -> moves (key (attempt_identity a)) db db'.
Proof.
  unfold continue_queued_input. intros Hop. open_initialize Hop.
  assert (moves (key (attempt_identity a)) db (expire_intents db1 (attempt_identity a) (attempt_id a))) as Hm'
    by (etrans; [exact Hm | by apply moves_same]).
  destruct (existsb _ _); [|by injection Hop as _ <-]. destruct s; try by injection Hop as _ <-.
  inv_ok. destruct x as [out db2]. injection Hop as _ <-. etrans; [exact Hm'|]. by eapply checked_grant_moves.
Qed.

Lemma admit_input_moves db identity envelope op out db' :
  admit_input_continuation_tx store_id db identity envelope op = Ok (out, db') -> moves (key identity) db db'.
Proof.
  unfold admit_input_continuation_tx. destruct (intents db !! envelope); [by intros [= _ <-]|].
  intros Hop. open_initialize Hop. inv_ok. destruct x as [[att o] db2]. injection Hop as _ <-.
  transitivity db2; [|by apply moves_same]. etrans; [exact Hm|].
  destruct s; try (injection Hr as _ _ <-; done); inv_ok; destruct x as [o' db3]; injection Hr as _ _ <-;
    by eapply checked_grant_moves.
Qed.

Lemma reserve_moves db identity expected now r db' :
  budget db ->
  reserve_automatic_retry store_id db identity expected now = Ok (r, db') -> moves (key identity) db db'.
Proof.
  intros Hbudget. unfold reserve_automatic_retry. intros Hop. open_initialize Hop.
  apply initialize_moves in Hi as (_ & _ & _ & _ & Hdb). destruct s; try by injection Hop as _ <-.
  destruct (_ || _); [by injection Hop as _ <-|]. destruct (escaped _ _); [by injection Hop as _ <-|]. inv_ok.
  assert (retry_lineage db1 = retry_lineage db) as Hrl by (by rewrite Hdb).
  destruct (2 <=? _) eqn:Hused; [by injection Hop as _ <-|].
  destruct (publish_recovery_projection _ _ _ _ _) as [p|e].
  - injection Hop as _ <-. etrans; [exact Hm|].
    assert (1 <= default 0 (retry_lineage db1 !! key identity) + 1 <= 2) as Hn.
    { rewrite Hrl in *. destruct (retry_lineage db !! key identity) as [n|] eqn:En; simpl in *; [|lia].
      specialize (Hbudget _ n En). lia. }
    set (db2 := db1 <| retry_lineage ::= _ |>). transitivity db2; [|eapply moves_write; [exact Hrd|]; by apply gs_reserve].
    apply moves_budget; [done|]. intros Hb k n Hk. subst db2. upd_simpl.
    apply lookup_insert_Some in Hk as [[_ <-]|[_ Hk]]; [done|]. by apply (Hb k).
  - destruct (refusal e); [|done]. inv_ok. apply next_generation_Ok in Hr0 as [-> Hle]. injection Hop as _ <-.
    etrans; [exact Hm|]. by eapply moves_write, gs_block.
Qed.

Lemma activate_moves db identity retry fresh r db' :
  activate_automatic_retry store_id db identity retry fresh = Ok (r, db') -> moves (key identity) db db'.
Proof.
  unfold activate_automatic_retry. intros Hop. open_initialize Hop. destruct s; try by injection Hop as _ <-.
  - destruct (_ && _ && _); [|by injection Hop as _ <-]. inv_ok. destruct x as [out db2]. injection Hop as _ <-.
    etrans; [exact Hm|]. by eapply checked_grant_moves.
  - destruct (_ && _); by injection Hop as _ <-.
Qed.

Lemma cancel_moves db identity retry db' :
  cancel_automatic_retry db identity retry = Ok (tt, db') -> moves (key identity) db db'.
Proof.
  unfold cancel_automatic_retry. intros Hop. open_initialize Hop.
  destruct (match s with AutoRetry _ _ _ _ => _ | _ => _ end); [|by injection Hop as <-].
  inv_ok. destruct x as [b db2]. injection Hop as <-. etrans; [exact Hm|]. by eapply block_tx_moves.
Qed.

Lemma authorize_grant_moves db identity op b mode out db' :
  authorize_grant store_id db identity op b mode = Ok (out, db') -> moves (key identity) db db'.
Proof.
  unfold authorize_grant. intros Hop. open_initialize Hop. inv_ok. destruct x as [r db2]. injection Hop as _ <-.
  etrans; [exact Hm|]. by apply grant_tx_spec in Hr as (? & ? & ? & ? & _ & _ & _ & ? & _).
Qed.

Lemma authorize_moves db identity op r db' :
  authorize_embedded_recovery store_id db identity op = Ok (r, db') -> moves (key identity) db db'.
Proof.
  unfold authorize_embedded_recovery. intros Hop. inv_ok. rename x into rec.
  destruct (command rec); try done. inv_ok. destruct (receipt rec); [by injection Hop as _ <-|]. inv_ok.
  destruct x as [[st out] db1]. assert (moves (key identity) db db1) as Hm.
  { destruct (authorize_grant _ _ _ _ _ _) as [[o d]|e] eqn:Ha.
    - injection Hr0 as _ _ <-. by eapply authorize_grant_moves.
    - destruct (refusal e) as [reason|]; [|done]. apply rbind_Ok in Hr0 as (db2 & Hr1 & Hr0).
      injection Hr0 as _ _ ->. case_decide; [by injection Hr1 as ->|].
      apply rbind_Ok in Hr1 as ([b db3] & Hr1 & Hr2). injection Hr2 as ->. by eapply mark_refusal_moves. }
  destruct (commands db1 !! _) as [row'|]; [|done]. inv_ok. injection Hop as _ <-.
  etrans; [exact Hm|]. by apply moves_same.
Qed.
End owner.
