(* ===== verification/GateClaims.v ===== *)
(** What durable inference admission guarantees, over every sequence of Store
    operations: the gate rows refine the abstract machine, a block is granted
    at most once, at most one attempt runs, and requests that repeat an
    admitted command observe its outcome. *)

From S2P Require Import Prelude Json Redaction Usage Observation Sse Failure StoreDb InferenceGate GateRefinement.

Section store.
Context `{ProjectionOwner}.
Variable store_id : string.

(** One committed transaction. [step_other] is any other component's write:
    it owns none of the admission rows. *)
Inductive store_step : Db -> Db -> Prop :=
| step_state db identity r db' : embedded_inference_state db identity = Ok (r, db') -> store_step db db'
| step_select db identity r db' : select_embedded_round store_id db identity = Ok (r, db') -> store_step db db'
| step_begin db identity expected selected fresh r db' :
    begin_inference store_id db identity expected selected fresh = Ok (r, db') -> store_step db db'
| step_finish db a d db' : finish_embedded_inference db a d = Ok (tt, db') -> store_step db db'
| step_block db identity request reason r db' :
    block_embedded_inference db identity request reason = Ok (r, db') -> store_step db db'
| step_host_loss db run_ n db' : recover_embedded_inference_after_host_loss db run_ = Ok (n, db') -> store_step db db'
| step_continue db a fresh r db' : continue_queued_input store_id db a fresh = Ok (r, db') -> store_step db db'
| step_admit db identity envelope op r db' :
    admit_input_continuation_tx store_id db identity envelope op = Ok (r, db') -> store_step db db'
| step_reserve db identity expected now r db' :
    reserve_automatic_retry store_id db identity expected now = Ok (r, db') -> store_step db db'
| step_activate db identity retry fresh r db' :
    activate_automatic_retry store_id db identity retry fresh = Ok (r, db') -> store_step db db'
| step_cancel db identity retry db' : cancel_automatic_retry db identity retry = Ok (tt, db') -> store_step db db'
| step_authorize db identity op r db' :
    authorize_embedded_recovery store_id db identity op = Ok (r, db') -> store_step db db'
| step_other db db' : inference db' = inference db -> retry_lineage db' = retry_lineage db -> store_step db db'.

(** Every row moves by abstract steps and the retry budget is kept. *)
Definition refines (db db' : Db) : Prop :=
  (forall k, gate_steps (gate_row db k) (gate_row db' k)) /\ (budget db -> budget db').

#[local] Instance refines_preorder : PreOrder refines.
Proof.
  split.
  - intros db. split; [intros k; apply rtc_refl|done].
  - intros d1 d2 d3 [H1 H1'] [H2 H2']. split; [intros k; etrans; [apply H1|apply H2]|auto].
Qed.

Lemma moves_refines k db db' : moves k db db' -> refines db db'.
Proof.
  intros (Hs & Ho & Hb). split; [|done]. intros k'. destruct (decide (k' = k)) as [->|Hk]; [done|].
  rewrite Ho by done. apply rtc_refl.
Qed.

Lemma initialize_refines db identity g s db' : initialize db identity = Ok (g, s, db') -> refines db db'.
Proof. intros (Hm & _)%initialize_moves. by eapply moves_refines. Qed.

Lemma host_loss_refines ids n db n' db' :
  fold_result recover_one (n, db) ids = Ok (n', db') -> refines db db'.
Proof.
  revert n db. induction ids as [|identity ids IH]; intros n db Hf; cbn [fold_result] in Hf.
  - by injection Hf as _ <-.
  - apply rbind_Ok in Hf as ([n1 db1] & H1 & Hf). transitivity db1; [|by eapply IH].
    by eapply moves_refines, recover_one_moves.
Qed.

Lemma store_step_refines db db' : store_step db db' -> budget db -> refines db db'.
Proof.
  intros Hs Hb. destruct Hs as [db id r db' Ho|db id r db' Ho|db id e se f r db' Ho|db a d db' Ho|db id q re r db' Ho
    |db r n db' Ho|db a f r db' Ho|db id en op r db' Ho|db id e now r db' Ho|db id rt f r db' Ho|db id rt db' Ho
    |db id op r db' Ho|db db' E1 E2].
  - unfold embedded_inference_state in Ho. apply rbind_Ok in Ho as ([[g s] d] & Hi & Ho). injection Ho as _ <-.
    by eapply initialize_refines.
  - unfold select_embedded_round in Ho. apply rbind_Ok in Ho as ([[g s] d] & Hi & Ho). inv_ok. injection Ho as _ <-.
    by eapply initialize_refines.
  - by eapply moves_refines, begin_inference_moves.
  - by eapply moves_refines, finish_moves.
  - unfold block_embedded_inference in Ho. inv_ok. by eapply moves_refines, block_tx_moves.
  - by eapply host_loss_refines.
  - by eapply moves_refines, continue_queued_moves.
  - by eapply moves_refines, admit_input_moves.
  - by eapply moves_refines, reserve_moves.
  - by eapply moves_refines, activate_moves.
  - by eapply moves_refines, cancel_moves.
  - by eapply moves_refines, authorize_moves.
  - by eapply (moves_refines ("", "")), moves_same.
Qed.

Lemma store_steps_refine db db' : rtc store_step db db' -> budget db -> refines db db'.
Proof.
  induction 1 as [db|d1 d2 d3 Hs _ IH]; intros Hb; [done|].
  pose proof (store_step_refines _ _ Hs Hb) as Hr. transitivity d2; [done|]. by apply IH, Hr.
Qed.

Lemma initialize_row db identity g s db' :
  initialize db identity = Ok (g, s, db') -> gate_row db' (key identity) = Some (g, s).
Proof. intros (_ & Hr & _)%initialize_moves. exact Hr. Qed.

(** Inference admission refines the abstract gate machine: over any sequence of committed Store operations, by any host incarnation and on any actors, each actor's gate row moves only by the machine's steps and the retry budget of two automatic retries per interrupted lineage is kept. *)
Theorem gate_refinement db db' k :
  rtc store_step db db' -> budget db -> gate_steps (gate_row db k) (gate_row db' k) /\ budget db'.
Proof. intros Hs Hb. pose proof (store_steps_refine _ _ Hs Hb) as [H1 H2]. auto. Qed.

(** From a store with no gate rows, every reachable gate is well formed: the block a gate carries is of the row's own generation, generations stay within 64 bits, and a reserved automatic retry is the first or the second. *)
Theorem gates_well_formed db db' k :
  inference db = ∅ -> retry_lineage db = ∅ -> rtc store_step db db' -> row_wf (gate_row db' k).
Proof.
  intros E1 E2 Hs. assert (budget db) as Hb by (intros k' n; by rewrite E2, lookup_empty).
  destruct (store_steps_refine _ _ Hs Hb) as [H1 _]. eapply gate_steps_wf; [apply H1|].
  unfold gate_row. by rewrite E1, lookup_empty.
Qed.

(** C1. A block is granted at most once: after recovery was granted for a block, no later grant of that block succeeds, whatever operations committed in between, under whichever command, mode and incarnation of the same actor it is asked for. *)
Theorem grant_once db identity block op mode receipt db1 db2 identity' op' mode' :
  row_wf (gate_row db (key identity)) -> budget db ->
  grant_tx store_id db identity block op mode = Ok (receipt, db1) ->
  rtc store_step db1 db2 -> key identity' = key identity ->
  exists e, grant_tx store_id db2 identity' block op' mode' = Err e.
Proof.
  intros Hwf Hb Hg Hs Hk. destruct (grant_tx store_id db2 identity' block op' mode') as [[r db3]|e] eqn:Hg2; [|eauto].
  exfalso. apply grant_tx_spec in Hg as (g & s & d1 & h & Hi & Hh & _ & Hm & Hrd).
  apply grant_tx_spec in Hg2 as (g2 & s2 & d2 & h2 & Hi2 & Hh2 & _).
  pose proof Hm as (Hsteps & _ & Hb1).
  assert (row_wf (gate_row db1 (key identity))) as Hwf1 by (by eapply gate_steps_wf).
  assert (gate_steps (gate_row db1 (key identity)) (Some (g2, s2))) as Hto.
  { pose proof (store_steps_refine _ _ Hs (Hb1 Hb)) as [Hr _]. etrans; [apply Hr|].
    rewrite <- Hk, <- (initialize_row _ _ _ _ _ Hi2). by apply initialize_refines in Hi2 as [Hr2 _]. }
  assert (past g (gate_row db1 (key identity))) as Hp.
  { unfold gate_row. unfold read in Hrd. rewrite Hrd. right. split; [done|]. by intros b Hbb. }
  pose proof (gate_steps_past _ _ _ Hto Hp) as [Hlt|[_ Hno]]; [|by eapply Hno].
  pose proof (gate_steps_wf _ _ Hto Hwf1) as (_ & Hc2 & _).
  unfold gate_row in Hwf1. unfold read in Hrd. rewrite Hrd in Hwf1. destruct Hwf1 as (_ & Hc1 & _).
  rewrite <- (Hc2 block (holds_carries _ _ Hh2)) in Hlt. rewrite (Hc1 block eq_refl) in Hlt. lia.
Qed.

Lemma validate_cleanup_Forall db identity head :
  validate_cleanup db identity head = Ok tt ->
  Forall (fun op => exists ev, operation_cleanup_evidence db op = Ok ev /\ cleanup_safe ev = true) (affected db identity head).
Proof.
  unfold validate_cleanup. generalize (affected db identity head). intros l. induction l as [|op l IH]; intros Hv.
  - constructor.
  - cbn [fold_result] in Hv. apply rbind_Ok in Hv as ([] & Hop & Hv). apply rbind_Ok in Hop as (ev & He & Hop).
    constructor; [|by apply IH]. exists ev. split; [done|]. by destruct (cleanup_safe ev).
Qed.

(** Every operation the actor claimed for [head] or an ancestor of it is
    known to have ended or never to have started. *)
Definition cleaned_up (db : Db) (identity : HostIdentity) (head : string) : Prop :=
  forall row, depends db identity head row ->
    exists ev, operation_cleanup_evidence db (claim_operation row) = Ok ev /\ cleanup_safe ev = true.

Lemma validate_cleanup_all db identity head : validate_cleanup db identity head = Ok tt -> cleaned_up db identity head.
Proof.
  intros Hv%validate_cleanup_Forall row Hrow. rewrite Forall_forall in Hv. apply Hv, affected_exact. eauto.
Qed.

(** A model round begins only with authority: the gate was idle, or held a recovery granted to this very incarnation for the request that is the current head, with every operation of the affected lineage confirmed finished or never started; and while the attempt runs, no other attempt of the incarnation begins. *)
Theorem begin_authorized db identity expected selected fresh a db' :
  begin_inference store_id db identity expected selected fresh = Ok (a, db') ->
  (exists g s db1 f, initialize db identity = Ok (g, s, db1) /\ frontier db1 identity = Ok f /\
     settled_head f = expected /\ recovering a = bool_decide (s <> Idle) /\
     (s = Idle \/
      exists op b h, s = Recovering (incarnation identity) op b h /\ frontier_head f = Some h /\
        cleaned_up db1 identity h)) /\
  (forall db2 expected' selected' fresh', gate_row db2 (key identity) = gate_row db' (key identity) ->
     exists e, begin_inference store_id db2 identity expected' selected' fresh' = Err e).
Proof.
  intros (g & s & db1 & Hi & Hm & -> & -> & (f & Hf & Hse & Hrec))%begin_inference_spec. split.
  - exists g, s, db1, f. split; [done|]. split; [done|]. split; [done|]. destruct s; try done.
    + split; [done|]. by left.
    + split; [done|]. right. destruct (Hrec _ _ _ _ eq_refl) as (-> & Hh & Hv).
      exists operation, block, resume_head. split; [done|]. split; [done|]. by apply validate_cleanup_all.
  - intros db2 e2 s2 f2 Hrow. destruct (begin_inference store_id db2 identity e2 s2 f2) as [[a2 db3]|e] eqn:Hb; [|eauto].
    exfalso. apply begin_inference_spec in Hb as (g2 & s' & db4 & Hi2 & Hm2 & _).
    unfold initialize in Hi2. inv_ok.
    assert (read db2 identity = Some (g, Running (incarnation identity) fresh)) as Hrd.
    { unfold gate_row in Hrow. unfold read. rewrite Hrow. unfold write. upd_simpl. apply lookup_insert_eq. }
    rewrite Hrd in Hi2. simpl in Hi2. rewrite bool_decide_eq_true_2 in Hi2 by done. simpl in Hi2.
    by injection Hi2 as _ <- _.
Qed.

(** An attempt is finished only by itself: finishing succeeds for the attempt the gate records as running, which releases the gate and, when the round completed, restores the retry budget, or after the gate was blocked, which changes nothing; a superseded attempt is refused. *)
Theorem finish_fenced db a d :
  match finish_embedded_inference db a d with
  | Ok (_, db') =>
      exists g s db1, initialize db (attempt_identity a) = Ok (g, s, db1) /\
        ((s = Running (incarnation (attempt_identity a)) (attempt_id a) /\
          gate_row db' (key (attempt_identity a)) = Some (g, Idle) /\
          retry_lineage db' = (if d is DispositionCompleted then delete (key (attempt_identity a)) (retry_lineage db)
                               else retry_lineage db)) \/
         ((exists b, s = Blocked b) /\ db' = db1))
  | Err e =>
      initialize db (attempt_identity a) = Err e \/
      e = StaleInferenceRecovery /\
      exists g s db1, initialize db (attempt_identity a) = Ok (g, s, db1) /\
        s <> Running (incarnation (attempt_identity a)) (attempt_id a) /\ forall b, s <> Blocked b
  end.
Proof.
  unfold finish_embedded_inference. destruct (initialize db (attempt_identity a)) as [[[g s] db1]|e] eqn:Hi; [|by left].
  pose proof (initialize_moves _ _ _ _ _ Hi) as (_ & _ & _ & _ & Hdb).
  assert (retry_lineage db1 = retry_lineage db) as Hrl by (by rewrite Hdb). cbn [rbind].
  destruct s as [|i b n due|i current|b|i op b h].
  - right. split; [done|]. by exists g, Idle, db1.
  - right. split; [done|]. by eexists _, _, _.
  - destruct (bool_decide (i = _) && bool_decide (current = _)) eqn:E.
    + apply andb_prop in E as [E1 E2]. apply bool_decide_eq_true in E1, E2. subst.
      eexists _, _, _. split; [done|]. left. split; [done|].
      unfold gate_row, write, expire_intents. destruct d; upd_simpl; rewrite lookup_insert_eq, <- ?Hrl; done.
    + right. split; [done|]. eexists _, _, _. split; [done|]. split; [|done]. intros [= -> ->].
      by rewrite !bool_decide_eq_true_2 in E.
  - eexists _, _, _. split; [done|]. right. split; [by eexists|done].
  - right. split; [done|]. by eexists _, _, _.
Qed.

(** Admitting the same input again observes the first admission: the retained outcome is returned and no row changes, so that one input grants at most one continuation. *)
Theorem admit_input_once db identity envelope op out db' identity' op' :
  admit_input_continuation_tx store_id db identity envelope op = Ok (out, db') ->
  admit_input_continuation_tx store_id db' identity' envelope op' = Ok (out, db').
Proof.
  unfold admit_input_continuation_tx. destruct (intents db !! envelope) as [row|] eqn:E.
  - intros [= <- <-]. by rewrite E.
  - intros Hop. apply rbind_Ok in Hop as ([[g s] d1] & Hi & Hop). apply rbind_Ok in Hop as ([[att o] d2] & Hr & Hop).
    injection Hop as <- <-. upd_simpl. by rewrite lookup_insert_eq.
Qed.

Lemma grant_commands db identity expected op mode r db' :
  grant_tx store_id db identity expected op mode = Ok (r, db') -> commands db' = commands db.
Proof.
  unfold grant_tx. intros Hg. apply rbind_Ok in Hg as ([[g s] d1] & Hi & Hg).
  apply initialize_moves in Hi as (_ & _ & _ & _ & Hdb). inv_ok. destruct x2 as [[h rc] d2].
  injection Hg as _ <-. apply publish_rows in Hr2 as (_ & _ & Hc). unfold write. upd_simpl. rewrite Hc, Hdb. done.
Qed.

Lemma mark_commands db identity expected reason b db' :
  mark_continuation_refusal db identity expected reason = Ok (b, db') -> commands db' = commands db.
Proof.
  unfold mark_continuation_refusal. intros Hg. apply rbind_Ok in Hg as ([[g s] d1] & Hi & Hg).
  apply initialize_moves in Hi as (_ & _ & _ & _ & Hdb).
  assert (commands d1 = commands db) as Hc by (by rewrite Hdb).
  destruct s; try (by injection Hg as _ <-); (destruct (_ && _); [|by injection Hg as _ <-]); inv_ok;
    by injection Hg as _ <-.
Qed.

(** A recovery command is answered once: asking again with the same operation returns the receipt of the first answer, authorisation or refusal, and changes nothing. *)
Theorem authorize_once db identity op r db' :
  authorize_embedded_recovery store_id db identity op = Ok (r, db') ->
  authorize_embedded_recovery store_id db' identity op = Ok (r, db').
Proof.
  unfold authorize_embedded_recovery at 1. intros Hop. apply rbind_Ok in Hop as (rec & Hrec & Hop).
  apply ok_or_Ok in Hrec. destruct (command rec) as [| | | |target eb mode] eqn:Hcmd; try done. inv_ok.
  destruct (receipt rec) as [rc|] eqn:Hrc.
  { injection Hop as <- <-. unfold authorize_embedded_recovery. rewrite Hrec. simpl. by rewrite Hcmd, Hg, Hrc. }
  inv_ok. destruct x as [[st out] d1]. assert (commands d1 = commands db) as Hc.
  { destruct (authorize_grant _ _ _ _ _ _) as [[o d]|e] eqn:Ha.
    - injection Hr as _ _ <-. unfold authorize_grant in Ha. apply rbind_Ok in Ha as ([[g s] d2] & Hi & Ha).
      apply initialize_moves in Hi as (_ & _ & _ & _ & Hdb). inv_ok. destruct x as [r' d3]. injection Ha as _ <-.
      apply grant_commands in Hr. rewrite Hr, Hdb. done.
    - destruct (refusal e) as [reason|]; [|done]. apply rbind_Ok in Hr as (d2 & Hr & Hr').
      injection Hr' as _ _ ->. case_decide; [by injection Hr as ->|].
      apply rbind_Ok in Hr as ([b d3] & Hr & Hr'). injection Hr' as ->. by apply mark_commands in Hr. }
  rewrite Hc, Hrec in Hop. inv_ok. injection Hop as <- <-.
  unfold authorize_embedded_recovery. upd_simpl. rewrite lookup_insert_eq. simpl. by rewrite Hcmd, Hg.
Qed.

(** An automatic retry is reserved only for a stream interruption that left nothing behind: no refusal was recorded, no provider item or claim escaped, the attempt is durably interrupted, every affected operation is cleaned up and the exact history projects; it is at most the second of its lineage, and it is recorded before any wait. *)
Theorem reserve_guarded db identity expected now retry db' :
  budget db ->
  reserve_automatic_retry store_id db identity expected now = Ok (Some retry, db') ->
  exists g db1, initialize db identity = Ok (g, Blocked expected, db1) /\ retry_block retry = expected /\
    is_stream_interrupted (block_reason expected) = true /\ continuation_refusal expected = None /\
    escaped db1 (block_request expected) = false /\
    cleaned_up db1 identity (block_request expected) /\
    (exists p, publish_recovery_projection db1 identity (block_request expected) Exact store_id = Ok p) /\
    1 <= retry_attempt retry <= 2 /\
    retry_lineage db' !! key identity = Some (retry_attempt retry) /\
    gate_row db' (key identity) =
      Some (g, AutoRetry (incarnation identity) expected (retry_attempt retry) (now + retry_delay (retry_attempt retry))).
Proof.
  intros Hb. unfold reserve_automatic_retry. intros Hop. apply rbind_Ok in Hop as ([[g s] d1] & Hi & Hop).
  pose proof (initialize_moves _ _ _ _ _ Hi) as (_ & _ & _ & _ & Hdb). destruct s as [| | |b|]; try done.
  destruct (_ || _ || _) eqn:E; [done|]. apply orb_false_elim in E as [[E1 E2]%orb_false_elim E3].
  apply negb_false_iff in E1, E2. apply bool_decide_eq_true in E1. subst b. apply bool_decide_eq_false in E3.
  destruct (escaped d1 _) eqn:He; [done|]. apply rbind_Ok in Hop as ([] & Hv & Hop).
  destruct (2 <=? _) eqn:Hu; [done|]. destruct (publish_recovery_projection _ _ _ _ _) as [p|e] eqn:Hp.
  - injection Hop as <- <-. exists g, d1. rewrite <- eq_None_not_Some in E3.
    assert (1 <= default 0 (retry_lineage d1 !! key identity) + 1 <= 2).
    { rewrite Hdb in *. destruct (retry_lineage db !! key identity) as [n|] eqn:En; upd_simpl; rewrite En in *; simpl in *; [|lia].
      specialize (Hb _ n En). lia. }
    do 5 (split; [done|]). split; [by apply validate_cleanup_all|]. split; [eauto|]. cbn [retry_attempt]. split; [done|].
    unfold gate_row, write. upd_simpl. by rewrite !lookup_insert_eq.
  - destruct (refusal e); [|done]. by inv_ok.
Qed.
End store.

(** ** Witnesses *)

#[local] Instance plain_owner : ProjectionOwner.
Proof.
  refine {| validate_identity := fun _ _ _ => Ok tt;
            preflight_target := fun _ _ _ => Ok tt;
            publish_visible := fun db _ head => Ok (head, RecoveryProjectionReceipt_default, db) |}.
  by intros ? ? ? ? ? ? [= _ _ <-].
Defined.

Lemma no_retries db : retry_lineage db = ∅ -> budget db.
Proof. intros E k n. by rewrite E, lookup_empty. Qed.

Definition host : HostIdentity := {| run := "r"; actor := "a"; incarnation := "i" |}.

Definition bound_db : Db := Db_empty <| bindings := {["a" := ("r", "i")]} |> <| agents := {["a" := None]} |>.

(** A pending request whose stream was interrupted. *)
Definition interrupted_db : Db :=
  bound_db
    <| requests := {["q" := {| parent_id := None; branch := "a"; embedded_run := Some "r";
                               embedded_incarnation := Some "i"; round_phase := Some "pending" |}]} |>
    <| model_interrupted := {["q" := ReadFailed]} |>
    <| provider_requests := {["q" := "interrupted"]} |>.

Definition interrupted_block : InferenceBlock := new_block "q" 1 (StreamInterrupted ReadFailed).

Lemma gate_refinement_witness :
  exists db', gate_steps None (gate_row db' ("r", "a")) /\ budget db'.
Proof.
  eexists. apply (gate_refinement "s" bound_db _ ("r", "a")).
  - apply rtc_once. eapply (step_begin "s" bound_db host None None "x"). vm_compute. reflexivity.
  - by apply no_retries.
Defined.

Lemma gates_well_formed_witness : exists db', row_wf (gate_row db' ("r", "a")).
Proof.
  eexists. eapply (gates_well_formed "s" interrupted_db); [reflexivity..|].
  apply rtc_once. eapply (step_reserve "s" interrupted_db host interrupted_block 5). vm_compute. reflexivity.
Defined.

Lemma grant_once_witness :
  exists db1 e, grant_tx "s" db1 host interrupted_block "op2" VisibleHistory = Err e.
Proof.
  eexists. eapply (grant_once "s" interrupted_db host interrupted_block "op1" Exact).
  - done.
  - by apply no_retries.
  - vm_compute. reflexivity.
  - apply rtc_refl.
  - reflexivity.
Defined.

Lemma begin_authorized_witness :
  exists db' e, begin_inference "s" db' host None None "y" = Err e.
Proof.
  eexists. eapply (begin_authorized "s" bound_db host None None "x"); [vm_compute; reflexivity|reflexivity].
Defined.

Lemma admit_input_once_witness :
  exists db', admit_input_continuation_tx "s" db' host 7 "op2" = Ok (Granted interrupted_block, db').
Proof. eexists. eapply (admit_input_once "s" interrupted_db host 7 "op1"). vm_compute. reflexivity. Defined.

Definition command_db : Db :=
  interrupted_db <| commands := {[("r", "op") := {| command := Recover host interrupted_block Exact;
                                                    command_state := CmdDispatching; receipt := None;
                                                    command_envelope := None; command_rowid := 1 |}]} |>.

Lemma authorize_once_witness :
  exists r db', authorize_embedded_recovery "s" db' host "op" = Ok (r, db').
Proof. do 2 eexists. eapply (authorize_once "s" command_db host "op"). vm_compute. reflexivity. Defined.

Lemma reserve_guarded_witness :
  exists g db1, initialize interrupted_db host = Ok (g, Blocked interrupted_block, db1).
Proof.
  edestruct (reserve_guarded "s" interrupted_db host interrupted_block 5) as (g & db1 & Hi & _).
  - by apply no_retries.
  - vm_compute. reflexivity.
  - eauto.
Defined.
