(* ===== verification/RequestQueue.v ===== *)
(** Admission of model requests: [RequestScheduler] of [turn.rs].

    Tickets wait in a vector and are admitted by priority while there is
    capacity. The theorems show that an admission takes the least waiting
    ticket, ties broken by arrival, and that capacity and identities hold in
    every reachable state. *)

From S2P Require Import Prelude.

Record RequestPriority := { depth : Z; operator_waiting : bool; prefix_warm : bool }.

Record RequestTicket := { id : string; agent : string; priority : RequestPriority }.

Record RequestScheduler := {
  capacity : nat;
  active : gset string;
  queued : list (Z * RequestTicket);
  sequence : Z
}.

#[export] Instance RequestScheduler_eta : Eta RequestScheduler := fun s =>
  {| capacity := capacity s; active := active s; queued := queued s; sequence := sequence s |}.

Inductive QueueError := ZeroCapacity | DuplicateCall.

Definition RequestScheduler_new (capacity : nat) : result QueueError RequestScheduler :=
  refuse (capacity =? 0)%nat with ZeroCapacity;
  Ok {| capacity := capacity; active := ∅; queued := []; sequence := 0 |}.

Definition enqueue (s : RequestScheduler) (ticket : RequestTicket) : result QueueError RequestScheduler :=
  refuse bool_decide (id ticket ∈ active s) || existsb (fun q => bool_decide (id q.2 = id ticket)) (queued s)
    with DuplicateCall;
  let s := s <| sequence ::= (fun n => wrapping_add_u64 n 1) |> in
  Ok (s <| queued ::= (fun q => q ++ [(sequence s, ticket)]) |>).

(** [bool::cmp]: [false] is less than [true]. *)
Definition bool_cmp (a b : bool) : comparison :=
  match a, b with
  | false, true => Lt
  | true, false => Gt
  | _, _ => Eq
  end.

(** [Ordering::then_with] *)
Definition then_with (a b : comparison) : comparison := match a with Eq => b | _ => a end.

Definition compare_priority (a b : Z * RequestTicket) : comparison :=
  then_with (depth (priority a.2) ?= depth (priority b.2))
    (then_with (bool_cmp (operator_waiting (priority b.2)) (operator_waiting (priority a.2)))
      (then_with (bool_cmp (prefix_warm (priority b.2)) (prefix_warm (priority a.2)))
        (a.1 ?= b.1))).

(** [enumerate().min_by(..)]: the first least entry with its index. *)
Fixpoint min_index (i : nat) (best : nat * (Z * RequestTicket)) (q : list (Z * RequestTicket)) : nat * (Z * RequestTicket) :=
  match q with
  | [] => best
  | t :: q' =>
      min_index (S i) (match compare_priority best.2 t with Gt => (i, t) | _ => best end) q'
  end.

(** [Vec::swap_remove]: the last element takes the place of the removed one. *)
Definition swap_remove {A} (i : nat) (q : list A) : list A :=
  match last q with
  | None => q
  | Some l => if (i =? pred (length q))%nat then take (pred (length q)) q
              else <[i := l]> (take (pred (length q)) q)
  end.

Definition next_ready (s : RequestScheduler) : option (RequestTicket * RequestScheduler) :=
  if (capacity s <=? size (active s))%nat then None
  else match queued s with
       | [] => None
       | t :: q =>
           let '(best, (_, ticket)) := min_index 1 (0%nat, t) q in
           Some (ticket, s <| queued := swap_remove best (queued s) |> <| active ::= (fun a => {[id ticket]} ∪ a) |>)
       end.

Definition finish (s : RequestScheduler) (request_id : string) : bool * RequestScheduler :=
  (bool_decide (request_id ∈ active s), s <| active ::= (fun a => a ∖ {[request_id]}) |>).

(** ** The priority is a strict order on arrivals *)

Definition before (a b : Z * RequestTicket) : Prop := compare_priority a b = Lt.

Lemma bool_cmp_flip a b : bool_cmp a b = CompOpp (bool_cmp b a).
Proof. by destruct a, b. Qed.

Lemma compare_priority_flip a b : compare_priority a b = CompOpp (compare_priority b a).
Proof.
  unfold compare_priority. rewrite (Z.compare_antisym (depth (priority b.2))),
    (bool_cmp_flip (operator_waiting (priority b.2))), (bool_cmp_flip (prefix_warm (priority b.2))),
    (Z.compare_antisym b.1). 
  destruct (depth _ ?= _), (bool_cmp (operator_waiting _) _), (bool_cmp (prefix_warm _) _), (_ ?= _); done.
Qed.

Lemma then_with_le a b : then_with a b <> Gt <-> a = Lt \/ (a = Eq /\ b <> Gt).
Proof. destruct a; simpl; naive_solver. Qed.

Lemma bool_cmp_Eq a b : bool_cmp a b = Eq -> a = b.
Proof. by destruct a, b. Qed.

Lemma compare_trans a b c :
  compare_priority a b <> Gt -> compare_priority b c <> Gt -> compare_priority a c <> Gt.
Proof.
  unfold compare_priority. rewrite !then_with_le, !Z.compare_lt_iff, !Z.compare_eq_iff.
  intros [H1|(H1 & H1')] [H2|(H2 & H2')]; [left; lia|left; lia|left; lia|].
  right. split; [lia|]. pose proof (Z.le_trans a.1 b.1 c.1) as Htr. unfold Z.le in Htr.
  destruct (operator_waiting (priority a.2)), (operator_waiting (priority b.2)),
    (operator_waiting (priority c.2)), (prefix_warm (priority a.2)), (prefix_warm (priority b.2)),
    (prefix_warm (priority c.2)); simpl in *; naive_solver.
Qed.

Lemma compare_Eq_arrival a b : compare_priority a b = Eq -> a.1 = b.1.
Proof.
  unfold compare_priority. destruct (depth _ ?= _), (bool_cmp (operator_waiting _) _), (bool_cmp (prefix_warm _) _);
    simpl; try done. apply Z.compare_eq.
Qed.

(** ** The least entry *)

Lemma min_index_spec i best q :
  let '(j, t) := min_index i best q in
  (best = (j, t) \/ exists k, j = (i + k)%nat /\ q !! k = Some t) /\
  compare_priority t best.2 <> Gt /\ Forall (fun u => compare_priority t u <> Gt) q.
Proof.
  revert i best. induction q as [|u q IH]; intros i best; cbn [min_index].
  - destruct best as [j t]. simpl. split; [by left|]. split; [|constructor].
    unfold compare_priority. rewrite !Z.compare_refl.
    by destruct (operator_waiting (priority t.2)), (prefix_warm (priority t.2)).
  - destruct (compare_priority best.2 u) eqn:E.
    + specialize (IH (S i) best). destruct (min_index (S i) best q) as [j t]. destruct IH as (Hw & Hb & Hq).
      split; [destruct Hw as [?|(k & -> & ?)]; [by left|right; exists (S k); split; [lia|done]]|].
      split; [done|]. constructor; [|done]. eapply compare_trans; [exact Hb|]. congruence.
    + specialize (IH (S i) best). destruct (min_index (S i) best q) as [j t]. destruct IH as (Hw & Hb & Hq).
      split; [destruct Hw as [?|(k & -> & ?)]; [by left|right; exists (S k); split; [lia|done]]|].
      split; [done|]. constructor; [|done]. eapply compare_trans; [exact Hb|]. congruence.
    + specialize (IH (S i) (i, u)). destruct (min_index (S i) (i, u) q) as [j t]. destruct IH as (Hw & Hb & Hq).
      split; [right; destruct Hw as [[= <- <-]|(k & -> & ?)];
              [exists 0%nat; split; [lia|done] | exists (S k); split; [lia|done]]|].
      split; [|by constructor]. eapply compare_trans; [exact Hb|]. simpl. rewrite compare_priority_flip, E. done.
Qed.

Lemma swap_remove_perm {A} i (q : list A) x : q !! i = Some x -> q ≡ₚ x :: swap_remove i q.
Proof.
  intros Hi. unfold swap_remove. destruct (last q) as [l|] eqn:El.
  - apply last_Some in El as [q' ->]. rewrite length_app. simpl. replace (pred (length q' + 1)) with (length q') by lia.
    rewrite take_app_length. destruct (Nat.eqb_spec i (length q')) as [->|Hne].
    + rewrite list_lookup_middle in Hi by done. injection Hi as ->. by rewrite Permutation_app_comm.
    + assert (i < length q')%nat as Hlt.
      { apply lookup_lt_Some in Hi. rewrite length_app in Hi. simpl in Hi. lia. }
      rewrite lookup_app_l in Hi by done. rewrite (Permutation_app_comm q' [l]). simpl.
      rewrite <- (take_drop_middle q' i x Hi) at 1. rewrite insert_take_drop by done.
      by rewrite <- !Permutation_middle, Permutation_swap.
  - apply last_None in El as ->. done.
Qed.

(** ** Reachable states *)

Inductive queue_step : RequestScheduler -> RequestScheduler -> Prop :=
| q_enqueue s t s' : enqueue s t = Ok s' -> queue_step s s'
| q_admit s t s' : next_ready s = Some (t, s') -> queue_step s s'
| q_finish s r : queue_step s (finish s r).2.

(** Capacity holds, waiting identities are distinct and not active, and each
    waiting ticket arrived at its own sequence number. *)
Definition queue_wf (s : RequestScheduler) : Prop :=
  (size (active s) <= capacity s)%nat /\
  NoDup ((fun q => id q.2) <$> queued s) /\
  Forall (fun q => id q.2 ∉ active s) (queued s) /\
  NoDup (queued s).*1 /\ Forall (fun q => 0 < q.1 <= sequence s) (queued s) /\ 0 <= sequence s.

Lemma next_ready_spec s t s' :
  next_ready s = Some (t, s') ->
  (size (active s) < capacity s)%nat /\
  exists n, queued s ≡ₚ (n, t) :: queued s' /\ Forall (fun q => compare_priority (n, t) q <> Gt) (queued s) /\
    active s' = {[id t]} ∪ active s /\ capacity s' = capacity s /\ sequence s' = sequence s.
Proof.
  unfold next_ready. destruct (Nat.leb_spec (capacity s) (size (active s))); [done|].
  destruct (queued s) as [|u q] eqn:Eq; [done|]. pose proof (min_index_spec 1 (0%nat, u) q) as Hm.
  destruct (min_index 1 (0%nat, u) q) as [j [n t']]. intros [= -> <-]. destruct Hm as (Hw & Hb & Hq).
  split; [done|]. exists n. upd_simpl. split; [|split; [by constructor|done]].
  apply swap_remove_perm. destruct Hw as [[= <- <-]|(k & -> & Hk)]; [done|]. by simpl.
Qed.

Lemma enqueue_wf s t s' : sequence s < u64_max -> enqueue s t = Ok s' -> queue_wf s -> queue_wf s'.
Proof.
  intros Hmax H (Hc & Hid & Hact & Hseq & Hle & H0). unfold enqueue in H. inv_ok. subst s'.
  apply orb_false_elim in Hg as [Ha Hq]. apply bool_decide_eq_false in Ha.
  unfold queue_wf. upd_simpl. rewrite wrapping_add_u64_small by (unfold u64_max in *; lia).
  rewrite !fmap_app. simpl. split; [done|]. split; [|split; [|split; [|split]]].
  - apply NoDup_app. split; [done|]. split; [|apply NoDup_singleton]. intros x Hx Hx'%list_elem_of_singleton. subst x.
    apply list_elem_of_fmap in Hx as (q & Hidq & Hin). 
    assert (existsb (fun q => bool_decide (id q.2 = id t)) (queued s) = true); [|congruence].
    apply existsb_exists. exists q. split; [by apply list_elem_of_In|]. by apply bool_decide_eq_true_2.
  - apply Forall_app. split; [done|]. by constructor.
  - apply NoDup_app. split; [done|]. split; [|apply NoDup_singleton]. intros x Hx Hx'%list_elem_of_singleton. subst x.
    apply list_elem_of_fmap in Hx as (q & Hsq & Hin). rewrite Forall_forall in Hle. specialize (Hle q Hin). lia.
  - apply Forall_app. split; [|by constructor; [simpl; lia|]].
    eapply Forall_impl; [exact Hle|]. simpl. intros q Hq'. lia.
  - lia.
Qed.

Lemma next_ready_wf s t s' : next_ready s = Some (t, s') -> queue_wf s -> queue_wf s'.
Proof.
  intros (Hlt & n & Hp & _ & Ha & Hc & Hs)%next_ready_spec (_ & Hid & Hact & Hseq & Hle & H0).
  rewrite Hp in Hid, Hact, Hseq, Hle. simpl in *.
  apply NoDup_cons in Hid as [Hid1 Hid], Hseq as [_ Hseq]. apply Forall_cons in Hact as [Hact1 Hact], Hle as [_ Hle].
  unfold queue_wf. rewrite Ha, Hc, Hs. split; [|split; [done|split; [|done]]].
  - rewrite size_union by set_solver. rewrite size_singleton. lia.
  - rewrite Forall_forall in Hact |- *. intros q Hq. specialize (Hact q Hq).
    assert (id q.2 <> id t); [|set_solver]. intros E. apply Hid1. rewrite <- E. by apply (list_elem_of_fmap_2 (fun q => id q.2)).
Qed.

Lemma finish_wf s r : queue_wf s -> queue_wf (finish s r).2.
Proof.
  intros (Hc & Hid & Hact & Hrest). unfold finish, queue_wf. upd_simpl. split; [|split; [done|split; [|done]]].
  - etrans; [|exact Hc]. apply subseteq_size. set_solver.
  - eapply Forall_impl; [exact Hact|]. simpl. set_solver.
Qed.

(** ** Claims *)

(** A request is admitted by the deterministic policy: when there is room and someone waits, the admitted ticket is the unique least of the waiting ones by depth, then operator waiting, then warm prefix, then arrival, exactly it leaves the queue, and it becomes active; otherwise nothing is admitted. *)
Theorem admission_by_priority s :
  queue_wf s ->
  match next_ready s with
  | None => (capacity s <= size (active s))%nat \/ queued s = []
  | Some (t, s') =>
      exists n, queued s ≡ₚ (n, t) :: queued s' /\ Forall (fun q => before (n, t) q) (queued s') /\
        active s' = {[id t]} ∪ active s /\ id t ∉ active s
  end.
Proof.
  intros Hwf. destruct (next_ready s) as [[t s']|] eqn:E.
  - apply next_ready_spec in E as (_ & n & Hp & Hmin & Ha & _). exists n. split; [done|].
    destruct Hwf as (_ & _ & Hact & Hseq & _). rewrite Hp in Hmin, Hact, Hseq. simpl in *.
    apply Forall_cons in Hmin as [_ Hmin], Hact as [Hact _]. apply NoDup_cons in Hseq as [Hn _].
    split; [|done]. rewrite Forall_forall in Hmin |- *. intros q Hq. specialize (Hmin q Hq). unfold before.
    destruct (compare_priority (n, t) q) eqn:Ec; [|done|done]. apply compare_Eq_arrival in Ec. simpl in Ec. subst n.
    destruct Hn. by apply list_elem_of_fmap_2.
  - unfold next_ready in E. destruct (Nat.leb_spec (capacity s) (size (active s))); [by left|].
    destruct (queued s); [by right|]. by destruct (min_index _ _ _) as [? [? ?]].
Qed.

Definition waiting : list (Z * RequestTicket) :=
  [(1, {| id := "a"; agent := "x"; priority := {| depth := 1; operator_waiting := false; prefix_warm := false |} |});
   (2, {| id := "b"; agent := "y"; priority := {| depth := 0; operator_waiting := false; prefix_warm := true |} |})].

Lemma admission_by_priority_witness :
  let s := {| capacity := 1; active := ∅; queued := waiting; sequence := 2 |} in
  match next_ready s with
  | Some (t, s') => exists n, queued s ≡ₚ (n, t) :: queued s'
  | None => False
  end.
Proof.
  cbv zeta. pose proof (admission_by_priority {| capacity := 1; active := ∅; queued := waiting; sequence := 2 |}) as H.
  destruct (next_ready _) as [[t s']|] eqn:E; [|vm_compute in E; discriminate].
  destruct H as (n & Hp & _); [|eauto]. clear E.
  repeat split; by_decide.
Defined.

(** Every reachable request queue is sound: at most the capacity is active, no identity waits twice or waits while active, and every waiting ticket has its own arrival number, as long as fewer than 2^64 requests arrived. *)
Theorem queue_invariant s s' :
  queue_wf s -> rtc (fun a b => queue_step a b /\ sequence a < u64_max) s s' -> queue_wf s'.
Proof.
  intros Hwf. induction 1 as [s|s1 s2 s3 [Hs Hlt] _ IH]; [done|]. apply IH.
  destruct Hs; [by eapply enqueue_wf | by eapply next_ready_wf | by apply finish_wf].
Qed.

Lemma queue_invariant_witness :
  exists s', queue_wf s' /\ size (active s') = 1%nat.
Proof.
  eexists. split.
  - eapply (queue_invariant {| capacity := 1; active := ∅; queued := waiting; sequence := 2 |}).
    + repeat split; by_decide.
    + apply rtc_once. split; [|reflexivity]. eapply q_admit. vm_compute. reflexivity.
  - vm_compute. reflexivity.
Defined.
