(* ===== verification/Jobs.v ===== *)
(** Tool jobs: [JobScheduler], [InvocationAdmission] and the spawned job task
    of [turn.rs], with the activation fence of [provider/activation.rs].

    The registry is shared under one mutex. Each critical section, from
    taking the lock to releasing it, is one function on the scheduler; code
    between sections is not atomic, so that the machine of [JobProofs]
    interleaves them freely. A job's spawned task is its program point
    [phase]; what providers and cancellation owners answer is an argument. *)

From S2P Require Import Prelude Json Redaction Usage Observation Sse Failure StoreDb.

(** ** Keys *)

#[export] Instance ConversationIdentity_countable : Countable ConversationIdentity.
Proof.
  apply (inj_countable'
    (fun c => match c with
              | Standalone s a => inl (s, a)
              | Embedded r a i => inr (r, a, i)
              end)
    (fun x => match x with
              | inl (s, a) => Standalone s a
              | inr (r, a, i) => Embedded r a i
              end)). by intros [].
Defined.

#[export] Instance OperationId_countable : Countable OperationId.
Proof.
  apply (inj_countable'
    (fun o => (origin o, op_request o, call o))
    (fun x => {| origin := x.1.1; op_request := x.1.2; call := x.2 |})). by intros [].
Defined.

(** ** Outputs and acknowledgments *)

Inductive JobOutput :=
| OutCompleted (r : result ToolFailure value)
| OutCancelled
| OutCancelledWithReceipt (r : result ToolFailure value)
| OutInterrupted
| OutCancellationUnconfirmed (detail : ToolFailure).

#[export] Instance JobOutput_eq_dec : EqDecision JobOutput.
Proof. solve_decision. Defined.

Inductive CancellationCause :=
| DeliveredInput | ProviderFailureCleanup | RoundFailureCleanup | ExplicitCancellation | Retirement | UnknownCause.

Inductive CancellationAcknowledgment :=
| AckStopped
| AckStoppedWithReceipt (r : result ToolFailure value)
| AckCompleted (r : result ToolFailure value)
| AckUnconfirmed (detail : ToolFailure).

Inductive JobError :=
| JobDuplicateCall
| UnknownCall
| UnavailablePublicationObservation
| OperationContextMismatch
| AgentVerbRequiresFunction
| FinalizeRequiresFunction
| ForeignRequestActivation
| RequestActivationClosed.

Inductive FollowupPublicationState :=
| PubAdmitted | JobRunning | TerminalUnpublished | Published | Unconfirmed.

(** ** Activations

    An activation is shared by reference between the host and the jobs of one
    request; it is an address of the activation store. *)
Record ActivationState := { act_scheduler : option nat; act_terminal : option OperationId }.

#[export] Instance ActivationState_eta : Eta ActivationState := fun a =>
  {| act_scheduler := act_scheduler a; act_terminal := act_terminal a |}.

Definition ActivationState_default : ActivationState := {| act_scheduler := None; act_terminal := None |}.

Inductive InvocationRole := Domain | ObservationRole | Settlement.

#[export] Instance InvocationRole_eq_dec : EqDecision InvocationRole.
Proof. solve_decision. Defined.

Inductive InvocationState := InvQueued | InvRunning | InvUnconfirmed.

Record PendingInvocation := { pending_operation : OperationId; pending_name : string; pending_state : InvocationState }.

Record InvocationTerminal := { terminal_operation : OperationId; terminal_activation : nat }.

Inductive InvocationAdmissionError :=
| AdmissionUnavailable | ForeignInvocation | NotSettlement | AlreadyTerminated | ClaimRefused (e : string).

(** ** Completions *)

Inductive ContextDisposition :=
| Unedited | ContextUnavailable | Draft (d : string) | Transaction (d : string) | Discarded (d : string) | Replay (e : string).

Record ProviderCompletion := {
  completion_format : OutputFormat;
  completion_output : JobOutput;
  full_success : bool;
  context : ContextDisposition;
  activation_terminal : option InvocationTerminal
}.

#[export] Instance ProviderCompletion_eta : Eta ProviderCompletion := fun c =>
  {| completion_format := completion_format c; completion_output := completion_output c;
     full_success := full_success c; context := context c; activation_terminal := activation_terminal c |}.

Definition completed_ok (o : JobOutput) : bool :=
  match o with OutCompleted (Ok _) => true | _ => false end.

Definition completed_result (o : JobOutput) : option (result ToolFailure value) :=
  match o with OutCompleted r => Some r | _ => None end.

(** ** Jobs *)

(** The program points of the spawned task; the flag is the held permit. A
    panic in provider code ends the task at [Panicked]. *)
Inductive TaskPhase :=
| AwaitLaunch
| CheckRetained
| AwaitPermit
| StartCheck (permit : bool)
| Calling (permit : bool)
| Recording (result_ : ProviderCompletion)
| Settling (output_ : JobOutput) (completion_ : option (result ToolFailure value))
| Notifying (output_ : JobOutput)
| Finished
| Panicked.

Record Job := {
  handle : string;
  job_name : string;
  activation : option nat;
  role : InvocationRole;
  started : bool;
  requires_publication : bool;
  holds_capacity : bool;
  cancellation_owner : bool;
  cancellation_intent : option CancellationCause;
  cancellation_ack : option CancellationAcknowledgment;
  claimants : gset ConversationIdentity;
  settled_claimants : list ConversationIdentity;
  job_output : option JobOutput;
  provider_completion : option (result ToolFailure value);
  job_completion : option ProviderCompletion;
  context_completion_required : bool;
  progress : list value;
  cancel_token : bool;
  settled : option JobOutput;
  published : bool;
  task : bool;
  launch : bool;
  phase : TaskPhase
}.

#[export] Instance Job_eta : Eta Job := fun j =>
  {| handle := handle j; job_name := job_name j; activation := activation j; role := role j; started := started j;
     requires_publication := requires_publication j; holds_capacity := holds_capacity j;
     cancellation_owner := cancellation_owner j; cancellation_intent := cancellation_intent j;
     cancellation_ack := cancellation_ack j; claimants := claimants j; settled_claimants := settled_claimants j;
     job_output := job_output j; provider_completion := provider_completion j; job_completion := job_completion j;
     context_completion_required := context_completion_required j; progress := progress j;
     cancel_token := cancel_token j; settled := settled j; published := published j; task := task j;
     launch := launch j; phase := phase j |}.

Record JobScheduler := {
  owner : nat;
  permits : nat;
  jobs : gmap OperationId Job;
  activations : gmap nat ActivationState;
  events : list OperationId;
  detached_store : string
}.

#[export] Instance JobScheduler_eta : Eta JobScheduler := fun s =>
  {| owner := owner s; permits := permits s; jobs := jobs s; activations := activations s; events := events s;
     detached_store := detached_store s |}.

Definition JobScheduler_new (owner_ capacity_ : nat) (store : string) : option JobScheduler :=
  if (capacity_ =? 0)%nat then None
  else Some {| owner := owner_; permits := capacity_; jobs := ∅; activations := ∅; events := []; detached_store := store |}.

Definition activation_state (s : JobScheduler) (a : nat) : ActivationState := default ActivationState_default (activations s !! a).

Definition is_closed (s : JobScheduler) (a : nat) : bool := bool_decide (is_Some (act_terminal (activation_state s a))).

(** [get_or_init] of the scheduler cell, then pointer equality. *)
Definition bind_scheduler (s : JobScheduler) (a : nat) : bool * JobScheduler :=
  match act_scheduler (activation_state s a) with
  | Some o => (bool_decide (o = owner s), s)
  | None => (true, s <| activations ::= <[a := activation_state s a <| act_scheduler := Some (owner s) |>]> |>)
  end.

Definition update_job (s : JobScheduler) (op : OperationId) (j : Job) : JobScheduler := s <| jobs ::= <[op := j]> |>.

Definition send_event (s : JobScheduler) (op : OperationId) : JobScheduler := s <| events ::= (fun e => e ++ [op]) |>.

(** ** Admission *)

(** What the provider snapshot says of the call. *)
Record Admission := {
  adm_operation : OperationId;
  adm_agent : string;
  adm_request : option string;
  adm_name : string;
  adm_custom : bool;
  adm_activation : option nat;
  adm_role : InvocationRole;
  adm_owner : bool;
  adm_holds_capacity : bool;
  adm_snapshot : option OperationId;
  adm_defer_launch : bool;
  adm_requires_publication : bool
}.

Definition snapshot_foreign (snapshot : option OperationId) (op : OperationId) : bool :=
  match snapshot with Some o => negb (bool_decide (o = op)) | None => false end.

Definition detached (s : JobScheduler) (op : OperationId) : bool :=
  match origin op with Standalone store _ => bool_decide (store = detached_store s) | _ => false end.

Definition new_job (a : Admission) (handle_ : string) : Job :=
  {| handle := handle_; job_name := adm_name a; activation := adm_activation a; role := adm_role a; started := false;
     requires_publication := adm_requires_publication a; holds_capacity := adm_holds_capacity a;
     cancellation_owner := adm_owner a; cancellation_intent := None; cancellation_ack := None;
     claimants := ∅; settled_claimants := []; job_output := None; provider_completion := None; job_completion := None;
     context_completion_required := false; progress := []; cancel_token := false; settled := None; published := false;
     task := true; launch := true; phase := AwaitLaunch |}.

(** The registration section: the job is inserted with its task, which waits
    for its launch gate. Binding the activation stays when a later check
    refuses. *)
Definition register (s : JobScheduler) (a : Admission) (handle_ : string) : JobScheduler * result JobError unit :=
  let op := adm_operation a in
  let insert s :=
    if bool_decide (is_Some (jobs s !! op)) then (s, Err JobDuplicateCall)
    else (update_job s op (new_job a handle_), Ok tt) in
  if snapshot_foreign (adm_snapshot a) op then (s, Err OperationContextMismatch)
  else if negb (detached s op)
          && (negb (bool_decide (conversation_actor (origin op) = adm_agent a))
              || negb (bool_decide (adm_request a = Some (op_request op)))) then (s, Err OperationContextMismatch)
  else if adm_custom a && is_agent_verb (adm_name a) then (s, Err AgentVerbRequiresFunction)
  else if adm_custom a && bool_decide (adm_name a = "finalize") then (s, Err FinalizeRequiresFunction)
  else match adm_activation a with
       | Some act =>
           let '(bound, s) := bind_scheduler s act in
           if negb bound then (s, Err ForeignRequestActivation)
           else if bool_decide (adm_role a = Domain) && is_closed s act then (s, Err RequestActivationClosed)
           else insert s
       | None => insert s
       end.

(** Dropping the receiver (the task is gone) makes the send fail. *)
Definition release_operation (s : JobScheduler) (op : OperationId) (snapshot : option OperationId)
    : JobScheduler * result JobError unit :=
  if snapshot_foreign snapshot op then (s, Err OperationContextMismatch)
  else match jobs s !! op with
       | None => (s, Err UnknownCall)
       | Some j =>
           if bool_decide (is_Some (job_output j)) then (s, Ok tt)
           else if negb (launch j) then (s, Err JobDuplicateCall)
           else
             let j := j <| launch := false |> <| context_completion_required := bool_decide (is_Some snapshot) |> in
             match phase j with
             | AwaitLaunch => (update_job s op (j <| phase := CheckRetained |>), Ok tt)
             | _ => (update_job s op j, Err UnknownCall)
             end
       end.

(** [admit_operation]: registration, then the launch unless deferred. *)
Definition admit_operation (s : JobScheduler) (a : Admission) (handle_ : string) : JobScheduler * result JobError string :=
  match register s a handle_ with
  | (s, Err e) => (s, Err e)
  | (s, Ok _) =>
      if adm_defer_launch a then (s, Ok handle_)
      else let '(s, r) := release_operation s (adm_operation a) (adm_snapshot a) in (s, rmap (fun _ => handle_) r)
  end.

(** ** The spawned task *)

Inductive Retained :=
| RetainedOutput (o : JobOutput)
| RetainedError (failure : ToolFailure)
| RetainedNone.

Definition give_back (permit : bool) (s : JobScheduler) : JobScheduler :=
  if permit then s <| permits ::= S |> else s.

Definition task_retained (s : JobScheduler) (op : OperationId) (j : Job) (r : Retained) : JobScheduler :=
  update_job s op (j <| phase := match r with
                                 | RetainedOutput o => Settling o (completed_result o)
                                 | RetainedError failure => Settling (OutCompleted (Err failure)) (Some (Err failure))
                                 | RetainedNone => AwaitPermit
                                 end |>).

Definition task_acquire (s : JobScheduler) (op : OperationId) (j : Job) : option JobScheduler :=
  if holds_capacity j then
    match permits s with
    | O => None
    | S n => Some (update_job (s <| permits := n |>) op (j <| phase := StartCheck true |>))
    end
  else Some (update_job s op (j <| phase := StartCheck false |>)).

Definition cancelled_before_start (s : JobScheduler) (j : Job) : bool :=
  bool_decide (is_Some (job_output j)) || cancel_token j
  || (bool_decide (role j = Domain) && match activation j with Some a => is_closed s a | None => false end).

Definition task_start (s : JobScheduler) (op : OperationId) (j : Job) (permit : bool) : JobScheduler :=
  if cancelled_before_start s j then
    give_back permit (update_job s op (j <| phase := Settling OutCancelled None |>))
  else update_job s op (j <| started := true |> <| phase := Calling permit |>).

Definition JOB_PROGRESS_CAPACITY : nat := 64.

Definition retain_progress (p : list value) (event : value) : list value :=
  (if (length p =? JOB_PROGRESS_CAPACITY)%nat then drop 1 p else p) ++ [event].

Definition task_progress (s : JobScheduler) (op : OperationId) (j : Job) (event : value) : JobScheduler :=
  update_job s op (j <| progress ::= (fun p => retain_progress p event) |>).

(** The provider's call returns; its permit is dropped. *)
Definition task_return (s : JobScheduler) (op : OperationId) (j : Job) (permit : bool) (r : ProviderCompletion) : JobScheduler :=
  give_back permit (update_job s op
    (j <| phase := Recording (r <| full_success ::= (fun b => b && completed_ok (completion_output r)) |>) |>)).

Definition task_record (s : JobScheduler) (op : OperationId) (j : Job) (r : ProviderCompletion) : JobScheduler :=
  let j := match job_completion j with
           | Some _ => j
           | None =>
               let ok := match job_output j with Some o => completed_ok o | None => true end in
               j <| job_completion := Some (r <| full_success ::= (fun b => b && ok) |>) |>
           end in
  update_job s op (j <| phase := Settling (completion_output r) (completed_result (completion_output r)) |>).

(** The first section of [settle]: an output already there stays. *)
Definition settle_job (j : Job) (output_ : JobOutput) (completion_ : option (result ToolFailure value)) : Job :=
  let j := match completion_ with Some c => j <| provider_completion := Some c |> | None => j end in
  match job_output j with
  | Some _ => j
  | None => j <| job_output := Some output_ |> <| settled_claimants := elements (claimants j) |> <| claimants := ∅ |>
  end.

Definition task_settle (s : JobScheduler) (op : OperationId) (j : Job) (output_ : JobOutput)
    (completion_ : option (result ToolFailure value)) : JobScheduler :=
  let j := settle_job j output_ completion_ in
  update_job s op (j <| phase := Notifying (default output_ (job_output j)) |>).

(** The second section of [settle] and the settlement event. *)
Definition task_notify (s : JobScheduler) (op : OperationId) (j : Job) (output_ : JobOutput) : JobScheduler :=
  send_event (update_job s op (j <| settled := Some output_ |> <| phase := Finished |>)) op.

Definition held_permit (p : TaskPhase) : bool :=
  match p with StartCheck b | Calling b => b | _ => false end.

(** [task.abort()]: the future is dropped with what it holds. *)
Definition task_abort (s : JobScheduler) (op : OperationId) (j : Job) : JobScheduler :=
  give_back (held_permit (phase j)) (update_job s op (j <| phase := Finished |>)).

(** Provider code panics: the runtime drops the task with what it holds. *)
Definition task_panic (s : JobScheduler) (op : OperationId) (j : Job) : JobScheduler :=
  give_back (held_permit (phase j)) (update_job s op (j <| phase := Panicked |>)).

(** ** Claims *)

Definition visible_output (j : Job) : option JobOutput :=
  if requires_publication j && negb (published j) then None else job_output j.

Definition claim_exact (s : JobScheduler) (op : OperationId) (claimant : ConversationIdentity)
    : result JobError (option JobOutput * JobScheduler) :=
  do j <- ok_or (jobs s !! op) UnknownCall;
  match (if negb (requires_publication j) || published j then job_output j else None) with
  | Some o => Ok (Some o, s)
  | None => Ok (None, update_job s op (j <| claimants ::= (fun c => {[claimant]} ∪ c) |>))
  end.

Definition fork_claim_exact (s : JobScheduler) (op : OperationId) (claimant : ConversationIdentity) (inherit : bool)
    : result JobError (option JobOutput * JobScheduler) :=
  if inherit then claim_exact s op claimant
  else do _ <- ok_or (jobs s !! op) UnknownCall; Ok (Some OutInterrupted, s).

Definition publication_observation (j : Job) : result JobError FollowupPublicationState :=
  match job_output j with
  | Some (OutCancellationUnconfirmed _) | Some OutInterrupted => Ok Unconfirmed
  | Some _ => Ok (if published j then Published else TerminalUnpublished)
  | None =>
      guard task j else UnavailablePublicationObservation;
      match phase j with
      | Finished | Panicked => Ok Unconfirmed
      | _ => Ok (if started j then JobRunning else PubAdmitted)
      end
  end.

Definition fork_owned_attachment (s : JobScheduler) (op : OperationId) (claimant : ConversationIdentity)
    : result JobError (option JobOutput * option FollowupPublicationState * JobScheduler) :=
  do j <- ok_or (jobs s !! op) UnknownCall;
  do publication <-
    (if negb (bool_decide (origin op = claimant)) && requires_publication j
     then do st <- publication_observation j; Ok (Some st) else Ok None);
  let settlement := if negb (requires_publication j) || published j then job_output j else None in
  match settlement with
  | Some _ => Ok (settlement, publication, s)
  | None => Ok (settlement, publication, update_job s op (j <| claimants ::= (fun c => {[claimant]} ∪ c) |>))
  end.

Definition output (s : JobScheduler) (op : OperationId) : result JobError (option JobOutput) :=
  do j <- ok_or (jobs s !! op) UnknownCall;
  Ok (if requires_publication j && negb (published j) then None else job_output j).

Definition outputs_in_operation_order (s : JobScheduler) (ops : list OperationId) : result JobError (list (OperationId * JobOutput)) :=
  fold_result (fun acc op => do o <- output s op; Ok (acc ++ option_list ((fun o => (op, o)) <$> o))) [] ops.

Definition mark_output_committed (s : JobScheduler) (op : OperationId) : result JobError JobScheduler :=
  do j <- ok_or (jobs s !! op) UnknownCall;
  guard bool_decide (is_Some (job_output j)) else UnknownCall;
  if published j then Ok s
  else
    let s := update_job s op (j <| settled_claimants ::= (fun l => l ++ elements (claimants j)) |>
                                <| claimants := ∅ |> <| published := true |>) in
    Ok (if requires_publication j then send_event s op else s).

(** ** Cancellation *)

(** The section that admits the request; the first cause is the intent. *)
Definition cancel_request (s : JobScheduler) (op : OperationId) (cause : CancellationCause)
    : result JobError (option (bool * CancellationCause) * JobScheduler) :=
  do j <- ok_or (jobs s !! op) UnknownCall;
  if bool_decide (is_Some (job_output j)) then Ok (None, s)
  else
    let intent := default cause (cancellation_intent j) in
    Ok (Some (started j && cancellation_owner j, intent),
        update_job s op (j <| cancellation_intent := Some intent |> <| cancel_token := true |>)).

Definition ack_output (ack : CancellationAcknowledgment) : JobOutput :=
  match ack with
  | AckStopped => OutCancelled
  | AckStoppedWithReceipt r => OutCancelledWithReceipt r
  | AckCompleted r => OutCompleted r
  | AckUnconfirmed detail => OutCancellationUnconfirmed detail
  end.

Definition ack_stopped (ack : CancellationAcknowledgment) : bool :=
  match ack with AckStopped | AckStoppedWithReceipt _ => true | _ => false end.

Definition discard_failed (c : ProviderCompletion) : ProviderCompletion :=
  if full_success c then c
  else match context c with
       | Transaction d => c <| context := Discarded d |>
       | _ => c
       end.

(** The completion retained for an owner's acknowledgment; [projected] is what
    the completion authority answers. *)
Definition ack_completion (j : Job) (ack : CancellationAcknowledgment) (projected : option ProviderCompletion)
    : option ProviderCompletion :=
  match ack with
  | AckUnconfirmed _ => None
  | _ =>
      let o := ack_output ack in
      let retained := match job_completion j with
                      | Some c => if bool_decide (completion_output c = o) then Some c else None
                      | None => None
                      end in
      let c := match retained, projected with
               | Some c, _ => c
               | None, Some c => c
               | None, None =>
                   {| completion_format := LegacyOpaque; completion_output := o;
                      full_success := negb (context_completion_required j) && completed_ok o;
                      context := if context_completion_required j then ContextUnavailable else Unedited;
                      activation_terminal := None |}
               end in
      Some (discard_failed (c <| completion_output := o |> <| full_success ::= (fun b => b && completed_ok o) |>))
  end.

(** The section after the owner answered; a stopped task's handle is taken and
    aborted afterwards. *)
Definition cancel_acknowledged (s : JobScheduler) (op : OperationId) (ack : CancellationAcknowledgment)
    (completion_ : option ProviderCompletion) : result JobError (option JobOutput * JobScheduler) :=
  do j <- ok_or (jobs s !! op) UnknownCall;
  let j := j <| cancellation_ack := Some ack |> in
  if bool_decide (is_Some (job_output j)) then Ok (None, update_job s op j)
  else
    let j := match completion_ with Some c => j <| job_completion := Some c |> | None => j end in
    let o := ack_output ack in
    let j := j <| job_output := Some o |> <| settled_claimants := elements (claimants j) |> <| claimants := ∅ |>
               <| settled := Some o |> in
    Ok (Some o, update_job s op (if ack_stopped ack then j <| task := false |> else j)).

(** The section of a job without a live owner. *)
Definition cancel_unowned (s : JobScheduler) (op : OperationId) : result JobError (option JobOutput * JobScheduler) :=
  do j <- ok_or (jobs s !! op) UnknownCall;
  if bool_decide (is_Some (job_output j)) then Ok (None, s)
  else
    Ok (Some OutCancelled,
        update_job s op (j <| job_output := Some OutCancelled |> <| settled_claimants := elements (claimants j) |>
                           <| claimants := ∅ |> <| settled := Some OutCancelled |> <| task := false |>)).

(** The completion recorded after an unowned cancellation. *)
Definition cancel_project (s : JobScheduler) (op : OperationId) (projected : ProviderCompletion) : result JobError JobScheduler :=
  do j <- ok_or (jobs s !! op) UnknownCall;
  Ok (update_job s op (j <| job_completion := Some (discard_failed
    (projected <| completion_output := OutCancelled |> <| full_success := false |>)) |>)).

(** [retry_cancellation]: [None] asks the owner again. *)
Definition retry_decision (j : Job) : option (option CancellationAcknowledgment) :=
  match provider_completion j, cancellation_ack j with
  | Some (Ok _), ack => Some ack
  | _, None => Some None
  | _, Some (AckUnconfirmed _) => None
  | _, Some ack => Some (Some ack)
  end.

Definition retry_acknowledged (s : JobScheduler) (op : OperationId) (ack : CancellationAcknowledgment) : result JobError JobScheduler :=
  do j <- ok_or (jobs s !! op) UnknownCall;
  let j := j <| cancellation_ack := Some ack |> in
  Ok (update_job s op (if ack_stopped ack && bool_decide (provider_completion j = None) then j <| task := false |> else j)).

(** ** Settlement of an activation *)

Definition pending_of (a : nat) (entry : OperationId * Job) : option PendingInvocation :=
  let '(op, j) := entry in
  if negb (bool_decide (activation j = Some a)) || negb (bool_decide (role j = Domain)) then None
  else
    match job_output j with
    | None => Some {| pending_operation := op; pending_name := job_name j;
                      pending_state := if started j then InvRunning else InvQueued |}
    | Some (OutCancellationUnconfirmed _) | Some OutInterrupted =>
        Some {| pending_operation := op; pending_name := job_name j; pending_state := InvUnconfirmed |}
    | Some _ => None
    end.

(** The order of [(request, call)]. *)
Definition inventory_le (p q : PendingInvocation) : Prop :=
  let '(x, y) := (pending_operation p, pending_operation q) in
  str_lt (op_request x) (op_request y) \/ (op_request x = op_request y /\ ~ str_lt (call y) (call x)).

#[export] Instance inventory_le_dec p q : Decision (inventory_le p q).
Proof. unfold inventory_le, str_lt. apply _. Defined.

Definition pending_inventory (s : JobScheduler) (a : nat) : list PendingInvocation :=
  merge_sort inventory_le (omap (pending_of a) (map_to_list (jobs s))).

(** [claim] is the host's callback on the inventory; it holds the lock. *)
Definition try_admit_terminal (s : JobScheduler) (op : OperationId) (a : nat)
    (claim : list PendingInvocation -> result string unit)
    : result InvocationAdmissionError (InvocationTerminal * JobScheduler) :=
  do own <- ok_or (jobs s !! op) ForeignInvocation;
  refuse negb (bool_decide (activation own = Some a)) || negb (started own) || bool_decide (is_Some (job_output own))
    with ForeignInvocation;
  guard bool_decide (role own = Settlement) else NotSettlement;
  refuse is_closed s a with AlreadyTerminated;
  do _ <- map_err ClaimRefused (claim (pending_inventory s a));
  Ok ({| terminal_operation := op; terminal_activation := a |},
      s <| activations ::= <[a := activation_state s a <| act_terminal := Some op |>]> |>).

(** ** Observation of a completion *)

Definition terminal_matches (s : JobScheduler) (t : InvocationTerminal) (op : OperationId) (a : nat) : bool :=
  bool_decide (terminal_operation t = op) && bool_decide (terminal_activation t = a)
  && bool_decide (act_terminal (activation_state s a) = Some op).

(** [project] is the completion authority's answer to an output. *)
Definition invocation_completion (s : JobScheduler) (op : OperationId) (project : JobOutput -> option ProviderCompletion)
    : result JobError (option ProviderCompletion) :=
  do j <- ok_or (jobs s !! op) UnknownCall;
  let c := match job_output j with
           | Some o => match job_completion j with
                       | Some c => if bool_decide (completion_output c = o) then Some c else project o
                       | None => project o
                       end
           | None => job_completion j
           end in
  Ok ((fun c => match activation_terminal c with
                | Some t =>
                    if match activation j with Some a => terminal_matches s t op a | None => false end then c
                    else c <| activation_terminal := None |> <| full_success := false |>
                | None => c
                end) <$> c).
