(* ===== verification/JobProofs.v ===== *)
(** The registry of tool jobs under every interleaving.

    [job_step] lets the critical sections of [Jobs] run in any order: host
    calls, the spawned tasks and cancellation race as they do under the mutex.
    Every step changes one job by a [job_move], registers a fresh job, or acts
    on activations only ([step_cases]); the theorems follow from that. *)

From S2P Require Import Prelude Json Redaction Usage Observation Sse Failure StoreDb Jobs.

(** ** The machine *)

(** Where a task runs provider code. *)
Definition provider_code (p : TaskPhase) : bool :=
  match p with CheckRetained | Calling _ => true | _ => false end.

Inductive job_step (s : JobScheduler) : JobScheduler -> Prop :=
| js_register a h s' r : register s a h = (s', r) -> job_step s s'
| js_release op snapshot s' r : release_operation s op snapshot = (s', r) -> job_step s s'
| js_retained op j r : jobs s !! op = Some j -> phase j = CheckRetained -> job_step s (task_retained s op j r)
| js_acquire op j s' :
    jobs s !! op = Some j -> phase j = AwaitPermit -> task_acquire s op j = Some s' -> job_step s s'
| js_start op j p : jobs s !! op = Some j -> phase j = StartCheck p -> job_step s (task_start s op j p)
| js_progress op j p event : jobs s !! op = Some j -> phase j = Calling p -> job_step s (task_progress s op j event)
| js_return op j p r : jobs s !! op = Some j -> phase j = Calling p -> job_step s (task_return s op j p r)
| js_record op j r : jobs s !! op = Some j -> phase j = Recording r -> job_step s (task_record s op j r)
| js_settle op j o c : jobs s !! op = Some j -> phase j = Settling o c -> job_step s (task_settle s op j o c)
| js_notify op j o : jobs s !! op = Some j -> phase j = Notifying o -> job_step s (task_notify s op j o)
| js_abort op j : jobs s !! op = Some j -> task j = false -> job_step s (task_abort s op j)
| js_panic op j : jobs s !! op = Some j -> provider_code (phase j) = true -> job_step s (task_panic s op j)
| js_claim op c inherit o s' : fork_claim_exact s op c inherit = Ok (o, s') -> job_step s s'
| js_attach op c o p s' : fork_owned_attachment s op c = Ok (o, p, s') -> job_step s s'
| js_commit op s' : mark_output_committed s op = Ok s' -> job_step s s'
| js_cancel_request op cause r s' : cancel_request s op cause = Ok (r, s') -> job_step s s'
| js_cancel_ack op j j0 ack projected r s' :
    jobs s !! op = Some j -> started j = true -> cancellation_owner j = true -> cancel_token j = true ->
    cancel_acknowledged s op ack (ack_completion j0 ack projected) = Ok (r, s') -> job_step s s'
| js_cancel_unowned op j r s' :
    jobs s !! op = Some j -> cancel_token j = true -> cancel_unowned s op = Ok (r, s') -> job_step s s'
| js_cancel_project op j projected s' :
    jobs s !! op = Some j -> job_output j = Some OutCancelled -> cancel_project s op projected = Ok s' -> job_step s s'
| js_retry op j ack s' :
    jobs s !! op = Some j -> started j = true -> cancellation_owner j = true -> is_Some (cancellation_ack j) ->
    retry_acknowledged s op ack = Ok s' -> job_step s s'
| js_terminal op a claim t s' : try_admit_terminal s op a claim = Ok (t, s') -> job_step s s'
| js_event op : job_step s (send_event s op).

Abbreviation job_steps := (rtc job_step).

Definition job_reachable (capacity : nat) (s : JobScheduler) : Prop :=
  exists o store s0, JobScheduler_new o capacity store = Some s0 /\ job_steps s0 s.

(** ** What a job keeps *)

Definition before_start (p : TaskPhase) : Prop :=
  match p with AwaitLaunch | CheckRetained | AwaitPermit | StartCheck _ => True | _ => False end.

Definition in_call (p : TaskPhase) : Prop :=
  match p with Calling _ | Recording _ => True | _ => False end.

Record job_wf (j : Job) : Prop := {
  wf_fresh : job_output j = None ->
    settled_claimants j = [] /\ published j = false /\ settled j = None /\ task j = true /\ cancellation_ack j = None;
  wf_settled : forall o, settled j = Some o -> job_output j = Some o;
  wf_notify : forall o, phase j = Notifying o -> job_output j = Some o;
  wf_finished : phase j = Finished -> is_Some (job_output j);
  wf_progress : (length (progress j) <= JOB_PROGRESS_CAPACITY)%nat;
  wf_visible : is_Some (visible_output j) -> claimants j = ∅;
  wf_before : before_start (phase j) -> started j = false;
  wf_in_call : in_call (phase j) -> started j = true;
  wf_launch : phase j = AwaitLaunch -> launch j = true;
  wf_launched : launch j = true -> phase j = AwaitLaunch \/ phase j = Finished;
  wf_intent : cancel_token j = true -> is_Some (cancellation_intent j);
  wf_held : held_permit (phase j) = true -> holds_capacity j = true
}.

(** A later state of one job. *)
Record evolve (j j' : Job) : Prop := {
  ev_handle : handle j' = handle j;
  ev_name : job_name j' = job_name j;
  ev_activation : activation j' = activation j;
  ev_role : role j' = role j;
  ev_requires : requires_publication j' = requires_publication j;
  ev_capacity : holds_capacity j' = holds_capacity j;
  ev_output : forall o, job_output j = Some o -> job_output j' = Some o;
  ev_settled : forall o, settled j = Some o -> settled j' = Some o;
  ev_started : started j = true -> started j' = true;
  ev_published : published j = true -> published j' = true;
  ev_token : cancel_token j = true -> cancel_token j' = true;
  ev_intent : forall c, cancellation_intent j = Some c -> cancellation_intent j' = Some c;
  ev_claimants : forall c, c ∈ claimants j \/ c ∈ settled_claimants j -> c ∈ claimants j' \/ c ∈ settled_claimants j'
}.

(** One section's effect on a job. *)
Record job_move (s : JobScheduler) (j j' : Job) : Prop := {
  mv_wf : job_wf j';
  mv_evolve : evolve j j';
  mv_start : started j = false -> started j' = true -> cancelled_before_start s j = false
}.

#[export] Instance evolve_preorder : PreOrder evolve.
Proof. split; [by intros j; constructor|]. intros j1 j2 j3 [] []; constructor; solve [congruence | auto]. Qed.

Definition held (s : JobScheduler) : nat := size (filter (fun e => held_permit (phase e.2) = true) (jobs s)).

Definition terminals_kept (s s' : JobScheduler) : Prop :=
  forall a t, act_terminal (activation_state s a) = Some t -> act_terminal (activation_state s' a) = Some t.

(** The three shapes of a step. *)
Inductive step_shape (s s' : JobScheduler) : Prop :=
| shape_register op a h :
    jobs s !! op = None -> jobs s' = <[op := new_job a h]> (jobs s) -> permits s' = permits s ->
    (forall act, adm_activation a = Some act -> adm_role a = Domain -> is_closed s act = false) ->
    terminals_kept s s' -> step_shape s s'
| shape_move op j j' :
    jobs s !! op = Some j -> jobs s' = <[op := j']> (jobs s) -> activations s' = activations s ->
    (permits s' + Nat.b2n (held_permit (phase j')) = permits s + Nat.b2n (held_permit (phase j)))%nat ->
    (job_wf j -> job_move s j j') -> step_shape s s'
| shape_same : jobs s' = jobs s -> permits s' = permits s -> terminals_kept s s' -> step_shape s s'.

(** ** Each section's move *)

Lemma move_intro s j j' : job_wf j' -> evolve j j' -> (started j = false -> started j' = true -> cancelled_before_start s j = false) -> job_move s j j'.
Proof. by constructor. Qed.

(** Split a move into its facts and close those the old state answers. *)
Ltac solve_move :=
  intros [Hfresh Hset Hnot Hfin Hprog Hvis Hbef Hcall Hl Hl' Hint Hheld];
  unfold visible_output in *;
  repeat match goal with H : phase _ = _ |- _ => rewrite H in *; clear H end;
  apply move_intro; [constructor | constructor |];
  unfold visible_output, assign; cbn in *;
  try solve [assumption | reflexivity | discriminate | congruence | auto | intros; congruence | intros []
            | intros; exfalso; eauto | intros HL; destruct (Hl' HL); congruence].

Lemma retained_move s j r :
  phase j = CheckRetained -> job_wf j ->
  job_move s j (j <| phase := match r with
                              | RetainedOutput o => Settling o (completed_result o)
                              | RetainedError failure => Settling (OutCompleted (Err failure)) (Some (Err failure))
                              | RetainedNone => AwaitPermit
                              end |>).
Proof. intros Hp. destruct r; solve_move. Qed.

Lemma acquire_move s j p :
  phase j = AwaitPermit -> (p = true -> holds_capacity j = true) -> job_wf j -> job_move s j (j <| phase := StartCheck p |>).
Proof. intros Hp Hh. solve_move. Qed.

Lemma refuse_move s j p : phase j = StartCheck p -> job_wf j -> job_move s j (j <| phase := Settling OutCancelled None |>).
Proof. intros Hp. solve_move. Qed.

Lemma start_move s j p :
  phase j = StartCheck p -> cancelled_before_start s j = false -> job_wf j ->
  job_move s j (j <| started := true |> <| phase := Calling p |>).
Proof. intros Hp Hc. solve_move. Qed.

Lemma retain_progress_bound p e :
  (length p <= JOB_PROGRESS_CAPACITY)%nat -> (length (retain_progress p e) <= JOB_PROGRESS_CAPACITY)%nat.
Proof.
  unfold retain_progress. intros Hl. rewrite length_app. simpl.
  destruct (Nat.eqb_spec (length p) JOB_PROGRESS_CAPACITY); rewrite ?length_drop; unfold JOB_PROGRESS_CAPACITY in *; lia.
Qed.

Lemma progress_move s j p e :
  phase j = Calling p -> job_wf j -> job_move s j (j <| progress ::= (fun l => retain_progress l e) |>).
Proof.
  intros _ [Hfresh Hset Hnot Hfin Hprog Hvis Hbef Hcall Hl Hl' Hint Hheld].
  apply move_intro; [by constructor; try apply retain_progress_bound|by constructor|unfold assign; cbn; congruence].
Qed.

Lemma return_move s j p r : phase j = Calling p -> job_wf j -> job_move s j (j <| phase := Recording r |>).
Proof. intros Hp. solve_move. Qed.

Lemma record_move s j r o c :
  phase j = Recording r -> job_wf j -> job_move s j (j <| phase := Settling o c |>).
Proof. intros Hp. solve_move. Qed.

(** Draining the claimants at the terminal keeps every one of them. *)
Lemma drain_kept (j : Job) (l : list ConversationIdentity) c :
  settled_claimants j = l ->
  c ∈ claimants j \/ c ∈ settled_claimants j -> c ∈ (∅ : gset ConversationIdentity) \/ c ∈ l ++ elements (claimants j).
Proof. intros <- [Hc|Hc]; right; apply elem_of_app; [right; by apply elem_of_elements | by left]. Qed.

(** The first terminal output, with its claimants drained. *)
Definition with_output (j : Job) (o : JobOutput) : Job :=
  j <| job_output := Some o |> <| settled_claimants := elements (claimants j) |> <| claimants := ∅ |>.

Lemma with_output_evolve j o : job_output j = None -> job_wf j -> evolve j (with_output j o).
Proof.
  intros Ho Hwf. destruct (wf_fresh _ Hwf Ho) as (Hc & Hp & Hs & Ht & Ha).
  constructor; unfold with_output, assign; cbn; try (done || congruence). intros c. by apply (drain_kept j []).
Qed.

Lemma with_output_wf j o : job_output j = None -> job_wf j -> job_wf (with_output j o).
Proof.
  intros Ho Hwf. destruct (wf_fresh _ Hwf Ho) as (Hc & Hp & Hs & Ht & Ha). destruct Hwf.
  constructor; unfold with_output, assign; cbn; try (done || congruence || eauto).
  intros o' Ho'. apply wf_notify0 in Ho'. congruence.
Qed.

Lemma settle_job_shape j o c :
  settle_job j o c =
  (let j := match c with Some c => j <| provider_completion := Some c |> | None => j end in
   if job_output j then j else with_output j o).
Proof. unfold settle_job. by destruct (job_output _). Qed.

Lemma provider_completion_move s j c : job_wf j -> job_move s j (j <| provider_completion := c |>).
Proof. solve_move. Qed.

Lemma notifying_move s j o o' c :
  phase j = Settling o' c -> job_output j = Some o -> job_wf j -> job_move s j (j <| phase := Notifying o |>).
Proof. intros Hp Ho. solve_move. Qed.

Lemma notify_move s j o : phase j = Notifying o -> job_wf j -> job_move s j (j <| settled := Some o |> <| phase := Finished |>).
Proof.
  intros Hp Hwf. pose proof (wf_notify _ Hwf o Hp) as Ho. revert Hwf. solve_move.
  intros o' Ho'. apply Hset in Ho'. congruence.
Qed.

Lemma abort_move s j : task j = false -> job_wf j -> job_move s j (j <| phase := Finished |>).
Proof.
  intros Hp Hwf. assert (is_Some (job_output j)) as [o Ho].
  { destruct (job_output j) eqn:Eo; [done|]. destruct (wf_fresh _ Hwf Eo) as (_ & _ & _ & ? & _). congruence. }
  revert Hwf. solve_move.
Qed.

Lemma panic_move s j : provider_code (phase j) = true -> job_wf j -> job_move s j (j <| phase := Panicked |>).
Proof.
  intros Hp. assert (phase j = CheckRetained \/ exists p, phase j = Calling p) as Hc by (destruct (phase j); eauto; done).
  clear Hp. destruct Hc as [Hp|[p Hp]]; solve_move.
Qed.

Lemma claim_move s j c :
  visible_output j = None -> job_wf j -> job_move s j (j <| claimants ::= (fun l => {[c]} ∪ l) |>).
Proof.
  unfold visible_output. intros Hv. solve_move.
  - rewrite Hv. by intros [].
  - intros c' [Hc|Hc]; [left|by right]. by apply elem_of_union_r.
Qed.

Lemma commit_move s j :
  is_Some (job_output j) -> published j = false -> job_wf j ->
  job_move s j (j <| settled_claimants ::= (fun l => l ++ elements (claimants j)) |> <| claimants := ∅ |> <| published := true |>).
Proof.
  intros [o Ho] Hpub. solve_move. intros c. by apply drain_kept.
Qed.

Lemma request_move s j cause :
  job_output j = None -> job_wf j ->
  job_move s j (j <| cancellation_intent := Some (default cause (cancellation_intent j)) |> <| cancel_token := true |>).
Proof. intros Ho. solve_move. by intros c ->. Qed.

(** Assignments after which the job has not started compose. *)
Lemma move_then s j j1 j2 :
  started j1 = started j -> started j2 = started j1 ->
  (job_wf j -> job_move s j j1) -> (job_wf j1 -> job_move s j1 j2) -> job_wf j -> job_move s j j2.
Proof.
  intros E1 E2 H1 H2 Hwf. destruct (H1 Hwf) as [Hwf1 Hev1 _]. destruct (H2 Hwf1) as [Hwf2 Hev2 _].
  apply move_intro; [done|by transitivity j1|congruence].
Qed.

Lemma with_output_move s j o : job_output j = None -> job_wf j -> job_move s j (with_output j o).
Proof.
  intros Ho Hwf. apply move_intro; [by apply with_output_wf|by apply with_output_evolve|]. unfold with_output, assign; cbn. congruence.
Qed.

Lemma settled_move s j o : job_output j = Some o -> settled j = None -> job_wf j -> job_move s j (j <| settled := Some o |>).
Proof. intros Ho Hn. solve_move. Qed.

Lemma ack_move s j a : is_Some (job_output j) -> job_wf j -> job_move s j (j <| cancellation_ack := a |>).
Proof. intros [o Ho]. solve_move. Qed.

Lemma task_move s j : is_Some (job_output j) -> job_wf j -> job_move s j (j <| task := false |>).
Proof. intros [o Ho]. solve_move. Qed.

Lemma completion_move s j c : job_wf j -> job_move s j (j <| job_completion := c |>).
Proof. solve_move. Qed.

Lemma terminal_move s j o :
  job_output j = None -> settled j = None -> job_wf j -> job_move s j (with_output j o <| settled := Some o |>).
Proof.
  intros Ho Hs. eapply move_then; [| |by apply with_output_move|by apply settled_move]; done.
Qed.

Lemma release_move s j b p :
  job_output j = None -> launch j = true -> p = (match phase j with AwaitLaunch => CheckRetained | q => q end) ->
  job_wf j -> job_move s j (j <| launch := false |> <| context_completion_required := b |> <| phase := p |>).
Proof.
  intros Ho Hla -> Hwf. destruct (wf_launched _ Hwf Hla) as [Hp|Hp].
  - rewrite Hp. revert Hwf. solve_move.
  - pose proof (wf_finished _ Hwf Hp). rewrite Ho in *. by destruct H.
Qed.

Lemma same_move s j : job_wf j -> job_move s j j.
Proof. intros H. apply move_intro; [done|done|congruence]. Qed.

Lemma first_output_move s j o : job_wf j -> job_move s j (if job_output j then j else with_output j o).
Proof. destruct (job_output j) eqn:E; [apply same_move|by apply with_output_move]. Qed.

Lemma first_output_fields j o :
  let j' := if job_output j then j else with_output j o in
  started j' = started j /\ phase j' = phase j /\ job_output j' = Some (default o (job_output j)).
Proof. by destruct (job_output j) eqn:E. Qed.

Lemma settle_job_move s j o c :
  job_wf j -> job_move s j (settle_job j o c) /\
  started (settle_job j o c) = started j /\ phase (settle_job j o c) = phase j /\ is_Some (job_output (settle_job j o c)).
Proof.
  intros Hwf. rewrite settle_job_shape.
  set (j1 := match c with Some c => j <| provider_completion := Some c |> | None => j end).
  assert (job_move s j j1 /\ started j1 = started j /\ phase j1 = phase j) as (H1 & E1 & P1).
  { subst j1. destruct c; (split_and!; [|done|done]); [by apply provider_completion_move|by apply same_move]. }
  cbv zeta. destruct (first_output_fields j1 o) as (E2 & P2 & O2). split_and!; [|congruence|congruence|rewrite O2; eauto].
  eapply (move_then s j j1); [done|done|done|apply first_output_move|done].
Qed.

Lemma settle_move s j o c :
  phase j = Settling o c -> job_wf j ->
  job_move s j (settle_job j o c <| phase := Notifying (default o (job_output (settle_job j o c))) |>).
Proof.
  intros Hp Hwf. destruct (settle_job_move s j o c Hwf) as (Hm & Hs & Hp' & [o' Ho']). rewrite Ho'. simpl.
  eapply (move_then s j (settle_job j o c)); [done|done|done| |done].
  eapply notifying_move; [by rewrite Hp', Hp|done].
Qed.

(** ** The shape of each step *)

Lemma terminals_refl s s' : activations s' = activations s -> terminals_kept s s'.
Proof. intros E a t. unfold activation_state. by rewrite E. Qed.

Lemma same_shape s s' : jobs s' = jobs s -> permits s' = permits s -> activations s' = activations s -> step_shape s s'.
Proof. intros. apply shape_same; [done|done|by apply terminals_refl]. Qed.

(** A section that only rewrites one job. *)
Lemma update_shape s op j j' :
  jobs s !! op = Some j -> held_permit (phase j') = held_permit (phase j) ->
  (job_wf j -> job_move s j j') -> step_shape s (update_job s op j').
Proof. intros Hj Hh Hm. eapply shape_move; [exact Hj|done|done|simpl; by rewrite Hh|done]. Qed.

Lemma give_back_fields b s : jobs (give_back b s) = jobs s /\ activations (give_back b s) = activations s /\
  permits (give_back b s) = (permits s + Nat.b2n b)%nat.
Proof. destruct b; simpl; split_and!; try done; lia. Qed.

(** A section after which the task holds no permit. *)
Lemma give_back_shape s op j j' :
  jobs s !! op = Some j -> held_permit (phase j') = false ->
  (job_wf j -> job_move s j j') -> step_shape s (give_back (held_permit (phase j)) (update_job s op j')).
Proof.
  intros Hj Hh Hm. destruct (give_back_fields (held_permit (phase j)) (update_job s op j')) as (E1 & E2 & E3).
  eapply shape_move; [exact Hj|by rewrite E1|by rewrite E2|rewrite E3, Hh; simpl; lia|done].
Qed.

Lemma bind_scheduler_facts s a b s' :
  bind_scheduler s a = (b, s') ->
  jobs s' = jobs s /\ permits s' = permits s /\ forall x, act_terminal (activation_state s' x) = act_terminal (activation_state s x).
Proof.
  unfold bind_scheduler. destruct (act_scheduler _); intros [= <- <-]; split_and!; try done.
  intros x. unfold activation_state at 1. upd_simpl. destruct (decide (a = x)) as [->|Hn].
  - by rewrite lookup_insert_eq.
  - by rewrite lookup_insert_ne.
Qed.

Lemma insert_shape s s1 s' op a h r :
  jobs s1 = jobs s -> permits s1 = permits s -> terminals_kept s s1 ->
  (forall act, adm_activation a = Some act -> adm_role a = Domain -> is_closed s act = false) ->
  (if bool_decide (is_Some (jobs s1 !! op)) then (s1, Err JobDuplicateCall)
   else (update_job s1 op (new_job a h), Ok tt)) = (s', r) -> step_shape s s'.
Proof.
  intros Ej Ep Ht Hd. case_bool_decide as Hin; intros [= <- <-]; [by apply shape_same|].
  eapply shape_register; [|simpl; by rewrite Ej| |exact Hd|done]; [|done].
  rewrite Ej in Hin. by apply eq_None_not_Some.
Qed.

Lemma register_shape s a h s' r : register s a h = (s', r) -> step_shape s s'.
Proof.
  pose proof (same_shape s s eq_refl eq_refl eq_refl) as Hs.
  unfold register. repeat (case_match; [intros [= <- <-]; exact Hs|]). destruct (adm_activation a) as [act|] eqn:Ea.
  - destruct (bind_scheduler s act) as [b s1] eqn:Eb. apply bind_scheduler_facts in Eb as (Ej & Ep & Et).
    assert (terminals_kept s s1) as Hk by (intros x t; by rewrite Et).
    destruct b; simpl; [|intros [= <- <-]; by apply shape_same].
    destruct (bool_decide _ && is_closed s1 act) eqn:Ec; [intros [= <- <-]; by apply shape_same|].
    apply insert_shape; [done|done|done|]. intros act' Ha Hr. simplify_eq.
    rewrite bool_decide_eq_true_2 in Ec by done. unfold is_closed in *. simpl in Ec. by rewrite Et in Ec.
  - apply insert_shape; [done|done|by apply terminals_refl|]. intros act Ha. congruence.
Qed.

Lemma release_shape s op snapshot s' r : release_operation s op snapshot = (s', r) -> step_shape s s'.
Proof.
  pose proof (same_shape s s eq_refl eq_refl eq_refl) as Hs.
  unfold release_operation. case_match; [by intros [= <- <-]|]. destruct (jobs s !! op) as [j|] eqn:Ej; [|by intros [= <- <-]].
  case_bool_decide as Ho; [by intros [= <- <-]|]. apply eq_None_not_Some in Ho.
  destruct (launch j) eqn:El; simpl; [|by intros [= <- <-]].
  set (b := bool_decide (is_Some snapshot)). intros Heq.
  assert (s' = update_job s op (j <| launch := false |> <| context_completion_required := b |>
            <| phase := match phase j with AwaitLaunch => CheckRetained | q => q end |>)) as ->.
  { upd_simpl. destruct (phase j) eqn:Ep; injection Heq as <- _; by rewrite ?Ep. }
  eapply update_shape; [exact Ej| |by apply release_move]. upd_simpl. by destruct (phase j).
Qed.

Lemma acquire_shape s op j s' :
  jobs s !! op = Some j -> phase j = AwaitPermit -> task_acquire s op j = Some s' -> step_shape s s'.
Proof.
  intros Hj Hp. unfold task_acquire. destruct (holds_capacity j) eqn:Eh.
  - destruct (permits s) as [|n] eqn:En; [done|]. intros [= <-].
    eapply shape_move; [exact Hj|done|done|upd_simpl; rewrite Hp, En; simpl; lia|by apply acquire_move].
  - intros [= <-]. eapply update_shape; [exact Hj|upd_simpl; by rewrite Hp|by apply acquire_move].
Qed.

Lemma start_shape s op j p :
  jobs s !! op = Some j -> phase j = StartCheck p -> step_shape s (task_start s op j p).
Proof.
  intros Hj Hp. unfold task_start. destruct (cancelled_before_start s j) eqn:Ec.
  - assert (p = held_permit (phase j)) as -> by (by rewrite Hp).
    eapply give_back_shape; [exact Hj|done|by eapply refuse_move].
  - eapply update_shape; [exact Hj|upd_simpl; by rewrite Hp|by eapply start_move].
Qed.

Lemma return_shape s op j p r : jobs s !! op = Some j -> phase j = Calling p -> step_shape s (task_return s op j p r).
Proof.
  intros Hj Hp. unfold task_return. assert (p = held_permit (phase j)) as -> by (by rewrite Hp).
  eapply give_back_shape; [exact Hj|done|by eapply return_move].
Qed.

Lemma record_shape s op j r : jobs s !! op = Some j -> phase j = Recording r -> step_shape s (task_record s op j r).
Proof.
  intros Hj Hp. unfold task_record. eapply update_shape; [exact Hj|upd_simpl; by rewrite Hp|].
  destruct (job_completion j) as [c|] eqn:Ec; [by eapply record_move|].
  eapply move_then; [| |apply completion_move|by eapply record_move]; done.
Qed.

Lemma claim_shape s op c inherit o s' : fork_claim_exact s op c inherit = Ok (o, s') -> step_shape s s'.
Proof.
  unfold fork_claim_exact, claim_exact. destruct inherit; intros H; inv_ok; simplify_eq; [|by apply same_shape].
  destruct (if negb (requires_publication x) || published x then job_output x else None) eqn:Ev; inv_ok; simplify_eq; [by apply same_shape|].
  eapply update_shape; [exact Hr|done|]. apply claim_move. unfold visible_output.
  destruct (requires_publication x), (published x); done.
Qed.

Lemma attach_shape s op c o p s' : fork_owned_attachment s op c = Ok (o, p, s') -> step_shape s s'.
Proof.
  unfold fork_owned_attachment. intros H. inv_ok.
  destruct (if negb (requires_publication x) || published x then job_output x else None) eqn:Ev; inv_ok; simplify_eq; [by apply same_shape|].
  eapply update_shape; [exact Hr|done|]. apply claim_move. unfold visible_output.
  destruct (requires_publication x), (published x); done.
Qed.

Lemma send_event_shape s s' op : step_shape s s' -> step_shape s (send_event s' op).
Proof. intros [op' a h H1 H2 H3 H4 H5|op' j j' H1 H2 H3 H4 H5|H1 H2 H3]; [by eapply shape_register|by eapply shape_move|by apply shape_same]. Qed.

Lemma commit_shape s op s' : mark_output_committed s op = Ok s' -> step_shape s s'.
Proof.
  unfold mark_output_committed. intros H. inv_ok. apply bool_decide_eq_true in Hg.
  destruct (published x) eqn:Ep; inv_ok; simplify_eq; [by apply same_shape|].
  destruct (requires_publication x); [apply send_event_shape|]; (eapply update_shape; [exact Hr|done|by apply commit_move]).
Qed.

Lemma request_shape s op cause r s' : cancel_request s op cause = Ok (r, s') -> step_shape s s'.
Proof.
  unfold cancel_request. intros H. inv_ok. case_bool_decide as Ho; inv_ok; simplify_eq; [by apply same_shape|].
  eapply update_shape; [exact Hr|done|]. apply request_move. by apply eq_None_not_Some.
Qed.

(** What an acknowledgment leaves beside the output. *)
Definition acked (j : Job) (ack : CancellationAcknowledgment) (c : option ProviderCompletion) : Job :=
  let j := j <| cancellation_ack := Some ack |> <| job_completion := c |> in
  if ack_stopped ack then j <| task := false |> else j.

Lemma acked_started j ack c : started (acked j ack c) = started j.
Proof. unfold acked. by destruct (ack_stopped ack). Qed.

Lemma acked_move s j ack c : is_Some (job_output j) -> job_wf j -> job_move s j (acked j ack c).
Proof.
  intros Ho. unfold acked.
  assert (job_wf j -> job_move s j (j <| cancellation_ack := Some ack |> <| job_completion := c |>)) as Hm.
  { eapply move_then; [| |by apply ack_move|apply completion_move]; done. }
  destruct (ack_stopped ack); [|done]. eapply move_then; [| |exact Hm|by apply task_move]; done.
Qed.

Lemma cancel_ack_shape s op ack c r s' : cancel_acknowledged s op ack c = Ok (r, s') -> step_shape s s'.
Proof.
  unfold cancel_acknowledged. intros H. inv_ok. case_bool_decide as Ho; inv_ok; simplify_eq.
  - eapply update_shape; [exact Hr|done|]. by apply ack_move.
  - eapply update_shape; [exact Hr|by destruct c, (ack_stopped ack)|]. intros Hwf.
    apply eq_None_not_Some in Ho. simpl in Ho. pose proof (wf_fresh _ Hwf Ho) as (_ & _ & Hs & _).
    match goal with |- job_move _ _ ?j' => assert (exists c', j' = acked (with_output x (ack_output ack) <| settled := Some (ack_output ack) |>) ack c') as [c' ->] end.
    { exists (default (job_completion x) (Some <$> c)). unfold acked, with_output. by destruct c, (ack_stopped ack). }
    eapply move_then; [| |by apply terminal_move|by apply acked_move|exact Hwf]; [done|apply acked_started].
Qed.

Lemma unowned_shape s op r s' : cancel_unowned s op = Ok (r, s') -> step_shape s s'.
Proof.
  unfold cancel_unowned. intros H. inv_ok. case_bool_decide as Ho; inv_ok; simplify_eq; [by apply same_shape|].
  eapply update_shape; [exact Hr|done|]. intros Hwf. apply eq_None_not_Some in Ho.
  eapply move_then; [| |apply terminal_move|apply task_move|exact Hwf]; try done. by apply wf_fresh.
Qed.

Lemma project_shape s op projected s' : cancel_project s op projected = Ok s' -> step_shape s s'.
Proof. unfold cancel_project. intros H. inv_ok. simplify_eq. eapply update_shape; [exact Hr|done|apply completion_move]. Qed.

Lemma retry_shape s op j ack s' :
  jobs s !! op = Some j -> is_Some (cancellation_ack j) -> retry_acknowledged s op ack = Ok s' -> step_shape s s'.
Proof.
  intros Hj Ha. unfold retry_acknowledged. rewrite Hj. simpl. intros H. inv_ok. simplify_eq.
  eapply update_shape; [exact Hj|by destruct (_ && _)|]. intros Hwf.
  assert (is_Some (job_output j)) as Ho.
  { destruct (job_output j) eqn:Eo; [done|]. destruct (wf_fresh _ Hwf Eo) as (_ & _ & _ & _ & E). rewrite E in Ha. by destruct Ha. }
  destruct (_ && _); [|by apply ack_move].
  eapply move_then; [| |by apply ack_move|by apply task_move|exact Hwf]; done.
Qed.

Lemma terminal_shape s op a claim t s' : try_admit_terminal s op a claim = Ok (t, s') -> step_shape s s'.
Proof.
  unfold try_admit_terminal. intros H. inv_ok. simplify_eq. apply shape_same; [done|done|].
  intros b t Ht. unfold activation_state at 1. upd_simpl. destruct (decide (a = b)) as [->|Hn].
  - unfold is_closed in Hg1. rewrite Ht in Hg1. done.
  - by rewrite lookup_insert_ne.
Qed.

Lemma task_shapes s op j :
  jobs s !! op = Some j ->
  (forall r, phase j = CheckRetained -> step_shape s (task_retained s op j r)) /\
  (forall p e, phase j = Calling p -> step_shape s (task_progress s op j e)) /\
  (forall o c, phase j = Settling o c -> step_shape s (task_settle s op j o c)) /\
  (forall o, phase j = Notifying o -> step_shape s (task_notify s op j o)) /\
  (task j = false -> step_shape s (task_abort s op j)) /\
  (provider_code (phase j) = true -> step_shape s (task_panic s op j)).
Proof.
  intros Hj. split_and!.
  - intros r Hp. eapply update_shape; [exact Hj|rewrite Hp; by destruct r|by apply retained_move].
  - intros p e Hp. eapply update_shape; [exact Hj|done|by eapply progress_move].
  - intros o c Hp. eapply update_shape; [exact Hj|by rewrite Hp|by apply settle_move].
  - intros o Hp. apply send_event_shape. eapply update_shape; [exact Hj|by rewrite Hp|by apply notify_move].
  - intros Ht. eapply give_back_shape; [exact Hj|done|by apply abort_move].
  - intros Hp. eapply give_back_shape; [exact Hj|done|by apply panic_move].
Qed.

#[export] Hint Resolve register_shape release_shape acquire_shape start_shape return_shape record_shape claim_shape
  attach_shape commit_shape request_shape cancel_ack_shape unowned_shape project_shape retry_shape terminal_shape : job_shape.

Lemma step_cases s s' : job_step s s' -> step_shape s s'.
Proof.
  destruct 1; eauto with job_shape; try (by apply send_event_shape, same_shape);
    match goal with Hj : jobs _ !! _ = Some _ |- _ => destruct (task_shapes _ _ _ Hj) as (? & ? & ? & ? & ? & ?) end; eauto.
Qed.
