(* ===== verification/JobClaims.v ===== *)
(** What holds of the job registry in every reachable state: the invariant of
    each job, capacity, finality of outputs, the activation fence, the
    claimants' receipt and progress to a settlement. *)

From S2P Require Import Prelude Json Redaction Usage Observation Sse Failure StoreDb Jobs JobProofs.

(** ** The invariant along runs *)

Definition sched_wf (s : JobScheduler) : Prop := map_Forall (fun _ => job_wf) (jobs s).

Lemma new_job_wf a h : job_wf (new_job a h).
Proof. constructor; simpl; try done; auto; unfold JOB_PROGRESS_CAPACITY; try lia. Qed.

Lemma step_wf s s' : sched_wf s -> job_step s s' -> sched_wf s'.
Proof.
  intros Hwf Hs. unfold sched_wf. destruct (step_cases _ _ Hs) as [op a h Hn -> _ _ _|op j j' Hj -> _ _ Hm| -> _ _]; [| |done].
  - by apply map_Forall_insert_2; [apply new_job_wf|].
  - apply map_Forall_insert_2; [|done]. apply (mv_wf s j), Hm, (Hwf op), Hj.
Qed.

Lemma steps_wf s s' : sched_wf s -> job_steps s s' -> sched_wf s'.
Proof. intros Hwf. induction 1; eauto using step_wf. Qed.

Lemma reachable_wf c s : job_reachable c s -> sched_wf s.
Proof.
  intros (o & store & s0 & Hn & Hs). apply (steps_wf s0); [|done].
  unfold JobScheduler_new in Hn. destruct (c =? 0)%nat; [done|]. injection Hn as <-. apply map_Forall_empty.
Qed.

Lemma reachable_steps c s s' : job_reachable c s -> job_steps s s' -> job_reachable c s'.
Proof. intros (o & store & s0 & Hn & Hs) Hs'. exists o, store, s0. split; [done|by etrans]. Qed.

(** Induction along a run from a well-formed state. *)
Lemma steps_ind_wf (P : JobScheduler -> JobScheduler -> Prop) :
  (forall s, sched_wf s -> P s s) ->
  (forall s1 s2 s3, sched_wf s1 -> step_shape s1 s2 -> P s2 s3 -> P s1 s3) ->
  forall s s', sched_wf s -> job_steps s s' -> P s s'.
Proof.
  intros Hr Hs s s' Hwf H. induction H as [s|s1 s2 s3 H12 _ IH]; [by apply Hr|].
  apply (Hs s1 s2); [done|by apply step_cases|]. apply IH. by eapply step_wf.
Qed.

Lemma shape_evolve s s' op j :
  sched_wf s -> step_shape s s' -> jobs s !! op = Some j ->
  exists j', jobs s' !! op = Some j' /\ evolve j j' /\ (started j = false -> started j' = true -> cancelled_before_start s j = false).
Proof.
  intros Hwf [op' a h Hn -> _ _ _|op' k k' Hk -> _ _ Hm| -> _ _] Hj.
  - exists j. rewrite lookup_insert_ne by congruence. split_and!; [done|done|congruence].
  - destruct (decide (op' = op)) as [->|Hne].
    + assert (k = j) as -> by congruence. destruct (Hm (Hwf op j Hj)) as [_ He Hst]. exists k'. by rewrite lookup_insert_eq.
    + exists j. rewrite lookup_insert_ne by done. split_and!; [done|done|congruence].
  - exists j. split_and!; [done|done|congruence].
Qed.

Lemma steps_evolve s s' op j :
  sched_wf s -> job_steps s s' -> jobs s !! op = Some j -> exists j', jobs s' !! op = Some j' /\ evolve j j'.
Proof.
  intros Hwf Hs. revert j. pattern s, s'. revert s s' Hwf Hs. apply steps_ind_wf.
  - intros s _ j Hj. exists j. by repeat split.
  - intros s1 s2 s3 Hwf Hs IH j Hj. destruct (shape_evolve _ _ _ _ Hwf Hs Hj) as (j1 & H1 & He & _).
    destruct (IH j1 H1) as (j2 & H2 & He2). exists j2. split; [done|by transitivity j1].
Qed.

(** ** Capacity *)

Lemma held_insert (m : gmap OperationId Job) op j :
  size (filter (fun e => held_permit (phase e.2) = true) (<[op := j]> m)) =
  (Nat.b2n (held_permit (phase j)) + size (filter (fun e => held_permit (phase e.2) = true) (delete op m)))%nat.
Proof.
  destruct (held_permit (phase j)) eqn:E.
  - rewrite <- insert_delete_eq, map_filter_insert_True, map_size_insert_None by (try done; by rewrite map_lookup_filter, lookup_delete_eq).
    done.
  - rewrite map_filter_insert_False by (simpl; by rewrite E). done.
Qed.

Lemma shape_permits s s' : step_shape s s' -> (permits s' + held s' = permits s + held s)%nat.
Proof.
  unfold held. intros [op a h Hn -> -> _ _|op j j' Hj -> _ Hp _| -> -> _]; [| |done].
  - rewrite held_insert. simpl. by rewrite delete_id.
  - rewrite <- (insert_id (jobs s) op j Hj) at 2. rewrite !held_insert. lia.
Qed.

Lemma reachable_permits c s : job_reachable c s -> (permits s + held s = c)%nat.
Proof.
  intros (o & store & s0 & Hn & Hs). assert (permits s0 + held s0 = c)%nat as H0.
  { unfold JobScheduler_new in Hn. destruct (c =? 0)%nat; [done|]. injection Hn as <-. simpl.
    unfold held. simpl. rewrite map_filter_empty, map_size_empty. lia. }
  clear Hn. induction Hs as [|s1 s2 s3 H12 _ IH]; [done|]. apply IH. rewrite <- H0. by apply shape_permits, step_cases.
Qed.

(** ** The fence *)

Lemma shape_terminals s s' : step_shape s s' -> terminals_kept s s'.
Proof. intros []; [done|by apply terminals_refl|done]. Qed.

Lemma terminals_closed s s' a : terminals_kept s s' -> is_closed s a = true -> is_closed s' a = true.
Proof. unfold is_closed. rewrite !bool_decide_eq_true. intros Hk [t Ht]. rewrite (Hk a t Ht). eauto. Qed.

Lemma steps_terminals s s' : job_steps s s' -> terminals_kept s s'.
Proof.
  induction 1 as [|s1 s2 s3 H12 _ IH]; [by apply terminals_refl|]. intros a t Ht. by apply IH, (shape_terminals s1), Ht; apply step_cases.
Qed.

Lemma blocked_kept s s' j j' :
  terminals_kept s s' -> evolve j j' -> cancelled_before_start s j = true -> cancelled_before_start s' j' = true.
Proof.
  intros Hk He. unfold cancelled_before_start. rewrite !orb_true_iff, !andb_true_iff, !bool_decide_eq_true.
  rewrite (ev_role _ _ He), (ev_activation _ _ He). intros [[[o Ho]|Ht]|[Hd Hc]].
  - left. left. rewrite (ev_output _ _ He o Ho). eauto.
  - left. right. by apply (ev_token _ _ He).
  - right. split; [done|]. destruct (activation j); [by eapply terminals_closed|done].
Qed.

Lemma steps_blocked s s' op j :
  sched_wf s -> job_steps s s' -> jobs s !! op = Some j -> cancelled_before_start s j = true ->
  exists j', jobs s' !! op = Some j' /\ started j' = started j.
Proof.
  intros Hwf Hs. revert j. pattern s, s'. revert s s' Hwf Hs. apply steps_ind_wf.
  - intros s _ j Hj. exists j. by repeat split.
  - intros s1 s2 s3 Hwf Hs IH j Hj Hb. destruct (shape_evolve _ _ _ _ Hwf Hs Hj) as (j1 & H1 & He & Hst).
    destruct (IH j1 H1) as (j2 & H2 & E2); [eapply blocked_kept; [by apply shape_terminals|done|done]|].
    exists j2. split; [done|]. rewrite E2. destruct (started j) eqn:E; [by apply (ev_started _ _ He)|].
    destruct (started j1); [|done]. by rewrite Hst in Hb.
Qed.

(** No domain job of a closed activation is new. *)
Lemma shape_no_new_domain s s' a op j :
  sched_wf s -> step_shape s s' -> is_closed s a = true ->
  jobs s' !! op = Some j -> role j = Domain -> activation j = Some a ->
  exists j0, jobs s !! op = Some j0 /\ role j0 = Domain /\ activation j0 = Some a.
Proof.
  intros Hwf Hs Hc Hj Hr Ha. destruct (jobs s !! op) as [j0|] eqn:E0.
  - exists j0. destruct (shape_evolve _ _ _ _ Hwf Hs E0) as (j' & Hj' & He & _). simplify_eq.
    by rewrite <- (ev_role _ _ He), <- (ev_activation _ _ He).
  - destruct Hs as [op' b h Hn E _ Hd _|op' k k' Hk E _ _ Hm|E _ _]; rewrite E in Hj.
    + destruct (decide (op' = op)) as [->|Hne]; [|rewrite lookup_insert_ne in Hj by done; congruence].
      rewrite lookup_insert_eq in Hj. simplify_eq. rewrite (Hd a Ha Hr) in Hc. done.
    + rewrite lookup_insert_ne in Hj by congruence. congruence.
    + congruence.
Qed.

Lemma steps_no_new_domain s s' a op j :
  sched_wf s -> job_steps s s' -> is_closed s a = true ->
  jobs s' !! op = Some j -> role j = Domain -> activation j = Some a ->
  exists j0, jobs s !! op = Some j0 /\ role j0 = Domain /\ activation j0 = Some a.
Proof.
  intros Hwf Hs. pattern s, s'. revert s s' Hwf Hs. apply steps_ind_wf; [by eauto|].
  intros s1 s2 s3 Hwf Hs IH Hc Hj Hr Ha.
  destruct IH as (j0 & H0 & Hr0 & Ha0); [by eapply terminals_closed, Hc; apply shape_terminals|done|done|done|].
  by eapply shape_no_new_domain.
Qed.

(** ** Claimants *)

Lemma claim_exact_cases s op c o s' :
  claim_exact s op c = Ok (o, s') ->
  exists j, jobs s !! op = Some j /\
    match o with
    | Some x => output s op = Ok (Some x) /\ s' = s
    | None => exists j', jobs s' !! op = Some j' /\ c ∈ claimants j'
    end.
Proof.
  unfold claim_exact, output. intros H. inv_ok. exists x. rewrite Hr. split; [done|]. simpl.
  assert ((if negb (requires_publication x) || published x then job_output x else None) = visible_output x) as Ev.
  { unfold visible_output. by destruct (requires_publication x), (published x). }
  rewrite Ev in H. unfold visible_output in *. destruct (if requires_publication x && negb (published x) then None else job_output x) as [y|] eqn:Ey; inv_ok; simplify_eq.
  - done.
  - eexists. split; [apply lookup_insert_eq|]. upd_simpl. set_solver.
Qed.

Lemma visible_evolve j j' o : job_wf j -> evolve j j' -> visible_output j = Some o -> visible_output j' = Some o.
Proof.
  intros Hwf He. unfold visible_output. rewrite (ev_requires _ _ He).
  destruct (requires_publication j); simpl; [|apply (ev_output _ _ He)].
  destruct (published j) eqn:Ep; simpl; [|done]. rewrite (ev_published _ _ He Ep). apply (ev_output _ _ He).
Qed.

Lemma output_visible s op o :
  output s op = Ok o <-> exists j, jobs s !! op = Some j /\ visible_output j = o.
Proof.
  unfold output, visible_output. destruct (jobs s !! op) as [j|]; simpl.
  - split; [intros [= <-]; eauto|]. by intros (? & [= <-] & <-).
  - split; [done|]. by intros (? & ? & _).
Qed.

(** ** The inventory of an activation *)

#[export] Instance inventory_le_total : Total inventory_le.
Proof.
  intros p q. unfold inventory_le. destruct (pending_operation p) as [o1 r1 c1], (pending_operation q) as [o2 r2 c2]. simpl.
  unfold str_lt. destruct (str_ltb r1 r2) eqn:E1; [by left; left|]. destruct (str_ltb r2 r1) eqn:E2; [by right; left|].
  assert (r1 = r2) as -> by (by apply str_ltb_total).
  destruct (str_ltb c2 c1) eqn:E3; [right|left]; right; (split; [done|]); [|congruence].
  apply str_lt_asym in E3. congruence.
Qed.

#[export] Instance inventory_le_trans : Transitive inventory_le.
Proof.
  intros p q r. unfold inventory_le.
  destruct (pending_operation p) as [o1 r1 c1], (pending_operation q) as [o2 r2 c2], (pending_operation r) as [o3 r3 c3]. simpl.
  intros [H1|[-> H1]] [H2|[<- H2]]; [left; by eapply str_lt_trans|by left|by left|]. right. split; [done|].
  intros H. unfold str_lt in *. destruct (str_ltb c1 c2) eqn:E12.
  - apply H2. eapply str_lt_trans; [exact H|done].
  - assert (c1 = c2) as -> by (apply str_ltb_total; [done|]; by destruct (str_ltb c2 c1)). done.
Qed.

Lemma inventory_elem s a p :
  p ∈ pending_inventory s a <-> exists j, jobs s !! pending_operation p = Some j /\ pending_of a (pending_operation p, j) = Some p.
Proof.
  unfold pending_inventory. rewrite merge_sort_Permutation, list_elem_of_omap. split.
  - intros ([op j] & Hin & Hp). apply elem_of_map_to_list in Hin.
    assert (pending_operation p = op) as <- by (unfold pending_of in Hp; repeat case_match; by simplify_eq). eauto.
  - intros (j & Hj & Hp). exists (pending_operation p, j). by rewrite elem_of_map_to_list.
Qed.

(** What makes a job of the activation pending. *)
Definition is_pending (a : nat) (j : Job) : Prop :=
  activation j = Some a /\ role j = Domain /\
  match job_output j with
  | None | Some OutInterrupted | Some (OutCancellationUnconfirmed _) => True
  | _ => False
  end.

Lemma pending_of_Some a op j : is_pending a j <-> is_Some (pending_of a (op, j)).
Proof.
  unfold is_pending, pending_of. repeat case_bool_decide; simpl; [|by rewrite is_Some_alt; naive_solver..].
  destruct (job_output j) as [[]|]; split; eauto; try (by intros (_ & _ & [])); try by intros [? [=]].
Qed.

Lemma pending_of_fields a op j p :
  pending_of a (op, j) = Some p ->
  pending_operation p = op /\ pending_name p = job_name j /\
  pending_state p = match job_output j with
                    | None => if started j then InvRunning else InvQueued
                    | Some _ => InvUnconfirmed
                    end.
Proof. unfold pending_of. intros H. repeat case_match; by simplify_eq. Qed.

Lemma inventory_nodup s a : NoDup (pending_operation <$> pending_inventory s a).
Proof.
  unfold pending_inventory. rewrite merge_sort_Permutation.
  pose proof (NoDup_fst_map_to_list (jobs s)) as Hnd. revert Hnd.
  induction (map_to_list (jobs s)) as [|[op j] l IH]; [constructor|]. rewrite fmap_cons, NoDup_cons. intros [Hn Hl].
  change (omap (pending_of a) ((op, j) :: l)) with
    (match pending_of a (op, j) with Some y => y :: omap (pending_of a) l | None => omap (pending_of a) l end).
  destruct (pending_of a (op, j)) as [p|] eqn:Ep; [|by apply IH]. rewrite fmap_cons, NoDup_cons. split; [|by apply IH].
  apply pending_of_fields in Ep as (-> & _). intros Hin. apply Hn. apply list_elem_of_fmap in Hin as (q & -> & Hq).
  apply list_elem_of_omap in Hq as ([op' j'] & Hin & Hq). apply pending_of_fields in Hq as (-> & _).
  apply list_elem_of_fmap. by exists (op', j').
Qed.

(** ** Running one task to its end

    [retained] and [answer] are what the provider answers, whatever they are. *)
Definition task_next (s : JobScheduler) (op : OperationId) (retained : Retained) (answer : ProviderCompletion) : option JobScheduler :=
  match jobs s !! op with
  | None => None
  | Some j =>
      match phase j with
      | AwaitLaunch | Finished | Panicked => None
      | CheckRetained => Some (task_retained s op j retained)
      | AwaitPermit => task_acquire s op j
      | StartCheck p => Some (task_start s op j p)
      | Calling p => Some (task_return s op j p answer)
      | Recording r => Some (task_record s op j r)
      | Settling o c => Some (task_settle s op j o c)
      | Notifying o => Some (task_notify s op j o)
      end
  end.

Fixpoint run_task (n : nat) (s : JobScheduler) (op : OperationId) (retained : Retained) (answer : ProviderCompletion) : JobScheduler :=
  match n with
  | O => s
  | S n =>
      match task_next s op retained answer with
      | None => s
      | Some s => run_task n s op retained answer
      end
  end.

Definition rank (p : TaskPhase) : nat :=
  match p with
  | AwaitLaunch | CheckRetained => 7
  | AwaitPermit => 6
  | StartCheck _ => 5
  | Calling _ => 4
  | Recording _ => 3
  | Settling _ _ => 2
  | Notifying _ => 1
  | Finished | Panicked => 0
  end.

(** The task waits for nothing but its own provider. *)
Definition runnable (s : JobScheduler) (j : Job) : Prop :=
  phase j <> AwaitLaunch /\ phase j <> Panicked /\ ((5 < rank (phase j))%nat -> holds_capacity j = true -> (0 < permits s)%nat).

Section run.
Context (op : OperationId) (retained : Retained) (answer : ProviderCompletion).

Lemma task_next_step s s' : task_next s op retained answer = Some s' -> job_step s s'.
Proof.
  unfold task_next. destruct (jobs s !! op) as [j|] eqn:Ej; [|done].
  destruct (phase j) eqn:Ep; intros H; simplify_eq; eauto using job_step.
Qed.

Lemma task_next_jobs s s' :
  task_next s op retained answer = Some s' -> exists j', jobs s' = <[op := j']> (jobs s).
Proof.
  unfold task_next, task_acquire, task_start, task_return. destruct (jobs s !! op) as [j|] eqn:Ej; [|done].
  intros H. repeat case_match; simplify_eq; eexists; try reflexivity;
    by rewrite (proj1 (give_back_fields _ _)).
Qed.

Lemma run_task_steps n s : job_steps s (run_task n s op retained answer).
Proof.
  revert s. induction n as [|n IH]; intros s; simpl; [done|].
  destruct (task_next s op retained answer) as [s'|] eqn:E; [|done]. eapply rtc_l; [by eapply task_next_step|apply IH].
Qed.

Lemma run_task_others n s op' : op' <> op -> jobs (run_task n s op retained answer) !! op' = jobs s !! op'.
Proof.
  intros Hne. revert s. induction n as [|n IH]; intros s; simpl; [done|].
  destruct (task_next s op retained answer) as [s'|] eqn:E; [|done]. rewrite IH.
  apply task_next_jobs in E as [j' ->]. by rewrite lookup_insert_ne.
Qed.

Lemma run_task_add n m s :
  run_task (n + m) s op retained answer = run_task m (run_task n s op retained answer) op retained answer.
Proof.
  revert s. induction n as [|n IH]; intros s; simpl; [done|].
  destruct (task_next s op retained answer) as [s'|] eqn:E; [apply IH|].
  destruct m; simpl; [done|]. by rewrite E.
Qed.

(** A runnable task takes a step towards its end. *)
Lemma task_next_rank s j :
  jobs s !! op = Some j -> runnable s j -> phase j <> Finished ->
  exists s' j', task_next s op retained answer = Some s' /\ jobs s' !! op = Some j' /\
    (rank (phase j') < rank (phase j))%nat /\ runnable s' j'.
Proof.
  intros Hj (Hl & Hpa & Hp) Hf. unfold task_next. rewrite Hj.
  assert (forall s' j', jobs s' = <[op := j']> (jobs s) -> (rank (phase j') < rank (phase j))%nat ->
    phase j' <> Panicked ->
    (5 < rank (phase j') -> holds_capacity j' = true -> 0 < permits s')%nat -> 
    exists s'' j'', Some s' = Some s'' /\ jobs s'' !! op = Some j'' /\
    (rank (phase j'') < rank (phase j))%nat /\ runnable s'' j'') as Hput.
  { intros s' j' E Hr Hpa' Hp'. exists s', j'. rewrite E, lookup_insert_eq. do 3 (split; [done|]). split; [|by split].
    intros E'. rewrite E' in Hr. destruct (phase j); simpl in Hr; lia. }
  destruct (phase j) eqn:Ep; try done; simpl in *.
  - eapply Hput; [reflexivity|upd_simpl; destruct retained; simpl; lia|by destruct retained|upd_simpl; destruct retained; simpl; auto with lia].
  - unfold task_acquire. destruct (holds_capacity j) eqn:Eh.
    + destruct (permits s) as [|n]; [lia|]. eapply Hput; [reflexivity|upd_simpl; lia|done|upd_simpl; lia].
    + eapply Hput; [reflexivity|upd_simpl; lia|done|upd_simpl; lia].
  - unfold task_start. destruct (cancelled_before_start s j);
      (eapply Hput; [rewrite ?(proj1 (give_back_fields _ _)); reflexivity|upd_simpl; lia|done|upd_simpl; lia]).
  - eapply Hput; [unfold task_return; rewrite (proj1 (give_back_fields _ _)); reflexivity|upd_simpl; lia|done|upd_simpl; lia].
  - eapply Hput; [reflexivity|upd_simpl; lia|done|upd_simpl; lia].
  - eapply Hput; [reflexivity|upd_simpl; lia|done|upd_simpl; lia].
  - eapply Hput; [reflexivity|upd_simpl; lia|done|upd_simpl; lia].
Qed.

Lemma run_task_finishes n s j :
  jobs s !! op = Some j -> runnable s j -> (rank (phase j) <= n)%nat ->
  exists j', jobs (run_task n s op retained answer) !! op = Some j' /\ phase j' = Finished.
Proof.
  revert s j. induction n as [|n IH]; intros s j Hj Hr Hn; simpl.
  - exists j. split; [done|]. destruct Hr as (_ & Hpa & _). destruct (phase j); simpl in Hn; try lia; done.
  - destruct (decide (rank (phase j) = 0%nat)) as [E|E].
    + assert (phase j = Finished) as Ef by (destruct Hr as (_ & Hpa & _); destruct (phase j); simpl in E; try lia; done).
      unfold task_next. rewrite Hj, Ef. eauto.
    + destruct (task_next_rank s j Hj Hr) as (s' & j' & -> & Hj' & Hlt & Hr'); [intros Ef; by rewrite Ef in E|].
      apply (IH s' j'); [done|done|lia].
Qed.

Lemma settle_job_output j o c : job_output j = None -> job_output (settle_job j o c) = Some o.
Proof. intros E. unfold settle_job. destruct c; upd_simpl; by rewrite E. Qed.

(** The provider's answer is the output of a call nobody settled before. *)
Lemma run_task_answer s j p :
  jobs s !! op = Some j -> phase j = Calling p -> job_output j = None ->
  exists j', jobs (run_task 4 s op retained answer) !! op = Some j' /\ job_output j' = Some (completion_output answer).
Proof.
  intros Hj Hp Ho. cbn [run_task].
  assert (forall s j1, jobs s !! op = Some j1 -> task_next s op retained answer =
    match phase j1 with
    | Calling p => Some (task_return s op j1 p answer)
    | Recording r => Some (task_record s op j1 r)
    | Settling o c => Some (task_settle s op j1 o c)
    | Notifying o => Some (task_notify s op j1 o)
    | _ => task_next s op retained answer
    end) as Hnext.
  { intros s0 j1 E. unfold task_next. rewrite E. by destruct (phase j1). }
  rewrite (Hnext s j Hj), Hp. erewrite Hnext; [|unfold task_return; rewrite (proj1 (give_back_fields _ _)); apply lookup_insert_eq].
  cbn [phase assign]. erewrite Hnext; [|apply lookup_insert_eq]. cbn.
  erewrite Hnext; [|apply lookup_insert_eq]. cbn.
  eexists. split; [apply lookup_insert_eq|]. cbn. destruct (job_completion j); cbn; by rewrite settle_job_output.
Qed.
End run.

Lemma holder_exists s : (0 < held s)%nat -> exists op j, jobs s !! op = Some j /\ held_permit (phase j) = true.
Proof.
  unfold held. intros H. destruct (map_choose (filter (fun e => held_permit (phase e.2) = true) (jobs s))) as (op & j & Hj).
  - intros E. rewrite E, map_size_empty in H. lia.
  - apply map_lookup_filter_Some in Hj as [Hj Hh]. eauto.
Qed.

Lemma reachable_capacity c s : job_reachable c s -> (0 < c)%nat.
Proof. intros (o & store & s0 & Hn & _). unfold JobScheduler_new in Hn. destruct c; [done|lia]. Qed.

(** A task's run ends with an output, the provider's unless one was there. *)
Lemma run_task_settles s op j retained answer :
  sched_wf s -> jobs s !! op = Some j -> runnable s j ->
  exists j', jobs (run_task 7 s op retained answer) !! op = Some j' /\ phase j' = Finished /\ is_Some (job_output j') /\
    (forall p, phase j = Calling p -> job_output j = None -> job_output j' = Some (completion_output answer)).
Proof.
  intros Hwf Hj Hrun. destruct (run_task_finishes op retained answer 7 s j Hj Hrun) as (j' & Hj' & Hf).
  { destruct (phase j); simpl; lia. }
  exists j'. assert (sched_wf (run_task 7 s op retained answer)) as Hwf' by (apply (steps_wf s); [exact Hwf|apply run_task_steps]).
  split_and!; [done|done|by apply (wf_finished j' (Hwf' op j' Hj'))|].
  intros p Hp Ho. destruct (run_task_answer op retained answer s j p Hj Hp Ho) as (k & Hk & Hko).
  assert (sched_wf (run_task 4 s op retained answer)) as Hwf4 by (apply (steps_wf s); [exact Hwf|apply run_task_steps]).
  destruct (steps_evolve _ (run_task 7 s op retained answer) op k Hwf4) as (k' & Hk' & He); [|done|].
  - change 7%nat with (4 + 3)%nat. rewrite run_task_add. apply run_task_steps.
  - assert (k' = j') as -> by congruence. by apply (ev_output _ _ He).
Qed.

Lemma held_runnable s j : held_permit (phase j) = true -> runnable s j.
Proof. intros H. split_and!; destruct (phase j); simpl in *; try done; lia. Qed.

(** When no permit is free, a task that holds one can run and return it. *)
Lemma permit_returned c s op j retained answer :
  job_reachable c s -> jobs s !! op = Some j -> phase j <> AwaitLaunch -> phase j <> Panicked -> ~ runnable s j ->
  exists op2 j2, op2 <> op /\ jobs s !! op2 = Some j2 /\ runnable s j2 /\
    (0 < permits (run_task 7 s op2 retained answer))%nat.
Proof.
  intros Hr Hj Hl Hpa Hn. pose proof (reachable_permits c s Hr) as Hc. pose proof (reachable_capacity c s Hr) as Hpos.
  assert (permits s = 0%nat) as Hp.
  { destruct (permits s) eqn:E; [done|]. exfalso. apply Hn. split; [done|]. split; [done|]. rewrite E. lia. }
  destruct (holder_exists s) as (op2 & j2 & Hj2 & Hh2); [lia|]. exists op2, j2.
  pose proof (held_runnable s j2 Hh2) as Hrun. split_and!; [|done|done|].
  - intros ->. assert (j2 = j) as -> by congruence. done.
  - destruct (run_task_settles s op2 j2 retained answer (reachable_wf c s Hr) Hj2 Hrun) as (j' & Hj' & Hf & _).
    pose proof (reachable_permits c _ (reachable_steps _ _ _ Hr (run_task_steps op2 retained answer 7 s))) as Hc'.
    assert (jobs (run_task 7 s op2 retained answer) = <[op2 := j']> (jobs s)) as E.
    { apply map_eq. intros op'. destruct (decide (op' = op2)) as [->|Hne]; [by rewrite lookup_insert_eq|].
      by rewrite lookup_insert_ne, run_task_others. }
    unfold held in Hc, Hc'. rewrite E, held_insert, Hf in Hc'. rewrite <- (insert_id (jobs s) op2 j2 Hj2), held_insert, Hh2 in Hc.
    simpl in *. lia.
Qed.

(** ** Admission of a terminal *)

Lemma admit_terminal_facts s op a claim t s1 :
  try_admit_terminal s op a claim = Ok (t, s1) ->
  claim (pending_inventory s a) = Ok tt /\ jobs s1 = jobs s /\ act_terminal (activation_state s1 a) = Some op.
Proof.
  unfold try_admit_terminal. intros H. inv_ok. simplify_eq. split_and!; [|done|].
  - destruct (claim _) as [[]|]; done.
  - unfold activation_state at 1. upd_simpl. by rewrite lookup_insert_eq.
Qed.

Lemma admit_terminal_closed s op a claim : is_closed s a = true -> is_err (try_admit_terminal s op a claim) = true.
Proof.
  intros Hc. destruct (try_admit_terminal s op a claim) as [[t s1]|] eqn:E; [|done].
  unfold try_admit_terminal in E. inv_ok. congruence.
Qed.

(** ** A run to evaluate *)

Module Demo.
Definition conversation : ConversationIdentity := Standalone "store" "root".
Definition domain_op : OperationId := {| origin := conversation; op_request := "r1"; call := "c1" |}.
Definition settle_op : OperationId := {| origin := conversation; op_request := "r1"; call := "c2" |}.

Definition admission (op : OperationId) (name : string) (role_ : InvocationRole) : Admission :=
  {| adm_operation := op; adm_agent := "root"; adm_request := Some "r1"; adm_name := name; adm_custom := false;
     adm_activation := Some 3%nat; adm_role := role_; adm_owner := false;
     adm_holds_capacity := bool_decide (role_ = Domain); adm_snapshot := None; adm_defer_launch := true;
     adm_requires_publication := false |}.

Definition s0 : JobScheduler :=
  {| owner := 9; permits := 1; jobs := ∅; activations := ∅; events := []; detached_store := "detached" |}.
Definition s1 : JobScheduler := (register s0 (admission domain_op "compile" Domain) "job:1").1.
Definition s2 : JobScheduler := (register s1 (admission settle_op "submit" Settlement) "job:2").1.
Definition s3 : JobScheduler := (release_operation s2 settle_op None).1.

Definition no_answer : ProviderCompletion :=
  {| completion_format := LegacyOpaque; completion_output := OutCompleted (Ok VNull); full_success := true;
     context := Unedited; activation_terminal := None |}.

(** The settlement call is running, the domain call is queued. *)
Definition s4 : JobScheduler := run_task 3 s3 settle_op RetainedNone no_answer.

Lemma reachable_s2 : job_reachable 1 s2.
Proof.
  exists 9%nat, "detached", s0. split; [done|].
  do 2 (eapply rtc_l; [eapply js_register, surjective_pairing|]). apply rtc_refl.
Qed.

Lemma reachable_s4 : job_reachable 1 s4.
Proof.
  eapply reachable_steps; [apply reachable_s2|]. transitivity s3; [|apply run_task_steps].
  eapply rtc_l; [eapply js_release, surjective_pairing|]. apply rtc_refl.
Qed.

(** After a cancellation request, a settlement and a claim. *)
Definition cancelled : JobScheduler :=
  match cancel_request s2 domain_op ExplicitCancellation with Ok (_, s) => s | Err _ => s2 end.
Definition fenced : JobScheduler :=
  match try_admit_terminal s4 settle_op 3 (fun _ => Ok tt) with Ok (_, s) => s | Err _ => s4 end.
Definition claimed : JobScheduler :=
  match claim_exact s2 domain_op (Standalone "store" "child") with Ok (_, s) => s | Err _ => s2 end.

Lemma cancelled_eq :
  cancel_request s2 domain_op ExplicitCancellation = Ok (Some (false, ExplicitCancellation), cancelled).
Proof. vm_compute. reflexivity. Qed.

Lemma fenced_eq :
  try_admit_terminal s4 settle_op 3 (fun _ => Ok tt) = Ok ({| terminal_operation := settle_op; terminal_activation := 3 |}, fenced).
Proof. vm_compute. reflexivity. Qed.

Lemma claimed_eq : claim_exact s2 domain_op (Standalone "store" "child") = Ok (None, claimed).
Proof. vm_compute. reflexivity. Qed.

(** The cancelled call is launched all the same and runs to its end. *)
Definition cancelled_run : JobScheduler :=
  run_task 7 (release_operation cancelled domain_op None).1 domain_op RetainedNone no_answer.

Lemma cancelled_run_steps : job_steps cancelled cancelled_run.
Proof.
  eapply rtc_l; [eapply (js_release _ domain_op None), surjective_pairing|]. apply run_task_steps.
Qed.

Lemma reachable_cancelled : job_reachable 1 cancelled.
Proof. eapply reachable_steps; [apply reachable_s2|]. apply rtc_once. eapply js_cancel_request, cancelled_eq. Qed.
End Demo.

(** ** Claims *)

(** In every reachable state each job is consistent: before its output it has no settled claimant, no publication
    and a live task; the settlement channel and the notified value are its output; a task that ended or was aborted
    left an output, so that only a panic of provider code leaves a job without one; progress is bounded; a visible
    output has no waiting claimant; a call that has not passed the start check is not started; a cancelled job has an intent. *)
Theorem jobs_invariant c s op j : job_reachable c s -> jobs s !! op = Some j -> job_wf j.
Proof. intros Hr Hj. by apply (reachable_wf c s Hr op). Qed.

Lemma jobs_invariant_witness : exists j, jobs Demo.s4 !! Demo.settle_op = Some j /\ job_wf j.
Proof.
  eexists. split; [vm_compute; reflexivity|]. apply (jobs_invariant 1 Demo.s4 Demo.settle_op); [apply Demo.reachable_s4|vm_compute; reflexivity].
Defined.

(** C29. Capacity is neither leaked nor exceeded: in every reachable state the free permits and the tasks that hold
    one add up to the capacity, through cancellations and aborts too. *)
Theorem permits_conserved c s : job_reachable c s -> (permits s + held s = c)%nat.
Proof. apply reachable_permits. Qed.

Lemma permits_conserved_witness : (permits Demo.s4 + held Demo.s4 = 1)%nat.
Proof. apply (permits_conserved 1 Demo.s4 Demo.reachable_s4). Defined.

(** C3. Finality: whatever runs later, a registered job stays registered with its handle, name, activation and role;
    an output once visible is the output every later observation returns; the first cancellation cause is kept; a
    start, a publication and every claimant are never undone. *)
Theorem outputs_final c s s' op j :
  job_reachable c s -> job_steps s s' -> jobs s !! op = Some j ->
  (exists j', jobs s' !! op = Some j' /\ evolve j j') /\
  (forall o, output s op = Ok (Some o) -> output s' op = Ok (Some o)).
Proof.
  intros Hr Hs Hj. destruct (steps_evolve s s' op j (reachable_wf c s Hr) Hs Hj) as (j' & Hj' & He).
  split; [by eauto|]. intros o. rewrite !output_visible. intros (k & Hk & Hv). assert (k = j) as -> by congruence.
  exists j'. split; [done|]. by apply (visible_evolve j); [apply (reachable_wf c s Hr op)|..].
Qed.

Lemma outputs_final_witness :
  let s5 := run_task 7 Demo.s4 Demo.settle_op RetainedNone Demo.no_answer in
  output s5 Demo.settle_op = Ok (Some (OutCompleted (Ok VNull))) /\
  forall s', job_steps s5 s' -> output s' Demo.settle_op = Ok (Some (OutCompleted (Ok VNull))).
Proof.
  intros s5. assert (output s5 Demo.settle_op = Ok (Some (OutCompleted (Ok VNull)))) as Ho by (vm_compute; reflexivity).
  split; [exact Ho|]. intros s' Hs. eapply (outputs_final 1 s5 s'); [|exact Hs|vm_compute; reflexivity|exact Ho].
  eapply reachable_steps; [apply Demo.reachable_s4|apply run_task_steps].
Defined.

(** A job that was cancelled or settled, or whose activation closed, before its start check never starts: no
    later state has it started unless it was already. *)
Theorem cancelled_never_starts c s s' op j :
  job_reachable c s -> job_steps s s' -> jobs s !! op = Some j -> cancelled_before_start s j = true ->
  exists j', jobs s' !! op = Some j' /\ started j' = started j.
Proof. intros Hr. apply steps_blocked, (reachable_wf c s Hr). Qed.

Lemma cancelled_never_starts_witness :
  exists j', jobs Demo.cancelled_run !! Demo.domain_op = Some j' /\ started j' = false.
Proof.
  destruct (jobs Demo.cancelled !! Demo.domain_op) as [j|] eqn:Ej; [|vm_compute in Ej; discriminate Ej].
  replace false with (started j) by (vm_compute in Ej; injection Ej as <-; reflexivity).
  apply (cancelled_never_starts 1 Demo.cancelled Demo.cancelled_run Demo.domain_op j);
    [apply Demo.reachable_cancelled|apply Demo.cancelled_run_steps|exact Ej|].
  vm_compute in Ej. injection Ej as <-. vm_compute. reflexivity.
Defined.

(** C4. The activation fence. A terminal is admitted only with the claim's consent on the pending inventory; from
    then on the activation has exactly that terminal, no second one is ever admitted, no domain call of the
    activation is registered any more and none that had not started starts. *)
Theorem activation_fence c s op a claim t s1 s2 :
  job_reachable c s -> try_admit_terminal s op a claim = Ok (t, s1) -> job_steps s1 s2 ->
  claim (pending_inventory s a) = Ok tt /\
  act_terminal (activation_state s2 a) = Some op /\
  (forall op' claim', is_err (try_admit_terminal s2 op' a claim') = true) /\
  (forall op' j', jobs s2 !! op' = Some j' -> role j' = Domain -> activation j' = Some a ->
    exists j, jobs s !! op' = Some j /\ started j' = started j).
Proof.
  intros Hr Ht Hs. pose proof (reachable_wf c s Hr) as Hwf. pose proof (step_wf s s1 Hwf (js_terminal _ _ _ _ _ _ Ht)) as Hwf1.
  apply admit_terminal_facts in Ht as (Hc & Ej & Ha). pose proof (steps_terminals _ _ Hs _ _ Ha) as Ha2.
  assert (is_closed s1 a = true) as Hc1 by (unfold is_closed; rewrite Ha; by apply bool_decide_eq_true_2).
  split_and!; [done|done| |].
  - intros op' claim'. apply admit_terminal_closed. unfold is_closed. rewrite Ha2. by apply bool_decide_eq_true_2.
  - intros op' j' Hj' Hd Hact. destruct (steps_no_new_domain s1 s2 a op' j') as (j & Hj & Hdj & Haj); [done..|].
    destruct (steps_blocked s1 s2 op' j) as (k & Hk & Est); [done|done|done| |].
    + unfold cancelled_before_start. rewrite Hdj, Haj, Hc1. rewrite (bool_decide_eq_true_2 (Domain = Domain)) by done. apply orb_true_r.
    + exists j. rewrite <- Ej. split; [done|congruence].
Qed.

Lemma activation_fence_witness :
  pending_inventory Demo.s4 3 =
    [{| pending_operation := Demo.domain_op; pending_name := "compile"; pending_state := InvQueued |}] /\
  forall s', job_steps Demo.fenced s' -> act_terminal (activation_state s' 3) = Some Demo.settle_op.
Proof.
  split; [vm_compute; reflexivity|]. intros s' Hs.
  apply (activation_fence 1 Demo.s4 Demo.settle_op 3 (fun _ => Ok tt) _ _ s' Demo.reachable_s4 Demo.fenced_eq Hs).
Defined.

(** The inventory a settlement sees is exact: every domain call of the activation that is queued, running or of
    unknown outcome, once each, with its name and state, and nothing else, in the order of request and call. *)
Theorem inventory_exact s a :
  StronglySorted inventory_le (pending_inventory s a) /\ NoDup (pending_operation <$> pending_inventory s a) /\
  (forall op, op ∈ pending_operation <$> pending_inventory s a <-> exists j, jobs s !! op = Some j /\ is_pending a j) /\
  (forall p, p ∈ pending_inventory s a -> exists j, jobs s !! pending_operation p = Some j /\
     pending_name p = job_name j /\
     pending_state p = match job_output j with
                       | None => if started j then InvRunning else InvQueued
                       | Some _ => InvUnconfirmed
                       end).
Proof.
  split_and!.
  - apply (StronglySorted_merge_sort _).
  - apply inventory_nodup.
  - intros op. rewrite list_elem_of_fmap. split.
    + intros (p & -> & Hp). apply inventory_elem in Hp as (j & Hj & Hp). exists j. split; [done|]. eapply pending_of_Some; eauto.
    + intros (j & Hj & Hp). apply (pending_of_Some a op) in Hp as [p Hp]. exists p.
      pose proof (pending_of_fields _ _ _ _ Hp) as (<- & _). split; [done|]. apply inventory_elem. eauto.
  - intros p Hp. apply inventory_elem in Hp as (j & Hj & Hp). exists j. split; [done|]. by apply pending_of_fields in Hp as (_ & ? & ?).
Qed.

(** A claimant is never lost. A claim of an output that is already visible returns the output every later
    observation returns; otherwise the claimant is retained, through settlement, publication and cancellation, and
    has been moved to the settled claimants whenever the output is visible. *)
Theorem claimant_never_lost c s op claimant r s1 s2 j :
  job_reachable c s -> claim_exact s op claimant = Ok (r, s1) -> job_steps s1 s2 -> jobs s2 !! op = Some j ->
  match r with
  | Some o => visible_output j = Some o
  | None => (claimant ∈ claimants j \/ claimant ∈ settled_claimants j) /\
            (is_Some (visible_output j) -> claimant ∈ settled_claimants j)
  end.
Proof.
  intros Hr Hc Hs Hj. pose proof (reachable_wf c s Hr) as Hwf.
  assert (sched_wf s1) as Hwf1 by (eapply step_wf; [exact Hwf|by apply (js_claim _ op claimant true r)]).
  apply claim_exact_cases in Hc as (j0 & Hj0 & Hc). destruct r as [o|].
  - destruct Hc as [Ho ->]. apply output_visible in Ho as (k & Hk & Hv).
    destruct (steps_evolve s s2 op k Hwf Hs Hk) as (j' & Hj' & He). assert (j' = j) as -> by congruence.
    by apply (visible_evolve k); [apply (Hwf op)|..].
  - destruct Hc as (j1 & Hj1 & Hin). destruct (steps_evolve s1 s2 op j1 Hwf1 Hs Hj1) as (j' & Hj' & He).
    assert (j' = j) as -> by congruence. pose proof (ev_claimants _ _ He claimant (or_introl Hin)) as Hk. split; [done|].
    intros Hv. rewrite (wf_visible j) in Hk; [set_solver|apply (steps_wf s1 s2 Hwf1 Hs op j Hj)|done].
Qed.

Lemma claimant_never_lost_witness :
  exists j, jobs Demo.claimed !! Demo.domain_op = Some j /\
    (Standalone "store" "child" ∈ claimants j \/ Standalone "store" "child" ∈ settled_claimants j).
Proof.
  destruct (jobs Demo.claimed !! Demo.domain_op) as [j|] eqn:Ej; [|vm_compute in Ej; discriminate Ej].
  exists j. split; [reflexivity|].
  apply (claimant_never_lost 1 Demo.s2 Demo.domain_op (Standalone "store" "child") None Demo.claimed Demo.claimed);
    [apply Demo.reachable_s2|apply Demo.claimed_eq|apply rtc_refl|exact Ej].
Defined.

(** C24. A launched job whose provider code does not panic settles. Whatever the provider answers, seven
    steps of its own task end it with an output and leave the other jobs alone, and the answer to a call that nothing settled before is its output. It can
    wait only for a permit, and then another task, which waits for none, holds one and gives it back. *)
Theorem launched_job_settles c s op j retained answer :
  job_reachable c s -> jobs s !! op = Some j -> phase j <> AwaitLaunch -> phase j <> Panicked ->
  (runnable s j ->
    let s' := run_task 7 s op retained answer in
    job_steps s s' /\ (forall op', op' <> op -> jobs s' !! op' = jobs s !! op') /\
    exists j', jobs s' !! op = Some j' /\ phase j' = Finished /\ is_Some (job_output j') /\
      (forall p, phase j = Calling p -> job_output j = None -> job_output j' = Some (completion_output answer))) /\
  (~ runnable s j ->
    exists op2 j2, op2 <> op /\ jobs s !! op2 = Some j2 /\ runnable s j2 /\
      (0 < permits (run_task 7 s op2 retained answer))%nat).
Proof.
  intros Hr Hj Hl Hpa. split.
  - intros Hrun s'. split_and!; [apply run_task_steps|intros op'; apply run_task_others|]. apply run_task_settles; [by eapply reachable_wf|done|done].
  - intros Hn. by apply (permit_returned c s op j).
Qed.

Lemma launched_job_settles_witness :
  exists j', jobs (run_task 7 Demo.s4 Demo.settle_op RetainedNone Demo.no_answer) !! Demo.settle_op = Some j' /\
    phase j' = Finished.
Proof.
  destruct (jobs Demo.s4 !! Demo.settle_op) as [j|] eqn:Ej; [|vm_compute in Ej; discriminate Ej].
  assert (phase j = Calling false) as Ep by (vm_compute in Ej; injection Ej as <-; reflexivity).
  destruct (launched_job_settles 1 Demo.s4 Demo.settle_op j RetainedNone Demo.no_answer Demo.reachable_s4 Ej) as [H _];
    [by rewrite Ep|by rewrite Ep|].
  destruct H as (_ & _ & j' & Hj' & Hf & _); [split_and!; rewrite Ep; [discriminate|discriminate|intros Hlt; exfalso; clear -Hlt; cbn in Hlt; lia]|]. exists j'. split; [exact Hj'|exact Hf].
Defined.
