(* ===== verification/Budget.v ===== *)
(** The budget of a cell: [Limits], [Counts] and [CellBudget] of
    [invocation.rs].

    One budget is shared by every model invocation of a cell; a child narrows
    it. The scopes are shared by reference, so that they are addresses of a
    heap and a budget is the list of its scopes, outermost first. Every
    operation but [narrow] holds the gate's mutex throughout and is one step. *)

From S2P Require Import Prelude Json Usage.

Record Limits := { limit_requests : Z; limit_tools : Z; limit_reported_tokens : Z; limit_seconds : Z }.

Definition Limits_default : Limits :=
  {| limit_requests := 16; limit_tools := 64; limit_reported_tokens := 128000; limit_seconds := 300 |}.

Inductive Exhausted := ExRequests | ExTools | ExReportedTokens | ExDeadline.

Record Counts := { count_requests : Z; count_tools : Z; count_reported_tokens : Z; unknown_usage_requests : Z }.

#[export] Instance Counts_eta : Eta Counts := fun c =>
  {| count_requests := count_requests c; count_tools := count_tools c;
     count_reported_tokens := count_reported_tokens c; unknown_usage_requests := unknown_usage_requests c |}.

Definition Counts_default : Counts :=
  {| count_requests := 0; count_tools := 0; count_reported_tokens := 0; unknown_usage_requests := 0 |}.

Definition record_usage (c : Counts) (usage : option Usage) : Counts :=
  match usage with
  | Some usage =>
      let c := c <| count_reported_tokens ::= (fun n => saturating_add_u64 n (known_token_subtotal usage)) |> in
      if has_reported_totals usage then c else c <| unknown_usage_requests ::= (fun n => wrapping_add_u64 n 1) |>
  | None => c <| unknown_usage_requests ::= (fun n => wrapping_add_u64 n 1) |>
  end.

Record Scope := { limits : Limits; deadline : Z; counts : Counts }.

#[export] Instance Scope_eta : Eta Scope := fun s =>
  {| limits := limits s; deadline := deadline s; counts := counts s |}.

(** What the budgets of a cell share. *)
Record Cell := { reason : option Exhausted; cancelled : bool; scopes : gmap nat Scope }.

#[export] Instance Cell_eta : Eta Cell := fun c =>
  {| reason := reason c; cancelled := cancelled c; scopes := scopes c |}.

Definition CellBudget := list nat.

(** [Instant::checked_add] in nanoseconds of a 64-bit second counter; [again]
    is the second reading of the clock. *)
Definition instant_max : Z := i64_max * 1000000000 + 999999999.

Definition deadline_after (now again seconds : Z) : Z :=
  if now + seconds * 1000000000 <=? instant_max then now + seconds * 1000000000 else again.

Definition CellBudget_new (l : Limits) (now again : Z) : Cell * CellBudget :=
  ({| reason := None; cancelled := false;
      scopes := {[0%nat := {| limits := l; deadline := deadline_after now again (limit_seconds l); counts := Counts_default |}]} |},
   [0%nat]).

Definition narrow_limits (l parent : Limits) : Limits :=
  {| limit_requests := Z.min (limit_requests l) (limit_requests parent);
     limit_tools := Z.min (limit_tools l) (limit_tools parent);
     limit_reported_tokens := Z.min (limit_reported_tokens l) (limit_reported_tokens parent);
     limit_seconds := Z.min (limit_seconds l) (limit_seconds parent) |}.

(** The new scope gets the fresh address [a]; [None] is the [unwrap] of a
    budget without scopes. *)
Definition narrow (cell : Cell) (b : CellBudget) (l : Limits) (now again : Z) (a : nat) : option (Cell * CellBudget) :=
  parent ← last b ≫= (fun p => scopes cell !! p);
  let l := narrow_limits l (limits parent) in
  let scope := {| limits := l; deadline := Z.min (deadline parent) (deadline_after now again (limit_seconds l));
                  counts := Counts_default |} in
  Some (cell <| scopes ::= <[a := scope]> |>, b ++ [a]).

Definition latch (cell : Cell) (r : Exhausted) : Cell := cell <| reason := Some r |> <| cancelled := true |>.

(** The first scope that refuses, outermost first; each reads the clock. *)
Fixpoint first_spent (cell : Cell) (b : CellBudget) (now : nat -> Z) : option Exhausted :=
  match b with
  | [] => None
  | a :: b' =>
      match scopes cell !! a with
      | Some s =>
          if deadline s <=? now a then Some ExDeadline
          else if limit_reported_tokens (limits s) <=? count_reported_tokens (counts s) then Some ExReportedTokens
          else first_spent cell b' now
      | None => first_spent cell b' now
      end
  end.

Definition check (cell : Cell) (b : CellBudget) (now : nat -> Z) : Cell * result Exhausted unit :=
  match reason cell with
  | Some r => (cell, Err r)
  | None =>
      match first_spent cell b now with
      | Some r => (latch cell r, Err r)
      | None => (cell, Ok tt)
      end
  end.

Definition exhausted (cell : Cell) (b : CellBudget) (now : nat -> Z) : option Exhausted * Cell :=
  match check cell b now with
  | (cell, Err r) => (Some r, cell)
  | (cell, Ok _) => (None, cell)
  end.

Definition full (tool : bool) (s : Scope) : bool :=
  if tool then limit_tools (limits s) <=? count_tools (counts s) else limit_requests (limits s) <=? count_requests (counts s).

Definition admit_count (tool : bool) (s : Scope) : Scope :=
  if tool then s <| counts ::= (fun c => c <| count_tools ::= (fun n => wrapping_add_u64 n 1) |>) |>
  else s <| counts ::= (fun c => c <| count_requests ::= (fun n => wrapping_add_u64 n 1) |>) |>.

Definition bump (f : Scope -> Scope) (b : CellBudget) (m : gmap nat Scope) : gmap nat Scope :=
  foldl (fun m a => alter f a m) m b.

Definition budget_admit (cell : Cell) (b : CellBudget) (tool : bool) (now : nat -> Z) : Cell * result Exhausted unit :=
  match check cell b now with
  | (cell, Err r) => (cell, Err r)
  | (cell, Ok _) =>
      if existsb (fun a => match scopes cell !! a with Some s => full tool s | None => false end) b then
        let r := if tool then ExTools else ExRequests in (latch cell r, Err r)
      else (cell <| scopes ::= bump (admit_count tool) b |>, Ok tt)
  end.

Definition usage (cell : Cell) (b : CellBudget) (u : option Usage) (now : nat -> Z) : Cell :=
  let cell := cell <| scopes ::= bump (fun s => s <| counts ::= (fun c => record_usage c u) |>) b |> in
  (check cell b now).1.

Definition budget_counts (cell : Cell) (b : CellBudget) : option Counts :=
  s ← last b ≫= (fun a => scopes cell !! a); Some (counts s).

(** ** A cell's life *)

(** [issued] are the budgets handed out, by their innermost scope; [log] are
    the admissions granted, each with the budget it was asked of. *)
Record World := { cell : Cell; issued : gmap nat CellBudget; log : list (nat * bool) }.

Definition limits_wf (l : Limits) : Prop :=
  in_u64 (limit_requests l) /\ in_u64 (limit_tools l) /\ in_u64 (limit_reported_tokens l) /\ in_u64 (limit_seconds l).

Inductive budget_step (w : World) : World -> Prop :=
| bs_narrow p b l now again a c b' :
    issued w !! p = Some b -> limits_wf l -> scopes (cell w) !! a = None ->
    narrow (cell w) b l now again a = Some (c, b') ->
    budget_step w {| cell := c; issued := <[a := b']> (issued w); log := log w |}
| bs_admit p b tool now c :
    issued w !! p = Some b -> budget_admit (cell w) b tool now = (c, Ok tt) ->
    budget_step w {| cell := c; issued := issued w; log := log w ++ [(p, tool)] |}
| bs_refuse p b tool now c r :
    issued w !! p = Some b -> budget_admit (cell w) b tool now = (c, Err r) ->
    budget_step w {| cell := c; issued := issued w; log := log w |}
| bs_exhausted p b now r c :
    issued w !! p = Some b -> exhausted (cell w) b now = (r, c) ->
    budget_step w {| cell := c; issued := issued w; log := log w |}
| bs_usage p b u now :
    issued w !! p = Some b ->
    budget_step w {| cell := usage (cell w) b u now; issued := issued w; log := log w |}.

Definition world_new (l : Limits) (now again : Z) : World :=
  let '(c, b) := CellBudget_new l now again in {| cell := c; issued := {[0%nat := b]}; log := [] |}.

(** The admissions of one kind that went through a scope. *)
Definition charged (w : World) (tool : bool) (a : nat) : nat :=
  length (filter (fun e => e.2 = tool /\ a ∈ default ([] : CellBudget) (issued w !! e.1)) (log w)).

Definition limits_le (l l' : Limits) : Prop :=
  limit_requests l <= limit_requests l' /\ limit_tools l <= limit_tools l' /\
  limit_reported_tokens l <= limit_reported_tokens l' /\ limit_seconds l <= limit_seconds l'.

#[export] Instance limits_le_preorder : PreOrder limits_le.
Proof. split; [intros l|intros l1 l2 l3]; unfold limits_le; lia. Qed.

(** A scope that contains another is no narrower. *)
Definition contains (outer inner : Scope) : Prop :=
  limits_le (limits inner) (limits outer) /\ deadline inner <= deadline outer.

#[export] Instance contains_preorder : PreOrder contains.
Proof.
  split; [intros s; split; [done|lia]|]. intros s1 s2 s3 [H1 D1] [H2 D2]. split; [by transitivity (limits s2)|lia].
Qed.

Definition scope_wf (w : World) (a : nat) (s : Scope) : Prop :=
  limits_wf (limits s) /\
  count_requests (counts s) = Z.of_nat (charged w false a) /\ count_requests (counts s) <= limit_requests (limits s) /\
  count_tools (counts s) = Z.of_nat (charged w true a) /\ count_tools (counts s) <= limit_tools (limits s).

Definition path_wf (m : gmap nat Scope) (a : nat) (b : CellBudget) : Prop :=
  last b = Some a /\ NoDup b /\
  forall x, x ∈ b -> exists outer inner, m !! x = Some outer /\ m !! a = Some inner /\ contains outer inner.

Record world_wf (w : World) : Prop := {
  ww_scopes : map_Forall (scope_wf w) (scopes (cell w));
  ww_paths : map_Forall (path_wf (scopes (cell w))) (issued w);
  ww_log : Forall (fun e => is_Some (issued w !! e.1)) (log w);
  ww_latch : cancelled (cell w) = bool_decide (is_Some (reason (cell w)))
}.

(** ** Lemmas *)

Lemma bump_lookup f b m a : NoDup b -> bump f b m !! a = if decide (a ∈ b) then f <$> m !! a else m !! a.
Proof.
  unfold bump. revert m. induction b as [|x b IH]; intros m; simpl; [done|]. rewrite NoDup_cons. intros [Hn Hd].
  rewrite IH by done. destruct (decide (a = x)) as [->|Hne].
  - rewrite decide_False by done. rewrite decide_True by (by left). by rewrite lookup_alter_eq.
  - rewrite lookup_alter_ne by done. destruct (decide (a ∈ b)) as [Hin|Hin].
    + by rewrite decide_True by (by right).
    + rewrite decide_False; [done|]. rewrite elem_of_cons. naive_solver.
Qed.

Lemma check_cases cell b now c r :
  check cell b now = (c, r) ->
  (r = Ok tt /\ c = cell /\ reason cell = None) \/ (exists e, r = Err e /\ (c = cell /\ reason cell = Some e \/ c = latch cell e /\ reason cell = None)).
Proof.
  unfold check. destruct (reason cell) as [e|] eqn:Er; [intros [= <- <-]; right; eauto|].
  destruct (first_spent cell b now) as [e|]; intros [= <- <-]; [right; eauto|by left].
Qed.

Lemma latch_cases cell b now c r :
  check cell b now = (c, r) -> scopes c = scopes cell /\
  (cancelled cell = bool_decide (is_Some (reason cell)) -> cancelled c = bool_decide (is_Some (reason c))) /\
  (forall e, reason cell = Some e -> c = cell /\ r = Err e).
Proof.
  intros H. apply check_cases in H as [(-> & -> & Hn)|(e & -> & [[-> He]|[-> Hn]])]; split_and!; try done; try congruence.
  intros e' He'. split; [done|congruence].
Qed.

Lemma path_wf_mono m m' a b :
  (forall x s, m !! x = Some s -> exists s', m' !! x = Some s' /\ limits s' = limits s /\ deadline s' = deadline s) ->
  path_wf m a b -> path_wf m' a b.
Proof.
  intros Hm (Hl & Hn & Hp). split_and!; [done|done|]. intros x Hx. destruct (Hp x Hx) as (o & i & Ho & Hi & [H1 H2]).
  destruct (Hm _ _ Ho) as (o' & Ho' & E1 & E2), (Hm _ _ Hi) as (i' & Hi' & E3 & E4).
  exists o', i'. split_and!; [done|done|]. unfold contains. rewrite E1, E2, E3, E4. done.
Qed.

Lemma bump_kept f b m x s :
  (forall s, limits (f s) = limits s /\ deadline (f s) = deadline s) -> NoDup b -> m !! x = Some s ->
  exists s', bump f b m !! x = Some s' /\ limits s' = limits s /\ deadline s' = deadline s.
Proof.
  intros Hf Hn Hx. rewrite bump_lookup, Hx by done. case_decide; simpl; [exists (f s); split; [done|apply Hf]|eauto].
Qed.

Lemma path_leaf m a b : path_wf m a b -> a ∈ b /\ is_Some (m !! a).
Proof.
  intros (Hl & _ & Hp). assert (a ∈ b) as Hin by (apply last_Some in Hl as [l' ->]; set_solver). split; [done|].
  destruct (Hp a Hin) as (o & _ & Ho & _). eauto.
Qed.

Lemma charged_app w c b p tool tool' a :
  issued w !! p = Some b ->
  charged {| cell := c; issued := issued w; log := log w ++ [(p, tool)] |} tool' a =
  (charged w tool' a + (if decide (tool = tool' /\ a ∈ b) then 1 else 0))%nat.
Proof.
  intros Hp. unfold charged. simpl. rewrite filter_app, length_app, filter_cons, filter_nil. f_equal.
  case_decide as H1; case_decide as H2; try done; simpl in H1; rewrite Hp in H1; by destruct H1, H2 || by destruct H2.
Qed.

Lemma charged_narrow w c b' a tool x :
  world_wf w -> scopes (cell w) !! a = None ->
  charged {| cell := c; issued := <[a := b']> (issued w); log := log w |} tool x = charged w tool x.
Proof.
  intros Hw Ha. unfold charged. simpl. pose proof (ww_log w Hw) as Hlog.
  induction Hlog as [|e l [b Hb] _ IH]; [done|]. rewrite !filter_cons. rewrite lookup_insert_ne.
  - case_decide; simpl; by rewrite IH.
  - intros E. destruct (path_leaf _ _ _ (ww_paths w Hw _ _ Hb)) as [_ [s Hs]]. rewrite <- E in Hs. congruence.
Qed.

Lemma charged_fresh w c b' a tool :
  world_wf w -> scopes (cell w) !! a = None ->
  charged {| cell := c; issued := <[a := b']> (issued w); log := log w |} tool a = 0%nat.
Proof.
  intros Hw Ha. rewrite charged_narrow by done. unfold charged. pose proof (ww_log w Hw) as Hlog.
  induction Hlog as [|e l [b Hb] _ IH]; [done|]. rewrite filter_cons_False; [done|]. intros [_ Hin].
  rewrite Hb in Hin. destruct (ww_paths w Hw _ _ Hb) as (_ & _ & Hp). destruct (Hp a Hin) as (o & _ & Ho & _). congruence.
Qed.

(** ** Preservation *)

(** A step that leaves the scopes alone. *)
Lemma same_scopes_wf w c :
  world_wf w -> scopes c = scopes (cell w) -> cancelled c = bool_decide (is_Some (reason c)) ->
  world_wf {| cell := c; issued := issued w; log := log w |}.
Proof. intros [H1 H2 H3 _] E Hc. constructor; simpl; [by rewrite E|by rewrite E|done|done]. Qed.

(** A step that counts in the scopes of a budget. *)
Lemma bump_wf w c b f l :
  world_wf w -> NoDup b -> (forall s, limits (f s) = limits s /\ deadline (f s) = deadline s) ->
  (forall x s, scopes (cell w) !! x = Some s -> scope_wf {| cell := c; issued := issued w; log := l |} x (if decide (x ∈ b) then f s else s)) ->
  Forall (fun e => is_Some (issued w !! e.1)) l ->
  scopes c = bump f b (scopes (cell w)) -> cancelled c = bool_decide (is_Some (reason c)) ->
  world_wf {| cell := c; issued := issued w; log := l |}.
Proof.
  intros Hw Hn Hf Hs Hl E Hc. constructor; simpl; [| |done|done].
  - intros x s Hx. rewrite E, bump_lookup in Hx by done. destruct (scopes (cell w) !! x) as [s0|] eqn:E0.
    + specialize (Hs x s0 E0). by case_decide; simplify_eq/=.
    + by case_decide.
  - intros a p Hp. eapply path_wf_mono; [|apply (ww_paths w Hw a p Hp)]. intros x s Hx. rewrite E. by apply bump_kept.
Qed.

Lemma narrow_wf w p b l now again a c b' :
  world_wf w -> issued w !! p = Some b -> limits_wf l -> scopes (cell w) !! a = None ->
  narrow (cell w) b l now again a = Some (c, b') ->
  world_wf {| cell := c; issued := <[a := b']> (issued w); log := log w |}.
Proof.
  intros Hw Hp Hl Ha. pose proof (ww_paths w Hw p b Hp) as (Hlast & Hnd & Hpath). unfold narrow. rewrite Hlast. simpl.
  destruct (scopes (cell w) !! p) as [parent|] eqn:Epar; simpl; [|done]. intros [= <- <-].
  pose proof (ww_scopes w Hw p parent Epar) as (Hlp & _).
  set (child := {| limits := _; deadline := _; counts := _ |}).
  assert (contains parent child) as Hc.
  { split; [|simpl; lia]. unfold limits_le. simpl. lia. }
  assert (a ∉ b) as Hab by (intros Hin; destruct (Hpath a Hin) as (o & _ & Ho & _); congruence).
  constructor; upd_simpl.
  - apply map_Forall_insert_2.
    + unfold scope_wf. rewrite !charged_fresh by done. simpl.
      unfold limits_wf, in_u64 in *. simpl. lia.
    + intros x s Hx. unfold scope_wf. rewrite !charged_narrow by done. by apply (ww_scopes w Hw).
  - apply map_Forall_insert_2.
    + split_and!; [by rewrite last_snoc|apply NoDup_app; split_and!; [done|set_solver|apply NoDup_singleton]|].
      intros x Hx. apply elem_of_app in Hx as [Hx| ->%list_elem_of_singleton].
      * destruct (Hpath x Hx) as (o & i & Ho & Hi & Hoi). assert (i = parent) as -> by congruence. exists o, child.
        rewrite lookup_insert_ne by congruence. rewrite lookup_insert_eq. split_and!; [done|done|]. by transitivity parent.
      * exists child, child. by rewrite lookup_insert_eq.
    + intros x q Hq. eapply path_wf_mono; [|apply (ww_paths w Hw x q Hq)]. intros y s Hy. exists s.
      rewrite lookup_insert_ne by congruence. done.
  - eapply Forall_impl; [apply (ww_log w Hw)|]. intros e [q Hq]. simpl. destruct (decide (a = e.1)) as [->|Hne].
    + rewrite lookup_insert_eq. eauto.
    + rewrite lookup_insert_ne by done. eauto.
  - apply (ww_latch w Hw).
Qed.

Lemma admit_Ok cell b tool now c :
  budget_admit cell b tool now = (c, Ok tt) ->
  reason cell = None /\ c = cell <| scopes ::= bump (admit_count tool) b |> /\
  forall a s, a ∈ b -> scopes cell !! a = Some s -> full tool s = false.
Proof.
  unfold budget_admit. destruct (check cell b now) as [c1 [[]|e]] eqn:Ec; [|done].
  apply check_cases in Ec as [(_ & -> & Hn)|(e & [=] & _)]. destruct (existsb _ b) eqn:Ee; [done|]. intros [= <-].
  split_and!; [done|done|]. intros a s Ha Hs. apply not_true_iff_false. intros Hf.
  apply not_true_iff_false in Ee. apply Ee. apply existsb_exists. exists a. rewrite Hs. by rewrite <- list_elem_of_In.
Qed.

Lemma admit_count_kept tool s : limits (admit_count tool s) = limits s /\ deadline (admit_count tool s) = deadline s.
Proof. by destruct tool. Qed.

Lemma counted_once n limit : n = Z.of_nat (Z.to_nat n) -> (limit <=? n) = false -> in_u64 limit -> wrapping_add_u64 n 1 = n + 1 /\ n + 1 <= limit.
Proof. intros Hn Hl [_ Hm]. apply Z.leb_gt in Hl. rewrite wrapping_add_u64_small by lia. lia. Qed.

Lemma admit_wf w p b tool now c :
  world_wf w -> issued w !! p = Some b -> budget_admit (cell w) b tool now = (c, Ok tt) ->
  world_wf {| cell := c; issued := issued w; log := log w ++ [(p, tool)] |}.
Proof.
  intros Hw Hp Ha. apply admit_Ok in Ha as (Hn & -> & Hfull). destruct (ww_paths w Hw p b Hp) as (_ & Hnd & _).
  eapply (bump_wf w _ b (admit_count tool)); [done|done|apply admit_count_kept| | |done|exact (ww_latch w Hw)].
  - intros x s Hx. destruct (ww_scopes w Hw x s Hx) as (Hl & R1 & R2 & T1 & T2). unfold scope_wf.
    rewrite !(charged_app _ _ b) by done. destruct Hl as (L1 & L2 & L3 & L4). destruct (decide (x ∈ b)) as [Hin|Hout].
    + specialize (Hfull x s Hin Hx). destruct tool; unfold admit_count, full in *; upd_simpl.
      * apply counted_once in Hfull as [-> Hle]; [|lia|done]. repeat case_decide; try tauto; try (exfalso; naive_solver).
        split; [by split_and!|]. simpl. lia.
      * apply counted_once in Hfull as [-> Hle]; [|lia|done]. repeat case_decide; try tauto; try (exfalso; naive_solver).
        split; [by split_and!|]. simpl. lia.
    + rewrite !decide_False by naive_solver. split; [by split_and!|]. simpl. lia.
  - apply Forall_app. split; [apply (ww_log w Hw)|]. constructor; [simpl; eauto|constructor].
Qed.

Lemma usage_wf w p b u now :
  world_wf w -> issued w !! p = Some b ->
  world_wf {| cell := usage (cell w) b u now; issued := issued w; log := log w |}.
Proof.
  intros Hw Hp. destruct (ww_paths w Hw p b Hp) as (_ & Hnd & _). unfold usage.
  set (c1 := cell w <| scopes ::= _ |>). destruct (check c1 b now) as [c r] eqn:Ec. apply latch_cases in Ec as (E & Hc & _).
  eapply (bump_wf w _ b (fun s => s <| counts ::= (fun c => record_usage c u) |>)); simpl;
    [done|done|done| |apply (ww_log w Hw)|by rewrite E|apply Hc, (ww_latch w Hw)].
  intros x s Hx. pose proof (ww_scopes w Hw x s Hx) as Hsw.
  case_decide; [|exact Hsw]. unfold record_usage.
  destruct u as [u|]; [destruct (has_reported_totals u)|]; exact Hsw.
Qed.

Lemma refuse_facts cell b tool now c r :
  budget_admit cell b tool now = (c, Err r) -> scopes c = scopes cell /\
  (cancelled cell = bool_decide (is_Some (reason cell)) -> cancelled c = bool_decide (is_Some (reason c))).
Proof.
  unfold budget_admit. destruct (check cell b now) as [c1 [[]|e]] eqn:Ec; apply latch_cases in Ec as (E & Hc & _).
  - destruct (existsb _ b); [|done]. intros [= <- <-]. split; [done|]. by destruct tool.
  - intros [= <- <-]. done.
Qed.

Lemma exhausted_facts cell b now r c :
  exhausted cell b now = (r, c) -> scopes c = scopes cell /\
  (cancelled cell = bool_decide (is_Some (reason cell)) -> cancelled c = bool_decide (is_Some (reason c))).
Proof.
  unfold exhausted. destruct (check cell b now) as [c1 [[]|e]] eqn:Ec; apply latch_cases in Ec as (E & Hc & _); by intros [= <- <-].
Qed.

Lemma budget_step_wf w w' : world_wf w -> budget_step w w' -> world_wf w'.
Proof.
  intros Hw Hs. destruct Hs as [p b l now again a c b' Hp Hl Ha Hn|p b tool now c Hp Ha|p b tool now c r Hp Ha|p b now r c Hp He|p b u now Hp].
  - by eapply narrow_wf.
  - by eapply admit_wf.
  - apply refuse_facts in Ha as [E Hc]. apply same_scopes_wf; [done|done|]. apply Hc, (ww_latch w Hw).
  - apply exhausted_facts in He as [E Hc]. apply same_scopes_wf; [done|done|]. apply Hc, (ww_latch w Hw).
  - by eapply usage_wf.
Qed.

Lemma world_new_wf l now again : limits_wf l -> world_wf (world_new l now again).
Proof.
  intros Hl. constructor; simpl; [| |constructor|done].
  - intros a s [<- <-]%lookup_singleton_Some. unfold scope_wf, charged, limits_wf, in_u64 in *. simpl. lia.
  - intros a b [<- <-]%lookup_singleton_Some. split_and!; [done|apply NoDup_singleton|].
    intros x ->%list_elem_of_singleton. eexists _, _. split_and!; [apply lookup_singleton_eq..|done].
Qed.

(** Once spent, always spent. *)
Lemma budget_step_latched w w' r : budget_step w w' -> reason (cell w) = Some r -> reason (cell w') = Some r.
Proof.
  intros Hs Hr. destruct Hs as [p b l now again a c b' _ _ _ Hn|p b tool now c _ Ha|p b tool now c e _ Ha|p b now e c _ He|p b u now _]; simpl.
  - unfold narrow in Hn. destruct (last b ≫= _); [|done]. simpl in Hn. by injection Hn as <- _.
  - apply admit_Ok in Ha as (Hn & _). congruence.
  - unfold budget_admit, check in Ha. rewrite Hr in Ha. by injection Ha as <- _.
  - unfold exhausted, check in He. rewrite Hr in He. by injection He as _ <-.
  - unfold usage, check. upd_simpl. by rewrite Hr.
Qed.

(** ** Claims *)

(** A cell's budget is enforced whatever budgets are narrowed from it and however their use interleaves. The
    requests and tools a scope has counted are exactly the admissions granted through it and its narrowed budgets,
    never more than its limits, without overflow; a narrowed scope never exceeds the limits and deadline of the
    scopes around it; and once anything is exhausted, the cell is cancelled and every budget of it refuses every
    later admission with that first reason. *)
Theorem budget_enforced l now again w :
  limits_wf l -> rtc budget_step (world_new l now again) w ->
  (forall a b s, issued w !! a = Some b -> scopes (cell w) !! a = Some s ->
    count_requests (counts s) = Z.of_nat (charged w false a) /\ count_requests (counts s) <= limit_requests (limits s) /\
    count_tools (counts s) = Z.of_nat (charged w true a) /\ count_tools (counts s) <= limit_tools (limits s) /\
    (forall x, x ∈ b -> exists outer, scopes (cell w) !! x = Some outer /\ contains outer s)) /\
  (forall r w', reason (cell w) = Some r -> rtc budget_step w w' ->
    cancelled (cell w') = true /\ forall b tool clock, budget_admit (cell w') b tool clock = (cell w', Err r)).
Proof.
  intros Hl Hs. assert (forall w w', rtc budget_step w w' -> world_wf w -> world_wf w') as Hwf.
  { induction 1; eauto using budget_step_wf. }
  pose proof (Hwf _ _ Hs (world_new_wf l now again Hl)) as Hw. split.
  - intros a b s Hb Hsc. destruct (ww_scopes w Hw a s Hsc) as (_ & R1 & R2 & T1 & T2). split_and!; try done.
    intros x Hx. destruct (ww_paths w Hw a b Hb) as (_ & _ & Hp). destruct (Hp x Hx) as (o & i & Ho & Hi & Hc).
    exists o. split; [done|]. congruence.
  - intros r w' Hr Hs'. assert (reason (cell w') = Some r) as Hr'.
    { clear -Hr Hs'. induction Hs'; eauto using budget_step_latched. }
    split; [rewrite (ww_latch w' (Hwf _ _ Hs' Hw)), Hr'; by apply bool_decide_eq_true_2|].
    intros b tool clock. unfold budget_admit, check. by rewrite Hr'.
Qed.

(** A child of one request: the second request of it exhausts the whole cell. *)
Module Spent.
Definition clock : nat -> Z := fun _ => 5.
Definition w0 : World := world_new Limits_default 0 0.
Definition child_limits : Limits :=
  {| limit_requests := 1; limit_tools := 9; limit_reported_tokens := 9; limit_seconds := 9 |}.
Definition narrowed : Cell * CellBudget := default (cell w0, []) (narrow (cell w0) [0%nat] child_limits 1 1 1).
Definition w1 : World := {| cell := narrowed.1; issued := <[1%nat := narrowed.2]> (issued w0); log := log w0 |}.
Definition w2 : World := {| cell := (budget_admit (cell w1) [0; 1]%nat false clock).1; issued := issued w1; log := log w1 ++ [(1%nat, false)] |}.
Definition w3 : World := {| cell := (budget_admit (cell w2) [0; 1]%nat false clock).1; issued := issued w2; log := log w2 |}.

Lemma run : rtc budget_step w0 w3.
Proof.
  transitivity w1; [|transitivity w2]; apply rtc_once.
  - apply (bs_narrow w0 0 [0%nat] child_limits 1 1 1 narrowed.1 narrowed.2); [vm_compute; reflexivity| |vm_compute; reflexivity..].
    unfold limits_wf, in_u64, u64_max. simpl. lia.
  - apply (bs_admit w1 1 [0; 1]%nat false clock); vm_compute; reflexivity.
  - apply (bs_refuse w2 1 [0; 1]%nat false clock _ ExRequests); vm_compute; reflexivity.
Qed.
End Spent.

Lemma budget_enforced_witness :
  cancelled (cell Spent.w3) = true /\ budget_admit (cell Spent.w3) [0%nat] true Spent.clock = (cell Spent.w3, Err ExRequests).
Proof.
  destruct (budget_enforced Limits_default 0 0 Spent.w3) as [_ H].
  - unfold limits_wf, in_u64, u64_max. simpl. lia.
  - apply Spent.run.
  - destruct (H ExRequests Spent.w3) as [H1 H2]; [vm_compute; reflexivity|apply rtc_refl|].
    split; [exact H1|apply H2].
Defined.
