(* ===== verification/Lists.v ===== *)
(** Generic facts on lists shared by the history components. *)

From S2P Require Import Prelude.

Lemma omap_cons {A B} (f : A -> option B) x (l : list A) :
  omap f (x :: l) = match f x with Some y => y :: omap f l | None => omap f l end.
Proof. done. Qed.

Lemma omap_ext_all {A B} (f g : A -> option B) (l : list A) : (forall x, f x = g x) -> omap f l = omap g l.
Proof. intros H. induction l as [|x l IH]; [done|]. by rewrite !omap_cons, H, IH. Qed.

Lemma omap_bind {A B C} (f : A -> option B) (g : B -> option C) (l : list A) :
  omap (fun x => f x ≫= g) l = omap g (omap f l).
Proof.
  induction l as [|x l IH]; [done|]. rewrite !omap_cons, IH. by destruct (f x) as [y|]; simpl; rewrite ?omap_cons.
Qed.

Lemma omap_app' {A B} (f : A -> option B) (l1 l2 : list A) : omap f (l1 ++ l2) = omap f l1 ++ omap f l2.
Proof. induction l1 as [|x l IH]; [done|]. simpl app. rewrite !omap_cons, IH. by destruct (f x). Qed.

Lemma omap_total {A B} (f : A -> B) (l : list A) : omap (fun x => Some (f x)) l = f <$> l.
Proof. induction l as [|x l IH]; [done|]. by rewrite omap_cons, IH. Qed.

Lemma omap_id {A} (l : list A) : omap Some l = l.
Proof. induction l as [|x l IH]; [done|]. by rewrite omap_cons, IH. Qed.

Lemma omap_guard {A B} (p : A -> bool) (f : A -> B) (l : list A) :
  omap (fun x => if p x then None else Some (f x)) l = f <$> List.filter (fun x => negb (p x)) l.
Proof. induction l as [|x l IH]; [done|]. rewrite omap_cons. simpl. destruct (p x); simpl; by rewrite IH. Qed.

Lemma filter_nil_iff {A} (p : A -> bool) l : List.filter p l = [] <-> Forall (fun x => p x = false) l.
Proof.
  induction l as [|x l IH]; simpl; [split; constructor|]. rewrite Forall_cons, <- IH. destruct (p x); naive_solver.
Qed.

Lemma list_bind_nil {A B} (f : A -> list B) (l : list A) : l ≫= f = [] <-> Forall (fun x => f x = []) l.
Proof.
  induction l as [|x l IH]; simpl; [split; constructor|]. rewrite Forall_cons, <- IH.
  split; [apply app_nil|]. intros [-> H]. exact H.
Qed.

Lemma Forall_snoc {A} (P : A -> Prop) l x : Forall P (l ++ [x]) <-> Forall P l /\ P x.
Proof. by rewrite Forall_app, Forall_singleton. Qed.

Lemma NoDup_snoc {A} (l : list A) x : NoDup (l ++ [x]) <-> NoDup l /\ x ∉ l.
Proof.
  rewrite NoDup_app. split.
  - intros (H1 & H2 & _). split; [done|]. intros Hx. by apply (H2 x Hx), list_elem_of_singleton.
  - intros [H1 H2]. split_and!; [done| |apply NoDup_singleton]. intros y Hy ->%list_elem_of_singleton. done.
Qed.

Lemma fmap_nil_iff {A B} (f : A -> B) l : f <$> l = [] <-> l = [].
Proof. split; [apply fmap_nil_inv|by intros ->]. Qed.

Lemma existsb_false {A} (p : A -> bool) l : existsb p l = false <-> forall x, x ∈ l -> p x = false.
Proof. rewrite <- Forall_forall. induction l; simpl; [split; constructor|]. by rewrite orb_false_iff, Forall_cons, IHl. Qed.

Lemma NoDup_omap_inj {A B} (f : A -> option B) l x y z :
  NoDup (omap f l) -> x ∈ l -> y ∈ l -> f x = Some z -> f y = Some z -> x = y.
Proof.
  induction l as [|a l IH]; [set_solver|]. intros Hnd Hx Hy Ex Ey. rewrite omap_cons in Hnd.
  assert (forall w, w ∈ l -> f w = Some z -> z ∈ omap f l) as Hin by (intros w Hw Ew; apply list_elem_of_omap; eauto).
  apply elem_of_cons in Hx as [->|Hx], Hy as [->|Hy]; try done.
  - rewrite Ex in Hnd. apply NoDup_cons in Hnd as [[] _]. by eapply Hin.
  - rewrite Ey in Hnd. apply NoDup_cons in Hnd as [[] _]. by eapply Hin.
  - apply IH; try done. destruct (f a); [by apply NoDup_cons in Hnd as [_ ?]|done].
Qed.

Lemma NoDup_fmap_inj {A B} (f : A -> B) l x y : NoDup (f <$> l) -> x ∈ l -> y ∈ l -> f x = f y -> x = y.
Proof. rewrite <- omap_total. intros. eapply (NoDup_omap_inj (fun x => Some (f x))); eauto. congruence. Qed.

Lemma omap_ext_in {A B} (f g : A -> option B) (l : list A) : (forall x, x ∈ l -> f x = g x) -> omap f l = omap g l.
Proof. induction l as [|x l IH]; [done|]. intros H. rewrite !omap_cons, (H x), IH by set_solver. done. Qed.

(** ** Stable sorting by a key: [sort_by_key] *)

Section sort.
Context {A : Type} (leb : A -> A -> bool).

Fixpoint insert_by (x : A) (l : list A) : list A :=
  match l with
  | [] => [x]
  | y :: l' => if leb x y then x :: l else y :: insert_by x l'
  end.

Definition sort_by (l : list A) : list A := foldr insert_by [] l.

Lemma insert_by_perm x l : insert_by x l ≡ₚ x :: l.
Proof. induction l as [|y l IH]; simpl; [done|]. destruct (leb x y); [done|]. rewrite IH. by constructor. Qed.

Lemma sort_by_perm l : sort_by l ≡ₚ l.
Proof. induction l as [|x l IH]; simpl; [done|]. by rewrite insert_by_perm, IH. Qed.

Context (leb_total : forall x y, leb x y = true \/ leb y x = true).
Context (leb_trans : forall x y z, leb x y = true -> leb y z = true -> leb x z = true).

Lemma insert_by_sorted x l : StronglySorted (fun a b => leb a b = true) l -> StronglySorted (fun a b => leb a b = true) (insert_by x l).
Proof.
  induction 1 as [|y l Hs IH Hy]; simpl; [repeat constructor|]. destruct (leb x y) eqn:E.
  - repeat constructor; try done. eapply Forall_impl; [exact Hy|]. eauto.
  - constructor; [done|]. rewrite insert_by_perm. constructor; [|done]. destruct (leb_total x y); congruence.
Qed.

Lemma sort_by_sorted l : StronglySorted (fun a b => leb a b = true) (sort_by l).
Proof. induction l as [|x l IH]; simpl; [constructor|]. by apply insert_by_sorted. Qed.

Lemma sort_by_id l : StronglySorted (fun a b => leb a b = true) l -> sort_by l = l.
Proof.
  induction 1 as [|x l Hs IH Hx]; [done|]. simpl. rewrite IH. destruct l as [|y l]; [done|]. simpl.
  apply Forall_cons in Hx as [-> _]. done.
Qed.
End sort.

(** A strictly sorted list is determined by its members. *)
Lemma StronglySorted_ext {A} (R : relation A) (l1 l2 : list A) :
  (forall x, ~ R x x) -> (forall x y z, R x y -> R y z -> R x z) ->
  StronglySorted R l1 -> StronglySorted R l2 -> (forall x, x ∈ l1 <-> x ∈ l2) -> l1 = l2.
Proof.
  intros Hirr Htr H1. revert l2. induction H1 as [|x l1 Hs1 IH Hx]; intros [|y l2] H2 He; [done|set_solver..|].
  inversion H2 as [|?? Hs2 Hy]; subst. rewrite Forall_forall in Hx. rewrite Forall_forall in Hy.
  assert (x = y) as ->.
  { assert (x ∈ y :: l2) as [->|Hin1]%elem_of_cons by (apply He; set_solver); [done|].
    assert (y ∈ x :: l1) as [->|Hin2]%elem_of_cons by (apply He; set_solver); [done|].
    exfalso. eapply Hirr, Htr; eauto. }
  f_equal. apply IH; [done|]. intros z. specialize (He z). rewrite !elem_of_cons in He. split; intros Hz.
  - destruct (proj1 He (or_intror Hz)) as [->|]; [by apply Hx, Hirr in Hz|done].
  - destruct (proj2 He (or_intror Hz)) as [->|]; [by apply Hy, Hirr in Hz|done].
Qed.

Lemma filter_perm {A} (p : A -> bool) l1 l2 : l1 ≡ₚ l2 -> List.filter p l1 ≡ₚ List.filter p l2.
Proof.
  induction 1 as [|x l1 l2 _ IH|x y l|l1 l2 l3 _ IH1 _ IH2]; simpl; [done|..].
  - destruct (p x); by rewrite IH.
  - destruct (p x), (p y); try done. constructor.
  - by rewrite IH1.
Qed.

Lemma Forall2_impl_elem {A B} (P Q : A -> B -> Prop) l k :
  Forall2 P l k -> (forall x y, x ∈ l -> P x y -> Q x y) -> Forall2 Q l k.
Proof. induction 1 as [|x y l k Hxy _ IH]; constructor; [set_solver|]. apply IH. set_solver. Qed.

(** The one entry of a keyed list that a partial map keeps. *)
Lemma omap_single {A B C} (f : A * B -> option C) (l : list (A * B)) k x y :
  NoDup l.*1 -> (k, x) ∈ l -> f (k, x) = Some y -> (forall k' x', (k', x') ∈ l -> k' <> k -> f (k', x') = None) -> omap f l = [y].
Proof.
  intros Hnd Hin Hf Hno. induction l as [|[k' x'] l IH]; [set_solver|]. rewrite fmap_cons, NoDup_cons in Hnd. destruct Hnd as [Hk Hnd].
  rewrite omap_cons. apply elem_of_cons in Hin as [[= <- <-]|Hin].
  - rewrite Hf. f_equal. rewrite (omap_ext_in f (fun _ => None)); [clear; by induction l|]. intros [j z] Hj. apply Hno; [set_solver|].
    intros ->. apply Hk, list_elem_of_fmap. by exists (k, z).
  - rewrite Hno; [apply IH; [done|done|]; intros; apply Hno; set_solver|set_solver|]. intros ->. apply Hk, list_elem_of_fmap. by exists (k, x).
Qed.

(** Replacing one pair of related lists, when the others stay related. *)
Lemma Forall2_insert' {A B} (P : A -> B -> Prop) l k i x y :
  (forall j a b, j <> i -> l !! j = Some a -> k !! j = Some b -> P a b) -> length l = length k -> P x y -> Forall2 P (<[i := x]> l) (<[i := y]> k).
Proof.
  intros H Hlen Hxy. apply Forall2_same_length_lookup. split; [by rewrite !length_insert|]. intros j a b Ha Hb.
  destruct (decide (j = i)) as [->|Hj].
  - pose proof (lookup_lt_Some _ _ _ Ha) as Hl. rewrite length_insert in Hl. rewrite list_lookup_insert_eq in Ha by lia. rewrite list_lookup_insert_eq in Hb by lia. congruence.
  - rewrite list_lookup_insert_ne in Ha by done. rewrite list_lookup_insert_ne in Hb by done. by eapply H.
Qed.

Lemma Forall2_filter {A B} (P : A -> B -> Prop) (p : A -> bool) (q : B -> bool) l k :
  (forall x y, P x y -> p x = q y) -> Forall2 P l k -> Forall2 P (List.filter p l) (List.filter q k).
Proof.
  intros H. induction 1 as [|x y l k Hxy _ IH]; simpl; [constructor|]. rewrite <- (H x y Hxy). destruct (p x); [by constructor|done].
Qed.

Lemma NoDup_omap {A B} (f : A -> option B) l :
  (forall x y z, f x = Some z -> f y = Some z -> x = y) -> NoDup l -> NoDup (omap f l).
Proof.
  intros Hinj. induction 1 as [|x l Hx _ IH]; [constructor|]. simpl. destruct (f x) as [z|] eqn:Ef; [|done]. constructor; [|done].
  intros (y & Hy & Hz)%list_elem_of_omap. by rewrite (Hinj x y z Ef Hz) in Hx.
Qed.

Lemma filter_sublist_impl {A} (p q : A -> bool) (l : list A) :
  (forall x, x ∈ l -> p x = true -> q x = true) -> List.filter p l `sublist_of` List.filter q l.
Proof.
  induction l as [|x l IH]; intros H; simpl; [constructor|]. assert (List.filter p l `sublist_of` List.filter q l) as IH' by (apply IH; set_solver).
  destruct (p x) eqn:Ep; [rewrite (H x) by (done || set_solver); by constructor|]. destruct (q x); [by constructor|done].
Qed.

Lemma StronglySorted_snoc {A} (R : relation A) l x : StronglySorted R l -> Forall (fun y => R y x) l -> StronglySorted R (l ++ [x]).
Proof.
  induction 1 as [|y l Hs IH Hy]; intros H; simpl; [by repeat constructor|]. apply Forall_cons in H as [Hyx H].
  constructor; [by apply IH|]. apply Forall_app. by repeat constructor.
Qed.

(** A traversal by positions. *)
Lemma bind_positions {A B} (f : A -> list B) (l : list A) :
  l ≫= f = seq 0 (length l) ≫= fun i => match l !! i with Some x => f x | None => [] end.
Proof.
  induction l as [|x l IH]; [done|]. cbn [length seq]. rewrite !bind_cons, IH. f_equal. by rewrite <- fmap_S_seq, list_fmap_bind.
Qed.

Lemma bind_filter {A B} (f : A -> list B) (p : A -> bool) (l : list A) :
  (forall x, p x = false -> f x = []) -> l ≫= f = List.filter p l ≫= f.
Proof. intros H. induction l as [|x l IH]; [done|]. rewrite bind_cons, IH. simpl. destruct (p x) eqn:Ep; [done|]. by rewrite (H x Ep). Qed.

Lemma bind_sublist {A B} (f g : A -> list B) (l : list A) : (forall x, f x `sublist_of` g x) -> (l ≫= f) `sublist_of` (l ≫= g).
Proof. intros H. induction l as [|x l IH]; simpl; [constructor|]. by apply sublist_app. Qed.

Lemma StronglySorted_seq a n : StronglySorted lt (seq a n).
Proof. revert a. induction n as [|n IH]; intros a; simpl; constructor; [done|]. apply Forall_forall. intros i Hi%elem_of_seq. lia. Qed.

Lemma sublist_StronglySorted {A} (R : relation A) l k : l `sublist_of` k -> StronglySorted R k -> StronglySorted R l.
Proof.
  induction 1 as [|x l k Hs IH|x l k Hs IH]; intros H; [done| |]; inversion H as [|?? Hk Hx]; subst; [|by apply IH].
  constructor; [by apply IH|]. rewrite Forall_forall in *. intros y Hy. apply Hx. by eapply elem_of_sublist.
Qed.

Lemma filter_all {A} (p : A -> bool) (l : list A) : (forall x, x ∈ l -> p x = true) -> List.filter p l = l.
Proof. induction l as [|x l IH]; intros H; simpl; [done|]. rewrite H by set_solver. f_equal. apply IH. set_solver. Qed.
