(* ===== verification/Admission.v ===== *)
(** The nonsecret transport contract of a run: [transport/admission.rs].

    A contract names the route, the endpoint, where the credential is read and
    the limits of inference; it is validated whenever it is read back. The
    lemmas describe what a valid contract admits. *)

From S2P Require Import Prelude Json Redaction Usage Observation Sse.

Inductive ResponsesProtocol := Standard.

#[export] Instance ResponsesProtocol_eq_dec : EqDecision ResponsesProtocol.
Proof. solve_decision. Defined.

Record InferenceLimits := {
  max_output_tokens : option Z;
  connect_timeout_secs : Z;
  total_timeout_secs : Z;
  max_inflight : Z
}.

Definition deepseek_default : InferenceLimits :=
  {| max_output_tokens := Some 65536; connect_timeout_secs := 15; total_timeout_secs := 300; max_inflight := 4 |}.

Definition chatgpt_default : InferenceLimits :=
  {| max_output_tokens := None; connect_timeout_secs := 15; total_timeout_secs := 300; max_inflight := 4 |}.

Inductive CredentialReference :=
| CredentialFile (path : string)
| CredentialEnv (name : string)
| RunAccount (launch_path run : string).

Record NativeTransportContract := {
  nt_route : ResponsesRoute;
  nt_protocol : ResponsesProtocol;
  nt_endpoint : string;
  nt_credential : CredentialReference;
  nt_limits : InferenceLimits
}.

#[export] Instance InferenceLimits_eq_dec : EqDecision InferenceLimits.
Proof. solve_decision. Defined.
#[export] Instance CredentialReference_eq_dec : EqDecision CredentialReference.
Proof. solve_decision. Defined.
#[export] Instance NativeTransportContract_eq_dec : EqDecision NativeTransportContract.
Proof. solve_decision. Defined.

Definition DEEPSEEK_ENDPOINT : string := "https://api.deepseek.com/responses".
Definition CHATGPT_PLAN_ENDPOINT : string := "https://api.openai.com/v1/responses".

(** [tokio::sync::Semaphore::MAX_PERMITS] on a 64-bit target: [usize::MAX >> 3]. *)
Definition MAX_PERMITS : Z := Z.shiftr u64_max 3.

(** The parts of a parsed [reqwest::Url]. *)
Record Url := {
  url_text : string;
  scheme : string;
  host : option string;
  port : option Z;
  username : string;
  password : option string;
  url_path : string;
  query : option string;
  fragment : option string
}.

Section admission.
(** [Url::parse]; whether a host parses as a loopback [IpAddr]; whether
    [Instant::now()] plus that many seconds is representable. *)
Variable parse_url : string -> option Url.
Variable loopback_ip : string -> bool.
Variable instant_admits : Z -> bool.

Definition strip_brackets (h : string) : string :=
  match h with
  | String "["%char rest =>
      let n := String.length rest in
      if (0 <? n)%nat && bool_decide (String.get (n - 1) rest = Some "]"%char) then String.substring 0 (n - 1) rest else h
  | _ => h
  end.

Definition numeric_loopback_endpoint (endpoint : string) : bool :=
  match parse_url endpoint with
  | None => false
  | Some url =>
      bool_decide (scheme url = "http") && bool_decide (url_text url = endpoint)
      && match port url with Some p => negb (p =? 0) | None => false end
      && loopback_ip (strip_brackets (default "" (host url)))
      && bool_decide (username url = "") && bool_decide (password url = None)
      && bool_decide (url_path url = "/responses") && bool_decide (query url = None) && bool_decide (fragment url = None)
  end.

Definition limits_valid (l : InferenceLimits) (route : ResponsesRoute) : bool :=
  negb (negb (instant_admits (total_timeout_secs l))
        || (connect_timeout_secs l =? 0)
        || (total_timeout_secs l <? connect_timeout_secs l)
        || (max_inflight l =? 0)
        || (MAX_PERMITS <? max_inflight l)
        || bool_decide (max_output_tokens l = Some 0)
        || bool_decide (route = DeepSeek) && bool_decide (max_output_tokens l = None)).

Definition env_name_char (c : ascii) : bool :=
  let n := N_of_ascii c in
  ((48 <=? n) && (n <=? 57) || (65 <=? n) && (n <=? 90) || (97 <=? n) && (n <=? 122) || (n =? 95))%N.

Definition is_absolute (path : string) : bool := String.prefix "/" path.

Definition validate_contract (c : NativeTransportContract) : result TransportError unit :=
  guard limits_valid (nt_limits c) (nt_route c) else InvalidAdmission;
  let expected := match nt_route c with ChatGptPlan => CHATGPT_PLAN_ENDPOINT | DeepSeek => DEEPSEEK_ENDPOINT end in
  refuse negb (bool_decide (nt_endpoint c = expected))
         && negb (bool_decide (nt_route c = DeepSeek) && numeric_loopback_endpoint (nt_endpoint c))
    with InvalidAdmission;
  match nt_credential c with
  | CredentialEnv name =>
      refuse negb (bool_decide (nt_route c = DeepSeek)) || bool_decide (name = "")
             || negb (forallb env_name_char (String.list_ascii_of_string name))
        with InvalidAdmission;
      Ok tt
  | CredentialFile path => guard is_absolute path else InvalidAdmission; Ok tt
  | RunAccount path run =>
      refuse negb (bool_decide (nt_route c = ChatGptPlan)) || bool_decide (run = "") with InvalidAdmission;
      guard is_absolute path else InvalidAdmission; Ok tt
  end.

(** [rehydrate]: the contract and the permits its semaphore starts with. *)
Definition rehydrate (c : NativeTransportContract) : result TransportError (NativeTransportContract * Z) :=
  do _ <- validate_contract c; Ok (c, max_inflight (nt_limits c)).

Definition chatgpt_plan (path : string) : result TransportError (NativeTransportContract * Z) :=
  rehydrate {| nt_route := ChatGptPlan; nt_protocol := Standard; nt_endpoint := CHATGPT_PLAN_ENDPOINT;
               nt_credential := CredentialFile path; nt_limits := chatgpt_default |}.

(** An admitted contract leaves room for at least one inference, keeps its
    timeouts in order and, off the plan route, bounds its output. *)
Lemma validated_limits c :
  validate_contract c = Ok tt ->
  max_inflight (nt_limits c) <> 0 /\ max_inflight (nt_limits c) <= MAX_PERMITS /\
  connect_timeout_secs (nt_limits c) <= total_timeout_secs (nt_limits c) /\
  (nt_route c = DeepSeek -> is_Some (max_output_tokens (nt_limits c))) /\
  (nt_route c = ChatGptPlan -> nt_endpoint c = CHATGPT_PLAN_ENDPOINT).
Proof.
  unfold validate_contract. destruct (limits_valid _ _) eqn:El; [|done]. intros H.
  unfold limits_valid in El. rewrite negb_true_iff, !orb_false_iff, andb_false_iff, !bool_decide_eq_false in El.
  destruct El as [[[[[[_ _] H1] H2] H3] _] H4]. split_and!; [lia..| |].
  - intros E. destruct H4 as [H4|H4]; [done|]. destruct (max_output_tokens _); [eauto|done].
  - intros E. rewrite E in H. case_bool_decide; [done|]. done.
Qed.

Lemma chatgpt_plan_admitted path :
  instant_admits 300 = true -> is_ok (chatgpt_plan path) = is_absolute path.
Proof.
  intros H. unfold chatgpt_plan, rehydrate, validate_contract, limits_valid. simpl. rewrite H. simpl.
  by destruct (is_absolute path).
Qed.
End admission.
