(* ===== verification/Item.v ===== *)
(** Conversation items: [item.rs], with the result kinds of
    [store/result_inspection.rs].

    An item is a JSON value read by its fields. The theorems show that the
    output item of a settled call reads back as what it was made from, and that the
    last positional setting decides the reasoning effort. *)

From S2P Require Import Prelude Json Redaction Usage Observation Failure StoreDb Jobs.

Inductive ToolInput :=
| FunctionInput (arguments : value)
| CustomInput (text : string).

Inductive ToolExecution := Synchronous | Asynchronous.

Inductive ToolKind := FunctionKind | CustomKind.

Record ToolCall := { tc_call_id : string; tc_name : string; tc_input : ToolInput; tc_execution : ToolExecution }.

#[export] Instance ToolKind_eq_dec : EqDecision ToolKind.
Proof. solve_decision. Defined.
#[export] Instance ToolInput_eq_dec : EqDecision ToolInput.
Proof. solve_decision. Defined.
#[export] Instance ToolExecution_eq_dec : EqDecision ToolExecution.
Proof. solve_decision. Defined.
#[export] Instance ToolCall_eq_dec : EqDecision ToolCall.
Proof. solve_decision. Defined.

Definition input_kind (i : ToolInput) : ToolKind :=
  match i with FunctionInput _ => FunctionKind | CustomInput _ => CustomKind end.

Definition item_type (item : value) : option string := get_str "type" item.

Definition user_text (text : string) : value :=
  json_object [("type", VString "message"); ("role", VString "user"); ("content", VString text)].

(** ** Reading a call *)

Definition namespace_supported (o : object) : bool :=
  match obj_get "namespace" o with
  | None | Some VNull => true
  | Some (VString ns) => bool_decide (ns = "functions")
  | Some _ => false
  end.

Definition call_execution (o : object) : result string ToolExecution :=
  match obj_get "async" o with
  | None | Some (VBool false) => Ok Synchronous
  | Some (VBool true) => Ok Asynchronous
  | Some _ => Err "invalid tool async mode"
  end.

Section text.
(** [serde_json::from_str] and [serde_json::to_string]. *)
Variable from_str : string -> option value.
Variable to_string : value -> string.

Definition call_input (kind : string) (o : object) : result string ToolInput :=
  if bool_decide (kind = "custom_tool_call") then
    do text <- ok_or (obj_get "input" o ≫= as_str) "invalid custom input"; Ok (CustomInput text)
  else
    do arguments <- ok_or (obj_get "arguments" o) "missing function arguments";
    match arguments with
    | VString text => do args <- ok_or (from_str text) "invalid function arguments"; Ok (FunctionInput args)
    | VObject m => Ok (FunctionInput (VObject m))
    | _ => Err "invalid function arguments"
    end.

Definition is_call_type (kind : string) : bool :=
  bool_decide (kind = "function_call") || bool_decide (kind = "custom_tool_call").

Definition tool_call (item : value) : result string (option ToolCall) :=
  match item_type item with
  | None => Ok None
  | Some kind =>
      if negb (is_call_type kind) then Ok None else
      do o <- ok_or (as_object item) "malformed tool call";
      guard namespace_supported o else "unsupported tool namespace";
      do execution <- call_execution o;
      do call_id <- ok_or (obj_get "call_id" o ≫= as_str) "missing call_id";
      do name <- ok_or (obj_get "name" o ≫= as_str) "missing tool name";
      do input <- call_input kind o;
      Ok (Some {| tc_call_id := call_id; tc_name := name; tc_input := input; tc_execution := execution |})
  end.

(** ** Output items *)

Definition format_text (f : OutputFormat) : string :=
  match f with LegacyOpaque => "legacy_opaque" | NativeReceiptV1 => "native_receipt_v1" end.

(** [None] is a decoding error. *)
Definition format_parse (v : value) : option OutputFormat :=
  match v with
  | VString s => if decide (s = "legacy_opaque") then Some LegacyOpaque
                 else if decide (s = "native_receipt_v1") then Some NativeReceiptV1 else None
  | VObject [(s, VNull)] => if decide (s = "legacy_opaque") then Some LegacyOpaque
                            else if decide (s = "native_receipt_v1") then Some NativeReceiptV1 else None
  | _ => None
  end.

Definition output_format (item : value) : option OutputFormat :=
  match vget "output_format" item with
  | None => Some LegacyOpaque
  | Some v => format_parse v
  end.

Definition receipt_value (r : result ToolFailure value) : value :=
  match r with Ok v => v | Err f => output_value f end.

Definition output_body (output : JobOutput) : value :=
  match output with
  | OutCompleted r => receipt_value r
  | OutCancelled => json_object [("error", VString "job cancelled")]
  | OutCancelledWithReceipt r => json_object [("error", VString "job cancelled"); ("receipt", receipt_value r)]
  | OutInterrupted => json_object [("error", VString "job interrupted")]
  | OutCancellationUnconfirmed detail =>
      json_object ([("error", VString "cancellation unconfirmed"); ("detail", VString (failure_message detail))]
                   ++ match result_receipt detail with Some r => [("result", r)] | None => [] end)
  end.

Definition output_text (kind : ToolKind) (output : JobOutput) : string :=
  match kind, output with
  | CustomKind, OutCompleted (Ok (VString text)) => text
  | _, _ => to_string (output_body output)
  end.

Definition output_type (kind : ToolKind) : string :=
  match kind with FunctionKind => "function_call_output" | CustomKind => "custom_tool_call_output" end.

Definition tool_output (call_id : string) (kind : ToolKind) (output : JobOutput) : value :=
  json_object [("type", VString (output_type kind)); ("call_id", VString call_id); ("output", VString (output_text kind output))].

(** [item["key"] = v] on an object. *)
Definition set_field (k : string) (v : value) (item : value) : value :=
  match item with VObject m => VObject (obj_insert k v m) | _ => item end.

Definition tool_output_with_format (call_id : string) (kind : ToolKind) (output : JobOutput) (format : OutputFormat) : value :=
  let item := tool_output call_id kind output in
  if bool_decide (format = LegacyOpaque) then item else set_field "output_format" (VString (format_text format)) item.

(** ** Recorded outputs *)

(** [RecordedToolOutput]. *)
Record RecordedToolOutput := { ro_item : value; ro_terminal : TerminalOutcome; ro_format : OutputFormat }.

(** [From<&JobOutput>]. *)
Definition terminal_of (output : JobOutput) : TerminalOutcome :=
  match output with
  | OutCompleted (Ok _) => Success
  | OutCompleted (Err f) => FailureOutcome (without_result_receipt f)
  | OutCancelled => Cancelled
  | OutCancelledWithReceipt (Ok _) => CancelledWithValueReceipt
  | OutCancelledWithReceipt (Err f) => CancelledWithReceipt (Err (without_result_receipt f))
  | OutInterrupted => InterruptedOutcome
  | OutCancellationUnconfirmed detail => CancellationUnconfirmed (without_result_receipt detail)
  end.

(** ** Settings *)

Definition effort_text (e : Effort) : string :=
  match e with EffortNone => "none" | Low => "low" | Medium => "medium" | High => "high" | Max => "max" end.

Definition effort_name (s : string) : option Effort :=
  if decide (s = "none") then Some EffortNone else if decide (s = "low") then Some Low
  else if decide (s = "medium") then Some Medium else if decide (s = "high") then Some High
  else if decide (s = "max") then Some Max else None.

Definition effort_parse (v : value) : option Effort :=
  match v with
  | VString s => effort_name s
  | VObject [(s, VNull)] => effort_name s
  | _ => None
  end.

Definition is_configuration_update (item : value) : bool := bool_decide (item_type item = Some "configuration_update").

Definition configuration_effort (item : value) : option Effort :=
  if is_configuration_update item then (vget "reasoning" item ≫= vget "effort") ≫= effort_parse else None.

Fixpoint find_map {A B} (f : A -> option B) (l : list A) : option B :=
  match l with [] => None | x :: l => match f x with Some y => Some y | None => find_map f l end end.

Definition effective_effort (items : list value) (default : Effort) : Effort :=
  match find_map configuration_effort (rev items) with Some e => e | None => default end.

Definition configuration_update (e : Effort) : value :=
  json_object [("type", VString "configuration_update"); ("reasoning", json_object [("effort", VString (effort_text e))])].

(** [result_inspection::output_kind]; [None] is a refusal. *)
Definition output_kind (item : value) : option ToolKind :=
  match item_type item with
  | Some t => if decide (t = "function_call_output") then Some FunctionKind
              else if decide (t = "custom_tool_call_output") then Some CustomKind else None
  | None => None
  end.

(** ** Reading outputs back *)

(** The item published for a settled call is never itself a call or a
    setting; it names the call, the call's kind and the settlement's format;
    and its text decodes to the outcome (when the encoder's text does), or
    is the raw text of a successful freeform result. *)
Theorem tool_output_reads_back call_id kind output format :
  from_str (to_string (output_body output)) = Some (output_body output) ->
  let item := tool_output_with_format call_id kind output format in
  tool_call item = Ok None /\ is_configuration_update item = false /\ output_kind item = Some kind /\
  get_str "call_id" item = Some call_id /\ output_format item = Some format /\
  exists text, get_str "output" item = Some text /\
    (from_str text = Some (output_body output) \/ kind = CustomKind /\ output = OutCompleted (Ok (VString text))).
Proof.
  intros from_to item. destruct kind, format; (split_and!; [reflexivity..|]); (eexists; split; [reflexivity|]).
  1,2: left; apply from_to.
  all: unfold output_text; destruct output as [[[]|]| | | |]; auto.
Qed.

Lemma find_map_app {A B} (f : A -> option B) l1 l2 :
  find_map f (l1 ++ l2) = match find_map f l1 with Some y => Some y | None => find_map f l2 end.
Proof. induction l1 as [|x l1 IH]; [done|]. simpl. by destruct (f x). Qed.

Lemma configuration_update_effort e : configuration_effort (configuration_update e) = Some e.
Proof. by destruct e. Qed.

(** The scan from the end is the fold of the settings in order. *)
Lemma effective_effort_fold items d :
  effective_effort items d = foldl (fun e item => default e (configuration_effort item)) d items.
Proof.
  induction items as [|item items IH] using rev_ind; [done|].
  rewrite foldl_app, <- IH. unfold effective_effort. rewrite rev_app_distr. simpl. by destruct (configuration_effort item).
Qed.
End text.

Lemma tool_output_reads_back_witness :
  let out := OutCompleted (Ok (VString "done")) in
  let item := tool_output_with_format (fun _ => "text") "c1" FunctionKind out NativeReceiptV1 in
  output_format item = Some NativeReceiptV1 /\ output_kind item = Some FunctionKind.
Proof.
  destruct (tool_output_reads_back (fun _ => Some (VString "done")) (fun _ => "text") "c1" FunctionKind
    (OutCompleted (Ok (VString "done"))) NativeReceiptV1 eq_refl) as (_ & _ & H1 & _ & H2 & _).
  split; [exact H2|exact H1].
Defined.
