(* ===== verification/ContextPatch.v ===== *)
(** Editable conversation content and its patches: [context.rs].

    A document lists the blocks of a conversation's prefix: text the agent may
    edit, and native groups whose identity the Store owns. A patch is one
    batch of edits, each naming the digest of the content it expects. The
    theorems show that a patch is accepted exactly when every edit names one
    current target and none collide, that its edits then act at once, in any
    order, and that protected native content survives every patch. *)

From S2P Require Import Prelude Lists.

Abbreviation ContextReference := string.

Inductive ContextRole := RoleUser | RoleAssistant.

Inductive ContextNativeKind := CompletedExchange | OpaqueKind | PendingKind.

Inductive ContextTextSelector :=
| MessageText (part : N)
| ToolResultText
| ReasoningText (part : N).

Record ContextVisibleText := {
  field_reference : ContextReference;
  field_selector : ContextTextSelector;
  field_text : string;
  editable : bool;
  removable : bool
}.

#[export] Instance ContextVisibleText_eta : Eta ContextVisibleText := fun f =>
  {| field_reference := field_reference f; field_selector := field_selector f; field_text := field_text f;
     editable := editable f; removable := removable f |}.

Inductive ContextBlock :=
| TextBlock (reference : option ContextReference) (role : ContextRole) (text : string) (sources : list ContextReference)
| NativeBlock (reference : ContextReference) (kind : ContextNativeKind) (preview : string) (protected : bool)
    (texts : list ContextVisibleText).

Record ContextDocument := { doc_blocks : list ContextBlock }.

#[export] Instance ContextRole_eq_dec : EqDecision ContextRole.
Proof. solve_decision. Defined.
#[export] Instance ContextNativeKind_eq_dec : EqDecision ContextNativeKind.
Proof. solve_decision. Defined.
#[export] Instance ContextTextSelector_eq_dec : EqDecision ContextTextSelector.
Proof. solve_decision. Defined.
#[export] Instance ContextVisibleText_eq_dec : EqDecision ContextVisibleText.
Proof. solve_decision. Defined.
#[export] Instance ContextBlock_eq_dec : EqDecision ContextBlock.
Proof. solve_decision. Defined.

Definition role_text (r : ContextRole) : string := match r with RoleUser => "user" | RoleAssistant => "assistant" end.

Definition role_parse (s : string) : option ContextRole :=
  if decide (s = "user") then Some RoleUser else if decide (s = "assistant") then Some RoleAssistant else None.

(** ** Versions *)

Record ContextTextVersion := { tv_reference : ContextReference; tv_selector : ContextTextSelector; tv_digest : string }.
Record ContextUnitVersion := { uv_reference : ContextReference; uv_digest : string }.

Inductive ContextTextAuthor := AuthorUser | AuthorAssistant | AuthorTool | AuthorSystem | AuthorDeveloper | AuthorUnknown.

Record ContextTextAuthorship := {
  as_reference : ContextReference;
  as_selector : ContextTextSelector;
  as_author : ContextTextAuthor;
  authored_note : bool
}.

Record ContextInspection := {
  inspected : ContextDocument;
  text_versions : list ContextTextVersion;
  unit_versions : list ContextUnitVersion;
  authorship : list ContextTextAuthorship
}.

(** ** Patches *)

Inductive ContextChange :=
| ReplaceContextText (reference : ContextReference) (selector : ContextTextSelector) (expected text : string)
| RemoveContextUnit (reference : ContextReference) (expected : string)
| AppendContextNote (text : string) (sources : list ContextReference)
| AppendRetainedExchange (source : string).

Record ContextPatch := { changes : list ContextChange }.

Inductive ContextProblemCode :=
| Stale | Missing | Ambiguous | Denied | InvalidPatch | Ineligible | AlreadyStaged | UnsupportedSelector.

Record ContextProblem := { code : ContextProblemCode; problem_reference : option ContextReference; detail : string }.

Definition problem (c : ContextProblemCode) (r : ContextReference) (d : string) : ContextProblem :=
  {| code := c; problem_reference := Some r; detail := d |}.

Record CheckState := {
  problems : list ContextProblem;
  edits : list (ContextReference * ContextTextSelector);
  removals : list ContextReference
}.

#[export] Instance CheckState_eta : Eta CheckState := fun s =>
  {| problems := problems s; edits := edits s; removals := removals s |}.

Section patch.
(** [context_digest] is the hexadecimal SHA-256; [unit_bytes] is the JSON of a
    unit's reference and fields. *)
Variable context_digest : string -> string.
Variable unit_bytes : ContextReference -> list (ContextReference * ContextTextSelector * string) -> string.

Definition field_text_versions (f : ContextVisibleText) : list ContextTextVersion :=
  if editable f then [{| tv_reference := field_reference f; tv_selector := field_selector f;
                         tv_digest := context_digest (field_text f) |}] else [].

Definition block_text_versions (b : ContextBlock) : list ContextTextVersion :=
  match b with
  | TextBlock (Some r) _ text _ => [{| tv_reference := r; tv_selector := MessageText 0; tv_digest := context_digest text |}]
  | TextBlock None _ _ _ => []
  | NativeBlock _ _ _ _ texts => texts ≫= field_text_versions
  end.

Definition field_unit_versions (f : ContextVisibleText) : list ContextUnitVersion :=
  if removable f then [{| uv_reference := field_reference f; uv_digest := context_digest (field_text f) |}] else [].

Definition block_unit_versions (b : ContextBlock) : list ContextUnitVersion :=
  match b with
  | TextBlock (Some r) _ text _ => [{| uv_reference := r; uv_digest := context_digest text |}]
  | TextBlock None _ _ _ => []
  | NativeBlock r kind _ protected texts =>
      (if negb protected && bool_decide (kind = CompletedExchange) then
         [{| uv_reference := r;
             uv_digest := context_digest (unit_bytes r ((fun f => (field_reference f, field_selector f, field_text f)) <$> texts)) |}]
       else [])
      ++ (texts ≫= field_unit_versions)
  end.

Definition inspect_context (document : ContextDocument) : ContextInspection :=
  {| inspected := document; text_versions := doc_blocks document ≫= block_text_versions;
     unit_versions := doc_blocks document ≫= block_unit_versions; authorship := [] |}.

Definition context_has_reference (document : ContextDocument) (r : ContextReference) : bool :=
  existsb (fun b => match b with
                    | TextBlock (Some r') _ _ sources => bool_decide (r' = r) || bool_decide (r ∈ sources)
                    | TextBlock None _ _ _ => false
                    | NativeBlock r' _ _ _ texts =>
                        bool_decide (r' = r) || existsb (fun f => bool_decide (field_reference f = r)) texts
                    end) (doc_blocks document).

(** ** Checking *)

Definition hex_digit (c : ascii) : bool :=
  let n := N_of_ascii c in ((48 <=? n) && (n <=? 57) || (97 <=? n) && (n <=? 102))%N.

Definition owner_digest (s : string) : bool :=
  (String.length s =? 64)%nat && forallb hex_digit (String.list_ascii_of_string s).

Definition text_matches (doc : ContextDocument) (r : ContextReference) (sel : ContextTextSelector) : list string :=
  tv_digest <$> List.filter (fun v => bool_decide (tv_reference v = r) && bool_decide (tv_selector v = sel))
                  (text_versions (inspect_context doc)).

Definition unit_matches (doc : ContextDocument) (r : ContextReference) : list string :=
  uv_digest <$> List.filter (fun v => bool_decide (uv_reference v = r)) (unit_versions (inspect_context doc)).

(** The check of one target against the versions that match it. *)
Definition target_problems (doc : ContextDocument) (r : ContextReference) (found : list string) (expected : string)
    : list ContextProblem :=
  if negb (owner_digest expected) then [problem InvalidPatch r "expected version must be an owner-issued SHA-256 digest"]
  else
    let code := match found with
                | [] => if context_has_reference doc r then Some Denied else Some Missing
                | [actual] => if bool_decide (actual = expected) then None else Some Stale
                | _ => Some Ambiguous
                end in
    match code with
    | Some c => [problem c r "target version or editable authority does not match"]
    | None => []
    end.

(** One round of the first loop; [HashSet::insert] tells whether it was new. *)
Definition check_change (doc : ContextDocument) (s : CheckState) (c : ContextChange) : CheckState :=
  match c with
  | ReplaceContextText r sel expected _ =>
      let s := if bool_decide ((r, sel) ∈ edits s)
               then s <| problems ::= (fun p => p ++ [problem InvalidPatch r "text target occurs more than once in the batch"]) |>
               else s <| edits ::= (fun e => e ++ [(r, sel)]) |> in
      s <| problems ::= (fun p => p ++ target_problems doc r (text_matches doc r sel) expected) |>
  | RemoveContextUnit r expected =>
      let s := if bool_decide (r ∈ removals s)
               then s <| problems ::= (fun p => p ++ [problem InvalidPatch r "unit target occurs more than once in the batch"]) |>
               else s <| removals ::= (fun e => e ++ [r]) |> in
      s <| problems ::= (fun p => p ++ target_problems doc r (unit_matches doc r) expected) |>
  | AppendRetainedExchange _ => s
  | AppendContextNote _ sources =>
      s <| problems ::= (fun p => p ++
        ((fun source => problem Denied source "note source is outside the inspected context") <$>
          List.filter (fun source => negb (context_has_reference doc source)) sources)) |>
  end.

(** The second loop: an edit inside a removed unit. The set of edits is visited in
    insertion order; the hash set visits it in an order of its own. *)
Definition edit_conflicts (doc : ContextDocument) (s : CheckState) : list ContextProblem :=
  (fun e => problem InvalidPatch e.1 "batch both edits and removes the same unit") <$>
    List.filter (fun e =>
      bool_decide (e.1 ∈ removals s)
      || existsb (fun b => match b with
                           | NativeBlock group _ _ _ fields =>
                               bool_decide (group ∈ removals s) && existsb (fun f => bool_decide (field_reference f = e.1)) fields
                           | _ => false
                           end) (doc_blocks doc)) (edits s).

(** The third loop: a unit removed with one of its members. *)
Definition member_conflicts (doc : ContextDocument) (s : CheckState) : list ContextProblem :=
  doc_blocks doc ≫= fun b =>
    match b with
    | NativeBlock group _ _ _ fields =>
        if bool_decide (group ∈ removals s)
           && existsb (fun f => negb (bool_decide (field_reference f = group)) && bool_decide (field_reference f ∈ removals s)) fields
        then [problem InvalidPatch group "batch removes both a unit and one of its members"] else []
    | _ => []
    end.

Definition patch_problems (doc : ContextDocument) (patch : ContextPatch) : list ContextProblem :=
  let s := foldl (check_change doc) {| problems := []; edits := []; removals := [] |} (changes patch) in
  problems s ++ edit_conflicts doc s ++ member_conflicts doc s.
End patch.

(** ** Applying *)

Definition replace_field (r : ContextReference) (sel : ContextTextSelector) (text : string) (f : ContextVisibleText)
    : ContextVisibleText :=
  if bool_decide (field_reference f = r) && bool_decide (field_selector f = sel) then f <| field_text := text |> else f.

Definition replace_text (r : ContextReference) (sel : ContextTextSelector) (text : string) (b : ContextBlock) : ContextBlock :=
  match b with
  | TextBlock (Some r') role old sources =>
      if bool_decide (r' = r) then TextBlock (Some r') role text sources else b
  | TextBlock None _ _ _ => b
  | NativeBlock g kind preview protected texts => NativeBlock g kind preview protected (replace_field r sel text <$> texts)
  end.

Definition is_unit (r : ContextReference) (b : ContextBlock) : bool :=
  match b with
  | TextBlock (Some r') _ _ _ | NativeBlock r' _ _ _ _ => bool_decide (r' = r)
  | TextBlock None _ _ _ => false
  end.

Definition remove_fields (r : ContextReference) (b : ContextBlock) : ContextBlock :=
  match b with
  | NativeBlock g kind preview protected texts =>
      NativeBlock g kind preview protected (List.filter (fun f => negb (bool_decide (field_reference f = r))) texts)
  | _ => b
  end.

Definition apply_change (bs : list ContextBlock) (c : ContextChange) : list ContextBlock :=
  match c with
  | ReplaceContextText r sel _ text => replace_text r sel text <$> bs
  | RemoveContextUnit r _ => remove_fields r <$> List.filter (fun b => negb (is_unit r b)) bs
  | AppendRetainedExchange _ => bs
  | AppendContextNote text sources => bs ++ [TextBlock None RoleAssistant text sources]
  end.

Definition check_context_patch context_digest unit_bytes (doc : ContextDocument) (patch : ContextPatch)
    : result (list ContextProblem) ContextDocument :=
  match patch_problems context_digest unit_bytes doc patch with
  | [] => Ok {| doc_blocks := foldl apply_change (doc_blocks doc) (changes patch) |}
  | ps => Err ps
  end.

(** ** The batch as one edit *)

Definition edit_targets (cs : list ContextChange) : list (ContextReference * ContextTextSelector) :=
  omap (fun c => match c with ReplaceContextText r sel _ _ => Some (r, sel) | _ => None end) cs.

Definition removal_targets (cs : list ContextChange) : list ContextReference :=
  omap (fun c => match c with RemoveContextUnit r _ => Some r | _ => None end) cs.

Definition notes (cs : list ContextChange) : list ContextBlock :=
  omap (fun c => match c with AppendContextNote text sources => Some (TextBlock None RoleAssistant text sources) | _ => None end) cs.

(** The text the batch leaves where [target] selects it. *)
Definition new_text (cs : list ContextChange) (target : ContextReference -> ContextTextSelector -> bool) (old : string) : string :=
  foldl (fun t c => match c with
                    | ReplaceContextText r sel _ text => if target r sel then text else t
                    | _ => t
                    end) old cs.

Definition batch_field (cs : list ContextChange) (f : ContextVisibleText) : option ContextVisibleText :=
  if bool_decide (field_reference f ∈ removal_targets cs) then None
  else Some (f <| field_text := new_text cs (fun r sel => bool_decide (field_reference f = r) && bool_decide (field_selector f = sel))
                                 (field_text f) |>).

Definition batch_block (cs : list ContextChange) (b : ContextBlock) : option ContextBlock :=
  match b with
  | TextBlock None _ _ _ => Some b
  | TextBlock (Some r) role old sources =>
      if bool_decide (r ∈ removal_targets cs) then None
      else Some (TextBlock (Some r) role (new_text cs (fun r' _ => bool_decide (r = r')) old) sources)
  | NativeBlock g kind preview protected texts =>
      if bool_decide (g ∈ removal_targets cs) then None
      else Some (NativeBlock g kind preview protected (omap (batch_field cs) texts))
  end.

Definition batch (cs : list ContextChange) (bs : list ContextBlock) : list ContextBlock :=
  omap (batch_block cs) bs ++ notes cs.

(** ** Sequential application is the batch *)

Lemma removal_targets_app cs c :
  removal_targets (cs ++ [c]) = removal_targets cs ++ match c with RemoveContextUnit r _ => [r] | _ => [] end.
Proof. unfold removal_targets. rewrite omap_app'. by destruct c. Qed.

Lemma new_text_app cs c target old :
  new_text (cs ++ [c]) target old =
  match c with
  | ReplaceContextText r sel _ text => if target r sel then text else new_text cs target old
  | _ => new_text cs target old
  end.
Proof. unfold new_text. by rewrite foldl_app. Qed.

(** One more change acts on what the batch so far left of a block. *)
Definition change_block (c : ContextChange) (b : ContextBlock) : option ContextBlock :=
  match c with
  | ReplaceContextText r sel _ text => Some (replace_text r sel text b)
  | RemoveContextUnit r _ => if is_unit r b then None else Some (remove_fields r b)
  | _ => Some b
  end.

Definition change_field (c : ContextChange) (f : ContextVisibleText) : option ContextVisibleText :=
  match c with
  | ReplaceContextText r sel _ text => Some (replace_field r sel text f)
  | RemoveContextUnit r _ => if bool_decide (field_reference f = r) then None else Some f
  | _ => Some f
  end.

Lemma batch_field_app cs c f : batch_field (cs ++ [c]) f = batch_field cs f ≫= change_field c.
Proof.
  unfold batch_field. rewrite removal_targets_app, new_text_app.
  destruct (bool_decide (field_reference f ∈ removal_targets cs)) eqn:E.
  - apply bool_decide_eq_true in E. rewrite bool_decide_eq_true_2; [done|]. apply elem_of_app. by left.
  - apply bool_decide_eq_false in E. destruct c as [r sel e t|r e|t s|s]; simpl; rewrite ?app_nil_r.
    + rewrite bool_decide_eq_false_2 by done. f_equal. unfold replace_field. upd_simpl.
      by destruct (bool_decide _ && bool_decide _).
    + case_bool_decide as H1; case_bool_decide as H2; try done; set_solver.
    + by rewrite bool_decide_eq_false_2.
    + by rewrite bool_decide_eq_false_2.
Qed.

Lemma omap_change_field c fs :
  omap (change_field c) fs =
  match c with
  | ReplaceContextText r sel _ text => replace_field r sel text <$> fs
  | RemoveContextUnit r _ => List.filter (fun f => negb (bool_decide (field_reference f = r))) fs
  | _ => fs
  end.
Proof.
  induction fs as [|f fs IH]; [by destruct c|]. rewrite omap_cons, IH.
  destruct c as [r sel e t|r e|t s|s]; simpl; try done. by destruct (bool_decide _).
Qed.

Lemma batch_block_app cs c b : batch_block (cs ++ [c]) b = batch_block cs b ≫= change_block c.
Proof.
  destruct b as [[r|] role old sources|g kind pv pr fs]; simpl.
  - rewrite removal_targets_app, new_text_app. case_bool_decide as H1; case_bool_decide as H2; simpl.
    + done.
    + destruct c as [r' sel e t|r' e|t s|s]; simpl in *; try (rewrite app_nil_r in H1; done).
      rewrite bool_decide_eq_true_2; [done|]. set_solver.
    + set_solver.
    + destruct c as [r' sel e t|r' e|t s|s]; simpl in *; try done.
      * by case_bool_decide.
      * rewrite bool_decide_eq_false_2; [done|]. set_solver.
  - by destruct c.
  - rewrite removal_targets_app. case_bool_decide as H1; case_bool_decide as H2; simpl.
    + done.
    + destruct c as [r' sel e t|r' e|t s|s]; simpl in *; try (rewrite app_nil_r in H1; done).
      rewrite bool_decide_eq_true_2; [done|]. set_solver.
    + set_solver.
    + rewrite (omap_ext_all _ _ _ (batch_field_app cs c)), omap_bind, omap_change_field.
      destruct c as [r' sel e t|r' e|t s|s]; simpl in *; try done.
      rewrite bool_decide_eq_false_2; [done|]. set_solver.
Qed.

Lemma apply_change_omap bs c : apply_change bs c = omap (change_block c) bs ++ notes [c].
Proof.
  unfold change_block, notes. destruct c as [r sel e t|r e|t s|s]; cbn [apply_change].
  - rewrite omap_total. symmetry. apply app_nil_r.
  - rewrite omap_guard. symmetry. apply app_nil_r.
  - by rewrite omap_id.
  - rewrite omap_id. symmetry. apply app_nil_r.
Qed.

Lemma notes_inert cs c : omap (change_block c) (notes cs) = notes cs.
Proof.
  unfold notes. induction cs as [|c' cs IH]; [done|]. rewrite omap_cons. destruct c'; try exact IH.
  rewrite omap_cons, IH. by destruct c.
Qed.

Lemma batch_nil bs : batch [] bs = bs.
Proof.
  unfold batch, notes. simpl. rewrite app_nil_r. induction bs as [|b bs IHb]; [done|]. rewrite omap_cons, IHb.
  destruct b as [[r|]|g k pv pr fs]; simpl; [done..|]. do 2 f_equal. induction fs as [|f fs IHf]; [done|].
  rewrite omap_cons, IHf. by destruct f.
Qed.

Lemma apply_changes_batch cs bs : foldl apply_change bs cs = batch cs bs.
Proof.
  induction cs as [|c cs IH] using rev_ind; [by rewrite batch_nil|].
  rewrite foldl_app, IH. simpl. rewrite apply_change_omap. unfold batch.
  rewrite omap_app', notes_inert, (omap_ext_all _ _ bs (batch_block_app cs c)), omap_bind, <- app_assoc.
  f_equal. symmetry. apply omap_app'.
Qed.

(** ** Acceptance *)

Section accept.
Variable context_digest : string -> string.
Variable unit_bytes : ContextReference -> list (ContextReference * ContextTextSelector * string) -> string.

(** One change is in order: it names exactly one target, at its current version. *)
Definition change_ok (doc : ContextDocument) (c : ContextChange) : Prop :=
  match c with
  | ReplaceContextText r sel expected _ =>
      owner_digest expected = true /\ text_matches context_digest unit_bytes doc r sel = [expected]
  | RemoveContextUnit r expected =>
      owner_digest expected = true /\ unit_matches context_digest unit_bytes doc r = [expected]
  | AppendContextNote _ sources => Forall (fun s => context_has_reference doc s = true) sources
  | AppendRetainedExchange _ => True
  end.

(** The changes of a batch do not collide. *)
Definition no_conflict (doc : ContextDocument) (cs : list ContextChange) : Prop :=
  (forall r sel, (r, sel) ∈ edit_targets cs -> r ∉ removal_targets cs) /\
  (forall g k pv pr fs f, NativeBlock g k pv pr fs ∈ doc_blocks doc -> g ∈ removal_targets cs -> f ∈ fs ->
     (forall sel, (field_reference f, sel) ∉ edit_targets cs) /\
     (field_reference f <> g -> field_reference f ∉ removal_targets cs)).

Definition patch_ok (doc : ContextDocument) (patch : ContextPatch) : Prop :=
  NoDup (edit_targets (changes patch)) /\ NoDup (removal_targets (changes patch)) /\
  Forall (change_ok doc) (changes patch) /\ no_conflict doc (changes patch).

Lemma target_problems_nil doc r found expected :
  target_problems doc r found expected = [] <-> owner_digest expected = true /\ found = [expected].
Proof.
  unfold target_problems. destruct (owner_digest expected); simpl; [|naive_solver].
  destruct found as [|actual [|? ?]]; [destruct (context_has_reference doc r); naive_solver| |naive_solver].
  case_bool_decide; naive_solver.
Qed.

(** The state of the first loop. *)
Lemma check_loop doc cs :
  let s := foldl (check_change context_digest unit_bytes doc) {| problems := []; edits := []; removals := [] |} cs in
  (problems s = [] <-> NoDup (edit_targets cs) /\ NoDup (removal_targets cs) /\ Forall (change_ok doc) cs) /\
  (forall x, x ∈ edits s <-> x ∈ edit_targets cs) /\ (forall x, x ∈ removals s <-> x ∈ removal_targets cs).
Proof.
  induction cs as [|c cs IH] using rev_ind; cbv zeta in *.
  - simpl. split_and!; try done. split; [intros _; split_and!; constructor|done].
  - rewrite foldl_app. simpl foldl. set (s := foldl _ _ cs) in *. destruct IH as (IHp & IHe & IHr).
    rewrite removal_targets_app, Forall_snoc.
    assert (edit_targets (cs ++ [c]) = edit_targets cs ++ match c with ReplaceContextText r sel _ _ => [(r, sel)] | _ => [] end) as ->.
    { unfold edit_targets. rewrite omap_app'. by destruct c. }
    destruct c as [r sel e t|r e|t srcs|src]; simpl; rewrite ?app_nil_r.
    + destruct (bool_decide ((r, sel) ∈ edits s)) eqn:E; upd_simpl; rewrite ?app_nil, ?target_problems_nil, ?NoDup_snoc.
      * apply bool_decide_eq_true, IHe in E. set_solver.
      * apply bool_decide_eq_false in E. rewrite IHe in E. set_solver.
    + destruct (bool_decide (r ∈ removals s)) eqn:E; upd_simpl; rewrite ?app_nil, ?target_problems_nil, ?NoDup_snoc.
      * apply bool_decide_eq_true, IHr in E. set_solver.
      * apply bool_decide_eq_false in E. rewrite IHr in E. set_solver.
    + upd_simpl. rewrite app_nil, fmap_nil_iff, filter_nil_iff, IHp. setoid_rewrite negb_false_iff. naive_solver.
    + naive_solver.
Qed.

Lemma edit_targets_elem cs r sel :
  (r, sel) ∈ edit_targets cs <-> exists e t, ReplaceContextText r sel e t ∈ cs.
Proof.
  unfold edit_targets. rewrite list_elem_of_omap. split.
  - intros ([] & Hin & ?); simplify_eq. eauto.
  - intros (e & t & Hin). by exists (ReplaceContextText r sel e t).
Qed.

Lemma removal_targets_elem cs r : r ∈ removal_targets cs <-> exists e, RemoveContextUnit r e ∈ cs.
Proof.
  unfold removal_targets. rewrite list_elem_of_omap. split.
  - intros ([] & Hin & ?); simplify_eq. eauto.
  - intros (e & Hin). by exists (RemoveContextUnit r e).
Qed.

(** The two conflict loops are silent exactly when the batch has no conflict. *)
Lemma conflicts_nil doc cs s :
  (forall x, x ∈ edits s <-> x ∈ edit_targets cs) -> (forall x, x ∈ removals s <-> x ∈ removal_targets cs) ->
  edit_conflicts doc s ++ member_conflicts doc s = [] <-> no_conflict doc cs.
Proof.
  intros He Hr. rewrite app_nil. unfold edit_conflicts, member_conflicts, no_conflict.
  rewrite fmap_nil_iff, filter_nil_iff, list_bind_nil, !Forall_forall. setoid_rewrite orb_false_iff.
  setoid_rewrite existsb_false. setoid_rewrite bool_decide_eq_false. setoid_rewrite He. setoid_rewrite Hr. split.
  - intros [H1 H2]. split; [intros r sel Hin; apply (H1 _ Hin)|]. intros g k pv pr fs f Hb Hg Hf. split.
    + intros sel Hin. destruct (H1 _ Hin) as [_ H]. specialize (H _ Hb). simpl in H.
      rewrite andb_false_iff, bool_decide_eq_false, existsb_false, Hr in H. destruct H as [H|H]; [done|].
      specialize (H _ Hf). by apply bool_decide_eq_false in H.
    + intros Hne Hin. specialize (H2 _ Hb). simpl in H2. destruct (_ && _) eqn:E; [done|].
      rewrite andb_false_iff, bool_decide_eq_false, existsb_false, Hr in E. destruct E as [E|E]; [done|].
      specialize (E _ Hf). rewrite andb_false_iff, negb_false_iff, bool_decide_eq_true, bool_decide_eq_false, Hr in E. naive_solver.
  - intros [H1 H2]. split.
    + intros [r sel] Hin. split; [by apply (H1 r sel)|]. intros [|g k pv pr fs] Hb; [done|].
      rewrite andb_false_iff, bool_decide_eq_false, existsb_false, Hr. destruct (decide (g ∈ removal_targets cs)); [right|by left].
      intros f Hf. apply bool_decide_eq_false. simpl. intros <-.
      destruct (H2 g k pv pr fs f) as [Hno _]; try done. by apply (Hno sel).
    + intros [|g k pv pr fs] Hb; [done|]. destruct (_ && _) eqn:E; [|done].
      rewrite andb_true_iff, bool_decide_eq_true, Hr, existsb_exists in E. destruct E as (Hg & f & Hf & E).
      rewrite andb_true_iff, negb_true_iff, bool_decide_eq_false, bool_decide_eq_true, Hr in E.
      apply list_elem_of_In in Hf. destruct (H2 g k pv pr fs f Hb Hg Hf). naive_solver.
Qed.

Lemma patch_problems_nil doc patch :
  patch_problems context_digest unit_bytes doc patch = [] <-> patch_ok doc patch.
Proof.
  unfold patch_problems, patch_ok. destruct (check_loop doc (changes patch)) as (Hp & He & Hr). cbv zeta in *.
  rewrite app_nil, (conflicts_nil _ _ _ He Hr), Hp. tauto.
Qed.


Lemma patch_ok_batch doc patch doc' :
  check_context_patch context_digest unit_bytes doc patch = Ok doc' <->
  patch_ok doc patch /\ doc' = {| doc_blocks := batch (changes patch) (doc_blocks doc) |}.
Proof.
  unfold check_context_patch. rewrite apply_changes_batch, <- patch_problems_nil.
  destruct (patch_problems _ _ doc patch) eqn:E; naive_solver.
Qed.

(** C5. A patch is accepted exactly when every change names one target of the
    document at its current version (or a note whose sources are all in it) and no two changes
    collide; the accepted document is then the one where every edit acts at
    once: removed units and fields are gone, edited texts replaced, everything
    else unchanged and in order, the notes at the end. Any refused patch
    returns its problems and no document. *)
Theorem patch_accepted_iff doc patch doc' :
  check_context_patch context_digest unit_bytes doc patch = Ok doc' <->
  patch_ok doc patch /\ doc' = {| doc_blocks := batch (changes patch) (doc_blocks doc) |}.
Proof. apply patch_ok_batch. Qed.

(** ** Native groups *)

Definition block_reference (b : ContextBlock) : option ContextReference :=
  match b with TextBlock r _ _ _ => r | NativeBlock g _ _ _ _ => Some g end.

Definition block_fields (b : ContextBlock) : list ContextVisibleText :=
  match b with TextBlock _ _ _ _ => [] | NativeBlock _ _ _ _ fs => fs end.

Definition field_key (f : ContextVisibleText) : ContextReference * ContextTextSelector := (field_reference f, field_selector f).

(** A group no patch may remove. *)
Definition group_sealed (b : ContextBlock) : bool :=
  match b with TextBlock _ _ _ _ => false | NativeBlock _ k _ pr _ => pr || negb (bool_decide (k = CompletedExchange)) end.

(** References identify one block and one field; the fields of one occurrence
    are removable together; no sealed group is named by a removable field. *)
Definition wf_blocks (bs : list ContextBlock) : Prop :=
  NoDup (omap block_reference bs) /\
  NoDup (field_key <$> (bs ≫= block_fields)) /\
  Forall (fun b => Forall (fun f =>
    Forall (fun b' => block_reference b' = Some (field_reference f) -> b = b') bs /\
    (removable f = true -> group_sealed b = true -> block_reference b <> Some (field_reference f)) /\
    Forall (fun f' => field_reference f' = field_reference f -> removable f' = removable f) (bs ≫= block_fields))
    (block_fields b)) bs.

#[export] Instance wf_blocks_dec bs : Decision (wf_blocks bs).
Proof. unfold wf_blocks. apply _. Defined.

(** What no patch may change: identity, kind, preview and protection of each
    sealed group, and its fields that are neither editable nor removable. *)
Definition sealed_group (b : ContextBlock) : option (ContextReference * ContextNativeKind * string * bool * list ContextVisibleText) :=
  match b with
  | NativeBlock g k pv pr fs =>
      if group_sealed b then Some (g, k, pv, pr, List.filter (fun f => negb (editable f) && negb (removable f)) fs) else None
  | TextBlock _ _ _ _ => None
  end.

Definition sealed_groups (doc : ContextDocument) := omap sealed_group (doc_blocks doc).

Lemma unit_match_source doc r e :
  unit_matches context_digest unit_bytes doc r = [e] ->
  exists b, b ∈ doc_blocks doc /\
    (block_reference b = Some r /\ group_sealed b = false \/
     exists f, f ∈ block_fields b /\ field_reference f = r /\ removable f = true).
Proof.
  intros H. unfold unit_matches, inspect_context in H. simpl in H. set (vs := _ ≫= _) in H.
  assert (exists v, v ∈ vs /\ uv_reference v = r) as (v & Hv & <-).
  { destruct (List.filter _ vs) as [|v l] eqn:E; [done|]. exists v.
    assert (In v (List.filter (fun v => bool_decide (uv_reference v = r)) vs)) as [Hin Hr]%filter_In by (rewrite E; by left).
    split; [by apply list_elem_of_In|]. by apply bool_decide_eq_true in Hr. }
  unfold vs in Hv. apply list_elem_of_bind in Hv as (b & Hv & Hb). exists b. split; [done|].
  destruct b as [[r|]|g k pv pr fs]; simpl in Hv.
  - apply list_elem_of_singleton in Hv as ->. by left.
  - set_solver.
  - apply elem_of_app in Hv as [Hv|Hv].
    + left. destruct pr; [set_solver|]. simpl in *. case_bool_decide; [|set_solver].
      apply list_elem_of_singleton in Hv as ->. done.
    + right. apply list_elem_of_bind in Hv as (f & Hv & Hf). exists f. unfold field_unit_versions in Hv.
      destruct (removable f) eqn:E; [|set_solver]. apply list_elem_of_singleton in Hv as ->. done.
Qed.

Lemma text_match_source doc r sel e :
  text_matches context_digest unit_bytes doc r sel = [e] ->
  exists b, b ∈ doc_blocks doc /\
    (block_reference b = Some r /\ block_fields b = [] \/
     exists f, f ∈ block_fields b /\ field_key f = (r, sel) /\ editable f = true).
Proof.
  intros H. unfold text_matches, inspect_context in H. simpl in H. set (vs := _ ≫= _) in H.
  assert (exists v, v ∈ vs /\ tv_reference v = r /\ tv_selector v = sel) as (v & Hv & <- & <-).
  { destruct (List.filter _ vs) as [|v l] eqn:E; [done|]. exists v.
    assert (In v (List.filter (fun v => bool_decide (tv_reference v = r) && bool_decide (tv_selector v = sel)) vs))
      as [Hin Hr]%filter_In by (rewrite E; by left).
    split; [by apply list_elem_of_In|]. by rewrite andb_true_iff, !bool_decide_eq_true in Hr. }
  unfold vs in Hv. apply list_elem_of_bind in Hv as (b & Hv & Hb). exists b. split; [done|].
  destruct b as [[r|]|g k pv pr fs]; simpl in Hv.
  - apply list_elem_of_singleton in Hv as ->. by left.
  - set_solver.
  - right. apply list_elem_of_bind in Hv as (f & Hv & Hf). exists f. unfold field_text_versions in Hv.
    destruct (editable f) eqn:E; [|set_solver]. apply list_elem_of_singleton in Hv as ->. done.
Qed.

Lemma refs_unique bs b b' r :
  NoDup (omap block_reference bs) -> b ∈ bs -> b' ∈ bs -> block_reference b = Some r -> block_reference b' = Some r -> b = b'.
Proof. intros. by eapply (NoDup_omap_inj block_reference bs). Qed.

(** The removals of an accepted patch miss every sealed group and every field
    that is not removable. *)
Lemma removals_miss doc patch b :
  wf_blocks (doc_blocks doc) -> patch_ok doc patch -> b ∈ doc_blocks doc -> group_sealed b = true ->
  (forall g, block_reference b = Some g -> g ∉ removal_targets (changes patch)) /\
  (forall f, f ∈ block_fields b -> removable f = false -> field_reference f ∉ removal_targets (changes patch)).
Proof.
  intros (Hrefs & Hkeys & Hf) (_ & _ & Hok & _) Hb Hs. rewrite Forall_forall in Hf; rewrite Forall_forall in Hok.
  assert (forall r, r ∈ removal_targets (changes patch) -> exists b', b' ∈ doc_blocks doc /\
    (block_reference b' = Some r /\ group_sealed b' = false \/
     exists f, f ∈ block_fields b' /\ field_reference f = r /\ removable f = true)) as Hsrc.
  { intros r (e & Hin)%removal_targets_elem. apply Hok in Hin as [_ Hm]. by apply unit_match_source in Hm. }
  split.
  - intros g Hg Hin. destruct (Hsrc g Hin) as (b' & Hb' & [[Hr' Hs']|(f & Hff & <- & Hrm)]).
    + rewrite (refs_unique _ b b' g Hrefs Hb Hb' Hg Hr') in Hs. congruence.
    + pose proof (Hf _ Hb') as Hfb. rewrite Forall_forall in Hfb. destruct (Hfb _ Hff) as (H1 & H2 & _).
      rewrite Forall_forall in H1. specialize (H1 _ Hb Hg) as ->. by apply H2.
  - intros f Hff Hnr Hin. pose proof (Hf _ Hb) as Hfb. rewrite Forall_forall in Hfb. destruct (Hfb _ Hff) as (H1 & _ & H3).
    rewrite Forall_forall in H1; rewrite Forall_forall in H3. destruct (Hsrc _ Hin) as (b' & Hb' & [[Hr' Hs']|(f' & Hff' & Heq & Hrm)]).
    + rewrite (H1 _ Hb' Hr') in Hs. congruence.
    + rewrite H3 in Hrm; [congruence| |done]. apply list_elem_of_bind. eauto.
Qed.

(** The edits of an accepted patch miss every field that is not editable. *)
Lemma edits_miss doc patch b f r sel :
  wf_blocks (doc_blocks doc) -> patch_ok doc patch -> b ∈ doc_blocks doc -> f ∈ block_fields b -> editable f = false ->
  (r, sel) ∈ edit_targets (changes patch) -> field_key f <> (r, sel).
Proof.
  intros (Hrefs & Hkeys & Hf) (_ & _ & Hok & _) Hb Hff Hne Hin Hk. rewrite Forall_forall in Hf; rewrite Forall_forall in Hok.
  apply edit_targets_elem in Hin as (e & t & Hin). apply Hok in Hin as [_ Hm].
  apply text_match_source in Hm as (b' & Hb' & [[Hr' Hnil]|(f' & Hff' & Hk' & He)]).
  - pose proof (Hf _ Hb) as Hfb. rewrite Forall_forall in Hfb. destruct (Hfb _ Hff) as (H1 & _).
    rewrite Forall_forall in H1. unfold field_key in Hk. simplify_eq. rewrite (H1 _ Hb' Hr'), Hnil in Hff. set_solver.
  - enough (f = f') as -> by congruence. apply (NoDup_fmap_inj field_key (doc_blocks doc ≫= block_fields)); [done|..].
    + apply list_elem_of_bind. eauto.
    + apply list_elem_of_bind. eauto.
    + congruence.
Qed.

Lemma new_text_miss cs target old :
  (forall r sel, (r, sel) ∈ edit_targets cs -> target r sel = false) -> new_text cs target old = old.
Proof.
  induction cs as [|c cs IH] using rev_ind; [done|]. intros H. rewrite new_text_app.
  rewrite IH by (intros r sel (e & t & Hin)%edit_targets_elem; apply H, edit_targets_elem; exists e, t; set_solver).
  destruct c as [r sel e t|r e|t s|s]; try done. rewrite H; [done|]. apply edit_targets_elem. exists e, t. set_solver.
Qed.

Lemma batch_field_sealed doc patch b f :
  wf_blocks (doc_blocks doc) -> patch_ok doc patch -> b ∈ doc_blocks doc -> group_sealed b = true -> f ∈ block_fields b ->
  editable f = false -> removable f = false -> batch_field (changes patch) f = Some f.
Proof.
  intros Hwf Hok Hb Hs Hf He Hr. destruct (removals_miss doc patch b Hwf Hok Hb Hs) as [_ Hm]. unfold batch_field.
  rewrite bool_decide_eq_false_2 by eauto. rewrite new_text_miss; [by destruct f|].
  intros r sel Hin. apply andb_false_iff. rewrite !bool_decide_eq_false.
  pose proof (edits_miss doc patch b f r sel Hwf Hok Hb Hf He Hin) as Hk. unfold field_key in Hk.
  destruct (decide (field_reference f = r)) as [<-|]; [|by left]. right. intros <-. done.
Qed.

Lemma batch_field_flags cs f f' :
  batch_field cs f = Some f' -> field_key f' = field_key f /\ editable f' = editable f /\ removable f' = removable f.
Proof. unfold batch_field. case_bool_decide; [done|]. intros [= <-]. done. Qed.

Lemma filter_batch_fields cs fs :
  Forall (fun f => editable f = false -> removable f = false -> batch_field cs f = Some f) fs ->
  List.filter (fun f => negb (editable f) && negb (removable f)) (omap (batch_field cs) fs) =
  List.filter (fun f => negb (editable f) && negb (removable f)) fs.
Proof.
  induction 1 as [|f fs Hf _ IH]; [done|]. rewrite omap_cons. simpl.
  destruct (editable f) eqn:E1, (removable f) eqn:E2; simpl;
    [..|rewrite Hf by done; simpl; rewrite E1, E2; simpl; by rewrite IH];
    (destruct (batch_field cs f) as [f'|] eqn:E; [|exact IH]; apply batch_field_flags in E as (_ & Ee & Er);
     simpl; rewrite Ee, Er, E1, E2; exact IH).
Qed.

Lemma batch_block_sealed doc patch b :
  wf_blocks (doc_blocks doc) -> patch_ok doc patch -> b ∈ doc_blocks doc ->
  batch_block (changes patch) b ≫= sealed_group = sealed_group b.
Proof.
  intros Hwf Hok Hb. destruct b as [[r|] role old sources|g k pv pr fs]; simpl; [by case_bool_decide|done|].
  destruct (group_sealed (NativeBlock g k pv pr fs)) eqn:Hs; simpl in Hs.
  - destruct (removals_miss doc patch _ Hwf Hok Hb Hs) as [Hg _]. rewrite bool_decide_eq_false_2 by (by apply Hg).
    simpl. rewrite Hs. do 2 f_equal. apply filter_batch_fields, Forall_forall.
    intros f Hf. by apply (batch_field_sealed doc patch (NativeBlock g k pv pr fs)).
  - rewrite Hs. destruct (bool_decide (g ∈ _)); simpl; by rewrite ?Hs.
Qed.

Lemma sealed_notes cs : omap sealed_group (notes cs) = [].
Proof. unfold notes. induction cs as [|[] cs IH]; [done|exact IH..]. Qed.

(** In a document whose references identify its blocks and fields, an
    accepted patch leaves the sequence of sealed native groups (protected, opaque or
    pending) as it was: the same groups in the same order, with
    the same kind, preview and protection, and every field of them that is
    neither editable nor removable with its text. *)
Theorem sealed_groups_survive doc patch doc' :
  wf_blocks (doc_blocks doc) -> check_context_patch context_digest unit_bytes doc patch = Ok doc' ->
  sealed_groups doc' = sealed_groups doc.
Proof.
  intros Hwf Hc. apply patch_ok_batch in Hc as [Hok ->]. unfold sealed_groups, batch. simpl.
  rewrite omap_app', sealed_notes, app_nil_r, <- omap_bind. apply omap_ext_in.
  intros b Hb. by apply (batch_block_sealed doc patch).
Qed.
End accept.

(** A digest and a document for the witnesses. *)
Definition toy_digest (s : string) : string :=
  String.concat "" (repeat (if decide (s = "old") then "a" else "b") 64).

Definition toy_document : ContextDocument :=
  let field r sel t e m := {| field_reference := r; field_selector := sel; field_text := t; editable := e; removable := m |} in
  {| doc_blocks :=
       [TextBlock (Some "t1") RoleUser "hello" [];
        NativeBlock "g1" OpaqueKind "call" true
          [field "n1" (MessageText 0) "old" true true; field "c1" ToolResultText "kept" false false];
        NativeBlock "g2" CompletedExchange "call" false [field "c2" ToolResultText "old" true false]] |}.

Definition toy_patch : ContextPatch :=
  {| changes := [RemoveContextUnit "n1" (toy_digest "old"); ReplaceContextText "c2" ToolResultText (toy_digest "old") "new";
                 AppendContextNote "done" ["t1"]; RemoveContextUnit "t1" (toy_digest "hello")] |}.

Lemma sealed_groups_survive_witness :
  exists doc', check_context_patch toy_digest (fun r _ => r) toy_document toy_patch = Ok doc' /\
    sealed_groups doc' = sealed_groups toy_document.
Proof.
  eexists. split; [vm_compute; reflexivity|].
  apply (sealed_groups_survive toy_digest (fun r _ => r) toy_document toy_patch); [|vm_compute; reflexivity].
  apply (bool_decide_unpack _). vm_compute. exact I.
Defined.
