(* ===== verification/ContextText.v ===== *)
(** Retained occurrences and their provider-visible text: the data of
    [context.rs] the Store owns and the text projections of [store/context.rs].

    An occurrence keeps its canonical item unchanged; an edit of its text is an
    overlay, applied when the item is projected. The theorems show that an
    overlay changes exactly the text it names, and that the overlays kept are
    the least ones, in one order, so that equal visible texts have equal
    overlays. *)

From S2P Require Import Prelude Json Redaction Usage Observation Failure StoreDb Jobs Lists Item ContextPatch.

Record Origin := { o_request : string; o_position : Z; o_hash : string }.

Record ContextTextOverlay := { ov_selector : ContextTextSelector; ov_text : string }.

Record Occurrence := {
  occ_request : string;
  occ_position : Z;
  occ_hash : string;
  occ_item : value;
  output_operation : option OperationId;
  occ_origin : Origin;
  occ_sources : list ContextReference;
  note : bool;
  overlays : list ContextTextOverlay
}.

#[export] Instance Occurrence_eta : Eta Occurrence := fun o =>
  {| occ_request := occ_request o; occ_position := occ_position o; occ_hash := occ_hash o; occ_item := occ_item o;
     output_operation := output_operation o; occ_origin := occ_origin o; occ_sources := occ_sources o; note := note o;
     overlays := overlays o |}.

Record StoredBlock := { block : ContextBlock; items : list Occurrence; sb_opaque : bool; mandatory : bool }.

#[export] Instance Origin_eq_dec : EqDecision Origin.
Proof. solve_decision. Defined.
#[export] Instance Origin_countable : Countable Origin.
Proof.
  apply (inj_countable' (fun o => (o_request o, o_position o, o_hash o))
    (fun x => {| o_request := x.1.1; o_position := x.1.2; o_hash := x.2 |})). by intros [].
Defined.
#[export] Instance ContextTextOverlay_eq_dec : EqDecision ContextTextOverlay.
Proof. solve_decision. Defined.
#[export] Instance Occurrence_eq_dec : EqDecision Occurrence.
Proof. solve_decision. Defined.

(** The errors of the context operations: [ContextError], with the replay and
    portability refusals it carries, and the Store errors beside it. *)
Inductive ContextReplayRejection :=
| MissingProvenance (request : string)
| InvalidMembership
| InvalidPrefix
| IncompatibleTransport
| UnownedInvocation (request : string) (position : Z).

Inductive ContextPortabilityRejection :=
| NoVisibleContent
| UnsupportedItem
| UnsupportedField (item field : string)
| InvalidField (item field : string)
| EncryptedPayload.

Inductive ContextFault :=
| Conflict | MissingCall | InvalidReference | NativeEdit | ProtectedGroup | NativeOrder | OpaqueModel
| Replay (r : ContextReplayRejection)
| IneligibleCommit | CancelledCommit | UnsupportedState
| Portability (r : ContextPortabilityRejection)
| InvalidModel
| StoreFault (e : StoreError).

#[export] Instance ContextReplayRejection_eq_dec : EqDecision ContextReplayRejection.
Proof. solve_decision. Defined.
#[export] Instance ContextPortabilityRejection_eq_dec : EqDecision ContextPortabilityRejection.
Proof. solve_decision. Defined.

(** ** Text bodies *)

Definition type_in (item : value) (types : list string) : bool :=
  match as_str (vidx item "type") with Some t => bool_decide (t ∈ types) | None => false end.

Definition part_text (types : list string) (part : value) : option string :=
  if type_in part types then as_str (vidx part "text") else None.

Definition role_in (item : value) (roles : list string) : bool :=
  match as_str (vidx item "role") with Some r => bool_decide (r ∈ roles) | None => false end.

Definition output_types : list string := ["function_call_output"; "custom_tool_call_output"].

Definition text_body (item : value) (sel : ContextTextSelector) : option string :=
  match sel with
  | MessageText part =>
      if negb (veq_str (vidx item "type") "message") || negb (role_in item ["user"; "assistant"]) then None
      else match vidx item "content" with
           | VString text => if (part =? 0)%N then Some text else None
           | VArray parts => parts !! N.to_nat part ≫= part_text ["input_text"; "output_text"]
           | _ => None
           end
  | ReasoningText part =>
      if veq_str (vidx item "type") "reasoning"
      then (as_array (vidx item "content") ≫= fun parts => parts !! N.to_nat part) ≫= part_text ["reasoning_text"]
      else None
  | ToolResultText => if type_in item output_types then as_str (vidx item "output") else None
  end.

(** [content[part]["text"] = text]. *)
Definition set_part (part : N) (text : string) (content : value) : value :=
  match content with
  | VArray parts => VArray (alter (set_field "text" (VString text)) (N.to_nat part) parts)
  | _ => content
  end.

Definition set_text_body (item : value) (sel : ContextTextSelector) (text : string) : result ContextFault value :=
  do _ <- ok_or (text_body item sel) InvalidReference;
  Ok match sel with
     | MessageText part =>
         match vidx item "content" with
         | VString _ => set_field "content" (VString text) item
         | content => set_field "content" (set_part part text content) item
         end
     | ToolResultText => set_field "output" (VString text) item
     | ReasoningText part => set_field "content" (set_part part text (vidx item "content")) item
     end.

Definition drop_format (item : value) : value :=
  match item with VObject m => VObject (obj_remove "output_format" m) | _ => item end.

Fixpoint project_overlays (item : value) (seen : list ContextTextSelector) (os : list ContextTextOverlay)
    : result ContextFault value :=
  match os with
  | [] => Ok item
  | o :: os =>
      refuse bool_decide (ov_selector o ∈ seen) with InvalidReference;
      do item <- set_text_body item (ov_selector o) (ov_text o);
      let item := if bool_decide (ov_selector o = ToolResultText) then drop_format item else item in
      project_overlays item (ov_selector o :: seen) os
  end.

Definition project_bodies (o : Occurrence) : result ContextFault value := project_overlays (occ_item o) [] (overlays o).

Definition selector_key (sel : ContextTextSelector) : N * N :=
  (match sel with MessageText part => (0, part) | ToolResultText => (1, 0) | ReasoningText part => (2, part) end)%N.

Definition key_leb (a b : N * N) : bool := ((a.1 <? b.1) || (a.1 =? b.1) && (a.2 <=? b.2))%N.

Definition overlay_leb (a b : ContextTextOverlay) : bool := key_leb (selector_key (ov_selector a)) (selector_key (ov_selector b)).

Definition set_overlay (o : Occurrence) (sel : ContextTextSelector) (text : string) : result ContextFault Occurrence :=
  do original <- ok_or (text_body (occ_item o) sel) InvalidReference;
  let kept := List.filter (fun v => negb (bool_decide (ov_selector v = sel))) (overlays o) in
  let kept := if bool_decide (original = text) then kept else kept ++ [{| ov_selector := sel; ov_text := text |}] in
  Ok (o <| overlays := sort_by overlay_leb kept |>).

(** ** Messages *)

Definition message (item : value) : option (ContextRole * string) :=
  if negb (veq_str (vidx item "type") "message") then None else
  match as_str (vidx item "role") ≫= role_parse with
  | None => None
  | Some role =>
      match vidx item "content" with
      | VString text => Some (role, text)
      | VArray [part] =>
          if type_in part ["input_text"; "output_text"] then pair role <$> as_str (vidx part "text") else None
      | _ => None
      end
  end.

Fixpoint encrypted_payload (v : value) : bool :=
  match v with
  | VObject fields => existsb (fun e => String.prefix "encrypted" e.1 || encrypted_payload e.2) fields
  | VArray items => existsb encrypted_payload items
  | _ => false
  end.

Definition opaque (item : value) : bool :=
  encrypted_payload item
  || negb (type_in item ["message"; "function_call"; "custom_tool_call"; "function_call_output";
                         "custom_tool_call_output"; "configuration_update"]).

Definition item_preview (item : value) : list string :=
  match message item with
  | Some (_, text) => [text]
  | None =>
      match as_array (vidx item "content") with
      | Some parts => omap (fun part => as_str (vidx part "text")) parts
      | None => match find_map (fun field => as_str (vidx item field)) ["arguments"; "input"; "output"] with
                | Some text => [text]
                | None => []
                end
      end
  end.

Definition newline : string := String "010" EmptyString.

Definition preview (os : list Occurrence) : result ContextFault string :=
  do visible <- map_result (fun o => do item <- project_bodies o; Ok (item_preview item)) os;
  Ok (String.concat newline (concat visible)).

Definition removable_note (o : Occurrence) : bool :=
  note o && bool_decide (output_operation o = None) && bool_decide (is_Some (message (occ_item o))).

Section note.
(** [serde_json::from_str::<Vec<Origin>>(reference).unwrap_or_default()]. *)
Variable origins_of_reference : ContextReference -> list Origin.

Definition attribution (sources : list ContextReference) : string :=
  let cites := (fun o => o_request o +:+ ":" +:+ pretty (o_position o)) <$> (sources ≫= origins_of_reference) in
  match cites with
  | [] => "[Agent-authored context note]"
  | _ => "[Agent-authored context note; sources: " +:+ String.concat ", " cites +:+ "]"
  end.

Definition project_context_note (o : Occurrence) : result ContextFault value :=
  do item <- project_bodies o;
  if negb (note o) then Ok item else
  match message item with
  | None => Ok item
  | Some (_, text) =>
      let projected := attribution (occ_sources o) +:+ newline +:+ text in
      Ok match vidx item "content" with
         | VString _ => set_field "content" (VString projected) item
         | VArray parts => set_field "content" (set_part 0 projected (VArray parts)) item
         | _ => item
         end
  end.
End note.

(** ** Overlays change the text they name *)

#[local] Arguments set_field : simpl never.
#[local] Arguments vidx : simpl never.

Lemma vidx_set_eq k v m : vidx (set_field k v (VObject m)) k = v.
Proof. unfold vidx, set_field, vget. by rewrite obj_get_insert_eq. Qed.

Lemma vidx_set_ne k k' v item : k' <> k -> vidx (set_field k v item) k' = vidx item k'.
Proof. intros H. unfold vidx, set_field, vget. destruct item; try done. by rewrite obj_get_insert_ne. Qed.

Lemma vidx_drop_format k item : k <> "output_format" -> vidx (drop_format item) k = vidx item k.
Proof. intros H. unfold vidx, drop_format, vget. destruct item; try done. by rewrite obj_get_remove_ne. Qed.

(** The text of an item depends on four of its fields. *)
Lemma text_body_fields item item' sel :
  vidx item' "type" = vidx item "type" -> vidx item' "role" = vidx item "role" ->
  vidx item' "content" = vidx item "content" -> vidx item' "output" = vidx item "output" ->
  text_body item' sel = text_body item sel.
Proof. intros H1 H2 H3 H4. unfold text_body, type_in, role_in. by rewrite H1, H2, H3, H4. Qed.

Lemma text_body_object item sel t : text_body item sel = Some t -> exists m, item = VObject m.
Proof. destruct item, sel; simpl; try done; eauto. Qed.

Lemma part_text_set types part text :
  is_Some (part_text types part) -> part_text types (set_field "text" (VString text) part) = Some text.
Proof.
  intros [t Ht]. unfold part_text, type_in in *. rewrite vidx_set_ne by done.
  destruct part; try done. by destruct (match _ with Some _ => _ | None => _ end); [rewrite vidx_set_eq|].
Qed.

(** The four shapes of a text body, as equations. *)
Definition same_kind (a b : ContextTextSelector) : bool :=
  match a, b with
  | MessageText _, MessageText _ | ToolResultText, ToolResultText | ReasoningText _, ReasoningText _ => true
  | _, _ => false
  end.

Lemma text_body_kind item a b t : text_body item a = Some t -> same_kind a b = false -> text_body item b = None.
Proof.
  unfold text_body, type_in, veq_str. intros Ha Hk.
  destruct a, b; try done; destruct (vidx item "type"); simpl in *; try done;
    repeat case_bool_decide; simplify_eq/=; try done; exfalso; set_solver.
Qed.

(** Reading the part set and the parts left alone. *)
Lemma part_set_eq types (parts : list value) part text :
  is_Some (parts !! N.to_nat part ≫= part_text types) ->
  alter (set_field "text" (VString text)) (N.to_nat part) parts !! N.to_nat part ≫= part_text types = Some text.
Proof.
  intros [t Ht]. rewrite list_lookup_alter_eq. destruct (parts !! N.to_nat part) as [v|]; [|done]. simpl in *.
  by apply part_text_set.
Qed.

Lemma part_set_ne types (parts : list value) part part' text :
  part' <> part ->
  alter (set_field "text" (VString text)) (N.to_nat part) parts !! N.to_nat part' ≫= part_text types =
  parts !! N.to_nat part' ≫= part_text types.
Proof. intros H. rewrite list_lookup_alter_ne; [done|]. intros E. apply H. by apply N2Nat.inj. Qed.

Lemma set_text_body_get item sel text item' :
  set_text_body item sel text = Ok item' ->
  text_body item' sel = Some text /\
  (forall sel', same_kind sel sel' = true -> sel' <> sel -> text_body item' sel' = text_body item sel').
Proof.
  unfold set_text_body. destruct (text_body item sel) as [t|] eqn:Et; [|done]. simpl. intros [= <-].
  destruct (text_body_object _ _ _ Et) as [m ->]. destruct sel as [part| |part]; unfold text_body, type_in, role_in in *.
  - destruct (negb (veq_str _ _) || negb _) eqn:Eg; [done|].
    destruct (vidx (VObject m) "content") as [| | |s|parts|] eqn:Ec; try done.
    + destruct (N.eqb_spec part 0) as [->|]; [|done].
      rewrite !vidx_set_ne, Eg, vidx_set_eq by done. split; [done|]. intros [p| |p] Hk Hne; try done.
      rewrite ?vidx_set_ne, ?Eg, ?vidx_set_eq, ?Ec by done. destruct (N.eqb_spec p 0); congruence.
    + rewrite !vidx_set_ne, Eg, vidx_set_eq by done. simpl. split; [apply part_set_eq; eauto|].
      intros [p| |p] Hk Hne; try done. rewrite ?vidx_set_ne, ?Eg, ?vidx_set_eq, ?Ec by done. apply part_set_ne. congruence.
  - rewrite !vidx_set_ne, vidx_set_eq by done. destruct (match _ with Some _ => _ | None => _ end); [|done].
    split; [done|]. by intros [] Hk Hne.
  - destruct (veq_str _ _) eqn:Eg; [|done]. destruct (vidx (VObject m) "content") as [| | | |parts|] eqn:Ec; try done.
    rewrite !vidx_set_ne, Eg, vidx_set_eq by done. simpl in *. split; [apply part_set_eq; eauto|].
    intros [p| |p] Hk Hne; try done. rewrite ?vidx_set_ne, ?Eg, ?vidx_set_eq, ?Ec by done. apply part_set_ne. congruence.
Qed.

Lemma set_text_body_spec item sel text item' :
  set_text_body item sel text = Ok item' ->
  text_body item' sel = Some text /\ (forall sel', sel' <> sel -> text_body item' sel' = text_body item sel').
Proof.
  intros H. destruct (set_text_body_get _ _ _ _ H) as [Hs Hk]. split; [done|]. intros sel' Hne.
  destruct (same_kind sel sel') eqn:Ek; [by apply Hk|]. rewrite (text_body_kind _ _ _ _ Hs Ek).
  unfold set_text_body in H. destruct (text_body item sel) eqn:Et; [|done]. by rewrite (text_body_kind _ _ _ _ Et Ek).
Qed.

Lemma set_text_body_total item sel text :
  is_Some (text_body item sel) <-> exists item', set_text_body item sel text = Ok item'.
Proof. unfold set_text_body. destruct (text_body item sel); simpl; naive_solver. Qed.

Lemma text_body_drop_format item sel : text_body (drop_format item) sel = text_body item sel.
Proof. apply text_body_fields; by apply vidx_drop_format. Qed.

(** ** Projection *)

(** The text the overlays leave at a selector. *)
Definition overlaid (os : list ContextTextOverlay) (sel : ContextTextSelector) : option string :=
  find_map (fun o => if bool_decide (ov_selector o = sel) then Some (ov_text o) else None) os.

Definition visible_text (o : Occurrence) (sel : ContextTextSelector) : option string :=
  match overlaid (overlays o) sel with Some t => Some t | None => text_body (occ_item o) sel end.

(** Overlays that apply: distinct selectors, each of a text the item has. *)
Definition overlays_apply (item : value) (os : list ContextTextOverlay) : Prop :=
  NoDup (ov_selector <$> os) /\ Forall (fun o => is_Some (text_body item (ov_selector o))) os.

Lemma overlaid_None os sel : overlaid os sel = None <-> sel ∉ (ov_selector <$> os).
Proof.
  unfold overlaid. induction os as [|o os IH]; simpl; [set_solver|]. case_bool_decide as H.
  - set_solver.
  - rewrite IH. set_solver.
Qed.

Lemma overlays_text item os sel :
  is_Some (text_body item sel) ->
  exists item', (do i <- set_text_body item sel os; Ok (if bool_decide (sel = ToolResultText) then drop_format i else i)) = Ok item' /\
    text_body item' sel = Some os /\ (forall sel', sel' <> sel -> text_body item' sel' = text_body item sel').
Proof.
  intros [item' H]%(set_text_body_total item sel os). rewrite H. simpl. eexists. split; [done|].
  destruct (set_text_body_spec _ _ _ _ H) as [H1 H2]. case_bool_decide; [|done].
  setoid_rewrite text_body_drop_format. done.
Qed.

Lemma project_overlays_spec os : forall item seen,
  overlays_apply item os -> (forall s, s ∈ seen -> s ∉ (ov_selector <$> os)) ->
  exists item', project_overlays item seen os = Ok item' /\
    forall sel, text_body item' sel = match overlaid os sel with Some t => Some t | None => text_body item sel end.
Proof.
  induction os as [|o os IH]; intros item seen [Hnd Hall] Hseen; [eexists; split; done|].
  rewrite fmap_cons, NoDup_cons in Hnd. destruct Hnd as [Hin Hnd]. apply Forall_cons in Hall as [Ho Hall].
  destruct (overlays_text item (ov_text o) (ov_selector o) Ho) as (i1 & H1 & Hs & Hne). simpl.
  rewrite bool_decide_eq_false_2 by set_solver. simpl.
  destruct (set_text_body item (ov_selector o) (ov_text o)) as [i0|]; simpl in *; [|done]. injection H1 as ->.
  destruct (IH i1 (ov_selector o :: seen)) as (i2 & H2 & Hsel).
  - split; [done|]. eapply Forall_impl; [exact Hall|]. intros v [t Ht].
    destruct (decide (ov_selector v = ov_selector o)) as [->|E]; [eauto|]. rewrite Hne by done. eauto.
  - set_solver.
  - exists i2. split; [exact H2|]. intros sel. rewrite Hsel. unfold overlaid. simpl.
    case_bool_decide as E; subst.
    + fold (overlaid os (ov_selector o)). by rewrite (proj2 (overlaid_None os (ov_selector o)) Hin).
    + fold (overlaid os sel). destruct (overlaid os sel); [done|]. by apply Hne.
Qed.

Lemma project_bodies_visible o :
  overlays_apply (occ_item o) (overlays o) ->
  exists item, project_bodies o = Ok item /\ forall sel, text_body item sel = visible_text o sel.
Proof. intros H. apply project_overlays_spec; [done|]. set_solver. Qed.

(** ** Canonical overlays *)

Lemma selector_key_inj a b : selector_key a = selector_key b -> a = b.
Proof. destruct a, b; simpl; congruence. Qed.

Lemma key_leb_total a b : key_leb a b = true \/ key_leb b a = true.
Proof. unfold key_leb. rewrite !orb_true_iff, !andb_true_iff, !N.ltb_lt, !N.eqb_eq, !N.leb_le. lia. Qed.

Lemma key_leb_trans a b c : key_leb a b = true -> key_leb b c = true -> key_leb a c = true.
Proof. unfold key_leb. rewrite !orb_true_iff, !andb_true_iff, !N.ltb_lt, !N.eqb_eq, !N.leb_le. lia. Qed.

Lemma key_leb_antisym a b : key_leb a b = true -> key_leb b a = true -> a = b.
Proof.
  unfold key_leb. rewrite !orb_true_iff, !andb_true_iff, !N.ltb_lt, !N.eqb_eq, !N.leb_le. destruct a, b; simpl.
  intros. f_equal; lia.
Qed.

Definition overlay_lt (a b : ContextTextOverlay) : Prop := overlay_leb a b = true /\ ov_selector a <> ov_selector b.

Lemma overlay_lt_irrefl a : ~ overlay_lt a a.
Proof. by intros [_ H]. Qed.

Lemma overlay_lt_trans a b c : overlay_lt a b -> overlay_lt b c -> overlay_lt a c.
Proof.
  intros [H1 N1] [H2 N2]. split; [by eapply key_leb_trans|]. intros E. apply N1, selector_key_inj.
  apply key_leb_antisym; [done|]. unfold overlay_leb in H2. by rewrite E.
Qed.

Lemma sorted_distinct l :
  StronglySorted (fun a b => overlay_leb a b = true) l -> NoDup (ov_selector <$> l) -> StronglySorted overlay_lt l.
Proof.
  induction 1 as [|x l Hs IH Hx]; [constructor|]. rewrite fmap_cons, NoDup_cons. intros [Hn Hnd].
  constructor; [by apply IH|]. rewrite Forall_forall in *. intros y Hy. split; [by apply Hx|].
  intros E. apply Hn. rewrite E. by apply list_elem_of_fmap_2.
Qed.

Lemma strict_distinct l : StronglySorted overlay_lt l -> NoDup (ov_selector <$> l).
Proof.
  induction 1 as [|x l Hs IH Hx]; [constructor|]. rewrite fmap_cons, NoDup_cons. split; [|done].
  intros (y & E & Hy)%list_elem_of_fmap_1. rewrite Forall_forall in Hx. by destruct (Hx y Hy) as [_ []].
Qed.

(** Overlays in selector order, each a change of a text the item has. *)
Definition canonical (o : Occurrence) : Prop :=
  StronglySorted overlay_lt (overlays o) /\
  Forall (fun v => exists t, text_body (occ_item o) (ov_selector v) = Some t /\ t <> ov_text v) (overlays o).

Lemma canonical_apply o : canonical o -> overlays_apply (occ_item o) (overlays o).
Proof.
  intros [Hs Hall]. split; [by apply strict_distinct|]. eapply Forall_impl; [exact Hall|]. intros v (t & Ht & _). eauto.
Qed.

Lemma overlaid_Some os sel t :
  NoDup (ov_selector <$> os) -> overlaid os sel = Some t <-> {| ov_selector := sel; ov_text := t |} ∈ os.
Proof.
  unfold overlaid. induction os as [|o os IH]; simpl; [set_solver|]. rewrite NoDup_cons. intros [Hn Hnd].
  rewrite elem_of_cons, <- (IH Hnd). case_bool_decide as E; subst.
  - split; [intros [= <-]; left; by destruct o|]. intros [<-|H]; [done|].
    apply IH in H; [|done]. exfalso. apply Hn. apply list_elem_of_fmap. eexists; split; [|exact H]; done.
  - split; [by right|]. by intros [<-|].
Qed.

Lemma visible_overlay o v :
  canonical o -> v ∈ overlays o <->
  exists t, text_body (occ_item o) (ov_selector v) = Some t /\ t <> ov_text v /\ visible_text o (ov_selector v) = Some (ov_text v).
Proof.
  intros Hc. pose proof (canonical_apply o Hc) as [Hnd _]. destruct Hc as [_ Hall]. rewrite Forall_forall in Hall.
  unfold visible_text. split.
  - intros Hv. destruct (Hall v Hv) as (t & Ht & Hne). exists t. split_and!; [done..|].
    rewrite (proj2 (overlaid_Some _ _ (ov_text v) Hnd)); [done|]. by destruct v.
  - intros (t & Ht & Hne & Hvis). destruct (overlaid (overlays o) (ov_selector v)) eqn:E; [|congruence].
    injection Hvis as ->. apply overlaid_Some in E; [|done]. by destruct v.
Qed.

(** The visible texts determine the overlays. *)
Lemma canonical_unique o1 o2 :
  canonical o1 -> canonical o2 -> occ_item o1 = occ_item o2 ->
  (forall sel, visible_text o1 sel = visible_text o2 sel) -> overlays o1 = overlays o2.
Proof.
  intros H1 H2 Hi Hv. eapply (StronglySorted_ext overlay_lt); [apply overlay_lt_irrefl|apply overlay_lt_trans|apply H1|apply H2|].
  intros v. rewrite (visible_overlay o1), (visible_overlay o2), Hi, Hv by done. done.
Qed.

(** The overlays [set_overlay] keeps, before they are sorted. *)
Lemma kept_overlays o sel text t :
  canonical o -> text_body (occ_item o) sel = Some t ->
  let kept := List.filter (fun v => negb (bool_decide (ov_selector v = sel))) (overlays o) in
  let os := if bool_decide (t = text) then kept else kept ++ [{| ov_selector := sel; ov_text := text |}] in
  NoDup (ov_selector <$> os) /\
  (forall v, v ∈ os <-> v ∈ overlays o /\ ov_selector v <> sel \/ v = {| ov_selector := sel; ov_text := text |} /\ t <> text).
Proof.
  intros Hc Ht kept os. pose proof (canonical_apply o Hc) as [Hnd _].
  assert (forall v, v ∈ kept <-> v ∈ overlays o /\ ov_selector v <> sel) as Hk.
  { intros v. unfold kept. by rewrite list_elem_of_In, filter_In, <- list_elem_of_In, negb_true_iff, bool_decide_eq_false. }
  assert (NoDup (ov_selector <$> kept)) as Hndk.
  { eapply sublist_NoDup; [exact Hnd|]. apply fmap_sublist, list_filter_sublist. }
  unfold os. case_bool_decide; [split; [done|]; intros v; rewrite Hk; naive_solver|]. split.
  - rewrite fmap_app. apply NoDup_snoc. split; [done|]. intros (v & E & Hv)%list_elem_of_fmap_1. by apply Hk in Hv as [_ []].
  - intros v. rewrite elem_of_app, list_elem_of_singleton, Hk. naive_solver.
Qed.

Lemma overlay_edit o sel text :
  canonical o ->
  match text_body (occ_item o) sel with
  | None => set_overlay o sel text = Err InvalidReference
  | Some _ => exists o', set_overlay o sel text = Ok o' /\ canonical o' /\ o' = o <| overlays := overlays o' |> /\
                visible_text o' sel = Some text /\ (forall sel', sel' <> sel -> visible_text o' sel' = visible_text o sel')
  end.
Proof.
  intros Hc. unfold set_overlay. destruct (text_body (occ_item o) sel) as [t|] eqn:Ht; [|done]. simpl.
  destruct (kept_overlays o sel text t Hc Ht) as [Hnd Hin]. set (os := if bool_decide _ then _ else _) in *.
  eexists. split; [done|]. set (o' := o <| overlays := _ |>).
  assert (overlays o' ≡ₚ os) as Hp by apply sort_by_perm.
  assert (forall v, v ∈ overlays o' <-> v ∈ os) as Ho' by (intros v; by rewrite Hp).
  assert (NoDup (ov_selector <$> overlays o')) as Hnd' by (by rewrite Hp).
  pose proof (canonical_apply o Hc) as [Hndo _]. split_and!.
  - split.
    + apply sorted_distinct; [|done]. apply sort_by_sorted; intros; [apply key_leb_total|by eapply key_leb_trans].
    + apply Forall_forall. intros v [[Hv _]|[-> Hne]]%Ho'%Hin; [|by exists t].
      destruct Hc as [_ Hall]. rewrite Forall_forall in Hall. by apply Hall.
  - done.
  - unfold visible_text. destruct (overlaid (overlays o') sel) as [t'|] eqn:E.
    + apply overlaid_Some in E; [|done]. apply Ho', Hin in E as [[_ []]|[E _]]; [done|]. congruence.
    + simpl. rewrite Ht. f_equal. destruct (decide (t = text)) as [|Hne]; [done|]. exfalso.
      apply overlaid_None in E. apply E. apply list_elem_of_fmap. exists {| ov_selector := sel; ov_text := text |}.
      split; [done|]. apply Ho', Hin. by right.
  - intros sel' Hne. unfold visible_text. replace (overlaid (overlays o') sel') with (overlaid (overlays o) sel'); [done|].
    apply option_eq. intros t'. rewrite !overlaid_Some, Ho', Hin by done. naive_solver.
Qed.

(** Editing a text of an occurrence with canonical overlays: an item
    without that text is refused and nothing else is; the edited occurrence
    keeps its canonical item, identity and sources; projecting it succeeds and
    shows the new text there and every other text as before; and its overlays are again
    in order, distinct, and only of texts that differ from the item's own. *)
Theorem overlay_sets_text o sel text :
  canonical o ->
  exists before, project_bodies o = Ok before /\
  match text_body (occ_item o) sel with
  | None => set_overlay o sel text = Err InvalidReference
  | Some _ => exists o' after, set_overlay o sel text = Ok o' /\ o' = o <| overlays := overlays o' |> /\ canonical o' /\
                project_bodies o' = Ok after /\ text_body after sel = Some text /\
                (forall sel', sel' <> sel -> text_body after sel' = text_body before sel')
  end.
Proof.
  intros Hc. destruct (project_bodies_visible o (canonical_apply o Hc)) as (before & Hb & Hvb). exists before. split; [done|].
  pose proof (overlay_edit o sel text Hc) as He. destruct (text_body (occ_item o) sel); [|done].
  destruct He as (o' & He & Hc' & Ho' & Hsel & Hne).
  destruct (project_bodies_visible o' (canonical_apply o' Hc')) as (after & Ha & Hva).
  exists o', after. split_and!; try done; [by rewrite Hva|]. intros sel' H. by rewrite Hva, Hvb, Hne.
Qed.

(** Overlays have one canonical form: setting a text and then setting back
    what was visible restores the occurrence exactly, whatever was edited before. *)
Theorem overlay_undo o sel old text o' :
  canonical o -> visible_text o sel = Some old -> set_overlay o sel text = Ok o' -> set_overlay o' sel old = Ok o.
Proof.
  intros Hc Hold Hset. pose proof (overlay_edit o sel text Hc) as He.
  destruct (text_body (occ_item o) sel) as [t|] eqn:Ht; [|congruence].
  destruct He as (o1 & He & Hc1 & Ho1 & Hs1 & Hn1). rewrite Hset in He. injection He as <-.
  pose proof (overlay_edit o' sel old Hc1) as He.
  assert (occ_item o' = occ_item o) as Hi by (by rewrite Ho1). rewrite Hi, Ht in He.
  destruct He as (o2 & He & Hc2 & Ho2 & Hs2 & Hn2). rewrite He. f_equal.
  enough (overlays o2 = overlays o) as E by (rewrite Ho2, E, Ho1; by destruct o).
  apply canonical_unique; [done..| |].
  - by rewrite Ho2.
  - intros s. destruct (decide (s = sel)) as [->|Hne]; [congruence|]. by rewrite Hn2, Hn1.
Qed.

Definition toy_occurrence : Occurrence :=
  {| occ_request := "r1"; occ_position := 0; occ_hash := "h";
     occ_item := json_object [("type", VString "message"); ("role", VString "user"); ("content",
       VArray [json_object [("type", VString "input_text"); ("text", VString "one")];
               json_object [("type", VString "input_text"); ("text", VString "two")]])];
     output_operation := None; occ_origin := {| o_request := "r1"; o_position := 0; o_hash := "h" |};
     occ_sources := []; note := false;
     overlays := [{| ov_selector := MessageText 1; ov_text := "changed" |}] |}.

Lemma toy_canonical : canonical toy_occurrence.
Proof. split; [repeat constructor|]. repeat constructor. exists "two". by split. Qed.

Lemma overlay_sets_text_witness :
  exists before, project_bodies toy_occurrence = Ok before /\
    exists o' after, set_overlay toy_occurrence (MessageText 0) "new" = Ok o' /\ project_bodies o' = Ok after /\
      text_body after (MessageText 0) = Some "new" /\ text_body after (MessageText 1) = text_body before (MessageText 1).
Proof.
  destruct (overlay_sets_text toy_occurrence (MessageText 0) "new" toy_canonical) as (before & Hb & H).
  exists before. split; [exact Hb|]. destruct H as (o' & after & H1 & _ & _ & H2 & H3 & H4).
  exists o', after. split; [exact H1|]. split; [exact H2|]. split; [exact H3|]. apply H4. discriminate.
Defined.

Lemma overlay_undo_witness :
  exists o', set_overlay toy_occurrence (MessageText 1) "third" = Ok o' /\ set_overlay o' (MessageText 1) "changed" = Ok toy_occurrence.
Proof.
  eexists. split; [reflexivity|].
  apply (overlay_undo toy_occurrence (MessageText 1) "changed" "third"); [exact toy_canonical|reflexivity|reflexivity].
Defined.
