(* ===== verification/HistoryDb.v ===== *)
(** Conversation rows: requests, their items and the provider responses that
    own them ([store/mod.rs], [store/provider_response.rs],
    [store/output_publication.rs], [store/replay.rs], [store/chat.rs]).

    A table is a finite map by its primary key and a transaction a function
    from rows to an error or a value with new rows, as for inference
    admission. The constraints of [store/schema.sql] the operations can
    violate are errors here too. Timestamps and token columns are left out:
    no modelled operation reads them. *)

From S2P Require Import Prelude Json Redaction Usage Observation Sse Failure StoreDb Admission Jobs Lists Item ContextPatch ContextText.

(** ** Rows *)

Record RequestNode := { node_parent : option string; node_branch : string }.

Record ItemRow := {
  row_hash : string;
  row_source_request : option string;
  row_source_position : option Z;
  row_sources : list ContextReference;
  row_note : bool;
  row_overlays : list ContextTextOverlay;
  row_operation : option OperationId
}.

Inductive ProviderResponseState := RStreaming | RCompleted | RInterrupted | RFailed | RRejected.

Inductive ProviderRequestPurpose := Inference | ServerCompaction | TextSummary.

Record IssuedOutputReference := { ior_origin : Origin; ior_operation : OperationId }.

Record IssuedRequestRecord := {
  native_transport : option NativeTransportContract;
  purpose : option ProviderRequestPurpose;
  issued_input : list string;
  issued_outputs : option (list (option IssuedOutputReference));
  instructions : string;
  tools : string;
  tools_allowed : option (list string);
  issued_model : string;
  pinned_effort : Effort;
  session_thread : string;
  session_affinity : string;
  prompt_cache_comparison : option string
}.

Record ProviderRow := {
  issued : IssuedRequestRecord;
  p_route : ResponsesRoute;
  p_protocol : ResponsesProtocol;
  p_state : ProviderResponseState;
  response_id : option string;
  completion_event : option Z
}.

#[export] Instance ProviderRow_eta : Eta ProviderRow := fun p =>
  {| issued := issued p; p_route := p_route p; p_protocol := p_protocol p; p_state := p_state p;
     response_id := response_id p; completion_event := completion_event p |}.

(** [ReplayRecord]: what a completed response commits. *)
Record ReplayRecord := {
  rr_request : string;
  rr_issued : IssuedRequestRecord;
  rr_response_id : string;
  rr_items : list string;
  rr_usage : Usage;
  rr_contract : option (ResponsesRoute * ResponsesProtocol);
  rr_completion : option (Origin * string)          (* the occurrence and schema of a validated finalize *)
}.

Inductive EventBody :=
| ChatMessage (position : Z) (hash : string) (envelope : option Z)
| ModelTurn (record : ReplayRecord)
| OtherEvent (kind : string).

Record Event := { event_request : option string; event_body : EventBody }.

Record MailRow := {
  mail_sender : string;
  mail_recipient : string;
  mail_class : string;
  mail_hash : string;
  mail_delivered : option string
}.

#[export] Instance MailRow_eta : Eta MailRow := fun m =>
  {| mail_sender := mail_sender m; mail_recipient := mail_recipient m; mail_class := mail_class m; mail_hash := mail_hash m;
     mail_delivered := mail_delivered m |}.

Record Hdb := {
  h_requests : gmap string RequestNode;
  h_items : gmap string value;                       (* hash -> JSON *)
  h_rows : gmap string (gmap Z ItemRow);             (* request -> position -> row *)
  h_provider : gmap string ProviderRow;
  h_outputs : gmap string (gmap Z (Z * string));     (* request -> output index -> position, hash *)
  h_events : gmap Z Event;
  h_next_event : Z;
  h_mail : gmap Z MailRow;
  h_next_mail : Z;
  h_session : gmap string value
}.

#[export] Instance Hdb_eta : Eta Hdb := fun d =>
  {| h_requests := h_requests d; h_items := h_items d; h_rows := h_rows d; h_provider := h_provider d;
     h_outputs := h_outputs d; h_events := h_events d; h_next_event := h_next_event d; h_mail := h_mail d;
     h_next_mail := h_next_mail d; h_session := h_session d |}.

Definition Hdb_empty : Hdb :=
  {| h_requests := ∅; h_items := ∅; h_rows := ∅; h_provider := ∅; h_outputs := ∅; h_events := ∅; h_next_event := 1;
     h_mail := ∅; h_next_mail := 1; h_session := ∅ |}.

#[export] Instance ProviderResponseState_eq_dec : EqDecision ProviderResponseState.
Proof. solve_decision. Defined.
#[export] Instance ProviderRequestPurpose_eq_dec : EqDecision ProviderRequestPurpose.
Proof. solve_decision. Defined.
#[export] Instance IssuedOutputReference_eq_dec : EqDecision IssuedOutputReference.
Proof. solve_decision. Defined.
#[export] Instance IssuedRequestRecord_eq_dec : EqDecision IssuedRequestRecord.
Proof. solve_decision. Defined.
#[export] Instance RawUsage_eq_dec : EqDecision RawUsage.
Proof. solve_decision. Defined.
#[export] Instance Usage_record_eq_dec : EqDecision Usage.
Proof. solve_decision. Defined.
#[export] Instance ReplayRecord_eq_dec : EqDecision ReplayRecord.
Proof. solve_decision. Defined.

(** ** Text *)

(** [char::is_whitespace]. *)
Definition is_white_space (c : char) : bool :=
  match N_of_ascii <$> c with
  | [b] => ((9 <=? b) && (b <=? 13) || (b =? 32))%N
  | [194%N; b] => ((b =? 133) || (b =? 160))%N
  | [225%N; 154%N; 128%N] | [226%N; 129%N; 159%N] | [227%N; 128%N; 128%N] => true
  | [226%N; 128%N; b] => ((128 <=? b) && (b <=? 138) || (b =? 168) || (b =? 169) || (b =? 175))%N
  | _ => false
  end.

(** [text.trim().is_empty()]. *)
Definition is_blank (text : string) : bool := forallb is_white_space (chars (bytes_of text)).

Definition rows_of (db : Hdb) (r : string) : gmap Z ItemRow := default ∅ (h_rows db !! r).
Definition outputs_of (db : Hdb) (r : string) : gmap Z (Z * string) := default ∅ (h_outputs db !! r).

Definition foreign_key {A} : result StoreError A := Err (Sql "FOREIGN KEY constraint failed").
Definition unique_key {A} : result StoreError A := Err (Sql "UNIQUE constraint failed").
Definition no_rows {A} : result StoreError A := Err (Sql "Query returned no rows").

(** ** Items and rows *)

(** The entries of an integer-keyed table in key order. *)
Definition by_key {A} (m : gmap Z A) : list (Z * A) := sort_by (fun a b => a.1 <=? b.1) (map_to_list m).

(** [COALESCE(MAX(position)+1,0)]. *)
Definition next_position (m : gmap Z ItemRow) : Z :=
  match last (by_key m) with Some (p, _) => p + 1 | None => 0 end.

Definition plain_row (hash : string) : ItemRow :=
  {| row_hash := hash; row_source_request := None; row_source_position := None; row_sources := []; row_note := false;
     row_overlays := []; row_operation := None |}.

Definition insert_row (db : Hdb) (r : string) (p : Z) (row : ItemRow) : result StoreError Hdb :=
  if bool_decide (is_Some (rows_of db r !! p)) then unique_key
  else if negb (bool_decide (is_Some (h_requests db !! r))) || negb (bool_decide (is_Some (h_items db !! row_hash row)))
  then foreign_key
  else Ok (db <| h_rows ::= (fun m => <[r := <[p := row]> (rows_of db r)]> m) |>).

Definition record_event (db : Hdb) (e : Event) : Z * Hdb :=
  (h_next_event db, db <| h_events ::= insert (h_next_event db) e |> <| h_next_event ::= Z.succ |>).

(** [chat::publish_item]. *)
Definition publish_item (db : Hdb) (r : string) (p : Z) (hash : string) (item : value) (envelope : option Z) : Hdb :=
  if is_configuration_update item then db
  else snd (record_event db {| event_request := Some r; event_body := ChatMessage p hash envelope |}).

(** ** Ownership of outputs *)

Definition is_tool_output (item : value) : bool := type_in item output_types.

Definition require_ordinary (item : value) (r : string) (p : Z) : result StoreError unit :=
  refuse is_tool_output item with UnboundOutputPublication r p; Ok tt.

Inductive ItemOwnership := Ordinary | OperationOutput (operation : OperationId) | HistoricalUnboundOutput.

Definition ownership (item : value) (operation : option OperationId) (r : string) (p : Z) : result StoreError ItemOwnership :=
  match is_tool_output item, operation with
  | false, None => Ok Ordinary
  | false, Some _ => Err (InconsistentOutputPublication r p)
  | true, None => Ok HistoricalUnboundOutput
  | true, Some o => if veq_str (vidx item "call_id") (call o) then Ok (OperationOutput o)
                    else Err (InconsistentOutputPublication r p)
  end.

Definition validate_occurrence (o : Occurrence) : result StoreError unit :=
  do _ <- ownership (occ_item o) (output_operation o) (occ_request o) (occ_position o); Ok tt.

(** ** Reading occurrences *)

(** A row joined with its item. *)
Definition occurrence (db : Hdb) (r : string) (e : Z * ItemRow) : option Occurrence :=
  let '(p, row) := e in
  (fun item =>
    {| occ_request := r; occ_position := p; occ_hash := row_hash row; occ_item := item; output_operation := row_operation row;
       occ_origin := {| o_request := default r (row_source_request row); o_position := default p (row_source_position row);
                        o_hash := row_hash row |};
       occ_sources := row_sources row; note := row_note row; overlays := row_overlays row |}) <$> h_items db !! row_hash row.

Definition query_occurrences (os : list Occurrence) : result StoreError (list Occurrence) :=
  map_result (fun o => do _ <- validate_occurrence o; Ok o) os.

Definition request_occurrences (db : Hdb) (r : string) : result StoreError (list Occurrence) :=
  query_occurrences (omap (occurrence db r) (by_key (rows_of db r))).

Definition compaction_key (r : string) : string := "harness:compaction:" +:+ r.

(** The recursive query: from the head to the root, or to the nearest
    compaction boundary when [boundaries] is set. *)
Fixpoint lineage (fuel : nat) (db : Hdb) (boundaries : bool) (r : string) : option (list string) :=
  match fuel with
  | O => None
  | S fuel =>
      match h_requests db !! r with
      | None => Some []
      | Some node =>
          if boundaries && bool_decide (is_Some (h_session db !! compaction_key r)) then Some [r]
          else match node_parent node with
               | None => Some [r]
               | Some p => cons r <$> lineage fuel db boundaries p
               end
      end
  end.

Definition full_lineage (db : Hdb) (boundaries : bool) (r : string) : option (list string) :=
  lineage (S (size (h_requests db))) db boundaries r.

(** [retained_history]; [None] is a query that never ends. *)
Definition retained_history (db : Hdb) (head : string) (boundaries : bool) : option (result StoreError (list Occurrence)) :=
  match h_requests db !! head with
  | None => Some (Err (MissingRequest head))
  | Some _ =>
      (fun l => query_occurrences (reverse l ≫= fun r => omap (occurrence db r) (by_key (rows_of db r))))
      <$> full_lineage db boundaries head
  end.
