(* ===== verification/HistoryOps.v ===== *)
(** The writers of conversation rows: requests and their items
    ([store/mod.rs]), provider issuance and its streamed items
    ([store/provider_response.rs]), completed responses ([store/replay.rs])
    and published outputs ([store/output_publication.rs]). *)

From S2P Require Import Prelude Json Redaction Usage Observation Sse Failure StoreDb Admission Jobs Lists Item ContextPatch ContextText HistoryDb.

Section ops.
(** The BLAKE3 digest of an item's encoding, in hexadecimal. *)
Variable item_hash : value -> string.

(** [INSERT OR IGNORE INTO items]. *)
Definition put_item (db : Hdb) (item : value) : string * Hdb :=
  let h := item_hash item in
  (h, match h_items db !! h with Some _ => db | None => db <| h_items ::= insert h item |> end).

(** ** Requests *)

Definition insert_request (db : Hdb) (id : string) (parent : option string) (branch : string) : result StoreError Hdb :=
  if bool_decide (is_Some (h_requests db !! id)) then unique_key
  else match parent with
       | None => Ok (db <| h_requests ::= insert id {| node_parent := parent; node_branch := branch |} |>)
       | Some p =>
           if existsb (fun e => bool_decide (node_parent e.2 = parent) && bool_decide (node_branch e.2 = branch))
                (map_to_list (h_requests db)) then unique_key
           else if negb (bool_decide (is_Some (h_requests db !! p))) then foreign_key
           else Ok (db <| h_requests ::= insert id {| node_parent := parent; node_branch := branch |} |>)
       end.

Definition create_request := insert_request.

(** One round of the loops that append authored items. *)
Definition append_authored (r : string) (acc : list string * Z * Hdb) (item : value) : result StoreError (list string * Z * Hdb) :=
  let '(hashes, p, db) := acc in
  do _ <- require_ordinary item r p;
  let '(h, db) := put_item db item in
  do db <- insert_row db r p (plain_row h);
  Ok (hashes ++ [h], p + 1, publish_item db r p h item None).

Definition authored (items : list value) : list value := List.filter (fun i => negb (is_configuration_update i)) items.

Definition write_request (db : Hdb) (r : string) (parent : option string) (branch : string) (items : list value)
    : result StoreError (unit * Hdb) :=
  do db <- insert_request db r parent branch;
  do '(_, _, db) <- fold_result (append_authored r) ([], 0, db) (authored items);
  Ok (tt, db).

Definition append_items (db : Hdb) (r : string) (items : list value) : result StoreError (list string * Hdb) :=
  guard bool_decide (is_Some (h_requests db !! r)) else MissingRequest r;
  do '(hashes, _, db) <- fold_result (append_authored r) ([], next_position (rows_of db r), db) (authored items);
  Ok (hashes, db).

(** ** Settings *)

(** [DELETE FROM request_items]: a row a provider item owns may not go. *)
Definition delete_row (db : Hdb) (r : string) (p : Z) : result StoreError Hdb :=
  if existsb (fun e => e.2.1 =? p) (map_to_list (outputs_of db r)) then foreign_key
  else Ok (db <| h_rows ::= insert r (delete p (rows_of db r)) |>).

Definition set_effort_tx (db : Hdb) (r : string) (e : Effort) : result StoreError (string * Hdb) :=
  guard bool_decide (is_Some (h_requests db !! r)) else MissingRequest r;
  do '(p, db) <-
    match last (omap (fun x => pair x.1 <$> h_items db !! row_hash x.2) (by_key (rows_of db r))) with
    | Some (p, previous) =>
        if is_configuration_update previous then do db <- delete_row db r p; Ok (p, db)
        else Ok (p + 1, db)
    | None => Ok (if bool_decide (rows_of db r = ∅) then 0 else 1, db)
    end;
  let '(h, db) := put_item db (configuration_update e) in
  do db <- insert_row db r p (plain_row h);
  Ok (h, db).

Definition pending_effort_key (agent : string) : string := "harness:pending_effort:" +:+ agent.

Definition save_pending_effort (db : Hdb) (agent : string) (e : Effort) : Hdb :=
  db <| h_session ::= insert (pending_effort_key agent) (VString (effort_text e)) |>.

Definition apply_pending_effort (db : Hdb) (agent r : string) : result StoreError (option string * Hdb) :=
  match h_session db !! pending_effort_key agent with
  | None => Ok (None, db)
  | Some pending =>
      do e <- ok_or (effort_parse pending) (OtherStoreError "json");
      do '(h, db) <- set_effort_tx db r e;
      Ok (Some h, db <| h_session ::= delete (pending_effort_key agent) |>)
  end.

(** ** Mail *)

Definition add_envelope (db : Hdb) (sender recipient class : string) (item : value) (delivered : option string)
    : result StoreError (Z * Hdb) :=
  let '(h, db) := put_item db item in
  if match delivered with Some r => negb (bool_decide (is_Some (h_requests db !! r))) | None => false end then foreign_key
  else Ok (h_next_mail db,
           db <| h_mail ::= insert (h_next_mail db) {| mail_sender := sender; mail_recipient := recipient; mail_class := class;
                                                       mail_hash := h; mail_delivered := delivered |} |>
              <| h_next_mail ::= Z.succ |>).

Definition unread (db : Hdb) (recipient : string) : list (Z * MailRow) :=
  List.filter (fun e => bool_decide (mail_recipient e.2 = recipient) && bool_decide (mail_delivered e.2 = None)
                        && bool_decide (is_Some (h_items db !! mail_hash e.2))) (by_key (h_mail db)).

(** [chat::publish_envelope]: the envelope is the unread one of this row and
    no message shows it yet. *)
Definition publish_envelope (db : Hdb) (r : string) (p : Z) (h : string) (item : value) (id : Z) : result StoreError Hdb :=
  refuse id <=? 0 with OtherStoreError "InvalidActorOutput";
  guard match h_mail db !! id, h_requests db !! r, rows_of db r !! p with
        | Some m, Some node, Some row =>
            bool_decide (mail_recipient m = node_branch node) && bool_decide (mail_hash m = h)
            && bool_decide (row_hash row = mail_hash m) && bool_decide (mail_delivered m = None)
            && negb (existsb (fun e => match event_body e.2 with ChatMessage _ _ (Some id') => id' =? id | _ => false end)
                       (map_to_list (h_events db)))
        | _, _, _ => false
        end else OtherStoreError "InvalidActorOutput";
  Ok (publish_item db r p h item (Some id)).

Definition attach_envelope (r : string) (acc : list value * Z * Hdb) (e : Z * MailRow) : result StoreError (list value * Z * Hdb) :=
  let '(items, p, db) := acc in
  do item <- ok_or (h_items db !! mail_hash e.2) (Sql "Query returned no rows");
  if is_configuration_update item then Ok acc else
  do _ <- require_ordinary item r p;
  do db <- insert_row db r p (plain_row (mail_hash e.2));
  do db <- publish_envelope db r p (mail_hash e.2) item e.1;
  Ok (items ++ [item], p + 1, db).

Definition deliver (r : string) (db : Hdb) (id : Z) : Hdb :=
  db <| h_mail ::= alter (fun m => match mail_delivered m with None => m <| mail_delivered := Some r |> | Some _ => m end) id |>.

Definition append_unread_envelopes (db : Hdb) (recipient r : string) : result StoreError (list value * Hdb) :=
  do node <- ok_or (h_requests db !! r) (MissingRequest r);
  guard bool_decide (node_branch node = recipient) else OtherStoreError "RequestAgentMismatch";
  let mail := unread db recipient in
  do '(items, _, db) <- fold_result (attach_envelope r) ([], next_position (rows_of db r), db) mail;
  Ok (items, foldl (deliver r) db mail.*1).

(** ** Provider responses *)

Definition state_name (s : ProviderResponseState) : string :=
  match s with
  | RStreaming => "streaming" | RCompleted => "completed" | RInterrupted => "interrupted" | RFailed => "failed"
  | RRejected => "rejected"
  end.

Definition parse_state (s : string) (r : string) : result StoreError ProviderResponseState :=
  if decide (s = "streaming") then Ok RStreaming else if decide (s = "completed") then Ok RCompleted
  else if decide (s = "interrupted") then Ok RInterrupted else if decide (s = "failed") then Ok RFailed
  else if decide (s = "rejected") then Ok RRejected else Err (InvalidProviderEvidence r).

Record IssuedProviderRequest := { ip_request : string; ip_store : string; ip_issued : IssuedRequestRecord }.

Definition issue_provider_request (db : Hdb) (store_id r : string) (record : IssuedRequestRecord)
    (contract : ResponsesRoute * ResponsesProtocol) : result StoreError (IssuedProviderRequest * Hdb) :=
  let handle := {| ip_request := r; ip_store := store_id; ip_issued := record |} in
  match h_provider db !! r with
  | Some prior =>
      guard bool_decide (issued prior = record) && bool_decide ((p_route prior, p_protocol prior) = contract)
        else ConflictingProviderIssuance r;
      Ok (handle, db)
  | None =>
      if bool_decide (is_Some (h_requests db !! r)) then
        Ok (handle, db <| h_provider ::= insert r {| issued := record; p_route := contract.1; p_protocol := contract.2;
                                                     p_state := RStreaming; response_id := None; completion_event := None |} |>)
      else foreign_key
  end.

Definition validate_provider_issuer (db : Hdb) (store_id : string) (i : IssuedProviderRequest) : result StoreError unit :=
  refuse negb (bool_decide (ip_store i = store_id)) with InvalidProviderEvidence (ip_request i);
  guard bool_decide (is_Some (h_provider db !! ip_request i)) else InvalidProviderEvidence (ip_request i);
  Ok tt.

Definition insert_output (db : Hdb) (r : string) (index p : Z) (h : string) : Hdb :=
  db <| h_outputs ::= insert r (<[index := (p, h)]> (outputs_of db r)) |>.

Definition append_item (db : Hdb) (r : string) (index : Z) (item : value) : result StoreError (bool * Hdb) :=
  do row <- ok_or (h_provider db !! r) (Sql "Query returned no rows");
  let inference := bool_decide (default Inference (purpose (issued row)) = Inference) in
  refuse i64_max <? index with InvalidProviderEvidence r;
  refuse inference && is_configuration_update item with InvalidProviderEvidence r;
  let '(h, db) := put_item db item in
  match outputs_of db r !! index with
  | Some (p, prior) =>
      refuse negb (bool_decide (prior = h)) with ConflictingProviderItem r index;
      do row <- ok_or (rows_of db r !! p) (Sql "Query returned no rows");
      refuse negb (bool_decide (row_hash row = h)) with InvalidProviderEvidence r;
      Ok (false, db)
  | None =>
      refuse negb (bool_decide (p_state row = RStreaming)) with InvalidProviderEvidence r;
      let p := next_position (rows_of db r) in
      do _ <- if inference then require_ordinary item r p else Ok tt;
      do db <- insert_row db r p (plain_row h);
      let db := insert_output db r index p h in
      Ok (true, if inference then publish_item db r p h item None else db)
  end.

Definition append_provider_done (db : Hdb) (store_id : string) (i : IssuedProviderRequest) (index : Z) (item : value)
    : result StoreError (bool * Hdb) :=
  do _ <- validate_provider_issuer db store_id i;
  append_item db (ip_request i) index item.

Definition stop_provider_response (db : Hdb) (r : string) (state : ProviderResponseState) : result StoreError (unit * Hdb) :=
  match state with
  | RStreaming | RCompleted => Err (InvalidProviderEvidence r)
  | _ => Ok (tt, db <| h_provider ::= alter (fun row => if bool_decide (p_state row = RStreaming)
                                                        then row <| p_state := state |> else row) r |>)
  end.

Definition provider_response_state (db : Hdb) (r : string) : option ProviderResponseState := p_state <$> h_provider db !! r.

(** One round of the loop over the items of a completed response. *)
Definition own_item (r : string) (acc : Z * list string * Hdb) (item : value) : result StoreError (Z * list string * Hdb) :=
  let '(index, hashes, db) := acc in
  do '(_, db) <- append_item db r index item;
  let '(h, db) := put_item db item in
  Ok (index + 1, hashes ++ [h], db).

Definition record_provider_turn (db : Hdb) (store_id : string) (i : IssuedProviderRequest) (resp_id : string)
    (items : list value) (usage : Usage) : result StoreError (Z * Hdb) :=
  let r := ip_request i in
  do _ <- validate_provider_issuer db store_id i;
  do row <- ok_or (h_provider db !! r) (Sql "Query returned no rows");
  guard match p_state row with RStreaming | RCompleted => true | _ => false end else InvalidProviderEvidence r;
  do '(_, hashes, db) <- fold_result (own_item r) (0, [], db) items;
  refuse negb (Z.of_nat (size (outputs_of db r)) =? Z.of_nat (length items)) with InvalidProviderEvidence r;
  let record := {| rr_request := r; rr_issued := ip_issued i; rr_response_id := resp_id; rr_items := hashes; rr_usage := usage;
                   rr_contract := Some (p_route row, p_protocol row); rr_completion := None |} in
  match completion_event row with
  | Some event =>
      do e <- ok_or (h_events db !! event) (Sql "Query returned no rows");
      refuse negb match event_body e with ModelTurn previous => bool_decide (previous = record) | _ => false end
        with InvalidProviderEvidence r;
      Ok (event, db)
  | None =>
      let '(event, db) := record_event db {| event_request := Some r; event_body := ModelTurn record |} in
      Ok (event, db <| h_provider ::= alter (fun row => row <| p_state := RCompleted |> <| response_id := Some resp_id |>
                                                            <| completion_event := Some event |>) r |>)
  end.

(** ** Response evidence *)

Inductive ResponseEnvelopeKind := KindModelTurn | KindServerCompaction.
Inductive ResponseCompleteness := CompleteResponse | ObservedPrefix.

Record ResponseEnvelope := {
  re_model : string;
  re_origins : list Origin;
  re_kind : ResponseEnvelopeKind;
  re_completeness : ResponseCompleteness;
  re_route : option ResponsesRoute;
  re_protocol : option ResponsesProtocol;
  re_native : option NativeTransportContract
}.

(** [NativeTransportContract::validate] of the admission component, and
    [compaction::source_response_envelope], the evidence of a server compaction. *)
Variable validate_native : NativeTransportContract -> result TransportError unit.
Variable source_response_envelope : Hdb -> string -> result StoreError (option ResponseEnvelope).

(** The indexed rows of a response, joined with their occurrences. *)
Definition owned_rows (db : Hdb) (r : string) : list (Z * Z * string * string) :=
  omap (fun e => (fun row => (e.1, e.2.1, e.2.2, row_hash row)) <$> rows_of db r !! e.2.1) (by_key (outputs_of db r)).

Definition collect_origin (r : string) (acc : list Origin) (row : Z * Z * string * string) : result StoreError (list Origin) :=
  let '(index, p, h, actual) := row in
  let expected := Z.of_nat (length acc) in
  refuse negb (bool_decide (h = actual)) with InvalidProviderEvidence r;
  refuse negb (index =? expected) with IncompleteProviderPrefix r expected;
  Ok (acc ++ [{| o_request := r; o_position := p; o_hash := h |}]).

(** [response_envelopes]: the envelope a response's issuance proves. The source
    returns the map from each of its origins to it. *)
Definition issued_envelope (db : Hdb) (r : string) : result StoreError (option ResponseEnvelope) :=
  match h_provider db !! r with
  | None => Ok None
  | Some row =>
      do _ <- match native_transport (issued row) with
              | Some n => map_err ProviderAdmission (validate_native n)
              | None => Ok tt
              end;
      refuse is_blank (issued_model (issued row)) with InvalidProviderEvidence r;
      if bool_decide (purpose (issued row) = Some ServerCompaction) then source_response_envelope db r else
      refuse match native_transport (issued row) with
             | Some n => negb (bool_decide (nt_route n = p_route row)) || negb (bool_decide (nt_protocol n = p_protocol row))
             | None => false
             end with InvalidProviderEvidence r;
      do origins <- fold_result (collect_origin r) [] (owned_rows db r);
      Ok (Some {| re_model := issued_model (issued row); re_origins := origins; re_kind := KindModelTurn;
                  re_completeness := if bool_decide (p_state row = RCompleted) then CompleteResponse else ObservedPrefix;
                  re_route := Some (p_route row); re_protocol := Some (p_protocol row);
                  re_native := native_transport (issued row) |})
  end.

Definition captured_prefix (db : Hdb) (r : string) (boundary : Origin) (selected : list Origin) : option (list Origin) :=
  if negb (bool_decide (is_Some (h_provider db !! r))) || negb (bool_decide (o_request boundary = r)) then None else
  match List.find (fun e => (e.2.1 =? o_position boundary) && bool_decide (e.2.2 = o_hash boundary)) (map_to_list (outputs_of db r)) with
  | None => None
  | Some (boundary_index, _) =>
      let rows := List.filter (fun row => row.1.1.1 <? boundary_index) (owned_rows db r) in
      if negb (Z.of_nat (length rows) =? boundary_index) then None else
      match fold_result (fun acc row =>
              let '(index, p, h, actual) := row in
              let origin := {| o_request := r; o_position := p; o_hash := h |} in
              refuse negb (index =? Z.of_nat (length acc)) || negb (bool_decide (actual = h))
                     || negb (length (List.filter (fun c => bool_decide (c = origin)) selected) =? 1)%nat with tt;
              Ok (acc ++ [origin])) [] rows with
      | Ok origins => Some origins
      | Err _ => None
      end
  end.

(** [output_order]: the provider's index of each owned occurrence. *)
Definition order_row (r : string) (acc : gmap Origin Z) (e : Z * (Z * string)) (actual : option string)
    : result StoreError (gmap Origin Z) :=
  let '(index, (p, h)) := e in
  let origin := {| o_request := r; o_position := p; o_hash := h |} in
  guard bool_decide (actual = Some h) else InvalidProviderEvidence r;
  refuse bool_decide (is_Some (acc !! origin)) with InvalidProviderEvidence r;
  Ok (<[origin := index]> acc).

Definition output_order (db : Hdb) (requests : list string) : result StoreError (gmap Origin Z) :=
  fold_result (fun acc r =>
    fold_result (fun acc e => order_row r acc e (row_hash <$> rows_of db r !! e.2.1)) acc (by_key (outputs_of db r)))
    ∅ (remove_dups requests).

(** ** Published outputs *)

(** [terminal::replay_claim]: the output item a settled claim retains. *)
Variable replay_claim : OperationId -> string -> result StoreError (option value).

Definition owned_by (operation : OperationId) (e : Z * ItemRow) : bool := bool_decide (row_operation e.2 = Some operation).

Definition append_tx (db : Hdb) (operation : OperationId) (claimant r : string) : result StoreError (value * string * bool * Hdb) :=
  do retained <- replay_claim operation claimant;
  do item <- ok_or retained (InvalidOutputPublication operation claimant);
  let '(h, db) := put_item db item in
  match row_hash ∘ snd <$> take 2 (List.filter (owned_by operation) (by_key (rows_of db r))) with
  | [] =>
      guard bool_decide (is_Some (h_requests db !! r)) else MissingRequest r;
      let p := next_position (rows_of db r) in
      do db <- insert_row db r p
        {| row_hash := h; row_source_request := None; row_source_position := None; row_sources := []; row_note := false;
           row_overlays := []; row_operation := Some operation |};
      Ok (item, h, true, publish_item db r p h item None)
  | [previous] =>
      guard bool_decide (previous = h) else InvalidOutputPublication operation claimant;
      Ok (item, h, false, db)
  | _ => Err (InvalidOutputPublication operation claimant)
  end.
End ops.
