(* ===== verification/HistoryProofs.v ===== *)
(** The invariant of conversation rows and its preservation.

    Positions of a request are dense, rows and provider items refer to rows
    that exist, each provider index owns one occurrence, parents were created
    before their children. Every writer keeps the invariant and extends the
    rows: only a trailing setting is ever replaced. *)

From S2P Require Import Prelude Json Redaction Usage Observation Sse Failure StoreDb Admission Jobs Lists Item ContextPatch ContextText HistoryDb HistoryOps.

(** ** Tables in key order *)

Section by_key.
Context {A : Type}.
Implicit Types m : gmap Z A.

Lemma by_key_perm m : by_key m ≡ₚ map_to_list m.
Proof. apply sort_by_perm. Qed.

Lemma by_key_elem m k x : (k, x) ∈ by_key m <-> m !! k = Some x.
Proof. by rewrite by_key_perm, elem_of_map_to_list. Qed.

Lemma by_key_NoDup m : NoDup (by_key m).*1.
Proof. rewrite by_key_perm. apply NoDup_fst_map_to_list. Qed.

Lemma by_key_length m : length (by_key m) = size m.
Proof. rewrite by_key_perm. apply length_map_to_list. Qed.

Lemma by_key_sorted m : StronglySorted (fun a b => a.1 < b.1) (by_key m).
Proof.
  assert (StronglySorted (fun a b : Z * A => (a.1 <=? b.1) = true) (by_key m)) as Hs.
  { apply sort_by_sorted; intros; rewrite !Z.leb_le in *; lia. }
  pose proof (by_key_NoDup m) as Hnd. revert Hs Hnd. generalize (by_key m) as l.
  induction 1 as [|[k x] l Hs IH Hx]; [constructor|]. rewrite fmap_cons, NoDup_cons. intros [Hn Hnd].
  constructor; [by apply IH|]. rewrite Forall_forall in *. intros [k' x'] Hin. simpl in *.
  specialize (Hx _ Hin). simpl in Hx. apply Z.leb_le in Hx.
  assert (k <> k') by (intros <-; apply Hn; apply list_elem_of_fmap; by exists (k, x')). lia.
Qed.

(** The greatest entry comes last. *)
Lemma by_key_last m k x : last (by_key m) = Some (k, x) <-> m !! k = Some x /\ (forall k' y, m !! k' = Some y -> k' <= k).
Proof.
  pose proof (by_key_sorted m) as Hs. setoid_rewrite <- by_key_elem. revert Hs. generalize (by_key m) as l.
  induction l as [|[k1 x1] l IH] using rev_ind; [intros _; simpl; split; [done|intros [H _]; set_solver]|].
  intros Hs. rewrite last_snoc. apply StronglySorted_app in Hs as (Hlt & Hs & _). split.
  - intros [= -> ->]. split; [set_solver|]. intros k' y [Hin|[= -> ->]%list_elem_of_singleton]%elem_of_app; [|lia].
    specialize (Hlt _ _ Hin (list_elem_of_here _ _)). simpl in Hlt. lia.
  - intros [Hin Hmax]. apply elem_of_app in Hin as [Hin|[= -> ->]%list_elem_of_singleton]; [|done].
    specialize (Hlt _ _ Hin (list_elem_of_here _ _)). simpl in Hlt. specialize (Hmax k1 x1 ltac:(set_solver)). lia.
Qed.
End by_key.

(** ** Dense positions *)

Definition dense (m : gmap Z ItemRow) : Prop := forall p, is_Some (m !! p) <-> 0 <= p < Z.of_nat (size m).

Lemma dense_empty : dense ∅.
Proof. intros p. rewrite lookup_empty, map_size_empty. split; [by intros []|lia]. Qed.

Lemma next_position_dense m : dense m -> next_position m = Z.of_nat (size m).
Proof.
  intros Hd. unfold next_position. destruct (last (by_key m)) as [[p x]|] eqn:E.
  - apply by_key_last in E as [Hp Hmax]. assert (0 <= p < Z.of_nat (size m)) as Hr by (apply Hd; eauto).
    assert (is_Some (m !! (Z.of_nat (size m) - 1))) as [y Hy] by (apply Hd; lia). specialize (Hmax _ _ Hy). lia.
  - apply last_None in E. rewrite <- by_key_length, E. done.
Qed.

Lemma dense_insert m row : dense m -> dense (<[Z.of_nat (size m) := row]> m).
Proof.
  intros Hd p. assert (m !! Z.of_nat (size m) = None) as Hn.
  { apply eq_None_not_Some. intros H. apply Hd in H. lia. }
  rewrite map_size_insert_None, lookup_insert_is_Some by done. rewrite (Hd p). lia.
Qed.

(** Removing the last row and appending another keeps positions dense. *)
Lemma dense_replace m p row : dense m -> is_Some (m !! p) -> dense (<[p := row]> (delete p m)).
Proof.
  intros Hd Hp q. rewrite insert_delete_eq, map_size_insert_Some by done. rewrite <- (Hd q).
  rewrite lookup_insert_is_Some. destruct (decide (p = q)) as [->|]; naive_solver.
Qed.

(** ** The invariant *)

Section wf.
Variable item_hash : value -> string.

Record history_wf (db : Hdb) : Prop := {
  wf_dense r : dense (rows_of db r);
  wf_rows r p row : rows_of db r !! p = Some row -> is_Some (h_requests db !! r) /\ is_Some (h_items db !! row_hash row);
  wf_items h item : h_items db !! h = Some item -> item_hash item = h;
  wf_outputs r i p h : outputs_of db r !! i = Some (p, h) ->
    0 <= i <= i64_max /\ is_Some (h_provider db !! r) /\ exists row, rows_of db r !! p = Some row /\ row_hash row = h;
  wf_outputs_inj r i j p h h' : outputs_of db r !! i = Some (p, h) -> outputs_of db r !! j = Some (p, h') -> i = j;
  wf_parents : exists rank : string -> nat, forall r node p, h_requests db !! r = Some node -> node_parent node = Some p ->
    is_Some (h_requests db !! p) /\ (rank p < rank r)%nat;
  wf_provider r row : h_provider db !! r = Some row ->
    is_Some (h_requests db !! r) /\
    (p_state row = RCompleted <-> is_Some (completion_event row)) /\
    (forall e, completion_event row = Some e -> exists req rec, h_events db !! e = Some {| event_request := req; event_body := ModelTurn rec |});
  wf_events e ev : h_events db !! e = Some ev -> e < h_next_event db
}.

(** What a writer may do to the rows before it. *)
Record extends (db db' : Hdb) : Prop := {
  ext_requests : h_requests db ⊆ h_requests db';
  ext_items : h_items db ⊆ h_items db';
  ext_rows r p row item : rows_of db r !! p = Some row -> h_items db !! row_hash row = Some item ->
    is_configuration_update item = false -> rows_of db' r !! p = Some row;
  ext_outputs r : outputs_of db r ⊆ outputs_of db' r;
  ext_provider r row : h_provider db !! r = Some row -> exists row', h_provider db' !! r = Some row' /\
    issued row' = issued row /\ p_route row' = p_route row /\ p_protocol row' = p_protocol row /\
    (p_state row <> RStreaming -> row' = row);
  ext_events : h_events db ⊆ h_events db'
}.

#[export] Instance extends_preorder : PreOrder extends.
Proof.
  split.
  - intros db. split; try done; eauto 10.
  - intros a b c [R1 I1 W1 O1 P1 E1] [R2 I2 W2 O2 P2 E2]. split.
    + etrans; eauto.
    + etrans; eauto.
    + intros r p row item H1 H2 H3. eapply W2; eauto. by eapply lookup_weaken.
    + intros r. etrans; eauto.
    + intros r row H. destruct (P1 _ _ H) as (row1 & Hp1 & A1 & B1 & C1 & Hs1).
      destruct (P2 _ _ Hp1) as (row2 & Hp2 & A2 & B2 & C2 & Hs2). exists row2. split_and!; try done; try congruence.
      intros Hs. rewrite Hs2; [by apply Hs1|]. rewrite Hs1 by done. done.
    + etrans; eauto.
Qed.

(** A step that keeps the invariant and extends the rows. *)
Definition keeps (db db' : Hdb) : Prop := history_wf db -> history_wf db' /\ extends db db'.

#[export] Instance keeps_preorder : PreOrder keeps.
Proof.
  split; [by intros db H|]. intros a b c H1 H2 Ha. destruct (H1 Ha) as [Hb E1]. destruct (H2 Hb) as [Hc E2].
  split; [done|]. etrans; eauto.
Qed.

Lemma empty_wf : history_wf Hdb_empty.
Proof.
  split; unfold rows_of, outputs_of; simpl; try (intros; by simplify_map_eq).
  - intros r. rewrite lookup_empty. apply dense_empty.
  - exists (fun _ => 0%nat). intros. by simplify_map_eq.
Qed.

Lemma put_item_keeps db item : keeps db (put_item item_hash db item).2.
Proof.
  unfold put_item. simpl. destruct (h_items db !! item_hash item) eqn:E; [done|].
  intros [D W I O J P PR EV]. split; [split|split]; unfold rows_of, outputs_of in *; simpl; try done; eauto 10.
  - intros r p row H. destruct (W _ _ _ H) as [? ?]. split; [done|]. by apply lookup_insert_is_Some'; right.
  - intros h i. rewrite lookup_insert_Some. naive_solver.
  - by apply insert_subseteq.
Qed.

Lemma record_event_keeps db e : keeps db (record_event db e).2.
Proof.
  unfold record_event. simpl. intros [D W I O J P PR EV].
  assert (h_events db !! h_next_event db = None) as Hn.
  { apply eq_None_not_Some. intros [ev H]. apply EV in H. lia. }
  split; [split|split]; unfold rows_of, outputs_of in *; simpl; try done; eauto 10.
  - intros r row H. destruct (PR _ _ H) as (H1 & H2 & H3). split_and!; try done; try apply H2.
    intros ev He. destruct (H3 ev He) as (req & rec & Hev). exists req, rec. apply lookup_insert_Some. right.
    split; [|done]. intros <-. congruence.
  - intros k ev. rewrite lookup_insert_Some. intros [[<- _]|[_ H]]; [lia|]. apply EV in H. lia.
  - by apply insert_subseteq.
Qed.

Lemma publish_item_keeps db r p h item env : keeps db (publish_item db r p h item env).
Proof. unfold publish_item. destruct (is_configuration_update item); [done|]. apply record_event_keeps. Qed.

Lemma default_insert {A} `{Empty A} (m : gmap string A) r x r' :
  default ∅ (<[r := x]> m !! r') = if decide (r' = r) then x else default ∅ (m !! r').
Proof. case_decide; subst; by simplify_map_eq. Qed.

Lemma rows_set db r m r' : rows_of (db <| h_rows ::= insert r m |>) r' = if decide (r' = r) then m else rows_of db r'.
Proof. unfold rows_of. simpl. apply default_insert. Qed.

Lemma outputs_set db r m r' :
  outputs_of (db <| h_outputs ::= insert r m |>) r' = if decide (r' = r) then m else outputs_of db r'.
Proof. unfold outputs_of. simpl. apply default_insert. Qed.

Lemma insert_request_keeps db id parent branch db' :
  insert_request db id parent branch = Ok db' -> keeps db db'.
Proof.
  unfold insert_request, unique_key, foreign_key. case_bool_decide as Hid; [done|].
  assert (h_requests db !! id = None) as Hn by (by apply eq_None_not_Some).
  intros Hins [D W I O J [rank P] PR EV].
  assert (db' = db <| h_requests ::= insert id {| node_parent := parent; node_branch := branch |} |> /\
    (forall p, parent = Some p -> is_Some (h_requests db !! p))) as [-> Hp].
  { destruct parent as [p|]; [|by inv_ok]. destruct (existsb _ _); [done|].
    destruct (bool_decide _) eqn:E; [|done]. apply bool_decide_eq_true in E. simpl in Hins. inv_ok. naive_solver. }
  assert (forall r, is_Some (h_requests db !! r) ->
    is_Some (<[id := {| node_parent := parent; node_branch := branch |}]> (h_requests db) !! r)) as Hmono.
  { intros r Hr. apply lookup_insert_is_Some'. by right. }
  split; [split|split]; unfold rows_of, outputs_of in *; simpl; try done; eauto 10.
  - intros r p row H. destruct (W _ _ _ H). eauto.
  - exists (fun r => if decide (r = id) then S (match parent with Some p => rank p | None => 0%nat end) else rank r).
    intros r node p. rewrite lookup_insert_Some. intros [[<- <-]|[Hne Hr]] Hpar; simpl in Hpar.
    + subst parent. split; [by apply Hmono, Hp|]. case_decide as E; [|case_decide; [lia|done]].
      subst p. specialize (Hp _ eq_refl). rewrite Hn in Hp. by destruct Hp.
    + destruct (P _ _ _ Hr Hpar) as [Hp1 Hp2]. split; [eauto|]. case_decide as E1; [|case_decide; [congruence|done]].
      subst p. rewrite Hn in Hp1. by destruct Hp1.
  - intros r row H. destruct (PR _ _ H) as (H1 & H2 & H3). eauto.
  - by apply insert_subseteq.
Qed.

Lemma insert_row_inv db r p row db' :
  insert_row db r p row = Ok db' ->
  rows_of db r !! p = None /\ is_Some (h_requests db !! r) /\ is_Some (h_items db !! row_hash row) /\
  db' = db <| h_rows ::= insert r (<[p := row]> (rows_of db r)) |>.
Proof.
  unfold insert_row, unique_key, foreign_key. case_bool_decide as H1; [done|]. case_bool_decide as H2; [|done].
  case_bool_decide as H3; [|done]. simpl. intros [= <-]. split_and!; try done. by apply eq_None_not_Some.
Qed.

(** Rows that stay below a change of one request's rows. *)
Lemma rows_change_keeps db r m :
  history_wf db -> dense m ->
  (forall p row, m !! p = Some row -> is_Some (h_requests db !! r) /\ is_Some (h_items db !! row_hash row)) ->
  (forall p row item, rows_of db r !! p = Some row -> h_items db !! row_hash row = Some item ->
     is_configuration_update item = false -> m !! p = Some row) ->
  (forall i p h row, outputs_of db r !! i = Some (p, h) -> rows_of db r !! p = Some row -> m !! p = Some row) ->
  history_wf (db <| h_rows ::= insert r m |>) /\ extends db (db <| h_rows ::= insert r m |>).
Proof.
  intros [D W I O J P PR EV] Hd Hfk Hrows Hout. split; [split|split]; try done; eauto 10.
  - intros r'. rewrite rows_set. by case_decide.
  - intros r' p row. rewrite rows_set. case_decide; subst; [apply Hfk|apply W].
  - intros r' i p h H. destruct (O _ _ _ _ H) as (H1 & H2 & row & H3 & H4). split; [done|]. split; [done|].
    exists row. split; [|done]. rewrite rows_set. case_decide; subst; [|done]. eapply Hout; eauto.
  - intros r' p row item H1 H2 H3. rewrite rows_set. case_decide; subst; [eauto|done].
Qed.

Lemma insert_row_keeps db r p row db' :
  insert_row db r p row = Ok db' -> p = next_position (rows_of db r) -> history_wf db ->
  (history_wf db' /\ extends db db') /\ next_position (rows_of db' r) = p + 1.
Proof.
  intros (Hn & Hr & Hi & ->)%insert_row_inv Hp Hwf. pose proof (wf_dense _ Hwf r) as Hd.
  rewrite (next_position_dense _ Hd) in Hp. subst p.
  assert (dense (<[Z.of_nat (size (rows_of db r)) := row]> (rows_of db r))) as Hd' by (by apply dense_insert).
  split.
  - apply rows_change_keeps; try done.
    + intros q row'. rewrite lookup_insert_Some. intros [[_ <-]|[_ H]]; [done|]. by apply (wf_rows _ Hwf) in H.
    + intros q row' item H1 _ _. apply lookup_insert_Some. right. split; [congruence|done].
    + intros i q h row' _ H1. apply lookup_insert_Some. right. split; [congruence|done].
  - rewrite rows_set, decide_True by done. rewrite (next_position_dense _ Hd'), map_size_insert_None by done. lia.
Qed.

Lemma put_item_rows db item r : rows_of (put_item item_hash db item).2 r = rows_of db r.
Proof. unfold put_item. simpl. by destruct (h_items db !! item_hash item). Qed.

Lemma put_item_outputs db item r : outputs_of (put_item item_hash db item).2 r = outputs_of db r.
Proof. unfold put_item. simpl. by destruct (h_items db !! item_hash item). Qed.

Lemma publish_item_rows db r' p h item env r : rows_of (publish_item db r' p h item env) r = rows_of db r.
Proof. unfold publish_item. by destruct (is_configuration_update item). Qed.

Lemma publish_item_outputs db r' p h item env r : outputs_of (publish_item db r' p h item env) r = outputs_of db r.
Proof. unfold publish_item. by destruct (is_configuration_update item). Qed.

(** A loop that appends rows at successive positions. *)
Lemma append_loop_keeps {X A} (f : A * Z * Hdb -> X -> result StoreError (A * Z * Hdb)) r xs :
  (forall acc p db x acc' p' db', f (acc, p, db) x = Ok (acc', p', db') -> history_wf db -> p = next_position (rows_of db r) ->
     (history_wf db' /\ extends db db') /\ p' = next_position (rows_of db' r)) ->
  forall acc p db acc' p' db', fold_result f (acc, p, db) xs = Ok (acc', p', db') -> history_wf db ->
    p = next_position (rows_of db r) -> (history_wf db' /\ extends db db') /\ p' = next_position (rows_of db' r).
Proof.
  intros Hf. induction xs as [|x xs IH]; intros acc p db acc' p' db'; simpl; [by intros [= <- <- <-]|].
  intros H Hwf Hp. inv_ok. destruct x0 as [[acc1 p1] db1]. destruct (Hf _ _ _ _ _ _ _ Hr Hwf Hp) as [[Hwf1 E1] Hp1].
  destruct (IH _ _ _ _ _ _ H Hwf1 Hp1) as [[Hwf2 E2] Hp2]. split; [split; [done|]|done]. etrans; eauto.
Qed.

Lemma append_authored_keeps r acc p db x acc' p' db' :
  append_authored item_hash r (acc, p, db) x = Ok (acc', p', db') -> history_wf db -> p = next_position (rows_of db r) ->
  (history_wf db' /\ extends db db') /\ p' = next_position (rows_of db' r).
Proof.
  unfold append_authored. intros H Hwf Hp. destruct (put_item item_hash db x) as [h db1] eqn:Eput. inv_ok. simplify_eq.
  pose proof (put_item_keeps db x Hwf) as [Hwf1 E1]. pose proof (put_item_rows db x r) as Hr1.
  rewrite Eput in Hwf1, E1, Hr1. simpl in *. rewrite <- Hr1 in Hr0.
  destruct (insert_row_keeps _ _ _ _ _ Hr0 eq_refl Hwf1) as [[Hwf2 E2] Hn2].
  destruct (publish_item_keeps x1 r (next_position (rows_of db1 r)) h x None Hwf2) as [Hwf3 E3].
  rewrite publish_item_rows, Hn2, <- Hr1. split; [|done]. split; [done|]. do 2 (etrans; [eassumption|]). done.
Qed.

Lemma write_request_keeps db r parent branch items x db' :
  write_request item_hash db r parent branch items = Ok (x, db') -> keeps db db'.
Proof.
  unfold write_request. intros H Hwf. inv_ok. destruct x1 as [[hs p'] db2]. inv_ok. simplify_eq.
  destruct (insert_request_keeps _ _ _ _ _ Hr Hwf) as [Hwf1 E1].
  assert (rows_of x0 r = ∅) as Hempty.
  { destruct (rows_of db r !! 0) as [row|] eqn:E0.
    - apply (wf_rows _ Hwf) in E0 as [Hin _]. unfold insert_request, unique_key in Hr.
      by rewrite bool_decide_eq_true_2 in Hr.
    - assert (rows_of x0 r = rows_of db r) as -> by (unfold insert_request, unique_key, foreign_key in Hr;
        destruct parent; repeat case_match; simplify_eq; done).
      apply map_empty. intros q. apply eq_None_not_Some. intros Hq.
      apply (wf_dense _ Hwf) in Hq. assert (is_Some (rows_of db r !! 0)) as [? ?] by (apply (wf_dense _ Hwf); lia). congruence. }
  destruct (append_loop_keeps _ r _ (append_authored_keeps r) _ _ _ _ _ _ Hr0 Hwf1) as [[Hwf2 E2] _]; [by rewrite Hempty|].
  split; [done|]. etrans; eauto.
Qed.

Lemma append_items_keeps db r items hs db' : append_items item_hash db r items = Ok (hs, db') -> keeps db db'.
Proof.
  unfold append_items. intros H Hwf. inv_ok. destruct x as [[hs' p'] db2]. inv_ok. simplify_eq.
  by destruct (append_loop_keeps _ r _ (append_authored_keeps r) _ _ _ _ _ _ Hr Hwf eq_refl) as [Hk _].
Qed.

(** A change of tables the invariant does not mention. *)
Lemma inert_keeps db db' :
  h_requests db' = h_requests db -> h_items db' = h_items db -> h_rows db' = h_rows db -> h_provider db' = h_provider db ->
  h_outputs db' = h_outputs db -> h_events db' = h_events db -> h_next_event db' = h_next_event db -> keeps db db'.
Proof.
  intros H1 H2 H3 H4 H5 H6 H7 [D W I O J P PR EV].
  assert (forall r, rows_of db' r = rows_of db r) as Hr by (intros r; unfold rows_of; by rewrite H3).
  assert (forall r, outputs_of db' r = outputs_of db r) as Ho by (intros r; unfold outputs_of; by rewrite H5).
  split; [split|split]; setoid_rewrite Hr || setoid_rewrite Ho || idtac; rewrite ?H1, ?H2, ?H4, ?H6, ?H7; try done; eauto 10;
    try (setoid_rewrite Ho || idtac; rewrite ?H4; setoid_rewrite Hr || idtac; eauto 10; done).
Qed.

(** The row a setting replaces is the last one, and it is a setting. *)
Lemma replace_setting_keeps db r p previous db1 row db' :
  last (omap (fun x => pair x.1 <$> h_items db !! row_hash x.2) (by_key (rows_of db r))) = Some (p, previous) ->
  is_configuration_update previous = true ->
  delete_row db r p = Ok db1 -> insert_row (put_item item_hash db1 row).2 r p (plain_row (item_hash row)) = Ok db' -> keeps db db'.
Proof.
  intros Hlast Hset Hdel Hins Hwf.
  assert (exists prow, rows_of db r !! p = Some prow /\ h_items db !! row_hash prow = Some previous) as (prow & Hp & Hprev).
  { apply last_Some_elem_of, list_elem_of_omap in Hlast as ([q qrow] & Hq & E). simpl in E.
    apply fmap_Some in E as (v & Hv & [= -> ->]). apply by_key_elem in Hq. eauto. }
  unfold delete_row, foreign_key in Hdel. destruct (existsb _ _) eqn:Eown; [done|]. injection Hdel as <-.
  set (db1 := db <| h_rows ::= _ |>) in *. set (db2 := (put_item item_hash db row).2).
  destruct (put_item_keeps db row Hwf) as [Hwf2 E2]. fold db2 in Hwf2, E2.
  apply insert_row_inv in Hins as (_ & Hreq & Hitem & ->).
  assert ((put_item item_hash db1 row).2 = db2 <| h_rows ::= insert r (delete p (rows_of db r)) |>) as Hput.
  { unfold db2, put_item, db1. simpl. by destruct (h_items db !! item_hash row). }
  rewrite Hput in Hreq, Hitem |- *. rewrite rows_set, decide_True by done.
  assert (rows_of db2 r = rows_of db r) as Hr2 by apply put_item_rows.
  assert (outputs_of db2 r = outputs_of db r) as Ho2 by apply put_item_outputs.
  set (m := <[p := plain_row (item_hash row)]> (delete p (rows_of db r))).
  replace (db2 <| h_rows ::= insert r (delete p (rows_of db r)) |> <| h_rows ::= insert r m |>)
    with (db2 <| h_rows ::= insert r m |>) by (unfold assign; simpl; by rewrite insert_insert_eq).
  enough (history_wf (db2 <| h_rows ::= insert r m |>) /\ extends db2 (db2 <| h_rows ::= insert r m |>)) as [Hw He].
  { split; [done|]. etrans; [exact E2|exact He]. }
  assert (forall q y, p <> q -> m !! q = Some y <-> rows_of db r !! q = Some y) as Hm.
  { intros q y Hq. unfold m. by rewrite lookup_insert_ne, lookup_delete_ne. }
  apply rows_change_keeps; [done|apply dense_replace; [apply (wf_dense _ Hwf)|eauto]|..]; rewrite ?Hr2, ?Ho2.
  - intros q y. destruct (decide (p = q)) as [<-|Hq].
    + unfold m. rewrite lookup_insert_eq. intros [= <-]. simpl. done.
    + rewrite Hm by done. rewrite <- Hr2. by apply (wf_rows _ Hwf2).
  - intros q y item H1 H2 H3. destruct (decide (p = q)) as [<-|Hq]; [|by apply Hm].
    assert (h_items db2 !! row_hash prow = Some previous) by (eapply lookup_weaken; [exact Hprev|apply E2]). congruence.
  - intros j q h y H1 H2. destruct (decide (p = q)) as [<-|Hq]; [|by apply Hm].
    rewrite existsb_false in Eown. specialize (Eown (j, (p, h))). rewrite elem_of_map_to_list in Eown.
    specialize (Eown H1). simpl in Eown. lia.
Qed.

Lemma last_joined db r p previous :
  history_wf db -> last (omap (fun x => pair x.1 <$> h_items db !! row_hash x.2) (by_key (rows_of db r))) = Some (p, previous) ->
  p + 1 = next_position (rows_of db r).
Proof.
  intros Hwf H. unfold next_position.
  assert (forall l, (forall x, x ∈ l -> is_Some (h_items db !! row_hash x.2)) ->
    (omap (fun x : Z * ItemRow => pair x.1 <$> h_items db !! row_hash x.2) l).*1 = l.*1) as Hmap.
  { induction l as [|x l IH]; [done|]. intros Hl. destruct (Hl x) as [v Hv]; [set_solver|]. simpl. rewrite Hv. simpl.
    f_equal. apply IH. set_solver. }
  apply (f_equal (fmap fst)) in H. rewrite <- fmap_last, Hmap, fmap_last in H.
  - simpl in H. apply fmap_Some in H as ([q y] & -> & ->). done.
  - intros [q y] Hin. apply by_key_elem in Hin. by apply (wf_rows _ Hwf) in Hin as [_ ?].
Qed.

Lemma set_effort_keeps db r e h db' : set_effort_tx item_hash db r e = Ok (h, db') -> keeps db db'.
Proof.
  unfold set_effort_tx. intros H Hwf. destruct (bool_decide _); [|done].
  apply rbind_Ok in H as ([p db1] & Hpos & H).
  destruct (put_item item_hash db1 (configuration_update e)) as [h' db2] eqn:Eput.
  apply rbind_Ok in H as (db3 & Hins & [= <- <-]).
  assert (h' = item_hash (configuration_update e)) as -> by (unfold put_item in Eput; by simplify_eq).
  assert (db2 = (put_item item_hash db1 (configuration_update e)).2) as -> by (by rewrite Eput).
  destruct (last _) as [[q previous]|] eqn:Hlast.
  - destruct (is_configuration_update previous) eqn:Hset.
    + apply rbind_Ok in Hpos as (db1' & Hdel & [= <- <-]). by eapply replace_setting_keeps.
    + injection Hpos as <- <-. apply last_joined in Hlast; [|done].
      destruct (put_item_keeps db (configuration_update e) Hwf) as [Hwf1 E1].
      eapply insert_row_keeps in Hins as [[Hwf2 E2] _]; [|by rewrite put_item_rows|done]. split; [done|]. by etrans.
  - injection Hpos as <- <-. destruct (put_item_keeps db (configuration_update e) Hwf) as [Hwf1 E1].
    eapply insert_row_keeps in Hins as [[Hwf2 E2] _]; [split; [done|]; by etrans| |done].
    rewrite put_item_rows. case_bool_decide as E; [by rewrite E|]. exfalso. apply E.
    destruct (map_choose _ E) as (q & y & Hq). pose proof Hq as Hq'. apply (wf_rows _ Hwf) in Hq' as [_ [v Hv]].
    apply last_None in Hlast. apply by_key_elem in Hq.
    assert ((q, v) ∈ omap (fun x => pair x.1 <$> h_items db !! row_hash x.2) (by_key (rows_of db r))) as Hin.
    { apply list_elem_of_omap. exists (q, y). split; [done|]. simpl. by rewrite Hv. }
    rewrite Hlast in Hin. set_solver.
Qed.

Lemma save_pending_effort_keeps db agent e : keeps db (save_pending_effort db agent e).
Proof. by apply inert_keeps. Qed.

Lemma apply_pending_effort_keeps db agent r h db' : apply_pending_effort item_hash db agent r = Ok (h, db') -> keeps db db'.
Proof.
  unfold apply_pending_effort. destruct (h_session db !! _); [|by intros [= <- <-]]. intros H. inv_ok.
  destruct x0 as [h0 db0]. inv_ok. simplify_eq. apply set_effort_keeps in Hr0. etrans; [exact Hr0|]. by apply inert_keeps.
Qed.

(** ** Mail *)

Lemma add_envelope_keeps db sender recipient class item delivered id db' :
  add_envelope item_hash db sender recipient class item delivered = Ok (id, db') -> keeps db db'.
Proof.
  unfold add_envelope. destruct (put_item item_hash db item) as [h db1] eqn:E. unfold foreign_key. destruct (match delivered with Some r => negb (bool_decide (is_Some (h_requests db1 !! r))) | None => false end); [done|].
  intros [= <- <-]. transitivity db1; [|by apply inert_keeps]. replace db1 with (put_item item_hash db item).2 by (by rewrite E).
  apply put_item_keeps.
Qed.

Lemma attach_envelope_keeps r acc p db x acc' p' db' :
  attach_envelope r (acc, p, db) x = Ok (acc', p', db') -> history_wf db -> p = next_position (rows_of db r) ->
  (history_wf db' /\ extends db db') /\ p' = next_position (rows_of db' r).
Proof.
  unfold attach_envelope. intros H Hwf Hp. apply rbind_Ok in H as (item & Hi & H).
  destruct (is_configuration_update item); [by simplify_eq|]. inv_ok. simplify_eq.
  destruct (insert_row_keeps _ _ _ _ _ Hr0 eq_refl Hwf) as [[Hwf1 E1] Hn1]. unfold publish_envelope in Hr1. inv_ok. subst.
  destruct (publish_item_keeps x1 r (next_position (rows_of db r)) (mail_hash x.2) item (Some x.1) Hwf1) as [Hwf2 E2].
  rewrite publish_item_rows, Hn1. split; [|done]. split; [done|]. by etrans.
Qed.

Lemma append_unread_keeps db recipient r items db' : append_unread_envelopes db recipient r = Ok (items, db') -> keeps db db'.
Proof.
  unfold append_unread_envelopes. intros H Hwf. inv_ok. destruct x0 as [[is' p'] db1]. inv_ok. simplify_eq.
  destruct (append_loop_keeps _ r _ (attach_envelope_keeps r) _ _ _ _ _ _ Hr0 Hwf eq_refl) as [[Hwf1 E1] _].
  assert (keeps db1 (foldl (deliver r) db1 (unread db recipient).*1)) as Hk.
  { generalize (unread db recipient).*1 as l, db1 as d. intros l. induction l as [|id l IH]; intros d; [done|]. simpl.
    etrans; [|apply IH]. by apply inert_keeps. }
  destruct (Hk Hwf1) as [Hwf2 E2]. split; [done|]. by etrans.
Qed.

(** ** Provider responses *)

Lemma provider_change_keeps db r row row' :
  history_wf db -> h_provider db !! r = Some row ->
  issued row' = issued row -> p_route row' = p_route row -> p_protocol row' = p_protocol row ->
  (p_state row <> RStreaming -> row' = row) ->
  (p_state row' = RCompleted <-> is_Some (completion_event row')) ->
  (forall e, completion_event row' = Some e -> exists req rec, h_events db !! e = Some {| event_request := req; event_body := ModelTurn rec |}) ->
  history_wf (db <| h_provider ::= insert r row' |>) /\ extends db (db <| h_provider ::= insert r row' |>).
Proof.
  intros [D W I O J P PR EV] Hr H1 H2 H3 H4 H5 H6. destruct (PR _ _ Hr) as (Hreq & _).
  split; [split|split]; unfold rows_of, outputs_of in *; simpl; try done; eauto 10.
  - intros r' i p h H. destruct (O _ _ _ _ H) as (? & ? & ?). split; [done|]. split; [|done]. by apply lookup_insert_is_Some'; right.
  - intros r' x. rewrite lookup_insert_Some. intros [[<- <-]|[_ H]]; [done|by apply PR].
  - intros r' x H. destruct (decide (r = r')) as [<-|Hne].
    + exists row'. rewrite lookup_insert_eq. simplify_eq. done.
    + exists x. by rewrite lookup_insert_ne.
Qed.

Lemma alter_insert_provider db r f row :
  h_provider db !! r = Some row -> db <| h_provider ::= alter f r |> = db <| h_provider ::= insert r (f row) |>.
Proof.
  intros H. unfold assign. simpl. f_equal. apply map_eq. intros k.
  destruct (decide (r = k)) as [<-|]; by simplify_map_eq.
Qed.

Lemma issue_keeps db store r record contract i db' :
  issue_provider_request db store r record contract = Ok (i, db') -> keeps db db'.
Proof.
  unfold issue_provider_request, foreign_key. destruct (h_provider db !! r) as [prior|] eqn:E.
  - intros H. by inv_ok; simplify_eq.
  - case_bool_decide as Hreq; [|done]. intros [= <- <-] [D W I O J P PR EV].
    split; [split|split]; unfold rows_of, outputs_of in *; simpl; try done; eauto 10.
    + intros r' j p h H. destruct (O _ _ _ _ H) as (? & ? & ?). split; [done|]. split; [|done]. by apply lookup_insert_is_Some'; right.
    + intros r' x. rewrite lookup_insert_Some. intros [[<- <-]|[_ H]]; [|by apply PR]. simpl.
      split; [done|]. split; [split; [done|by intros []]|done].
    + intros r' x H. exists x. split; [|done]. rewrite lookup_insert_ne; [done|congruence].
Qed.

Lemma stop_keeps db r state x db' : stop_provider_response db r state = Ok (x, db') -> keeps db db'.
Proof.
  intros H Hwf. assert (state <> RStreaming /\ state <> RCompleted /\
    db' = db <| h_provider ::= alter (fun row => if bool_decide (p_state row = RStreaming) then row <| p_state := state |> else row) r |>)
    as (Hs & Hc & ->) by (by destruct state; simplify_eq/=).
  destruct (h_provider db !! r) as [row|] eqn:E.
  - rewrite (alter_insert_provider _ _ _ _ E). destruct (wf_provider _ Hwf _ _ E) as (_ & Hst & Hev).
    apply (provider_change_keeps db r row); try done; case_bool_decide; try done; simpl.
    split; [done|]. intros Hsome. apply Hst in Hsome. congruence.
  - replace (db <| h_provider ::= _ |>) with db; [done|]. unfold assign. destruct db; simpl in *. f_equal.
    apply map_eq. intros k. destruct (decide (r = k)) as [<-|]; by simplify_map_eq.
Qed.

Lemma insert_output_keeps db r index p h row :
  history_wf db -> outputs_of db r !! index = None -> 0 <= index <= i64_max -> is_Some (h_provider db !! r) ->
  rows_of db r !! p = Some row -> row_hash row = h -> (forall j h', outputs_of db r !! j <> Some (p, h')) ->
  history_wf (insert_output db r index p h) /\ extends db (insert_output db r index p h).
Proof.
  intros [D W I O J P PR EV] Hn Hi Hp Hrow Hh Hfresh. unfold insert_output.
  split; [split|split]; try done; eauto 10.
  - intros r' j q h'. rewrite outputs_set. case_decide; subst; [|by apply O].
    rewrite lookup_insert_Some. intros [[<- [= <- <-]]|[_ H]]; [eauto|by apply O].
  - intros r' j k q h1 h2. rewrite outputs_set. case_decide; subst; [|by apply J].
    rewrite !lookup_insert_Some. intros [[<- [= <- <-]]|[Hj H1]] [[<- H2]|[Hk H2]]; simplify_eq; try done.
    + by apply Hfresh in H2.
    + by apply Hfresh in H1.
    + by eapply J.
  - intros r'. rewrite outputs_set. case_decide; subst; [|done]. by apply insert_subseteq.
Qed.

Lemma put_item_provider db item : h_provider (put_item item_hash db item).2 = h_provider db.
Proof. unfold put_item. simpl. by destruct (h_items db !! item_hash item). Qed.

Lemma put_item_events db item : h_events (put_item item_hash db item).2 = h_events db.
Proof. unfold put_item. simpl. by destruct (h_items db !! item_hash item). Qed.

Lemma publish_item_provider db r p h item env : h_provider (publish_item db r p h item env) = h_provider db.
Proof. unfold publish_item. by destruct (is_configuration_update item). Qed.

(** What one accepted provider item does. *)
Lemma append_item_spec db r index item b db' :
  append_item item_hash db r index item = Ok (b, db') -> 0 <= index -> history_wf db ->
  (history_wf db' /\ extends db db') /\ h_provider db' = h_provider db /\
  (exists p, outputs_of db' r !! index = Some (p, item_hash item)) /\
  (forall j, j <> index -> outputs_of db' r !! j = outputs_of db r !! j) /\
  match outputs_of db r !! index with
  | Some _ => b = false /\ (forall r', rows_of db' r' = rows_of db r')
  | None => b = true /\ provider_response_state db r = Some RStreaming /\
            outputs_of db' r !! index = Some (next_position (rows_of db r), item_hash item)
  end.
Proof.
  unfold append_item. intros H Hidx Hwf. apply rbind_Ok in H as (prow & Hprow & H). apply ok_or_Ok in Hprow.
  set (inference := bool_decide _) in H. destruct (Z.ltb_spec i64_max index) as [|Hmax]; [done|].
  destruct (inference && is_configuration_update item) eqn:Eset; [done|].
  destruct (put_item item_hash db item) as [h db1] eqn:Eput.
  assert (h = item_hash item) as -> by (unfold put_item in Eput; by simplify_eq).
  destruct (put_item_keeps db item Hwf) as [Hwf1 E1]. pose proof (put_item_rows db item) as Hrows.
  pose proof (put_item_outputs db item r) as Houts. pose proof (put_item_provider db item) as Hprov.
  rewrite Eput in *. simpl in *. rewrite Houts in H. destruct (outputs_of db r !! index) as [[p prior]|] eqn:Eidx.
  - case_bool_decide; [|done]. simpl in H. subst prior. inv_ok. simplify_eq. split_and!; try done; eauto.
    + by rewrite Houts, Eidx; eauto.
    + intros. by rewrite Houts.
  - case_bool_decide as Hst; [|done]. simpl in H. apply rbind_Ok in H as (u & _ & H). rewrite Hrows in H.
    apply rbind_Ok in H as (db2 & Hins & H). injection H as <- <-.
    pose proof (insert_row_inv _ _ _ _ _ Hins) as (Hnone & _ & _ & Edb2).
    destruct (insert_row_keeps db1 r _ _ _ Hins) as [[Hwf2 E2] Hnp]; [by rewrite Hrows|done|].
    set (p := next_position (rows_of db r)) in *. set (db3 := insert_output db2 r index p (item_hash item)).
    assert (outputs_of db2 r = outputs_of db r) as Ho2 by (rewrite Edb2; exact Houts).
    assert (h_provider db2 = h_provider db) as Hp2 by (rewrite Edb2; exact Hprov).
    destruct (insert_output_keeps db2 r index p (item_hash item) (plain_row (item_hash item))) as [Hwf3 E3]; try done.
    { by rewrite Ho2. }
    { rewrite Hp2. eauto. }
    { rewrite Edb2, rows_set, decide_True by done. by rewrite lookup_insert_eq. }
    { intros j h' Hj. rewrite Ho2 in Hj. apply (wf_outputs _ Hwf) in Hj as (_ & _ & y & Hy & _). rewrite <- Hrows in Hy. congruence. }
    fold db3 in Hwf3, E3. set (db4 := if inference then publish_item db3 r p (item_hash item) item None else db3).
    assert (keeps db3 db4) as Hk by (unfold db4; destruct inference; [apply publish_item_keeps|done]).
    destruct (Hk Hwf3) as [Hwf4 E4].
    assert (outputs_of db4 r = <[index := (p, item_hash item)]> (outputs_of db r)) as Ho4.
    { transitivity (outputs_of db3 r); [unfold db4; destruct inference; [apply publish_item_outputs|done]|].
      unfold db3, insert_output. rewrite outputs_set, decide_True by done. by rewrite Ho2. }
    split_and!; try done.
    + etrans; [exact E1|]. etrans; [exact E2|]. by etrans.
    + transitivity (h_provider db3); [unfold db4; destruct inference; [apply publish_item_provider|done]|exact Hp2].
    + exists p. by rewrite Ho4, lookup_insert_eq.
    + intros j Hj. by rewrite Ho4, lookup_insert_ne.
    + unfold provider_response_state. by rewrite Hprow, <- Hst.
    + by rewrite Ho4, lookup_insert_eq.
Qed.

Lemma append_provider_done_keeps db store i index item b db' :
  append_provider_done item_hash db store i index item = Ok (b, db') -> 0 <= index -> keeps db db'.
Proof. unfold append_provider_done. intros H Hidx Hwf. inv_ok. by apply append_item_spec in H as [? _]. Qed.

(** ** Completed responses *)

Lemma own_loop r items : forall k hs db k' hs' db',
  fold_result (own_item item_hash r) (k, hs, db) items = Ok (k', hs', db') -> 0 <= k -> history_wf db ->
  (history_wf db' /\ extends db db') /\ h_provider db' = h_provider db /\ hs' = hs ++ (item_hash <$> items) /\
  (forall n item, items !! n = Some item -> exists p, outputs_of db' r !! (k + Z.of_nat n) = Some (p, item_hash item)) /\
  (provider_response_state db r <> Some RStreaming -> outputs_of db' r = outputs_of db r).
Proof.
  induction items as [|item items IH]; intros k hs db k' hs' db' H Hk Hwf; cbn [fold_result] in H.
  - injection H as <- <- <-. rewrite app_nil_r. split_and!; try done.
  - apply rbind_Ok in H as ([[k1 hs1] db1] & Hone & H). unfold own_item in Hone.
    apply rbind_Ok in Hone as ([b dba] & Happ & Hone).
    destruct (put_item item_hash dba item) as [h dbb] eqn:Eput. injection Hone as <- <- <-.
    assert (h = item_hash item) as -> by (unfold put_item in Eput; by simplify_eq).
    destruct (append_item_spec _ _ _ _ _ _ Happ Hk Hwf) as ([Hwfa Ea] & Hpa & (p & Hout) & Hother & Hcase).
    destruct (put_item_keeps dba item Hwfa) as [Hwfb Eb]. pose proof (put_item_outputs dba item r) as Ho.
    pose proof (put_item_provider dba item) as Hp. rewrite Eput in *. simpl in *.
    destruct (IH _ _ _ _ _ _ H ltac:(lia) Hwfb) as ([Hwf' E'] & Hp' & Hhs & Hidx & Hseal).
    split_and!.
    + done.
    + etrans; [exact Ea|]. by etrans.
    + by rewrite Hp', Hp.
    + rewrite Hhs. simpl. by rewrite <- app_assoc.
    + intros [|n] x Hx; simpl in Hx.
      * injection Hx as ->. exists p. rewrite Z.add_0_r. eapply lookup_weaken; [|apply (ext_outputs _ _ E')]. by rewrite Ho.
      * destruct (Hidx _ _ Hx) as [q Hq]. exists q. by replace (k + Z.of_nat (S n)) with (k + 1 + Z.of_nat n) by lia.
    + intros Hst. rewrite Hseal by (unfold provider_response_state in *; by rewrite Hp, Hpa). rewrite Ho.
      destruct (outputs_of db r !! k) as [[q h]|] eqn:Eidx; [|by destruct Hcase as (_ & ? & _)].
      apply map_eq. intros j. destruct (decide (j = k)) as [->|]; [|by apply Hother].
      rewrite Eidx. by eapply lookup_weaken, (ext_outputs _ _ Ea).
Qed.

Lemma record_provider_turn_spec db store i resp_id items usage event db' :
  record_provider_turn item_hash db store i resp_id items usage = Ok (event, db') -> history_wf db ->
  (history_wf db' /\ extends db db') /\ provider_response_state db' (ip_request i) = Some RCompleted /\
  Z.of_nat (size (outputs_of db' (ip_request i))) = Z.of_nat (length items) /\
  (forall n item, items !! n = Some item -> exists p, outputs_of db' (ip_request i) !! Z.of_nat n = Some (p, item_hash item)).
Proof.
  unfold record_provider_turn. intros H Hwf. apply rbind_Ok in H as ([] & _ & H).
  apply rbind_Ok in H as (row & Hrow & H). apply ok_or_Ok in Hrow.
  destruct (match p_state row with RStreaming | RCompleted => true | _ => false end) eqn:Est; [|done].
  apply rbind_Ok in H as ([[k hs] db1] & Hloop & H).
  destruct (own_loop _ _ _ _ _ _ _ _ Hloop ltac:(lia) Hwf) as ([Hwf1 E1] & Hp1 & _ & Hidx & _).
  destruct (Z.eqb_spec (Z.of_nat (size (outputs_of db1 (ip_request i)))) (Z.of_nat (length items))) as [Hsize|]; [|done].
  cbn [negb] in H. assert (h_provider db1 !! ip_request i = Some row) as Hrow1 by (by rewrite Hp1).
  destruct (wf_provider _ Hwf1 _ _ Hrow1) as (_ & Hcomp & _).
  destruct (completion_event row) as [ev|] eqn:Eev.
  - apply rbind_Ok in H as (e & _ & H). destruct (negb _); [done|]. injection H as <- <-.
    assert (p_state row = RCompleted) as Hc by (apply Hcomp; eauto).
    split_and!; try done. unfold provider_response_state. rewrite Hrow1. simpl. by rewrite Hc.
  - set (rec := {| rr_request := _ |}) in H. destruct (record_event db1 _) as [ev db2] eqn:Erec. injection H as <- <-.
    destruct (record_event_keeps db1 {| event_request := Some (ip_request i); event_body := ModelTurn rec |} Hwf1) as [Hwf2 E2].
    assert (ev = h_next_event db1 /\ db2 = (record_event db1 {| event_request := Some (ip_request i); event_body := ModelTurn rec |}).2)
      as [-> ->] by (rewrite Erec; unfold record_event in Erec; by simplify_eq).
    set (db2 := (record_event _ _).2) in *. assert (h_provider db2 !! ip_request i = Some row) as Hrow2 by done.
    rewrite (alter_insert_provider _ _ _ _ Hrow2).
    destruct (provider_change_keeps db2 (ip_request i) row
      (row <| p_state := RCompleted |> <| response_id := Some resp_id |> <| completion_event := Some (h_next_event db1) |>))
      as [Hwf3 E3]; try done.
    { intros Hs. exfalso. destruct (p_state row); try done. by destruct (proj1 Hcomp eq_refl). }
    { simpl. intros e [= <-]. exists (Some (ip_request i)), rec. by rewrite lookup_insert_eq. }
    split_and!; try done.
    + etrans; [exact E1|]. etrans; [exact E2|]. exact E3.
    + unfold provider_response_state. simpl. by rewrite lookup_insert_eq.
Qed.

Lemma append_tx_keeps replay_claim db operation claimant r item h b db' :
  append_tx item_hash replay_claim db operation claimant r = Ok (item, h, b, db') -> keeps db db'.
Proof.
  unfold append_tx. intros H Hwf. apply rbind_Ok in H as (retained & _ & H). apply rbind_Ok in H as (it & _ & H).
  destruct (put_item item_hash db it) as [h' db1] eqn:Eput. destruct (put_item_keeps db it Hwf) as [Hwf1 E1].
  rewrite Eput in Hwf1, E1. simpl in *. destruct (_ <$> take 2 _) as [|previous [|]]; [| |done].
  - destruct (bool_decide _); [|done]. apply rbind_Ok in H as (db2 & Hins & H). injection H as <- <- <- <-.
    destruct (insert_row_keeps _ _ _ _ _ Hins eq_refl Hwf1) as [[Hwf2 E2] _].
    destruct (publish_item_keeps db2 r (next_position (rows_of db1 r)) h' it None Hwf2) as [Hwf3 E3].
    split; [done|]. etrans; [exact E1|]. by etrans.
  - destruct (bool_decide _); [|done]. by injection H as <- <- <- <-.
Qed.
End wf.
