(* ===== verification/HistoryClaims.v ===== *)
(** What conversation rows promise: their invariant and growth over every
    sequence of writers, the evidence of a completed response, lineages that
    end, mail attached once and outputs published once. *)

From S2P Require Import Prelude Json Redaction Usage Observation Sse Failure StoreDb Admission Jobs Lists Item ContextPatch ContextText HistoryDb HistoryOps HistoryProofs.

Section claims.
Variable item_hash : value -> string.
Variable replay_claim : OperationId -> string -> result StoreError (option value).

(** One committed transaction. *)
Inductive history_step (db db' : Hdb) : Prop :=
| step_create id parent branch : create_request db id parent branch = Ok db' -> history_step db db'
| step_write r parent branch items u : write_request item_hash db r parent branch items = Ok (u, db') -> history_step db db'
| step_append r items hs : append_items item_hash db r items = Ok (hs, db') -> history_step db db'
| step_effort r e h : set_effort_tx item_hash db r e = Ok (h, db') -> history_step db db'
| step_save_effort agent e : db' = save_pending_effort db agent e -> history_step db db'
| step_apply_effort agent r h : apply_pending_effort item_hash db agent r = Ok (h, db') -> history_step db db'
| step_mail sender recipient class item delivered id :
    add_envelope item_hash db sender recipient class item delivered = Ok (id, db') -> history_step db db'
| step_unread recipient r items : append_unread_envelopes db recipient r = Ok (items, db') -> history_step db db'
| step_issue store r record contract i : issue_provider_request db store r record contract = Ok (i, db') -> history_step db db'
| step_done store i index item b : 0 <= index -> append_provider_done item_hash db store i index item = Ok (b, db') -> history_step db db'
| step_stop r state u : stop_provider_response db r state = Ok (u, db') -> history_step db db'
| step_turn store i resp_id items usage event :
    record_provider_turn item_hash db store i resp_id items usage = Ok (event, db') -> history_step db db'
| step_output operation claimant r item h b :
    append_tx item_hash replay_claim db operation claimant r = Ok (item, h, b, db') -> history_step db db'.

Lemma step_keeps db db' : history_step db db' -> keeps item_hash db db'.
Proof.
  intros [id parent branch H|r parent branch items u H|r items hs H|r e h H|agent e ->|agent r h H|sender recipient class item delivered id H
         |recipient r items H|store r record contract i H|store i index item b H0 H|r state u H|store i resp_id items usage event H
         |operation claimant r item h b H].
  - by eapply insert_request_keeps.
  - by eapply write_request_keeps.
  - by eapply append_items_keeps.
  - by eapply set_effort_keeps.
  - apply save_pending_effort_keeps.
  - by eapply apply_pending_effort_keeps.
  - by eapply add_envelope_keeps.
  - by eapply append_unread_keeps.
  - by eapply issue_keeps.
  - by eapply append_provider_done_keeps.
  - by eapply stop_keeps.
  - intros Hwf. by eapply record_provider_turn_spec in H as [? _].
  - by eapply append_tx_keeps.
Qed.

Lemma steps_keep db db' : rtc history_step db db' -> keeps item_hash db db'.
Proof. induction 1 as [db|a b c H1 H2 IH]; [done|]. etrans; [by apply step_keeps|done]. Qed.


(** Retained evidence only grows: any run of transactions keeps every
    request, item, event, provider output index and every row but a setting, and a response
    that stopped streaming never changes again. *)
Theorem history_append_only db db' : history_wf item_hash db -> rtc history_step db db' -> extends db db'.
Proof. intros Hwf H. by apply (steps_keep _ _ H). Qed.

(** ** Lineages *)

(** A walk that has visited [seen] requests, all above [r], ends within the
    requests left. *)
Lemma lineage_ends rank db b fuel : forall r (seen : gset string),
  (forall r node p, h_requests db !! r = Some node -> node_parent node = Some p ->
     is_Some (h_requests db !! p) /\ (rank p < rank r)%nat) ->
  seen ⊆ dom (h_requests db) -> (forall s, s ∈ seen -> (rank r < rank s)%nat) ->
  (size (dom (h_requests db)) <= size seen + fuel)%nat ->
  exists l, lineage (S fuel) db b r = Some l /\ (forall s, s ∈ l -> (rank s <= rank r)%nat) /\ NoDup l.
Proof.
  induction fuel as [|fuel IH]; intros r seen Hrank Hsub Habove Hsize; cbn [lineage].
  - destruct (h_requests db !! r) as [node|] eqn:E; [|exists []; split_and!; [done|set_solver|constructor]].
    exfalso. assert (r ∉ seen) as Hr by (intros H; specialize (Habove _ H); lia).
    assert ({[r]} ∪ seen ⊆ dom (h_requests db)) as Hs by (apply elem_of_dom_2 in E; set_solver).
    apply subseteq_size in Hs. rewrite size_union, size_singleton in Hs by set_solver. lia.
  - destruct (h_requests db !! r) as [node|] eqn:E; [|exists []; split_and!; [done|set_solver|constructor]].
    assert (exists l, Some [r] = Some l /\ (forall s, s ∈ l -> (rank s <= rank r)%nat) /\ NoDup l) as Hone.
    { exists [r]. split_and!; [done| |apply NoDup_singleton]. intros s ->%list_elem_of_singleton. done. }
    destruct (b && _); [done|]. destruct (node_parent node) as [p|] eqn:Ep; [|done].
    destruct (Hrank _ _ _ E Ep) as [Hp Hlt].
    assert (r ∉ seen) as Hr by (intros H; specialize (Habove _ H); lia).
    destruct (IH p ({[r]} ∪ seen)) as (l & Hl & Hle & Hnd).
    + done.
    + apply elem_of_dom_2 in E. set_solver.
    + intros s [->%elem_of_singleton|Hs]%elem_of_union; [done|]. specialize (Habove _ Hs). lia.
    + rewrite size_union, size_singleton by set_solver. lia.
    + exists (r :: l). cbn [lineage] in Hl. rewrite Hl. split_and!; [done| |].
      * intros s [->|Hs]%elem_of_cons; [done|]. specialize (Hle _ Hs). lia.
      * constructor; [|done]. intros Hin. specialize (Hle _ Hin). lia.
Qed.

(** Reading history always ends: in well-formed rows the lineage of every
    request reaches a root or a compaction boundary within the number of
    requests, and visits no request twice. *)
Theorem lineage_total db boundaries r :
  history_wf item_hash db -> exists l, full_lineage db boundaries r = Some l /\ NoDup l.
Proof.
  intros Hwf. destruct (wf_parents _ _ Hwf) as [rank Hrank].
  destruct (lineage_ends rank db boundaries (size (h_requests db)) r ∅) as (l & Hl & _ & Hnd); [done|set_solver..| |by exists l].
  rewrite size_dom. lia.
Qed.

(** ** The evidence of a completed response *)

Lemma seqZ_sorted n : forall m, StronglySorted Z.lt (seqZ m (Z.of_nat n)).
Proof.
  induction n as [|n IH]; intros m; [constructor|]. rewrite seqZ_cons by lia. constructor.
  - replace (Z.pred (Z.of_nat (S n))) with (Z.of_nat n) by lia. apply IH.
  - apply Forall_forall. intros k Hk%elem_of_seqZ. lia.
Qed.

Lemma by_key_consecutive {A} (m : gmap Z A) n :
  size m = n -> (forall k, (k < n)%nat -> is_Some (m !! Z.of_nat k)) -> (by_key m).*1 = seqZ 0 (Z.of_nat n).
Proof.
  intros Hsize Hall. apply (StronglySorted_ext Z.lt); [lia..| | |].
  - pose proof (by_key_sorted m) as Hs. induction Hs as [|e l Hs IH He]; [constructor|]. simpl. constructor; [done|].
    by apply Forall_fmap.
  - apply seqZ_sorted.
  - assert (seqZ 0 (Z.of_nat n) ≡ₚ (by_key m).*1) as Hp; [|intros x; by rewrite Hp].
    apply submseteq_length_Permutation.
    + apply NoDup_submseteq; [apply NoDup_seqZ|]. intros k Hk%elem_of_seqZ.
      destruct (Hall (Z.to_nat k) ltac:(lia)) as [x Hx]. rewrite Z2Nat.id in Hx by lia.
      apply list_elem_of_fmap. exists (k, x). split; [done|]. by apply by_key_elem.
    + rewrite length_fmap, by_key_length, length_seqZ. lia.
Qed.

Definition origin_of (r : string) (e : Z * (Z * string)) : Origin := {| o_request := r; o_position := e.2.1; o_hash := e.2.2 |}.

Lemma owned_rows_wf db r :
  history_wf item_hash db -> owned_rows db r = (fun e => (e.1, e.2.1, e.2.2, e.2.2)) <$> by_key (outputs_of db r).
Proof.
  intros Hwf. unfold owned_rows. rewrite <- omap_total. apply omap_ext_in. intros [i [p h]] Hin. simpl.
  apply by_key_elem in Hin. apply (wf_outputs _ _ Hwf) in Hin as (_ & _ & row & -> & <-). done.
Qed.

Lemma collect_origins r l : forall acc,
  l.*1 = seqZ (Z.of_nat (length acc)) (Z.of_nat (length l)) ->
  fold_result (collect_origin r) acc ((fun e => (e.1, e.2.1, e.2.2, e.2.2)) <$> l) = Ok (acc ++ (origin_of r <$> l)).
Proof.
  induction l as [|[i [p h]] l IH]; intros acc H; [by rewrite app_nil_r|].
  rewrite (seqZ_cons _ (Z.of_nat (length _))) in H by (simpl; lia). simpl in H. injection H as -> H. simpl.
  rewrite bool_decide_eq_true_2, Z.eqb_refl by done. simpl. rewrite IH; [by rewrite <- app_assoc|].
  rewrite length_app. simpl. etrans; [exact H|]. f_equal; lia.
Qed.

Section evidence.
Variable validate_native : NativeTransportContract -> result TransportError unit.
Variable source_response_envelope : Hdb -> string -> result StoreError (option ResponseEnvelope).

(** The issuance of a model response that can be read back. *)
Definition readable (row : ProviderRow) : Prop :=
  is_blank (issued_model (issued row)) = false /\ purpose (issued row) <> Some ServerCompaction /\
  match native_transport (issued row) with
  | Some n => validate_native n = Ok tt /\ nt_route n = p_route row /\ nt_protocol n = p_protocol row
  | None => True
  end.

Lemma issued_envelope_origins db r row :
  history_wf item_hash db -> h_provider db !! r = Some row -> readable row ->
  (by_key (outputs_of db r)).*1 = seqZ 0 (Z.of_nat (size (outputs_of db r))) ->
  issued_envelope validate_native source_response_envelope db r =
  Ok (Some {| re_model := issued_model (issued row); re_origins := origin_of r <$> by_key (outputs_of db r);
              re_kind := KindModelTurn;
              re_completeness := if bool_decide (p_state row = RCompleted) then CompleteResponse else ObservedPrefix;
              re_route := Some (p_route row); re_protocol := Some (p_protocol row); re_native := native_transport (issued row) |}).
Proof.
  intros Hwf Hrow (Hblank & Hpurpose & Hnative) Hkeys. unfold issued_envelope. rewrite Hrow, Hblank, (owned_rows_wf _ _ Hwf).
  rewrite (bool_decide_eq_false_2 (purpose _ = _)) by done.
  rewrite collect_origins by (by rewrite by_key_length).
  destruct (native_transport (issued row)) as [n|]; [|done]. destruct Hnative as (-> & -> & ->). simpl.
  by rewrite (bool_decide_eq_true_2 (p_route row = _)), (bool_decide_eq_true_2 (p_protocol row = _)).
Qed.

(** C22. When a model response is recorded, its evidence is complete and is
    the response: the envelope read back lists the response's items in the
    provider's order, whatever order they had arrived in, each at a retained
    occurrence of that item; and from then on the provider can only repeat
    an item, never add one. *)
Theorem provider_turn_evidence db store i resp_id items usage event db' row :
  history_wf item_hash db -> record_provider_turn item_hash db store i resp_id items usage = Ok (event, db') ->
  h_provider db' !! ip_request i = Some row -> readable row ->
  exists env, issued_envelope validate_native source_response_envelope db' (ip_request i) = Ok (Some env) /\
    re_completeness env = CompleteResponse /\ o_hash <$> re_origins env = item_hash <$> items /\
    (forall o, o ∈ re_origins env -> exists irow, rows_of db' (o_request o) !! o_position o = Some irow /\ row_hash irow = o_hash o) /\
    (forall index item b db2, 0 <= index -> append_provider_done item_hash db' store i index item = Ok (b, db2) -> b = false).
Proof.
  intros Hwf Hrec Hrow Hread. set (r := ip_request i) in *.
  destruct (record_provider_turn_spec _ _ _ _ _ _ _ _ _ Hrec Hwf) as ([Hwf' _] & Hstate & Hsize & Hidx).
  assert (size (outputs_of db' r) = length items) as Hsz by (unfold r; lia).
  assert (forall k, (k < length items)%nat -> is_Some (outputs_of db' r !! Z.of_nat k)) as Hall.
  { intros k [x Hx]%lookup_lt_is_Some. destruct (Hidx _ _ Hx) as [p Hp]. eauto. }
  pose proof (by_key_consecutive _ _ Hsz Hall) as Hkeys. rewrite <- Hsz in Hkeys.
  eexists. split; [by apply issued_envelope_origins|]. unfold provider_response_state in Hstate. fold r in Hstate.
  rewrite Hrow in Hstate. simpl in *. injection Hstate as Hst. split_and!.
  - by rewrite bool_decide_eq_true_2.
  - apply list_eq. intros k. rewrite !list_lookup_fmap. destruct (by_key (outputs_of db' r) !! k) as [[j [p h]]|] eqn:Ek.
    + assert (j = Z.of_nat k) as ->.
      { assert ((by_key (outputs_of db' r)).*1 !! k = Some j) as Hj by (by rewrite list_lookup_fmap, Ek).
        rewrite Hkeys in Hj. apply lookup_seqZ in Hj. lia. }
      apply list_elem_of_lookup_2 in Ek as Hin. apply by_key_elem in Hin. apply lookup_lt_Some in Ek as Hlt.
      rewrite by_key_length, Hsz in Hlt. destruct (lookup_lt_is_Some_2 items k Hlt) as [x Hx].
      destruct (Hidx _ _ Hx) as [q Hq]. fold r in Hq. rewrite Hx. simpl. congruence.
    + apply lookup_ge_None in Ek. rewrite by_key_length, Hsz in Ek. by rewrite (proj2 (lookup_ge_None items k)).
  - intros o (e & -> & He)%list_elem_of_fmap. destruct e as [j [p h]]. apply by_key_elem in He. simpl.
    by apply (wf_outputs _ _ Hwf') in He as (_ & _ & H).
  - intros index item b db2 Hi Happ. unfold append_provider_done in Happ. apply rbind_Ok in Happ as ([] & _ & Happ).
    destruct (append_item_spec _ _ _ _ _ _ _ Happ Hi Hwf') as (_ & _ & _ & _ & Hcase).
    destruct (outputs_of db' _ !! index); [by destruct Hcase|]. destruct Hcase as (_ & Hs & _).
    unfold provider_response_state in Hs. fold r in Hs. rewrite Hrow in Hs. simpl in Hs. congruence.
Qed.
End evidence.

(** ** Mail *)

Definition mail_view (db : Hdb) := (h_mail db, h_items db, h_requests db).

Lemma attach_envelope_view r acc p db e acc' p' db' :
  attach_envelope r (acc, p, db) e = Ok (acc', p', db') ->
  mail_view db' = mail_view db /\
  exists item, h_items db !! mail_hash e.2 = Some item /\ acc' = acc ++ authored [item].
Proof.
  unfold attach_envelope. intros H. apply rbind_Ok in H as (item & Hi & H). apply ok_or_Ok in Hi. unfold authored. simpl.
  destruct (is_configuration_update item) eqn:E.
  - injection H as <- <- <-. split; [done|]. exists item. rewrite E. by rewrite app_nil_r.
  - inv_ok. simplify_eq. apply insert_row_inv in Hr0 as (_ & _ & _ & ->). unfold publish_envelope in Hr1. inv_ok. subst.
    unfold publish_item. rewrite E. split; [done|]. exists item. by rewrite E.
Qed.

Lemma attach_loop_view r l : forall acc p db acc' p' db',
  fold_result (attach_envelope r) (acc, p, db) l = Ok (acc', p', db') ->
  mail_view db' = mail_view db /\ acc' = acc ++ authored (omap (fun e => h_items db !! mail_hash e.2) l).
Proof.
  induction l as [|e l IH]; intros acc p db acc' p' db' H; cbn [fold_result] in H.
  - injection H as <- <- <-. by rewrite app_nil_r.
  - apply rbind_Ok in H as ([[acc1 p1] db1] & H1 & H). destruct (attach_envelope_view _ _ _ _ _ _ _ _ H1) as (V1 & item & Hi & ->).
    destruct (IH _ _ _ _ _ _ H) as [V2 ->]. split; [congruence|]. rewrite omap_cons, Hi, <- app_assoc. f_equal.
    unfold mail_view in V1. injection V1 as _ -> _. unfold authored. simpl. by destruct (is_configuration_update item).
Qed.

Lemma deliver_all r ids : forall db id m,
  h_mail (foldl (deliver r) db ids) !! id = Some m -> mail_delivered m = None -> id ∉ ids /\ h_mail db !! id = Some m.
Proof.
  induction ids as [|i ids IH]; intros db id m H Hm; simpl in H; [split; [set_solver|done]|].
  destruct (IH _ _ _ H Hm) as [Hni H1]. unfold deliver in H1. simpl in H1. rewrite lookup_alter_Some in H1.
  destruct H1 as [(<- & m' & H1 & ->)|[Hne H1]]; [|set_solver].
  destruct (mail_delivered m') eqn:E; [congruence|]. done.
Qed.

Lemma deliver_rest r ids : forall db,
  h_items (foldl (deliver r) db ids) = h_items db /\ h_requests (foldl (deliver r) db ids) = h_requests db.
Proof. induction ids as [|i ids IH]; intros db; [done|]. simpl. destruct (IH (deliver r db i)) as [-> ->]. done. Qed.

(** Mail is attached once and in order: attaching the unread mail of an
    agent to its request returns the texts of that mail in the order it was
    sent, settings left out; afterwards none of it is unread, and a retry
    attaches nothing and changes nothing. *)
Theorem mail_attached_once db recipient r items db' :
  append_unread_envelopes db recipient r = Ok (items, db') ->
  items = authored (omap (fun e => h_items db !! mail_hash e.2) (unread db recipient)) /\
  unread db' recipient = [] /\ append_unread_envelopes db' recipient r = Ok ([], db').
Proof using.
  unfold append_unread_envelopes. intros H. inv_ok. destruct x0 as [[is' p'] db1]. inv_ok. simplify_eq.
  destruct (attach_loop_view _ _ _ _ _ _ _ _ Hr0) as [V ->]. unfold mail_view in V. injection V as Vm Vi Vr.
  destruct (deliver_rest r (unread db recipient).*1 db1) as [Di Dr]. set (db2 := foldl (deliver r) db1 _) in *.
  assert (unread db2 recipient = []) as Hnone.
  { apply filter_nil_iff, Forall_forall. intros [id m] Hin. apply by_key_elem in Hin. apply not_true_iff_false.
    intros Hc. rewrite !andb_true_iff, !bool_decide_eq_true in Hc. destruct Hc as [[Hrec Hdel] Hitem]. simpl in *.
    destruct (deliver_all _ _ _ _ _ Hin Hdel) as [Hni Hold]. apply Hni, list_elem_of_fmap. exists (id, m). split; [done|].
    unfold unread. rewrite list_elem_of_In, filter_In, <- list_elem_of_In, by_key_elem. simpl.
    rewrite <- Vm. split; [done|]. rewrite Di, Vi in Hitem. by rewrite !bool_decide_eq_true_2. }
  split_and!; [done..|]. rewrite Dr, Vr, Hr. simpl. by rewrite bool_decide_eq_true_2, Hnone by (by apply bool_decide_eq_true in Hg).
Qed.

(** ** Outputs *)

Lemma put_item_again db item : put_item item_hash (put_item item_hash db item).2 item = (item_hash item, (put_item item_hash db item).2).
Proof.
  unfold put_item. simpl. destruct (h_items db !! item_hash item) eqn:E; simpl; [by rewrite E|]. by rewrite lookup_insert_eq.
Qed.

(** An operation's output is published to a request once: repeating a
    publication that succeeded returns the same item and leaves the rows as they
    are. *)
Theorem output_published_once db operation claimant r item h b db' :
  append_tx item_hash replay_claim db operation claimant r = Ok (item, h, b, db') ->
  append_tx item_hash replay_claim db' operation claimant r = Ok (item, h, false, db').
Proof.
  unfold append_tx. intros H. apply rbind_Ok in H as (retained & Hret & H). rewrite Hret. cbn [rbind].
  apply rbind_Ok in H as (it & Hit & H). rewrite Hit. cbn [rbind].
  pose proof (put_item_again db it) as Hagain. pose proof (put_item_rows item_hash db it) as Hrows.
  destruct (put_item item_hash db it) as [h1 db1] eqn:Eput. assert (h1 = item_hash it) as -> by (unfold put_item in Eput; by simplify_eq).
  simpl in Hagain. assert (forall db2, h_items db2 = h_items db1 -> put_item item_hash db2 it = (item_hash it, db2)) as Hput.
  { intros db2 E. unfold put_item in *. rewrite E. destruct (h_items db1 !! item_hash it) eqn:E1; [done|].
    injection Hagain as Hagain. apply (f_equal h_items) in Hagain. simpl in Hagain. rewrite <- Hagain, lookup_insert_eq in E1. done. }
  destruct (_ <$> take 2 _) as [|previous [|]] eqn:Eprev; [| |done].
  - apply fmap_nil_inv in Eprev. destruct (bool_decide _) eqn:Ereq; [|done].
    apply rbind_Ok in H as (db2 & Hins & H). injection H as <- <- <- <-.
    apply insert_row_inv in Hins as (Hnone & _ & _ & ->). set (p := next_position _) in *. set (row := {| row_hash := _ |}) in *.
    set (db2 := db1 <| h_rows ::= _ |>). set (db3 := publish_item _ _ _ _ _ _).
    rewrite Hput by (unfold db3, publish_item; by destruct (is_configuration_update it)).
    assert (List.filter (owned_by operation) (by_key (rows_of db3 r)) = [(p, row)]) as Hf.
    { apply Permutation_singleton_r. unfold db3. rewrite publish_item_rows. unfold db2. rewrite rows_set, decide_True by done.
      rewrite (filter_perm _ _ _ (by_key_perm _)), (filter_perm _ _ _ (map_to_list_insert _ _ _ Hnone)).
      simpl. unfold owned_by at 1. simpl. rewrite bool_decide_eq_true_2 by done.
      rewrite <- (filter_perm _ _ _ (by_key_perm (rows_of db1 r))).
      destruct (List.filter (owned_by operation) (by_key (rows_of db1 r))); [done|done]. }
    rewrite Hf. simpl. by rewrite bool_decide_eq_true_2.
  - destruct (bool_decide _) eqn:E; [|done]. injection H as <- <- <- <-. rewrite Hagain.
    by rewrite Eprev, E.
Qed.
End claims.

(** ** A conversation for the witnesses *)

Definition toy_hash (v : value) : string := "h:" +:+ default "" (get_str "id" v).
Definition toy_item (id : string) : value := json_object [("type", VString "reasoning"); ("id", VString id)].
Definition toy_output : value := tool_output (fun _ => "text") "c1" FunctionKind OutCancelled.
Definition toy_operation : OperationId := {| origin := Standalone "store" "/root"; op_request := "r"; call := "c1" |}.
Definition toy_claim (o : OperationId) (claimant : string) : result StoreError (option value) := Ok (Some toy_output).

Definition toy_issued : IssuedRequestRecord :=
  {| native_transport := None; purpose := Some Inference; issued_input := []; issued_outputs := None; instructions := "i";
     tools := "t"; tools_allowed := None; issued_model := "model"; pinned_effort := Low; session_thread := "s";
     session_affinity := "s"; prompt_cache_comparison := None |}.
Definition toy_handle : IssuedProviderRequest := {| ip_request := "r"; ip_store := "store"; ip_issued := toy_issued |}.

Definition committed {A} (r : result StoreError (A * Hdb)) : Hdb := match r with Ok (_, db) => db | Err _ => Hdb_empty end.

(** A request is created and issued, its second item arrives before its
    first, mail is waiting, and the response completes. *)
Definition toy1 : Hdb := match create_request Hdb_empty "r" None "/root" with Ok db => db | Err _ => Hdb_empty end.
Definition toy2 : Hdb := committed (issue_provider_request toy1 "store" "r" toy_issued (ChatGptPlan, Standard)).
Definition toy3 : Hdb := committed (append_provider_done toy_hash toy2 "store" toy_handle 1 (toy_item "b")).
Definition toy4 : Hdb := committed (add_envelope toy_hash toy3 "/peer" "/root" "at_boundary" (user_text "hello") None).
Definition toy5 : Hdb :=
  committed (record_provider_turn toy_hash toy4 "store" toy_handle "resp" [toy_item "a"; toy_item "b"] Usage_default).

Lemma toy_steps4 : rtc (history_step toy_hash toy_claim) Hdb_empty toy4.
Proof.
  eapply (rtc_l _ _ toy1); [apply (step_create _ _ _ _ "r" None "/root"); reflexivity|].
  eapply (rtc_l _ _ toy2); [eapply (step_issue _ _ _ _ "store" "r" toy_issued (ChatGptPlan, Standard)); reflexivity|].
  eapply (rtc_l _ _ toy3); [eapply (step_done _ _ _ _ "store" toy_handle 1 (toy_item "b")); [done|reflexivity]|].
  eapply (rtc_l _ _ toy4); [eapply (step_mail _ _ _ _ "/peer" "/root" "at_boundary" (user_text "hello") None); reflexivity|].
  apply rtc_refl.
Defined.

Lemma toy_step5 : history_step toy_hash toy_claim toy4 toy5.
Proof. apply (step_turn _ _ _ _ "store" toy_handle "resp" [toy_item "a"; toy_item "b"] Usage_default 3). vm_compute. reflexivity. Defined.


Lemma toy4_wf : history_wf toy_hash toy4.
Proof. apply (steps_keep _ _ _ _ toy_steps4), empty_wf. Qed.

Lemma history_append_only_witness : extends toy4 toy5.
Proof. exact (history_append_only toy_hash toy_claim toy4 toy5 toy4_wf (rtc_once _ _ toy_step5)). Defined.

Lemma lineage_total_witness : exists l, full_lineage toy4 true "r" = Some l /\ NoDup l.
Proof. exact (lineage_total toy_hash toy4 true "r" toy4_wf). Defined.

Lemma provider_turn_evidence_witness :
  exists env, issued_envelope (fun _ => Ok tt) (fun _ _ => Ok None) toy5 "r" = Ok (Some env) /\
    o_hash <$> re_origins env = ["h:a"; "h:b"].
Proof.
  destruct (provider_turn_evidence toy_hash (fun _ => Ok tt) (fun _ _ => Ok None) toy4 "store" toy_handle "resp"
    [toy_item "a"; toy_item "b"] Usage_default 3 toy5 (default {| issued := toy_issued; p_route := DeepSeek; p_protocol := Standard;
      p_state := RFailed; response_id := None; completion_event := None |} (h_provider toy5 !! "r")) toy4_wf) as (env & H1 & _ & H2 & _).
  - vm_compute. reflexivity.
  - vm_compute. reflexivity.
  - vm_compute. split; [reflexivity|]. split; [discriminate|exact I].
  - exists env. split; [exact H1|exact H2].
Defined.

Lemma mail_attached_once_witness :
  exists db', append_unread_envelopes toy5 "/root" "r" = Ok ([user_text "hello"], db') /\
    append_unread_envelopes db' "/root" "r" = Ok ([], db').
Proof.
  exists (committed (append_unread_envelopes toy5 "/root" "r")). split; [vm_compute; reflexivity|].
  destruct (mail_attached_once toy5 "/root" "r" [user_text "hello"]
    (committed (append_unread_envelopes toy5 "/root" "r"))) as (_ & _ & H); [vm_compute; reflexivity|exact H].
Defined.

Lemma output_published_once_witness :
  exists db', append_tx toy_hash toy_claim toy5 toy_operation "r" "r" = Ok (toy_output, toy_hash toy_output, true, db') /\
    append_tx toy_hash toy_claim db' toy_operation "r" "r" = Ok (toy_output, toy_hash toy_output, false, db').
Proof.
  exists (committed (append_tx toy_hash toy_claim toy5 toy_operation "r" "r")). split; [vm_compute; reflexivity|].
  apply (output_published_once toy_hash toy_claim toy5 toy_operation "r" "r" toy_output (toy_hash toy_output) true).
  vm_compute. reflexivity.
Defined.
