(* ===== verification/ContextOrder.v ===== *)
(** The order of retained history: [ordered_occurrences] of [store/context.rs].

    Streamed items are stored as they arrive; a response owns an order of its
    own. Reading history puts each response's items into the places they
    hold in provider order, and moves an output that was published among the
    items of the response that issued its call behind that response. *)

From S2P Require Import Prelude Json Redaction Usage Observation Sse Failure StoreDb Admission Jobs Lists Item ContextPatch ContextText HistoryDb HistoryOps.

Section order.
(** [output_order]: the provider's index of each owned occurrence. *)
Variable indices : gmap Origin Z.

Definition owned (o : Occurrence) : bool := bool_decide (is_Some (indices !! occ_origin o)).

(** An item of the response to request [r]. *)
Definition member (r : string) (o : Occurrence) : bool := owned o && bool_decide (o_request (occ_origin o) = r).

Definition index_leb (a b : Occurrence) : bool :=
  default 0 (indices !! occ_origin a) <=? default 0 (indices !! occ_origin b).

(** The places of the elements that satisfy [p], counted from [n]. *)
Fixpoint places {A} (p : A -> bool) (n : nat) (l : list A) : list nat :=
  match l with
  | [] => []
  | x :: l => if p x then n :: places p (S n) l else places p (S n) l
  end.

(** [slots]: one entry per response with a retained item. *)
Definition slot_requests (retained : list Occurrence) : list string :=
  remove_dups ((fun o => o_request (occ_origin o)) <$> List.filter owned retained).

Definition fill {A} (l : list A) (assignments : list (nat * A)) : list A := foldl (fun l a => <[a.1 := a.2]> l) l assignments.

Definition arrange (retained : list Occurrence) (ordered : list Occurrence) (r : string) : list Occurrence :=
  let positions := places (member r) 0 retained in
  let members := sort_by index_leb (omap (fun p => retained !! p) positions) in
  fill ordered (zip positions members).

Definition arranged (retained : list Occurrence) : list Occurrence := foldl (arrange retained) retained (slot_requests retained).

Definition end_of (retained : list Occurrence) (r : string) : option nat := last (places (member r) 0 retained).

(** Where an output waits for the response that issued its call. *)
Definition delay (retained : list Occurrence) (position : nat) (o : Occurrence) : option nat :=
  match output_operation o with
  | Some operation =>
      match end_of retained (op_request operation) with
      | Some e => if (position <? e)%nat then Some e else None
      | None => None
      end
  | None => None
  end.

(** The outputs that wait for position [e]. *)
Definition delayed_at (retained ordered : list Occurrence) (e : nat) : list Occurrence :=
  omap (fun x => if bool_decide (delay retained x.1 x.2 = Some e) then Some x.2 else None) (imap pair ordered).

Definition emit (retained ordered : list Occurrence) (position : nat) (o : Occurrence) : list Occurrence :=
  (if bool_decide (is_Some (delay retained position o)) then [] else [o]) ++ delayed_at retained ordered position.

Definition ordered_occurrences (retained : list Occurrence) : list Occurrence :=
  let ordered := arranged retained in
  concat (imap (emit retained ordered) ordered).
End order.

(** [history]: the lineage of a head in that order. *)
Definition history (db : Hdb) (head : string) (boundaries : bool) : option (result StoreError (list Occurrence)) :=
  (fun retained =>
    do retained <- retained;
    do indices <- output_order db ((fun o => o_request (occ_origin o)) <$> retained);
    Ok (ordered_occurrences indices retained)) <$> retained_history db head boundaries.

(** ** Places *)

Lemma places_shift {A} (p : A -> bool) l : forall n, places p (S n) l = S <$> places p n l.
Proof. induction l as [|x l IH]; intros n; simpl; [done|]. rewrite IH. by destruct (p x). Qed.

Lemma places_elem {A} (p : A -> bool) (l : list A) i : i ∈ places p 0 l <-> exists x, l !! i = Some x /\ p x = true.
Proof.
  revert i. induction l as [|x l IH]; intros i; simpl; [set_solver|]. rewrite places_shift.
  assert (i ∈ S <$> places p 0 l <-> exists j, i = S j /\ exists y, l !! j = Some y /\ p y = true) as He.
  { rewrite list_elem_of_fmap. setoid_rewrite IH. done. }
  destruct (p x) eqn:Ex; rewrite ?elem_of_cons, He; destruct i as [|i]; simpl; split; intros H.
  - eauto.
  - by left.
  - destruct H as [H|(j & [= <-] & H)]; [done|done].
  - right. by exists i.
  - by destruct H as (j & ? & _).
  - destruct H as (y & [= <-] & Hy). congruence.
  - by destruct H as (j & [= <-] & H).
  - by exists i.
Qed.

Lemma places_last {A} (p : A -> bool) (l : list A) e i : last (places p 0 l) = Some e -> i ∈ places p 0 l -> (i <= e)%nat.
Proof.
  revert e i. induction l as [|x l IH]; intros e i; simpl; [set_solver|]. rewrite places_shift.
  assert (forall e, last (S <$> places p 0 l) = Some e -> i ∈ S <$> places p 0 l -> (i <= e)%nat) as Hs.
  { intros e' H (j & -> & Hj)%list_elem_of_fmap. rewrite fmap_last in H. apply fmap_Some in H as (k & Hk & ->).
    specialize (IH _ _ Hk Hj). lia. }
  destruct (p x); [|by apply Hs]. destruct (S <$> places p 0 l) as [|y k] eqn:E.
  - simpl. intros [= <-] ->%list_elem_of_singleton. lia.
  - change (last (0%nat :: y :: k)) with (last (y :: k)). intros He [->|Hi]%elem_of_cons; [lia|]. by apply Hs.
Qed.

(** The elements at the places are the filtered list. *)
Lemma places_lookup {A} (p : A -> bool) (l : list A) : omap (fun i => l !! i) (places p 0 l) = List.filter p l.
Proof.
  induction l as [|x l IH]; simpl; [done|]. rewrite places_shift.
  assert (omap (fun i => (x :: l) !! i) (S <$> places p 0 l) = List.filter p l) as Hs.
  { rewrite <- IH. generalize (places p 0 l) as k. induction k as [|i k IHk]; [done|].
    rewrite fmap_cons, !omap_cons. simpl. by rewrite IHk. }
  destruct (p x); [|done]. rewrite omap_cons. simpl. by rewrite Hs.
Qed.

(** ** Filling places *)

Fixpoint refill {A} (p : A -> bool) (l ms : list A) : list A :=
  match l with
  | [] => []
  | x :: l => if p x then match ms with m :: ms => m :: refill p l ms | [] => x :: refill p l [] end else x :: refill p l ms
  end.

Lemma fill_shift {A} (ps : list nat) : forall (x : A) l ms,
  fill (x :: l) (zip (S <$> ps) ms) = x :: fill l (zip ps ms).
Proof. induction ps as [|i ps IH]; intros x l [|m ms]; try done. simpl. unfold fill in *. simpl. apply IH. Qed.

Lemma refill_nil {A} (p : A -> bool) l : refill p l [] = l.
Proof. induction l as [|x l IH]; simpl; [done|]. rewrite IH. by destruct (p x). Qed.

Lemma fill_refill {A} (p : A -> bool) (l : list A) : forall (base ms : list A),
  length base = length l -> Forall2 (fun x y => p x = p y) l base ->
  fill base (zip (places p 0 l) ms) = refill p base ms.
Proof.
  induction l as [|x l IH]; intros [|y base] ms Hl Hf; try done. inversion Hf as [|???? Hxy Hrest]; subst. simpl.
  rewrite places_shift. simpl in Hl. rewrite <- Hxy. destruct (p x).
  - destruct ms as [|m ms]; simpl.
    + unfold fill. simpl. by rewrite refill_nil.
    + change (fill (y :: base) ((0%nat, m) :: zip (S <$> places p 0 l) ms)) with (fill (m :: base) (zip (S <$> places p 0 l) ms)).
      rewrite fill_shift. f_equal. apply IH; [lia|done].
  - rewrite fill_shift. f_equal. apply IH; [lia|done].
Qed.

Lemma refill_same {A} (p : A -> bool) l : forall ms,
  Forall (fun m => p m = true) ms -> length ms = length (List.filter p l) ->
  List.filter p (refill p l ms) = ms /\ Forall2 (fun x y => p x = p y) l (refill p l ms).
Proof.
  induction l as [|x l IH]; intros ms Hms Hl; simpl in *.
  - destruct ms; [|done]. split; [done|constructor].
  - destruct (p x) eqn:Ex; simpl in *.
    + destruct ms as [|m ms]; [done|]. apply Forall_cons in Hms as [Hm Hms]. simpl in *. rewrite Hm.
      destruct (IH ms Hms ltac:(lia)) as [H1 H2]. split; [by f_equal|]. constructor; [congruence|done].
    + destruct (IH ms Hms Hl) as [H1 H2]. rewrite Ex. split; [done|]. by constructor.
Qed.

(** Elements of another kind stay where they are. *)
Lemma refill_other {A} (p q : A -> bool) l : forall ms,
  (forall x, q x = true -> p x = false) -> Forall (fun m => p m = true) ms -> length ms = length (List.filter p l) ->
  List.filter q (refill p l ms) = List.filter q l /\ Forall2 (fun x y => q x = q y) l (refill p l ms).
Proof.
  induction l as [|x l IH]; intros ms Hd Hms Hl; simpl in *; [split; [done|constructor]|].
  destruct (p x) eqn:Ex; simpl in *.
  - destruct ms as [|m ms]; [done|]. apply Forall_cons in Hms as [Hm Hms].
    assert (q x = false) as Hqx by (destruct (q x) eqn:E; [apply Hd in E; congruence|done]).
    assert (q m = false) as Hqm by (destruct (q m) eqn:E; [apply Hd in E; congruence|done]).
    destruct (IH ms Hd Hms ltac:(simpl in Hl; lia)) as [H1 H2]. simpl. rewrite Hqm, Hqx. split; [done|]. constructor; [congruence|done].
  - destruct (IH ms Hd Hms Hl) as [H1 H2]. simpl. split; [by rewrite H1|by constructor].
Qed.

Lemma refill_perm {A} (p : A -> bool) l : forall ms, ms ≡ₚ List.filter p l -> refill p l ms ≡ₚ l.
Proof.
  intros ms Hp. assert (forall l ms, length ms = length (List.filter p l) ->
    refill p l ms ≡ₚ ms ++ List.filter (fun x => negb (p x)) l) as Hs.
  { clear. induction l as [|x l IH]; intros ms Hl; simpl in *; [by destruct ms|]. destruct (p x); simpl in *.
    - destruct ms as [|m ms]; [done|]. simpl in *. rewrite IH by lia. done.
    - rewrite IH by done. apply Permutation_middle. }
  rewrite Hs by (by rewrite Hp). rewrite Hp. clear. induction l as [|x l IH]; simpl; [done|].
  destruct (p x); simpl; [by rewrite IH|]. by rewrite <- Permutation_middle, IH.
Qed.

(** ** Responses in provider order *)

Lemma Forall2_same_refl {A B} (f : A -> B) l : Forall2 (fun x y => f x = f y) l l.
Proof. induction l; by constructor. Qed.

Lemma Forall2_same_trans {A B} (f : A -> B) l1 l2 l3 :
  Forall2 (fun x y => f x = f y) l1 l2 -> Forall2 (fun x y => f x = f y) l2 l3 -> Forall2 (fun x y => f x = f y) l1 l3.
Proof.
  intros H. revert l3. induction H; intros l3 H3; inversion H3; subst; constructor; [congruence|auto].
Qed.

Section arranged.
Variable indices : gmap Origin Z.
#[local] Abbreviation owned := (owned indices).
#[local] Abbreviation member := (member indices).

Definition group (retained : list Occurrence) (r : string) : list Occurrence :=
  sort_by (index_leb indices) (List.filter (member r) retained).

Lemma group_members retained r : Forall (fun m => member r m = true) (group retained r).
Proof.
  apply Forall_forall. intros m Hm. unfold group in Hm. rewrite sort_by_perm, list_elem_of_In, filter_In in Hm. by destruct Hm.
Qed.

Lemma group_length retained r : length (group retained r) = length (List.filter (member r) retained).
Proof. unfold group. by rewrite sort_by_perm. Qed.

Lemma member_disjoint r r' o : r' <> r -> member r' o = true -> member r o = false.
Proof. unfold ContextOrder.member. rewrite !andb_true_iff, andb_false_iff, bool_decide_eq_true, bool_decide_eq_false. naive_solver. Qed.

(** What the arranging loop has done after the responses [done]. *)
Record arranged_to (retained : list Occurrence) (done : list string) (ordered : list Occurrence) : Prop := {
  at_perm : ordered ≡ₚ retained;
  at_place r : Forall2 (fun x y => member r x = member r y) retained ordered;
  at_done r : r ∈ done -> List.filter (member r) ordered = group retained r;
  at_todo r : r ∉ done -> List.filter (member r) ordered = List.filter (member r) retained;
  at_other q : (forall o, q o = true -> owned o = false) -> List.filter q ordered = List.filter q retained
}.

Lemma arrange_step retained done ordered r :
  arranged_to retained done ordered -> r ∉ done -> arranged_to retained (done ++ [r]) (arrange indices retained ordered r).
Proof.
  intros [Hp Hpl Hdone Htodo Hoth] Hr.
  assert (arrange indices retained ordered r = refill (member r) ordered (group retained r)) as ->.
  { unfold arrange. rewrite places_lookup. apply fill_refill; [|apply Hpl]. by rewrite Hp. }
  assert (length (group retained r) = length (List.filter (member r) ordered)) as Hl by (by rewrite group_length, Htodo).
  pose proof (group_members retained r) as Hm.
  assert (forall q : Occurrence -> bool, (forall o, q o = true -> member r o = false) ->
    List.filter q (refill (member r) ordered (group retained r)) = List.filter q ordered /\
    Forall2 (fun x y => q x = q y) ordered (refill (member r) ordered (group retained r))) as Hother.
  { intros q Hq. by apply refill_other. }
  split.
  - rewrite refill_perm; [done|]. rewrite Htodo by done. apply sort_by_perm.
  - intros r'. apply (Forall2_same_trans _ _ ordered); [apply Hpl|]. destruct (decide (r' = r)) as [->|Hne].
    + by apply refill_same.
    + apply Hother. intros o. by apply member_disjoint.
  - intros r' Hin. destruct (decide (r' = r)) as [->|Hne]; [by apply refill_same|].
    rewrite (proj1 (Hother (member r') (fun o => member_disjoint r r' o Hne))). apply Hdone. set_solver.
  - intros r' Hnin. assert (r' <> r) as Hne by set_solver.
    rewrite (proj1 (Hother (member r') (fun o => member_disjoint r r' o Hne))). apply Htodo. set_solver.
  - intros q Hq. destruct (Hother q) as [-> _]; [|by apply Hoth]. intros o Ho. unfold ContextOrder.member. by rewrite (Hq o Ho).
Qed.

Lemma arrange_loop retained rs : forall done ordered,
  arranged_to retained done ordered -> NoDup rs -> (forall r, r ∈ rs -> r ∉ done) ->
  arranged_to retained (done ++ rs) (foldl (arrange indices retained) ordered rs).
Proof.
  induction rs as [|r rs IH]; intros done ordered H Hnd Hd; simpl; [by rewrite app_nil_r|].
  apply NoDup_cons in Hnd as [Hr Hnd]. replace (done ++ r :: rs) with ((done ++ [r]) ++ rs) by (by rewrite <- app_assoc).
  apply IH; [|done|set_solver]. apply arrange_step; [done|]. apply Hd. set_solver.
Qed.

Lemma arranged_spec retained : arranged_to retained (slot_requests indices retained) (arranged indices retained).
Proof.
  apply (arrange_loop retained (slot_requests indices retained) [] retained).
  - split; try done; [|set_solver]. intros r. by apply Forall2_same_refl.
  - apply NoDup_remove_dups.
  - set_solver.
Qed.

Lemma arranged_group retained r : List.filter (member r) (arranged indices retained) = group retained r.
Proof.
  pose proof (arranged_spec retained) as H. destruct (decide (r ∈ slot_requests indices retained)) as [Hin|Hnin]; [by apply H|].
  rewrite (at_todo _ _ _ H r Hnin). unfold group. enough (List.filter (member r) retained = []) as -> by done.
  apply filter_nil_iff, Forall_forall. intros o Ho. apply not_true_iff_false. intros Hm. apply Hnin.
  unfold slot_requests. apply elem_of_remove_dups, list_elem_of_fmap. unfold ContextOrder.member in Hm.
  rewrite andb_true_iff, bool_decide_eq_true in Hm. destruct Hm as [H1 H2]. exists o. split; [done|].
  rewrite list_elem_of_In, filter_In, <- list_elem_of_In. done.
Qed.

(** The places of a response are the same before and after. *)
Lemma arranged_places retained r : places (member r) 0 (arranged indices retained) = places (member r) 0 retained.
Proof.
  pose proof (at_place _ _ _ (arranged_spec retained) r) as H. generalize 0%nat as n. induction H as [|x y l k Hxy _ IH]; intros n; [done|].
  simpl. rewrite <- Hxy. destruct (member r x); by rewrite IH.
Qed.

(** ** Delayed outputs *)

(** Occurrences of responses are not outputs; [Ownership] of provider items. *)
Definition responses_plain (retained : list Occurrence) : Prop :=
  Forall (fun o => owned o = true -> output_operation o = None) retained.

Lemma delay_bounds retained position o e :
  delay indices retained position o = Some e -> (position < e)%nat /\ (e < length retained)%nat /\
  exists operation, output_operation o = Some operation /\ end_of indices retained (op_request operation) = Some e.
Proof.
  unfold delay. destruct (output_operation o) as [op|]; [|done]. destruct (end_of _ _ _) as [e'|] eqn:E; [|done].
  destruct (Nat.ltb_spec position e'); [|done]. intros [= ->]. split; [done|]. split; [|eauto].
  unfold end_of in E. apply last_Some_elem_of, places_elem in E as (x & Hx & _). by apply lookup_lt_Some in Hx.
Qed.

Lemma delayed_at_elem retained ordered e o :
  o ∈ delayed_at indices retained ordered e <-> exists i, ordered !! i = Some o /\ delay indices retained i o = Some e.
Proof.
  unfold delayed_at. rewrite list_elem_of_omap. split.
  - intros ([i x] & Hin & H). simpl in H. case_bool_decide as Hd; [|done]. injection H as ->.
    apply list_elem_of_lookup in Hin as (k & Hk). rewrite list_lookup_imap in Hk. apply fmap_Some in Hk as (y & Hy & [= -> ->]). eauto.
  - intros (i & Hi & Hd). exists (i, o). simpl. rewrite bool_decide_eq_true_2 by done. split; [|done].
    apply list_elem_of_lookup. exists i. by rewrite list_lookup_imap, Hi.
Qed.

(** Filtering what never waits sees only the arranged list. *)
Lemma emit_filter retained ordered (q : Occurrence -> bool) :
  (forall i o, ordered !! i = Some o -> q o = true -> delay indices retained i o = None) ->
  List.filter q (concat (imap (emit indices retained ordered) ordered)) = List.filter q ordered.
Proof.
  intros Hq. assert (forall e, List.filter q (delayed_at indices retained ordered e) = []) as Hno.
  { intros e. apply filter_nil_iff, Forall_forall. intros o (i & Hi & Hd)%delayed_at_elem.
    apply not_true_iff_false. intros Ho. rewrite (Hq _ _ Hi Ho) in Hd. done. }
  assert (forall l (g : nat -> Occurrence -> list Occurrence),
    (forall i o, l !! i = Some o -> List.filter q (g i o) = List.filter q [o]) ->
    List.filter q (concat (imap g l)) = List.filter q l) as Hgen.
  { induction l as [|x l IH]; intros g Hg; [done|]. simpl. rewrite List.filter_app, (Hg 0%nat x) by done.
    rewrite (IH (g ∘ S)) by (intros i o Hi; apply (Hg (S i) o Hi)). simpl. by destruct (q x). }
  apply Hgen. intros i o Hi. unfold emit. rewrite List.filter_app, Hno, app_nil_r.
  case_bool_decide as Hd; [|done]. simpl. destruct (q o) eqn:E; [|done]. rewrite (Hq _ _ Hi E) in Hd. by destruct Hd.
Qed.

(** Distributing elements over their destinations loses nothing. *)
Definition bucket {A} (xs : list (nat * A)) (e : nat) : list A :=
  omap (fun x => if bool_decide (x.1 = e) then Some x.2 else None) xs.

Lemma bucket_cons {A} d (a : A) xs e : bucket ((d, a) :: xs) e = if bool_decide (d = e) then a :: bucket xs e else bucket xs e.
Proof. unfold bucket. rewrite omap_cons. simpl. by case_bool_decide. Qed.

Lemma bucket_insert {A} d (a : A) xs (l : list nat) :
  NoDup l -> d ∈ l -> concat (bucket ((d, a) :: xs) <$> l) ≡ₚ a :: concat (bucket xs <$> l).
Proof.
  assert (forall l : list nat, d ∉ l -> bucket ((d, a) :: xs) <$> l = bucket xs <$> l) as Hout.
  { intros k Hk. apply list_fmap_ext. intros i e He. apply list_elem_of_lookup_2 in He.
    rewrite bucket_cons, bool_decide_eq_false_2; [done|]. by intros ->. }
  induction l as [|e l IHl]; [set_solver|]. intros [Hn Hnd]%NoDup_cons [->|Hl]%elem_of_cons.
  - rewrite !fmap_cons, (Hout l Hn), bucket_cons, bool_decide_eq_true_2 by done. done.
  - rewrite !fmap_cons, bucket_cons, bool_decide_eq_false_2 by (intros ->; done). simpl. rewrite IHl by done.
    by rewrite Permutation_middle.
Qed.

Lemma distribute {A} (xs : list (nat * A)) n :
  Forall (fun x => (x.1 < n)%nat) xs -> concat (bucket xs <$> seq 0 n) ≡ₚ xs.*2.
Proof.
  intros H. induction H as [|[d a] xs Hd _ IH].
  - generalize (seq 0 n) as l. induction l; simpl; done.
  - rewrite bucket_insert, IH; [done|apply NoDup_seq|]. simpl in Hd. apply elem_of_seq. lia.
Qed.

Lemma imap_app_perm {A B} (f g : nat -> A -> list B) l :
  concat (imap (fun i x => f i x ++ g i x) l) ≡ₚ concat (imap f l) ++ concat (imap g l).
Proof.
  revert f g. induction l as [|x l IH]; intros f g; simpl; [done|]. rewrite (IH (f ∘ S) (g ∘ S)).
  rewrite <- !app_assoc. apply Permutation_app_head. rewrite !app_assoc. apply Permutation_app_tail. apply Permutation_app_comm.
Qed.

Lemma imap_seq {A B} (g : nat -> B) (l : list A) : forall n, imap (fun i _ => g (n + i)%nat) l = g <$> seq n (length l).
Proof.
  induction l as [|x l IH]; intros n; [done|]. rewrite imap_cons. cbn [length seq]. rewrite fmap_cons.
  f_equal; [f_equal; lia|]. rewrite <- (IH (S n)). apply imap_ext. intros i y _. simpl. f_equal. lia.
Qed.

Lemma imap_seq0 {A B} (g : nat -> B) (l : list A) : imap (fun i _ => g i) l = g <$> seq 0 (length l).
Proof. exact (imap_seq g l 0). Qed.

(** Every retained occurrence is emitted exactly once. *)
Lemma emit_perm retained ordered :
  length ordered = length retained -> concat (imap (emit indices retained ordered) ordered) ≡ₚ ordered.
Proof.
  intros Hl. unfold emit. rewrite imap_app_perm.
  rewrite (imap_seq0 (delayed_at indices retained ordered) ordered).
  set (waits := omap (fun x => (fun e => (e, x.2)) <$> delay indices retained x.1 x.2) (imap pair ordered)).
  assert (concat (delayed_at indices retained ordered <$> seq 0 (length ordered)) ≡ₚ waits.*2) as ->.
  { rewrite <- (distribute waits (length ordered)).
    - apply reflexive_eq. f_equal. apply list_fmap_ext. intros _ e _. unfold delayed_at, bucket, waits. rewrite <- omap_bind.
      apply omap_ext_all. intros [i o]. simpl. destruct (delay indices retained i o) as [d|]; simpl.
      + repeat case_bool_decide; by simplify_eq.
      + done.
    - apply Forall_forall. intros [e o] ([i x] & _ & H)%list_elem_of_omap. simpl in *.
      apply fmap_Some in H as (d & Hd & [= <- <-]). apply delay_bounds in Hd. lia. }
  assert (forall l (d : nat -> Occurrence -> option nat),
    concat (imap (fun i o => if bool_decide (is_Some (d i o)) then [] else [o]) l) ++
    (omap (fun x => (fun e => (e, x.2)) <$> d x.1 x.2) (imap pair l)).*2 ≡ₚ l) as Hgen.
  { induction l as [|x l IH]; intros d; [done|]. rewrite !imap_cons, omap_cons. cbn [concat fst snd]. specialize (IH (fun i => d (S i))).
    assert (omap (fun y : nat * Occurrence => (fun e => (e, y.2)) <$> d y.1 y.2) (imap (pair ∘ S) l) =
            omap (fun y : nat * Occurrence => (fun e => (e, y.2)) <$> d (S y.1) y.2) (imap pair l)) as Heq.
    { assert (imap (pair ∘ S) l = (fun y : nat * Occurrence => (S y.1, y.2)) <$> imap pair l) as -> by (by rewrite fmap_imap).
      generalize (imap pair l) as k. induction k as [|y k IHk]; [done|]. rewrite fmap_cons, !omap_cons. simpl. by rewrite IHk. }
    rewrite Heq. destruct (d 0%nat x) as [e|] eqn:E; cbn [fmap option_fmap option_map].
    - rewrite bool_decide_eq_true_2 by eauto. rewrite fmap_cons. cbn [app snd]. rewrite <- Permutation_middle. constructor. exact IH.
    - rewrite bool_decide_eq_false_2 by (by intros []). cbn [app]. constructor. exact IH. }
  apply Hgen.
Qed.

Lemma StronglySorted_concat {A} (R : relation A) ls :
  (forall i l, ls !! i = Some l -> StronglySorted R l) ->
  (forall i j li lj x y, (i < j)%nat -> ls !! i = Some li -> ls !! j = Some lj -> x ∈ li -> y ∈ lj -> R x y) ->
  StronglySorted R (concat ls).
Proof.
  induction ls as [|l ls IH]; intros Hin Hx; simpl; [constructor|]. apply StronglySorted_app. split_and!.
  - intros x y Hl Hc. apply list_elem_of_In, in_concat in Hc as (k & Hk%list_elem_of_In & Hy%list_elem_of_In). apply list_elem_of_lookup in Hk as [j Hj].
    by eapply (Hx 0%nat (S j) l k); [lia|..].
  - by apply (Hin 0%nat).
  - apply IH; [intros i k Hi; by apply (Hin (S i))|]. intros i j li lj x y Hlt Hi Hj. apply (Hx (S i) (S j)); [lia|done..].
Qed.

(** An item of the response that issued [a]'s call does not follow [a]. *)
Definition settled (a b : Occurrence) : Prop :=
  forall operation, output_operation a = Some operation -> member (op_request operation) b = false.

Lemma emit_settled retained ordered :
  responses_plain ordered -> (forall r, places (member r) 0 ordered = places (member r) 0 retained) ->
  StronglySorted settled (concat (imap (emit indices retained ordered) ordered)).
Proof.
  intros Hplain Hpl.
  assert (forall r b, member r b = true -> owned b = true) as Hown.
  { intros r b. unfold ContextOrder.member. rewrite andb_true_iff. by intros [? _]. }
  assert (forall e b r, b ∈ delayed_at indices retained ordered e -> member r b = false) as Hdel.
  { intros e b r (i & Hi & Hd)%delayed_at_elem. apply delay_bounds in Hd as (_ & _ & op & Hop & _).
    apply not_true_iff_false. intros Hm. apply Hown in Hm. unfold responses_plain in Hplain. rewrite Forall_forall in Hplain.
    rewrite (Hplain b) in Hop; [done|by eapply list_elem_of_lookup_2|done]. }
  assert (forall q l b r, imap (emit indices retained ordered) ordered !! q = Some l -> b ∈ l -> member r b = true ->
    ordered !! q = Some b) as Hkept.
  { intros q l b r Hq Hb Hm. rewrite list_lookup_imap in Hq. apply fmap_Some in Hq as (x & Hx & ->).
    unfold emit in Hb. apply elem_of_app in Hb as [Hb|Hb]; [|rewrite (Hdel _ _ r Hb) in Hm; done].
    case_bool_decide; [set_solver|]. by apply list_elem_of_singleton in Hb as ->. }
  assert (forall q l a op e, imap (emit indices retained ordered) ordered !! q = Some l -> a ∈ l ->
    output_operation a = Some op -> end_of indices retained (op_request op) = Some e -> (e <= q)%nat) as Hafter.
  { intros q l a op e Hq Ha Hop He. rewrite list_lookup_imap in Hq. apply fmap_Some in Hq as (x & Hx & ->).
    unfold emit in Ha. apply elem_of_app in Ha as [Ha|Ha].
    - case_bool_decide as Hd; [set_solver|]. apply list_elem_of_singleton in Ha as ->. unfold delay in Hd.
      rewrite Hop, He in Hd. destruct (Nat.ltb_spec q e); [|done]. exfalso. apply Hd. eauto.
    - apply delayed_at_elem in Ha as (i & Hi & Hd). apply delay_bounds in Hd as (_ & _ & op' & Hop' & He'). simplify_eq. done. }
  apply StronglySorted_concat.
  - intros q l Hq. rewrite list_lookup_imap in Hq. apply fmap_Some in Hq as (x & Hx & ->). unfold emit. apply StronglySorted_app.
    split_and!.
    + intros a b _ Hb op _. by apply (Hdel q).
    + case_bool_decide; repeat constructor.
    + generalize (Hdel q). generalize (delayed_at indices retained ordered q) as k. induction k as [|y k IH]; intros Hk; constructor.
      * apply IH. intros b r Hb. apply Hk. set_solver.
      * apply Forall_forall. intros b Hb op _. apply Hk. set_solver.
  - intros i j li lj a b Hlt Hi Hj Ha Hb op Hop. apply not_true_iff_false. intros Hm.
    pose proof (Hkept _ _ _ _ Hj Hb Hm) as Hbj.
    assert (j ∈ places (member (op_request op)) 0 ordered) as Hpj by (apply places_elem; eauto). rewrite Hpl in Hpj.
    destruct (last (places (member (op_request op)) 0 retained)) as [e|] eqn:He.
    + pose proof (places_last _ _ _ _ He Hpj) as Hje. pose proof (Hafter _ _ _ _ _ Hi Ha Hop He). lia.
    + apply last_None in He. rewrite He in Hpj. set_solver.
Qed.

End arranged.

Definition toy_at (position : Z) (operation : option OperationId) : Occurrence :=
  {| occ_request := "r"; occ_position := position; occ_hash := "h"; occ_item := VNull; output_operation := operation;
     occ_origin := {| o_request := "r"; o_position := position; o_hash := "h" |}; occ_sources := []; note := false; overlays := [] |}.

Definition toy_call_id : OperationId := {| origin := Standalone "store" "/root"; op_request := "r"; call := "c1" |}.

(** The response's second item arrived first and an output came between. *)
Definition toy_indices : gmap Origin Z :=
  <[{| o_request := "r"; o_position := 0; o_hash := "h" |} := 1]> {[ {| o_request := "r"; o_position := 2; o_hash := "h" |} := 0 ]}.

