(* ===== verification/Mailbox.v ===== *)
(** Mailbox envelopes and their rendering: [mailbox.rs].

    The theorem shows that coalescing renders the maximal runs of adjacent
    agent messages from one sender, each run once and in arrival order. *)

From S2P Require Import Prelude Json Lists ContextText.

Inductive EnvelopeType := NewTask | Message | FinalAnswer.
Inductive DeliveryClass := Steer | AtBoundary | Hold.
Inductive MessageChannel := AssistantChannel | UserChannel | DeveloperChannel.

Record Envelope := {
  kind : EnvelopeType;
  env_recipient : string;
  env_sender : string;
  payload : string;
  class : DeliveryClass;
  timestamp_ms : Z
}.

#[export] Instance MessageChannel_eq_dec : EqDecision MessageChannel.
Proof. solve_decision. Defined.

Definition final_answer (recipient sender payload : string) (timestamp : Z) : Envelope :=
  {| kind := FinalAnswer; env_recipient := recipient; env_sender := sender; payload := payload; class := AtBoundary;
     timestamp_ms := timestamp |}.

Definition from_final_answer_item (recipient sender : string) (item : value) (timestamp : Z) : option Envelope :=
  if negb (bool_decide (get_str "type" item = Some "message")) || negb (bool_decide (get_str "role" item = Some "assistant"))
     || negb (bool_decide (get_str "phase" item = Some "final_answer")) then None
  else
    parts ← vget "content" item ≫= as_array;
    let texts := omap (fun part => if bool_decide (get_str "type" part = Some "output_text") then get_str "text" part else None) parts in
    Some (final_answer recipient sender (String.concat "" texts) timestamp).

Definition default_class (sender : string) : DeliveryClass := if decide (sender = "/operator") then Steer else AtBoundary.

Definition kind_text (k : EnvelopeType) : string :=
  match k with NewTask => "NEW_TASK" | Message => "MESSAGE" | FinalAnswer => "FINAL_ANSWER" end.

Definition render (e : Envelope) : MessageChannel * string :=
  if decide (env_sender e = "/operator") then (UserChannel, payload e)
  else if decide (env_sender e = "/harness") then (DeveloperChannel, payload e)
  else (AssistantChannel,
        "Message Type: " +:+ kind_text (kind e) +:+ newline +:+ "Task name: " +:+ env_recipient e +:+ newline
        +:+ "Sender: " +:+ env_sender e +:+ newline +:+ "Payload:" +:+ newline +:+ payload e).

Definition heading (sender : string) : string := "## from " +:+ sender +:+ newline.

(** One round of the loop; the last rendered message is the one extended. *)
Definition coalesce (rendered : list (MessageChannel * string)) (e : Envelope) : list (MessageChannel * string) :=
  let '(channel, body) := render e in
  match last rendered with
  | Some (AssistantChannel, prior) =>
      if bool_decide (channel = AssistantChannel) && String.prefix (heading (env_sender e)) prior
      then removelast rendered ++ [(AssistantChannel, prior +:+ newline +:+ body)]
      else rendered ++ [(channel, if bool_decide (channel = AssistantChannel) then heading (env_sender e) +:+ body else body)]
  | _ => rendered ++ [(channel, if bool_decide (channel = AssistantChannel) then heading (env_sender e) +:+ body else body)]
  end.

Definition render_coalesced (envelopes : list Envelope) : list (MessageChannel * string) := foldl coalesce [] envelopes.

(** ** Runs *)

Definition from_agent (e : Envelope) : bool := bool_decide ((render e).1 = AssistantChannel).

(** Whether an envelope continues the run that ends with [prior]. *)
Definition same_run (prior e : Envelope) : bool :=
  from_agent prior && from_agent e && bool_decide (env_sender prior = env_sender e).

(** The maximal runs, in order. *)
Definition extend_runs (runs : list (list Envelope)) (e : Envelope) : list (list Envelope) :=
  match last runs with
  | Some run => match last run with
                | Some prior => if same_run prior e then removelast runs ++ [run ++ [e]] else runs ++ [[e]]
                | None => runs ++ [[e]]
                end
  | None => runs ++ [[e]]
  end.

Definition runs_of (envelopes : list Envelope) : list (list Envelope) := foldl extend_runs [] envelopes.

Definition render_run (run : list Envelope) : MessageChannel * string :=
  match run with
  | [] => (UserChannel, "")
  | e :: _ => if from_agent e then (AssistantChannel, heading (env_sender e) +:+ String.concat newline ((fun e => (render e).2) <$> run))
              else render e
  end.

(** A run as the loop builds it: not empty, and of one agent or a single message. *)
Definition wf_run (run : list Envelope) : Prop :=
  match run with
  | [] => False
  | e :: rest => if from_agent e then Forall (fun e' => same_run e e' = true) rest else rest = []
  end.

Definition no_newline (s : string) : Prop := Forall (fun c => c <> "010"%char) (String.list_ascii_of_string s).

#[local] Arguments ascii_dec : simpl never.

Lemma text_assoc a b c : (a +:+ b) +:+ c = a +:+ (b +:+ c).
Proof. induction a as [|x a IH]; [done|]. exact (f_equal (String x) IH). Qed.

Lemma prefix_app a b c : String.prefix (a +:+ b) (a +:+ c) = String.prefix b c.
Proof. induction a as [|x a IH]; [done|]. simpl. destruct (ascii_dec x x); [done|congruence]. Qed.

Lemma prefix_line a b rest : no_newline a -> no_newline b -> String.prefix (a +:+ newline) (b +:+ newline +:+ rest) = bool_decide (a = b).
Proof.
  unfold no_newline. revert b. induction a as [|x a IH]; intros [|y b] Ha Hb; simpl in *.
  - destruct rest; done.
  - apply Forall_cons in Hb as [Hy _]. destruct (ascii_dec "010" y); [congruence|]. done.
  - apply Forall_cons in Ha as [Hx _]. destruct (ascii_dec x "010"); [congruence|]. done.
  - apply Forall_cons in Ha as [_ Ha], Hb as [_ Hb]. destruct (ascii_dec x y) as [->|Hne].
    + rewrite IH by done. apply bool_decide_ext. split; [by intros ->|by intros [= ->]].
    + symmetry. apply bool_decide_eq_false_2. by intros [= -> _].
Qed.

Lemma heading_prefix a b rest :
  no_newline a -> no_newline b -> String.prefix (heading a) (heading b +:+ rest) = bool_decide (a = b).
Proof.
  intros. unfold heading. replace ((("## from " +:+ b +:+ newline) +:+ rest)) with ("## from " +:+ (b +:+ newline +:+ rest)).
  - rewrite prefix_app. by apply prefix_line.
  - by rewrite !text_assoc.
Qed.

Lemma concat_snoc sep (l : list string) x : l <> [] -> String.concat sep (l ++ [x]) = String.concat sep l +:+ sep +:+ x.
Proof.
  induction l as [|y l IH]; intros H; [done|]. destruct l as [|z l]; [done|].
  change ((y :: z :: l) ++ [x]) with (y :: ((z :: l) ++ [x])). change (String.concat sep (y :: (z :: l) ++ [x])) with
    (y +:+ sep +:+ String.concat sep ((z :: l) ++ [x])). rewrite IH by done.
  change (String.concat sep (y :: z :: l)) with (y +:+ sep +:+ String.concat sep (z :: l)).
  by rewrite !text_assoc.
Qed.

Lemma render_run_snoc run e :
  wf_run run -> match run with [] => False | e0 :: _ => same_run e0 e = true end ->
  render_run (run ++ [e]) = (AssistantChannel, (render_run run).2 +:+ newline +:+ (render e).2).
Proof.
  destruct run as [|e0 rest]; [done|]. intros _ Hs. unfold same_run in Hs. rewrite !andb_true_iff in Hs. destruct Hs as [[Ha _] _].
  pose (bodies l := String.concat newline ((fun e => (render e).2) <$> l)).
  assert (bodies ((e0 :: rest) ++ [e]) = bodies (e0 :: rest) +:+ newline +:+ (render e).2) as Hb.
  { unfold bodies. rewrite fmap_app. by apply concat_snoc. }
  change (render_run ((e0 :: rest) ++ [e])) with
    (if from_agent e0 then (AssistantChannel, heading (env_sender e0) +:+ bodies ((e0 :: rest) ++ [e])) else render e0).
  change (render_run (e0 :: rest)) with
    (if from_agent e0 then (AssistantChannel, heading (env_sender e0) +:+ bodies (e0 :: rest)) else render e0).
  rewrite Ha, Hb. cbn [snd]. by rewrite !text_assoc.
Qed.

Lemma render_plain e : from_agent e = false -> (render e).1 <> AssistantChannel.
Proof. unfold from_agent. by rewrite bool_decide_eq_false. Qed.

Lemma render_run_channel run : wf_run run ->
  match run with
  | e0 :: _ => if from_agent e0 then exists text, render_run run = (AssistantChannel, heading (env_sender e0) +:+ text)
               else (render_run run).1 <> AssistantChannel
  | [] => False
  end.
Proof.
  destruct run as [|e0 rest]; [done|]. intros _. simpl. destruct (from_agent e0) eqn:E; [eauto|]. by apply render_plain.
Qed.

Lemma wf_run_last run e0 rest prior :
  run = e0 :: rest -> wf_run run -> last run = Some prior -> from_agent e0 = from_agent prior /\ (from_agent e0 = true -> env_sender e0 = env_sender prior).
Proof.
  intros -> Hwf Hlast. simpl in Hwf. destruct (from_agent e0) eqn:E.
  - destruct (last rest) as [p|] eqn:Er.
    + rewrite last_cons, Er in Hlast. injection Hlast as ->. apply last_Some_elem_of in Er.
      rewrite Forall_forall in Hwf. specialize (Hwf _ Er). unfold same_run in Hwf. rewrite !andb_true_iff, bool_decide_eq_true in Hwf.
      naive_solver.
    + rewrite last_cons, Er in Hlast. by injection Hlast as ->.
  - subst rest. by injection Hlast as ->.
Qed.

#[local] Arguments render_run : simpl never.
#[local] Arguments render : simpl never.

(** One round renders the runs extended by the envelope. *)
Lemma coalesce_step runs e :
  Forall wf_run runs -> Forall (Forall (fun e => no_newline (env_sender e))) runs -> no_newline (env_sender e) ->
  coalesce (render_run <$> runs) e = render_run <$> extend_runs runs e /\ Forall wf_run (extend_runs runs e) /\
  Forall (Forall (fun e => no_newline (env_sender e))) (extend_runs runs e).
Proof.
  intros Hwf Hnl He. assert (wf_run [e]) as Hone by (simpl; destruct (from_agent e); [constructor|done]).
  assert (render_run [e] = ((render e).1, if bool_decide ((render e).1 = AssistantChannel) then heading (env_sender e) +:+ (render e).2 else (render e).2)) as Hr1.
  { unfold render_run, from_agent. case_bool_decide as E; [by rewrite E|]. by destruct (render e). }
  assert (Forall wf_run (runs ++ [[e]]) /\ Forall (Forall (fun e => no_newline (env_sender e))) (runs ++ [[e]])) as Hnew.
  { rewrite !Forall_snoc. split; [done|]. split; [done|]. by constructor. }
  unfold coalesce, extend_runs. destruct (render e) as [channel body] eqn:Ere. rewrite fmap_last.
  destruct runs as [|run runs _] using rev_ind.
  - simpl. split; [by rewrite Hr1|exact Hnew].
  - rewrite last_snoc. simpl. apply Forall_snoc in Hwf as [Hwf Hrun]. apply Forall_snoc in Hnl as [Hnl Hrunl].
    destruct run as [|e0 rest]; [done|]. destruct (last (e0 :: rest)) as [prior|] eqn:Elast; [|by apply last_None in Elast].
    destruct (wf_run_last _ e0 rest prior eq_refl Hrun Elast) as [Hag Hsd].
    pose proof (render_run_channel _ Hrun) as Hch. simpl in Hch.
    assert (same_run prior e = from_agent prior && from_agent e && bool_decide (env_sender e = env_sender prior)) as Hsame.
    { unfold same_run. f_equal. apply bool_decide_ext. done. }
    destruct (from_agent e0) eqn:Ea.
    + destruct Hch as [text Hch]. rewrite Hch, Hsame, <- Hag. cbn [andb].
      rewrite heading_prefix by (try done; by apply Forall_cons in Hrunl as [? _]).
      unfold from_agent. rewrite Ere. cbn [fst]. rewrite (Hsd eq_refl).
      destruct (bool_decide (channel = AssistantChannel) && bool_decide (env_sender e = env_sender prior)) eqn:Eb.
      * assert (same_run e0 e = true) as Hs0.
        { unfold same_run. rewrite Ea. unfold from_agent. rewrite Ere. simpl. rewrite (Hsd eq_refl).
          rewrite andb_true_iff, !bool_decide_eq_true in Eb. destruct Eb as [-> ->]. by rewrite !bool_decide_eq_true_2. }
        rewrite fmap_app. change (render_run <$> [e0 :: rest]) with [render_run (e0 :: rest)]. rewrite !removelast_last. split.
        -- rewrite fmap_app. transitivity ((render_run <$> runs) ++ [render_run ((e0 :: rest) ++ [e])]); [|done].
           by rewrite (render_run_snoc (e0 :: rest) e Hrun Hs0), Hch, Ere, (Hsd eq_refl).
        -- split; apply Forall_snoc; (split; [done|]).
           ++ simpl. simpl in Hrun. rewrite Ea in *. rewrite Forall_snoc. done.
           ++ apply (proj2 (Forall_app _ _ _)). split; [done|by repeat constructor].
      * split; [|exact Hnew]. rewrite !fmap_app. simpl fmap. by rewrite Hr1.
    + rewrite Hsame, <- Hag. simpl. destruct (render_run (e0 :: rest)) as [[| |] prior'] eqn:Ern; [done|..];
        (split; [|exact Hnew]); rewrite !fmap_app; simpl fmap; by rewrite Hr1.
Qed.

(** Coalescing renders exactly the maximal runs: for senders whose names
    hold no line break, adjacent agent messages from one sender become one message
    under one heading, in arrival order, and no other message is merged,
    moved or dropped. *)
Theorem coalesced_runs envelopes :
  Forall (fun e => no_newline (env_sender e)) envelopes ->
  render_coalesced envelopes = render_run <$> runs_of envelopes /\ concat (runs_of envelopes) = envelopes.
Proof.
  intros Hnl. unfold render_coalesced, runs_of.
  assert (foldl coalesce [] envelopes = render_run <$> foldl extend_runs [] envelopes /\ Forall wf_run (foldl extend_runs [] envelopes) /\
    Forall (Forall (fun e => no_newline (env_sender e))) (foldl extend_runs [] envelopes)) as (H & _ & _).
  { induction envelopes as [|e l IH] using rev_ind; [by repeat constructor|]. apply Forall_snoc in Hnl as [Hl He].
    destruct (IH Hl) as (H1 & H2 & H3). rewrite !foldl_app. simpl. rewrite H1. by apply coalesce_step. }
  split; [done|]. clear. induction envelopes as [|e l IH] using rev_ind; [done|]. rewrite foldl_app. simpl. unfold extend_runs at 1.
  destruct (foldl extend_runs [] l) as [|run runs _] using rev_ind; [by rewrite <- IH|]. rewrite last_snoc.
  assert (concat ((runs ++ [run]) ++ [[e]]) = l ++ [e]) as Hnew by (rewrite concat_app, IH; done).
  destruct (last run) as [prior|]; [|done]. destruct (same_run prior e); [|done].
  rewrite removelast_last, concat_app. simpl. rewrite app_nil_r, app_assoc, <- IH, concat_app. simpl. by rewrite app_nil_r.
Qed.

Lemma coalesced_runs_witness :
  let e s p := {| kind := Message; env_recipient := "/root"; env_sender := s; payload := p; class := AtBoundary; timestamp_ms := 0 |} in
  length (render_coalesced [e "/a" "one"; e "/a" "two"; e "/operator" "stop"; e "/a" "three"]) = 3%nat /\
  concat (runs_of [e "/a" "one"; e "/a" "two"; e "/operator" "stop"; e "/a" "three"]) = [e "/a" "one"; e "/a" "two"; e "/operator" "stop"; e "/a" "three"].
Proof.
  cbv zeta. match goal with |- length (render_coalesced ?l) = _ /\ _ => destruct (coalesced_runs l) as [_ H] end.
  - repeat (apply List.Forall_cons; [repeat (apply List.Forall_cons; [discriminate|]); apply List.Forall_nil|]). apply List.Forall_nil.
  - split; [vm_compute; reflexivity|exact H].
Defined.
