(* ===== verification/ContextBlocks.v ===== *)
(** The blocks of an editable prefix: [blocks] and its helpers of
    [store/context.rs], with output validation of [store/output_publication.rs].

    The prefix of a conversation is cut into blocks: a readable message is a
    text block; an exchange, an opaque response or a setting is a native group.
    Evidence kept elsewhere in the Store is a record of readers. The theorems
    show that the blocks partition the prefix in order and that a call and its
    result, and the observed items of an opaque response, share a block. *)

From S2P Require Import Prelude Json Redaction Usage Observation Sse Failure StoreDb Admission Jobs Lists Item ContextPatch ContextText HistoryDb HistoryOps.

(** The Store's readers [blocks] consults. *)
Record HistoryEvidence := {
  invocation : OperationId -> option (ToolKind * Origin);      (* the recovery ledger: kind and issuing occurrence *)
  source_row : string -> Z -> option Occurrence;               (* the ledger's source occurrences *)
  original_call : OperationId -> result ContextFault Origin;
  exact_terminal : OperationId -> result ContextFault (option string);
  validated_completion : Origin -> result ContextFault bool;
  response_evidence : gmap Origin ResponseEnvelope;
  reference_of : list Origin -> ContextReference;              (* the JSON of the origins *)
  hash_order : list Origin -> list Origin;                     (* the order a hash set yields its elements in *)
  read_json : string -> option value
}.

(** [ContextProjectionTarget]. *)
Record ContextProjectionTarget := {
  target_model : string;
  target_route : ResponsesRoute;
  target_protocol : ResponsesProtocol;
  target_native : option NativeTransportContract
}.

Section blocks.
Variable E : HistoryEvidence.

Definition reference (os : list Occurrence) : ContextReference := reference_of E (occ_origin <$> os).

(** ** Output validation *)

Definition validate_replay_output (call_id : string) (kind : ToolKind) (item : value) : result ContextFault unit :=
  guard veq_str (vidx item "type") (output_type kind) && veq_str (vidx item "call_id") call_id
    else StoreFault (OtherStoreError "ReplayOutputKindMismatch");
  Ok tt.

Definition validated_output (o : Occurrence) : result ContextFault (option (OperationId * value)) :=
  let inconsistent := StoreFault (InconsistentOutputPublication (occ_request o) (occ_position o)) in
  do owner <- map_err StoreFault (ownership (occ_item o) (output_operation o) (occ_request o) (occ_position o));
  match owner with
  | Ordinary => Ok None
  | HistoricalUnboundOutput => Err (StoreFault (UnboundOutputPublication (occ_request o) (occ_position o)))
  | OperationOutput operation =>
      do '(kind, _) <- ok_or (invocation E operation) inconsistent;
      do _ <- validate_replay_output (call operation) kind (occ_item o);
      do source <- ok_or (source_row E (o_request (occ_origin o)) (o_position (occ_origin o))) inconsistent;
      refuse negb (bool_decide (occ_hash source = o_hash (occ_origin o))) with inconsistent;
      do owner <- map_err StoreFault (ownership (occ_item source) (output_operation source) (occ_request source) (occ_position source));
      guard match owner with OperationOutput op => bool_decide (op = operation) | _ => false end else inconsistent;
      do _ <- validate_replay_output (call operation) kind (occ_item source);
      Ok (Some (operation, occ_item source))
  end.

Definition validate_history (os : list Occurrence) : result ContextFault unit :=
  do _ <- map_result validated_output os; Ok tt.

Definition validate_portable_output (call_ output : Occurrence) (call_id : string) (completing : option OperationId)
    : result ContextFault unit :=
  do operation <- ok_or (output_operation output)
    (StoreFault (UnboundOutputPublication (occ_request output) (occ_position output)));
  guard bool_decide (call operation = call_id) else OpaqueModel;
  do original <- original_call E operation;
  guard bool_decide (original = occ_origin call_) else OpaqueModel;
  if bool_decide (Some operation = completing) then Ok tt else
  do terminal <- exact_terminal E operation;
  guard bool_decide (terminal = Some (occ_hash output)) else OpaqueModel;
  Ok tt.

Definition output_editable (call_ : option Occurrence) (output : Occurrence) : result ContextFault bool :=
  match call_ with
  | None => Ok false
  | Some c =>
      match as_str (vidx (occ_item output) "call_id") with
      | None => Ok false
      | Some id => match validate_portable_output c output id None with
                   | Ok _ => Ok true
                   | Err OpaqueModel => Ok false
                   | Err e => Err e
                   end
      end
  end.

(** ** Visible texts *)

Definition u32_max : Z := 4294967295.

(** [(0..n).filter_map(|part| u32::try_from(part).ok())]. *)
Definition part_range (n : nat) : list N :=
  omap (fun i => if Z.of_nat i <=? u32_max then Some (N.of_nat i) else None) (seq 0 n).

Definition text_selectors (item : value) : list ContextTextSelector :=
  match as_str (vidx item "type") with
  | None => []
  | Some t =>
      if bool_decide (t = "message") then
        match vidx item "content" with
        | VString _ => [MessageText 0]
        | VArray parts => MessageText <$> part_range (length parts)
        | _ => []
        end
      else if bool_decide (t ∈ output_types) then [ToolResultText]
      else if bool_decide (t = "reasoning") then
        match as_array (vidx item "content") with
        | Some parts => ReasoningText <$> part_range (length parts)
        | None => []
        end
      else []
  end.

Definition visible_field (owners : gmap Origin Occurrence) (reasoning_editable : list Origin) (o : Occurrence) (projected : value)
    (sel : ContextTextSelector) : result ContextFault (option ContextVisibleText) :=
  match text_body projected sel with
  | None => Ok None
  | Some text =>
      do editable <- match sel with
                     | ToolResultText => output_editable (owners !! occ_origin o) o
                     | ReasoningText _ => Ok (bool_decide (occ_origin o ∈ reasoning_editable))
                     | MessageText _ => Ok true
                     end;
      Ok (Some {| field_reference := reference [o]; field_selector := sel; field_text := text; editable := editable;
                  removable := removable_note o |})
  end.

Definition visible_texts (owners : gmap Origin Occurrence) (reasoning_editable : list Origin) (os : list Occurrence)
    : result ContextFault (list ContextVisibleText) :=
  do fields <- map_result (fun o =>
    do projected <- project_bodies o;
    do fields <- map_result (visible_field owners reasoning_editable o projected) (text_selectors (occ_item o));
    Ok (omap id fields)) os;
  Ok (concat fields).

(** ** Editable reasoning *)

Definition positions_of (all : list Occurrence) (origin : Origin) : list nat :=
  omap (fun x => if bool_decide (occ_origin x.2 = origin) then Some x.1 else None) (imap pair all).

Definition plaintext_reasoning (item : value) : bool :=
  match as_object item with
  | None => false
  | Some fields =>
      forallb (fun k => bool_decide (k ∈ ["type"; "id"; "status"; "content"; "summary"])) (obj_keys fields)
      && match obj_get "status" fields with Some s => veq_str s "completed" | None => true end
      && match obj_get "id" fields with Some i => is_string i | None => true end
      && match obj_get "summary" fields with Some s => bool_decide (as_array s = Some []) | None => true end
      && match as_array (vidx item "content") with
         | Some parts =>
             negb (bool_decide (parts = []))
             && forallb (fun part => match as_object part with
                                     | Some fields => (length fields =? 2)%nat && veq_str (vidx part "type") "reasoning_text"
                                                      && is_string (vidx part "text")
                                     | None => false
                                     end) parts
         | None => false
         end
  end.

Definition supports_plaintext_reasoning_edits (r : ResponsesRoute) : bool := bool_decide (r = DeepSeek).

Definition reasoning_editable_origins (all : list Occurrence) (cut : nat) (target : option ContextProjectionTarget) : list Origin :=
  match target with
  | None => []
  | Some t =>
      if negb (supports_plaintext_reasoning_edits (target_route t)) || bool_decide (target_native t = None) then [] else
      occ_origin <$> List.filter (fun o =>
        veq_str (vidx (occ_item o) "type") "reasoning"
        && match response_evidence E !! occ_origin o with
           | None => false
           | Some env =>
               match re_completeness env with CompleteResponse => true | ObservedPrefix => false end
               && match re_kind env with KindModelTurn => true | KindServerCompaction => false end
               && bool_decide (re_model env = target_model t) && bool_decide (re_route env = Some (target_route t))
               && bool_decide (re_protocol env = Some (target_protocol t)) && bool_decide (re_native env = target_native t)
               && forallb (fun origin =>
                    match positions_of all origin with
                    | [index] =>
                        match all !! index with
                        | Some m => (index <? cut)%nat && negb (encrypted_payload (occ_item m))
                                    && (negb (veq_str (vidx (occ_item m) "type") "reasoning") || plaintext_reasoning (occ_item m))
                        | None => false
                        end
                    | _ => false
                    end) (re_origins env)
           end) (take cut all)
  end.

(** ** Ranges *)

Record Range := { r_start : nat; r_end : nat; r_opaque : bool; r_mandatory : bool }.

Definition is_owner_setting (item : value) : bool :=
  is_configuration_update item || (veq_str (vidx item "type") "message" && role_in item ["system"; "developer"]).

(** The output occurrences of each issuing call, in order of position. *)
Definition output_owner (o : Occurrence) : result ContextFault (option Origin) :=
  if type_in (occ_item o) output_types then
    do operation <- ok_or (output_operation o) (StoreFault (UnboundOutputPublication (occ_request o) (occ_position o)));
    do '(_, owner) <- ok_or (invocation E operation) InvalidReference;
    Ok (Some owner)
  else Ok None.

(** The first result of the call at [index] that follows it. *)
Definition result_after (owners : list (option Origin)) (origin : Origin) (index : nat) : option nat :=
  head (omap (fun x => if bool_decide (x.2 = Some origin) && (index <? x.1)%nat then Some x.1 else None) (imap pair owners)).

(** The bounds of an observed response and whether all of it is retained, each
    item once. *)
Definition envelope_bounds (all : list Occurrence) (env : ResponseEnvelope) : option (nat * nat * bool) :=
  let members := List.filter (fun ps => negb (bool_decide (ps = []))) (positions_of all <$> re_origins env) in
  let complete := (length members =? length (re_origins env))%nat && forallb (fun ps : list nat => (length ps =? 1)%nat) members in
  match concat members with
  | [] => None
  | i :: rest => Some (foldl Nat.min i rest, foldl Nat.max i rest, complete)
  end.

(** The origins of the prefix's opaque items, as a hash set yields them. *)
Definition opaque_origins (all : list Occurrence) (cut : nat) : list Origin :=
  hash_order E (occ_origin <$> List.filter (fun o => opaque (occ_item o) && negb (is_owner_setting (occ_item o))) (take cut all)).

(** One opaque origin: its response is grouped once, under its first item. *)
Definition group_envelope (all : list Occurrence) (acc : list Origin * gmap Origin (nat * nat * bool)) (origin : Origin)
    : list Origin * gmap Origin (nat * nat * bool) :=
  let '(grouped, bounds) := acc in
  match response_evidence E !! origin with
  | Some env =>
      match re_origins env with
      | first :: _ =>
          if bool_decide (first ∈ grouped) then acc else
          match envelope_bounds all env with
          | Some b => (first :: grouped, foldl (fun m member => <[member := b]> m) bounds (re_origins env))
          | None => (first :: grouped, bounds)
          end
      | [] => acc
      end
  | None => acc
  end.

Definition opaque_bounds (all : list Occurrence) (cut : nat) : gmap Origin (nat * nat * bool) :=
  (foldl (group_envelope all) ([], ∅) (opaque_origins all cut)).2.

(** The ranges one occurrence contributes, and whether it is a call. *)
Definition ranges_at (owners : list (option Origin)) (bounds : gmap Origin (nat * nat * bool)) (cut : nat)
    (acc : list Range * list Origin) (x : nat * Occurrence) : result ContextFault (list Range * list Origin) :=
  let '(ranges, prior_calls) := acc in
  let '(index, o) := x in
  let item := occ_item o in
  if is_owner_setting item then
    Ok (ranges ++ [{| r_start := index; r_end := S index; r_opaque := false; r_mandatory := true |}], prior_calls)
  else
    do call_ <- match tool_call (read_json E) item with Ok c => Ok c | Err _ => Err InvalidReference end;
    do own <-
      match call_ with
      | Some _ =>
          do completion <- validated_completion E (occ_origin o);
          let result_ := result_after owners (occ_origin o) index in
          let end_ := match result_ with Some n => S n | None => S index end in
          Ok [{| r_start := index; r_end := Nat.min end_ cut; r_opaque := opaque item;
                 r_mandatory := negb completion && (bool_decide (result_ = None) || (cut <? end_)%nat) |}]
      | None =>
          match message item with
          | Some _ => Ok []
          | None =>
              do orphan <-
                (if type_in item output_types then
                   match output_operation o with
                   | Some operation => do origin <- original_call E operation; Ok (negb (bool_decide (origin ∈ prior_calls)))
                   | None => Ok true
                   end
                 else Ok false);
              Ok [{| r_start := index; r_end := S index; r_opaque := opaque item; r_mandatory := orphan |}]
          end
      end;
    let prior_calls := match call_ with Some _ => prior_calls ++ [occ_origin o] | None => prior_calls end in
    let grouped :=
      if opaque item then
        match bounds !! occ_origin o with
        | Some (start, end_, complete) =>
            [{| r_start := start; r_end := Nat.min (S end_) cut; r_opaque := true; r_mandatory := negb complete || (cut <=? end_)%nat |}]
        | None => [{| r_start := index; r_end := S index; r_opaque := true; r_mandatory := true |}]
        end
      else [] in
    Ok (ranges ++ own ++ grouped, prior_calls).

Definition start_leb (a b : Range) : bool := (r_start a <=? r_start b)%nat.

(** One round of the merge; the last range is the one extended. *)
Definition merge_range (merged : list Range) (r : Range) : list Range :=
  match last merged with
  | Some l =>
      if (r_start r <? r_end l)%nat
      then removelast merged ++ [{| r_start := r_start l; r_end := Nat.max (r_end l) (r_end r);
                                    r_opaque := r_opaque l || r_opaque r; r_mandatory := r_mandatory l || r_mandatory r |}]
      else merged ++ [r]
  | None => merged ++ [r]
  end.

Definition merge_ranges (ranges : list Range) : list Range := foldl merge_range [] (sort_by start_leb ranges).

(** ** Blocks *)

Definition native_block (owners : gmap Origin Occurrence) (reasoning_editable : list Origin) (os : list Occurrence) (r : Range)
    : result ContextFault StoredBlock :=
  let kind := if r_mandatory r then PendingKind else if r_opaque r then OpaqueKind else CompletedExchange in
  do texts <- visible_texts owners reasoning_editable os;
  do pv <- preview os;
  Ok {| block := NativeBlock (reference os) kind pv (r_mandatory r) texts; items := os; sb_opaque := r_opaque r;
        mandatory := r_mandatory r |}.

Definition text_block (o : Occurrence) : result ContextFault StoredBlock :=
  do projected <- project_bodies o;
  do '(role, text) <- ok_or (message projected) InvalidReference;
  Ok {| block := TextBlock (Some (reference [o])) role text (occ_sources o); items := [o]; sb_opaque := false; mandatory := false |}.

(** The assembling loop; [fuel] bounds its rounds by the positions left. *)
Fixpoint assemble (owners : gmap Origin Occurrence) (reasoning_editable : list Origin) (all : list Occurrence) (cut : nat)
    (fuel index : nat) (ranges : list Range) : result ContextFault (list StoredBlock) :=
  match fuel with
  | O => Ok []
  | S fuel =>
      if (cut <=? index)%nat then Ok [] else
      match ranges with
      | r :: rest =>
          if (r_start r =? index)%nat then
            do b <- native_block owners reasoning_editable (take (r_end r - index) (drop index all)) r;
            do bs <- assemble owners reasoning_editable all cut fuel (r_end r) rest;
            Ok (b :: bs)
          else
            do o <- ok_or (all !! index) InvalidReference;
            do b <- text_block o;
            do bs <- assemble owners reasoning_editable all cut fuel (S index) ranges;
            Ok (b :: bs)
      | [] =>
          do o <- ok_or (all !! index) InvalidReference;
          do b <- text_block o;
          do bs <- assemble owners reasoning_editable all cut fuel (S index) ranges;
          Ok (b :: bs)
      end
  end.

(** The call each output answers, when it is retained. *)
Definition output_owners (all : list Occurrence) (owners : list (option Origin)) : gmap Origin Occurrence :=
  let calls : gmap Origin Occurrence :=
    foldl (fun m o => if type_in (occ_item o) ["function_call"; "custom_tool_call"] then <[occ_origin o := o]> m else m) ∅ all in
  foldl (fun m x => match x.2 with
                    | Some owner => match calls !! owner with Some c => <[occ_origin x.1 := c]> m | None => m end
                    | None => m
                    end) ∅ (zip all owners).

Definition block_ranges (all : list Occurrence) (cut : nat) : result ContextFault (list Range) :=
  do owners <- map_result output_owner all;
  do '(ranges, _) <- fold_result (ranges_at owners (opaque_bounds all cut) cut) ([], []) (imap pair (take cut all));
  Ok ranges.

Definition blocks (all : list Occurrence) (cut : nat) (target : option ContextProjectionTarget)
    : result ContextFault (list StoredBlock) :=
  do _ <- validate_history all;
  do owners <- map_result output_owner all;
  do ranges <- block_ranges all cut;
  assemble (output_owners all owners) (reasoning_editable_origins all cut target) all cut (S cut) 0 (merge_ranges ranges).
End blocks.

(** ** Ranges lie in the prefix *)

Definition valid_range (cut : nat) (r : Range) : Prop := (r_start r < r_end r)%nat /\ (r_end r <= cut)%nat.

Lemma positions_of_elem all origin i :
  i ∈ positions_of all origin <-> exists o, all !! i = Some o /\ occ_origin o = origin.
Proof.
  unfold positions_of. rewrite list_elem_of_omap. split.
  - intros ([j o] & Hin & H). simpl in H. case_bool_decide; [|done]. injection H as ->.
    apply list_elem_of_lookup in Hin as (k & Hk). rewrite list_lookup_imap in Hk. apply fmap_Some in Hk as (y & Hy & [= -> ->]). eauto.
  - intros (o & Ho & <-). exists (i, o). simpl. rewrite bool_decide_eq_true_2 by done. split; [|done].
    apply list_elem_of_lookup. exists i. by rewrite list_lookup_imap, Ho.
Qed.

Lemma foldl_min_le l : forall i, (foldl Nat.min i l <= i)%nat /\ (forall j, j ∈ l -> foldl Nat.min i l <= j)%nat.
Proof.
  induction l as [|k l IH]; intros i; simpl; [split; [done|set_solver]|]. destruct (IH (Nat.min i k)) as [H1 H2].
  split; [lia|]. intros j [->|Hj]%elem_of_cons; [lia|by apply H2].
Qed.

Lemma foldl_max_ge l : forall i, (i <= foldl Nat.max i l)%nat /\ (forall j, j ∈ l -> j <= foldl Nat.max i l)%nat.
Proof.
  induction l as [|k l IH]; intros i; simpl; [split; [done|set_solver]|]. destruct (IH (Nat.max i k)) as [H1 H2].
  split; [lia|]. intros j [->|Hj]%elem_of_cons; [lia|by apply H2].
Qed.

Lemma envelope_bounds_sound all env s e c i o :
  envelope_bounds all env = Some (s, e, c) -> all !! i = Some o -> occ_origin o ∈ re_origins env -> (s <= i)%nat /\ (i <= e)%nat.
Proof.
  unfold envelope_bounds. set (members := List.filter _ _). intros H Hi Ho.
  assert (i ∈ concat members) as Hin.
  { apply list_elem_of_In, in_concat. exists (positions_of all (occ_origin o)). rewrite <- !list_elem_of_In.
    assert (i ∈ positions_of all (occ_origin o)) as Hp by (apply positions_of_elem; eauto). split; [|done].
    unfold members. rewrite list_elem_of_In, filter_In, <- list_elem_of_In, negb_true_iff, bool_decide_eq_false.
    split; [by apply list_elem_of_fmap_2|]. intros E. rewrite E in Hp. set_solver. }
  destruct (concat members) as [|j l]; [done|]. injection H as <- <- _.
  apply elem_of_cons in Hin as [->|Hin]; destruct (foldl_min_le l j), (foldl_max_ge l j); split; auto.
Qed.

Lemma insert_all_lookup {A} (origins : list Origin) (b : A) : forall (m : gmap Origin A) origin x,
  foldl (fun m o => <[o := b]> m) m origins !! origin = Some x -> x = b /\ origin ∈ origins \/ m !! origin = Some x.
Proof.
  induction origins as [|o origins IH]; intros m origin x; simpl; [by right|]. intros H. apply IH in H as [[-> H]|H]; [left; set_solver|].
  apply lookup_insert_Some in H as [[<- <-]|[_ H]]; [left; set_solver|by right].
Qed.

Section partition.
Variable E : HistoryEvidence.

Lemma opaque_bounds_sound all cut origin s e c i o :
  opaque_bounds E all cut !! origin = Some (s, e, c) -> all !! i = Some o -> occ_origin o = origin -> (s <= i)%nat /\ (i <= e)%nat.
Proof.
  intros H Hi Ho. revert H. unfold opaque_bounds.
  assert (forall l acc, (forall x, acc.2 !! origin = Some x -> (x.1.1 <= i)%nat /\ (i <= x.1.2)%nat) ->
    forall x, (foldl (group_envelope E all) acc l).2 !! origin = Some x -> (x.1.1 <= i)%nat /\ (i <= x.1.2)%nat) as Hgen.
  { induction l as [|x l IH]; intros acc Hacc; [done|]. simpl. apply IH. destruct acc as [grouped bounds]. unfold group_envelope at 1.
    destruct (response_evidence E !! x) as [env|]; [|done].
    destruct (re_origins env) as [|first rest] eqn:Eo; [done|]. case_bool_decide; [done|].
    destruct (envelope_bounds all env) as [[[s' e'] c']|] eqn:Eb; [|done]. cbn [snd]. intros y Hy.
    apply (insert_all_lookup (first :: rest)) in Hy as [[-> Hin]|Hy]; [|by apply Hacc]. simpl.
    eapply envelope_bounds_sound; [done..|]. by rewrite Eo, Ho. }
  intros H. apply (Hgen _ ([], ∅)) in H; [done|]. intros x. simpl. by rewrite lookup_empty.
Qed.

Lemma result_after_later owners origin index n : result_after owners origin index = Some n -> (index < n)%nat.
Proof.
  unfold result_after. intros H. apply head_Some_elem_of, list_elem_of_omap in H as ([k x] & _ & H). simpl in H.
  destruct (bool_decide _ && _) eqn:Eb; [|done]. injection H as ->. apply andb_true_iff in Eb as [_ Eb]. by apply Nat.ltb_lt in Eb.
Qed.

(** What one round of the range loop adds. *)
Lemma ranges_at_valid owners all cut ranges prior index o ranges' prior' :
  ranges_at E owners (opaque_bounds E all cut) cut (ranges, prior) (index, o) = Ok (ranges', prior') ->
  all !! index = Some o -> (index < cut)%nat ->
  exists added, ranges' = ranges ++ added /\ Forall (valid_range cut) added.
Proof.
  unfold ranges_at. intros H Hi Hc. destruct (is_owner_setting (occ_item o)).
  { injection H as <- <-. eexists. split; [done|]. apply Forall_singleton. split; cbn [r_start r_end]; lia. }
  apply rbind_Ok in H as (call_ & _ & H). apply rbind_Ok in H as (own & Hown & H). injection H as <- _.
  eexists. split; [done|]. apply Forall_app. split.
  - destruct call_.
    + apply rbind_Ok in Hown as (completion & _ & [= <-]). apply Forall_singleton.
      destruct (result_after owners (occ_origin o) index) as [n|] eqn:Er; [apply result_after_later in Er|]; split; cbn [r_start r_end]; lia.
    + destruct (message (occ_item o)); [injection Hown as <-; constructor|]. apply rbind_Ok in Hown as (orphan & _ & [= <-]).
      apply Forall_singleton; split; cbn [r_start r_end]; lia.
  - destruct (opaque (occ_item o)); [|constructor].
    destruct (opaque_bounds E all cut !! occ_origin o) as [[[s e] c]|] eqn:Eb; apply Forall_singleton; [|split; cbn [r_start r_end]; lia].
    destruct (opaque_bounds_sound _ _ _ _ _ _ _ _ Eb Hi eq_refl). split; cbn [r_start r_end]; destruct cut; lia.
Qed.

(** Ranges of a call and of an opaque item are among those added. *)
Lemma ranges_loop owners all cut l : forall k acc ranges prior,
  (forall j o, l !! j = Some o -> all !! (k + j)%nat = Some o) -> (k + length l <= cut)%nat ->
  Forall (valid_range cut) acc.1 ->
  fold_result (ranges_at E owners (opaque_bounds E all cut) cut) acc (imap (fun j o => ((k + j)%nat, o)) l) = Ok (ranges, prior) ->
  Forall (valid_range cut) ranges /\ (forall r, r ∈ acc.1 -> r ∈ ranges) /\
  (forall j o, l !! j = Some o -> exists acc' acc'', ranges_at E owners (opaque_bounds E all cut) cut acc' ((k + j)%nat, o) = Ok acc'' /\
     (forall r, r ∈ acc''.1 -> r ∈ ranges)).
Proof.
  induction l as [|o l IH]; intros k [rs pr] ranges prior Hl Hk Hv H.
  { simpl in H. injection H as <- <-. split_and!; [done..|]. intros j o Hj. by rewrite lookup_nil in Hj. }
  rewrite imap_cons in H. cbn [fold_result] in H. apply rbind_Ok in H as ([rs1 pr1] & H1 & H).
  rewrite Nat.add_0_r in H1. pose proof (Hl 0%nat o eq_refl) as Ho. rewrite Nat.add_0_r in Ho. simpl in Hk, Hv.
  destruct (ranges_at_valid _ _ _ _ _ _ _ _ _ H1 Ho ltac:(lia)) as (added & -> & Hadd).
  assert (imap ((fun j o => ((k + j)%nat, o)) ∘ S) l = imap (fun j (o : Occurrence) => ((S k + j)%nat, o)) l) as Him.
  { apply imap_ext. intros j x _. simpl. by rewrite Nat.add_succ_r. }
  rewrite Him in H. apply IH in H as (Hr1 & Hr2 & Hr3).
  - split_and!; [done|intros r Hr; apply Hr2; simpl; set_solver|]. intros [|j] x Hx.
    + injection Hx as ->. rewrite Nat.add_0_r. eauto.
    + rewrite Nat.add_succ_r. apply (Hr3 j x Hx).
  - intros j x Hx. specialize (Hl (S j) x Hx). by rewrite Nat.add_succ_r in Hl.
  - simpl. lia.
  - simpl. by apply Forall_app.
Qed.

Lemma block_ranges_spec all cut ranges :
  (cut <= length all)%nat -> block_ranges E all cut = Ok ranges ->
  Forall (valid_range cut) ranges /\
  exists owners, map_result (output_owner E) all = Ok owners /\
  forall i o, all !! i = Some o -> (i < cut)%nat -> exists acc' acc'',
    ranges_at E owners (opaque_bounds E all cut) cut acc' (i, o) = Ok acc'' /\ (forall r, r ∈ acc''.1 -> r ∈ ranges).
Proof.
  intros Hlen H. unfold block_ranges in H. apply rbind_Ok in H as (owners & Ho & H).
  apply rbind_Ok in H as ([rs pr] & H & [= <-]).
  destruct (ranges_loop owners all cut (take cut all) 0 ([], []) rs pr) as (H1 & _ & H3).
  - intros j o Hj. by apply lookup_take_Some in Hj as [Hj _].
  - rewrite length_take. lia.
  - constructor.
  - exact H.
  - split; [done|]. exists owners. split; [done|]. intros i o Hi Hc. apply (H3 i o). by apply lookup_take_Some.
Qed.

(** ** Merged ranges *)

(** [m] holds the positions of [r] and keeps its flags. *)
Definition within (r m : Range) : Prop :=
  (r_start m <= r_start r)%nat /\ (r_end r <= r_end m)%nat /\ (r_opaque r = true -> r_opaque m = true) /\
  (r_mandatory r = true -> r_mandatory m = true).

Definition separated : list Range -> Prop := StronglySorted (fun a b => (r_end a <= r_start b)%nat).

Lemma within_refl r : within r r.
Proof. unfold within. auto. Qed.

Lemma within_trans a b c : within a b -> within b c -> within a c.
Proof. unfold within. intros (?&?&?&?) (?&?&?&?). split_and!; auto; lia. Qed.

Record merged_ok (cut : nat) (ms : list Range) : Prop := {
  mo_valid : Forall (valid_range cut) ms;
  mo_sep : separated ms
}.

(** One round: separation is kept, and nothing gathered is lost. *)
Lemma merge_range_ok cut ms r :
  merged_ok cut ms -> valid_range cut r -> (forall l, last ms = Some l -> r_start l <= r_start r)%nat ->
  merged_ok cut (merge_range ms r) /\ (forall x, x = r \/ x ∈ ms -> Exists (within x) (merge_range ms r)) /\
  (exists l, last (merge_range ms r) = Some l /\ r_start l <= r_start r)%nat.
Proof.
  intros [Hv Hs] Hr Hl. unfold merge_range. destruct ms as [|l ms _] using rev_ind.
  { simpl. split_and!; [split; repeat constructor; apply Hr|intros x [->|Hx]; [constructor; apply within_refl|set_solver]|eauto]. }
  rewrite last_snoc in *. specialize (Hl l eq_refl). apply Forall_snoc in Hv as [Hv Hvl].
  apply StronglySorted_app in Hs as (Hs1 & Hs2 & _). destruct (Nat.ltb_spec (r_start r) (r_end l)) as [Hlt|Hge].
  - rewrite removelast_last. unfold valid_range in Hvl, Hr. split_and!.
    + split; [apply Forall_snoc; split; [done|]; unfold valid_range; cbn [r_start r_end]; lia|].
      apply StronglySorted_app. split_and!; [|done|repeat constructor]. intros x y Hx ->%list_elem_of_singleton.
      apply (Hs1 x l); [done|set_solver].
    + intros x Hx. apply Exists_app. destruct Hx as [->|[Hx| ->%list_elem_of_singleton]%elem_of_app].
      * right. constructor. unfold within. cbn [r_start r_end r_opaque r_mandatory]. split_and!; [lia..| |]; intros ->; by rewrite orb_true_r.
      * left. apply Exists_exists. exists x. split; [done|apply within_refl].
      * right. constructor. unfold within. cbn [r_start r_end r_opaque r_mandatory]. split_and!; [lia..| |]; by intros ->.
    + eexists. rewrite last_snoc. split; [done|]. exact Hl.
  - split_and!.
    + split; [repeat (apply Forall_snoc; split); done|]. apply StronglySorted_app. split; [|split; [|repeat constructor]].
      2: { apply StronglySorted_app. split_and!; [done..|repeat constructor]. }
      intros x y Hx ->%list_elem_of_singleton. apply elem_of_app in Hx as [Hx| ->%list_elem_of_singleton]; [|done].
      pose proof (Hs1 x l Hx ltac:(set_solver)) as Hxl. unfold valid_range in Hvl. simpl in Hxl. lia.
    + intros x Hx. apply Exists_exists. exists x. split; [destruct Hx; set_solver|apply within_refl].
    + exists r. by rewrite last_snoc.
Qed.

Lemma merge_loop cut rs : forall ms,
  StronglySorted (fun a b => start_leb a b = true) rs -> Forall (valid_range cut) rs -> merged_ok cut ms ->
  (forall l, last ms = Some l -> Forall (fun r => r_start l <= r_start r)%nat rs) ->
  merged_ok cut (foldl merge_range ms rs) /\ forall x, x ∈ ms \/ x ∈ rs -> Exists (within x) (foldl merge_range ms rs).
Proof.
  induction rs as [|r rs IH]; intros ms Hs Hv Hm Hl; simpl.
  { split; [done|]. intros x [Hx|Hx]; [|set_solver]. apply Exists_exists. exists x. split; [done|apply within_refl]. }
  apply Forall_cons in Hv as [Hr Hv]. inversion Hs as [|? ? Hs' Hall]; subst.
  destruct (merge_range_ok cut ms r Hm Hr) as (Hm' & Hkeep & l & Hlast & Hle).
  { intros l Hlast. specialize (Hl l Hlast). by apply Forall_cons in Hl as [? _]. }
  destruct (IH (merge_range ms r) Hs' Hv Hm') as [Hout Hin].
  { intros l' Hl'. rewrite Hlast in Hl'. injection Hl' as <-. eapply Forall_impl; [exact Hall|].
    intros x Hx. apply Nat.leb_le in Hx. lia. }
  split; [done|]. intros x Hx. assert (x = r \/ x ∈ ms \/ x ∈ rs) as [Hx'|[Hx'|Hx']] by set_solver.
  1,2: destruct (proj1 (Exists_exists _ _) (Hkeep x ltac:(auto))) as (y & Hy & Hw);
       destruct (proj1 (Exists_exists _ _) (Hin y ltac:(auto))) as (z & Hz & Hw');
       apply Exists_exists; exists z; split; [done|by eapply within_trans].
  apply Hin. auto.
Qed.

Lemma merge_ranges_ok cut rs :
  Forall (valid_range cut) rs -> merged_ok cut (merge_ranges rs) /\ forall r, r ∈ rs -> Exists (within r) (merge_ranges rs).
Proof.
  intros Hv. unfold merge_ranges. destruct (merge_loop cut (sort_by start_leb rs) []) as [H1 H2].
  - apply sort_by_sorted; unfold start_leb.
    + intros x y. rewrite !Nat.leb_le. lia.
    + intros x y z. rewrite !Nat.leb_le. lia.
  - by rewrite sort_by_perm.
  - split; constructor.
  - done.
  - split; [done|]. intros r Hr. apply H2. right. by rewrite sort_by_perm.
Qed.

(** ** The assembled blocks *)

(** A block of [bs], the first of which starts at [index], lies over [r]. *)
Definition block_over (index : nat) (bs : list StoredBlock) (r : Range) : Prop :=
  exists pre b post, bs = pre ++ b :: post /\ (index + length (concat (items <$> pre)) = r_start r)%nat /\
  (length (items b) = r_end r - r_start r)%nat /\ sb_opaque b = r_opaque r /\ mandatory b = r_mandatory r.

Lemma block_over_cons index b bs r :
  block_over (index + length (items b)) bs r -> block_over index (b :: bs) r.
Proof.
  intros (pre & b' & post & -> & Hi & H). exists (b :: pre), b', post. split_and!; try apply H; [done|].
  rewrite fmap_cons. cbn [concat]. rewrite length_app. lia.
Qed.

Lemma native_block_spec owners editable os r b :
  native_block E owners editable os r = Ok b -> items b = os /\ sb_opaque b = r_opaque r /\ mandatory b = r_mandatory r.
Proof. unfold native_block. intros H. apply rbind_Ok in H as (? & _ & H). by apply rbind_Ok in H as (? & _ & [= <-]). Qed.

Lemma text_block_spec o b : text_block E o = Ok b -> items b = [o].
Proof. unfold text_block. intros H. apply rbind_Ok in H as (? & _ & H). by apply rbind_Ok in H as ([? ?] & _ & [= <-]). Qed.

Lemma take_split {A} (l : list A) (i e cut : nat) : (i <= e <= cut)%nat ->
  take (e - i) (drop i l) ++ take (cut - e) (drop e l) = take (cut - i) (drop i l).
Proof.
  intros H. replace (drop e l) with (drop (e - i) (drop i l)) by (rewrite drop_drop; f_equal; lia).
  replace (cut - i)%nat with ((e - i) + (cut - e))%nat by lia. by rewrite take_take_drop.
Qed.

Lemma assemble_ok owners editable all cut : (cut <= length all)%nat -> forall fuel index ranges bs,
  assemble E owners editable all cut fuel index ranges = Ok bs -> (cut - index < fuel)%nat -> (index <= cut)%nat ->
  merged_ok cut ranges -> Forall (fun r => index <= r_start r)%nat ranges ->
  concat (items <$> bs) = take (cut - index) (drop index all) /\ Forall (fun b => items b <> []) bs /\
  forall r, r ∈ ranges -> block_over index bs r.
Proof.
  intros Hlen. induction fuel as [|fuel IH]; intros index ranges bs H Hf Hi [Hv Hs] Hr; [lia|]. cbn [assemble] in H.
  destruct (Nat.leb_spec cut index) as [Hc|Hc].
  { injection H as <-. replace (cut - index)%nat with 0%nat by lia. rewrite take_0. split_and!; [done|constructor|].
    intros r Hin. rewrite Forall_forall in Hv, Hr. specialize (Hv r Hin). specialize (Hr r Hin). unfold valid_range in Hv. lia. }
  assert (forall rs, merged_ok cut rs -> Forall (fun r => S index <= r_start r)%nat rs ->
    (do o <- ok_or (all !! index) InvalidReference; do b <- text_block E o;
     do bs <- assemble E owners editable all cut fuel (S index) rs; Ok (b :: bs)) = Ok bs ->
    concat (items <$> bs) = take (cut - index) (drop index all) /\ Forall (fun b => items b <> []) bs /\
    forall r, r ∈ rs -> block_over index bs r) as Htext.
  { intros rs Hm Hrs H'. apply rbind_Ok in H' as (o & Ho & H'). apply rbind_Ok in H' as (b & Hb & H').
    apply rbind_Ok in H' as (bs' & H' & [= <-]). apply text_block_spec in Hb.
    destruct (all !! index) as [o'|] eqn:Eo; [|done]. injection Ho as ->.
    apply IH in H' as (H1 & H2 & H3); [|lia|lia|done|done]. split_and!.
    - rewrite fmap_cons. cbn [concat]. rewrite H1, Hb, (drop_S all o index Eo).
      replace (cut - index)%nat with (S (cut - S index)) by lia. done.
    - constructor; [by rewrite Hb|done].
    - intros r Hin. apply block_over_cons. rewrite Hb. cbn [length]. rewrite Nat.add_1_r. by apply H3. }
  destruct ranges as [|r rest]; [by apply (Htext []); [split; constructor|constructor|]|].
  apply Forall_cons in Hv as [Hvr Hv]. apply Forall_cons in Hr as [Hir Hr]. inversion Hs as [|? ? Hs' Hsep]; subst.
  unfold valid_range in Hvr. destruct (Nat.eqb_spec (r_start r) index) as [<-|Hne].
  - apply rbind_Ok in H as (b & Hb & H). apply rbind_Ok in H as (bs' & H & [= <-]).
    apply native_block_spec in Hb as (Hb & Hop & Hma). apply IH in H as (H1 & H2 & H3); [|lia|lia|by split|done].
    assert (length (items b) = r_end r - r_start r)%nat as Hlb.
    { rewrite Hb, length_take, length_drop. lia. }
    split_and!.
    + rewrite fmap_cons. cbn [concat]. rewrite H1, Hb. apply take_split. lia.
    + constructor; [|done]. intros E'. rewrite E' in Hlb. simpl in Hlb. lia.
    + intros x [->|Hx]%elem_of_cons.
      * exists [], b, bs'. simpl. split_and!; auto; lia.
      * apply block_over_cons. rewrite Hlb. replace (r_start r + _)%nat with (r_end r) by lia. by apply H3.
  - apply (Htext (r :: rest)); [split; by constructor| |done]. constructor; [lia|]. eapply Forall_impl; [exact Hsep|].
    intros x Hx. simpl in Hx. lia.
Qed.

(** The blocks over a prefix: a partition, with a block over every merged range. *)
Lemma blocks_ok all cut target bs : (cut <= length all)%nat -> blocks E all cut target = Ok bs ->
  concat (items <$> bs) = take cut all /\ Forall (fun b => items b <> []) bs /\
  exists ranges, block_ranges E all cut = Ok ranges /\
  forall r, r ∈ ranges -> exists pre b post, bs = pre ++ b :: post /\
    (length (concat (items <$> pre)) <= r_start r)%nat /\ (r_end r <= length (concat (items <$> pre)) + length (items b))%nat /\
    (r_opaque r = true -> sb_opaque b = true) /\ (r_mandatory r = true -> mandatory b = true).
Proof.
  intros Hlen H. unfold blocks in H. apply rbind_Ok in H as (? & _ & H). apply rbind_Ok in H as (owners & _ & H).
  apply rbind_Ok in H as (ranges & Hranges & H). destruct (block_ranges_spec all cut ranges Hlen Hranges) as (Hv & _).
  pose proof (merge_ranges_ok cut ranges Hv) as [Hm Hw].
  apply assemble_ok in H as (H1 & H2 & H3); [|done|lia|lia|done|by apply Forall_forall; intros; lia].
  rewrite drop_0, Nat.sub_0_r in H1. split_and!; [done..|]. exists ranges. split; [done|]. intros r Hr.
  destruct (proj1 (Exists_exists _ _) (Hw r Hr)) as (m & Hin & Ha & Hb & Hc & Hd).
  pose proof (proj1 (Forall_forall _ _) (mo_valid _ _ Hm) m Hin) as Hvm. unfold valid_range in Hvm.
  destruct (H3 m Hin) as (pre & b & post & -> & E1 & E2 & E3 & E4). exists pre, b, post. rewrite E2, E3, E4. simpl in E1.
  split_and!; [done|lia..|done|done].
Qed.

(** The range of a call, among those of the loop. *)
Lemma call_range all cut ranges owners i o c :
  (cut <= length all)%nat -> block_ranges E all cut = Ok ranges -> map_result (output_owner E) all = Ok owners ->
  all !! i = Some o -> (i < cut)%nat -> is_owner_setting (occ_item o) = false -> tool_call (read_json E) (occ_item o) = Ok (Some c) ->
  exists completion r, validated_completion E (occ_origin o) = Ok completion /\ r ∈ ranges /\ r_start r = i /\
    r_opaque r = opaque (occ_item o) /\
    let res := result_after owners (occ_origin o) i in
    let end_ := match res with Some n => S n | None => S i end in
    r_end r = Nat.min end_ cut /\ r_mandatory r = negb completion && (bool_decide (res = None) || (cut <? end_)%nat).
Proof.
  intros Hlen Hr Ho Hi Hc Hs Hcall. destruct (block_ranges_spec all cut ranges Hlen Hr) as (_ & owners' & Ho' & Hin).
  rewrite Ho in Ho'. injection Ho' as <-. destruct (Hin i o Hi Hc) as ([rs pr] & acc'' & H & Hsub).
  unfold ranges_at in H. rewrite Hs, Hcall in H. cbn [rbind] in H. apply rbind_Ok in H as (own & Hown & [= <-]).
  apply rbind_Ok in Hown as (completion & Hcomp & [= <-]). eexists completion, _. split; [done|].
  split; [apply Hsub; cbn [fst]; apply elem_of_app; right; apply elem_of_app; left; apply list_elem_of_here|]. done.
Qed.

Lemma head_omap_first {A B} (f : A -> option B) l x : head (omap f l) = Some x <->
  exists i a, l !! i = Some a /\ f a = Some x /\ forall j b, (j < i)%nat -> l !! j = Some b -> f b = None.
Proof.
  induction l as [|a l IH]; [split; [done|intros (i & ? & ? & _); by destruct i]|]. rewrite omap_cons. split.
  - destruct (f a) eqn:Ea.
    + simpl. intros [= ->]. exists 0%nat, a. split_and!; [done|done|lia].
    + intros H. apply IH in H as (i & b & Hb & Hf & Hlt). exists (S i), b. split_and!; [done|done|].
      intros [|j] y Hj Hy; [by injection Hy as <-|]. apply (Hlt j); [lia|done].
  - intros ([|i] & b & Hb & Hf & Hlt); [injection Hb as ->; by rewrite Hf|].
    rewrite (Hlt 0%nat a) by (done || lia). apply IH. exists i, b. split_and!; [done..|]. intros j y Hj Hy. apply (Hlt (S j)); [lia|done].
Qed.

Lemma result_after_first all owners origin i j :
  map_result (output_owner E) all = Ok owners ->
  result_after owners origin i = Some j <->
  (i < j)%nat /\ (exists q, all !! j = Some q /\ output_owner E q = Ok (Some origin)) /\
  forall k q, (i < k < j)%nat -> all !! k = Some q -> output_owner E q <> Ok (Some origin).
Proof.
  intros Ho. unfold result_after. rewrite head_omap_first. setoid_rewrite list_lookup_imap_Some.
  assert (forall k x, owners !! k = Some x <-> exists q, all !! k = Some q /\ output_owner E q = Ok x) as Hlook.
  { intros k x. apply map_result_Ok in Ho. split.
    - intros Hk. destruct (Forall2_lookup_r _ _ _ _ _ Ho Hk) as (q & ? & ?). eauto.
    - intros (q & Hq & Hx). destruct (Forall2_lookup_l _ _ _ _ _ Ho Hq) as (y & ? & ?). congruence. }
  split.
  - intros (k & [k' x] & (y & Hy & [= -> ->]) & Hf & Hlt). simpl in Hf. destruct (bool_decide _ && _) eqn:Eb; [|done].
    injection Hf as ->. apply andb_true_iff in Eb as [->%bool_decide_eq_true Hij%Nat.ltb_lt]. split_and!; [done|by apply Hlook|].
    intros k q Hk Hq Hown. specialize (Hlt k (k, Some origin) ltac:(lia)). simpl in Hlt. rewrite bool_decide_eq_true_2 in Hlt by done.
    destruct (Nat.ltb_spec i k); [|lia]. assert (Some k = None); [|done]. apply Hlt. exists (Some origin). split; [|done]. apply Hlook. eauto.
  - intros (Hij & Hq & Hlt). exists j, (j, Some origin). split_and!.
    + exists (Some origin). split; [by apply Hlook|done].
    + simpl. rewrite bool_decide_eq_true_2 by done. by destruct (Nat.ltb_spec i j); [|lia].
    + intros k b Hk (y & Hy & ->). simpl. case_bool_decide as Ey; [|done]. destruct (Nat.ltb_spec i k); [|done]. subst y.
      apply Hlook in Hy as (q & Hq' & Hown). exfalso. eapply Hlt; [|exact Hq'|exact Hown]. lia.
Qed.
End partition.

(** The block of [bs] that holds the positions from [i] to [j]. *)
Definition same_block (bs : list StoredBlock) (i j : nat) (P : StoredBlock -> Prop) : Prop :=
  exists pre b post, bs = pre ++ b :: post /\ (length (concat (items <$> pre)) <= i)%nat /\
    (j < length (concat (items <$> pre)) + length (items b))%nat /\ P b.

(** The editable blocks of a prefix partition it: laid end to end, their
    items are the first [cut] occurrences of the history in their order, each
    exactly once, and no block is empty. *)
Theorem blocks_partition (E : HistoryEvidence) all cut target bs :
  (cut <= length all)%nat -> blocks E all cut target = Ok bs ->
  concat (items <$> bs) = take cut all /\ Forall (fun b => items b <> []) bs.
Proof. intros Hlen H. destruct (blocks_ok E all cut target bs Hlen H) as (H1 & H2 & _). by split. Qed.

(** Exchanges are never split: a tool call inside the prefix shares its
    block with its first later result, matched by the issuing occurrence and
    not by the wire call id, whenever that result is inside the prefix too; a
    call whose first result is not inside the prefix sits in a mandatory
    block, unless it is a validated completion; and the block of an opaque
    call is marked opaque. *)
Theorem blocks_keep_exchanges (E : HistoryEvidence) all cut target bs i o c :
  (cut <= length all)%nat -> blocks E all cut target = Ok bs ->
  all !! i = Some o -> (i < cut)%nat -> is_owner_setting (occ_item o) = false -> tool_call (read_json E) (occ_item o) = Ok (Some c) ->
  (forall j q, (i < j < cut)%nat -> all !! j = Some q -> output_owner E q = Ok (Some (occ_origin o)) ->
     (forall k p, (i < k < j)%nat -> all !! k = Some p -> output_owner E p <> Ok (Some (occ_origin o))) ->
     same_block bs i j (fun b => opaque (occ_item o) = true -> sb_opaque b = true)) /\
  ((forall j q, (i < j < cut)%nat -> all !! j = Some q -> output_owner E q <> Ok (Some (occ_origin o))) ->
   validated_completion E (occ_origin o) = Ok false -> same_block bs i i (fun b => mandatory b = true)).
Proof.
  intros Hlen H Hi Hc Hs Hcall. destruct (blocks_ok E all cut target bs Hlen H) as (_ & _ & ranges & Hr & Hblocks).
  unfold blocks in H. apply rbind_Ok in H as (? & _ & H). apply rbind_Ok in H as (owners & Ho & _).
  destruct (call_range E all cut ranges owners i o c Hlen Hr Ho Hi Hc Hs Hcall)
    as (completion & r & Hcomp & Hin & Hstart & Hop & Hend & Hman).
  destruct (Hblocks r Hin) as (pre & b & post & -> & H1 & H2 & H3 & H4). rewrite Hstart in H1. split.
  - intros j q Hj Hq Hown Hfirst. assert (result_after owners (occ_origin o) i = Some j) as Er.
    { apply (result_after_first E all owners (occ_origin o) i j Ho). split_and!; [lia|eauto|exact Hfirst]. }
    rewrite Er in Hend. exists pre, b, post. split_and!; [done|done|lia|]. intros Hopq. apply H3. by rewrite Hop.
  - intros Hnone Hfalse. rewrite Hcomp in Hfalse. injection Hfalse as ->. exists pre, b, post. cbn [negb andb] in Hman.
    destruct (result_after owners (occ_origin o) i) as [j|] eqn:Er.
    + apply (result_after_first E all owners (occ_origin o) i j Ho) in Er as (Hij & (q & Hq & Hown) & _).
      destruct (decide (j < cut)%nat) as [Hjc|Hjc]; [by destruct (Hnone j q ltac:(lia) Hq)|].
      split_and!; [done|done|lia|]. apply H4. rewrite Hman, orb_true_iff. right. apply Nat.ltb_lt. lia.
    + split_and!; [done|done|lia|]. apply H4. by rewrite Hman, bool_decide_eq_true_2.
Qed.

(** ** Witnesses *)

Definition toy_spot (position : Z) (operation : option OperationId) (item : value) : Occurrence :=
  {| occ_request := "r1"; occ_position := position; occ_hash := "h"; occ_item := item; output_operation := operation;
     occ_origin := {| o_request := "r1"; o_position := position; o_hash := "h" |}; occ_sources := []; note := false; overlays := [] |}.

Definition toy_message (text : string) : value :=
  json_object [("type", VString "message"); ("role", VString "user"); ("content", VString text)].

Definition toy_invocation (id : string) : value :=
  json_object [("type", VString "function_call"); ("call_id", VString id); ("name", VString "run"); ("arguments", VString "{}")].

Definition toy_answered : OperationId := {| origin := Standalone "s" "a"; op_request := "r1"; call := "c" |}.

Definition toy_result : Occurrence :=
  toy_spot 3 (Some toy_answered) (json_object [("type", VString "function_call_output"); ("call_id", VString "c"); ("output", VString "done")]).

(** A question, a call answered two items later, and the same wire id called again. *)
Definition toy_history : list Occurrence :=
  [toy_spot 0 None (toy_message "question"); toy_spot 1 None (toy_invocation "c"); toy_spot 2 None (toy_message "meanwhile"); toy_result;
   toy_spot 4 None (toy_message "again"); toy_spot 5 None (toy_invocation "c")].

Definition toy_evidence : HistoryEvidence :=
  {| invocation := fun _ => Some (FunctionKind, {| o_request := "r1"; o_position := 1; o_hash := "h" |});
     source_row := fun _ _ => Some toy_result;
     original_call := fun _ => Ok {| o_request := "r1"; o_position := 1; o_hash := "h" |};
     exact_terminal := fun _ => Ok (Some "h");
     validated_completion := fun _ => Ok false;
     response_evidence := ∅;
     reference_of := fun os => String.concat "," (o_request <$> os);
     hash_order := fun os => os;
     read_json := fun _ => Some (json_object []) |}.

Definition toy_blocks : list StoredBlock :=
  Eval vm_compute in match blocks toy_evidence toy_history 6 None with Ok bs => bs | Err _ => [] end.

Lemma toy_blocks_eq : blocks toy_evidence toy_history 6 None = Ok toy_blocks.
Proof. vm_compute. reflexivity. Qed.

Lemma blocks_partition_witness :
  (length <$> (items <$> toy_blocks)) = [1; 3; 1; 1]%nat /\ concat (items <$> toy_blocks) = toy_history.
Proof.
  split; [reflexivity|]. apply (blocks_partition toy_evidence toy_history 6 None); [simpl; lia|exact toy_blocks_eq].
Defined.

Lemma blocks_keep_exchanges_witness :
  same_block toy_blocks 1 3 (fun b => opaque (toy_invocation "c") = true -> sb_opaque b = true) /\
  same_block toy_blocks 5 5 (fun b => mandatory b = true).
Proof.
  split.
  - edestruct (blocks_keep_exchanges toy_evidence toy_history 6 None toy_blocks 1 (toy_spot 1 None (toy_invocation "c"))) as [H _];
      [simpl; lia|exact toy_blocks_eq|reflexivity|lia|reflexivity|reflexivity|].
    apply (H 3%nat toy_result); [lia|reflexivity|vm_compute; reflexivity|].
    intros k p Hk Hp. assert (k = 2%nat) as -> by lia. injection Hp as <-. discriminate.
  - edestruct (blocks_keep_exchanges toy_evidence toy_history 6 None toy_blocks 5 (toy_spot 5 None (toy_invocation "c"))) as [_ H];
      [simpl; lia|exact toy_blocks_eq|reflexivity|lia|reflexivity|reflexivity|].
    apply H; [intros; lia|reflexivity].
Defined.
