(* ===== verification/ContextEdit.v ===== *)
(** The edit of a prefix: [edited_native], [replay_native_selection] and the
    rewriting of an editable document by [commit_context_tx], from
    [store/context.rs].

    A draft lists blocks of a snapshot, blocks of its ancestry, and new notes.
    The Store turns it into occurrences again. The theorems show that only
    overlays change: every occurrence of the result is one that was retained
    or a new note, protected groups survive in their order, a text in the result
    is the one the draft shows, and an unchanged document gives back the prefix. *)

From S2P Require Import Prelude Json Redaction Usage Observation Sse Failure StoreDb Admission Jobs Lists Item ContextPatch ContextText HistoryDb HistoryOps ContextBlocks.

(** [ContextCommitEvidence], the part of it that rewriting reads. *)
Record ContextCommitEvidence := {
  ev_version : Z;
  ev_prefix : list (value * list ContextReference * bool * list ContextTextOverlay);
  ev_prefix_origins : option (list Origin)
}.

Section edit.
Variable E : HistoryEvidence.
#[local] Abbreviation reference := (reference E).

(** ** Editing one native group *)

(** [original.iter().enumerate().find(..)] of a submitted field. *)
Definition find_field (original : list ContextVisibleText) (field : ContextVisibleText) : option (nat * ContextVisibleText) :=
  list_find (fun old => field_reference field = field_reference old /\ field_selector field = field_selector old) original.

Definition find_item (os : list Occurrence) (r : ContextReference) : option (nat * Occurrence) :=
  list_find (fun o => reference [o] = r) os.

Record FieldState := { fs_items : list Occurrence; fs_retained : list nat; fs_previous : option nat }.

Definition edit_field (original : list ContextVisibleText) (s : FieldState) (field : ContextVisibleText) : result ContextFault FieldState :=
  do '(index, old) <- ok_or (find_field original field) NativeEdit;
  refuse match fs_previous s with Some p => (index <=? p)%nat | None => false end
         || negb (Bool.eqb (editable field) (editable old)) || negb (Bool.eqb (removable field) (removable old)) with NativeEdit;
  do os <- (if bool_decide (field_text field = field_text old) then Ok (fs_items s) else
            guard editable old else NativeEdit;
            do '(k, o) <- ok_or (find_item (fs_items s) (field_reference field)) InvalidReference;
            do o' <- set_overlay o (field_selector field) (field_text field);
            Ok (<[k := o']> (fs_items s)));
  Ok {| fs_items := os; fs_retained := fs_retained s ++ [index]; fs_previous := Some index |}.

Definition remove_field (os : list Occurrence) (retained : list nat) (removed : list ContextReference) (x : nat * ContextVisibleText)
    : result ContextFault (list ContextReference) :=
  if bool_decide (x.1 ∈ retained) then Ok removed else
  do '(_, o) <- ok_or (find_item os (field_reference x.2)) InvalidReference;
  refuse negb (removable x.2) || negb (removable_note o) with NativeEdit;
  Ok (removed ++ [field_reference x.2]).

Definition edited_native (stored : StoredBlock) (candidate : ContextBlock) : result ContextFault (list Occurrence) :=
  match block stored, candidate with
  | NativeBlock _ _ old_preview _ original, NativeBlock r kind submitted protected texts =>
      refuse negb (bool_decide (NativeBlock r kind old_preview protected original = block stored)) with NativeEdit;
      do s <- fold_result (edit_field original) {| fs_items := items stored; fs_retained := []; fs_previous := None |} texts;
      do removed <- fold_result (remove_field (fs_items s) (fs_retained s)) [] (imap pair original);
      let os := List.filter (fun o => negb (bool_decide (reference [o] ∈ removed))) (fs_items s) in
      if bool_decide (submitted = old_preview) then Ok os else
      do shown <- preview os;
      guard bool_decide (submitted = shown) else NativeEdit;
      Ok os
  | _, _ => Err NativeEdit
  end.

Definition replay_native_selection (stored : StoredBlock) (evidence : ContextCommitEvidence) : result ContextFault StoredBlock :=
  match block stored with
  | TextBlock _ _ _ _ => Ok stored
  | NativeBlock r kind pv protected texts =>
      if ev_version evidence <? 4 then Ok stored else
      do origins <- ok_or (ev_prefix_origins evidence) UnsupportedState;
      let removed := (fun o => reference [o]) <$>
        List.filter (fun o => removable_note o && negb (bool_decide (occ_origin o ∈ origins))) (items stored) in
      let candidate := NativeBlock r kind pv protected
        (List.filter (fun f => negb (bool_decide (field_reference f ∈ removed))) texts) in
      do os <- edited_native stored candidate;
      Ok {| block := candidate; items := os; sb_opaque := sb_opaque stored; mandatory := mandatory stored |}
  end.

(** ** Rewriting a document *)

(** The identity of a stored block. *)
Definition block_reference (b : ContextBlock) : option ContextReference :=
  match b with TextBlock r _ _ _ => r | NativeBlock r _ _ _ _ => Some r end.

(** The blocks a draft may name: the snapshot's, then each block of the
    ancestry whose identity is new. *)
Definition add_historic (available : list StoredBlock) (b : StoredBlock) : list StoredBlock :=
  match block_reference (block b) with
  | None => available
  | Some r => if existsb (fun a => bool_decide (block_reference (block a) = Some r)) available then available else available ++ [b]
  end.

Definition available_blocks (snapshot historic : list StoredBlock) : list StoredBlock := foldl add_historic snapshot historic.

Definition is_native_of (r : ContextReference) (b : StoredBlock) : Prop :=
  match block b with NativeBlock r' _ _ _ _ => r' = r | TextBlock _ _ _ _ => False end.
Definition is_text_of (r : ContextReference) (b : StoredBlock) : Prop :=
  match block b with TextBlock r' _ _ _ => r' = Some r | NativeBlock _ _ _ _ _ => False end.
#[export] Instance is_native_of_dec r b : Decision (is_native_of r b).
Proof. unfold is_native_of. destruct (block b); apply _. Defined.
#[export] Instance is_text_of_dec r b : Decision (is_text_of r b).
Proof. unfold is_text_of. destruct (block b); apply _. Defined.

Record DraftState := {
  rewritten : list Occurrence;
  seen : list ContextReference;
  last_native : option nat;
  last_historical_native : option nat;
  draft_db : Hdb
}.

#[export] Instance DraftState_eta : Eta DraftState := fun s =>
  {| rewritten := rewritten s; seen := seen s; last_native := last_native s; last_historical_native := last_historical_native s;
     draft_db := draft_db s |}.

Section draft.
Variable item_hash : value -> string.
Variables snapshot available : list StoredBlock.

Definition note_source (source : ContextReference) : bool :=
  existsb (fun b => bool_decide (block_reference (block b) = Some source)) available
  || existsb (fun b => existsb (fun o => bool_decide (source ∈ occ_sources o)) (items b)) available.

(** An occurrence that has no row yet. *)
Definition new_note (hash : string) (item : value) (sources : list ContextReference) : Occurrence :=
  {| occ_request := ""; occ_position := 0; occ_hash := hash; occ_item := item; output_operation := None;
     occ_origin := {| o_request := ""; o_position := 0; o_hash := hash |}; occ_sources := sources; note := true; overlays := [] |}.

Definition note_item (role : ContextRole) (text : string) : value :=
  json_object [("type", VString "message"); ("role", VString (role_text role)); ("content", VString text)].

(** One block of the draft. A text block holds one occurrence, so that
    [stored.items[0]] exists. *)
Definition rewrite_block (s : DraftState) (b : ContextBlock) : result ContextFault DraftState :=
  match b with
  | NativeBlock r _ _ _ _ =>
      do '(index, stored) <- ok_or (list_find (is_native_of r) available) InvalidReference;
      do edited <- edited_native stored b;
      let current := (index <? length snapshot)%nat in
      refuse negb current && mandatory stored with ProtectedGroup;
      refuse bool_decide (r ∈ seen s) with InvalidReference;
      let ordering := if current then last_native s else last_historical_native s in
      refuse match ordering with Some previous => (index <? previous)%nat | None => false end with NativeOrder;
      let s := s <| rewritten ::= (fun os => os ++ edited) |> <| seen ::= cons r |> in
      Ok (if current then s <| last_native := Some index |> else s <| last_historical_native := Some index |>)
  | TextBlock (Some r) role text sources =>
      do '(_, stored) <- ok_or (list_find (is_text_of r) available) InvalidReference;
      refuse bool_decide (r ∈ seen s) with InvalidReference;
      match block stored with
      | TextBlock _ old_role _ old_sources =>
          refuse negb (bool_decide (role = old_role)) || negb (bool_decide (sources = old_sources)) with InvalidReference;
          do o <- ok_or (head (items stored)) InvalidReference;
          do projected <- project_bodies o;
          do o <- (if bool_decide (snd <$> message projected = Some text) then Ok o else set_overlay o (MessageText 0) text);
          Ok (s <| rewritten ::= (fun os => os ++ [o]) |> <| seen ::= cons r |>)
      | NativeBlock _ _ _ _ _ => Err InvalidReference
      end
  | TextBlock None role text sources =>
      guard forallb note_source sources else InvalidReference;
      let item := note_item role text in
      let '(h, db) := put_item item_hash (draft_db s) item in
      Ok (s <| rewritten ::= (fun os => os ++ [new_note h item sources]) |> <| draft_db := db |>)
  end.

(** A protected or opaque group of the snapshot the draft names. *)
Definition group_seen (s : DraftState) (stored : StoredBlock) : bool :=
  negb (mandatory stored || sb_opaque stored)
  || match block stored with NativeBlock r _ _ _ _ => bool_decide (r ∈ seen s) | TextBlock _ _ _ _ => false end.

Definition rewrite_draft (db : Hdb) (document : ContextDocument) : result ContextFault (list Occurrence * Hdb) :=
  do s <- fold_result rewrite_block
            {| rewritten := []; seen := []; last_native := None; last_historical_native := None; draft_db := db |} (doc_blocks document);
  guard forallb (group_seen s) snapshot else ProtectedGroup;
  Ok (rewritten s, draft_db s).
End draft.
End edit.

(** ** What an edit keeps *)

(** The same occurrence under other overlays. *)
Definition overlay_of (o o' : Occurrence) : Prop := o' = o <| overlays := overlays o' |>.

(** What identifies a visible text. *)
Definition field_key (f : ContextVisibleText) : ContextReference * ContextTextSelector := (field_reference f, field_selector f).

Definition same_key (f g : ContextVisibleText) : Prop := field_reference f = field_reference g /\ field_selector f = field_selector g.

Lemma overlay_of_refl o : overlay_of o o.
Proof. by destruct o. Qed.

Lemma overlay_of_trans o1 o2 o3 : overlay_of o1 o2 -> overlay_of o2 o3 -> overlay_of o1 o3.
Proof. unfold overlay_of. intros -> ->. by destruct o1. Qed.

Lemma overlay_of_note o o' : overlay_of o o' -> removable_note o' = removable_note o.
Proof. unfold overlay_of. by intros ->. Qed.

Section kept.
Variable E : HistoryEvidence.
#[local] Abbreviation reference := (reference E).

Lemma overlay_of_reference o o' : overlay_of o o' -> reference [o'] = reference [o].
Proof. unfold overlay_of. by intros ->. Qed.

Lemma overlay_of_origin o o' : overlay_of o o' -> occ_origin o' = occ_origin o.
Proof. unfold overlay_of. by intros ->. Qed.

(** The text an occurrence shows once the fields of a candidate are applied. *)
Definition shown (texts : list ContextVisibleText) (o : Occurrence) (sel : ContextTextSelector) : option string :=
  match list_find (fun f => field_reference f = reference [o] /\ field_selector f = sel) texts with
  | Some (_, f) => Some (field_text f)
  | None => visible_text o sel
  end.

(** A group as [blocks] makes it: its fields show its items, which have
    references of their own and canonical overlays. *)
Record group_ok (os : list Occurrence) (original : list ContextVisibleText) : Prop := {
  group_canonical : Forall canonical os;
  group_distinct : NoDup ((fun o => reference [o]) <$> os);
  group_shown : Forall (fun f => exists o, o ∈ os /\ reference [o] = field_reference f /\
                                   visible_text o (field_selector f) = Some (field_text f)) original
}.

Definition edited_as (texts : list ContextVisibleText) (o o' : Occurrence) : Prop :=
  overlay_of o o' /\ canonical o' /\ forall sel, visible_text o' sel = shown texts o sel.

Lemma find_field_key original f g : same_key f g -> find_field original f = find_field original g.
Proof. unfold find_field. intros [-> ->]. done. Qed.

Lemma shown_snoc texts f o sel :
  Forall (fun g => ~ same_key f g) texts ->
  shown (texts ++ [f]) o sel = if bool_decide (reference [o] = field_reference f /\ sel = field_selector f) then Some (field_text f)
                               else shown texts o sel.
Proof.
  intros Hn. unfold shown. case_bool_decide as H.
  - destruct H as [H ->]. rewrite list_find_app_r; simpl.
    + by rewrite decide_True by done.
    + apply list_find_None. eapply Forall_impl; [exact Hn|]. intros g Hg [E1 E2]. apply Hg. split; congruence.
  - destruct (list_find _ texts) as [[i g]|] eqn:Ef.
    + by rewrite (list_find_app_l _ _ _ _ _ Ef).
    + rewrite list_find_app_r by done. simpl. by rewrite decide_False by naive_solver.
Qed.

(** The state of the loop over the submitted fields. *)
Record fields_ok (os : list Occurrence) (original past : list ContextVisibleText) (s : FieldState) : Prop := {
  fo_edited : Forall2 (edited_as past) os (fs_items s);
  fo_found : Forall2 (fun f i => exists old, find_field original f = Some (i, old) /\ (field_text f = field_text old \/ editable old = true)) past (fs_retained s);
  fo_previous : match fs_previous s with Some p => Forall (fun i => i <= p)%nat (fs_retained s) | None => fs_retained s = [] end
}.

Lemma edited_snoc past f o o' :
  Forall (fun g => ~ same_key f g) past -> edited_as past o o' ->
  (reference [o] = field_reference f -> visible_text o' (field_selector f) = Some (field_text f)) ->
  edited_as (past ++ [f]) o o'.
Proof.
  intros Hn (H1 & H2 & H3) Hf. split_and!; [done..|]. intros sel. rewrite shown_snoc by done. case_bool_decide as E'; [|done].
  destruct E' as [Er ->]. by apply Hf.
Qed.

Lemma edited_overlay past f o o1 o2 :
  Forall (fun g => ~ same_key f g) past -> edited_as past o o1 -> reference [o] = field_reference f ->
  set_overlay o1 (field_selector f) (field_text f) = Ok o2 -> edited_as (past ++ [f]) o o2.
Proof.
  intros Hn (H1 & H2 & H3) Hr Hset. pose proof (overlay_edit o1 (field_selector f) (field_text f) H2) as He.
  destruct (text_body (occ_item o1) (field_selector f)); [|congruence]. destruct He as (o2' & Hs & Hc & Ho & Hv & Hne).
  rewrite Hset in Hs. injection Hs as <-. split_and!; [by eapply overlay_of_trans|done|]. intros sel. rewrite shown_snoc by done.
  case_bool_decide as Eq; [by destruct Eq as [_ ->]|]. rewrite Hne by naive_solver. apply H3.
Qed.

Lemma edit_field_ok os original past s f s' :
  group_ok os original -> fields_ok os original past s -> edit_field E original s f = Ok s' -> fields_ok os original (past ++ [f]) s'.
Proof.
  intros [Hcan Hdist Hshown] [Hed Hfound Hprev] H. unfold edit_field in H. apply rbind_Ok in H as ([index old] & Hf & H).
  apply ok_or_Ok in Hf. destruct (_ || _ || _) eqn:Eg; [done|]. rewrite !orb_false_iff in Eg. destruct Eg as [[Ep _] _].
  apply rbind_Ok in H as (os' & Hos & [= <-]).
  assert (Forall (fun g => ~ same_key f g) past) as Hn.
  { apply Forall_forall. intros g Hg Hk. apply list_elem_of_lookup in Hg as [j Hj].
    destruct (Forall2_lookup_l _ _ _ _ _ Hfound Hj) as (i & Hi & old' & Hf' & _). rewrite <- (find_field_key original f g Hk), Hf in Hf'.
    injection Hf' as <- _. destruct (fs_previous s) as [p|]; [|by rewrite Hprev in Hi]. rewrite Forall_forall in Hprev.
    apply list_elem_of_lookup_2 in Hi. specialize (Hprev _ Hi). apply Nat.leb_gt in Ep. lia. }
  assert (index < length original)%nat as _ by (apply list_find_Some in Hf as [Hl _]; by apply lookup_lt_Some in Hl).
  apply list_find_Some in Hf as Hold. destruct Hold as (Hold & [Hr Hs] & _).
  assert (exists o, o ∈ os /\ reference [o] = field_reference f /\ visible_text o (field_selector f) = Some (field_text old)) as (o0 & Ho0 & Hr0 & Hv0).
  { rewrite Forall_forall in Hshown. destruct (Hshown old) as (o & ? & ? & ?); [by eapply list_elem_of_lookup_2|]. exists o. by rewrite Hr, Hs. }
  assert (forall o, o ∈ os -> reference [o] = field_reference f -> o = o0) as Hu.
  { intros o Ho Hro. eapply (NoDup_fmap_inj (fun o => reference [o])); [exact Hdist|done|done|congruence]. }
  assert (forall o o', o ∈ os -> edited_as past o o' -> reference [o] = field_reference f -> visible_text o' (field_selector f) = Some (field_text old)) as Hv.
  { intros o o' Ho (_ & _ & H3) Hro. rewrite (Hu o Ho Hro), H3 in *. unfold shown. destruct (list_find _ past) as [[i g]|] eqn:Ef; [|done].
    apply list_find_Some in Ef as (Hg & [E1 E2] & _). apply list_elem_of_lookup_2 in Hg. rewrite Forall_forall in Hn.
    destruct (Hn g Hg). split; congruence. }
  assert (field_text f = field_text old \/ editable old = true) as Htext.
  { case_bool_decide; [by left|]. right. by destruct (editable old). }
  split; cbn [fs_items fs_retained fs_previous].
  - case_bool_decide as Et.
    + injection Hos as <-. eapply Forall2_impl_elem; [exact Hed|]. intros o o' Ho He. apply edited_snoc; [done..|]. intros Hro.
      rewrite Et. by eapply Hv.
    + destruct (editable old); [|done]. apply rbind_Ok in Hos as ([k o1] & Hk & Hos). apply ok_or_Ok, list_find_Some in Hk as (Hk & Hrk & _).
      apply rbind_Ok in Hos as (o2 & Hset & [= <-]). destruct (Forall2_lookup_r _ _ _ _ _ Hed Hk) as (o & Hok & He).
      pose proof He as (Hov & _). rewrite (overlay_of_reference _ _ Hov) in Hrk.
      rewrite <- (list_insert_id os k o Hok). apply Forall2_insert'; [|by eapply Forall2_length|by eapply edited_overlay].
      intros j p p' Hj Hp Hp'. apply edited_snoc; [done|by eapply Forall2_lookup_lr|]. intros Hrp. exfalso. apply Hj.
      apply (NoDup_lookup ((fun o => reference [o]) <$> os) j k (field_reference f) Hdist); rewrite list_lookup_fmap, ?Hp, ?Hok; simpl; congruence.
  - apply Forall2_app; [done|]. repeat constructor. exists old. by split.
  - apply Forall_app. split; [|by repeat constructor]. destruct (fs_previous s) as [p|]; [|by rewrite Hprev].
    eapply Forall_impl; [exact Hprev|]. apply Nat.leb_gt in Ep. simpl. intros; lia.
Qed.

(** A field of the group that a candidate leaves out. *)
Definition omitted (texts : list ContextVisibleText) (f : ContextVisibleText) : bool :=
  negb (existsb (fun g => bool_decide (field_reference g = field_reference f /\ field_selector g = field_selector f)) texts).

Definition dropped (original texts : list ContextVisibleText) (o : Occurrence) : bool :=
  existsb (fun f => bool_decide (field_reference f = reference [o]) && omitted texts f) original.

Lemma remove_fields_ok os retained original removed :
  fold_result (remove_field E os retained) [] (imap pair original) = Ok removed ->
  forall r, r ∈ removed <-> exists i f, original !! i = Some f /\ i ∉ retained /\ field_reference f = r.
Proof.
  intros H. pose (I := fun (past : list (nat * ContextVisibleText)) (removed : list ContextReference) => forall r, r ∈ removed <-> exists i f, (i, f) ∈ past /\ i ∉ retained /\ field_reference f = r).
  assert (I (imap pair original) removed) as HI.
  { refine (fold_result_inv _ I _ _ [] [] removed _ H); unfold I; [|set_solver].
    intros past acc [i f] acc' HI Hf r. unfold remove_field in Hf. simpl in Hf. case_bool_decide as Hi.
    - injection Hf as <-. rewrite HI. setoid_rewrite elem_of_app. setoid_rewrite list_elem_of_singleton. naive_solver.
    - apply rbind_Ok in Hf as ([k o] & _ & Hf). destruct (_ || _); [done|]. injection Hf as <-. rewrite elem_of_app, HI.
      setoid_rewrite elem_of_app. setoid_rewrite list_elem_of_singleton. naive_solver. }
  intros r. rewrite (HI r). setoid_rewrite elem_of_lookup_imap. naive_solver.
Qed.

Lemma removed_notes os retained original removed :
  fold_result (remove_field E os retained) [] (imap pair original) = Ok removed ->
  forall r, r ∈ removed -> exists o, o ∈ os /\ reference [o] = r /\ removable_note o = true.
Proof.
  intros H. refine (fold_result_inv _ (fun _ (removed : list ContextReference) => forall r, r ∈ removed -> exists o, o ∈ os /\ reference [o] = r /\ removable_note o = true)
    _ _ [] [] removed _ H); [|set_solver].
  intros past acc [i f] acc' HI Hf. unfold remove_field in Hf. simpl in Hf. case_bool_decide; [by injection Hf as <-|].
  apply rbind_Ok in Hf as ([k o] & Hk & Hf). destruct (_ || _) eqn:Eg; [done|]. apply orb_false_iff in Eg as [_ Eg%negb_false_iff].
  injection Hf as <-. apply ok_or_Ok, list_find_Some in Hk as (Hk & Hr & _). intros r [Hin| ->%list_elem_of_singleton]%elem_of_app; [by apply HI|].
  exists o. split_and!; [by eapply list_elem_of_lookup_2|done..].
Qed.

(** An accepted edit of a native group. *)
Lemma edited_native_ok stored r kind pv protected texts os r0 k0 p0 b0 original :
  block stored = NativeBlock r0 k0 p0 b0 original -> group_ok (items stored) original -> NoDup (field_key <$> original) ->
  edited_native E stored (NativeBlock r kind pv protected texts) = Ok os ->
  r = r0 /\ Forall2 (edited_as texts) (List.filter (fun o => negb (dropped original texts o)) (items stored)) os /\
  (forall o, o ∈ items stored -> dropped original texts o = true -> removable_note o = true) /\
  (forall f, f ∈ texts -> exists old, old ∈ original /\ same_key f old /\ (field_text f = field_text old \/ editable old = true)).
Proof.
  intros Hb Hok Hnd H. unfold edited_native in H. rewrite Hb in H. case_bool_decide as Eq; [|done]. injection Eq as -> -> ->. cbn [negb] in H.
  apply rbind_Ok in H as (s & Hs & H). apply rbind_Ok in H as (removed & Hrem & H).
  assert (fields_ok (items stored) original texts s) as [Hed Hfound _].
  { refine (fold_result_inv _ (fields_ok (items stored) original) _ _ [] _ s _ Hs); [intros past acc x acc' HI Hx; by eapply edit_field_ok|].
    split; [|constructor|done]. destruct Hok as [Hcan _ _]. apply Forall_Forall2_diag. eapply Forall_impl; [exact Hcan|].
    intros o Ho. split_and!; [apply overlay_of_refl|done|done]. }
  assert (os = List.filter (fun o => negb (bool_decide (reference [o] ∈ removed))) (fs_items s)) as ->.
  { case_bool_decide; [by injection H as <-|]. apply rbind_Ok in H as (sh & _ & H). case_bool_decide; [|done]. by injection H as <-. }
  pose proof (remove_fields_ok _ _ _ _ Hrem) as Hr. pose proof (removed_notes _ _ _ _ Hrem) as Hn.
  assert (forall i f, original !! i = Some f -> i ∉ fs_retained s <-> omitted texts f = true) as Hom.
  { intros i f Hi. unfold omitted. rewrite negb_true_iff, existsb_false. split.
    - intros Hni g Hg. apply bool_decide_eq_false_2. intros [E1 E2]. apply Hni. apply list_elem_of_lookup in Hg as [j Hj].
      destruct (Forall2_lookup_l _ _ _ _ _ Hfound Hj) as (i' & Hi' & old & Hf & _). apply list_find_Some in Hf as (Hold & [K1 K2] & _).
      assert (i' = i) as ->; [|by eapply list_elem_of_lookup_2]. apply (NoDup_lookup _ i' i (field_reference f, field_selector f) Hnd);
        rewrite list_lookup_fmap, ?Hold, ?Hi; unfold field_key; simpl; congruence.
    - intros Hall Hin. apply list_elem_of_lookup in Hin as [j Hj]. destruct (Forall2_lookup_r _ _ _ _ _ Hfound Hj) as (g & Hg & old & Hf & _).
      apply list_find_Some in Hf as (Hold & [K1 K2] & _). rewrite Hi in Hold. injection Hold as <-.
      specialize (Hall g (list_elem_of_lookup_2 _ _ _ Hg)). apply bool_decide_eq_false in Hall. naive_solver. }
  assert (forall o, dropped original texts o = bool_decide (reference [o] ∈ removed)) as Hdrop.
  { intros o. apply eq_bool_prop_intro. rewrite !Is_true_true, bool_decide_eq_true, Hr. unfold dropped. rewrite existsb_exists.
    setoid_rewrite <- list_elem_of_In. setoid_rewrite andb_true_iff. setoid_rewrite bool_decide_eq_true. split.
    - intros (f & Hf & Er & Ho). apply list_elem_of_lookup in Hf as [i Hi]. exists i, f. split_and!; [done| |done]. by apply (Hom i f).
    - intros (i & f & Hi & Ho & Er). exists f. split_and!; [by eapply list_elem_of_lookup_2|done|]. by apply (Hom i f). }
  split_and!; [done| | |].
  - eapply Forall2_filter; [|exact Hed]. intros o o' (Hov & _). by rewrite Hdrop, (overlay_of_reference _ _ Hov).
  - intros o Ho Hd. rewrite Hdrop in Hd. apply bool_decide_eq_true, Hn in Hd as (o' & Ho' & Er & Hnote).
    apply list_elem_of_lookup in Ho' as [j Hj]. destruct (Forall2_lookup_r _ _ _ _ _ Hed Hj) as (o1 & Ho1 & Hov & _).
    rewrite (overlay_of_reference _ _ Hov) in Er. rewrite (overlay_of_note _ _ Hov) in Hnote.
    assert (o = o1) as ->; [|done]. destruct Hok as [_ Hdist _]. eapply (NoDup_fmap_inj (fun o => reference [o])); [exact Hdist|done| |done].
    by eapply list_elem_of_lookup_2.
  - intros f Hf. apply list_elem_of_lookup in Hf as [j Hj]. destruct (Forall2_lookup_l _ _ _ _ _ Hfound Hj) as (i & _ & old & Hfind & Ht).
    apply list_find_Some in Hfind as (Hold & Hk & _). exists old. split_and!; [by eapply list_elem_of_lookup_2|done|done].
Qed.

(** ** The fields of a block *)

Lemma part_range_NoDup n : NoDup (part_range n).
Proof.
  unfold part_range. apply NoDup_omap; [|apply NoDup_seq]. intros i j x. destruct (_ <=? _), (_ <=? _); try done.
  intros [= <-] [= H%Nat2N.inj]. done.
Qed.

Lemma text_selectors_NoDup item : NoDup (text_selectors item).
Proof.
  assert (forall (f : N -> ContextTextSelector) n, Inj eq eq f -> NoDup (f <$> part_range n)) as Hparts.
  { intros f n Hf. by apply NoDup_fmap_2, part_range_NoDup. }
  unfold text_selectors. destruct (as_str (vidx item "type")) as [t|]; [|constructor]. case_bool_decide; [|case_bool_decide; [|case_bool_decide; [|constructor]]].
  - destruct (vidx item "content"); try constructor; [set_solver|constructor|apply Hparts; by intros ?? [=]].
  - apply NoDup_singleton.
  - destruct (as_array _); [apply Hparts; by intros ?? [=]|constructor].
Qed.

Lemma item_fields owners editable_ o projected sels fs :
  map_result (visible_field E owners editable_ o projected) sels = Ok fs ->
  (field_key <$> omap id fs) `sublist_of` (pair (reference [o]) <$> sels) /\
  Forall (fun f => field_reference f = reference [o] /\ text_body projected (field_selector f) = Some (field_text f)) (omap id fs).
Proof.
  intros H. apply map_result_Ok in H. induction H as [|sel x sels fs Hx _ [IH1 IH2]]; [split; constructor|]. unfold visible_field in Hx.
  destruct (text_body projected sel) as [t|] eqn:Et; [|injection Hx as <-; simpl; split; [by constructor|done]].
  apply rbind_Ok in Hx as (e & _ & [= <-]). simpl. split; [by apply sublist_skip|by constructor].
Qed.

Lemma visible_texts_ok owners editable_ os texts :
  visible_texts E owners editable_ os = Ok texts -> NoDup ((fun o => reference [o]) <$> os) -> NoDup (field_key <$> texts) /\
  (Forall canonical os -> Forall (fun f => exists o, o ∈ os /\ reference [o] = field_reference f /\
                                     visible_text o (field_selector f) = Some (field_text f)) texts) /\
  Forall (fun f => exists o, o ∈ os /\ reference [o] = field_reference f) texts.
Proof.
  unfold visible_texts. intros H. apply rbind_Ok in H as (fields & Hf & [= <-]). apply map_result_Ok in Hf.
  induction Hf as [|o fs os fields Ho _ IH]; intros Hnd; [split_and!; constructor|]. rewrite fmap_cons, NoDup_cons in Hnd. destruct Hnd as [Hno Hnd].
  destruct (IH Hnd) as (IH1 & IH2 & IH3). apply rbind_Ok in Ho as (projected & Hp & Ho). apply rbind_Ok in Ho as (fs' & Hfs & [= <-]).
  destruct (item_fields _ _ _ _ _ _ Hfs) as [Hsub Hall]. simpl concat. rewrite fmap_app, !Forall_app. split_and!.
  - apply NoDup_app. split_and!; [|intros k Hk Hk'|done].
    + eapply sublist_NoDup; [|exact Hsub]. apply NoDup_fmap_2; [by intros ?? [=]|apply text_selectors_NoDup].
    + apply list_elem_of_fmap in Hk as (f & -> & Hf). apply list_elem_of_fmap in Hk' as (g & Hkey & Hg).
      rewrite Forall_forall in Hall, IH3. destruct (Hall f Hf) as [Hr _]. destruct (IH3 g Hg) as (o' & Ho' & Hr').
      injection Hkey as Hk1 _. apply Hno. apply list_elem_of_fmap. exists o'. split; [congruence|done].
  - intros [Hc Hcs]%Forall_cons. split.
    + eapply Forall_impl; [exact Hall|]. intros f [Hr Ht]. exists o. split_and!; [set_solver|done|].
      destruct (project_bodies_visible o (canonical_apply o Hc)) as (item & Hi & Hv). rewrite Hp in Hi. injection Hi as <-. by rewrite <- Hv.
    + eapply Forall_impl; [exact (IH2 Hcs)|]. set_solver.
  - eapply Forall_impl; [exact Hall|]. intros f [Hr _]. exists o. split; [set_solver|done].
  - eapply Forall_impl; [exact IH3|]. set_solver.
Qed.

(** A block as [blocks] makes it. *)
Definition made (b : StoredBlock) : Prop :=
  (exists owners editable_ r, native_block E owners editable_ (items b) r = Ok b) \/ (exists o, text_block E o = Ok b).

Lemma assemble_made owners editable_ all cut : forall fuel index ranges bs,
  assemble E owners editable_ all cut fuel index ranges = Ok bs -> Forall made bs.
Proof.
  induction fuel as [|fuel IH]; intros index ranges bs H; cbn [assemble] in H; [by injection H as <-|].
  destruct (_ <=? _)%nat; [by injection H as <-|].
  assert (forall n, (do o <- ok_or (all !! index) InvalidReference; do b <- text_block E o; do bs <- assemble E owners editable_ all cut fuel n ranges; Ok (b :: bs)) = Ok bs ->
    Forall made bs) as Htext.
  { intros n Ht. apply rbind_Ok in Ht as (o & _ & Ht). apply rbind_Ok in Ht as (b & Hb & Ht). apply rbind_Ok in Ht as (bs' & Hbs & [= <-]).
    constructor; [right; by exists o|by eapply IH]. }
  destruct ranges as [|r rest]; [by eapply Htext|]. destruct (_ =? _)%nat; [|by eapply Htext].
  apply rbind_Ok in H as (b & Hb & H). apply rbind_Ok in H as (bs' & Hbs & [= <-]). constructor; [|by eapply IH]. left. exists owners, editable_, r.
  pose proof Hb as Hi. unfold native_block in Hi. apply rbind_Ok in Hi as (tx & _ & Hi). apply rbind_Ok in Hi as (pv & _ & Hi). by injection Hi as <-.
Qed.

Lemma blocks_made all cut target bs : blocks E all cut target = Ok bs -> Forall made bs.
Proof.
  unfold blocks. intros H. repeat (apply rbind_Ok in H as (? & _ & H)). by eapply assemble_made.
Qed.

(** A stored block whose fields show its items. *)
Definition stored_ok (b : StoredBlock) : Prop :=
  match block b with
  | NativeBlock _ _ _ _ original => group_ok (items b) original /\ NoDup (field_key <$> original)
  | TextBlock _ _ _ _ => exists o, items b = [o] /\ canonical o
  end.

Lemma made_ok b : made b -> Forall canonical (items b) -> NoDup ((fun o => reference [o]) <$> items b) -> stored_ok b.
Proof.
  unfold stored_ok. intros [(owners & editable_ & r & H)|[o H]] Hc Hnd.
  - unfold native_block in H. apply rbind_Ok in H as (texts & Ht & H). apply rbind_Ok in H as (pv & _ & H). destruct b as [bl os op ma].
    simpl in *. injection H as <- _ _. destruct (visible_texts_ok _ _ _ _ Ht Hnd) as (H1 & H2 & _). split; [|done]. split; [done..|by apply H2].
  - unfold text_block in H. apply rbind_Ok in H as (p & _ & H). apply rbind_Ok in H as ([role text] & _ & [= <-]). simpl in *.
    exists o. split; [done|]. by apply Forall_cons in Hc as [? _].
Qed.

Lemma blocks_stored_ok all cut target bs :
  (cut <= length all)%nat -> blocks E all cut target = Ok bs -> Forall canonical (take cut all) ->
  NoDup ((fun o => reference [o]) <$> take cut all) -> Forall stored_ok bs.
Proof.
  intros Hlen H Hc Hnd. destruct (blocks_ok E all cut target bs Hlen H) as (Hcat & _). pose proof (blocks_made _ _ _ _ H) as Hm.
  rewrite <- Hcat in Hc, Hnd. clear -Hc Hnd Hm. induction Hm as [|b bs Hb _ IH]; [constructor|]. simpl in Hc, Hnd. rewrite Forall_app in Hc.
  rewrite fmap_app, NoDup_app in Hnd. destruct Hc as [H1 H2], Hnd as (N1 & _ & N2). constructor; [by apply made_ok|by apply IH].
Qed.

(** ** The blocks a draft may name *)

Lemma available_app snapshot historic : exists rest, available_blocks snapshot historic = snapshot ++ rest /\ Forall (fun b => b ∈ historic) rest.
Proof.
  unfold available_blocks. revert snapshot. induction historic as [|b historic IH]; intros snapshot; simpl; [exists []; by rewrite app_nil_r|].
  assert (forall rest, Forall (fun b => b ∈ historic) rest -> Forall (fun b' => b' ∈ b :: historic) rest) as Hup.
  { intros rest H. eapply Forall_impl; [exact H|]. set_solver. }
  unfold add_historic at 2. destruct (block_reference (block b)) as [r|].
  - destruct (existsb _ snapshot).
    + destruct (IH snapshot) as (rest & -> & Hr). exists rest. auto.
    + destruct (IH (snapshot ++ [b])) as (rest & -> & Hr). exists (b :: rest). rewrite <- app_assoc. split; [done|]. constructor; [set_solver|auto].
  - destruct (IH snapshot) as (rest & -> & Hr). exists rest. auto.
Qed.

Definition references (bs : list StoredBlock) : list ContextReference := omap (fun b => block_reference (block b)) bs.

Lemma available_distinct snapshot historic : NoDup (references snapshot) -> NoDup (references (available_blocks snapshot historic)).
Proof.
  unfold available_blocks. revert snapshot. induction historic as [|b historic IH]; intros snapshot Hnd; simpl; [done|]. apply IH.
  unfold add_historic. destruct (block_reference (block b)) as [r|] eqn:Er; [|done]. destruct (existsb _ snapshot) eqn:Ex; [done|].
  unfold references. rewrite omap_app. simpl. rewrite Er. apply NoDup_snoc. split; [done|]. intros (b' & Hb' & Hr)%list_elem_of_omap.
  rewrite existsb_false in Ex. specialize (Ex b' Hb'). by rewrite bool_decide_eq_true_2 in Ex.
Qed.

(** The block of a reference is the only one. *)
Lemma reference_unique bs i j b b' r :
  NoDup (references bs) -> bs !! i = Some b -> bs !! j = Some b' -> block_reference (block b) = Some r -> block_reference (block b') = Some r -> i = j.
Proof.
  intros Hnd Hi Hj Hb Hb'. unfold references in Hnd. revert i j Hi Hj. induction bs as [|x bs IH]; intros i j Hi Hj; [done|].
  simpl in Hnd. destruct i as [|i], j as [|j]; simpl in *; [done| | |].
  - injection Hi as ->. rewrite Hb in Hnd. apply NoDup_cons in Hnd as [Hn _]. destruct Hn. apply list_elem_of_omap. exists b'. split; [|done].
    by eapply list_elem_of_lookup_2.
  - injection Hj as ->. rewrite Hb' in Hnd. apply NoDup_cons in Hnd as [Hn _]. destruct Hn. apply list_elem_of_omap. exists b. split; [|done].
    by eapply list_elem_of_lookup_2.
  - f_equal. apply IH; [|done..]. destruct (block_reference (block x)); [by apply NoDup_cons in Hnd as [_ ?]|done].
Qed.

Lemma native_reference r b : is_native_of r b -> block_reference (block b) = Some r.
Proof. unfold is_native_of. destruct (block b); [done|]. by intros ->. Qed.

Lemma text_reference r b : is_text_of r b -> block_reference (block b) = Some r.
Proof. unfold is_text_of. by destruct (block b). Qed.

Lemma message_visible o item role text :
  canonical o -> project_bodies o = Ok item -> message item = Some (role, text) -> visible_text o (MessageText 0) = Some text.
Proof.
  intros Hc Hp Hm. destruct (project_bodies_visible o (canonical_apply o Hc)) as (item' & Hi & Hv). rewrite Hp in Hi. injection Hi as <-.
  rewrite <- Hv. unfold message in Hm. unfold text_body. destruct (negb (veq_str _ _)) eqn:Et; [done|]. cbn [orb].
  destruct (as_str (vidx item "role") ≫= role_parse) as [role'|] eqn:Er; [|done].
  assert (role_in item ["user"; "assistant"] = true) as ->.
  { unfold role_in. destruct (as_str (vidx item "role")) as [t|]; [|done]. simpl in Er. apply bool_decide_eq_true_2. unfold role_parse in Er.
    repeat destruct (decide _); set_solver. }
  cbn [negb]. destruct (vidx item "content") as [| | |t|parts|]; try done.
  - simpl. congruence.
  - destruct parts as [|part [|]]; [done| |done]. simpl. unfold part_text. destruct (type_in part _); [|done].
    destruct (as_str (vidx part "text")); [|done]. simpl in Hm. congruence.
Qed.
End kept.
