(* ===== verification/ContextDraft.v ===== *)
(** What the commit of a draft keeps: the theorems about [rewrite_draft].

    An accepted draft only places retained occurrences under new overlays and
    new notes; protected and opaque groups of the snapshot stay, in order; and
    the unchanged document of a snapshot gives back its prefix. *)

From S2P Require Import Prelude Json Redaction Usage Observation Sse Failure StoreDb Admission Jobs Lists Item ContextPatch ContextText HistoryDb HistoryOps ContextBlocks ContextEdit.

Section draft.
Variable E : HistoryEvidence.
Variable item_hash : value -> string.
Variables snapshot available rest : list StoredBlock.
Hypothesis Havailable : available = snapshot ++ rest.
#[local] Abbreviation reference := (reference E).

(** The occurrences a block of an accepted draft stands for. *)
Inductive shows : ContextBlock -> list Occurrence -> Prop :=
| shows_native r kind pv protected texts stored k0 p0 b0 original part :
    stored ∈ available -> block stored = NativeBlock r k0 p0 b0 original ->
    Forall2 (edited_as E texts) (List.filter (fun o => negb (dropped E original texts o)) (items stored)) part ->
    (forall o, o ∈ items stored -> dropped E original texts o = true -> removable_note o = true) ->
    (forall f, f ∈ texts -> exists old, old ∈ original /\ same_key f old /\ (field_text f = field_text old \/ editable old = true)) ->
    shows (NativeBlock r kind pv protected texts) part
| shows_text r role text sources stored o o' :
    stored ∈ available -> is_text_of r stored -> items stored = [o] -> overlay_of o o' -> canonical o' ->
    visible_text o' (MessageText 0) = Some text -> shows (TextBlock (Some r) role text sources) [o']
| shows_note role text sources :
    Forall (fun source => note_source available source = true) sources ->
    shows (TextBlock None role text sources) [new_note (item_hash (note_item role text)) (note_item role text) sources].

(** The origins a group keeps whatever is removed from it. *)
Definition lasting (b : StoredBlock) : list Origin := occ_origin <$> List.filter (fun o => negb (removable_note o)) (items b).

Definition lasting_at (i : nat) : list Origin := match snapshot !! i with Some b => lasting b | None => [] end.

(** The groups of the snapshot that a draft may not leave out. *)
Definition protected_origins : list Origin := snapshot ≫= fun b => if mandatory b || sb_opaque b then lasting b else [].

Record draft_ok (past : list ContextBlock) (placed : list nat) (s : DraftState) : Prop := {
  do_parts : exists parts, rewritten s = concat parts /\ Forall2 shows past parts;
  do_sorted : StronglySorted lt placed;
  do_last : match last_native s with Some p => Forall (fun i => i <= p)%nat placed | None => placed = [] end;
  do_lasting : (placed ≫= lasting_at) `sublist_of` (occ_origin <$> rewritten s);
  do_inside : Forall (fun i => i < length snapshot)%nat placed;
  do_placed : Forall (fun i => exists b r, snapshot !! i = Some b /\ is_native_of r b /\ r ∈ seen s) placed;
  do_seen : Forall (fun r => (exists i b, list_find (is_native_of r) available = Some (i, b) /\ ((i < length snapshot)%nat -> i ∈ placed)) \/
                             (exists b, b ∈ available /\ is_text_of r b)) (seen s)
}.

Hypothesis Hstored : Forall (stored_ok E) available.

Lemma edited_origins texts os os' : Forall2 (edited_as E texts) os os' -> occ_origin <$> os' = occ_origin <$> os.
Proof. induction 1 as [|o o' os os' (Ho & _) _ IH]; [done|]. rewrite !fmap_cons, IH. by rewrite (overlay_of_origin _ _ Ho). Qed.

(** What one native block of the draft does. *)
Lemma native_shows r kind pv protected texts index stored edited :
  list_find (is_native_of r) available = Some (index, stored) ->
  edited_native E stored (NativeBlock r kind pv protected texts) = Ok edited ->
  shows (NativeBlock r kind pv protected texts) edited /\ lasting stored `sublist_of` (occ_origin <$> edited).
Proof.
  intros Hf He. apply list_find_Some in Hf as (Hi & Hn & _). apply list_elem_of_lookup_2 in Hi as Hin.
  rewrite Forall_forall in Hstored. pose proof (Hstored _ Hin) as Hok. unfold stored_ok, is_native_of in *.
  destruct (block stored) as [|r0 k0 p0 b0 original] eqn:Eb; [done|]. subst r0. destruct Hok as [Hg Hk].
  destruct (edited_native_ok E _ _ _ _ _ _ _ _ _ _ _ _ Eb Hg Hk He) as (_ & H1 & H2 & H3). split; [by econstructor|].
  rewrite (edited_origins _ _ _ H1). unfold lasting. apply fmap_sublist, filter_sublist_impl. intros o Ho.
  rewrite !negb_true_iff. intros Hnote. destruct (dropped E original texts o) eqn:Ed; [|done]. by rewrite H2 in Hnote.
Qed.

Lemma text_shows r role text sources index stored o projected o' :
  list_find (is_text_of r) available = Some (index, stored) -> head (items stored) = Some o -> project_bodies o = Ok projected ->
  (if bool_decide (snd <$> message projected = Some text) then Ok o else set_overlay o (MessageText 0) text) = Ok o' ->
  shows (TextBlock (Some r) role text sources) [o'].
Proof.
  intros Hf Ho Hp H. apply list_find_Some in Hf as (Hi & Hn & _). apply list_elem_of_lookup_2 in Hi as Hin.
  rewrite Forall_forall in Hstored. pose proof (Hstored _ Hin) as Hok. unfold stored_ok in Hok. pose proof Hn as Hn'. unfold is_text_of in Hn'.
  destruct (block stored); [|done]. destruct Hok as (o0 & Hitems & Hc). rewrite Hitems in Ho. injection Ho as ->.
  case_bool_decide as Em.
  - injection H as <-. destruct (message projected) as [[role' text']|] eqn:Ems; [|done]. injection Em as ->.
    eapply shows_text; try done; [apply overlay_of_refl|by eapply message_visible].
  - pose proof (overlay_edit o (MessageText 0) text Hc) as He. destruct (text_body (occ_item o) (MessageText 0)); [|congruence].
    destruct He as (o2 & Hs & Hc2 & Ho2 & Hv & _). rewrite H in Hs. injection Hs as <-. by eapply shows_text.
Qed.

Lemma parts_snoc past b os part s :
  (exists parts, rewritten s = concat parts /\ Forall2 shows past parts) -> shows b part -> os = rewritten s ++ part ->
  exists parts, os = concat parts /\ Forall2 shows (past ++ [b]) parts.
Proof.
  intros (parts & Hr & Hp) Hb ->. exists (parts ++ [part]). rewrite Hr, concat_app. simpl. rewrite app_nil_r. split; [done|].
  apply Forall2_app; [done|]. by repeat constructor.
Qed.

Lemma rewrite_block_ok past placed s b s' :
  draft_ok past placed s -> rewrite_block E item_hash snapshot available s b = Ok s' -> exists placed', draft_ok (past ++ [b]) placed' s'.
Proof.
  intros [Hparts Hsort Hlast Hlasting Hin Hplaced Hseen] H. destruct b as [[r|] role text sources|r kind pv protected texts]; cbn [rewrite_block] in H.
  - apply rbind_Ok in H as ([index stored] & Hf & H). apply ok_or_Ok in Hf. case_bool_decide as Hr; [done|].
    destruct (block stored) as [? old_role ? old_sources|] eqn:Eb; [|done]. destruct (_ || _); [done|].
    apply rbind_Ok in H as (o & Ho & H). apply ok_or_Ok in Ho. apply rbind_Ok in H as (projected & Hp & H). apply rbind_Ok in H as (o' & Hset & [= <-]).
    pose proof (text_shows _ role _ sources _ _ _ _ _ Hf Ho Hp Hset) as Hs. exists placed. split; simpl; try done.
    + by eapply parts_snoc.
    + rewrite fmap_app. by apply sublist_inserts_r.
    + eapply Forall_impl; [exact Hplaced|]. intros i (b & r' & ? & ? & ?). exists b, r'. split_and!; [done..|by right].
    + constructor; [|done]. right. apply list_find_Some in Hf as (Hi & Hn & _). exists stored. split; [by eapply list_elem_of_lookup_2|done].
  - destruct (forallb _ sources) eqn:Es; [|done]. injection H as <-. exists placed. split; simpl; try done.
    + eapply parts_snoc; [done| |done]. constructor. apply Forall_forall. intros x Hx. rewrite forallb_forall in Es.
      by apply Es, list_elem_of_In.
    + rewrite fmap_app. by apply sublist_inserts_r.
  - apply rbind_Ok in H as ([index stored] & Hf & H). apply ok_or_Ok in Hf. apply rbind_Ok in H as (edited & He & H).
    destruct (native_shows _ _ _ _ _ _ _ _ Hf He) as [Hs Hl]. destruct (negb _ && _); [done|]. case_bool_decide as Hr; [done|].
    match type of H with (if ?c then _ else _) = _ => destruct c eqn:Eo; [done|] end. injection H as <-.
    apply list_find_Some in Hf as Hst. destruct Hst as (Hi & Hn & _). rewrite Havailable in Hi.
    destruct (Nat.ltb_spec index (length snapshot)) as [Hlt|Hge].
    + rewrite lookup_app_l in Hi by done. assert (index ∉ placed) as Hnew.
      { intros Hp. rewrite Forall_forall in Hplaced. destruct (Hplaced _ Hp) as (b & r' & Hb & Hnr & Hr'). rewrite Hi in Hb. injection Hb as <-.
        apply native_reference in Hn, Hnr. rewrite Hn in Hnr. by injection Hnr as ->. }
      assert (Forall (fun i => i < index)%nat placed) as Hbefore.
      { destruct (last_native s) as [p|]; [|by rewrite Hlast]. apply Nat.ltb_ge in Eo. rewrite Forall_forall in Hlast. apply Forall_forall.
        intros i Hip. specialize (Hlast i Hip). simpl in Hlast. assert (i <> index) by congruence. lia. }
      exists (placed ++ [index]). split; simpl.
      * by eapply parts_snoc.
      * by apply StronglySorted_snoc.
      * apply Forall_snoc. split; [|done]. eapply Forall_impl; [exact Hbefore|]. simpl. lia.
      * rewrite bind_app, fmap_app. apply sublist_app; [done|]. simpl. rewrite app_nil_r. unfold lasting_at. by rewrite Hi.
      * by apply Forall_snoc.
      * apply Forall_snoc. split; [|exists stored, r; split_and!; [done..|by left]]. eapply Forall_impl; [exact Hplaced|].
        intros i (b & r' & ? & ? & ?). exists b, r'. split_and!; [done..|by right].
      * constructor; [left; exists index, stored; split; [done|set_solver]|]. eapply Forall_impl; [exact Hseen|].
        intros r' [(i & b & ? & ?)|?]; [left; exists i, b; split; [done|set_solver]|by right].
    + exists placed. split; simpl; try done.
      * by eapply parts_snoc.
      * rewrite fmap_app. by apply sublist_inserts_r.
      * eapply Forall_impl; [exact Hplaced|]. intros i (b & r' & ? & ? & ?). exists b, r'. split_and!; [done..|by right].
      * constructor; [|done]. left. exists index, stored. split; [done|lia].
Qed.

Lemma rewrite_loop doc db s :
  fold_result (rewrite_block E item_hash snapshot available)
    {| rewritten := []; seen := []; last_native := None; last_historical_native := None; draft_db := db |} doc = Ok s ->
  exists placed, draft_ok doc placed s.
Proof.
  intros H. refine (fold_result_inv _ (fun past s => exists placed, draft_ok past placed s) _ _ [] _ s _ H).
  - intros past acc x acc' [placed HI] Hx. by eapply rewrite_block_ok.
  - exists []. split; simpl; try constructor; try done. exists []. split; [done|constructor].
Qed.

(** Every protected group of the snapshot that was seen was placed. *)
Lemma protected_placed past placed s i b :
  NoDup (references available) -> draft_ok past placed s -> snapshot !! i = Some b -> mandatory b || sb_opaque b = true -> group_seen s b = true -> i ∈ placed.
Proof.
  intros Hnd [_ _ _ _ _ _ Hseen] Hi Hp Hg. unfold group_seen in Hg. rewrite Hp in Hg. cbn [negb orb] in Hg. destruct (block b) as [|r k p q t] eqn:Eb; [done|].
  apply bool_decide_eq_true in Hg. rewrite Forall_forall in Hseen. pose proof (lookup_lt_Some _ _ _ Hi) as Hlt.
  assert (available !! i = Some b) as Ha by (rewrite Havailable; by apply lookup_app_l_Some).
  assert (block_reference (block b) = Some r) as Hr by (by rewrite Eb). destruct (Hseen r Hg) as [(j & b' & Hf & Hj)|(b' & Hb' & Ht)].
  - apply list_find_Some in Hf as (Hj' & Hn%native_reference & _). assert (j = i) as -> by (by eapply reference_unique). by apply Hj.
  - apply list_elem_of_lookup in Hb' as [j Hj]. pose proof (text_reference _ _ Ht) as Hr'. assert (j = i) as -> by (by eapply reference_unique).
    rewrite Ha in Hj. injection Hj as <-. unfold is_text_of in Ht. by rewrite Eb in Ht.
Qed.

Lemma protected_kept past placed s :
  NoDup (references available) -> draft_ok past placed s -> forallb (group_seen s) snapshot = true ->
  protected_origins `sublist_of` (occ_origin <$> rewritten s).
Proof.
  intros Hnd Hok Hall. etrans; [|exact (do_lasting _ _ _ Hok)]. set (h := fun b => if mandatory b || sb_opaque b then lasting b else []).
  pose (at_ i := match snapshot !! i with Some b => h b | None => [] end).
  assert (protected_origins = placed ≫= at_) as ->.
  - unfold protected_origins. fold h. rewrite (bind_positions h snapshot). fold at_.
    rewrite (bind_filter at_ (fun i => bool_decide (i ∈ placed))).
    + f_equal. apply (StronglySorted_ext lt); [lia|lia| |exact (do_sorted _ _ _ Hok)|].
      * eapply sublist_StronglySorted; [apply list_filter_sublist|apply StronglySorted_seq].
      * intros i. rewrite list_elem_of_In, filter_In, <- list_elem_of_In, bool_decide_eq_true, elem_of_seq.
        pose proof (do_inside _ _ _ Hok) as Hin. rewrite Forall_forall in Hin. split; [tauto|]. intros Hi. split; [|done]. specialize (Hin i Hi). lia.
    + intros i Hi. apply bool_decide_eq_false in Hi. unfold at_. destruct (snapshot !! i) as [b|] eqn:Eb; [|done]. unfold h.
      destruct (mandatory b || sb_opaque b) eqn:Ep; [|done]. destruct Hi. eapply protected_placed; try done. rewrite forallb_forall in Hall.
      apply Hall, list_elem_of_In. by eapply list_elem_of_lookup_2.
  - apply bind_sublist. intros i. unfold at_, lasting_at. destruct (snapshot !! i); [|done]. unfold h. destruct (_ || _); [done|apply sublist_nil_l].
Qed.
End draft.

(** C21. A committed draft rewrites no history. Block by block, a native group
    stands for the occurrences it names, each with its item and origin and only
    its overlays changed, showing the texts the draft shows (changed only where
    editable) and every other text as before; an occurrence that is left out was
    a removable note; a text block stands for its occurrence under the new text; a
    block without a reference is a new note of known sources. And every other
    occurrence of the protected and opaque groups of the snapshot is there, in order. *)
Theorem draft_conserves E item_hash all cut target snapshot historic db doc os db' :
  (cut <= length all)%nat -> blocks E all cut target = Ok snapshot -> Forall canonical (take cut all) ->
  NoDup ((fun o => reference E [o]) <$> take cut all) -> NoDup (references snapshot) -> Forall (stored_ok E) historic ->
  rewrite_draft E item_hash snapshot (available_blocks snapshot historic) db doc = Ok (os, db') ->
  (exists parts, os = concat parts /\ Forall2 (shows E item_hash (available_blocks snapshot historic)) (doc_blocks doc) parts) /\
  protected_origins snapshot `sublist_of` (occ_origin <$> os).
Proof.
  intros Hlen Hb Hc Hnd Hrefs Hh H. destruct (available_app snapshot historic) as (rest & Happ & Hrest).
  assert (Forall (stored_ok E) (available_blocks snapshot historic)) as Hstored.
  { rewrite Happ. apply Forall_app. split; [by eapply blocks_stored_ok|]. rewrite Forall_forall in Hrest, Hh. apply Forall_forall. auto. }
  unfold rewrite_draft in H. apply rbind_Ok in H as (s & Hs & H). destruct (forallb _ snapshot) eqn:Eg; [|done]. injection H as <- <-.
  destruct (rewrite_loop E item_hash snapshot _ rest Happ Hstored _ _ _ Hs) as [placed Hok]. split; [exact (do_parts _ _ _ _ _ _ _ Hok)|].
  eapply protected_kept; [exact Happ|by apply available_distinct|exact Hok|done].
Qed.

(** ** Unchanged documents *)

Section unchanged.
Variable E : HistoryEvidence.
Variable item_hash : value -> string.
#[local] Abbreviation reference := (reference E).

Lemma find_own_field original k f : NoDup (field_key <$> original) -> original !! k = Some f -> find_field original f = Some (k, f).
Proof.
  intros Hnd Hk. apply list_find_Some. split_and!; [done..|]. intros j g Hj Hlt [E1 E2].
  assert (j = k) as ->; [|lia]. apply (NoDup_lookup (field_key <$> original) j k (field_key f) Hnd); rewrite list_lookup_fmap, ?Hj, ?Hk; [|done].
  simpl. unfold field_key. congruence.
Qed.

Lemma unchanged_fields original os : NoDup (field_key <$> original) -> forall post pre, original = pre ++ post ->
  exists p, fold_result (edit_field E original)
    {| fs_items := os; fs_retained := seq 0 (length pre); fs_previous := match length pre with O => None | S k => Some k end |} post =
  Ok {| fs_items := os; fs_retained := seq 0 (length original); fs_previous := p |}.
Proof.
  intros Hnd. induction post as [|f post IH]; intros pre Ho; simpl.
  - exists (match length pre with O => None | S k => Some k end). by rewrite Ho, app_nil_r.
  - assert (original !! length pre = Some f) as Hk by (by rewrite Ho, list_lookup_middle). unfold edit_field at 1.
    rewrite (find_own_field _ _ _ Hnd Hk). cbn [ok_or rbind fs_previous].
    assert (match match length pre with O => None | S k => Some k end with Some p => (length pre <=? p)%nat | None => false end = false) as ->.
    { destruct (length pre) eqn:El; [done|]. apply Nat.leb_gt. lia. }
    rewrite !Bool.eqb_reflx. cbn [negb orb]. rewrite bool_decide_eq_true_2 by done. cbn [rbind fs_items fs_retained].
    destruct (IH (pre ++ [f])) as [p Hp]; [by rewrite <- app_assoc|]. exists p. rewrite <- Hp. f_equal. rewrite length_app. simpl.
    rewrite Nat.add_1_r, seq_S. done.
Qed.

Lemma unchanged_native b r k p q original :
  block b = NativeBlock r k p q original -> NoDup (field_key <$> original) -> edited_native E b (block b) = Ok (items b).
Proof.
  intros Hb Hnd. unfold edited_native. rewrite Hb. rewrite bool_decide_eq_true_2 by done. cbn [negb].
  destruct (unchanged_fields original (items b) Hnd original []) as [pv Hf]; [done|]. simpl in Hf. rewrite Hf. cbn [rbind fs_items fs_retained].
  assert (forall l, (forall x, x ∈ l -> x.1 ∈ seq 0 (length original)) -> fold_result (remove_field E (items b) (seq 0 (length original))) [] l = Ok []) as Hrem.
  { induction l as [|x l IH]; intros Hl; [done|]. simpl. unfold remove_field at 1. rewrite bool_decide_eq_true_2 by (apply Hl; set_solver).
    cbn [rbind]. apply IH. set_solver. }
  rewrite Hrem.
  - cbn [rbind]. rewrite bool_decide_eq_true_2 by done. f_equal. apply filter_all. intros o _. by rewrite bool_decide_eq_false_2 by set_solver.
  - intros x (i & f & -> & Hi)%elem_of_lookup_imap. simpl. apply elem_of_seq. apply lookup_lt_Some in Hi. lia.
Qed.

Variables (bs rest : list StoredBlock).
Hypothesis Hmade : Forall (made E) bs.
Hypothesis Hrefs : NoDup (references (bs ++ rest)).
Hypothesis Hitems : NoDup ((fun o => reference [o]) <$> concat (items <$> bs)).

Lemma items_distinct b : b ∈ bs -> NoDup ((fun o => reference [o]) <$> items b).
Proof.
  clear Hmade Hrefs. induction bs as [|x l IH]; [set_solver|]. simpl in Hitems. rewrite fmap_app, NoDup_app in Hitems.
  destruct Hitems as (H1 & _ & H2). intros [->|Hb]%elem_of_cons; [done|by apply IH].
Qed.

Lemma find_own (P : StoredBlock -> Prop) `{!forall b, Decision (P b)} k b r :
  bs !! k = Some b -> P b -> block_reference (block b) = Some r -> (forall b', P b' -> block_reference (block b') = Some r) ->
  list_find P (bs ++ rest) = Some (k, b).
Proof.
  intros Hk HP Hr Hu. assert ((bs ++ rest) !! k = Some b) as Hk' by (by apply lookup_app_l_Some). apply list_find_Some. split_and!; [done..|].
  intros j b' Hj Hlt HP'. assert (j = k) as ->; [|lia]. by eapply reference_unique; eauto.
Qed.

(** One unchanged block puts its own items back. *)
Lemma unchanged_block k b s r :
  bs !! k = Some b -> block_reference (block b) = Some r -> r ∉ seen s -> match last_native s with Some p => (p < k)%nat | None => True end ->
  exists s', rewrite_block E item_hash bs (bs ++ rest) s (block b) = Ok s' /\ rewritten s' = rewritten s ++ items b /\ seen s' = r :: seen s /\
    draft_db s' = draft_db s /\ match last_native s' with Some p => (p < S k)%nat | None => True end.
Proof.
  intros Hk Hr Hs Hlast. pose proof (list_elem_of_lookup_2 _ _ _ Hk) as Hin. pose proof (items_distinct b Hin) as Hd.
  rewrite Forall_forall in Hmade. destruct (Hmade b Hin) as [(owners & ed & rg & H)|[o H]].
  - unfold native_block in H. apply rbind_Ok in H as (texts & Ht & H). apply rbind_Ok in H as (pv & _ & H).
    assert (exists kind p q, block b = NativeBlock r kind p q texts) as (kind & p & q & Hb).
    { apply (f_equal (rmap block)) in H. injection H as H. rewrite <- H in Hr |- *. injection Hr as <-. eauto. }
    destruct (visible_texts_ok E _ _ _ _ Ht Hd) as (Hnd & _). pose proof (unchanged_native b _ _ _ _ _ Hb Hnd) as Hed.
    rewrite Hb in Hed |- *. cbn [rewrite_block].
    rewrite (find_own (is_native_of r) k b r Hk); [|unfold is_native_of; by rewrite Hb|done|apply native_reference]. cbn [ok_or rbind].
    rewrite Hed. cbn [rbind]. pose proof (lookup_lt_Some _ _ _ Hk) as Hlt. rewrite (proj2 (Nat.ltb_lt _ _) Hlt). cbn [negb andb].
    rewrite bool_decide_eq_false_2 by done. assert (match last_native s with Some p => (k <? p)%nat | None => false end = false) as ->.
    { destruct (last_native s); [|done]. apply Nat.ltb_ge. lia. }
    eexists. split; [done|]. simpl. split_and!; try done. lia.
  - unfold text_block in H. apply rbind_Ok in H as (projected & Hp & H). apply rbind_Ok in H as ([role text] & Hm & [= <-]). apply ok_or_Ok in Hm.
    simpl in Hr, Hk. injection Hr as Hr. cbn [block rewrite_block]. rewrite Hr.
    rewrite (find_own (is_text_of r) k _ r Hk); [|unfold is_text_of; simpl; by rewrite Hr|simpl; by rewrite Hr|apply text_reference]. cbn [ok_or rbind block].
    rewrite bool_decide_eq_false_2 by done. rewrite !bool_decide_eq_true_2 by done. cbn [negb orb head items ok_or rbind].
    rewrite Hp. cbn [rbind]. rewrite Hm. rewrite bool_decide_eq_true_2 by done. cbn [rbind]. eexists. split; [done|]. simpl. split_and!; try done.
    destruct (last_native s); [lia|done].
Qed.

Lemma made_reference b : made E b -> exists r, block_reference (block b) = Some r.
Proof.
  intros [(owners & ed & rg & H)|[o H]].
  - unfold native_block in H. apply rbind_Ok in H as (? & _ & H). apply rbind_Ok in H as (? & _ & H). apply (f_equal (rmap block)) in H. injection H as <-. simpl. eauto.
  - unfold text_block in H. apply rbind_Ok in H as (? & _ & H). apply rbind_Ok in H as ([] & _ & [= <-]). simpl. eauto.
Qed.

Lemma made_protected b : made E b -> mandatory b || sb_opaque b = true -> exists r, is_native_of r b.
Proof.
  intros [(owners & ed & rg & H)|[o H]] Hp.
  - unfold native_block in H. apply rbind_Ok in H as (? & _ & H). apply rbind_Ok in H as (? & _ & H). apply (f_equal (rmap block)) in H. injection H as H.
    unfold is_native_of. rewrite <- H. by eexists.
  - unfold text_block in H. apply rbind_Ok in H as (? & _ & H). apply rbind_Ok in H as ([] & _ & [= <-]). done.
Qed.

Lemma unchanged_loop : forall post pre s, bs = pre ++ post -> (forall r, r ∈ seen s <-> r ∈ references pre) ->
  match last_native s with Some p => (p < length pre)%nat | None => True end ->
  exists s', fold_result (rewrite_block E item_hash bs (bs ++ rest)) s (block <$> post) = Ok s' /\
    rewritten s' = rewritten s ++ concat (items <$> post) /\ (forall r, r ∈ seen s' <-> r ∈ references bs) /\ draft_db s' = draft_db s.
Proof.
  induction post as [|b post IH]; intros pre s Hbs Hseen Hlast.
  - exists s. simpl. rewrite app_nil_r in *. subst. done.
  - assert (bs !! length pre = Some b) as Hk by (by rewrite Hbs, list_lookup_middle).
    destruct (made_reference b) as [r Hr]; [rewrite Forall_forall in Hmade; apply Hmade; by eapply list_elem_of_lookup_2|].
    assert (r ∉ seen s) as Hn.
    { rewrite Hseen. intros (b' & Hb' & Hr')%list_elem_of_omap. apply list_elem_of_lookup in Hb' as [j Hj].
      pose proof (lookup_lt_Some _ _ _ Hj). assert (j = length pre); [|lia]. apply (reference_unique (bs ++ rest) j (length pre) b' b r Hrefs); try done.
      - rewrite Hbs, <- app_assoc. by apply lookup_app_l_Some.
      - by apply lookup_app_l_Some. }
    destruct (unchanged_block _ _ s r Hk Hr Hn Hlast) as (s1 & H1 & Hw & Hs & Hdb & Hl).
    destruct (IH (pre ++ [b]) s1) as (s' & H2 & Hw' & Hs' & Hdb').
    + by rewrite <- app_assoc.
    + intros r'. rewrite Hs. unfold references in *. rewrite omap_app. simpl. rewrite Hr, elem_of_app, elem_of_cons, Hseen. set_solver.
    + rewrite length_app. simpl. by rewrite Nat.add_1_r.
    + exists s'. rewrite fmap_cons. cbn [fold_result]. rewrite H1. cbn [rbind]. split_and!; [done| |done|congruence].
      rewrite Hw', Hw, <- app_assoc. done.
Qed.
End unchanged.

(** Committing a document as it was read changes nothing: for the blocks
    of a prefix, whatever its ancestry offers, rewriting their own document succeeds, gives
    back the prefix occurrence for occurrence, and writes no item. *)
Theorem unchanged_draft E item_hash all cut target bs historic db :
  (cut <= length all)%nat -> blocks E all cut target = Ok bs -> NoDup (references bs) ->
  NoDup ((fun o => reference E [o]) <$> take cut all) ->
  rewrite_draft E item_hash bs (available_blocks bs historic) db {| doc_blocks := block <$> bs |} = Ok (take cut all, db).
Proof.
  intros Hlen Hb Hrefs Hnd. destruct (blocks_ok E all cut target bs Hlen Hb) as (Hcat & _). pose proof (blocks_made _ _ _ _ _ Hb) as Hm.
  pose proof (available_distinct bs historic Hrefs) as Hav. destruct (available_app bs historic) as (rest & Happ & _). rewrite Happ in *.
  rewrite <- Hcat in Hnd |- *. unfold rewrite_draft. cbn [doc_blocks].
  destruct (unchanged_loop E item_hash bs rest Hm Hav Hnd bs [] {| rewritten := []; seen := []; last_native := None; last_historical_native := None;
    draft_db := db |}) as (s & Hs & Hw & Hseen & Hdb); [done|done|done|]. rewrite Hs. cbn [rbind].
  assert (forallb (group_seen s) bs = true) as ->; [|by rewrite Hw, Hdb]. apply forallb_forall. intros b Hin%list_elem_of_In. unfold group_seen.
  destruct (mandatory b || sb_opaque b) eqn:Ep; [|done]. rewrite Forall_forall in Hm. destruct (made_protected E b (Hm b Hin) Ep) as [r Hr]. cbn [negb orb].
  pose proof (native_reference _ _ Hr) as Hr'. unfold is_native_of in Hr. destruct (block b) eqn:Eb; [done|]. subst. apply bool_decide_eq_true_2, Hseen.
  apply list_elem_of_omap. exists b. split; [done|]. by rewrite Eb.
Qed.

(** ** Witnesses *)

Definition toy_edit_evidence : HistoryEvidence :=
  {| invocation := invocation toy_evidence; source_row := source_row toy_evidence; original_call := original_call toy_evidence;
     exact_terminal := exact_terminal toy_evidence; validated_completion := validated_completion toy_evidence;
     response_evidence := response_evidence toy_evidence;
     reference_of := fun os => String.concat "," ((fun o => pretty (o_position o)) <$> os);
     hash_order := hash_order toy_evidence; read_json := read_json toy_evidence |}.

Definition toy_snapshot : list StoredBlock :=
  Eval vm_compute in match blocks toy_edit_evidence toy_history 6 None with Ok bs => bs | Err _ => [] end.

(** The question reworded, the result of the exchange edited, the second
    question left out, and a note added. *)
Definition toy_reworded (b : ContextBlock) : list ContextBlock :=
  match b with
  | TextBlock r role text sources => if bool_decide (text = "again") then [] else [TextBlock r role "reworded" sources]
  | NativeBlock r k p q texts =>
      [NativeBlock r k p q ((fun f => if bool_decide (field_selector f = ToolResultText) && editable f then f <| field_text := "edited" |> else f) <$> texts)]
  end.

Definition toy_draft : ContextDocument :=
  {| doc_blocks := ((block <$> toy_snapshot) ≫= toy_reworded) ++ [TextBlock None RoleAssistant "remember" []] |}.

Definition toy_rewritten : list Occurrence :=
  Eval vm_compute in
    match rewrite_draft toy_edit_evidence (fun _ => "n") toy_snapshot (available_blocks toy_snapshot []) Hdb_empty toy_draft with
    | Ok (os, _) => os
    | Err _ => []
    end.

Lemma toy_snapshot_eq : blocks toy_edit_evidence toy_history 6 None = Ok toy_snapshot.
Proof. vm_compute. reflexivity. Qed.

Lemma toy_all_canonical : Forall canonical (take 6 toy_history).
Proof. repeat constructor. Qed.

Lemma draft_conserves_witness :
  (length toy_rewritten, length (List.filter note toy_rewritten)) = (6, 1)%nat /\
  protected_origins toy_snapshot = [{| o_request := "r1"; o_position := 5; o_hash := "h" |}] /\
  protected_origins toy_snapshot `sublist_of` (occ_origin <$> toy_rewritten).
Proof.
  split; [vm_compute; reflexivity|]. split; [vm_compute; reflexivity|].
  eapply (draft_conserves toy_edit_evidence (fun _ => "n") toy_history 6 None toy_snapshot [] Hdb_empty toy_draft toy_rewritten).
  - simpl. lia.
  - exact toy_snapshot_eq.
  - exact toy_all_canonical.
  - by_decide.
  - by_decide.
  - constructor.
  - vm_compute. reflexivity.
Defined.

Lemma unchanged_draft_witness :
  rewrite_draft toy_edit_evidence (fun _ => "n") toy_snapshot (available_blocks toy_snapshot []) Hdb_empty {| doc_blocks := block <$> toy_snapshot |} =
  Ok (toy_history, Hdb_empty).
Proof.
  apply (unchanged_draft toy_edit_evidence (fun _ => "n") toy_history 6 None toy_snapshot [] Hdb_empty); [simpl; lia|exact toy_snapshot_eq|by_decide|by_decide].
Defined.
