(* ===== verification/Finalize.v ===== *)
(** Typed final replies: [finalize.rs] over the schema crate.

    A reply contract is a tool whose only argument is [result]. The parser
    accepts one completed call of it. The theorems show that a tool built from
    any admitted contract accepts exactly the calls whose reply meets the
    contract, and that a parser accepts the first such call and nothing after it. *)

From S2P Require Import Prelude Json SchemaModel SchemaNormal.

Definition FINALIZE_TOOL_NAME : string := "finalize".

Inductive FinalizeError :=
| WrongTool
| AlreadyFinalized
| MalformedArguments (error : string)
| InvalidEnvelope
| SerializeResult (error : string)
| FinalizeUnsupported (path keyword : string)
| FinalizeUnsatisfiable (path : string)
| FinalizeAmbiguous (path : string)
| ResultSchemaMismatch (path : string).

(** [From<SchemaError>]. *)
Definition finalize_error (e : SchemaError) : FinalizeError :=
  match e with
  | UnsupportedSchema path keyword => FinalizeUnsupported path keyword
  | UnsatisfiableSchema path => FinalizeUnsatisfiable path
  | AmbiguousArguments path => FinalizeAmbiguous path
  | ValueSchemaMismatch path => ResultSchemaMismatch path
  end.

Definition normalize_result (schema : value) (path : string) : result FinalizeError value :=
  map_err finalize_error (normalize_schema schema path).

Definition validate_parameters (schema : value) : result FinalizeError unit :=
  map_err finalize_error (validate_function_parameters schema).

Definition validate_result (v schema : value) (path : string) : result FinalizeError unit :=
  map_err finalize_error (validate_value v schema path).

Definition finalize_tool (result_schema : value) : value :=
  json_object
    [("type", VString "function"); ("name", VString FINALIZE_TOOL_NAME); ("description", VString "Return the typed final reply.");
     ("strict", VBool true);
     ("parameters", json_object
        [("type", VString "object"); ("properties", json_object [("result", result_schema)]);
         ("required", VArray [VString "result"]); ("additionalProperties", VBool false)])].

Definition tool_schema_from_result_schema (result_schema : value) : result FinalizeError value :=
  do result_schema <- normalize_result result_schema "$"; Ok (finalize_tool result_schema).

(** [respond_to_finalize], for a reply that serializes. *)
Definition respond_to_finalize (reply : value) : value := json_object [("result", reply)].

Record ValidatedFinalize := { vf_item : value; vf_schema : value }.

(** [FinalizeParser { finalized }]. *)
Record FinalizeParser := { finalized : bool }.

Definition parser_new : FinalizeParser := {| finalized := false |}.

Section parser.
(** [serde_json::from_str], with its error text. *)
Variable from_str : string -> result string value.

Definition call_arguments (o : object) : result FinalizeError value :=
  match obj_get "arguments" o with
  | Some (VString text) => map_err MalformedArguments (from_str text)
  | Some (VObject arguments) => Ok (VObject arguments)
  | _ => Err (MalformedArguments "expected a JSON object or object-encoded JSON string")
  end.

(** The [result] of the one-field envelope. *)
Definition envelope_result (arguments : value) : result FinalizeError value :=
  do args <- ok_or (as_object arguments) InvalidEnvelope;
  do result <- ok_or (obj_get "result" args) InvalidEnvelope;
  refuse negb (bool_decide (obj_remove "result" args = [])) with InvalidEnvelope;
  Ok result.

Section decode.
Context {T : Type}.
(** [serde_json::from_value::<T>], with its error text. *)
Variable from_value : value -> result string T.

Definition parse_completed (p : FinalizeParser) (item : value) : FinalizeParser * result FinalizeError T :=
  let decoded :=
    refuse finalized p with AlreadyFinalized;
    do o <- ok_or (as_object item) WrongTool;
    refuse negb (bool_decide (obj_get "type" o ≫= as_str = Some "function_call"))
           || negb (bool_decide (obj_get "name" o ≫= as_str = Some FINALIZE_TOOL_NAME)) with WrongTool;
    do arguments <- call_arguments o;
    do result <- envelope_result arguments;
    map_err MalformedArguments (from_value result) in
  (match decoded with Ok _ => {| finalized := true |} | Err _ => p end, decoded).
End decode.

Definition parse_completed_with_result_schema (p : FinalizeParser) (item result_schema : value)
    : FinalizeParser * result FinalizeError value :=
  match parse_completed Ok p item with
  | (p, Err e) => (p, Err e)
  | (p, Ok result) =>
      match validate_result result result_schema "$" with
      | Err e => ({| finalized := false |}, Err e)
      | Ok _ => (p, Ok result)
      end
  end.

(** [ValidatedFinalize::parse]. *)
Definition validated_finalize (item schema : value) : result FinalizeError ValidatedFinalize :=
  let result_schema := vidx (vidx (vidx schema "parameters") "properties") "result" in
  do tool <- tool_schema_from_result_schema result_schema;
  refuse negb (bool_decide (tool = schema)) with WrongTool;
  do _ <- snd (parse_completed_with_result_schema parser_new item result_schema);
  Ok {| vf_item := item; vf_schema := schema |}.

(** ** Accepted replies *)

(** A completed finalize call and the reply it carries. *)
Definition reply_of (item reply : value) : Prop :=
  exists o, item = VObject o /\ obj_get "type" o = Some (VString "function_call") /\
    obj_get "name" o = Some (VString FINALIZE_TOOL_NAME) /\
    (obj_get "arguments" o = Some (respond_to_finalize reply) \/
     exists text, obj_get "arguments" o = Some (VString text) /\ from_str text = Ok (respond_to_finalize reply)).

Lemma envelope_result_Ok arguments reply : envelope_result arguments = Ok reply <-> arguments = respond_to_finalize reply.
Proof.
  unfold envelope_result, respond_to_finalize. split; [|by intros ->]. intros H. inv_ok. subst.
  destruct arguments as [| | | | |m]; try done. injection Hr as ->. apply negb_false_iff, bool_decide_eq_true in Hg.
  destruct x as [|[k v] m]; [done|]. simpl in *. destruct (decide _) as [->|Hne]; simplify_eq. done.
Qed.

Lemma call_arguments_Ok o arguments : call_arguments o = Ok arguments <->
  (obj_get "arguments" o = Some arguments /\ is_object arguments = true) \/
  exists text, obj_get "arguments" o = Some (VString text) /\ from_str text = Ok arguments.
Proof.
  unfold call_arguments. destruct (obj_get "arguments" o) as [[]|] eqn:E; split; try naive_solver.
  - destruct (from_str s) eqn:F; [|done]. intros [= <-]. right. eauto.
  - intros [[[= <-] ?]|(text & [= <-] & ->)]; done.
Qed.

(** One fresh parse accepts exactly the finalize calls that meet the schema. *)
Lemma parse_fresh_Ok item schema reply :
  snd (parse_completed_with_result_schema parser_new item schema) = Ok reply <->
  reply_of item reply /\ validate_value reply schema "$" = Ok tt.
Proof.
  unfold parse_completed_with_result_schema, parse_completed. cbn [finalized parser_new]. split.
  - set (decoded := rbind _ _). destruct decoded as [r|e] eqn:Ed; [|done]. unfold decoded in Ed. clear decoded.
    unfold validate_result. destruct (validate_value r schema "$") as [[]|] eqn:Ev; [|done]. cbn [map_err snd]. intros [= ->].
    split; [|done]. apply rbind_Ok in Ed as (o & Ho & Ed). apply ok_or_Ok in Ho. destruct item as [| | | | |m]; try done. injection Ho as ->.
    destruct (negb _ || negb _) eqn:Eg; [done|]. apply orb_false_iff in Eg as [Et En].
    apply negb_false_iff, bool_decide_eq_true in Et, En. apply rbind_Ok in Ed as (arguments & Ha & Ed).
    apply rbind_Ok in Ed as (r & Hr & [= ->]). apply envelope_result_Ok in Hr as ->. exists o. split; [done|].
    split_and!; [by destruct (obj_get "type" o) as [[]|]; simplify_eq/=|by destruct (obj_get "name" o) as [[]|]; simplify_eq/=|].
    apply call_arguments_Ok in Ha as [[Ha _]|Ha]; auto.
  - intros [(o & -> & Ht & Hn & Ha) Hv]. cbn [as_object ok_or rbind]. rewrite Ht, Hn. cbn [mbind option_bind as_str].
    rewrite !bool_decide_eq_true_2 by done. cbn [negb orb].
    assert (call_arguments o = Ok (respond_to_finalize reply)) as ->.
    { apply call_arguments_Ok. destruct Ha as [Ha|Ha]; [by left|by right]. }
    cbn [rbind]. rewrite (proj2 (envelope_result_Ok _ reply) eq_refl). cbn [rbind map_err]. unfold validate_result. by rewrite Hv.
Qed.

(** A parser over a sequence of completed items. *)
Fixpoint parse_all (p : FinalizeParser) (schema : value) (items : list value) : list (result FinalizeError value) :=
  match items with
  | [] => []
  | item :: items => let '(p, r) := parse_completed_with_result_schema p item schema in r :: parse_all p schema items
  end.

(** Each item on its own until one is accepted. *)
Fixpoint first_reply (schema : value) (items : list value) : list (result FinalizeError value) :=
  match items with
  | [] => []
  | item :: items =>
      match snd (parse_completed_with_result_schema parser_new item schema) with
      | Ok reply => Ok reply :: ((fun _ => Err AlreadyFinalized) <$> items)
      | Err e => Err e :: first_reply schema items
      end
  end.

Lemma parse_finalized item schema :
  parse_completed_with_result_schema {| finalized := true |} item schema = ({| finalized := true |}, Err AlreadyFinalized).
Proof. done. Qed.

Lemma parse_fresh_state item schema : forall r,
  snd (parse_completed_with_result_schema parser_new item schema) = r ->
  parse_completed_with_result_schema parser_new item schema =
  (match r with Ok _ => {| finalized := true |} | Err _ => parser_new end, r).
Proof.
  intros r. unfold parse_completed_with_result_schema. unfold parse_completed. cbn [finalized parser_new].
  set (decoded := rbind _ _). destruct decoded; [|by intros <-]. destruct (validate_result _ _ _); by intros <-.
Qed.

Lemma parse_all_first schema items : parse_all parser_new schema items = first_reply schema items.
Proof.
  induction items as [|item items IH]; [done|]. simpl.
  destruct (snd (parse_completed_with_result_schema parser_new item schema)) as [r|e] eqn:E; rewrite (parse_fresh_state _ _ _ E); f_equal;
    [|done]. clear. induction items as [|item items IH]; [done|]. cbn [parse_all]. rewrite parse_finalized. cbn. by rewrite IH.
Qed.

(** The contract a tool was built from is read back from it unchanged. *)
Lemma finalize_tool_contract n : vidx (vidx (vidx (finalize_tool n) "parameters") "properties") "result" = n.
Proof. done. Qed.

Lemma tool_schema_fixpoint s t :
  value_wf s -> tool_schema_from_result_schema s = Ok t ->
  exists n, normalize_schema s "$" = Ok n /\ t = finalize_tool n /\ tool_schema_from_result_schema n = Ok t.
Proof.
  intros Hwf H. unfold tool_schema_from_result_schema, normalize_result in H. destruct (normalize_schema s "$") as [n|] eqn:En; [|done].
  injection H as <-. exists n. split_and!; [done..|]. unfold tool_schema_from_result_schema, normalize_result, normalize_schema.
  by rewrite (normal_fixpoint n HostProjection "$" (normalize_normal s "$" HostProjection n Hwf En)).
Qed.

(** A validated completion: a finalize tool and a call that meets it. *)
Lemma validated_finalize_Ok item schema vf : validated_finalize item schema = Ok vf ->
  vf = {| vf_item := item; vf_schema := schema |} /\
  exists n reply, schema = finalize_tool n /\ normalize_schema n "$" = Ok n /\ reply_of item reply /\ validate_value reply n "$" = Ok tt.
Proof.
  unfold validated_finalize. set (n := vidx _ "result"). intros H. apply rbind_Ok in H as (tool & Ht & H).
  case_bool_decide as Eq; [|done]. subst tool. apply rbind_Ok in H as (reply & Hp & [= <-]). split; [done|].
  unfold tool_schema_from_result_schema, normalize_result in Ht. destruct (normalize_schema n "$") as [n'|] eqn:En; [|done].
  injection Ht as Ht. assert (n = n') as <- by (unfold n; by rewrite <- Ht). exists n, reply. apply parse_fresh_Ok in Hp as [Hr Hv]. split_and!; done.
Qed.

(** A reply contract means what it says: a tool built from any admitted
    result schema is recognised as such, and completes exactly on the
    completed finalize calls (with object arguments or their JSON text) whose
    only argument is a result that meets the normalized schema; a parser fed
    a sequence of items answers each as a fresh parser would, a refused call
    costing nothing, until the first that is accepted, and refuses
    everything after it. *)
Theorem finalize_contract s t :
  value_wf s -> tool_schema_from_result_schema s = Ok t ->
  exists n, normalize_schema s "$" = Ok n /\
    (forall item, validated_finalize item t = Ok {| vf_item := item; vf_schema := t |} <->
                  exists reply, reply_of item reply /\ validate_value reply n "$" = Ok tt) /\
    (forall items, parse_all parser_new n items = first_reply n items).
Proof.
  intros Hwf Ht. destruct (tool_schema_fixpoint s t Hwf Ht) as (n & Hn & -> & Hfix). exists n. split_and!; [done| |apply parse_all_first].
  intros item. unfold validated_finalize. rewrite finalize_tool_contract, Hfix. cbn [rbind]. rewrite bool_decide_eq_true_2 by done. cbn [negb].
  setoid_rewrite <- parse_fresh_Ok. destruct (snd (parse_completed_with_result_schema parser_new item n)) as [r|]; split; try done.
  - by exists r.
  - by intros [].
Qed.
End parser.

Definition toy_result_schema : value := json_object [("type", VString "string")].

Definition toy_finalize (reply : value) : value :=
  json_object [("type", VString "function_call"); ("name", VString "finalize"); ("arguments", json_object [("result", reply)])].

Lemma finalize_contract_witness :
  exists t, tool_schema_from_result_schema toy_result_schema = Ok t /\
    validated_finalize (fun _ => Err "") (toy_finalize (VString "ready")) t =
      Ok {| vf_item := toy_finalize (VString "ready"); vf_schema := t |} /\
    is_err (validated_finalize (fun _ => Err "") (toy_finalize VNull) t) = true.
Proof.
  eexists. split; [reflexivity|]. split; [|reflexivity].
  destruct (finalize_contract (fun _ => Err "") toy_result_schema (finalize_tool toy_result_schema)) as (n & Hn & H & _).
  - repeat constructor.
  - reflexivity.
  - apply H. exists (VString "ready"). split.
    + eexists. split; [reflexivity|]. split; [reflexivity|]. split; [reflexivity|]. by left.
    + vm_compute in Hn. injection Hn as <-. reflexivity.
Defined.
