(* ===== verification/Requests.v ===== *)
(** Building provider requests: [normalized_request], [deepseek_request] and
    their selection in [transport/client.rs], with the tool manifest of
    [transport/mod.rs] and the session identity of [transport/identity.rs].

    A request holds the complete item window of one inference. The plan route
    sends it as it is, less settings and settlement metadata; the DeepSeek route
    translates each item or refuses. The theorems describe the body that is
    dispatched on either route. *)

From S2P Require Import Prelude Json Redaction Usage Observation Sse SchemaModel Failure StoreDb Admission Jobs Lists Item Finalize.

(** ** Sessions *)

Record SessionIdentity := { thread : string; affinity : string }.

Definition standalone (t : string) : SessionIdentity := {| thread := t; affinity := t |}.

Definition from_relationship (t : string) (parent_thread fork_source_thread : option string) : SessionIdentity :=
  {| thread := t; affinity := match parent_thread with
                              | Some p => p
                              | None => match fork_source_thread with Some f => f | None => t end
                              end |}.

Definition is_ascii_hexdigit (c : ascii) : bool :=
  let n := N_of_ascii c in ((48 <=? n) && (n <=? 57) || (65 <=? n) && (n <=? 70) || (97 <=? n) && (n <=? 102))%N.

Definition strip_prefix (p s : string) : option string :=
  if String.prefix p s then Some (String.substring (String.length p) (String.length s - String.length p) s) else None.

Definition cache_key (id : SessionIdentity) : string :=
  let key := match strip_prefix "ses_" (affinity id) with
             | Some key => if (String.length key =? 64)%nat && forallb is_ascii_hexdigit (bytes_of key) then key else affinity id
             | None => affinity id
             end in
  String.string_of_list_ascii (concat (take 64 (chars (bytes_of key)))).

(** ** Tool manifests *)

Record ToolManifest := {
  mf_tools : list value;
  mf_json : string;
  mf_hash : string;
  mf_duplicate_names : bool;
  mf_strict : result string unit
}.

Definition finalize_error_text (e : FinalizeError) : string :=
  match e with
  | WrongTool => "expected a finalize function_call"
  | AlreadyFinalized => "finalize was already completed"
  | MalformedArguments error => "malformed finalize arguments: " +:+ error
  | InvalidEnvelope => "finalize arguments must contain exactly the result field"
  | SerializeResult error => "could not serialize finalize result: " +:+ error
  | FinalizeUnsupported path keyword => "unsupported JSON schema at " +:+ path +:+ ": " +:+ keyword
  | FinalizeUnsatisfiable path => "JSON schema constraints exclude every type variant at " +:+ path
  | FinalizeAmbiguous path => "function arguments have ambiguous optional-null semantics at " +:+ path
  | ResultSchemaMismatch path => "finalize result does not match schema at " +:+ path
  end.

(** One declaration of [try_for_each]. *)
Definition strict_tool (tool : value) : result string unit :=
  if veq_str (vidx tool "type") "function" then
    refuse negb (bool_decide (vidx tool "strict" = VBool true)) with "all function tools must be strict";
    map_err (fun e => "invalid function parameters: " +:+ finalize_error_text e) (validate_parameters (vidx tool "parameters"))
  else Ok tt.

(** [names.insert] fails on a name seen before. *)
Fixpoint repeats_name (names : list string) (tools : list value) : bool :=
  match tools with
  | [] => false
  | tool :: tools =>
      match get_str "name" tool with
      | Some name => bool_decide (name ∈ names) || repeats_name (name :: names) tools
      | None => repeats_name names tools
      end
  end.

Record PromptCacheComparison := { comparison_response_id : string }.

Record ResponsesRequest := {
  rq_input : list value;
  rq_instructions : string;
  rq_tools : ToolManifest;
  rq_allowed : option (list string);
  rq_model : string;
  rq_effort : Effort;
  rq_session : SessionIdentity;
  rq_cache : option PromptCacheComparison
}.

Section manifest.
(** [serde_json::to_string] of the declarations, and the hexadecimal BLAKE3 of it. *)
Variable to_json : list value -> string.
Variable blake3 : string -> string.

(** [From<Vec<Value>>]. *)
Definition manifest_of (tools : list value) : ToolManifest :=
  {| mf_tools := tools; mf_json := to_json tools; mf_hash := blake3 (to_json tools);
     mf_duplicate_names := repeats_name [] tools;
     mf_strict := do _ <- map_result strict_tool tools; Ok tt |}.
End manifest.

Definition strict_tools (m : ToolManifest) : result TransportError (list value) :=
  do _ <- map_err Stream (mf_strict m); Ok (mf_tools m).

(** ** The plan body *)

Record RequestBody := {
  body_model : string;
  body_instructions : option string;
  body_input : list value;
  body_tools : option (list value);
  body_tool_choice : option string;
  body_effort : Effort;
  body_stream : bool;
  body_store : bool;
  body_cache_key : string;
  body_cache_options : option PromptCacheComparison
}.

(** Serializing the body; an absent option is skipped. *)
Definition body_value (b : RequestBody) : value :=
  json_object (
    [("model", VString (body_model b))]
    ++ from_option (fun i => [("instructions", VString i)]) [] (body_instructions b)
    ++ [("input", VArray (body_input b))]
    ++ from_option (fun t => [("tools", VArray t)]) [] (body_tools b)
    ++ from_option (fun c => [("tool_choice", VString c)]) [] (body_tool_choice b)
    ++ [("reasoning", json_object [("effort", VString (effort_text (body_effort b))); ("summary", VString "auto")]);
        ("stream", VBool (body_stream b)); ("store", VBool (body_store b)); ("prompt_cache_key", VString (body_cache_key b))]
    ++ from_option (fun c => [("prompt_cache_options", json_object [("comparison_response_id", VString (comparison_response_id c))])]) []
         (body_cache_options b)
    ++ [("include", VArray [VString "reasoning.encrypted_content"])]).

Definition is_output (item : value) : bool :=
  bool_decide (get_str "type" item ∈ [Some "function_call_output"; Some "custom_tool_call_output"]).

(** Settlement provenance is outside the provider's item schema. *)
Definition plan_item (item : value) : value :=
  match item with
  | VObject fields => if is_output item then VObject (obj_remove "output_format" fields) else item
  | _ => item
  end.

Definition allowed_tool (allowed : option (list string)) (tool : value) : bool :=
  match allowed with None => true | Some names => existsb (veq_str (vidx tool "name")) names end.

Definition plan_tools (allowed : option (list string)) (tools : list value) : result TransportError (list value) :=
  do tools <- map_result (fun tool =>
    refuse negb (bool_decide (get_str "type" tool ∈ [Some "function"; Some "custom"]))
      with Stream "ChatGPT plan route requires function or custom host tools";
    Ok tool) tools;
  Ok (List.filter (allowed_tool allowed) tools).

Section body.
(** [HeaderValue::from_str(text).is_ok()]. *)
Variable header_value : string -> bool.

Definition session_valid (id : SessionIdentity) : bool :=
  negb (bool_decide (thread id = "")) && negb (bool_decide (affinity id = "")) && header_value (thread id) && header_value (affinity id).

Definition host_namespace (tools : list value) : value :=
  json_object [("type", VString "namespace"); ("name", VString "functions"); ("description", VString "Exomonad host tools");
               ("tools", VArray tools)].

Definition normalized_request (r : ResponsesRequest) : result TransportError RequestBody :=
  let effort := effective_effort (rq_input r) (rq_effort r) in
  refuse bool_decide (effort ∈ [EffortNone; Max]) with Unsupported USReasoningEffort;
  refuse bool_decide (rq_model r = "") || negb (session_valid (rq_session r))
    with Stream "empty model or invalid session identity headers";
  refuse match rq_cache r with Some c => bool_decide (comparison_response_id c = "") | None => false end
    with Stream "empty cache diagnostic comparison response id";
  do _ <- strict_tools (rq_tools r);
  refuse existsb (fun item => veq_str (vidx item "role") "system") (rq_input r)
    with Stream "ChatGPT plan input requires instructions or developer messages";
  let input := plan_item <$> List.filter (fun item => negb (is_configuration_update item)) (rq_input r) in
  do tools <- plan_tools (rq_allowed r) (mf_tools (rq_tools r));
  let has_tools := negb (bool_decide (tools = [])) in
  Ok {| body_model := rq_model r;
        body_instructions := if bool_decide (rq_instructions r = "") then None else Some (rq_instructions r);
        body_input := input;
        body_tools := if has_tools then Some [host_namespace tools] else None;
        body_tool_choice := if has_tools then Some "auto" else None;
        body_effort := effort; body_stream := true; body_store := false;
        body_cache_key := cache_key (rq_session r); body_cache_options := rq_cache r |}.

(** ** The DeepSeek body *)

Inductive ToolEncodingProfile := NativeEncoding | FunctionOnlyExplicitDelivery.

Inductive ResponseFinality := ExplicitPhase | CompletedAssistantText.

Definition response_finality (route : ResponsesRoute) : ResponseFinality :=
  match route with ChatGptPlan => ExplicitPhase | DeepSeek => CompletedAssistantText end.

Definition tool_encoding_profile (route : ResponsesRoute) : ToolEncodingProfile :=
  match route with ChatGptPlan => NativeEncoding | DeepSeek => FunctionOnlyExplicitDelivery end.

Definition name_byte (b : ascii) : bool := is_ascii_alphanumeric b || bool_decide (b = "_"%char) || bool_decide (b = "-"%char).

Definition wire_name (name : string) : bool :=
  negb (bool_decide (name = "")) && (String.length name <=? 128)%nat && forallb name_byte (bytes_of name).

(** [ToolEncodingProfile::validate_invocation_item]. *)
Definition validate_invocation_item (profile : ToolEncodingProfile) (item : value) : result TransportError unit :=
  match profile with
  | NativeEncoding => Ok tt
  | FunctionOnlyExplicitDelivery =>
      let name := default "" (as_str (vidx item "name")) in
      refuse negb (veq_str (vidx item "type") "function_call")
             || bool_decide (is_Some (vget "namespace" item)) || bool_decide (is_Some (vget "async" item))
             || negb (wire_name name)
        with Unsupported USInputItem;
      Ok tt
  end.

Definition deepseek_tool (tool : value) : result TransportError value :=
  do name <- ok_or (as_str (vidx tool "name")) (Unsupported USToolDeclaration);
  refuse negb (veq_str (vidx tool "type") "function") || negb (wire_name name)
         || bool_decide (is_Some (vget "namespace" tool)) || bool_decide (is_Some (vget "async" tool))
    with Unsupported USToolDeclaration;
  Ok tool.

Definition message_part (role : string) (part : value) : bool :=
  bool_decide (as_str (vidx part "type") ∈ [Some "input_text"; Some "output_text"]) && is_string (vidx part "text")
  || bool_decide (role = "user") && veq_str (vidx part "type") "input_image".

Definition message_content (role : string) (content : value) : bool :=
  is_string content || match as_array content with Some parts => forallb (message_part role) parts | None => false end.

Definition reasoning_part (part : value) : bool := veq_str (vidx part "type") "reasoning_text" && is_string (vidx part "text").

Definition deepseek_item (original : value) (authored : bool) : result TransportError value :=
  let kind := as_str (vidx original "type") in
  if bool_decide (kind = Some "message") then
    do role <- ok_or (as_str (vidx original "role")) (Unsupported USMessage);
    refuse negb (bool_decide (role ∈ ["system"; "developer"; "user"; "assistant"])) with Unsupported USMessage;
    refuse negb (message_content role (vidx original "content")) with Unsupported USMessage;
    if bool_decide (role = "developer") then
      guard authored else Unsupported USMessage;
      Ok (set_field "role" (VString "system") original)
    else Ok original
  else if bool_decide (kind ∈ [Some "function_call"; Some "function_call_output"]) then
    refuse bool_decide (is_Some (vget "namespace" original)) || bool_decide (is_Some (vget "async" original))
      with Unsupported USInputItem;
    Ok match original with VObject fields => VObject (obj_remove "output_format" fields) | v => v end
  else if bool_decide (kind = Some "reasoning") then
    refuse match vget "encrypted_content" original with Some v => negb (is_null v) | None => false end
           || match vget "summary" original with
              | Some v => negb (is_null v) && match as_array v with Some [] => false | _ => true end
              | None => false
              end
      with Unsupported USReasoningContent;
    guard match as_array (vidx original "content") with Some parts => forallb reasoning_part parts | None => false end
      else Unsupported USReasoningContent;
    Ok original
  else Err (Unsupported USInputItem).

(** The input loop over [request.input.iter().zip(authored)]. *)
Definition deepseek_input (items : list (value * bool)) : result TransportError (list value) :=
  map_result (fun x => deepseek_item x.1 x.2) (List.filter (fun x => negb (is_configuration_update x.1)) items).

Definition token_limit (limit : option Z) : value := match limit with Some n => VNumber (PosInt n) | None => VNull end.

Definition deepseek_request (r : ResponsesRequest) (limits : InferenceLimits) (authored : list bool) : result TransportError value :=
  refuse bool_decide (rq_model r = "") || negb (session_valid (rq_session r))
         || negb (bool_decide (length authored = length (rq_input r))) with InvalidAdmission;
  let effort := effective_effort (rq_input r) (rq_effort r) in
  refuse bool_decide (effort = Medium) with Unsupported USReasoningEffort;
  refuse bool_decide (is_Some (rq_cache r)) with Unsupported USCacheComparison;
  do _ <- strict_tools (rq_tools r);
  refuse mf_duplicate_names (rq_tools r) with Unsupported USToolDeclaration;
  do tools <- map_result deepseek_tool (mf_tools (rq_tools r));
  let tools := List.filter (allowed_tool (rq_allowed r)) tools in
  do input <- deepseek_input (zip (rq_input r) authored);
  let body := json_object [("model", VString (rq_model r)); ("input", VArray input); ("stream", VBool true);
                           ("max_output_tokens", token_limit (max_output_tokens limits));
                           ("reasoning", json_object [("effort", VString (effort_text effort))])] in
  let body := if bool_decide (rq_instructions r = "") then body
              else set_field "instructions" (VString (rq_instructions r)) body in
  Ok (if bool_decide (tools = []) then body
      else set_field "tool_choice" (VString "auto") (set_field "tools" (VArray tools) body)).

(** ** Selection *)

(** What is serialized: the plan struct in field order, or a JSON value. *)
Inductive NormalizedProviderBody := StructBody (b : RequestBody) | ValueBody (v : value).

Definition normalize_for_dispatch (r : ResponsesRequest) (route : ResponsesRoute) : result TransportError NormalizedProviderBody :=
  match route with
  | ChatGptPlan => do b <- normalized_request r; Ok (StructBody b)
  | DeepSeek => do v <- deepseek_request r deepseek_default (replicate (length (rq_input r)) false); Ok (ValueBody v)
  end.

(** [PreparedTransportEvidence]; a replay step is known by its contract. *)
Inductive PreparedTransportSelection :=
| Component (route : ResponsesRoute) (protocol : ResponsesProtocol)
| Native (contract : NativeTransportContract)
| Replay (route : ResponsesRoute) (protocol : ResponsesProtocol).

Definition response_contract (s : PreparedTransportSelection) : ResponsesRoute * ResponsesProtocol :=
  match s with
  | Component route protocol | Replay route protocol => (route, protocol)
  | Native c => (nt_route c, nt_protocol c)
  end.

Definition native_admission (s : PreparedTransportSelection) : option NativeTransportContract :=
  match s with Native c => Some c | _ => None end.

(** [NativeTransportContract::validate]. *)
Variable validate_native : NativeTransportContract -> result TransportError unit.

Definition normalize_for_selection (r : ResponsesRequest) (s : PreparedTransportSelection) (authored : list bool)
    : result TransportError NormalizedProviderBody :=
  match native_admission s with
  | Some contract =>
      do _ <- validate_native contract;
      if bool_decide (nt_route contract = ChatGptPlan) && bool_decide (max_output_tokens (nt_limits contract) = None)
      then normalize_for_dispatch r (response_contract s).1
      else
        do body <- match nt_route contract with
                   | DeepSeek => deepseek_request r (nt_limits contract) authored
                   | ChatGptPlan => do b <- normalized_request r; Ok (body_value b)
                   end;
        Ok (ValueBody match max_output_tokens (nt_limits contract) with
                      | Some limit => set_field "max_output_tokens" (VNumber (PosInt limit)) body
                      | None => body
                      end)
  | None =>
      match (response_contract s).1 with
      | DeepSeek => do v <- deepseek_request r deepseek_default authored; Ok (ValueBody v)
      | route => normalize_for_dispatch r route
      end
  end.

(** The JSON the provider reads. *)
Definition provider_json (b : NormalizedProviderBody) : value := match b with StructBody b => body_value b | ValueBody v => v end.
End body.

(** ** Fields of a body *)

Lemma vget_set_field k k' v m : vget k (set_field k' v (VObject m)) = if decide (k = k') then Some v else vget k (VObject m).
Proof. unfold vget. simpl. rewrite obj_get_insert. done. Qed.

(** What a sent item keeps of the retained one. *)
Definition same_item (original sent : value) : Prop :=
  is_configuration_update sent = false /\ (is_output sent = true -> vget "output_format" sent = None) /\
  forall k, k <> "role" -> k <> "output_format" -> vget k sent = vget k original.

Definition retained_items (r : ResponsesRequest) : list value :=
  List.filter (fun item => negb (is_configuration_update item)) (rq_input r).

(** A stateless streaming body of request [r]. *)
Record body_of (r : ResponsesRequest) (v : value) : Prop := {
  bo_object : is_object v = true;
  bo_model : vget "model" v = Some (VString (rq_model r));
  bo_stream : vget "stream" v = Some (VBool true);
  bo_store : vget "store" v <> Some (VBool true) /\ vget "previous_response_id" v = None;
  bo_effort : vget "reasoning" v ≫= vget "effort" = Some (VString (effort_text (effective_effort (rq_input r) (rq_effort r))));
  bo_input : exists items, vget "input" v = Some (VArray items) /\ Forall2 same_item (retained_items r) items
}.

Lemma body_of_set r v k x :
  body_of r v -> k ∉ ["model"; "stream"; "store"; "previous_response_id"; "reasoning"; "input"] -> body_of r (set_field k x v).
Proof.
  intros [Ho Hm Hs [Ht Hp] He Hi] Hk. destruct v as [| | | | |m]; try done. rewrite !not_elem_of_cons in Hk. destruct Hk as (?&?&?&?&?&?&_).
  split; [done|..]; rewrite ?vget_set_field, ?decide_False by congruence; done.
Qed.

Lemma is_output_settles item : is_output item = true -> is_configuration_update item = false.
Proof.
  unfold is_output, is_configuration_update, item_type. rewrite bool_decide_eq_true, bool_decide_eq_false.
  intros H E. rewrite E in H. set_solver.
Qed.

Lemma vget_type_same k item v : k <> "type" -> vget "type" (set_field k v item) = vget "type" item.
Proof. intros H. destruct item; try done. rewrite vget_set_field. by rewrite decide_False by congruence. Qed.

Lemma plan_item_same item : value_wf item -> is_configuration_update item = false -> same_item item (plan_item item).
Proof.
  intros Hwf Hc. destruct item as [| | | | |m]; try by repeat split. unfold plan_item.
  destruct (is_output (VObject m)) eqn:Eo; [|split_and!; [done|by rewrite Eo|done]]. inversion Hwf as [| | | | |? Hs _]; subst.
  assert (forall k, k <> "output_format" -> vget k (VObject (obj_remove "output_format" m)) = vget k (VObject m)) as Hk.
  { intros k Hk. simpl. rewrite vget_remove by done. by rewrite decide_False. }
  split_and!; [|intros _; simpl; by rewrite vget_remove, decide_True|by intros k _ ?; apply Hk].
  unfold is_configuration_update, item_type, get_str in *. by rewrite Hk.
Qed.

Section facts.
Variable header_value : string -> bool.

Lemma normalized_body_of r b :
  Forall value_wf (rq_input r) -> normalized_request header_value r = Ok b -> body_of r (body_value b).
Proof.
  intros Hwf H. unfold normalized_request in H. inv_ok. subst b.
  assert (exists items, items = plan_item <$> retained_items r /\ Forall2 same_item (retained_items r) items) as (items & Ei & Hitems).
  { eexists. split; [done|]. apply Forall2_fmap_r, Forall_Forall2_diag, Forall_forall. intros item Hin.
    unfold retained_items in Hin. rewrite list_elem_of_In, filter_In, <- list_elem_of_In, negb_true_iff in Hin. destruct Hin as [Hin Hc].
    apply plan_item_same; [|done]. by eapply Forall_forall in Hwf. }
  fold (retained_items r). rewrite <- Ei. destruct (bool_decide (rq_instructions r = "")), (negb (bool_decide (x0 = []))), (rq_cache r);
    split; try done; by exists items.
Qed.

(** ** DeepSeek items *)

Lemma as_str_vidx v k : as_str (vidx v k) = get_str k v.
Proof. unfold vidx, get_str. by destruct (vget k v). Qed.

(** What the route can express. *)
Definition expressible (i : value) : Prop :=
  (get_str "type" i = Some "message" /\ exists role, get_str "role" i = Some role /\ role ∈ ["system"; "user"; "assistant"]) \/
  (get_str "type" i ∈ [Some "function_call"; Some "function_call_output"] /\ vget "namespace" i = None /\ vget "async" i = None) \/
  (get_str "type" i = Some "reasoning" /\ vidx i "encrypted_content" = VNull).

(** Only an authored developer message changes role. *)
Definition translated (original : value) (authored : bool) (sent : value) : Prop :=
  same_item original sent /\ expressible sent /\
  (vget "role" sent = vget "role" original \/
   get_str "type" original = Some "message" /\ get_str "role" original = Some "developer" /\ authored = true /\
   vget "role" sent = Some (VString "system")).

Lemma deepseek_item_translated o a i :
  value_wf o -> is_configuration_update o = false -> deepseek_item o a = Ok i -> translated o a i.
Proof.
  intros Hwf Hc H. unfold deepseek_item in H. rewrite as_str_vidx in H. case_bool_decide as Em.
  - rewrite as_str_vidx in H. apply rbind_Ok in H as (role & Hr & H). apply ok_or_Ok in Hr. inv_ok.
    apply negb_false_iff, bool_decide_eq_true in Hg. assert (is_output o = false) as Hout.
    { unfold is_output. rewrite bool_decide_eq_false, Em. set_solver. }
    case_bool_decide as Ed.
    + inv_ok. subst. destruct o as [| | | | |m]; try done.
      assert (forall k, k <> "role" -> vget k (set_field "role" (VString "system") (VObject m)) = vget k (VObject m)) as Hk.
      { intros k Hk. by rewrite vget_set_field, decide_False. }
      split_and!; [split_and!|left; split|right; split_and!; try done; by rewrite vget_set_field].
      * unfold is_configuration_update, item_type, get_str in *. by rewrite Hk.
      * unfold is_output, get_str in *. rewrite !Hk by done. by rewrite Hout.
      * intros k Hk1 _. by apply Hk.
      * unfold get_str in *. by rewrite Hk.
      * exists "system". split; [|set_solver]. unfold get_str. by rewrite vget_set_field.
    + inv_ok. subst i. split_and!; [split_and!; [done|by rewrite Hout|done]| |by left]. left. split; [done|]. exists role. split; [done|].
      rewrite !elem_of_cons in Hg. destruct Hg as [->|[->|[->|[->|?]]]]; set_solver.
  - case_bool_decide as Ef.
    + inv_ok. subst i. apply orb_false_iff in Hg as [Hn Ha]. rewrite bool_decide_eq_false, <- eq_None_not_Some in Hn, Ha.
      destruct o as [| | | | |m]; try (by rewrite !elem_of_cons in Ef; destruct Ef as [?|[?|?%not_elem_of_nil]]).
      inversion Hwf as [| | | | |? Hs _]; subst.
      assert (forall k, k <> "output_format" -> vget k (VObject (obj_remove "output_format" m)) = vget k (VObject m)) as Hk.
      { intros k Hk. simpl. rewrite vget_remove by done. by rewrite decide_False. }
      split_and!; [split_and!|right; left; unfold get_str; by rewrite !Hk|left; by apply Hk].
      * unfold is_configuration_update, item_type, get_str in *. by rewrite Hk.
      * intros _. simpl. by rewrite vget_remove, decide_True.
      * intros k _ ?. by apply Hk.
    + case_bool_decide as Er; [|done]. inv_ok. subst i. apply orb_false_iff in Hg as [Hg _].
      split_and!; [split_and!; [done| |done]| |by left].
      * unfold is_output. rewrite Er. intros Hf%bool_decide_eq_true. set_solver.
      * right; right. split; [done|]. unfold vidx. destruct (vget "encrypted_content" o) as [[]|]; done.
Qed.

(** A call the route's profile let run can be sent back to it. *)
Lemma invocation_replayable item a :
  validate_invocation_item (tool_encoding_profile DeepSeek) item = Ok tt -> is_ok (deepseek_item item a) = true.
Proof.
  unfold validate_invocation_item. cbn [tool_encoding_profile]. intros H. inv_ok. rewrite !orb_false_iff in Hg.
  destruct Hg as [[[Ht Hn] Ha] _]. apply negb_false_iff, bool_decide_eq_true in Ht. unfold deepseek_item. rewrite Ht, Hn, Ha. done.
Qed.

Lemma deepseek_input_translated items : forall sent,
  Forall (fun x => value_wf x.1) items -> deepseek_input items = Ok sent ->
  Forall2 (fun x i => translated x.1 x.2 i) (List.filter (fun x => negb (is_configuration_update x.1)) items) sent.
Proof.
  intros sent Hwf H. unfold deepseek_input in H. apply map_result_Ok in H.
  eapply Forall2_impl_elem; [exact H|]. intros [o a] i Hin Hi. apply list_elem_of_In, filter_In in Hin as [Hin Hc]. apply negb_true_iff in Hc.
  apply deepseek_item_translated; [|done..]. apply list_elem_of_In in Hin. by eapply Forall_forall in Hwf; [|exact Hin].
Qed.

Lemma filter_zip {A B} (p : A -> bool) (l : list A) : forall k : list B, length k = length l ->
  (List.filter (fun x => p x.1) (zip l k)).*1 = List.filter p l.
Proof.
  induction l as [|x l IH]; intros [|y k] H; try done. simpl. destruct (p x); simpl; rewrite IH; auto.
Qed.

(** The fields of an accepted DeepSeek body. *)
Lemma deepseek_body r limits authored v :
  deepseek_request header_value r limits authored = Ok v ->
  length authored = length (rq_input r) /\ mf_duplicate_names (rq_tools r) = false /\ mf_strict (rq_tools r) = Ok tt /\
  exists tools items, map_result deepseek_tool (mf_tools (rq_tools r)) = Ok tools /\
    deepseek_input (zip (rq_input r) authored) = Ok items /\ is_object v = true /\
    let sent := List.filter (allowed_tool (rq_allowed r)) tools in
    forall k, vget k v =
      if decide (k = "tools") then if bool_decide (sent = []) then None else Some (VArray sent)
      else if decide (k = "tool_choice") then if bool_decide (sent = []) then None else Some (VString "auto")
      else if decide (k = "instructions") then if bool_decide (rq_instructions r = "") then None else Some (VString (rq_instructions r))
      else vget k (json_object [("model", VString (rq_model r)); ("input", VArray items); ("stream", VBool true);
                                ("max_output_tokens", token_limit (max_output_tokens limits));
                                ("reasoning", json_object [("effort",
                                   VString (effort_text (effective_effort (rq_input r) (rq_effort r))))])]).
Proof.
  intros H. unfold deepseek_request in H. destruct (_ || _) eqn:Eg; [done|]. apply orb_false_iff in Eg as [_ Eg].
  apply negb_false_iff, bool_decide_eq_true in Eg. case_bool_decide; [done|]. case_bool_decide; [done|].
  apply rbind_Ok in H as (ts & Hstrict & H). unfold strict_tools in Hstrict. destruct (mf_strict (rq_tools r)) as [[]|]; [|done].
  destruct (mf_duplicate_names (rq_tools r)) eqn:Edup; [done|]. apply rbind_Ok in H as (tools & Htools & H).
  apply rbind_Ok in H as (items & Hitems & H). apply Ok_inj in H. split_and!; [done..|]. exists tools, items. split_and!; [done..| |].
  - subst v. case_bool_decide; case_bool_decide; done.
  - intros sent k. subst v. fold sent. set (base := json_object _).
    assert (exists m, base = VObject m /\ obj_get "tools" m = None /\ obj_get "tool_choice" m = None /\ obj_get "instructions" m = None)
      as (m & -> & Hb1 & Hb2 & Hb3) by (eexists; repeat split).
    assert (forall b : bool, exists m', (if b then VObject m else set_field "instructions" (VString (rq_instructions r)) (VObject m)) = VObject m' /\
      forall k, obj_get k m' = if decide (k = "instructions") then if b then None else Some (VString (rq_instructions r)) else obj_get k m) as Hi.
    { intros []; eexists; (split; [done|]); intros k'; [case_decide; congruence|]. rewrite obj_get_insert. by case_decide. }
    destruct (Hi (bool_decide (rq_instructions r = ""))) as (m' & -> & Hm').
    destruct (bool_decide (sent = [])).
    + simpl. rewrite Hm'. repeat case_decide; subst; congruence.
    + cbn [set_field vget]. rewrite !obj_get_insert, Hm'. repeat case_decide; subst; congruence.
Qed.

Lemma deepseek_body_of r limits authored v :
  Forall value_wf (rq_input r) -> deepseek_request header_value r limits authored = Ok v -> body_of r v.
Proof.
  intros Hwf H. destruct (deepseek_body r limits authored v H) as (Hlen & _ & _ & tools & items & _ & Hitems & Ho & Hk).
  split; [done|by rewrite Hk|by rewrite Hk|split; by rewrite Hk|by rewrite Hk|].
  exists items. split; [by rewrite Hk|]. apply deepseek_input_translated in Hitems.
  - unfold retained_items. rewrite <- (filter_zip _ _ _ Hlen). apply Forall2_fmap_l. eapply Forall2_impl; [exact Hitems|].
    intros x i Hx. apply Hx.
  - apply Forall_forall. intros [x a] Hx. simpl. apply elem_of_zip_l in Hx. by eapply Forall_forall in Hwf.
Qed.

Section selection.
Variable validate_native : NativeTransportContract -> result TransportError unit.

(** Whatever transport is selected, an accepted request is dispatched as
    one stateless streaming body of exactly that request: its model, the effort
    of its last setting, never a stored or continued response, every retained
    item in order with all its fields (role apart), no setting, and no
    settlement metadata on any output; and a contract's output limit is in the body. *)
Theorem dispatched_body r s authored b :
  Forall value_wf (rq_input r) -> normalize_for_selection header_value validate_native r s authored = Ok b ->
  body_of r (provider_json b) /\
  forall contract limit, native_admission s = Some contract -> max_output_tokens (nt_limits contract) = Some limit ->
    vget "max_output_tokens" (provider_json b) = Some (VNumber (PosInt limit)).
Proof.
  intros Hwf H. unfold normalize_for_selection in H. assert (forall route b, normalize_for_dispatch header_value r route = Ok b ->
    body_of r (provider_json b)) as Hd.
  { intros [] b' Hb; apply rbind_Ok in Hb as (x & Hx & [= <-]); [by apply normalized_body_of|by eapply deepseek_body_of]. }
  destruct (native_admission s) as [c|].
  - apply rbind_Ok in H as ([] & _ & H). destruct (bool_decide _ && bool_decide _) eqn:Ep.
    + apply andb_true_iff in Ep as [_ En%bool_decide_eq_true]. split; [by eapply Hd|]. intros ? ? [= <-]. by rewrite En.
    + apply rbind_Ok in H as (body & Hb & [= <-]). assert (body_of r body) as Hbody.
      { destruct (nt_route c); [|by eapply deepseek_body_of]. apply rbind_Ok in Hb as (x & Hx & [= <-]). by apply normalized_body_of. }
      cbn [provider_json]. split.
      * destruct (max_output_tokens (nt_limits c)); [|done]. apply body_of_set; [done|set_solver].
      * intros ? limit [= <-] ->. destruct Hbody as [Ho _ _ _ _ _]. destruct body as [| | | | |m]; try done. by rewrite vget_set_field.
  - split; [|done]. destruct (response_contract s).1; [by eapply Hd|]. apply rbind_Ok in H as (v & Hv & [= <-]). by eapply deepseek_body_of.
Qed.
End selection.

(** ** Declared tools *)

Lemma repeats_name_false tools : forall names, repeats_name names tools = false ->
  NoDup (omap (get_str "name") tools) /\ forall n, n ∈ omap (get_str "name") tools -> n ∉ names.
Proof.
  induction tools as [|t tools IH]; intros names H; [split; [constructor|set_solver]|]. simpl in H. rewrite omap_cons.
  destruct (get_str "name" t) as [n|]; [|by apply IH]. apply orb_false_iff in H as [Hn%bool_decide_eq_false H].
  apply IH in H as [H1 H2]. split.
  - constructor; [|done]. intros Hin. apply H2 in Hin. set_solver.
  - intros x [->|Hx]%elem_of_cons; [done|]. apply H2 in Hx. set_solver.
Qed.

Lemma sublist_omap {A B} (f : A -> option B) l1 l2 : l1 `sublist_of` l2 -> omap f l1 `sublist_of` omap f l2.
Proof.
  induction 1 as [|x l1 l2 _ IH|x l1 l2 _ IH]; [constructor|..]; rewrite !omap_cons; destruct (f x); by try constructor.
Qed.

Lemma deepseek_tools_same tools tools' : map_result deepseek_tool tools = Ok tools' ->
  tools' = tools /\ Forall (fun t => deepseek_tool t = Ok t) tools.
Proof.
  intros H. apply map_result_Ok in H. induction H as [|t t' l l' Ht _ [-> IH]]; [by split; constructor|].
  assert (t' = t) as ->; [|by split; [|constructor]]. revert Ht. unfold deepseek_tool. intros Ht. by inv_ok.
Qed.

(** A declaration the route can carry, as admitted by the schema crate. *)
Definition declared (allowed : option (list string)) (t : value) : Prop :=
  get_str "type" t = Some "function" /\ (exists name, get_str "name" t = Some name /\ wire_name name = true) /\
  allowed_tool allowed t = true /\ vidx t "strict" = VBool true /\ validate_function_parameters (vidx t "parameters") = Ok tt.

Lemma deepseek_tool_declared allowed t :
  deepseek_tool t = Ok t -> strict_tool t = Ok tt -> allowed_tool allowed t = true -> declared allowed t.
Proof.
  unfold deepseek_tool, strict_tool. rewrite as_str_vidx. intros H Hs Ha. apply rbind_Ok in H as (name & Hn & H). apply ok_or_Ok in Hn.
  destruct (veq_str (vidx t "type") "function") eqn:Et; [|done]. destruct (wire_name name) eqn:Ew; [|done].
  apply bool_decide_eq_true in Et. case_bool_decide as Est; [|done]. simpl in Hs. unfold validate_parameters in Hs.
  split_and!; [by rewrite <- as_str_vidx, Et|by exists name|done|done|].
  destruct (validate_function_parameters (vidx t "parameters")) as [[]|]; done.
Qed.

End facts.

(** ** Witnesses *)

Definition toy_request : ResponsesRequest :=
  {| rq_input := [json_object [("type", VString "message"); ("role", VString "developer"); ("content", VString "rules")];
                  configuration_update High;
                  json_object [("type", VString "function_call"); ("call_id", VString "c"); ("name", VString "run"); ("arguments", VString "{}")];
                  json_object [("type", VString "function_call_output"); ("call_id", VString "c"); ("output", VString "ok");
                               ("output_format", VString "native_receipt_v1")]];
     rq_instructions := ""; rq_tools := manifest_of (fun _ => "[]") (fun _ => "hash")
       [json_object [("type", VString "function"); ("name", VString "run"); ("strict", VBool true);
                     ("parameters", json_object [("type", VString "object"); ("properties", VObject []); ("required", VArray []);
                                                 ("additionalProperties", VBool false)])]];
     rq_allowed := None; rq_model := "m"; rq_effort := Low; rq_session := standalone "t"; rq_cache := None |}.

Definition toy_contract : NativeTransportContract :=
  {| nt_route := DeepSeek; nt_protocol := Standard; nt_endpoint := DEEPSEEK_ENDPOINT; nt_credential := CredentialEnv "KEY";
     nt_limits := deepseek_default |}.

Definition toy_body : value :=
  Eval vm_compute in
    match deepseek_request (fun _ => true) toy_request deepseek_default [true; true; false; false] with Ok v => v | Err _ => VNull end.

Lemma toy_input_wf : Forall value_wf (rq_input toy_request).
Proof. repeat constructor. Qed.

Lemma toy_dispatch : normalize_for_selection (fun _ => true) (fun _ => Ok tt) toy_request (Native toy_contract) [true; true; false; false] =
  Ok (ValueBody toy_body).
Proof. vm_compute. reflexivity. Qed.

Lemma dispatched_body_witness :
  body_of toy_request toy_body /\ vget "max_output_tokens" toy_body = Some (VNumber (PosInt 65536)).
Proof.
  destruct (dispatched_body (fun _ => true) (fun _ => Ok tt) toy_request (Native toy_contract) [true; true; false; false] _ toy_input_wf toy_dispatch)
    as [H1 H2]. split; [exact H1|]. apply (H2 toy_contract); reflexivity.
Defined.

