(* ===== verification/ToolSurface.v ===== *)
(** The tools a host installs and their wire encodings: [EmbeddedToolManifest]
    and [ToolSurface] of [embedding.rs], with [embedding/tool_encoding.rs].

    A host declares function and freeform tools with a scheduling policy. A
    route that knows only plain functions gets them as functions whose
    arguments wrap the call and say how its result is to be delivered. The theorems
    show that the wrapping loses nothing: the arguments a wire declaration
    admits are exactly those that decode to a call the host's declaration admits. *)

From S2P Require Import Prelude Json SchemaModel SchemaNormal Schema Redaction Usage Observation Sse Client Failure StoreDb Lists Item Finalize Requests.

(** [ToolScheduling]; asynchronous is the default. *)
Inductive ToolScheduling := AsyncTool | BeforeNextInference.

#[export] Instance ToolScheduling_eq_dec : EqDecision ToolScheduling.
Proof. solve_decision. Defined.

(** [EmbeddedError::Surface]. *)
Inductive SurfaceError := Surface (text : string).

Definition is_harness_tool (name : string) : bool := is_agent_verb name.

Record EmbeddedToolManifest := {
  em_tools : ToolManifest;
  kinds : gmap string ToolKind;
  scheduling : gmap string ToolScheduling;
  text_fields : gmap string string
}.

Section surface.
(** The JSON text of the declarations, and its BLAKE3. *)
Variable to_json : list value -> string.
Variable blake3 : string -> string.

(** One declaration of the first loop. *)
Definition declare_tool (kinds : gmap string ToolKind) (tool : value) : result SurfaceError (gmap string ToolKind) :=
  do name <- ok_or (match as_str (vidx tool "name") with Some "" => None | name => name end) (Surface "missing tool name");
  let kind := as_str (vidx tool "type") in
  do kind <- (if bool_decide (kind = Some "function") && bool_decide (vidx tool "strict" = VBool true) then Ok FunctionKind
              else if bool_decide (kind = Some "custom") then Ok CustomKind
              else Err (Surface ("unsupported declaration for " +:+ name)));
  refuse is_harness_tool name || bool_decide (name = FINALIZE_TOOL_NAME) with Surface ("reserved standalone tool name " +:+ name);
  refuse bool_decide (is_Some (kinds !! name)) with Surface ("duplicate tool " +:+ name);
  Ok (<[name := kind]> kinds).

Definition mode_of (scheduling : gmap string ToolScheduling) (name : string) : ToolScheduling :=
  default AsyncTool (scheduling !! name).

(** The second loop: the policy as a field of the declaration. *)
Definition schedule_tool (scheduling : gmap string ToolScheduling) (tool : value) : value :=
  set_field "async" (VBool (bool_decide (mode_of scheduling (default "" (as_str (vidx tool "name"))) = AsyncTool))) tool.

Definition with_scheduling (tools : list value) (scheduling : gmap string ToolScheduling) : result SurfaceError EmbeddedToolManifest :=
  do kinds <- fold_result declare_tool ∅ tools;
  refuse negb (forallb (fun name => bool_decide (is_Some (kinds !! name))) (elements (dom scheduling)))
    with Surface "scheduling policy names an undeclared tool";
  let manifest := manifest_of to_json blake3 (schedule_tool scheduling <$> tools) in
  do _ <- map_err (fun e => Surface ("stream failed: " +:+ e)) (mf_strict manifest);
  Ok {| em_tools := manifest; kinds := kinds; scheduling := scheduling; text_fields := ∅ |}.

Definition text_field_ok (kinds : gmap string ToolKind) (x : string * string) : bool :=
  bool_decide (kinds !! x.1 = Some CustomKind) && negb (bool_decide (x.2 = "")) && negb (bool_decide (x.2 = "delivery")).

(** The loop reports the first field of the map's own order. *)
Definition with_text_fields (tools : list value) (scheduling : gmap string ToolScheduling) (fields : gmap string string)
    : result SurfaceError EmbeddedToolManifest :=
  do m <- with_scheduling tools scheduling;
  match List.filter (fun x => negb (text_field_ok (kinds m) x)) (map_to_list fields) with
  | x :: _ => Err (Surface ("invalid custom text field for " +:+ x.1))
  | [] => Ok {| em_tools := em_tools m; kinds := kinds m; scheduling := ToolSurface.scheduling m; text_fields := fields |}
  end.

(** ** Encodings *)

Inductive Encoding :=
| IdentityEncoding
| TextEncoding (field : string) (delivery : bool)
| ArgumentsEncoding.

Record EncodingMap := { profile : ToolEncodingProfile; rows : gmap string Encoding }.

#[export] Instance ToolEncodingProfile_eq_dec : EqDecision ToolEncodingProfile.
Proof. solve_decision. Defined.

(** The encoding of a declared tool. [manifest.kinds[&name]] exists for every declaration. *)
Definition encoding_of (m : EmbeddedToolManifest) (name : string) : Encoding :=
  let delivery := bool_decide (mode_of (scheduling m) name = AsyncTool) in
  if bool_decide (kinds m !! name = Some CustomKind) then TextEncoding (default "input" (text_fields m !! name)) delivery
  else if delivery then ArgumentsEncoding else IdentityEncoding.

Definition delivery_schema : value :=
  json_object [("type", VString "string"); ("enum", VArray [VString "wait"; VString "background"])].

Definition string_schema : value := json_object [("type", VString "string")].

(** The parameters of a wrapped declaration. *)
Definition wire_parameters (field : string) (schema : value) (delivery : bool) : value :=
  json_object
    [("type", VString "object");
     ("properties", json_object ((field, schema) :: (if delivery then [("delivery", delivery_schema)] else [])));
     ("required", VArray (VString field :: (if delivery then [VString "delivery"] else [])));
     ("additionalProperties", VBool false)].

Definition wire_declaration (name description : string) (parameters : value) : value :=
  json_object
    [("type", VString "function"); ("name", VString name); ("description", VString description); ("strict", VBool true);
     ("parameters", parameters)].

Definition remove_async (tool : value) : value := match tool with VObject o => VObject (obj_remove "async" o) | v => v end.

Definition encode_tool (encoding : Encoding) (name : string) (tool : value) : value :=
  let description := default "" (as_str (vidx tool "description")) in
  match encoding with
  | IdentityEncoding => tool
  | TextEncoding field delivery => wire_declaration name description (wire_parameters field string_schema delivery)
  | ArgumentsEncoding => wire_declaration name description (wire_parameters "arguments" (vidx tool "parameters") true)
  end.

Definition flat_name (name : string) : bool := (String.length name <=? 128)%nat && forallb name_byte (bytes_of name).

(** One declaration of the projecting loop. *)
Definition project_tool (m : EmbeddedToolManifest) (p : ToolEncodingProfile) (acc : list value * gmap string Encoding) (tool : value)
    : result SurfaceError (list value * gmap string Encoding) :=
  let '(tools, rows) := acc in
  let name := default "" (as_str (vidx tool "name")) in
  if bool_decide (p = NativeEncoding) then Ok (tools ++ [tool], <[name := IdentityEncoding]> rows) else
  guard flat_name name else Surface ("unsupported flat tool name " +:+ name);
  refuse match vget "namespace" tool with Some v => negb (is_null v) | None => false end
    with Surface ("tool namespace is not flat: " +:+ name);
  let encoding := encoding_of m name in
  Ok (tools ++ [remove_async (encode_tool encoding name tool)], <[name := encoding]> rows).

Definition project (m : EmbeddedToolManifest) (p : ToolEncodingProfile) : result SurfaceError (EmbeddedToolManifest * EncodingMap) :=
  do '(tools, rows) <- fold_result (project_tool m p) ([], ∅) (mf_tools (em_tools m));
  do projected <- with_scheduling tools (scheduling m);
  let projected :=
    if bool_decide (p = NativeEncoding) then projected
    else {| em_tools := manifest_of to_json blake3 (remove_async <$> mf_tools (em_tools projected)); kinds := kinds projected;
            scheduling := scheduling projected; text_fields := text_fields projected |} in
  Ok (projected, {| profile := p; rows := rows |}).

(** ** Decoding a call *)

Definition envelope_error (name : string) : string := "invalid installed tool envelope for " +:+ name.

Definition delivery_execution (v : option value) : option ToolExecution :=
  match v ≫= as_str with
  | Some text => if bool_decide (text = "wait") then Some Synchronous else if bool_decide (text = "background") then Some Asynchronous else None
  | None => None
  end.

(** The wrapped part: the delivery, then the one field left. *)
Definition unwrap (name field : string) (delivery : bool) (arguments : object) : result string (value * ToolExecution) :=
  do '(execution, arguments) <-
    (if delivery then
       do execution <- ok_or (delivery_execution (obj_get "delivery" arguments)) (envelope_error name);
       Ok (execution, obj_remove "delivery" arguments)
     else Ok (Synchronous, arguments));
  do v <- ok_or (obj_get field arguments) (envelope_error name);
  guard bool_decide (obj_remove field arguments = []) else envelope_error name;
  Ok (v, execution).

Definition decode (e : EncodingMap) (name : string) (input : ToolInput) : result string (ToolInput * option ToolExecution) :=
  do row <- ok_or (rows e !! name) (envelope_error name);
  match row with
  | IdentityEncoding => Ok (input, None)
  | TextEncoding field delivery =>
      match input with
      | FunctionInput (VObject arguments) =>
          do '(v, execution) <- unwrap name field delivery arguments;
          do text <- ok_or (as_str v) (envelope_error name);
          Ok (CustomInput text, Some execution)
      | _ => Err (envelope_error name)
      end
  | ArgumentsEncoding =>
      match input with
      | FunctionInput (VObject arguments) =>
          do '(v, execution) <- unwrap name "arguments" true arguments;
          guard is_object v else envelope_error name;
          Ok (FunctionInput v, Some execution)
      | _ => Err (envelope_error name)
      end
  end.

Definition execution (e : EncodingMap) (c : ToolCall) : result string ToolExecution :=
  do '(_, x) <- decode e (tc_name c) (tc_input c);
  Ok (default (if bool_decide (profile e = NativeEncoding) then tc_execution c else Synchronous) x).

(** ** The execution a call was issued with *)

Section policy.
(** [serde_json::from_str], an operation's JSON, and the map's [Deserialize]. *)
Variable from_str : string -> result string value.
Variable operation_value : OperationId -> value.
Variable encoding_map : value -> result string EncodingMap.

(** One event of the request, as its kind and payload. *)
Definition select_policy (operation : OperationId) (selected : option value) (event : string * string) : result string (option value) :=
  if negb (bool_decide (event.1 = "tool_scheduling")) then Ok selected else
  do v <- from_str event.2;
  if negb (bool_decide (vget "operation" v = Some (operation_value operation))) then Ok selected else
  refuse match selected with Some prior => negb (bool_decide (prior = v)) | None => false end
    with "conflicting issuing operation surfaces";
  Ok (Some v).

Definition operation_policy (events : list (string * string)) (operation : OperationId) : result string value :=
  do selected <- fold_result (select_policy operation) None events;
  ok_or selected "missing issuing operation surface".

Definition operation_surface (events : list (string * string)) (operation : OperationId) : result string value :=
  do policy <- operation_policy events operation;
  ok_or (vget "surface" policy) "missing issuing operation surface".

Definition execution_text (e : ToolExecution) : string := match e with Synchronous => "wait" | Asynchronous => "background" end.

Definition recorded_execution (events : list (string * string)) (operation : OperationId) (c : ToolCall) (p : ToolEncodingProfile)
    : result string ToolExecution :=
  if bool_decide (p = NativeEncoding) then Ok (tc_execution c) else
  do surface <- operation_surface events operation;
  do encoding <- ok_or (vget "encoding" surface) "missing issuing tool encoding";
  do map <- encoding_map encoding;
  refuse negb (bool_decide (profile map = p)) with "issuing tool encoding profile mismatch";
  do x <- execution map c;
  do policy <- operation_policy events operation;
  refuse negb (veq_str (vidx policy "execution") (execution_text x)) with "issuing operation delivery mismatch";
  Ok x.
End policy.
End surface.

(** ** Wrapped arguments *)

Lemma one_entry o k a : length o = 1%nat -> obj_get k o = Some a -> o = [(k, a)].
Proof. destruct o as [|[k1 v1] [|]]; try done. intros _. simpl. case_decide; [|done]. by intros [= ->]; subst. Qed.

Lemma two_entries o k1 k2 a b :
  obj_sorted o -> k1 <> k2 -> length o = 2%nat -> obj_get k1 o = Some a -> obj_get k2 o = Some b -> o = obj_insert k2 b (obj_insert k1 a []).
Proof.
  intros Hs Hne Hl H1 H2. apply obj_ext; [done|repeat apply obj_insert_sorted; constructor|]. intros k. rewrite !obj_get_insert.
  case_decide; [by subst|]. case_decide; [by subst|]. simpl. destruct o as [|[x1 v1] [|[x2 v2] [|]]]; try done. simpl in *.
  repeat case_decide; naive_solver.
Qed.

Lemma remove_only o k : obj_sorted o -> obj_remove k o = [] -> forall k', k' <> k -> obj_get k' o = None.
Proof. intros Hs H k' Hne. rewrite <- (obj_get_remove_ne k k' o Hne), H. done. Qed.

Lemma insert_remove_empty k a : obj_remove k [(k, a)] = [].
Proof. simpl. by rewrite decide_True. Qed.

Lemma insert_second k b f a : f <> k -> obj_insert k b (obj_insert f a []) ≡ₚ [(k, b); (f, a)].
Proof.
  intros H. change (obj_insert f a []) with [(f, a)]. unfold obj_insert. simpl. rewrite decide_False by congruence. simpl. destruct (str_ltb k f); [done|].
  apply Permutation_swap.
Qed.

(** The envelope of a wrapped call. *)
Definition envelope (field : string) (delivery : bool) (v : value) (e : ToolExecution) : object :=
  if delivery then obj_insert "delivery" (VString (execution_text e)) (obj_insert field v []) else [(field, v)].

Lemma envelope_json field delivery v e :
  VObject (envelope field delivery v e) =
  json_object ((field, v) :: (if delivery then [("delivery", VString (execution_text e))] else [])).
Proof. by destruct delivery. Qed.

Lemma delivery_execution_Some v e : delivery_execution v = Some e <-> v = Some (VString (execution_text e)).
Proof.
  unfold delivery_execution. destruct v as [[]|]; simpl; try (split; [done|intros [=]]).
  repeat case_bool_decide; subst; destruct e; simpl; split; congruence.
Qed.

Lemma unwrap_exact name field delivery o v e :
  obj_sorted o -> field <> "delivery" ->
  unwrap name field delivery o = Ok (v, e) <-> o = envelope field delivery v e /\ (delivery = false -> e = Synchronous).
Proof.
  intros Hs Hf. unfold unwrap, envelope. destruct delivery; cbn [rbind].
  - split.
    + intros H. apply rbind_Ok in H as ([e' o'] & H1 & H). apply rbind_Ok in H1 as (e1 & He & [= <- <-]). apply ok_or_Ok, delivery_execution_Some in He.
      apply rbind_Ok in H as (v1 & Hv & H). apply ok_or_Ok in Hv. case_bool_decide as Hem; [|done]. injection H as <- <-. split; [|done].
      assert (obj_sorted (obj_remove "delivery" o)) as Hs' by (eapply obj_sorted_sublist; [apply obj_remove_sublist|done]).
      rewrite obj_get_remove_ne in Hv by done. apply obj_ext; [done|repeat apply obj_insert_sorted; constructor|]. intros k. rewrite !obj_get_insert.
      case_decide as E1; [by subst|]. case_decide as E2; [by subst|]. simpl. rewrite <- (obj_get_remove_ne "delivery" k o E1). by eapply remove_only.
    + intros [-> _]. rewrite obj_get_insert_eq. rewrite (proj2 (delivery_execution_Some _ e) eq_refl). cbn [ok_or rbind].
      assert (obj_remove "delivery" (obj_insert "delivery" (VString (execution_text e)) (obj_insert field v [])) = [(field, v)]) as ->.
      { apply obj_ext; [eapply obj_sorted_sublist; [apply obj_remove_sublist|done]|repeat constructor|]. intros k. simpl.
        destruct (decide (k = "delivery")) as [->|Hk].
        - rewrite obj_get_remove_eq by done. by rewrite decide_False by congruence.
        - rewrite obj_get_remove_ne, obj_get_insert_ne by done. rewrite obj_get_insert. simpl. repeat case_decide; congruence. }
      simpl. rewrite decide_True by done. cbn [ok_or rbind]. rewrite decide_True by done. by rewrite bool_decide_eq_true_2.
  - split.
    + intros H. apply rbind_Ok in H as (v1 & Hv & H). apply ok_or_Ok in Hv. case_bool_decide as Hem; [|done]. injection H as <- <-. split; [|done].
      apply obj_ext; [done|repeat constructor|]. intros k. simpl. case_decide as E; [by subst|]. by eapply remove_only.
    + intros [-> ->]; [|done]. simpl. rewrite decide_True by done. cbn [ok_or rbind]. rewrite decide_True by done. by rewrite bool_decide_eq_true_2.
Qed.

(** ** What a wrapped declaration admits *)

Lemma existsb_same {A} (p q : A -> bool) l : (forall x, p x = q x) -> existsb p l = existsb q l.
Proof. intros H. induction l as [|x l IH]; simpl; [done|]. by rewrite H, IH. Qed.

(** Only the error names the path. *)
Lemma validate_path fuel : forall v s p q, validate_value_fuel fuel v s p = Ok tt -> validate_value_fuel fuel v s q = Ok tt.
Proof.
  induction fuel as [|fuel IH]; intros v s p q; [done|]. cbn [validate_value_fuel]. unfold validate_value_body.
  assert (forall w s', is_ok (validate_value_fuel fuel w s' p) = is_ok (validate_value_fuel fuel w s' q)) as Hok.
  { intros w s'. destruct (validate_value_fuel fuel w s' p) as [[]|] eqn:Ep, (validate_value_fuel fuel w s' q) as [[]|] eqn:Eq; try done.
    - apply (IH _ _ _ q) in Ep. congruence.
    - apply (IH _ _ _ p) in Eq. congruence. }
  destruct (as_array (vidx s "oneOf")) as [l|].
  { rewrite (filter_ext _ (fun variant => is_ok (validate_value_fuel fuel v variant q))) by (intros; apply Hok). by destruct (_ =? _)%nat. }
  destruct (as_array (vidx s "anyOf")) as [l|].
  { rewrite (existsb_same _ (fun variant => is_ok (validate_value_fuel fuel v variant q))) by (intros; apply Hok). by destruct (existsb _ _). }
  destruct (matches_type v s); [|done]. destruct (match vget "const" s with Some _ => _ | None => _ end); [done|].
  destruct (match as_array (vidx s "enum") with Some _ => _ | None => _ end); [done|].
  assert (check_bounds v s p = Ok tt -> check_bounds v s q = Ok tt) as Hb.
  { assert (forall key lower inclusive, check_bound v s p key lower inclusive = Ok tt -> check_bound v s q key lower inclusive = Ok tt) as Hk.
    { intros key lower inclusive. unfold check_bound. destruct (vget key s); [|done]. destruct (number_cmp v _); [|done]. simpl.
      by destruct (match c with Eq => _ | Lt => _ | Gt => _ end). }
    unfold check_bounds. destruct (is_number v); [|done]. intros H. apply rbind_Ok in H as ([] & H1 & H). apply rbind_Ok in H as ([] & H2 & H).
    apply rbind_Ok in H as ([] & H3 & H). rewrite (Hk _ _ _ H1), (Hk _ _ _ H2), (Hk _ _ _ H3). by apply Hk. }
  intros H. apply rbind_Ok in H as ([] & H1 & H). rewrite (Hb H1). cbn [rbind]. destruct v as [| | | |l|o]; try done.
  - by destruct (length_within _ _ _ _).
  - unfold validate_array in *. destruct (length_within _ _ _ _); [|done].
    destruct (imap_result _ l) as [ys|] eqn:Ei in H; [|done]. apply imap_result_from_Ok in Ei as [Hl Hi].
    assert (imap_result_from 0 (fun index child => validate_value_fuel fuel child (vidx s "items") (q +:+ "[" +:+ pretty index +:+ "]")) l = Ok ys) as ->; [|done].
    apply imap_result_from_Ok. split; [done|]. intros i x [] Hx Hy. specialize (Hi i x tt Hx Hy). by eapply IH.
  - unfold validate_object in *. destruct (as_object _) as [ps|]; [|done]. cbn [ok_or rbind] in *. destruct (negb _); [done|].
    apply fold_result_unit_Ok. apply fold_result_unit_Ok in H. eapply Forall_impl; [exact H|]. intros [k c]. destruct (obj_get k o); [|done]. apply IH.
Qed.

Lemma validate_value_path v s p q : validate_value v s p = Ok tt <-> validate_value v s q = Ok tt.
Proof. split; apply validate_path. Qed.

(** A schema of an object with these properties, whatever it lists as required. *)
Lemma validate_object_like o ps v p :
  obj_get "oneOf" o = None -> obj_get "anyOf" o = None -> obj_get "const" o = None -> obj_get "enum" o = None ->
  obj_get "type" o = Some (VString "object") -> obj_get "properties" o = Some (VObject ps) ->
  validate_value v (VObject o) p = Ok tt <->
  exists ob, v = VObject ob /\ length ob = length ps /\
    forall k q, (k, q) ∈ ps -> exists c, obj_get k ob = Some c /\ validate_value c q (p +:+ "." +:+ k) = Ok tt.
Proof.
  intros H1 H2 H3 H4 H5 H6. rewrite validate_value_eq. unfold validate_value_body, vidx. cbn [vget]. rewrite H1, H2, H3, H4. cbn [as_array default].
  assert (forall w, matches_type w (VObject o) = is_object w) as Hm by (intros w; unfold matches_type, vidx; cbn [vget]; by rewrite H5).
  simpl. rewrite Hm. destruct v as [| | | | |ob]; simpl; try naive_solver. unfold validate_object, vidx. cbn [vget]. rewrite H6. simpl. split.
  - intros H. inv_ok. apply fold_result_unit_Ok in H. exists ob. split; [done|]. apply negb_false_iff, Nat.eqb_eq in Hg. split; [done|].
    intros k q Hin. rewrite Forall_forall in H. specialize (H _ Hin). simpl in H. inv_ok. eauto.
  - intros (ob' & [= <-] & Hlen & Hall). rewrite Hlen, Nat.eqb_refl. simpl. apply fold_result_unit_Ok, Forall_forall. intros [k q] Hin.
    destruct (Hall k q Hin) as (c & -> & Hc). done.
Qed.

Lemma unbounded_length n : length_within n string_schema "minLength" "maxLength" = (Z.of_nat n <=? u64_max).
Proof. change (((0 <=? Z.of_nat n) && (Z.of_nat n <=? u64_max)) = (Z.of_nat n <=? u64_max)). by rewrite (proj2 (Z.leb_le 0 _)) by lia. Qed.

Lemma validate_string v p : validate_value v string_schema p = Ok tt <-> exists s, v = VString s /\ Z.of_nat (chars_count s) <= u64_max.
Proof.
  rewrite validate_value_eq. unfold validate_value_body. change (as_array (vidx string_schema "oneOf")) with (@None (list value)).
  change (as_array (vidx string_schema "anyOf")) with (@None (list value)). change (as_array (vidx string_schema "enum")) with (@None (list value)).
  change (vget "const" string_schema) with (@None value). cbn beta iota. change (matches_type v string_schema) with (is_string v).
  destruct v; try (simpl; naive_solver). cbn [is_string check_bounds is_number rbind]. rewrite unbounded_length.
  destruct (Z.leb_spec (Z.of_nat (chars_count s)) u64_max); [split; [by exists s|done]|]. split; [done|]. intros (s' & [= <-] & ?). lia.
Qed.

Lemma validate_delivery v p : validate_value v delivery_schema p = Ok tt <-> exists e, v = VString (execution_text e).
Proof.
  rewrite validate_value_eq. unfold validate_value_body, delivery_schema. cbn -[u64_max chars_count]. destruct v; simpl; try naive_solver.
  case_bool_decide as H.
  - split; [done|]. intros [[] [= ->]]; set_solver.
  - split; [|intros [[] [= ->]]; vm_compute; done]. intros _.
    apply elem_of_cons in H as [[= ->]|[[= ->]|H]%elem_of_cons]; [by exists Synchronous|by exists Asynchronous|set_solver].
Qed.

(** The wrapped arguments a declaration admits are the envelopes of admitted calls. *)
Lemma validate_envelope field schema delivery v p :
  value_wf v -> field <> "delivery" ->
  validate_value v (wire_parameters field schema delivery) p = Ok tt <->
  exists x e, v = VObject (envelope field delivery x e) /\ (delivery = false -> e = Synchronous) /\ validate_value x schema p = Ok tt.
Proof.
  intros Hwf Hf. unfold wire_parameters, json_object at 1. destruct delivery.
  - erewrite validate_object_like; try reflexivity. split.
    + intros (ob & -> & Hl & Hall). inversion Hwf; subst.
      assert (obj_get field (obj_insert "delivery" delivery_schema (obj_insert field schema [])) = Some schema) as G1.
      { rewrite obj_get_insert_ne by done. by rewrite obj_get_insert_eq. }
      assert (obj_get "delivery" (obj_insert "delivery" delivery_schema (obj_insert field schema [])) = Some delivery_schema) as G2 by apply obj_get_insert_eq.
      destruct (Hall _ _ (obj_get_elem _ _ _ G1)) as (x & Hx & Vx). destruct (Hall _ _ (obj_get_elem _ _ _ G2)) as (d & Hd & Vd).
      apply validate_delivery in Vd as [e ->]. exists x, e. split_and!; [|done|by eapply validate_value_path]. f_equal. apply two_entries; try done.
      rewrite Hl. cbn [foldl fst snd]. by rewrite insert_second.
    + intros (x & e & [= ->] & _ & Vx). eexists. split; [done|]. split.
      * cbn [envelope foldl fst snd]. by rewrite !insert_second.
      * cbn [envelope foldl fst snd]. intros k q Hin. rewrite insert_second in Hin by done. apply elem_of_cons in Hin as [[= -> ->]|Hk].
        -- eexists. split; [apply obj_get_insert_eq|]. apply validate_delivery. by exists e.
        -- apply list_elem_of_singleton in Hk as [= -> ->]. eexists. split; [rewrite obj_get_insert_ne by done; apply obj_get_insert_eq|].
           by eapply validate_value_path.
  - erewrite validate_object_like; try reflexivity. split.
    + intros (ob & -> & Hl & Hall). destruct (Hall field schema) as (x & Hx & Vx); [set_solver|]. exists x, Synchronous.
      split_and!; [|done|by eapply validate_value_path]. f_equal. by apply one_entry.
    + intros (x & e & [= ->] & _ & Vx). eexists. split; [done|]. split; [done|]. intros k q Hk%list_elem_of_singleton. simplify_eq/=.
      rewrite decide_True by done. eexists. split; [done|]. by eapply validate_value_path.
Qed.

(** Admitted parameters take objects only. *)
Lemma parameters_object schema v p : validate_function_parameters schema = Ok tt -> validate_value v schema p = Ok tt -> is_object v = true.
Proof.
  unfold validate_function_parameters. intros H Hv. destruct (veq_str (vidx schema "type") "object") eqn:Et; [|done]. cbn [negb] in H.
  apply bool_decide_eq_true in Et. destruct schema as [| | | | |m]; try done. unfold vidx in Et. cbn [vget] in Et.
  destruct (obj_get "type" m) as [ty|] eqn:Ety; [|done]. simpl in Et. subst ty.
  destruct (normalize_schema_mode (VObject m) "$" StrictWire) as [n|] eqn:En; [|done]. clear H.
  rewrite normalize_schema_eq in En. unfold normalize_schema_body in En. cbn [as_object ok_or rbind] in En. apply rbind_Ok in En as ([] & _ & En).
  assert (forall kw, kw <> "type" -> union_keyword_ok kw m = true -> "type" ∈ ["title"; "description"; "$schema"; "$defs"]) as Hunion.
  { intros kw Hkw Hu. unfold union_keyword_ok in Hu. rewrite forallb_forall in Hu.
    assert ("type" ∈ obj_keys m) as Hkey by (apply obj_get_key; by eexists).
    specialize (Hu "type" (proj1 (list_elem_of_In _ _) Hkey)). apply bool_decide_eq_true in Hu. by apply elem_of_cons in Hu as [?|Hu]. }
  destruct (obj_get "oneOf" m) as [vs|] eqn:E1.
  { unfold normalize_one_of in En. inv_ok. apply Hunion in Hg0; [by apply elem_of_literal in Hg0|done]. }
  destruct (obj_get "anyOf" m) as [vs|] eqn:E2.
  { unfold normalize_any_of in En. inv_ok. apply Hunion in Hg; [by apply elem_of_literal in Hg|done]. }
  rewrite validate_value_eq in Hv. unfold validate_value_body, vidx in Hv. cbn [vget] in Hv. rewrite E1, E2 in Hv. simpl in Hv.
  unfold matches_type, vidx in Hv. cbn [vget] in Hv. rewrite Ety in Hv. simpl in Hv. by destruct (is_object v).
Qed.

(** ** Admitted manifests *)

Definition tool_name (tool : value) : string := default "" (as_str (vidx tool "name")).

(** What the first loop knows of a declaration. *)
Definition declared_as (kinds : gmap string ToolKind) (tool : value) : Prop :=
  tool_name tool <> "" /\ as_str (vidx tool "name") = Some (tool_name tool) /\
  (kinds !! tool_name tool = Some FunctionKind /\ as_str (vidx tool "type") = Some "function" \/
   kinds !! tool_name tool = Some CustomKind /\ as_str (vidx tool "type") = Some "custom").

Lemma declare_loop tools kinds : fold_result declare_tool ∅ tools = Ok kinds -> Forall (declared_as kinds) tools.
Proof.
  intros H. refine (fold_result_inv _ (fun past kinds => Forall (declared_as kinds) past) _ _ [] ∅ kinds _ H); [|constructor].
  intros past acc t acc' HI Ht. unfold declare_tool in Ht. apply rbind_Ok in Ht as (name & Hn & Ht). apply ok_or_Ok in Hn.
  assert (as_str (vidx t "name") = Some name /\ name <> "") as [Hname Hne].
  { destruct (as_str (vidx t "name")) as [[|c n]|]; [done| |done]. injection Hn as <-. split; [done|congruence]. }
  apply rbind_Ok in Ht as (kind & Hk & Ht). destruct (_ || _); [done|]. case_bool_decide as Hdup; [done|]. injection Ht as <-.
  apply eq_None_not_Some in Hdup. apply Forall_app. split.
  - eapply Forall_impl; [exact HI|]. intros u (H1 & H2 & H3). split_and!; [done..|].
    assert (tool_name u <> name) as Hnu by (intros E; rewrite E, Hdup in H3; naive_solver). by rewrite lookup_insert_ne by done.
  - apply Forall_singleton. unfold declared_as, tool_name. rewrite Hname. simpl. split_and!; [done..|]. rewrite lookup_insert_eq.
    destruct (bool_decide (as_str (vidx t "type") = Some "function") && _) eqn:E1.
    + injection Hk as <-. left. apply andb_true_iff in E1 as [E1%bool_decide_eq_true _]. done.
    + case_bool_decide; [|done]. injection Hk as <-. by right.
Qed.

Lemma declared_object kinds t : declared_as kinds t -> exists o, t = VObject o.
Proof. intros (_ & H & _). destruct t; try done. eauto. Qed.

Section admitted.
Variable to_json : list value -> string.
Variable blake3 : string -> string.

Lemma scheduled_tools tools sched m :
  with_scheduling to_json blake3 tools sched = Ok m ->
  mf_tools (em_tools m) = schedule_tool sched <$> tools /\ scheduling m = sched /\ Forall (declared_as (kinds m)) tools /\
  Forall (fun t => strict_tool t = Ok tt) (schedule_tool sched <$> tools).
Proof.
  intros H. unfold with_scheduling in H. apply rbind_Ok in H as (ks & Hk & H). destruct (negb _); [done|]. apply rbind_Ok in H as ([] & Hs & [= <-]).
  split_and!; [done..|by apply declare_loop|]. simpl in Hs. destruct (map_result strict_tool _) as [us|] eqn:E; [|done].
  apply map_result_Ok in E. clear -E. induction E as [|t [] l us Ht _ IH]; by constructor.
Qed.

Lemma set_async_get k b t : k <> "async" -> vidx (set_field "async" b t) k = vidx t k.
Proof. intros H. unfold vidx, set_field, vget. destruct t; try done. by rewrite obj_get_insert_ne. Qed.

Lemma remove_async_get k t : k <> "async" -> vget k (remove_async t) = vget k t.
Proof. intros H. unfold vget, remove_async. destruct t; try done. by rewrite obj_get_remove_ne. Qed.

Lemma declared_scheduled ks sched t : declared_as ks t -> declared_as ks (schedule_tool sched t) /\ tool_name (schedule_tool sched t) = tool_name t.
Proof. unfold declared_as, tool_name, schedule_tool. by rewrite !set_async_get. Qed.

Lemma remove_async_schedule sched o : obj_sorted o -> remove_async (schedule_tool sched (remove_async (VObject o))) = remove_async (VObject o).
Proof.
  intros Hs. unfold schedule_tool, set_field, remove_async. simpl. f_equal.
  assert (obj_sorted (obj_remove "async" o)) as Hr by (eapply obj_sorted_sublist; [apply obj_remove_sublist|done]).
  apply obj_ext; [eapply obj_sorted_sublist; [apply obj_remove_sublist|by apply obj_insert_sorted]|done|]. intros k. destruct (decide (k = "async")) as [->|Hk].
  - rewrite !obj_get_remove_eq; [done..|by apply obj_insert_sorted].
  - by rewrite obj_get_remove_ne, obj_get_insert_ne.
Qed.

(** The projecting loop. *)
Definition wire_tool (m : EmbeddedToolManifest) (t : value) : value :=
  remove_async (encode_tool (encoding_of m (tool_name t)) (tool_name t) t).

Lemma project_loop m tools ts rs :
  fold_result (project_tool m FunctionOnlyExplicitDelivery) ([], ∅) tools = Ok (ts, rs) ->
  ts = wire_tool m <$> tools /\ Forall (fun t => flat_name (tool_name t) = true /\ rs !! tool_name t = Some (encoding_of m (tool_name t))) tools.
Proof.
  intros H. refine (fold_result_inv _ (fun past acc => acc.1 = wire_tool m <$> past /\
    Forall (fun t => flat_name (tool_name t) = true /\ acc.2 !! tool_name t = Some (encoding_of m (tool_name t))) past) _ _ [] ([], ∅) (ts, rs) _ H);
    [|split; [done|constructor]].
  intros past [ts1 rs1] t [ts2 rs2] [H1 H2] Ht. simpl in *. fold (tool_name t) in Ht. destruct (flat_name (tool_name t)) eqn:Ef; [|done].
  destruct (match vget "namespace" t with Some _ => _ | None => _ end); [done|]. injection Ht as <- <-. subst ts1. split; [by rewrite fmap_app|].
  apply Forall_app. split; [|repeat constructor; [done|apply lookup_insert_eq]]. eapply Forall_impl; [exact H2|]. intros u [Hu1 Hu2]. split; [done|].
  destruct (decide (tool_name u = tool_name t)) as [->|Hne]; [apply lookup_insert_eq|]. by rewrite lookup_insert_ne.
Qed.

(** What a host's declaration admits as a call. *)
Definition meets (t : value) (input : ToolInput) : Prop :=
  match input with
  | FunctionInput v => as_str (vidx t "type") = Some "function" /\ validate_value v (vidx t "parameters") "$" = Ok tt
  | CustomInput text => as_str (vidx t "type") = Some "custom" /\ Z.of_nat (chars_count text) <= u64_max
  end.

(** A wire declaration admits what decodes to an admitted call. *)
Definition faithful (e : EncodingMap) (t w : value) : Prop :=
  forall v, value_wf v ->
    validate_value v (vidx w "parameters") "$" = Ok tt <->
    exists input x, decode e (tool_name t) (FunctionInput v) = Ok (input, x) /\ meets t input.

Lemma text_field_distinct tools sched fields m name field delivery :
  with_text_fields to_json blake3 tools sched fields = Ok m -> encoding_of m name = TextEncoding field delivery -> field <> "delivery".
Proof.
  unfold with_text_fields. intros H He. apply rbind_Ok in H as (m0 & _ & H). destruct (List.filter _ _) as [|] eqn:Ef; [|done]. injection H as <-.
  unfold encoding_of in He. simpl in He. case_bool_decide; [|by case_bool_decide]. injection He as <- _.
  destruct (fields !! name) as [f|] eqn:E; simpl; [|done]. apply filter_nil_iff in Ef. rewrite Forall_forall in Ef.
  specialize (Ef (name, f)). rewrite elem_of_map_to_list in Ef. specialize (Ef E). apply negb_false_iff in Ef. unfold text_field_ok in Ef.
  rewrite !andb_true_iff, !negb_true_iff, !bool_decide_eq_false in Ef. naive_solver.
Qed.

Lemma vidx_get k t v : vget k t = Some v -> vidx t k = v.
Proof. unfold vidx. by intros ->. Qed.

Lemma vidx_remove_async k t : k <> "async" -> vidx (remove_async t) k = vidx t k.
Proof. intros H. unfold vidx. by rewrite remove_async_get. Qed.

(** Validation of an encoding, row by row. *)
Lemma wire_faithful m e t :
  declared_as (kinds m) t -> rows e !! tool_name t = Some (encoding_of m (tool_name t)) ->
  (forall field delivery, encoding_of m (tool_name t) = TextEncoding field delivery -> field <> "delivery") ->
  (as_str (vidx t "type") = Some "function" -> validate_function_parameters (vidx t "parameters") = Ok tt) ->
  faithful e t (wire_tool m t).
Proof.
  intros (_ & _ & Hkind) Hrow Hfield Hparams v Hwf. unfold wire_tool. rewrite vidx_remove_async by done. unfold decode. rewrite Hrow. cbn [ok_or rbind].
  destruct (encoding_of m (tool_name t)) as [|field delivery|] eqn:He; cbn [encode_tool].
  - unfold encoding_of in He. destruct Hkind as [[Hk Hty]|[Hk _]]; [|by rewrite bool_decide_eq_true_2 in He].
    split; [intros H; by exists (FunctionInput v), None|]. intros (input & x & [= <- <-] & _ & H). done.
  - assert (as_str (vidx t "type") = Some "custom") as Hty.
    { unfold encoding_of in He. destruct Hkind as [[Hk _]|[_ Hk]]; [|done]. rewrite Hk, bool_decide_eq_false_2 in He by done. by case_bool_decide. }
    change (vidx (wire_declaration _ _ ?p) "parameters") with p. rewrite (validate_envelope _ _ _ _ _ Hwf (Hfield _ _ eq_refl)). split.
    + intros (x & ex & -> & Hd & [text [-> Hl]]%validate_string). inversion Hwf; subst. exists (CustomInput text), (Some ex).
      rewrite (proj2 (unwrap_exact (tool_name t) field delivery _ (VString text) ex H0 (Hfield _ _ eq_refl))) by done. done.
    + intros (input & x & H & Hm). destruct v as [| | | | |o]; try done. inversion Hwf; subst. apply rbind_Ok in H as ([y ex] & Hu & H).
      apply unwrap_exact in Hu as [-> Hd]; [|done|by eapply Hfield]. apply rbind_Ok in H as (text & Ht & [= <- <-]). apply ok_or_Ok in Ht.
      destruct y; try done. injection Ht as ->. exists (VString text), ex. split_and!; [done..|]. apply validate_string. exists text. by destruct Hm.
  - assert (as_str (vidx t "type") = Some "function") as Hty.
    { unfold encoding_of in He. destruct Hkind as [[_ Hk]|[Hk _]]; [done|]. by rewrite Hk, bool_decide_eq_true_2 in He. }
    change (vidx (wire_declaration _ _ ?p) "parameters") with p. rewrite (validate_envelope _ _ _ _ _ Hwf) by done. split.
    + intros (x & ex & -> & Hd & Hx). inversion Hwf; subst. exists (FunctionInput x), (Some ex).
      rewrite (proj2 (unwrap_exact (tool_name t) "arguments" true (envelope "arguments" true x ex) x ex H0 ltac:(done))) by done. cbn [rbind].
      rewrite (parameters_object _ _ _ (Hparams Hty) Hx). cbn [rbind]. split; [done|by split].
    + intros (input & x & H & Hm). destruct v as [| | | | |o]; try done. inversion Hwf; subst. apply rbind_Ok in H as ([y ex] & Hu & H).
      apply unwrap_exact in Hu as [-> Hd]; [|done..]. destruct (is_object y) eqn:Eo; [|done]. injection H as <- <-. exists y, ex. split_and!; [done..|].
      by destruct Hm.
Qed.

Lemma wire_object m t : value_wf t -> (exists o, t = VObject o) -> exists o, encode_tool (encoding_of m (tool_name t)) (tool_name t) t = VObject o /\ obj_sorted o.
Proof.
  intros Hwf [o ->]. destruct (encoding_of m _); cbn [encode_tool].
  - exists o. split; [done|]. by inversion Hwf.
  - eexists. split; [done|]. repeat apply obj_insert_sorted. constructor.
  - eexists. split; [done|]. repeat apply obj_insert_sorted. constructor.
Qed.

Lemma wire_name_type m t :
  declared_as (kinds m) t -> as_str (vidx (wire_tool m t) "name") = Some (tool_name t) /\ vidx (wire_tool m t) "type" = VString "function".
Proof.
  intros (_ & Hn & Hk). unfold wire_tool. rewrite !vidx_remove_async by done.
  destruct (encoding_of m (tool_name t)) eqn:He; cbn [encode_tool]; [|done..]. split; [done|]. unfold encoding_of in He.
  destruct Hk as [[_ Hty]|[Hk _]]; [|by rewrite Hk, bool_decide_eq_true_2 in He]. destruct (vidx t "type"); try done. by injection Hty as ->.
Qed.

Lemma strict_parameters t : strict_tool t = Ok tt -> vidx t "type" = VString "function" -> validate_function_parameters (vidx t "parameters") = Ok tt.
Proof.
  unfold strict_tool, veq_str. intros H Ht. rewrite Ht, bool_decide_eq_true_2 in H by done. destruct (negb _); [done|]. unfold validate_parameters in H.
  by destruct (validate_function_parameters _) as [[]|].
Qed.
End admitted.


(** ** Witness *)

Definition toy_parameters : value :=
  json_object [("type", VString "object"); ("properties", json_object [("path", json_object [("type", VString "string")])]);
               ("required", VArray [VString "path"]); ("additionalProperties", VBool false)].

Definition toy_function (name : string) : value :=
  json_object [("type", VString "function"); ("name", VString name); ("strict", VBool true); ("parameters", toy_parameters)].

(** A freeform tool, a function that runs in the background and one that does not. *)
Definition toy_tools : list value :=
  [json_object [("type", VString "custom"); ("name", VString "write")]; toy_function "run"; toy_function "read"].

Definition toy_manifest : result SurfaceError EmbeddedToolManifest :=
  with_text_fields (fun _ => "[]") id toy_tools {["read" := BeforeNextInference]} {["write" := "body"]}.

Definition toy_projection : result SurfaceError (EmbeddedToolManifest * EncodingMap) :=
  do m <- toy_manifest; project (fun _ => "[]") id m FunctionOnlyExplicitDelivery.

Definition toy_installed : EmbeddedToolManifest :=
  match toy_manifest with Ok m => m | Err _ => {| em_tools := manifest_of (fun _ => "") id []; kinds := ∅; scheduling := ∅; text_fields := ∅ |} end.

Definition toy_wire : EmbeddedToolManifest * EncodingMap :=
  match toy_projection with Ok x => x | Err _ => (toy_installed, {| profile := NativeEncoding; rows := ∅ |}) end.

Definition toy_arguments : value :=
  json_object [("arguments", json_object [("path", VString "a")]); ("delivery", VString "background")].

Lemma toy_tools_wf : Forall value_wf toy_tools.
Proof. repeat (constructor; simpl). Qed.

Lemma toy_installed_eq : toy_manifest = Ok toy_installed.
Proof. assert (is_ok toy_manifest = true) as H by (vm_compute; reflexivity). unfold toy_installed. by destruct toy_manifest. Qed.

Lemma toy_wire_eq : project (fun _ => "[]") id toy_installed FunctionOnlyExplicitDelivery = Ok (toy_wire.1, toy_wire.2).
Proof.
  assert (is_ok toy_projection = true) as H by (vm_compute; reflexivity). unfold toy_wire. unfold toy_projection in *.
  rewrite toy_installed_eq in *. cbn [rbind] in *. destruct (project _ _ _ _) as [[? ?]|]; done.
Qed.

