(* ===== verification/ReplayRecords.v ===== *)
(** Recorded turns: [store/replay.rs].

    A request is sealed by interning its exact bytes before it is sent; the
    completed response is recorded against the sealed references; a recorded
    turn is decoded from them later. A finalize call that met its contract is
    marked at the exact occurrence that carried it. The theorems show that
    decoding returns exactly what was sealed and received, that a marker proves
    the contract was met, and that evidence read from old records names an
    occurrence only when no other reading exists. *)

From S2P Require Import Prelude Json SchemaModel Redaction Usage Observation Sse Failure StoreDb Admission Jobs Lists Item ContextPatch ContextText HistoryDb HistoryOps HistoryProofs HistoryClaims ContextOrder ContextBlocks Finalize Requests.

(** [RecordedReplayTurn]. *)
Record RecordedReplayTurn := {
  rt_request : string;
  rt_model_request : ResponsesRequest;
  rt_model_response : ResponsesTurn;
  rt_contract : option (ResponsesRoute * ResponsesProtocol);
  rt_outputs : option (list (option IssuedOutputReference));
  rt_event : Z
}.

Section replay.
(** [serde_json::to_string] of a value and the hexadecimal BLAKE3 digest. *)
Variable to_json : value -> string.
Variable blake3 : string -> string.
(** The Store's readers that validate published outputs. *)
Variable E : HistoryEvidence.

Definition item_digest (v : value) : string := blake3 (to_json v).

Abbreviation put := (put_item item_digest).
Abbreviation manifest := (manifest_of (fun tools => to_json (VArray tools)) blake3).

Definition read_item (db : Hdb) (hash : string) : result StoreError value := ok_or (h_items db !! hash) (MissingReplayItem hash).

(** ** Sealing *)

(** [CheckedContextProjection::admits], which its constructor owns. *)
Record CheckedProjection := { admits : value -> Occurrence -> bool }.

Inductive SealProvenance :=
| NoProvenance
| RawProvenance (head : string) (occurrences : list (option Occurrence))
| CheckedProvenance (head : string) (occurrences : list (option Occurrence)) (projection : CheckedProjection).

(** A context error raised while output history is validated. *)
Definition store_fault (e : ContextFault) : StoreError :=
  match e with StoreFault e => e | _ => OtherStoreError "context" end.

Definition occurrences_for_requests (db : Hdb) (requests : list string) : result StoreError (list Occurrence) :=
  do os <- map_result (request_occurrences db) (remove_dups requests); Ok (concat os).

Definition find_occurrence (os : list Occurrence) (request : string) (position : Z) : option Occurrence :=
  List.find (fun o => bool_decide (occ_request o = request) && (occ_position o =? position)) os.

#[export] Instance ContextTextOverlay_eq_dec : EqDecision ContextTextOverlay.
Proof. solve_decision. Defined.
#[export] Instance Occurrence_eq_dec : EqDecision Occurrence.
Proof. solve_decision. Defined.

(** The owner of one input position; [seen] holds the origins claimed before it. *)
Definition seal_owner (persisted : list Occurrence) (visible : list (string * Z)) (projection : option CheckedProjection)
    (acc : list Origin * list (option IssuedOutputReference)) (x : value * option Occurrence)
    : result StoreError (list Origin * list (option IssuedOutputReference)) :=
  let '(seen, owners) := acc in
  let '(item, selected) := x in
  match selected with
  | None => Ok (seen, owners ++ [None])
  | Some o =>
      match output_operation o with
      | None => Ok (seen, owners ++ [None])
      | Some operation =>
          do stored <- ok_or (find_occurrence persisted (occ_request o) (occ_position o)) OperationOriginMismatch;
          guard bool_decide ((occ_request o, occ_position o) ∈ visible) else OperationOriginMismatch;
          guard match projection with
                | Some p => bool_decide (stored <| overlays := overlays o |> = o) && admits p item o
                | None => bool_decide (stored = o)
                end else OperationOriginMismatch;
          if negb (is_tool_output item) then Ok (seen, owners ++ [None]) else
          refuse negb (bool_decide (vidx item "type" = vidx (occ_item o) "type")) || negb (veq_str (vidx item "call_id") (call operation))
                 || bool_decide (occ_origin o ∈ seen) with OperationOriginMismatch;
          Ok (occ_origin o :: seen, owners ++ [Some {| ior_origin := occ_origin o; ior_operation := operation |}])
      end
  end.

(** [None] is a history query that never ends. *)
Definition seal_output_references (db : Hdb) (head : string) (input : list value) (occurrences : list (option Occurrence))
    (projection : option CheckedProjection) : option (result StoreError (list (option IssuedOutputReference))) :=
  if negb (length input =? length occurrences)%nat then Some (Err OperationOriginMismatch) else
  let selected := List.filter (fun o => bool_decide (is_Some (output_operation o))) (omap id occurrences) in
  match occurrences_for_requests db (occ_request <$> selected) with
  | Err e => Some (Err e)
  | Ok persisted =>
      (fun visible =>
        do visible <- visible;
        do _ <- map_err store_fault (validate_history E selected);
        do '(_, owners) <- fold_result (seal_owner persisted ((fun o => (occ_request o, occ_position o)) <$> visible) projection)
                             ([], []) (zip input occurrences);
        Ok owners) <$> history db head true
  end.

(** One input position: a supplied hash is kept, anything else interned. *)
Definition seal_item (acc : list string * Hdb) (x : value * option string * option IssuedOutputReference)
    : result StoreError (list string * Hdb) :=
  let '(hashes, db) := acc in
  let '(item, hash, owner) := x in
  match hash with
  | Some h =>
      refuse bool_decide (is_Some owner) && negb (bool_decide (item_digest item = h)) with OperationOriginMismatch;
      Ok (hashes ++ [h], db)
  | None => let '(h, db) := put db item in Ok (hashes ++ [h], db)
  end.

(** [INSERT INTO items] of an absent manifest. *)
Definition put_manifest (db : Hdb) (m : ToolManifest) : Hdb :=
  match h_items db !! mf_hash m with Some _ => db | None => db <| h_items ::= insert (mf_hash m) (VArray (mf_tools m)) |> end.

Definition seal_outputs (db : Hdb) (r : ResponsesRequest) (provenance : SealProvenance)
    : option (result StoreError (option (list (option IssuedOutputReference)))) :=
  match provenance with
  | NoProvenance => Some (Ok None)
  | RawProvenance head os => (fun x => do owners <- x; Ok (Some owners)) <$> seal_output_references db head (rq_input r) os None
  | CheckedProvenance head os p => (fun x => do owners <- x; Ok (Some owners)) <$> seal_output_references db head (rq_input r) os (Some p)
  end.

(** [seal_replay_request_inner]; misaligned hashes are a panic. *)
Definition seal_replay_request (db : Hdb) (r : ResponsesRequest) (hashes : list (option string)) (instr : option string)
    (provenance : SealProvenance) : option (result StoreError (IssuedRequestRecord * Hdb)) :=
  if negb (length hashes =? length (rq_input r))%nat then Some (Err (OtherStoreError "Engine input provenance must align")) else
  (fun outputs =>
    do outputs <- outputs;
    let owners := match outputs with Some owners => owners | None => replicate (length (rq_input r)) None end in
    do '(input, db) <- fold_result seal_item ([], db) (zip (zip (rq_input r) hashes) owners);
    let '(instr, db) := match instr with Some h => (h, db) | None => put db (VString (rq_instructions r)) end in
    let db := put_manifest db (rq_tools r) in
    Ok ({| native_transport := None; purpose := Some Inference; issued_input := input; issued_outputs := outputs;
           instructions := instr; tools := mf_hash (rq_tools r); tools_allowed := rq_allowed r; issued_model := rq_model r;
           pinned_effort := rq_effort r; session_thread := thread (rq_session r); session_affinity := affinity (rq_session r);
           prompt_cache_comparison := comparison_response_id <$> rq_cache r |}, db)) <$> seal_outputs db r provenance.

(** [record_issued_replay_turn]. *)
Definition record_issued_replay_turn (db : Hdb) (r : string) (record : IssuedRequestRecord) (response : ResponsesTurn) : Z * Hdb :=
  let '(hashes, db) := foldl (fun acc item => let '(h, db) := put acc.2 item in (acc.1 ++ [h], db)) ([], db) (turn_items response) in
  record_event db {| event_request := Some r;
                     event_body := ModelTurn {| rr_request := r; rr_issued := record; rr_response_id := Sse.response_id response;
                                                rr_items := hashes; rr_usage := turn_usage response; rr_contract := None;
                                                rr_completion := None |} |}.

(** ** Decoding *)

Definition validate_owner (sources : list Occurrence) (invalid : StoreError) (acc : list Origin * list Occurrence)
    (x : value * option IssuedOutputReference) : result StoreError (list Origin * list Occurrence) :=
  let '(seen, selected) := acc in
  let '(item, owner) := x in
  match owner with
  | None => Ok (seen, selected)
  | Some owner =>
      do source <- ok_or (find_occurrence sources (o_request (ior_origin owner)) (o_position (ior_origin owner))) invalid;
      refuse negb (bool_decide (occ_origin source = ior_origin owner))
             || negb (bool_decide (output_operation source = Some (ior_operation owner)))
             || negb (bool_decide (vidx item "type" = vidx (occ_item source) "type"))
             || negb (veq_str (vidx item "call_id") (call (ior_operation owner)))
             || bool_decide (ior_origin owner ∈ seen) with invalid;
      Ok (ior_origin owner :: seen, selected ++ [source])
  end.

Definition validate_output_references (db : Hdb) (event : Z) (input : list value) (outputs : list (option IssuedOutputReference))
    : result StoreError unit :=
  let invalid := InvalidReplayOwnership event in
  refuse negb (length outputs =? length input)%nat with invalid;
  do sources <- occurrences_for_requests db (o_request ∘ ior_origin <$> omap id outputs);
  do '(_, selected) <- fold_result (validate_owner sources invalid) ([], []) (zip input outputs);
  map_err store_fault (validate_history E selected).

Definition decode_instructions (v : value) : result StoreError string := ok_or (as_str v) (OtherStoreError "Json").
Definition decode_tools (v : value) : result StoreError ToolManifest :=
  do tools <- ok_or (as_array v) (OtherStoreError "Json"); Ok (manifest tools).

(** The contract a recorded turn was issued under, when a provider owned it. *)
Definition recorded_contract (db : Hdb) (event : Z) (record : ReplayRecord)
    : result StoreError (option (ResponsesRoute * ResponsesProtocol)) :=
  match h_provider db !! rr_request record with
  | None => Ok None
  | Some row =>
      let contract := (p_route row, p_protocol row) in
      refuse negb (bool_decide (issued row = rr_issued record)) || negb (bool_decide (p_state row = RCompleted))
             || negb (bool_decide (completion_event row = Some event)) || negb (bool_decide (rr_contract record = Some contract))
        with InvalidProviderEvidence (rr_request record);
      Ok (Some contract)
  end.

Definition decode_replay_record (db : Hdb) (event : Z) (record : ReplayRecord) : result StoreError RecordedReplayTurn :=
  let issued := rr_issued record in
  do contract <- recorded_contract db event record;
  do instr <- read_item db (instructions issued);
  do tools <- read_item db (HistoryDb.tools issued);
  do input <- map_result (read_item db) (issued_input issued);
  do instr <- decode_instructions instr;
  do tools <- decode_tools tools;
  do _ <- match issued_outputs issued with Some outputs => validate_output_references db event input outputs | None => Ok tt end;
  do items <- map_result (read_item db) (rr_items record);
  Ok {| rt_request := rr_request record;
        rt_model_request :=
          {| rq_input := input; rq_instructions := instr; rq_tools := tools; rq_allowed := tools_allowed issued;
             rq_model := issued_model issued; rq_effort := pinned_effort issued;
             rq_session := {| thread := session_thread issued; affinity := session_affinity issued |};
             rq_cache := Build_PromptCacheComparison <$> prompt_cache_comparison issued |};
        rt_model_response := {| Sse.response_id := rr_response_id record; turn_items := items; turn_usage := rr_usage record |};
        rt_contract := contract; rt_outputs := issued_outputs issued; rt_event := event |}.

(** ** Completion markers *)

(** A row that is its own source. *)
Definition original_row (r : string) (p : Z) (row : ItemRow) : bool :=
  match row_source_request row with
  | None => true
  | Some source => bool_decide (source = r) && bool_decide (row_source_position row = Some p)
  end.

Definition is_finalize_call (item : value) : bool :=
  veq_str (vidx item "type") "function_call" && veq_str (vidx item "name") FINALIZE_TOOL_NAME.

(** [serde_json::from_str], with its error text. *)
Variable from_str : string -> result string value.

Definition validate_completion_record (db : Hdb) (event : Z) (record : ReplayRecord) : result StoreError Origin :=
  let invalid := InvalidCompletionMarker event in
  do '(origin, schema) <- ok_or (rr_completion record) invalid;
  guard bool_decide (rr_request record = o_request origin) else invalid;
  guard match rows_of db (o_request origin) !! o_position origin with
        | Some row => original_row (o_request origin) (o_position origin) row && bool_decide (row_hash row = o_hash origin)
        | None => false
        end else invalid;
  do item <- read_item db (o_hash origin);
  do schema_item <- read_item db schema;
  refuse negb (bool_decide (item_digest item = o_hash origin)) || negb (bool_decide (item_digest schema_item = schema)) with invalid;
  do tools <- read_item db (HistoryDb.tools (rr_issued record));
  refuse match as_array tools with
         | Some tools => negb (length (List.filter (fun t => bool_decide (t = schema_item)) tools) =? 1)%nat
         | None => true
         end
         || match tools_allowed (rr_issued record) with
            | Some allowed => negb (bool_decide (FINALIZE_TOOL_NAME ∈ allowed))
            | None => false
            end with invalid;
  do calls <- map_result (fun h => do item <- read_item db h; Ok (h, item)) (rr_items record);
  match List.filter (fun c => is_finalize_call c.2) calls with
  | [(h, final)] =>
      refuse negb (bool_decide (h = o_hash origin)) || negb (bool_decide (final = item)) with invalid;
      do _ <- map_err (fun _ => invalid) (validated_finalize from_str item schema_item);
      Ok origin
  | _ => Err invalid
  end.

(** The events whose marker names the occurrence. *)
Definition marked_events (db : Hdb) (origin : Origin) : list (Z * ReplayRecord) :=
  omap (fun e => match event_body e.2 with
                 | ModelTurn record =>
                     match rr_completion record with
                     | Some (marked, _) =>
                         if bool_decide (event_request e.2 = Some (o_request origin)) && (o_position marked =? o_position origin)
                            && bool_decide (o_hash marked = o_hash origin) then Some (e.1, record) else None
                     | None => None
                     end
                 | _ => None
                 end) (by_key (h_events db)).

Definition is_validated_completion (db : Hdb) (origin : Origin) : result StoreError bool :=
  match marked_events db origin with
  | [] => Ok false
  | [(event, record)] => do validated <- validate_completion_record db event record; Ok (bool_decide (validated = origin))
  | (event, _) :: _ => Err (InvalidCompletionMarker event)
  end.

Definition record_validated_finalize (db : Hdb) (event : Z) (r : string) (completion : ValidatedFinalize) : result StoreError Hdb :=
  let invalid := InvalidCompletionMarker event in
  do record <- ok_or (match h_events db !! event with
                      | Some {| event_request := req; event_body := ModelTurn record |} =>
                          if bool_decide (req = Some r) then Some record else None
                      | _ => None
                      end) invalid;
  let '(hash, db) := put db (vf_item completion) in
  do position <-
    match List.filter (fun e => bool_decide (row_hash e.2 = hash) && original_row r e.1 e.2) (by_key (rows_of db r)) with
    | [(position, _)] => Ok position
    | _ => Err invalid
    end;
  let '(schema, db) := put db (vf_schema completion) in
  let marker := ({| o_request := r; o_position := position; o_hash := hash |}, schema) in
  refuse match rr_completion record with Some old => negb (bool_decide (old = marker)) | None => false end with invalid;
  let record := {| rr_request := rr_request record; rr_issued := rr_issued record; rr_response_id := rr_response_id record;
                   rr_items := rr_items record; rr_usage := rr_usage record; rr_contract := rr_contract record;
                   rr_completion := Some marker |} in
  do _ <- validate_completion_record db event record;
  Ok (db <| h_events ::= insert event {| event_request := Some r; event_body := ModelTurn record |} |>).
End replay.
