(* ===== verification/ReplayEvidence.v ===== *)
(** Evidence of responses: [response_envelopes] and [ordered_membership] of
    [store/replay.rs].

    A response issued through the provider rows is proved by them. An older
    record holds only the hashes of its items; it is accepted as evidence when
    its items can be found among the request's own rows in one way only. The
    theorem shows that comparing the first and the last reading decides that. *)

From S2P Require Import Prelude Json Redaction Usage Observation Sse Failure StoreDb Admission Jobs Lists Item ContextPatch ContextText HistoryDb HistoryOps HistoryProofs.

(** [ordered_membership] forwards: each hash at its first match after the one before. *)
Fixpoint first_membership (original : list Occurrence) (hashes : list string) : option (list Origin) :=
  match hashes with
  | [] => Some []
  | h :: hashes' =>
      match original with
      | [] => None
      | o :: os => if bool_decide (occ_hash o = h) then cons (occ_origin o) <$> first_membership os hashes'
                   else first_membership os hashes
      end
  end.

(** Backwards: the same search from the end. *)
Definition ordered_membership (original : list Occurrence) (hashes : list string) (reverse_ : bool) : option (list Origin) :=
  if reverse_ then (fun l => reverse l) <$> first_membership (reverse original) (reverse hashes) else first_membership original hashes.

(** A [model_turn] payload: a record this version reads, or the native
    contract and item hashes of one it does not. *)
Inductive TurnPayload :=
| ReadableTurn (record : ReplayRecord)
| UnreadableTurn (native : option NativeTransportContract) (hashes : list string).

Section envelopes.
Variable validate_native : NativeTransportContract -> result TransportError unit.
Variable source_response_envelope : Hdb -> string -> result StoreError (option ResponseEnvelope).
(** The compaction component's envelopes of a request. *)
Variable compaction_envelopes : Hdb -> string -> result StoreError (list ResponseEnvelope).

(** The rows of a request that are their own source. *)
Definition own_occurrences (os : list Occurrence) : list Occurrence :=
  List.filter (fun o => bool_decide (occ_request o = o_request (occ_origin o)) && (occ_position o =? o_position (occ_origin o))) os.

Definition check_native (native : option NativeTransportContract) : result StoreError unit :=
  match native with Some n => map_err ProviderAdmission (validate_native n) | None => Ok tt end.

Definition read_payload (r : string) (original : list Occurrence) (acc : list ResponseEnvelope * list string) (payload : TurnPayload)
    : result StoreError (list ResponseEnvelope * list string) :=
  let '(envelopes, unknown) := acc in
  match payload with
  | UnreadableTurn native hashes => do _ <- check_native native; Ok (envelopes, unknown ++ hashes)
  | ReadableTurn record =>
      do _ <- check_native (native_transport (rr_issued record));
      let hashes := rr_items record in
      if negb (bool_decide (rr_request record = r)) || is_blank (issued_model (rr_issued record)) then Ok (envelopes, unknown ++ hashes) else
      match ordered_membership original hashes false with
      | Some origins =>
          if bool_decide (ordered_membership original hashes true = Some origins) then
            Ok (envelopes ++ [{| re_model := issued_model (rr_issued record); re_origins := origins; re_kind := KindModelTurn;
                                 re_completeness := CompleteResponse; re_route := None; re_protocol := None; re_native := None |}],
                unknown)
          else Ok (envelopes, unknown ++ hashes)
      | None => Ok (envelopes, unknown ++ hashes)
      end
  end.

(** The envelope of each origin, and the origins two envelopes claim. *)
Definition claim_origin (env : ResponseEnvelope) (acc : gmap Origin ResponseEnvelope * list Origin) (origin : Origin)
    : gmap Origin ResponseEnvelope * list Origin :=
  (<[origin := env]> acc.1, if bool_decide (is_Some (acc.1 !! origin)) then origin :: acc.2 else acc.2).

Definition claim_envelopes (envelopes : list ResponseEnvelope) : gmap Origin ResponseEnvelope * list Origin :=
  foldl (fun acc env => foldl (claim_origin env) acc (re_origins env)) (∅, []) envelopes.

Definition response_envelopes (db : Hdb) (r : string) (payloads : list TurnPayload) : result StoreError (gmap Origin ResponseEnvelope) :=
  do issued <- match h_provider db !! r with
               | Some _ => do env <- issued_envelope validate_native source_response_envelope db r; Ok (Some env)
               | None => Ok None
               end;
  match issued with
  | Some env => Ok match env with Some env => foldl (fun m origin => <[origin := env]> m) ∅ (re_origins env) | None => ∅ end
  | None =>
      do os <- request_occurrences db r;
      do '(envelopes, unknown) <- fold_result (read_payload r (own_occurrences os)) ([], []) payloads;
      do compacted <- compaction_envelopes db r;
      let '(matching, ambiguous) := claim_envelopes (envelopes ++ compacted) in
      Ok (filter (fun e => o_hash e.1 ∉ unknown /\ e.1 ∉ ambiguous) matching)
  end.
End envelopes.

(** ** Readings *)

(** An increasing choice of positions that carry the hashes. *)
Definition embeds (original : list string) (hashes : list string) (idx : list nat) : Prop :=
  StronglySorted lt idx /\ Forall2 (fun i h => original !! i = Some h) idx hashes.

Lemma embeds_nil original idx : embeds original [] idx <-> idx = [].
Proof. split; [intros [_ H]; by inversion H|intros ->; split; constructor]. Qed.

Lemma sorted_pred idx : StronglySorted lt idx -> Forall (fun i => 1 <= i)%nat idx -> StronglySorted lt (pred <$> idx).
Proof.
  induction 1 as [|i idx Hs IH Hall]; intros Hp; [constructor|]. apply Forall_cons in Hp as [Hi Hp]. simpl. constructor; [by apply IH|].
  apply Forall_fmap. apply Forall_forall. intros j Hj. rewrite Forall_forall in Hall, Hp. specialize (Hall j Hj). specialize (Hp j Hj). simpl. lia.
Qed.

Lemma sorted_S idx : StronglySorted lt idx -> StronglySorted lt (S <$> idx).
Proof.
  induction 1 as [|i idx Hs IH Hall]; simpl; constructor; [done|]. apply Forall_fmap. eapply Forall_impl; [exact Hall|]. simpl. lia.
Qed.

(** Skipping the first position. *)
Lemma embeds_later o os hs idx :
  Forall (fun i => 1 <= i)%nat idx -> embeds (o :: os) hs idx -> embeds os hs (pred <$> idx).
Proof.
  intros Hp [Hs Hf]. split; [by apply sorted_pred|]. apply Forall2_fmap_l. clear Hs. induction Hf as [|i h idx hs Hi _ IH]; [constructor|].
  apply Forall_cons in Hp as [Hpi Hp]. constructor; [|by apply IH]. destruct i; [lia|]. done.
Qed.

Lemma embeds_S o os hs idx : embeds os hs idx -> embeds (o :: os) hs (S <$> idx).
Proof. intros [Hs Hf]. split; [by apply sorted_S|]. by apply Forall2_fmap_l. Qed.

Lemma embeds_cons o os h hs idx : embeds (o :: os) (h :: hs) idx ->
  (o = h /\ exists idx', idx = 0%nat :: (S <$> idx') /\ embeds os hs idx') \/
  (exists idx', idx = S <$> idx' /\ embeds os (h :: hs) idx').
Proof.
  intros [Hs Hf]. inversion Hf as [|i h' rest hs' Hi Hrest]; subst. inversion Hs as [|? ? Hs' Hall]; subst.
  assert (Forall (fun j => 1 <= j)%nat rest) as Hp by (eapply Forall_impl; [exact Hall|]; simpl; lia).
  assert (forall l, Forall (fun j => 1 <= j)%nat l -> l = S <$> (pred <$> l)) as Hround.
  { intros l Hl. induction Hl as [|j l Hj _ IH]; [done|]. rewrite !fmap_cons, <- IH. f_equal. lia. }
  destruct i as [|i].
  - left. injection Hi as ->. split; [done|]. exists (pred <$> rest). rewrite <- Hround by done. split; [done|].
    apply (embeds_later h); [done|by split].
  - right. exists (pred <$> (S i :: rest)). rewrite <- Hround by (constructor; [lia|done]). split; [done|].
    apply (embeds_later o); [constructor; [lia|done]|split; by constructor].
Qed.

(** The forward reading is the earliest at every position. *)
Lemma first_membership_least os : forall hs,
  match first_membership os hs with
  | Some origins => exists idx, embeds (occ_hash <$> os) hs idx /\ Forall2 (fun i origin => occ_origin <$> os !! i = Some origin) idx origins /\
                      forall idx', embeds (occ_hash <$> os) hs idx' -> Forall2 le idx idx'
  | None => forall idx, ~ embeds (occ_hash <$> os) hs idx
  end.
Proof.
  induction os as [|o os IH]; intros [|h hs]; cbn [first_membership].
  1,3: exists []; split; [by apply embeds_nil|split; [constructor|intros idx' Hx; apply embeds_nil in Hx; subst idx'; constructor]].
  - intros idx [_ Hf]. inversion Hf as [|i ? ? ? Hi]; subst. done.
  - rewrite fmap_cons. case_bool_decide as Eh.
    + specialize (IH hs). destruct (first_membership os hs) as [origins|]; cbn [fmap option_fmap option_map].
      * destruct IH as (idx & He & Ho & Hle). exists (0%nat :: (S <$> idx)). split; [|split].
        -- destruct (embeds_S (occ_hash o) _ _ _ He) as [Hs Hf]. split; [|constructor; [simpl; congruence|done]]. constructor; [done|].
           apply Forall_fmap, Forall_forall. intros j _. simpl. lia.
        -- constructor; [done|]. by apply Forall2_fmap_l.
        -- intros idx' [(_ & rest & -> & Hr)|(idx1 & -> & H1)]%embeds_cons.
           ++ constructor; [done|]. apply Forall2_fmap. eapply Forall2_impl; [by apply Hle|]. lia.
           ++ destruct H1 as [Hs Hf]. inversion Hf as [|i ? rest ? Hi Hrest]; subst. inversion Hs; subst. simpl. constructor; [lia|].
              apply Forall2_fmap. eapply Forall2_impl; [apply Hle; by split|]. lia.
      * intros idx' [(_ & rest & -> & Hr)|(idx1 & -> & [Hs Hf])]%embeds_cons; [by eapply IH|].
        inversion Hf as [|i ? rest ? Hi Hrest]; subst. inversion Hs; subst. eapply IH. split; done.
    + specialize (IH (h :: hs)). destruct (first_membership os (h :: hs)) as [origins|].
      * destruct IH as (idx & He & Ho & Hle). exists (S <$> idx). split; [by apply embeds_S|split; [by apply Forall2_fmap_l|]].
        intros idx' [(? & _)|(idx1 & -> & H1)]%embeds_cons; [done|]. apply Forall2_fmap. eapply Forall2_impl; [by apply Hle|]. lia.
      * intros idx' [(? & _)|(idx1 & -> & H1)]%embeds_cons; [done|]. by eapply IH.
Qed.

(** ** From the end *)

Definition mirror (n i : nat) : nat := n - S i.

Lemma embeds_bound os hs idx : embeds os hs idx -> Forall (fun i => i < length os)%nat idx.
Proof. intros [_ Hf]. clear -Hf. induction Hf as [|i h idx hs Hi _ IH]; constructor; [|done]. by eapply lookup_lt_Some. Qed.

Lemma mirror_involutive n idx : Forall (fun i => i < n)%nat idx -> mirror n <$> (mirror n <$> idx) = idx.
Proof. induction 1 as [|i idx Hi _ IH]; [done|]. rewrite !fmap_cons, IH. f_equal. unfold mirror. lia. Qed.

Lemma sorted_mirror n idx : StronglySorted lt idx -> Forall (fun i => i < n)%nat idx -> StronglySorted lt (reverse (mirror n <$> idx)).
Proof.
  induction 1 as [|i idx Hs IH Hall]; intros Hb; [constructor|]. apply Forall_cons in Hb as [Hi Hb]. rewrite fmap_cons, reverse_cons.
  apply StronglySorted_app. split_and!; [|by apply IH|repeat constructor]. intros x y Hx ->%list_elem_of_singleton.
  apply elem_of_reverse, list_elem_of_fmap in Hx as (j & -> & Hj). rewrite Forall_forall in Hall, Hb. specialize (Hall j Hj).
  specialize (Hb j Hj). simpl in *. unfold mirror. lia.
Qed.

Lemma embeds_mirror os hs idx : embeds os hs idx -> embeds (reverse os) (reverse hs) (reverse (mirror (length os) <$> idx)).
Proof.
  intros He. pose proof (embeds_bound _ _ _ He) as Hb. destruct He as [Hs Hf]. split; [by apply sorted_mirror|].
  apply Forall2_reverse, Forall2_fmap_l. clear Hs. induction Hf as [|i h idx hs Hi _ IH]; [constructor|].
  apply Forall_cons in Hb as [Hbi Hb]. constructor; [|by apply IH]. change (reverse os !! mirror (length os) i = Some h). unfold mirror. rewrite reverse_lookup by lia.
  replace (length os - S (length os - S i))%nat with i by lia. done.
Qed.

(** The backward reading is the latest at every position. *)
Lemma last_membership_greatest os hs :
  match ordered_membership os hs true with
  | Some origins => exists idx, embeds (occ_hash <$> os) hs idx /\ Forall2 (fun i origin => occ_origin <$> os !! i = Some origin) idx origins /\
                      forall idx', embeds (occ_hash <$> os) hs idx' -> Forall2 le idx' idx
  | None => forall idx, ~ embeds (occ_hash <$> os) hs idx
  end.
Proof.
  unfold ordered_membership. pose proof (first_membership_least (reverse os) (reverse hs)) as H.
  destruct (first_membership (reverse os) (reverse hs)) as [origins|]; cbn [fmap option_fmap option_map]; rewrite fmap_reverse in H.
  - destruct H as (idx & He & Ho & Hle). pose proof (embeds_bound _ _ _ He) as Hb. set (n := length (occ_hash <$> os)).
    assert (length (reverse (occ_hash <$> os)) = n) as Hn by (by rewrite length_reverse). rewrite Hn in Hb.
    exists (reverse (mirror n <$> idx)). split; [|split].
    + pose proof (embeds_mirror _ _ _ He) as H. by rewrite Hn, !reverse_involutive in H.
    + apply Forall2_reverse, Forall2_fmap_l. clear Hle He. induction Ho as [|i origin idx origins Hi _ IH]; [constructor|].
      apply Forall_cons in Hb as [Hbi Hb]. constructor; [|by apply IH]. unfold n in Hbi |- *. rewrite length_fmap in *.
      change (occ_origin <$> os !! mirror (length os) i = Some origin). by rewrite reverse_lookup in Hi by lia.
    + intros idx' He'. specialize (Hle _ (embeds_mirror _ _ _ He')). fold n in Hle.
      pose proof (embeds_bound _ _ _ He') as Hb'. fold n in Hb'. rewrite <- (mirror_involutive n idx' Hb').
      rewrite <- (reverse_involutive (mirror n <$> (mirror n <$> idx'))). apply Forall2_reverse. rewrite <- fmap_reverse.
      apply Forall2_fmap. apply Forall2_flip. eapply Forall2_impl; [exact Hle|]. intros i j Hij. unfold flip, mirror. lia.
  - intros idx He. by apply (H _ (embeds_mirror _ _ _ He)).
Qed.

(** ** One reading *)

(** [origins] is the only way to read [hs] in [os]. *)
Definition only_reading (os : list Occurrence) (hs : list string) (origins : list Origin) : Prop :=
  exists idx, embeds (occ_hash <$> os) hs idx /\ Forall2 (fun i origin => occ_origin <$> os !! i = Some origin) idx origins /\
    forall idx', embeds (occ_hash <$> os) hs idx' -> idx' = idx.

Lemma origins_determine (os : list Occurrence) (idx : list nat) : NoDup (occ_origin <$> os) -> forall idx' origins,
  Forall2 (fun i origin => occ_origin <$> os !! i = Some origin) idx origins ->
  Forall2 (fun i origin => occ_origin <$> os !! i = Some origin) idx' origins -> idx = idx'.
Proof.
  intros Hnd idx' origins H. revert idx'. induction H as [|i origin idx origins Hi _ IH]; intros idx' H'; inversion H' as [|j ? rest ? Hj Hr]; subst; [done|].
  f_equal; [|by apply IH]. rewrite <- list_lookup_fmap in Hi, Hj. by eapply NoDup_lookup.
Qed.

Lemma le_antisym_lists idx idx' : Forall2 le idx idx' -> Forall2 le idx' idx -> idx = idx'.
Proof. induction 1 as [|i j idx idx' Hij _ IH]; intros H; [done|]. inversion H; subst. f_equal; [lia|by apply IH]. Qed.

Lemma origins_functional (os : list Occurrence) (idx : list nat) : forall origins origins',
  Forall2 (fun i origin => occ_origin <$> os !! i = Some origin) idx origins ->
  Forall2 (fun i origin => occ_origin <$> os !! i = Some origin) idx origins' -> origins = origins'.
Proof.
  intros origins origins' H. revert origins'. induction H as [|i origin idx origins Hi _ IH]; intros origins' H'; inversion H'; subst; [done|].
  f_equal; [congruence|by apply IH].
Qed.

Lemma membership_only os hs origins : NoDup (occ_origin <$> os) ->
  (ordered_membership os hs false = Some origins /\ ordered_membership os hs true = Some origins) <-> only_reading os hs origins.
Proof.
  intros Hnd. pose proof (first_membership_least os hs) as Hf. pose proof (last_membership_greatest os hs) as Hl.
  change (first_membership os hs) with (ordered_membership os hs false) in Hf. split.
  - intros [E1 E2]. rewrite E1 in Hf. rewrite E2 in Hl. destruct Hf as (f & Hf1 & Hf2 & Hf3), Hl as (l & Hl1 & Hl2 & Hl3).
    assert (f = l) as <- by (by eapply origins_determine). exists f. split; [done|]. split; [done|]. intros idx' He.
    apply le_antisym_lists; [by apply Hl3|by apply Hf3].
  - intros (idx & He & Ho & Hu). destruct (ordered_membership os hs false) as [o1|]; [|by destruct (Hf idx)].
    destruct (ordered_membership os hs true) as [o2|]; [|by destruct (Hl idx)].
    destruct Hf as (f & Hf1 & Hf2 & _), Hl as (l & Hl1 & Hl2 & _). apply Hu in Hf1 as ->, Hl1 as ->.
    split; f_equal; by eapply origins_functional.
Qed.

(** ** Claimed origins *)

Definition claims_of (envelopes : list ResponseEnvelope) : list (ResponseEnvelope * Origin) :=
  envelopes ≫= fun env => pair env <$> re_origins env.

Lemma claim_envelopes_flat envelopes :
  claim_envelopes envelopes = foldl (fun acc x => claim_origin x.1 acc x.2) (∅, []) (claims_of envelopes).
Proof.
  unfold claim_envelopes, claims_of. generalize (∅ : gmap Origin ResponseEnvelope, [] : list Origin) as acc.
  induction envelopes as [|env envelopes IH]; intros acc; [done|]. simpl. rewrite foldl_app, IH. f_equal.
  generalize (re_origins env) as l. clear. intros l. revert acc. induction l as [|o l IH]; intros acc; [done|]. simpl. by rewrite IH.
Qed.

Lemma claim_loop claims :
  let acc := foldl (fun acc x => claim_origin x.1 acc x.2) (∅, []) claims in
  (forall o, is_Some (acc.1 !! o) <-> o ∈ claims.*2) /\ (forall o env, acc.1 !! o = Some env -> (env, o) ∈ claims) /\
  (forall i j o, o ∉ acc.2 -> claims.*2 !! i = Some o -> claims.*2 !! j = Some o -> i = j).
Proof.
  induction claims as [|[env o] claims IH] using rev_ind; simpl.
  { split_and!; [|done|done]. intros o. rewrite lookup_empty. split; [by intros []|intros ?%not_elem_of_nil; done]. }
  rewrite foldl_app, fmap_app. simpl. destruct IH as (H1 & H2 & H3). set (acc := foldl _ _ claims) in *. unfold claim_origin. cbn [fst snd].
  split_and!.
  - intros x. destruct (decide (x = o)) as [->|Hne]; [rewrite lookup_insert_eq; set_solver|]. rewrite lookup_insert_ne by done.
    rewrite H1. set_solver.
  - intros x env' [[<- <-]|[_ H]]%lookup_insert_Some; [set_solver|]. apply H2 in H. set_solver.
  - assert (forall i x, (claims.*2 ++ [o]) !! i = Some x -> claims.*2 !! i = Some x \/ (i = length claims.*2 /\ x = o)) as Hcase.
    { intros i x [H|[Hi H]]%lookup_app_Some; [by left|]. right. apply list_lookup_singleton_Some in H as [H ->]. split; [lia|done]. }
    intros i j x Hx Hi Hj. apply Hcase in Hi, Hj. assert (x ∉ acc.2) as Hx' by (case_bool_decide; set_solver).
    assert (forall k, claims.*2 !! k = Some o -> x = o -> False) as Hno.
    { intros k Hk ->. assert (is_Some (acc.1 !! o)) as Hs by (apply H1; by eapply list_elem_of_lookup_2).
      rewrite bool_decide_eq_true_2 in Hx by done. set_solver. }
    destruct Hi as [Hi|[-> ->]], Hj as [Hj|[-> E]]; [by eapply H3|subst; by destruct (Hno i)|by destruct (Hno j)|done].
Qed.

(** ** Rows read as occurrences *)

Lemma query_occurrences_same os os' : query_occurrences os = Ok os' -> os' = os.
Proof.
  unfold query_occurrences. intros H. apply map_result_Ok in H. induction H as [|o o' os os' Ho _ IH]; [done|].
  f_equal; [|done]. apply rbind_Ok in Ho as (? & _ & [= <-]). done.
Qed.

Lemma own_occurrences_distinct db r os : request_occurrences db r = Ok os -> NoDup (occ_origin <$> own_occurrences os).
Proof.
  intros H. apply query_occurrences_same in H as ->. pose proof (by_key_NoDup (rows_of db r)) as Hnd. revert Hnd.
  generalize (by_key (rows_of db r)) as l. induction l as [|[p row] l IH]; [constructor|]. rewrite fmap_cons, NoDup_cons. intros [Hp Hnd].
  rewrite omap_cons. destruct (occurrence db r (p, row)) as [o|] eqn:Eo; [|by apply IH]. unfold own_occurrences in *. simpl.
  destruct (bool_decide _ && _) eqn:Eown; [|by apply IH]. rewrite fmap_cons. constructor; [|by apply IH].
  apply andb_true_iff in Eown as [_ Ep%Z.eqb_eq]. intros (o' & Eq & Hin%list_elem_of_In)%list_elem_of_fmap.
  apply filter_In in Hin as [Hin Hown]. apply andb_true_iff in Hown as [_ Ep'%Z.eqb_eq]. apply list_elem_of_In in Hin.
  apply list_elem_of_omap in Hin as ([q row'] & Hq & Eo'). apply Hp.
  unfold occurrence in Eo, Eo'. destruct (h_items db !! row_hash row) as [v|]; [|done]. destruct (h_items db !! row_hash row') as [v'|]; [|done].
  cbn [fmap option_fmap option_map] in Eo, Eo'. injection Eo as <-. injection Eo' as <-. cbn in Ep, Ep', Eq.
  apply list_elem_of_fmap. exists (q, row'). split; [|done]. simpl. congruence.
Qed.

(** ** Accepted records *)

Section accepted.
Variable validate_native : NativeTransportContract -> result TransportError unit.
Variable source_response_envelope : Hdb -> string -> result StoreError (option ResponseEnvelope).
Variable compaction_envelopes : Hdb -> string -> result StoreError (list ResponseEnvelope).

Definition payload_hashes (p : TurnPayload) : list string :=
  match p with ReadableTurn record => rr_items record | UnreadableTurn _ hashes => hashes end.

(** The envelope of a record with one reading. *)
Definition accepted_turn (r : string) (original : list Occurrence) (p : TurnPayload) : option ResponseEnvelope :=
  match p with
  | UnreadableTurn _ _ => None
  | ReadableTurn record =>
      if negb (bool_decide (rr_request record = r)) || is_blank (issued_model (rr_issued record)) then None else
      match ordered_membership original (rr_items record) false with
      | Some origins =>
          if bool_decide (ordered_membership original (rr_items record) true = Some origins) then
            Some {| re_model := issued_model (rr_issued record); re_origins := origins; re_kind := KindModelTurn;
                    re_completeness := CompleteResponse; re_route := None; re_protocol := None; re_native := None |}
          else None
      | None => None
      end
  end.

Lemma read_loop r original payloads : forall es us es' us',
  fold_result (read_payload validate_native r original) (es, us) payloads = Ok (es', us') ->
  es' = es ++ omap (accepted_turn r original) payloads /\ (forall h, h ∈ us -> h ∈ us') /\
  (forall p h, p ∈ payloads -> accepted_turn r original p = None -> h ∈ payload_hashes p -> h ∈ us').
Proof.
  induction payloads as [|p payloads IH]; intros es us es' us' H; cbn [fold_result] in H.
  { injection H as <- <-. rewrite app_nil_r. split_and!; [done..|]. set_solver. }
  apply rbind_Ok in H as ([es1 us1] & Hp & H). rewrite omap_cons. apply IH in H as (-> & Hus & Hall).
  assert (es1 = es ++ option_list (accepted_turn r original p) /\ (forall h, h ∈ us -> h ∈ us1) /\
          (accepted_turn r original p = None -> forall h, h ∈ payload_hashes p -> h ∈ us1)) as (-> & Hu1 & Hu2).
  { unfold read_payload in Hp. destruct p as [record|native hashes]; apply rbind_Ok in Hp as (? & _ & Hp); cbn [accepted_turn payload_hashes].
    - destruct (negb _ || _); [injection Hp as <- <-; simpl; rewrite app_nil_r; split_and!; [done|set_solver..]|].
      destruct (ordered_membership original (rr_items record) false); [case_bool_decide|];
        injection Hp as <- <-; simpl; rewrite ?app_nil_r; split_and!; (done || set_solver).
    - injection Hp as <- <-. simpl. rewrite app_nil_r. split_and!; [done|set_solver..]. }
  split_and!.
  - destruct (accepted_turn r original p); simpl; by rewrite <- ?app_assoc.
  - eauto.
  - intros q h [->|Hq]%elem_of_cons; eauto.
Qed.

Lemma accepted_reading r original p env : NoDup (occ_origin <$> original) -> accepted_turn r original p = Some env ->
  re_completeness env = CompleteResponse /\ exists record, p = ReadableTurn record /\ rr_request record = r /\
    re_model env = issued_model (rr_issued record) /\ only_reading original (rr_items record) (re_origins env).
Proof.
  intros Hnd H. destruct p as [record|]; [|done]. cbn [accepted_turn] in H. destruct (negb _ || _) eqn:Eg; [done|].
  apply orb_false_iff in Eg as [Er%negb_false_iff%bool_decide_eq_true _].
  destruct (ordered_membership original (rr_items record) false) as [origins|] eqn:E1; [|done]. case_bool_decide as E2; [|done].
  injection H as <-. split; [done|]. exists record. split_and!; try done. apply membership_only; [done|]. split; [exact E1|exact E2].
Qed.

(** Evidence from records without provider rows is never a guess: an
    origin of a request's evidence belongs to exactly one claim of the
    accepted records, the record is of that request and has one reading only
    among its own rows, the one whose origins the envelope lists, and the origin's hash is in no
    record of the request that was refused or could not be read. *)
Theorem evidence_unambiguous db r os payloads m origin env :
  h_provider db !! r = None -> request_occurrences db r = Ok os -> compaction_envelopes db r = Ok [] ->
  response_envelopes validate_native source_response_envelope compaction_envelopes db r payloads = Ok m -> m !! origin = Some env ->
  let original := own_occurrences os in
  origin ∈ re_origins env /\
  (exists record, ReadableTurn record ∈ payloads /\ rr_request record = r /\ re_model env = issued_model (rr_issued record) /\
                  only_reading original (rr_items record) (re_origins env)) /\
  (forall p, p ∈ payloads -> accepted_turn r original p = None -> o_hash origin ∉ payload_hashes p) /\
  (forall i j, (claims_of (omap (accepted_turn r original) payloads)).*2 !! i = Some origin ->
               (claims_of (omap (accepted_turn r original) payloads)).*2 !! j = Some origin -> i = j).
Proof.
  intros Hp Hos Hc H Hm original. unfold response_envelopes in H. rewrite Hp in H. cbn [rbind] in H. rewrite Hos in H. cbn [rbind] in H.
  fold original in H. apply rbind_Ok in H as ([es us] & Hread & H). rewrite Hc in H. cbn [rbind] in H.
  apply read_loop in Hread as (-> & _ & Hrefused). rewrite app_nil_r in H. rewrite claim_envelopes_flat in H. simpl app in H.
  set (claims := claims_of _) in *. pose proof (claim_loop claims) as Hloop. destruct (foldl _ _ claims) as [matching ambiguous].
  destruct Hloop as (H1 & H2 & H3). injection H as <-. apply map_lookup_filter_Some in Hm as (Hm & Hh & Ha). cbn [fst] in Hh, Ha.
  apply H2 in Hm. unfold claims, claims_of in Hm. apply list_elem_of_bind in Hm as (env' & Hpair & Henv).
  apply list_elem_of_fmap in Hpair as (o & [= -> ->] & Ho). apply list_elem_of_omap in Henv as (p & Hin & Hacc).
  apply accepted_reading in Hacc as (_ & record & -> & Hr & Hmodel & Honly); [|by eapply own_occurrences_distinct].
  split_and!; [done|by exists record| |].
  - intros p Hp' Hnone Hbad. apply Hh. by eapply Hrefused.
  - intros i j. by apply H3.
Qed.
End accepted.

(** ** Witness *)

Definition toy_text (text : string) : value :=
  json_object [("type", VString "message"); ("role", VString "assistant"); ("content", VString text)].

Definition toy_digest_of (v : value) : string := default "" (get_str "content" v).

Definition toy_rows : Hdb :=
  match write_request toy_digest_of Hdb_empty "r" None "main" [toy_text "a"; toy_text "b"; toy_text "c"] with
  | Ok (_, db) => db | Err _ => Hdb_empty end.

Definition toy_issued_record : IssuedRequestRecord :=
  {| native_transport := None; purpose := None; issued_input := []; issued_outputs := None; instructions := "i"; tools := "t";
     tools_allowed := None; issued_model := "m"; pinned_effort := Low; session_thread := "s"; session_affinity := "s";
     prompt_cache_comparison := None |}.

Definition toy_turn : ReplayRecord :=
  {| rr_request := "r"; rr_issued := toy_issued_record; rr_response_id := "resp"; rr_items := ["a"; "c"]; rr_usage := Usage_default;
     rr_contract := None; rr_completion := None |}.

Definition toy_evidence_of : result StoreError (gmap Origin ResponseEnvelope) :=
  response_envelopes (fun _ => Ok tt) (fun _ _ => Ok None) (fun _ _ => Ok []) toy_rows "r" [ReadableTurn toy_turn; UnreadableTurn None ["b"]].

Definition ok_default {A} (d : A) (x : result StoreError A) : A := match x with Ok a => a | Err _ => d end.

Lemma ok_default_eq {A} (d : A) x : is_ok x = true -> x = Ok (ok_default d x).
Proof. by destruct x. Qed.

Definition toy_envelope : ResponseEnvelope :=
  {| re_model := "m"; re_origins := [{| o_request := "r"; o_position := 0; o_hash := "a" |}; {| o_request := "r"; o_position := 2; o_hash := "c" |}];
     re_kind := KindModelTurn; re_completeness := CompleteResponse; re_route := None; re_protocol := None; re_native := None |}.

Lemma toy_evidence_lookup : ok_default ∅ toy_evidence_of !! {| o_request := "r"; o_position := 2; o_hash := "c" |} = Some toy_envelope.
Proof. vm_compute. reflexivity. Qed.

Lemma evidence_unambiguous_witness :
  exists os, request_occurrences toy_rows "r" = Ok os /\
    only_reading (own_occurrences os) ["a"; "c"]
      [{| o_request := "r"; o_position := 0; o_hash := "a" |}; {| o_request := "r"; o_position := 2; o_hash := "c" |}].
Proof.
  assert (is_ok (request_occurrences toy_rows "r") = true) as Ho by (vm_compute; reflexivity).
  assert (is_ok toy_evidence_of = true) as Hm by (vm_compute; reflexivity).
  apply (ok_default_eq []) in Ho. apply (ok_default_eq ∅) in Hm.
  exists (ok_default [] (request_occurrences toy_rows "r")). split; [exact Ho|].
  destruct (evidence_unambiguous (fun _ => Ok tt) (fun _ _ => Ok None) (fun _ _ => Ok []) toy_rows "r" _
    [ReadableTurn toy_turn; UnreadableTurn None ["b"]] _ _ toy_envelope eq_refl Ho eq_refl Hm toy_evidence_lookup)
    as (_ & (record & Hin & _ & _ & Honly) & _).
  assert (record = toy_turn) as ->; [|exact Honly]. apply elem_of_cons in Hin as [Hin|Hin]; [by injection Hin|].
  by apply list_elem_of_singleton in Hin.
Defined.
