(* ===== verification/ReplayClaims.v ===== *)
(** What recorded turns promise: a decoded turn is the request that was sealed
    and the response that was received, and a completion marker proves that
    its occurrence is a finalize call that met the contract it was offered. *)

From S2P Require Import Prelude Json SchemaModel Redaction Usage Observation Sse Failure StoreDb Admission Jobs Lists Item ContextPatch ContextText HistoryDb HistoryOps HistoryProofs HistoryClaims ContextOrder ContextBlocks Finalize Requests ReplayRecords ReplayEvidence.

Section claims.
Variable to_json : value -> string.
Variable blake3 : string -> string.
Variable E : HistoryEvidence.
Variable replay_claim : OperationId -> string -> result StoreError (option value).

Abbreviation digest := (item_digest to_json blake3).
Abbreviation manifest := (manifest_of (fun tools => to_json (VArray tools)) blake3).
Abbreviation step := (history_step digest replay_claim).
Abbreviation wf := (history_wf digest).

(** ** Interned values *)

Lemma put_reads db item : let '(h, db') := put_item digest db item in h = digest item /\ is_Some (h_items db' !! digest item).
Proof.
  unfold put_item. destruct (h_items db !! digest item) as [v|] eqn:Ei; (split; [done|]).
  - rewrite Ei. eauto.
  - simpl. rewrite lookup_insert_eq. eauto.
Qed.

Lemma put_manifest_put db tools : put_manifest db (manifest tools) = (put_item digest db (VArray tools)).2.
Proof. done. Qed.

Lemma items_persist db db' h : extends db db' -> is_Some (h_items db !! h) -> is_Some (h_items db' !! h).
Proof. intros He [v Hv]. exists v. by eapply lookup_weaken, (ext_items _ _ He). Qed.

(** The sealing loop interns every item that came without a hash. *)
Lemma seal_loop l : forall hs db hs' db',
  fold_result (seal_item to_json blake3) (hs, db) l = Ok (hs', db') -> wf db ->
  Forall (fun x => forall h, x.1.2 = Some h -> h = digest x.1.1 /\ is_Some (h_items db !! h)) l ->
  (wf db' /\ extends db db') /\ hs' = hs ++ ((fun x => digest x.1.1) <$> l) /\ Forall (fun x => is_Some (h_items db' !! digest x.1.1)) l.
Proof.
  induction l as [|[[item hash] owner] l IH]; intros hs db hs' db' H Hwf Hh; cbn [fold_result] in H.
  { injection H as <- <-. by rewrite app_nil_r. }
  apply Forall_cons in Hh as [Hx Hh]. apply rbind_Ok in H as ([hs1 db1] & H1 & H). cbn [fst snd] in Hx.
  assert ((wf db1 /\ extends db db1) /\ hs1 = hs ++ [digest item] /\ is_Some (h_items db1 !! digest item)) as ([Hwf1 E1] & -> & Hi).
  { unfold seal_item in H1. destruct hash as [h|].
    - destruct (_ && _); [done|]. injection H1 as <- <-. destruct (Hx h eq_refl) as [-> ?]. done.
    - pose proof (put_reads db item) as Hp. pose proof (put_item_keeps digest db item Hwf) as Hk.
      destruct (put_item digest db item) as [h db2]. destruct Hp as [-> Hp]. by injection H1 as <- <-. }
  apply IH in H as ([Hwf' E'] & -> & Hall); [|done|].
  - split_and!; [done|by etrans|by rewrite fmap_cons, <- app_assoc|]. constructor; [|done]. simpl. by eapply items_persist.
  - eapply Forall_impl; [exact Hh|]. intros x Hx' h Eh. destruct (Hx' h Eh) as [-> ?]. split; [done|]. by eapply items_persist.
Qed.

Lemma zip_fst3 {A B C} (l : list A) (k : list B) (m : list C) f (g : A -> string) :
  length k = length l -> length m = length l -> (forall x, f x = g x.1.1) -> f <$> zip (zip l k) m = g <$> l.
Proof.
  intros Hk Hm Hf. revert k m Hk Hm. induction l as [|a l IH]; intros [|b k] [|c m] Hk Hm; try done. simpl. rewrite Hf.
  f_equal. apply IH; simpl in *; lia.
Qed.

(** Hashes supplied with a request are those of stored items. *)
Definition hints_true (db : Hdb) (r : ResponsesRequest) (hashes : list (option string)) (instr : option string) : Prop :=
  (forall n item h, rq_input r !! n = Some item -> hashes !! n = Some (Some h) -> h = digest item /\ is_Some (h_items db !! h)) /\
  (forall h, instr = Some h -> h = digest (VString (rq_instructions r)) /\ is_Some (h_items db !! h)).

Lemma seal_owner_length persisted visible projection l : forall acc acc',
  fold_result (seal_owner persisted visible projection) acc l = Ok acc' -> length acc'.2 = (length acc.2 + length l)%nat.
Proof.
  induction l as [|[item sel] l IH]; intros [seen owners] acc' H; cbn [fold_result] in H; [injection H as <-; simpl; lia|].
  apply rbind_Ok in H as ([seen1 owners1] & H1 & H). apply IH in H as ->.
  assert (length owners1 = S (length owners)) as Hlen; [|simpl; lia]. unfold seal_owner in H1.
  destruct sel as [o|]; [|injection H1 as <- <-; rewrite length_app; simpl; lia].
  destruct (output_operation o); [|injection H1 as <- <-; rewrite length_app; simpl; lia].
  apply rbind_Ok in H1 as (stored & _ & H1). destruct (bool_decide _); [|done]. destruct (match projection with Some _ => _ | None => _ end); [|done].
  destruct (negb (is_tool_output item)); [|destruct (_ || _); [done|]]; injection H1 as <- <-; rewrite length_app; simpl; lia.
Qed.

Lemma seal_outputs_length db r prov owners :
  seal_outputs E db r prov = Some (Ok (Some owners)) -> length owners = length (rq_input r).
Proof.
  assert (forall head os p x, seal_output_references E db head (rq_input r) os p = Some (Ok x) -> length x = length (rq_input r)) as Href.
  { intros head os p x H. unfold seal_output_references in H. destruct (Nat.eqb_spec (length (rq_input r)) (length os)) as [Hl|]; [|done].
    cbn [negb] in H. destruct (occurrences_for_requests _ _); [|done]. apply fmap_Some in H as (v & _ & H). symmetry in H.
    apply rbind_Ok in H as (visible & _ & H). apply rbind_Ok in H as (? & _ & H). apply rbind_Ok in H as ([seen x'] & H & [= <-]).
    apply seal_owner_length in H. simpl in H. rewrite H, length_zip_with. lia. }
  destruct prov; cbn [seal_outputs]; [done|..]; intros H; apply fmap_Some in H as (v & Hv & H); destruct v as [x|]; try done; injection H as <-;
    by eapply Href.
Qed.

(** A record that names the digests of a request's exact values. *)
Definition sealed_as (record : IssuedRequestRecord) (r : ResponsesRequest) (tools : list value) : Prop :=
  issued_input record = digest <$> rq_input r /\ instructions record = digest (VString (rq_instructions r)) /\
  HistoryDb.tools record = digest (VArray tools) /\ tools_allowed record = rq_allowed r /\ issued_model record = rq_model r /\
  pinned_effort record = rq_effort r /\ session_thread record = thread (rq_session r) /\ session_affinity record = affinity (rq_session r) /\
  prompt_cache_comparison record = comparison_response_id <$> rq_cache r.

Definition sealed_values (r : ResponsesRequest) (tools : list value) : list value :=
  VString (rq_instructions r) :: VArray tools :: rq_input r.

(** A sealed request names the digests of its exact values, all interned. *)
Lemma seal_spec db r tools hashes instr prov record db' :
  seal_replay_request to_json blake3 E db r hashes instr prov = Some (Ok (record, db')) -> wf db -> hints_true db r hashes instr ->
  rq_tools r = manifest tools ->
  (wf db' /\ extends db db') /\ sealed_as record r tools /\ forall v, v ∈ sealed_values r tools -> is_Some (h_items db' !! digest v).
Proof.
  intros H Hwf [Hhash Hinstr] Htools. unfold seal_replay_request in H.
  destruct (Nat.eqb_spec (length hashes) (length (rq_input r))) as [Hlen|]; [|done]. cbn [negb] in H.
  apply fmap_Some in H as (outputs & Hout & H). symmetry in H. apply rbind_Ok in H as (owners & -> & H).
  set (os := match owners with Some owners => owners | None => _ end) in H.
  assert (length os = length (rq_input r)) as Hos.
  { destruct owners as [owners|]; [by eapply seal_outputs_length|]. apply length_replicate. }
  apply rbind_Ok in H as ([input db1] & Hloop & H). apply seal_loop in Hloop as ([Hwf1 E1] & -> & Hall); [|done|].
  2: { apply Forall_lookup. intros n [[item hash] o] Hn h Eh. simpl in Eh. subst hash. apply lookup_zip_Some in Hn as [Hn _].
       apply lookup_zip_Some in Hn as [Hn1 Hn2]. by eapply Hhash. }
  rewrite (zip_fst3 (rq_input r) hashes os _ digest) in H by done.
  assert (forall v, v ∈ rq_input r -> is_Some (h_items db1 !! digest v)) as Hin.
  { intros v [n Hn]%list_elem_of_lookup. assert (is_Some (hashes !! n) /\ is_Some (os !! n)) as [[h Hh] [o Ho]].
    { rewrite !lookup_lt_is_Some, Hlen, Hos. apply lookup_lt_Some in Hn. lia. }
    rewrite Forall_lookup in Hall. apply (Hall n (v, h, o)). apply lookup_zip_Some. split; [by apply lookup_zip_Some|done]. }
  set (sealed := match instr with Some h => (h, db1) | None => put_item digest db1 (VString (rq_instructions r)) end) in H.
  assert (exists db2, sealed = (digest (VString (rq_instructions r)), db2) /\ (wf db2 /\ extends db1 db2) /\
            is_Some (h_items db2 !! digest (VString (rq_instructions r)))) as (db2 & Es & [Hwf2 E2] & Hi2).
  { unfold sealed. destruct instr as [h|].
    - destruct (Hinstr h eq_refl) as [-> Hs]. exists db1. split_and!; [done..|]. by eapply items_persist.
    - pose proof (put_reads db1 (VString (rq_instructions r))) as Hp. pose proof (put_item_keeps digest db1 (VString (rq_instructions r)) Hwf1) as Hk.
      destruct (put_item digest db1 _) as [h db2]. destruct Hp as [-> Hp]. by exists db2. }
  rewrite Es, Htools, put_manifest_put in H. pose proof (put_reads db2 (VArray tools)) as Hp.
  pose proof (put_item_keeps digest db2 (VArray tools) Hwf2) as Hk. destruct (put_item digest db2 (VArray tools)) as [h db3].
  destruct Hp as [-> Hp]. destruct Hk as [Hwf3 E3]. injection H as <- <-. cbn [snd] in *. unfold sealed_as. split_and!; try done.
  - etrans; [exact E1|]. by etrans.
  - intros v [->|[->|Hv]%elem_of_cons]%elem_of_cons; [by eapply items_persist|done|].
    eapply items_persist; [exact E3|]. eapply items_persist; [exact E2|]. by apply Hin.
Qed.

(** ** The recorded event *)

Lemma record_turn_event db store i resp_id items usage event db' :
  record_provider_turn digest db store i resp_id items usage = Ok (event, db') -> wf db ->
  exists row row' req, h_provider db !! ip_request i = Some row /\ h_provider db' !! ip_request i = Some row' /\
    issued row' = issued row /\ p_state row' = RCompleted /\ completion_event row' = Some event /\
    h_events db' !! event = Some {| event_request := req;
      event_body := ModelTurn {| rr_request := ip_request i; rr_issued := ip_issued i; rr_response_id := resp_id;
                                 rr_items := digest <$> items; rr_usage := usage; rr_contract := Some (p_route row', p_protocol row');
                                 rr_completion := None |} |}.
Proof.
  unfold record_provider_turn. intros H Hwf. apply rbind_Ok in H as ([] & _ & H). apply rbind_Ok in H as (row & Hrow & H). apply ok_or_Ok in Hrow.
  destruct (match p_state row with RStreaming | RCompleted => true | _ => false end) eqn:Est; [|done].
  apply rbind_Ok in H as ([[k hs] db1] & Hloop & H).
  destruct (own_loop _ _ _ _ _ _ _ _ _ Hloop ltac:(lia) Hwf) as ([Hwf1 E1] & Hp1 & -> & _). destruct (negb _); [done|].
  assert (h_provider db1 !! ip_request i = Some row) as Hrow1 by (by rewrite Hp1).
  destruct (wf_provider _ _ Hwf1 _ _ Hrow1) as (_ & Hcomp & _). cbn [app] in H. destruct (completion_event row) as [ev|] eqn:Eev.
  - apply rbind_Ok in H as ([req body] & He & H). apply ok_or_Ok in He. cbn [event_body] in H. destruct body as [|previous|]; try done.
    case_bool_decide as Eq; [|done]. injection H as <- <-. subst previous. exists row, row, req. split_and!; try done.
    apply Hcomp. by eexists.
  - injection H as <- <-. eexists row, _, _. split_and!; [done|simpl; by rewrite lookup_alter_eq, Hrow1|done|done|done|].
    simpl. rewrite lookup_insert_eq. done.
Qed.

(** ** Reading back *)

(** No other stored value has the digest of one of [vs]. *)
Definition collision_free (db : Hdb) (vs : list value) : Prop :=
  forall v w h, v ∈ vs -> h_items db !! h = Some w -> digest w = digest v -> w = v.

Lemma stored_reads db vs v : wf db -> collision_free db vs -> v ∈ vs -> is_Some (h_items db !! digest v) -> read_item db (digest v) = Ok v.
Proof.
  intros Hwf Hc Hv [w Hw]. unfold read_item. rewrite Hw. simpl. f_equal. eapply Hc; [done|exact Hw|]. by apply (wf_items _ _ Hwf).
Qed.

Lemma read_all db vs l : wf db -> collision_free db vs -> (forall v, v ∈ l -> v ∈ vs /\ is_Some (h_items db !! digest v)) ->
  map_result (read_item db) (digest <$> l) = Ok l.
Proof.
  intros Hwf Hc Hl. apply map_result_Ok, Forall2_fmap_l, Forall_Forall2_diag, Forall_forall. intros v Hv. destruct (Hl v Hv).
  by eapply stored_reads.
Qed.

Lemma response_stored db r (items : list value) :
  wf db -> (forall n item, items !! n = Some item -> exists p, outputs_of db r !! Z.of_nat n = Some (p, digest item)) ->
  forall v, v ∈ items -> is_Some (h_items db !! digest v).
Proof.
  intros Hwf Ho v [n Hn]%list_elem_of_lookup. destruct (Ho n v Hn) as [p Hp].
  apply (wf_outputs _ _ Hwf) in Hp as (_ & _ & row & Hrow & <-). by apply (wf_rows _ _ Hwf) in Hrow as [_ ?].
Qed.

Lemma issued_row db store r record contract i db' : issue_provider_request db store r record contract = Ok (i, db') ->
  ip_request i = r /\ ip_issued i = record /\
  exists row, h_provider db' !! r = Some row /\ issued row = record /\ (p_route row, p_protocol row) = contract.
Proof.
  unfold issue_provider_request. destruct (h_provider db !! r) as [prior|] eqn:Ep; intros H.
  - destruct (bool_decide _ && bool_decide _) eqn:Eb; [|done]. injection H as <- <-.
    apply andb_true_iff in Eb as [E1%bool_decide_eq_true E2%bool_decide_eq_true]. split_and!; [done..|]. by exists prior.
  - destruct (bool_decide _); [|done]. injection H as <- <-. split_and!; [done..|]. eexists. simpl. rewrite lookup_insert_eq.
    split; [done|]. split; [done|]. by destruct contract.
Qed.

(** A completed record of a sealed request decodes to it. *)
Lemma decode_exact db event rq tools record row r resp_id items usage :
  wf db -> rq_tools rq = manifest tools -> sealed_as record rq tools -> collision_free db (sealed_values rq tools ++ items) ->
  (forall v, v ∈ sealed_values rq tools ++ items -> is_Some (h_items db !! digest v)) ->
  h_provider db !! r = Some row -> issued row = record -> p_state row = RCompleted -> completion_event row = Some event ->
  decode_replay_record to_json blake3 E db event
    {| rr_request := r; rr_issued := record; rr_response_id := resp_id; rr_items := digest <$> items; rr_usage := usage;
       rr_contract := Some (p_route row, p_protocol row); rr_completion := None |} =
  (do _ <- match issued_outputs record with Some outputs => validate_output_references E db event (rq_input rq) outputs | None => Ok tt end;
   Ok {| rt_request := r; rt_model_request := rq;
         rt_model_response := {| Sse.response_id := resp_id; turn_items := items; turn_usage := usage |};
         rt_contract := Some (p_route row, p_protocol row); rt_outputs := issued_outputs record; rt_event := event |}).
Proof.
  intros Hwf Htools (Hin & Hinstr & Ht & Hallowed & Hmodel & Heff & Hth & Haf & Hcache) Hcf Hst Hrow Hiss Hstate Hev.
  assert (forall v, v ∈ sealed_values rq tools ++ items -> read_item db (digest v) = Ok v) as Hread.
  { intros v Hv. eapply stored_reads; [done|exact Hcf|done|by apply Hst]. }
  assert (forall l, (forall v, v ∈ l -> v ∈ sealed_values rq tools ++ items) -> map_result (read_item db) (digest <$> l) = Ok l) as Hreads.
  { intros l Hl. eapply read_all; [done|exact Hcf|]. intros v Hv. split; [by apply Hl|by apply Hst, Hl]. }
  unfold decode_replay_record, recorded_contract. cbn [rr_request rr_issued rr_contract rr_items rr_response_id rr_usage].
  rewrite Hrow, Hiss, Hstate, Hev, !bool_decide_eq_true_2 by done. cbn [negb orb rbind]. unfold sealed_values in Hread, Hreads.
  rewrite Hinstr, Ht, Hin, (Hread (VString (rq_instructions rq))) by set_solver. cbn [rbind]. rewrite (Hread (VArray tools)) by set_solver.
  cbn [rbind]. rewrite (Hreads (rq_input rq)) by set_solver. cbn [rbind decode_instructions as_str ok_or].
  rewrite (Hreads items) by set_solver. cbn [rbind decode_tools as_array ok_or].
  destruct (match issued_outputs record with Some _ => _ | None => _ end); [|done]. cbn [rbind]. do 2 f_equal.
  rewrite Hallowed, Hmodel, Heff, Hth, Haf, Hcache. destruct rq as [input instr' tl allowed model effort [th af] cache]. simpl in *. subst tl.
  f_equal. by destruct cache as [[]|].
Qed.


(** ** Completion markers *)

Variable from_str : string -> result string value.

Lemma marked_events_elem db origin event record : (event, record) ∈ marked_events db origin <->
  h_events db !! event = Some {| event_request := Some (o_request origin); event_body := ModelTurn record |} /\
  exists marked schema, rr_completion record = Some (marked, schema) /\ o_position marked = o_position origin /\ o_hash marked = o_hash origin.
Proof.
  unfold marked_events. rewrite list_elem_of_omap. split.
  - intros ([e [req body]] & Hin & H). apply by_key_elem in Hin. simpl in H. destruct body as [|rec|]; try done.
    destruct (rr_completion rec) as [[marked schema]|] eqn:Ec; [|done]. destruct (_ && _) eqn:Eb; [|done]. injection H as -> ->.
    rewrite !andb_true_iff, !bool_decide_eq_true, Z.eqb_eq in Eb. destruct Eb as [[-> Hp] Hh]. split; [done|]. by exists marked, schema.
  - intros [Hev (marked & schema & Hc & Hp & Hh)]. eexists. split; [by apply by_key_elem|]. simpl. rewrite Hc, Hp, Hh, Z.eqb_refl, !bool_decide_eq_true_2 by done.
    done.
Qed.

(** What a valid completion record proves. *)
Definition completion_proof (db : Hdb) (record : ReplayRecord) (origin : Origin) : Prop :=
  rr_request record = o_request origin /\ o_hash origin ∈ rr_items record /\
  (exists row, rows_of db (o_request origin) !! o_position origin = Some row /\ row_hash row = o_hash origin /\
               original_row (o_request origin) (o_position origin) row = true) /\
  exists item contract tools reply,
    h_items db !! o_hash origin = Some item /\ digest item = o_hash origin /\
    h_items db !! HistoryDb.tools (rr_issued record) = Some (VArray tools) /\ finalize_tool contract ∈ tools /\
    (forall allowed, tools_allowed (rr_issued record) = Some allowed -> FINALIZE_TOOL_NAME ∈ allowed) /\
    reply_of from_str item reply /\ validate_value reply contract "$" = Ok tt.

Lemma completion_record_proof db event record origin :
  validate_completion_record to_json blake3 from_str db event record = Ok origin ->
  (exists schema, rr_completion record = Some (origin, schema)) /\ completion_proof db record origin.
Proof.
  unfold validate_completion_record. intros H. apply rbind_Ok in H as ([marked schema] & Hc & H). apply ok_or_Ok in Hc.
  case_bool_decide as Hreq; [|done]. destruct (match rows_of db _ !! _ with Some _ => _ | None => _ end) eqn:Erow; [|done].
  destruct (rows_of db (o_request marked) !! o_position marked) as [row|] eqn:Er; [|done].
  apply andb_true_iff in Erow as [Horig Hhash%bool_decide_eq_true].
  apply rbind_Ok in H as (item & Hitem & H). apply rbind_Ok in H as (tool & Htool & H). destruct (_ || _) eqn:Ed; [done|].
  apply orb_false_iff in Ed as [Ed%negb_false_iff%bool_decide_eq_true _].
  apply rbind_Ok in H as (offered & Hoff & H). apply ok_or_Ok in Hitem, Htool, Hoff. destruct (_ || _) eqn:Et; [done|].
  apply orb_false_iff in Et as [Et Eallowed]. destruct offered as [| | | |tools|]; try done. cbn [as_array] in Et.
  apply negb_false_iff, Nat.eqb_eq in Et. apply rbind_Ok in H as (calls & Hcalls & H).
  destruct (List.filter _ calls) as [|[h final] [|]] eqn:Ef; try done. destruct (_ || _) eqn:Eh; [done|].
  apply orb_false_iff in Eh as [Eh%negb_false_iff%bool_decide_eq_true _]. subst h.
  apply rbind_Ok in H as (vf & Hvf & [= <-]). destruct (validated_finalize from_str item tool) as [vf'|] eqn:Ev; [|done].
  apply validated_finalize_Ok in Ev as (_ & n & reply & -> & _ & Hreply & Hval). split; [by exists schema|]. split_and!; [done| |by exists row|].
  - assert ((o_hash marked, final) ∈ calls) as Hin.
    { apply list_elem_of_In. eapply (proj1 (proj1 (filter_In _ _ _) _)). Unshelve. 2: { rewrite Ef. by left. } }
    apply list_elem_of_lookup in Hin as [k Hk]. apply map_result_Ok in Hcalls. destruct (Forall2_lookup_r _ _ _ _ _ Hcalls Hk) as (h & Hh & Hr).
    apply rbind_Ok in Hr as (? & _ & [= -> _]). by eapply list_elem_of_lookup_2.
  - exists item, n, tools, reply. split_and!; try done.
    + assert (finalize_tool n ∈ List.filter (fun t => bool_decide (t = finalize_tool n)) tools) as Hin.
      { destruct (List.filter _ tools) as [|t ts] eqn:El; [done|]. assert (t ∈ List.filter (fun t => bool_decide (t = finalize_tool n)) tools) as Ht
          by (rewrite El; set_solver). apply list_elem_of_In, filter_In in Ht as [_ ->%bool_decide_eq_true]. set_solver. }
      apply list_elem_of_In, filter_In in Hin as [Hin _]. by apply list_elem_of_In.
    + intros allowed Ha. rewrite Ha in Eallowed. by apply negb_false_iff, bool_decide_eq_true in Eallowed.
Qed.

Lemma mark_unique db event r record (record' : ReplayRecord) marked schema :
  (forall e rec, h_events db !! e = Some {| event_request := Some r; event_body := ModelTurn rec |} -> e = event) ->
  rr_completion record' = Some (marked, schema) -> o_request marked = r ->
  h_events record = <[event := {| event_request := Some r; event_body := ModelTurn record' |}]> (h_events db) ->
  marked_events record marked = [(event, record')].
Proof.
  intros Hu Hc Hr He. apply (omap_single _ _ event {| event_request := Some r; event_body := ModelTurn record' |}).
  - apply by_key_NoDup.
  - apply by_key_elem. by rewrite He, lookup_insert_eq.
  - simpl. by rewrite Hc, Hr, Z.eqb_refl, !bool_decide_eq_true_2.
  - intros e ev Hin Hne. apply by_key_elem in Hin. rewrite He, lookup_insert_ne in Hin by done. destruct ev as [req body]. simpl.
    destruct body as [|rec|]; try done. destruct (rr_completion rec) as [[m sc]|]; [|done]. case_bool_decide as Eq; [|done].
    destruct Hne. apply (Hu e rec). by rewrite Hin, Eq, Hr.
Qed.

(** Completion is proved, not claimed: an occurrence counts as a
    completed finalize only when a recorded response of its request contains
    that very item, the item stored there is a finalize call, the tool it answers
    was offered in the request that was issued, and its reply meets that tool's
    contract; and marking a validated finalize on the only recorded response of
    a request makes its occurrence count. *)
Theorem completion_marked db :
  (forall origin, is_validated_completion to_json blake3 from_str db origin = Ok true ->
     exists event record, h_events db !! event = Some {| event_request := Some (o_request origin); event_body := ModelTurn record |} /\
       completion_proof db record origin) /\
  (forall event r vf db',
     (forall e rec, h_events db !! e = Some {| event_request := Some r; event_body := ModelTurn rec |} -> e = event) ->
     record_validated_finalize to_json blake3 from_str db event r vf = Ok db' ->
     exists origin, o_request origin = r /\ o_hash origin = digest (vf_item vf) /\
       is_validated_completion to_json blake3 from_str db' origin = Ok true).
Proof.
  split.
  - intros origin H. unfold is_validated_completion in H. destruct (marked_events db origin) as [|[event record] [|]] eqn:Em; try done.
    apply rbind_Ok in H as (validated & Hv & [= Hb]). apply bool_decide_eq_true in Hb. subst validated.
    apply completion_record_proof in Hv as [_ Hp]. exists event, record. split; [|done].
    assert ((event, record) ∈ marked_events db origin) as Hin by (rewrite Em; set_solver). by apply marked_events_elem in Hin as [? _].
  - intros event r vf db' Hu H. unfold record_validated_finalize in H. apply rbind_Ok in H as (record & Hrec & H). apply ok_or_Ok in Hrec.
    unfold put_item in H. set (db1 := match h_items db !! digest (vf_item vf) with Some _ => db | None => _ end) in H.
    apply rbind_Ok in H as (position & _ & H). set (db2 := match h_items db1 !! digest (vf_schema vf) with Some _ => db1 | None => _ end) in H.
    destruct (match rr_completion record with Some _ => _ | None => _ end); [done|].
    set (record' := {| rr_completion := Some _ |}) in H. apply rbind_Ok in H as (validated & Hv & [= <-]).
    pose proof Hv as Hv'. apply completion_record_proof in Hv' as [[schema Hc] _]. cbn [rr_completion record'] in Hc. injection Hc as <- <-.
    eexists. split; [|split]; [| |unfold is_validated_completion; erewrite (mark_unique db event r _ record'); try done].
    + done.
    + done.
    + match type of Hv with validate_completion_record _ _ _ _ _ _ = Ok ?o => change (validate_completion_record to_json blake3 from_str
        (db2 <| h_events ::= insert event {| event_request := Some r; event_body := ModelTurn record' |} |>) event record' = Ok o) in Hv end.
      rewrite Hv. cbn [rbind]. by rewrite bool_decide_eq_true_2.
    + simpl. unfold db2, db1. by destruct (h_items db !! digest (vf_item vf)), (h_items _ !! digest (vf_schema vf)).
Qed.
End claims.

(** ** A recorded conversation for the witnesses *)

Lemma collision_check to_json blake3 db vs :
  forallb (fun e => forallb (fun v => negb (bool_decide (item_digest to_json blake3 e.2 = item_digest to_json blake3 v)) || bool_decide (e.2 = v)) vs)
    (map_to_list (h_items db)) = true -> collision_free to_json blake3 db vs.
Proof.
  intros H v w h Hv Hw Hd. rewrite forallb_forall in H. apply elem_of_map_to_list, list_elem_of_In, H in Hw. rewrite forallb_forall in Hw.
  apply list_elem_of_In, Hw in Hv. simpl in Hv. rewrite bool_decide_eq_true_2 in Hv by done. by apply bool_decide_eq_true in Hv.
Qed.

Lemma event_check db event r :
  forallb (fun e => match event_body e.2 with ModelTurn _ => e.1 =? event | _ => true end) (map_to_list (h_events db)) = true ->
  forall e rec, h_events db !! e = Some {| event_request := Some r; event_body := ModelTurn rec |} -> e = event.
Proof.
  intros H e rec He. rewrite forallb_forall in H. apply elem_of_map_to_list, list_elem_of_In, H in He. by apply Z.eqb_eq in He.
Qed.

Definition toy_encode (v : value) : string :=
  match v with VString s => "string:" +:+ s | VArray _ => "array" | _ => default "other" (get_str "type" v) end.

Definition toy_no_claim (o : OperationId) (claimant : string) : result StoreError (option value) := Ok None.

Definition toy_contract_tool : value := finalize_tool toy_result_schema.

Definition toy_asked : ResponsesRequest :=
  {| rq_input := [user_text "question"]; rq_instructions := ""; rq_tools := manifest_of (fun ts => toy_encode (VArray ts)) id [toy_contract_tool];
     rq_allowed := None; rq_model := "m"; rq_effort := Low; rq_session := standalone "t"; rq_cache := None |}.

Definition toy_answer : list value := [toy_finalize (VString "ready")].

Definition toy_db1 : Hdb := ok_default Hdb_empty (create_request Hdb_empty "r" None "main").

Definition toy_sealed : IssuedRequestRecord * Hdb :=
  match seal_replay_request toy_encode id toy_evidence toy_db1 toy_asked [None] None NoProvenance with
  | Some (Ok x) => x | _ => (toy_issued, Hdb_empty) end.

Definition toy_issue : IssuedProviderRequest * Hdb :=
  ok_default (toy_handle, Hdb_empty) (issue_provider_request toy_sealed.2 "store" "r" toy_sealed.1 (ChatGptPlan, Standard)).

Definition toy_recorded : Z * Hdb :=
  ok_default (0, Hdb_empty) (record_provider_turn (item_digest toy_encode id) toy_issue.2 "store" toy_issue.1 "resp" toy_answer Usage_default).

Lemma toy_db1_wf : history_wf (item_digest toy_encode id) toy_db1.
Proof. eapply insert_request_keeps; [|apply empty_wf]. apply (ok_default_eq Hdb_empty). vm_compute. reflexivity. Qed.


Definition toy_validated : ValidatedFinalize := {| vf_item := toy_finalize (VString "ready"); vf_schema := toy_contract_tool |}.

Definition toy_marked : result StoreError Hdb :=
  record_validated_finalize toy_encode id (fun _ => Err "") toy_recorded.2 toy_recorded.1 "r" toy_validated.

Lemma completion_marked_witness :
  exists db' origin, toy_marked = Ok db' /\ is_validated_completion toy_encode id (fun _ => Err "") db' origin = Ok true.
Proof.
  assert (toy_marked = Ok (ok_default Hdb_empty toy_marked)) as Hm by (apply ok_default_eq; vm_compute; reflexivity).
  destruct (completion_marked toy_encode id (fun _ => Err "") toy_recorded.2) as [_ H].
  destruct (H toy_recorded.1 "r" toy_validated (ok_default Hdb_empty toy_marked)) as (origin & _ & _ & Ho);
    [apply event_check; vm_compute; reflexivity|exact Hm|].
  exists (ok_default Hdb_empty toy_marked), origin. split; [exact Hm|exact Ho].
Defined.
