(* ===== verification/ReplayProvider.v ===== *)
(** Replaying a recorded conversation: [ReplayProvider] of [replay.rs].

    A provider holds the recorded turns of a branch and a cursor. It answers
    the next request only when it is the recorded one, and answers its tool
    calls with the recorded outputs. The theorems show that whatever is asked,
    the answers are the recorded ones in their order, and that a recorded
    output is restored to the settlement it was made from. *)

From S2P Require Import Prelude Json Redaction Usage Observation Sse Failure StoreDb Admission Jobs Lists Item ContextPatch ContextText HistoryDb HistoryOps Requests ReplayRecords.

#[export] Instance SessionIdentity_eq_dec : EqDecision SessionIdentity.
Proof. solve_decision. Defined.
#[export] Instance PromptCacheComparison_eq_dec : EqDecision PromptCacheComparison.
Proof. solve_decision. Defined.
#[export] Instance ToolManifest_eq_dec : EqDecision ToolManifest.
Proof. solve_decision. Defined.

Record ReplayTurn := { turn_record : RecordedReplayTurn; turn_purpose : ProviderRequestPurpose }.

Record RecordedCall := { rc_name : string; rc_kind : ToolKind; rc_input : value; rc_issued : nat }.

Record LocalReplayRequest := { lr_original : string; lr_committed : gset string }.

(** [ReplayProgress]: the cursor and the local requests admitted so far. *)
Record ReplayProgress := { cursor : nat; local_requests : gmap string LocalReplayRequest }.

Definition progress_new : ReplayProgress := {| cursor := 0; local_requests := ∅ |}.

(** [progress] is the identity of the shared progress of one provider. *)
Record PreparedReplayStep := {
  step_progress : nat;
  step_index : nat;
  step_request : string;
  step_contract : ResponsesRoute * ResponsesProtocol;
  step_purpose : ProviderRequestPurpose
}.

(** What a prepared request shows its transport. *)
Record PreparedProviderRequest := {
  pp_id : string;
  pp_request : ResponsesRequest;
  pp_step : option PreparedReplayStep;
  pp_contract : ResponsesRoute * ResponsesProtocol;
  pp_purpose : ProviderRequestPurpose
}.

(** ** Loading *)

Inductive ReplayError :=
| ReplayStore (error : StoreError)
| DuplicateCall (call_id : string)
| MissingInvocation (call_id : string)
| MalformedCall (error : string).

Section load.
Variable read_json : string -> option value.
(** [Store::items], and the operation the Store recorded for a call. *)
Variable store_items : string -> result StoreError (list value).
Variable recorded_operation : string -> string -> result StoreError (option OperationId).

Definition call_value (input : ToolInput) : ToolKind * value :=
  match input with FunctionInput arguments => (FunctionKind, arguments) | CustomInput text => (CustomKind, VString text) end.

Definition load_item (issued : nat) (request : string) (persisted : list value) (calls : gmap OperationId RecordedCall) (item : value)
    : result ReplayError (gmap OperationId RecordedCall) :=
  do call_ <- map_err MalformedCall (tool_call read_json item);
  match call_ with
  | None => Ok calls
  | Some c =>
      guard bool_decide (item ∈ persisted) else MissingInvocation (tc_call_id c);
      let '(kind, input) := call_value (tc_input c) in
      do id <- map_err ReplayStore (recorded_operation request (tc_call_id c));
      match id with
      | None => if bool_decide (tc_name c = "finalize") then Ok calls else Err (MissingInvocation (tc_call_id c))
      | Some id =>
          refuse bool_decide (is_Some (calls !! id)) with DuplicateCall (call id);
          Ok (<[id := {| rc_name := tc_name c; rc_kind := kind; rc_input := input; rc_issued := issued |}]> calls)
      end
  end.

Definition load_turn (acc : nat * option ToolManifest * gmap OperationId RecordedCall) (t : ReplayTurn)
    : result ReplayError (nat * option ToolManifest * gmap OperationId RecordedCall) :=
  let '(issued, schemas, calls) := acc in
  if negb (bool_decide (turn_purpose t = Inference)) then Ok (S issued, schemas, calls) else
  let schemas := match schemas with Some s => Some s | None => Some (rq_tools (rt_model_request (turn_record t))) end in
  do persisted <- map_err ReplayStore (store_items (rt_request (turn_record t)));
  do calls <- fold_result (load_item issued (rt_request (turn_record t)) persisted) calls (turn_items (rt_model_response (turn_record t)));
  Ok (S issued, schemas, calls).

(** [ReplayProvider::new] over the recorded turns and their purposes. *)
Definition load_turns (turns : list ReplayTurn) : result ReplayError (option ToolManifest * gmap OperationId RecordedCall) :=
  do '(_, schemas, calls) <- fold_result load_turn (0%nat, None, ∅) turns; Ok (schemas, calls).
End load.

(** ** Requests *)

Definition request_mismatch (expected actual : ResponsesRequest) : option string :=
  if negb (bool_decide (rq_input expected = rq_input actual)) then Some "input"
  else if negb (bool_decide (rq_instructions expected = rq_instructions actual)) then Some "instructions"
  else if negb (bool_decide (rq_tools expected = rq_tools actual)) then Some "tools"
  else if negb (bool_decide (rq_allowed expected = rq_allowed actual)) then Some "tools_allowed"
  else if negb (bool_decide (rq_model expected = rq_model actual)) then Some "model"
  else if negb (bool_decide (rq_effort expected = rq_effort actual)) then Some "pinned_effort"
  else if negb (bool_decide (rq_cache expected = rq_cache actual)) then Some "prompt_cache_comparison"
  else if negb (bool_decide (rq_session expected = rq_session actual)) then Some "session_id"
  else None.

Section provider.
Variable owner : nat.
Variable turns : list ReplayTurn.

Definition prepare_submission (p : ReplayProgress) : result TransportError PreparedReplayStep :=
  do turn <- ok_or (turns !! cursor p) UnprovenResponseContract;
  do contract <- ok_or (rt_contract (turn_record turn)) UnprovenResponseContract;
  Ok {| step_progress := owner; step_index := cursor p; step_request := rt_request (turn_record turn); step_contract := contract;
        step_purpose := turn_purpose turn |}.

Definition next_turn (p : ReplayProgress) (request : PreparedProviderRequest) : result TransportError (ResponsesTurn * ReplayProgress) :=
  refuse bool_decide (is_Some (local_requests p !! pp_id request)) with ReplayRequestReuse (pp_id request);
  do next <- ok_or (turns !! cursor p) (Stream "replay provider has no recorded model turns remaining");
  do selected <- ok_or (pp_step request) PreparedSelectionMismatch;
  refuse negb (step_progress selected =? owner)%nat || negb (step_index selected =? cursor p)%nat
         || negb (bool_decide (step_request selected = rt_request (turn_record next)))
         || negb (bool_decide (step_purpose selected = pp_purpose request)) with PreparedSelectionMismatch;
  refuse negb (bool_decide (rt_contract (turn_record next) = Some (pp_contract request))) with ReplayContractMismatch;
  match request_mismatch (rt_model_request (turn_record next)) (pp_request request) with
  | Some field => Err (Stream ("replay request does not match the next recorded request (" +:+ field +:+ ")"))
  | None =>
      Ok (rt_model_response (turn_record next),
          {| cursor := S (cursor p);
             local_requests := <[pp_id request := {| lr_original := rt_request (turn_record next); lr_committed := ∅ |}]> (local_requests p) |})
  end.

Definition turns_remaining (p : ReplayProgress) : nat := length turns - cursor p.

(** [ReplayWaitCommit::commit], for the operation and item the token holds. *)
Definition wait_commit (p : ReplayProgress) (owned : OperationId * value) (operation : OperationId) (item : value)
    : result string ReplayProgress :=
  refuse negb (bool_decide (operation = owned.1)) || negb (bool_decide (item = owned.2))
    with "recorded wait history commit belongs to different evidence";
  do mapped <- ok_or (local_requests p !! op_request operation) "recorded wait history has no admitted local request";
  Ok {| cursor := cursor p;
        local_requests := <[op_request operation := {| lr_original := lr_original mapped; lr_committed := {[call operation]} ∪ lr_committed mapped |}]>
                            (local_requests p) |}.
End provider.

(** ** Recorded outputs *)

Section outputs.
(** [serde_json::from_str] with its error text, and [serde_json::to_string]. *)
Variable from_str : string -> result string value.
Variable to_string : value -> string.

Definition restore_failure (failure : ToolFailure) (body : option value) : ToolFailure :=
  match body ≫= vget "result" with Some receipt => with_result_receipt failure receipt | None => failure end.

(** The value a non-success terminal is read with. *)
Definition canonical_body (terminal : TerminalOutcome) (v : value) : result string (option value) :=
  if bool_decide (terminal = Success) then Ok None
  else match v with VString text => do body <- from_str text; Ok (Some body) | _ => Ok (Some v) end.

Definition restore_terminal (kind : ToolKind) (call_id : string) (terminal : TerminalOutcome) (v : value) : result string JobOutput :=
  do body <- canonical_body terminal v;
  match terminal with
  | FailureOutcome failure => Ok (OutCompleted (Err (restore_failure failure body)))
  | Cancelled => Ok OutCancelled
  | CancelledWithValueReceipt =>
      do receipt <- ok_or (body ≫= vget "receipt") "canonical cancellation value receipt is missing";
      Ok (OutCancelledWithReceipt (Ok receipt))
  | CancelledWithReceipt (Ok receipt) => Ok (OutCancelledWithReceipt (Ok receipt))
  | CancelledWithReceipt (Err failure) => Ok (OutCancelledWithReceipt (Err (restore_failure failure (body ≫= vget "receipt"))))
  | NotStarted | InterruptedOutcome => Ok OutInterrupted
  | CancellationUnconfirmed detail => Ok (OutCancellationUnconfirmed (restore_failure detail body))
  | Success =>
      match kind, v with
      | FunctionKind, VString serialized =>
          do decoded <- map_err (fun e => "decoding replay output for call `" +:+ call_id +:+ "`: " +:+ e) (from_str serialized);
          Ok (OutCompleted (Ok decoded))
      | _, v => Ok (OutCompleted (Ok v))
      end
  end.

(** The last part of [recorded_job_output]: from the retained output of a
    call to the settlement it stands for. *)
Definition restore_output (kind : ToolKind) (call_id : string) (output : RecordedToolOutput) : result string JobOutput :=
  let item := ro_item output in
  refuse negb (veq_str (vidx item "type") (output_type kind)) || negb (veq_str (vidx item "call_id") call_id)
    with "stored replay output kind or identity does not match call `" +:+ call_id +:+ "`";
  do v <- ok_or (vget "output" item) ("stored replay output for call `" +:+ call_id +:+ "` has no output value");
  do restored <- restore_terminal kind call_id (ro_terminal output) v;
  guard bool_decide (tool_output_with_format to_string call_id kind restored (ro_format output) = item)
    else "recorded terminal does not match its immutable output item";
  Ok restored.

(** [recorded_job_output]. *)
Variable recorded_operation : string -> string -> result StoreError (option OperationId).
Variable replay_tool_output : OperationId -> result StoreError (option RecordedToolOutput).
Variable store_error_text : StoreError -> string.

Definition recorded_job_output (p : ReplayProgress) (calls : gmap OperationId RecordedCall) (name : string) (input : ToolInput)
    (local : OperationId) : result string (OperationId * JobOutput) :=
  let absent := "no recorded tool call for `" +:+ call local +:+ "`" in
  do mapped <- ok_or (local_requests p !! op_request local) "replay call has no matched recorded model request";
  do operation <- map_err (fun e => "loading replay invocation: " +:+ store_error_text e) (recorded_operation (lr_original mapped) (call local));
  do operation <- ok_or operation absent;
  do recorded <- ok_or (calls !! operation) absent;
  let '(input_kind, args) := call_value input in
  refuse negb (bool_decide (rc_name recorded = name)) || negb (bool_decide (rc_kind recorded = input_kind))
         || negb (bool_decide (rc_input recorded = args))
    with "replay call `" +:+ call local +:+ "` does not match its recorded identity or input";
  do output <- map_err (fun e => "loading replay output: " +:+ store_error_text e) (replay_tool_output operation);
  do output <- ok_or output ("no settled replay output for call `" +:+ call local +:+ "`");
  do restored <- restore_output (rc_kind recorded) (call local) output;
  Ok (operation, restored).

(** ** Where an output becomes visible *)

(** The hexadecimal BLAKE3 digest of an item's encoding. *)
Variable digest : value -> string.

Definition owned_positions (original : OperationId) (owners : list (option IssuedOutputReference)) : list nat :=
  omap (fun x => match x.2 with
                 | Some owner => if bool_decide (ior_operation owner = original) then Some x.1 else None
                 | None => None
                 end) (imap pair owners).

(** The loop over the turns after the call, numbered from [index]. *)
Fixpoint find_cut (original : OperationId) (output_hash : string) (index : nat) (turns : list ReplayTurn)
    : result string (option (nat * nat)) :=
  match turns with
  | [] => Ok None
  | t :: turns =>
      match rt_outputs (turn_record t) with
      | None =>
          refuse existsb (fun saved => type_in saved output_types && veq_str (vidx saved "call_id") (call original))
                   (rq_input (rt_model_request (turn_record t)))
            with "recorded input has no immutable output ownership";
          find_cut original output_hash (S index) turns
      | Some owners =>
          match owned_positions original owners with
          | [] => find_cut original output_hash (S index) turns
          | [position] =>
              guard match owners !! position with
                    | Some (Some owner) => bool_decide (o_hash (ior_origin owner) = output_hash)
                    | _ => false
                    end else "recorded output differs from its issued source";
              Ok (Some (index, position))
          | _ => Err "recorded input duplicates an exact output occurrence"
          end
      end
  end.

Definition output_cut (turns : list ReplayTurn) (calls : gmap OperationId RecordedCall) (original : OperationId) (output : JobOutput)
    : result string (option (nat * nat)) :=
  do c <- ok_or (calls !! original) "recorded output has no issuing invocation";
  let item := tool_output to_string (call original) (rc_kind c) output in
  find_cut original (digest item) (S (rc_issued c)) (drop (S (rc_issued c)) turns).

(** [local_operation]: the local request a recorded one was admitted as. *)
Definition local_operation (p : ReplayProgress) (original local : OperationId) : option OperationId :=
  find_map (fun e => if bool_decide (lr_original e.2 = op_request original)
                     then Some {| origin := origin local; op_request := e.1; call := call original |} else None)
    (map_to_list (local_requests p)).

Definition outputs_before (p : ReplayProgress) (turns : list ReplayTurn) (calls : gmap OperationId RecordedCall) (cut position : nat)
    (local : OperationId) : result string (list OperationId) :=
  fold_result (fun waits e =>
    let '(original, c) := e in
    if (cut <=? rc_issued c)%nat || negb (bool_decide (rc_name c = "wait_agent")) then Ok waits else
    match local_operation p original local with
    | None => Ok waits
    | Some operation =>
        do '(_, output) <- recorded_job_output p calls (rc_name c) (FunctionInput (rc_input c)) operation;
        do found <- output_cut turns calls original output;
        Ok match found with
           | Some (output_cut, output_position) =>
               if (output_cut =? cut)%nat && (output_position <? position)%nat then waits ++ [operation] else waits
           | None => waits
           end
    end) [] (map_to_list calls).

(** The condition [ready_output] waits for. *)
Definition output_ready (p : ReplayProgress) (turns : list ReplayTurn) (calls : gmap OperationId RecordedCall) (name : string)
    (cut : option (nat * nat)) (local : OperationId) : result string bool :=
  let ready := (match cut with Some (index, _) => index | None => length turns end <=? cursor p)%nat in
  do waits <- (if bool_decide (name = "wait_agent") then Ok []
               else match cut with
                    | Some (index, position) => outputs_before p turns calls index position local
                    | None => Ok []
                    end);
  Ok (ready && forallb (fun wait => match local_requests p !! op_request wait with
                                    | Some mapped => bool_decide (call wait ∈ lr_committed mapped)
                                    | None => false
                                    end) waits).
End outputs.

(** [aligned_operation]: the identity a call context carries. *)
Record CallContext := {
  cx_operation : option OperationId;
  cx_call_id : string;
  cx_request : option string;
  cx_agent : string
}.

Definition aligned_operation (c : CallContext) : result string OperationId :=
  do operation <- ok_or (cx_operation c) "replay call has no operation identity";
  refuse negb (bool_decide (call operation = cx_call_id c)) || negb (bool_decide (cx_request c = Some (op_request operation)))
         || negb (bool_decide (identity_actor (origin operation) = cx_agent c))
    with "replay call context does not match its operation";
  Ok operation.

(** ** Answers in order *)

Section order.
Variable owner : nat.
Variable turns : list ReplayTurn.

Lemma request_mismatch_None expected actual : request_mismatch expected actual = None <-> expected = actual.
Proof.
  unfold request_mismatch. split; [|intros ->; by rewrite !bool_decide_eq_true_2]. intros H.
  repeat (case_bool_decide; [|done]). destruct expected, actual. simpl in *. by subst.
Qed.

(** An answer, or a wait's commit. *)
Inductive replay_step (p p' : ReplayProgress) : option (PreparedProviderRequest * ResponsesTurn) -> Prop :=
| rs_turn request turn : next_turn owner turns p request = Ok (turn, p') -> replay_step p p' (Some (request, turn))
| rs_commit owned operation item : wait_commit p owned operation item = Ok p' -> replay_step p p' None.

Inductive replay_run : ReplayProgress -> list (PreparedProviderRequest * ResponsesTurn) -> Prop :=
| run_start : replay_run progress_new []
| run_turn p p' answers x : replay_run p answers -> replay_step p p' (Some x) -> replay_run p' (answers ++ [x])
| run_commit p p' answers : replay_run p answers -> replay_step p p' None -> replay_run p' answers.

Lemma next_turn_Ok p request turn p' : next_turn owner turns p request = Ok (turn, p') <->
  local_requests p !! pp_id request = None /\
  exists t step, turns !! cursor p = Some t /\ pp_step request = Some step /\ step_progress step = owner /\ step_index step = cursor p /\
    step_request step = rt_request (turn_record t) /\ step_purpose step = pp_purpose request /\
    rt_contract (turn_record t) = Some (pp_contract request) /\ rt_model_request (turn_record t) = pp_request request /\
    turn = rt_model_response (turn_record t) /\
    p' = {| cursor := S (cursor p);
            local_requests := <[pp_id request := {| lr_original := rt_request (turn_record t); lr_committed := ∅ |}]> (local_requests p) |}.
Proof.
  unfold next_turn. split.
  - intros H. case_bool_decide as Hid; [done|]. rewrite <- eq_None_not_Some in Hid. split; [done|].
    apply rbind_Ok in H as (t & Ht & H). apply rbind_Ok in H as (step & Hs & H). apply ok_or_Ok in Ht, Hs.
    destruct (_ || _) eqn:Eg; [done|]. rewrite !orb_false_iff, !negb_false_iff, !Nat.eqb_eq, !bool_decide_eq_true in Eg.
    destruct Eg as [[[Ho Hi] Hr] Hp]. case_bool_decide as Hc; [|done]. destruct (request_mismatch _ _) eqn:Em; [done|].
    apply request_mismatch_None in Em. injection H as <- <-. exists t, step. split_and!; try done.
  - intros (Hid & t & step & Ht & Hs & Ho & Hi & Hr & Hp & Hc & Hm & -> & ->). rewrite bool_decide_eq_false_2 by (rewrite Hid; by intros []).
    rewrite Ht, Hs. cbn [ok_or rbind]. rewrite Ho, Hi, !Nat.eqb_refl, !bool_decide_eq_true_2 by done. cbn [negb orb]. rewrite (proj2 (request_mismatch_None _ _) Hm). done.
Qed.

(** An answer given for the turn at its place. *)
Definition answered (p : ReplayProgress) (k : nat) (x : PreparedProviderRequest * ResponsesTurn) : Prop :=
  exists t mapped, turns !! k = Some t /\ pp_request x.1 = rt_model_request (turn_record t) /\ x.2 = rt_model_response (turn_record t) /\
    rt_contract (turn_record t) = Some (pp_contract x.1) /\
    local_requests p !! pp_id x.1 = Some mapped /\ lr_original mapped = rt_request (turn_record t).

Record run_ok (p : ReplayProgress) (answers : list (PreparedProviderRequest * ResponsesTurn)) : Prop := {
  ro_cursor : length answers = cursor p;
  ro_fresh : NoDup (pp_id <$> answers.*1);
  ro_dom : forall id, is_Some (local_requests p !! id) <-> id ∈ pp_id <$> answers.*1;
  ro_answers : forall k x, answers !! k = Some x -> answered p k x
}.

Lemma run_ok_turn p p' answers request turn :
  run_ok p answers -> next_turn owner turns p request = Ok (turn, p') -> run_ok p' (answers ++ [(request, turn)]).
Proof.
  intros [Hc Hf Hd Ha] H. apply next_turn_Ok in H as (Hid & t & step & Ht & _ & _ & _ & _ & _ & Hcon & Hm & -> & ->).
  assert (pp_id request ∉ pp_id <$> answers.*1) as Hnew by (rewrite <- Hd, Hid; by intros []). split.
  - rewrite length_app. simpl. lia.
  - rewrite !fmap_app. simpl. by apply NoDup_snoc.
  - intros id. rewrite !fmap_app. simpl. rewrite elem_of_app, list_elem_of_singleton, <- Hd, lookup_insert_is_Some. split; [|].
    + intros [->|[_ ?]]; auto.
    + destruct (decide (pp_id request = id)); naive_solver.
  - intros k x [Hk|[Hk Hx]]%lookup_app_Some.
    + destruct (Ha k x Hk) as (t' & mapped & H1 & H2 & H3 & H4 & H5 & H6). exists t', mapped. split_and!; try done. simpl.
      rewrite lookup_insert_ne; [done|]. intros E. apply Hnew. rewrite E. apply Hd. eauto.
    + apply list_lookup_singleton_Some in Hx as [Hk0 <-]. assert (k = cursor p) as -> by lia. exists t, {| lr_original := rt_request (turn_record t); lr_committed := ∅ |}.
      split_and!; try done. simpl. by rewrite lookup_insert_eq.
Qed.

Lemma run_ok_commit p p' answers owned operation item :
  run_ok p answers -> wait_commit p owned operation item = Ok p' -> run_ok p' answers.
Proof.
  intros [Hc Hf Hd Ha] H. unfold wait_commit in H. inv_ok. subst p'. split; [done|done| |].
  - intros id. simpl. rewrite <- Hd, lookup_insert_is_Some. destruct (decide (op_request operation = id)) as [<-|]; [|naive_solver].
    split; [intros _; eauto|by left].
  - intros k x' Hk. destruct (Ha k x' Hk) as (t & mapped & H1 & H2 & H3 & H4 & H5 & H6). simpl. unfold answered. simpl.
    destruct (decide (op_request operation = pp_id x'.1)) as [E|].
    + rewrite <- E in H5. exists t, {| lr_original := lr_original x; lr_committed := {[call operation]} ∪ lr_committed x |}.
      split_and!; try done; [by rewrite <- E, lookup_insert_eq|]. simpl. congruence.
    + exists t, mapped. split_and!; try done. by rewrite lookup_insert_ne.
Qed.

(** C23. A replay answers with the recording and nothing else. Through any
    sequence of requests and wait commits, the k-th answer is the k-th recorded
    response, given to the k-th recorded request under its recorded contract and to a
    local request of its own, which stays mapped to the recorded one; and the
    driver is never stuck: preparing a submission and resubmitting the next
    recorded request under a fresh local id is answered. *)
Theorem replay_in_order p answers :
  replay_run p answers ->
  length answers = cursor p /\ NoDup (pp_id <$> answers.*1) /\ (forall k x, answers !! k = Some x -> answered p k x) /\
  (forall t contract id, turns !! cursor p = Some t -> rt_contract (turn_record t) = Some contract -> id ∉ pp_id <$> answers.*1 ->
     exists step p', prepare_submission owner turns p = Ok step /\
       next_turn owner turns p {| pp_id := id; pp_request := rt_model_request (turn_record t); pp_step := Some step; pp_contract := contract;
                                  pp_purpose := turn_purpose t |} = Ok (rt_model_response (turn_record t), p')).
Proof.
  intros Hrun. assert (run_ok p answers) as [Hc Hf Hd Ha].
  { induction Hrun as [|p p' answers [request turn] _ IH Hs|p p' answers _ IH Hs].
    - split; [done|constructor| |done]. intros id. simpl. rewrite lookup_empty. split; [by intros []|intros ?%not_elem_of_nil; done].
    - inversion Hs; subst. by eapply run_ok_turn.
    - inversion Hs; subst. by eapply run_ok_commit. }
  split_and!; [done..|]. intros t contract id Ht Hcon Hid. unfold prepare_submission. rewrite Ht. cbn [ok_or rbind]. rewrite Hcon.
  cbn [ok_or rbind]. eexists _, _. split; [done|]. apply next_turn_Ok. cbn. split.
  - apply eq_None_not_Some. by rewrite Hd.
  - eexists t, _. split_and!; done.
Qed.
End order.

(** ** Restored outputs *)

Section restore.
Variable from_str : string -> result string value.
Variable to_string : value -> string.

Lemma restore_failure_output f : restore_failure (without_result_receipt f) (Some (output_value f)) = f.
Proof.
  unfold restore_failure, output_value, without_result_receipt, with_result_receipt.
  destruct f as [m pc md mo rr]; destruct md, mo, rr; reflexivity.
Qed.

Lemma output_text_of kind call_id output format :
  let item := tool_output_with_format to_string call_id kind output format in
  vget "output" item = Some (VString (output_text to_string kind output)) /\ vidx item "type" = VString (output_type kind) /\
  vidx item "call_id" = VString call_id.
Proof. destruct kind, format; done. Qed.

(** A terminal other than success is read with the body it was published with. *)
Lemma canonical_body_other terminal kind output :
  terminal <> Success -> output_text to_string kind output = to_string (output_body output) ->
  from_str (to_string (output_body output)) = Ok (output_body output) ->
  canonical_body from_str terminal (VString (output_text to_string kind output)) = Ok (Some (output_body output)).
Proof. intros Hs -> Hj. unfold canonical_body. rewrite bool_decide_eq_false_2 by done. by rewrite Hj. Qed.

Lemma restore_terminal_text kind call_id output :
  from_str (to_string (output_body output)) = Ok (output_body output) ->
  exists restored, restore_terminal from_str kind call_id (terminal_of output) (VString (output_text to_string kind output)) = Ok restored /\
    (restored = output \/ exists v, kind = CustomKind /\ output = OutCompleted (Ok v) /\ restored = OutCompleted (Ok (VString (to_string v)))) /\
    output_text to_string kind restored = output_text to_string kind output.
Proof.
  intros Hjson. destruct output as [[v|f]| |[v|f]| |d].
  1: { destruct kind; cbn [output_text]; unfold restore_terminal; cbn [terminal_of].
       - unfold canonical_body. rewrite bool_decide_eq_true_2 by done. cbn [rbind]. rewrite Hjson. eexists. split; [done|]. split; [by left|done].
       - unfold canonical_body. rewrite bool_decide_eq_true_2 by done. cbn [rbind].
         destruct v; eexists; (split; [done|]); (split; [|done]); by (left; done) || (right; eexists). }
  all: unfold restore_terminal; rewrite canonical_body_other by (done || by destruct kind); cbn [rbind terminal_of].
  - exists (OutCompleted (Err f)). cbn [output_body receipt_value]. rewrite restore_failure_output. auto.
  - eauto.
  - exists (OutCancelledWithReceipt (Ok v)). auto.
  - exists (OutCancelledWithReceipt (Err f)). change (Some (output_body (OutCancelledWithReceipt (Err f))) ≫= vget "receipt") with (Some (output_value f)).
    rewrite restore_failure_output. auto.
  - eauto.
  - exists (OutCancellationUnconfirmed d). assert (restore_failure (without_result_receipt d) (Some (output_body (OutCancellationUnconfirmed d))) = d) as ->; [|auto].
    destruct d as [m pc md mo rr]. by destruct rr.
Qed.

(** A recorded output is restored to the settlement it was made from: for
    any settled output, published in either format with its terminal recorded apart
    from its payload, restoring yields that output again, receipts included (a
    freeform success that was not text is restored as the text that was
    published), and publishing it again yields the same item. *)
Theorem restored_output call_id kind output format :
  from_str (to_string (output_body output)) = Ok (output_body output) ->
  let item := tool_output_with_format to_string call_id kind output format in
  exists restored, restore_output from_str to_string kind call_id {| ro_item := item; ro_terminal := terminal_of output; ro_format := format |} = Ok restored /\
    (restored = output \/ exists v, kind = CustomKind /\ output = OutCompleted (Ok v) /\ restored = OutCompleted (Ok (VString (to_string v)))) /\
    tool_output_with_format to_string call_id kind restored format = item.
Proof.
  intros Hjson item. destruct (output_text_of kind call_id output format) as (Ho & Ht & Hc). fold item in Ho, Ht, Hc.
  destruct (restore_terminal_text kind call_id output Hjson) as (restored & Hr & Hcase & Htext).
  assert (tool_output_with_format to_string call_id kind restored format = item) as Hsame.
  { unfold item, tool_output_with_format, tool_output. by rewrite Htext. }
  exists restored. split; [|done]. unfold restore_output. cbn [ro_item ro_terminal ro_format]. unfold veq_str. rewrite Ht, Hc, Ho.
  rewrite !bool_decide_eq_true_2 by done. cbn [negb orb ok_or rbind]. rewrite Hr. cbn [rbind]. by rewrite bool_decide_eq_true_2.
Qed.

(** ** Visible outputs *)

Variable digest : value -> string.

Lemma find_cut_at original h t owners position owner turns : forall k index,
  turns !! k = Some t ->
  (forall j t', (j < k)%nat -> turns !! j = Some t' -> exists owners', rt_outputs (turn_record t') = Some owners' /\ owned_positions original owners' = []) ->
  rt_outputs (turn_record t) = Some owners -> owned_positions original owners = [position] -> owners !! position = Some (Some owner) ->
  find_cut original h index turns = if bool_decide (o_hash (ior_origin owner) = h) then Ok (Some ((index + k)%nat, position))
                                    else Err "recorded output differs from its issued source".
Proof.
  induction turns as [|t' turns IH]; intros [|k] index Hk Hbefore Ho Hp Hown; try done; cbn [find_cut].
  - injection Hk as ->. rewrite Ho, Hp, Hown, Nat.add_0_r. done.
  - destruct (Hbefore 0%nat t') as (owners' & -> & ->); [lia|done|]. rewrite Nat.add_succ_r, <- Nat.add_succ_l. apply IH; try done.
    intros j u Hj Hu. apply (Hbefore (S j) u); [lia|done].
Qed.

(** C36. Where a replay finds an output visible depends on its format: when
    the first later turn that carries the output of a recorded call holds the
    very item that was published, an output in the legacy format is found there, at its
    position; an output in the native receipt format is refused as different from
    its issued source, because the search digests the item without its format. *)
Theorem output_cut_formats turns calls original c output format k t owners position owner :
  calls !! original = Some c -> (rc_issued c < k)%nat -> turns !! k = Some t ->
  (forall j t', (rc_issued c < j < k)%nat -> turns !! j = Some t' ->
     exists owners', rt_outputs (turn_record t') = Some owners' /\ owned_positions original owners' = []) ->
  rt_outputs (turn_record t) = Some owners -> owned_positions original owners = [position] -> owners !! position = Some (Some owner) ->
  o_hash (ior_origin owner) = digest (tool_output_with_format to_string (call original) (rc_kind c) output format) ->
  (digest (tool_output_with_format to_string (call original) (rc_kind c) output NativeReceiptV1) <>
   digest (tool_output to_string (call original) (rc_kind c) output)) ->
  output_cut to_string digest turns calls original output =
  match format with
  | LegacyOpaque => Ok (Some (k, position))
  | NativeReceiptV1 => Err "recorded output differs from its issued source"
  end.
Proof.
  intros Hc Hk Ht Hbefore Ho Hp Hown Hhash Hne. unfold output_cut. rewrite Hc. cbn [ok_or rbind].
  rewrite (find_cut_at original _ t owners position owner _ (k - S (rc_issued c))); try done.
  - replace (S (rc_issued c) + (k - S (rc_issued c)))%nat with k by lia. rewrite Hhash. destruct format; [|by rewrite bool_decide_eq_false_2].
    by rewrite bool_decide_eq_true_2.
  - rewrite lookup_drop. rewrite <- Ht. f_equal. lia.
  - intros j u Hj Hu. rewrite lookup_drop in Hu. apply (Hbefore (S (rc_issued c) + j)%nat u); [lia|done].
Qed.
End restore.

(** ** A recording for the witnesses *)

Definition toy_replayed : OperationId := {| origin := Standalone "store" "/root"; op_request := "r1"; call := "c" |}.
Definition toy_settled : JobOutput := OutCompleted (Ok (VString "done")).

(** A digest that tells formats apart. *)
Definition toy_format_digest (v : value) : string := default "none" (get_str "output_format" v).

Definition toy_replay_turn (r : string) (outputs : option (list (option IssuedOutputReference))) : ReplayTurn :=
  {| turn_record := {| rt_request := r; rt_model_request := toy_request;
                       rt_model_response := {| Sse.response_id := r; turn_items := []; turn_usage := Usage_default |};
                       rt_contract := Some (DeepSeek, Standard); rt_outputs := outputs; rt_event := 1 |};
     turn_purpose := Inference |}.

Definition toy_owner (format : OutputFormat) : IssuedOutputReference :=
  {| ior_origin := {| o_request := "r1"; o_position := 3;
                      o_hash := toy_format_digest (tool_output_with_format (fun _ => "text") "c" FunctionKind toy_settled format) |};
     ior_operation := toy_replayed |}.

Definition toy_recording (format : OutputFormat) : list ReplayTurn :=
  [toy_replay_turn "r1" (Some [None]); toy_replay_turn "r2" (Some [None; Some (toy_owner format)])].

Definition toy_calls : gmap OperationId RecordedCall :=
  {[toy_replayed := {| rc_name := "run"; rc_kind := FunctionKind; rc_input := VNull; rc_issued := 0 |}]}.

Definition toy_submission (p : ReplayProgress) (id : string) : PreparedProviderRequest :=
  {| pp_id := id; pp_request := toy_request;
     pp_step := match prepare_submission 7 (toy_recording LegacyOpaque) p with Ok s => Some s | Err _ => None end;
     pp_contract := (DeepSeek, Standard); pp_purpose := Inference |}.

Definition toy_progress1 : ReplayProgress :=
  match next_turn 7 (toy_recording LegacyOpaque) progress_new (toy_submission progress_new "local") with Ok (_, p) => p | Err _ => progress_new end.

Lemma toy_run : replay_run 7 (toy_recording LegacyOpaque) toy_progress1
  [(toy_submission progress_new "local", {| Sse.response_id := "r1"; turn_items := []; turn_usage := Usage_default |})].
Proof.
  eapply (run_turn _ _ progress_new _ []); [apply run_start|]. apply rs_turn. vm_compute. reflexivity.
Qed.

Lemma replay_in_order_witness :
  length (toy_recording LegacyOpaque) = 2%nat /\ cursor toy_progress1 = 1%nat /\
  exists step p', prepare_submission 7 (toy_recording LegacyOpaque) toy_progress1 = Ok step /\
    next_turn 7 (toy_recording LegacyOpaque) toy_progress1
      {| pp_id := "second"; pp_request := toy_request; pp_step := Some step; pp_contract := (DeepSeek, Standard); pp_purpose := Inference |} =
    Ok ({| Sse.response_id := "r2"; turn_items := []; turn_usage := Usage_default |}, p').
Proof.
  destruct (replay_in_order 7 (toy_recording LegacyOpaque) toy_progress1 _ toy_run) as (H1 & _ & _ & H).
  split; [reflexivity|]. split; [symmetry; exact H1|].
  apply (H (toy_replay_turn "r2" (Some [None; Some (toy_owner LegacyOpaque)])) (DeepSeek, Standard) "second"); [reflexivity|reflexivity|].
  cbn. intros Hin. apply list_elem_of_singleton in Hin. discriminate Hin.
Defined.

Lemma restored_output_witness :
  let f := with_result_receipt (ToolFailure_from "boom") (VString "partial") in
  let from := fun _ : string => Ok (output_value f) in
  let item := tool_output_with_format (fun _ => "text") "c" FunctionKind (OutCompleted (Err f)) NativeReceiptV1 in
  restore_output from (fun _ => "text") FunctionKind "c" {| ro_item := item; ro_terminal := FailureOutcome (ToolFailure_from "boom"); ro_format := NativeReceiptV1 |}
  = Ok (OutCompleted (Err f)).
Proof.
  intros f from item.
  destruct (restored_output from (fun _ => "text") "c" FunctionKind (OutCompleted (Err f)) NativeReceiptV1 eq_refl) as (restored & H & [->|Hc] & _).
  - exact H.
  - destruct Hc as (v & Hc & _). discriminate Hc.
Defined.

Lemma output_cut_formats_witness :
  output_cut (fun _ => "text") toy_format_digest (toy_recording LegacyOpaque) toy_calls toy_replayed toy_settled = Ok (Some (1%nat, 1%nat)) /\
  output_cut (fun _ => "text") toy_format_digest (toy_recording NativeReceiptV1) toy_calls toy_replayed toy_settled =
    Err "recorded output differs from its issued source".
Proof.
  split.
  - apply (output_cut_formats (fun _ => "text") toy_format_digest (toy_recording LegacyOpaque) toy_calls toy_replayed
      {| rc_name := "run"; rc_kind := FunctionKind; rc_input := VNull; rc_issued := 0 |} toy_settled LegacyOpaque 1
      (toy_replay_turn "r2" (Some [None; Some (toy_owner LegacyOpaque)])) [None; Some (toy_owner LegacyOpaque)] 1 (toy_owner LegacyOpaque));
      try reflexivity; [simpl; lia|simpl; intros; lia|discriminate].
  - apply (output_cut_formats (fun _ => "text") toy_format_digest (toy_recording NativeReceiptV1) toy_calls toy_replayed
      {| rc_name := "run"; rc_kind := FunctionKind; rc_input := VNull; rc_issued := 0 |} toy_settled NativeReceiptV1 1
      (toy_replay_turn "r2" (Some [None; Some (toy_owner NativeReceiptV1)])) [None; Some (toy_owner NativeReceiptV1)] 1 (toy_owner NativeReceiptV1));
      try reflexivity; [simpl; lia|simpl; intros; lia|discriminate].
Defined.
