(* ===== verification/Compaction.v ===== *)
(** Compaction of a conversation into a new window: [compaction.rs].

    A strategy replaces a long conversation by its standing instructions, a
    summary, the latest user messages and the calls that are still open. Both
    strategies of the source are modelled; the model's answers and the JSON
    text of an item are parameters. The theorems give the exact shape of the window,
    the source of everything retained in it, and that instructions neither
    pile up nor get lost over repeated compactions. *)

From S2P Require Import Prelude Json Redaction Usage Observation Failure StoreDb Jobs Lists Item ContextPatch ContextText HistoryDb Mailbox.

(** [CompactError::Failed]. *)
Inductive CompactError := CompactFailed (text : string).

Record NewWindow := {
  window : list value;
  window_effort : Effort;
  carried : list string;
  retained : list (nat * Occurrence);
  generated : list (nat * nat)
}.

Record CompactionInput := { ci_items : list value; ci_occurrences : list (option Occurrence) }.

(** [CompactContext], without the capabilities, which are arguments below. *)
Record CompactContext := {
  cx_items : list value;
  pending_calls : list value;
  pending_positions : list nat;
  pending_occurrences : list Occurrence;
  cx_occurrences : list (option Occurrence);
  cx_effort : Effort
}.

(** One selected position; [occurrences[position]] exists where [items[position]] does. *)
Definition select_one (cx : CompactContext) (acc : list nat * CompactionInput) (position : nat) : result CompactError (list nat * CompactionInput) :=
  let '(seen, input) := acc in
  refuse bool_decide (position ∈ seen) with CompactFailed "invalid compaction input selection";
  do item <- ok_or (cx_items cx !! position) (CompactFailed "invalid compaction input selection");
  Ok (position :: seen, {| ci_items := ci_items input ++ [item];
                           ci_occurrences := ci_occurrences input ++ [default None (cx_occurrences cx !! position)] |}).

Definition select_input (cx : CompactContext) (positions : list nat) (appended : list value) : result CompactError CompactionInput :=
  do '(_, input) <- fold_result (select_one cx) ([], {| ci_items := []; ci_occurrences := [] |}) positions;
  Ok {| ci_items := ci_items input ++ appended; ci_occurrences := ci_occurrences input ++ replicate (length appended) None |}.

(** ** Kinds of items *)

Definition MAX_RECENT_USER_MESSAGES : nat := 8.
Definition MAX_RECENT_USER_BYTES : N := 16384.
Definition HANDOFF_MARKER : string := "[plain-text-compaction-v1]".

Definition is_tool_item (item : value) : bool :=
  type_in item ["function_call"; "custom_tool_call"; "function_call_output"; "custom_tool_call_output"].

Definition standing_instruction (item : value) : bool :=
  veq_str (vidx item "type") "message" && role_in item ["system"; "developer"].

Definition is_handoff (item : value) : bool :=
  match as_str (vidx item "content") with Some text => String.prefix HANDOFF_MARKER text | None => false end.

Definition is_user_message (item : value) : bool := bool_decide (get_str "type" item = Some "message") && bool_decide (get_str "role" item = Some "user").

Definition is_setting (item : value) : bool :=
  match get_str "type" item with
  | Some t => bool_decide (t ∈ ["configuration_update"; "additional_tools"; "compaction_trigger"])
  | None => false
  end.

Definition server_keeps (item : value) : bool := negb (is_setting item) && negb (is_user_message item) && negb (is_tool_item item).

Definition assistant_text (item : value) : option string :=
  if negb (veq_str (vidx item "type") "message") || negb (veq_str (vidx item "role") "assistant") then None else
  match vidx item "content" with
  | VString text => Some text
  | VArray parts =>
      Some (String.concat newline
        (omap (fun part => if veq_str (vidx part "type") "output_text" then as_str (vidx part "text") else None) parts))
  | _ => None
  end.

Definition text_item (role content : string) : value :=
  json_object [("type", VString "message"); ("role", VString role); ("content", VString content)].

Section strategies.
(** [serde_json::to_vec(item).len()]. *)
Variable json_bytes : value -> N.

(** ** Parts of a window *)

(** One copied item: its source, if it has one, is retained at its place. *)
Definition copy_item (cx : CompactContext) (acc : list value * list (nat * Occurrence)) (x : nat * value)
    : list value * list (nat * Occurrence) :=
  (acc.1 ++ [x.2], match default None (cx_occurrences cx !! x.1) with Some o => acc.2 ++ [(length acc.1, o)] | None => acc.2 end).

Definition copy_pending (acc : list value * list (nat * Occurrence)) (o : Occurrence) : list value * list (nat * Occurrence) :=
  (acc.1 ++ [occ_item o], acc.2 ++ [(length acc.1, o)]).

(** The scan from the end: at most eight messages and 16 KiB. *)
Fixpoint recent_scan (candidates : list (nat * value)) (count : nat) (bytes : N) : list (nat * value) :=
  match candidates with
  | [] => []
  | (i, item) :: candidates =>
      let size := json_bytes item in
      if (count =? MAX_RECENT_USER_MESSAGES)%nat || (MAX_RECENT_USER_BYTES <? bytes + size)%N then []
      else (i, item) :: recent_scan candidates (S count) (bytes + size)
  end.

Definition recent_messages (items : list value) : list (nat * value) :=
  reverse (recent_scan (List.filter (fun x => is_user_message x.2) (reverse (imap pair items))) 0 0).

Definition carry_id (ids : list string) (item : value) : list string :=
  match as_str (vidx item "call_id") with
  | Some id => if bool_decide (id ∈ ids) then ids else ids ++ [id]
  | None => ids
  end.

(** ** [PlainText] *)

Definition summary_prompt : value :=
  text_item "user" "Summarize the conversation so the next assistant can continue the work. Include goals, decisions, important evidence, and unresolved tasks. Write plain text only. Do not call tools.".

Definition handoff_text (summary : string) : string := HANDOFF_MARKER +:+ " Earlier conversation summary:" +:+ newline +:+ summary.

Definition plain_text (text_turn : CompactionInput -> result CompactError (list value)) (cx : CompactContext) : result CompactError NewWindow :=
  let positions := fst <$> List.filter (fun x => negb (bool_decide (x.1 ∈ pending_positions cx))) (imap pair (cx_items cx)) in
  do prompt <- select_input cx positions [summary_prompt];
  do response <- text_turn prompt;
  refuse existsb is_tool_item response with CompactFailed "summary response contained a tool item";
  let summary := String.concat newline (omap assistant_text response) in
  refuse is_blank summary with CompactFailed "summary response had no assistant text";
  let acc := foldl (copy_item cx) ([], [])
               (List.filter (fun x => standing_instruction x.2 && negb (is_handoff x.2)) (imap pair (cx_items cx))) in
  let acc := (acc.1 ++ [text_item "developer" (handoff_text summary)], acc.2) in
  let acc := foldl (copy_item cx) acc (recent_messages (cx_items cx)) in
  let acc := foldl copy_pending acc (pending_occurrences cx) in
  Ok {| window := acc.1 ++ [configuration_update (cx_effort cx)]; window_effort := cx_effort cx;
        carried := foldl carry_id [] (pending_calls cx); retained := acc.2; generated := [] |}.

(** ** [Server] *)

Definition compaction_notice : value :=
  text_item "developer" "[compaction-context-v1] Context was compacted; you are the successor. Summary follows; live state (bindings, worktrees, children) is listed after it.".

(** The loop that keeps an answer's items and numbers them. *)
Definition keep_generated (acc : list value * list (nat * nat)) (x : nat * value) : list value * list (nat * nat) :=
  (acc.1 ++ [x.2], acc.2 ++ [(S (length acc.2), x.1)]).

Definition server_compact (compact : CompactionInput -> result CompactError (list value)) (cx : CompactContext) : result CompactError NewWindow :=
  let positions := fst <$> List.filter (fun x => negb (is_setting x.2)) (imap pair (cx_items cx)) in
  do input <- select_input cx positions [json_object [("type", VString "compaction_trigger")]];
  do server_items <- compact input;
  let kept := foldl keep_generated ([], []) (List.filter (fun x => server_keeps x.2) (imap pair server_items)) in
  let acc := foldl (copy_item cx) (kept.1, []) (List.filter (fun x => is_user_message x.2) (imap pair (cx_items cx))) in
  let acc := foldl copy_pending acc (pending_occurrences cx) in
  Ok {| window := (compaction_notice :: acc.1) ++ [configuration_update (cx_effort cx)]; window_effort := cx_effort cx;
        carried := foldl carry_id [] (pending_calls cx); retained := (fun r => (S r.1, r.2)) <$> acc.2; generated := kept.2 |}.
End strategies.

(** ** Windows and their sources *)

(** The conversation with the source of each item, if it has one. *)
Definition conversation (cx : CompactContext) : list (value * option Occurrence) :=
  imap (fun i x => (x, default None (cx_occurrences cx !! i))) (cx_items cx).

(** The sources of a window and their places. *)
Definition sources (t : list (value * option Occurrence)) : list (nat * Occurrence) :=
  omap (fun x => pair x.1 <$> x.2.2) (imap pair t).

Definition built (acc : list value * list (nat * Occurrence)) (t : list (value * option Occurrence)) : Prop :=
  acc.1 = fst <$> t /\ acc.2 = sources t.

Lemma sources_snoc t x s : sources (t ++ [(x, s)]) = sources t ++ match s with Some o => [(length t, o)] | None => [] end.
Proof. unfold sources. rewrite imap_app, omap_app. simpl. rewrite Nat.add_0_r. by destruct s. Qed.

Lemma sources_cons x t : sources ((x, None) :: t) = (fun r => (S r.1, r.2)) <$> sources t.
Proof.
  induction t as [|[y s] t IH] using rev_ind; [done|]. rewrite app_comm_cons, !sources_snoc, IH, fmap_app. simpl. by destruct s.
Qed.

Lemma sources_none {A} (f : A -> value) l : sources ((fun x => (f x, None)) <$> l) = [].
Proof.
  induction l as [|x l IH] using rev_ind; [done|]. rewrite fmap_app. change ((fun x => (f x, None)) <$> [x]) with [(f x, None : option Occurrence)].
  by rewrite sources_snoc, IH.
Qed.

Lemma built_item cx acc t i x : built acc t -> cx_items cx !! i = Some x ->
  built (copy_item cx acc (i, x)) (t ++ [(x, default None (cx_occurrences cx !! i))]).
Proof.
  intros [H1 H2] Hi. split; simpl; [by rewrite fmap_app, H1|]. rewrite sources_snoc, H1, H2, length_fmap.
  destruct (default None (cx_occurrences cx !! i)); [done|]. by rewrite app_nil_r.
Qed.

Lemma built_items cx l : forall acc t, built acc t -> Forall (fun x => cx_items cx !! x.1 = Some x.2) l ->
  built (foldl (copy_item cx) acc l) (t ++ ((fun x => (x.2, default None (cx_occurrences cx !! x.1))) <$> l)).
Proof.
  induction l as [|[i x] l IH]; intros acc t H Hl; simpl; [by rewrite app_nil_r|]. apply Forall_cons in Hl as [Hi Hl].
  rewrite cons_middle, app_assoc. apply IH; [by apply built_item|done].
Qed.

Lemma built_pending l : forall acc t, built acc t -> built (foldl copy_pending acc l) (t ++ ((fun o => (occ_item o, Some o)) <$> l)).
Proof.
  induction l as [|o l IH]; intros acc t H; simpl; [by rewrite app_nil_r|]. rewrite cons_middle, app_assoc. apply IH. destruct H as [H1 H2].
  split; simpl; [by rewrite fmap_app, H1|]. by rewrite sources_snoc, H1, H2, length_fmap.
Qed.

(** A filter of the conversation, by item. *)
Lemma filter_conversation cx (p : value -> bool) :
  (fun x => (x.2, default None (cx_occurrences cx !! x.1))) <$> List.filter (fun x : nat * value => p x.2) (imap pair (cx_items cx)) =
  List.filter (fun x => p x.1) (conversation cx).
Proof.
  unfold conversation. generalize (cx_occurrences cx) as os. induction (cx_items cx) as [|x l IH] using rev_ind; intros os; [done|].
  rewrite !imap_app, !List.filter_app, fmap_app, IH. simpl. rewrite Nat.add_0_r. by destruct (p x).
Qed.

Lemma indexed_items {A} (items : list A) l : (forall x, x ∈ l -> x ∈ imap pair items) -> Forall (fun x => items !! x.1 = Some x.2) l.
Proof. intros H. apply Forall_forall. intros x Hx%H. apply elem_of_lookup_imap in Hx as (i & y & -> & Hy). done. Qed.

Section windows.
#[local] Arguments N.add : simpl never.
#[local] Arguments N.le : simpl never.
Variable json_bytes : value -> N.

Definition bytes_total (l : list value) : N := foldr (fun x n => (json_bytes x + n)%N) 0%N l.

(** Messages that may be carried over. *)
Definition fits (l : list value) : Prop := (length l <= MAX_RECENT_USER_MESSAGES)%nat /\ (bytes_total l <= MAX_RECENT_USER_BYTES)%N.

Lemma bytes_total_app l1 l2 : bytes_total (l1 ++ l2) = (bytes_total l1 + bytes_total l2)%N.
Proof. induction l1 as [|x l1 IH]; simpl; [done|]. rewrite IH. lia. Qed.

Lemma recent_scan_longest l : forall count bytes,
  (count <= MAX_RECENT_USER_MESSAGES)%nat -> (bytes <= MAX_RECENT_USER_BYTES)%N ->
  exists n, recent_scan json_bytes l count bytes = take n l /\ (n <= length l)%nat /\
    forall k, (k <= length l)%nat ->
      (k <= n)%nat <-> (count + k <= MAX_RECENT_USER_MESSAGES)%nat /\ (bytes + bytes_total (snd <$> take k l) <= MAX_RECENT_USER_BYTES)%N.
Proof.
  induction l as [|[i x] l IH]; intros count bytes Hc Hb; cbn [recent_scan].
  - exists 0%nat. split_and!; [done..|]. intros k Hk. simpl in Hk. assert (k = 0%nat) as -> by lia. rewrite take_0. simpl. split; [|lia]. intros _. lia.
  - destruct (_ || _) eqn:E.
    + exists 0%nat. split_and!; [done|lia|]. intros [|k] Hk.
      * rewrite take_0. simpl. split; [|lia]. intros _. lia.
      * split; [lia|]. intros [H1 H2]. exfalso.
        change (bytes_total (snd <$> take (S k) ((i, x) :: l))) with (json_bytes x + bytes_total (snd <$> take k l))%N in H2. apply orb_true_iff in E as [E%Nat.eqb_eq|E%N.ltb_lt]; lia.
    + apply orb_false_iff in E as [E1%Nat.eqb_neq E2%N.ltb_ge]. destruct (IH (S count) (bytes + json_bytes x)%N) as (n & Hn & Hl & Hk); [lia|done|].
      exists (S n). rewrite Hn. split_and!; [done|simpl; lia|]. intros [|k] Hlk.
      * rewrite take_0. simpl. split; [|lia]. intros _. lia.
      * simpl in Hlk. specialize (Hk k ltac:(lia)).
        change (bytes_total (snd <$> take (S k) ((i, x) :: l))) with (json_bytes x + bytes_total (snd <$> take k l))%N. split.
        -- intros H. destruct (proj1 Hk ltac:(lia)). lia.
        -- intros [H1 H2]. assert (k <= n)%nat; [|lia]. apply Hk. lia.
Qed.

Lemma filter_reverse {A} (p : A -> bool) l : List.filter p (reverse l) = reverse (List.filter p l).
Proof.
  induction l as [|x l IH]; [done|]. rewrite reverse_cons, List.filter_app, IH. simpl. destruct (p x); [by rewrite reverse_cons|]. apply app_nil_r.
Qed.

Lemma bytes_total_reverse l : bytes_total (reverse l) = bytes_total l.
Proof. induction l as [|x l IH]; [done|]. rewrite reverse_cons, bytes_total_app, IH. simpl. lia. Qed.

(** The messages carried over are the longest run of the latest that fits. *)
Lemma recent_longest items :
  let users := List.filter (fun x => is_user_message x.2) (imap pair items) in
  exists pre, users = pre ++ recent_messages json_bytes items /\ fits (snd <$> recent_messages json_bytes items) /\
    forall pre' late, users = pre' ++ late -> fits (snd <$> late) -> (length late <= length (recent_messages json_bytes items))%nat.
Proof.
  intros users. unfold recent_messages. rewrite filter_reverse. fold users.
  destruct (recent_scan_longest (reverse users) 0 0) as (n & -> & Hn & Hk); [unfold MAX_RECENT_USER_MESSAGES; lia|lia|]. rewrite length_reverse in *.
  assert (forall k, (k <= length users)%nat -> reverse (take k (reverse users)) = drop (length users - k) users) as Hrev.
  { intros k Hkl. rewrite <- (reverse_involutive users) at 2. rewrite take_reverse, reverse_involutive. by rewrite reverse_involutive. }
  assert (forall k, (k <= length users)%nat -> bytes_total (snd <$> take k (reverse users)) = bytes_total (snd <$> drop (length users - k) users)) as Hbytes.
  { intros k Hkl. rewrite <- Hrev by done. by rewrite fmap_reverse, bytes_total_reverse. }
  rewrite Hrev by done. exists (take (length users - n) users). rewrite take_drop. split; [done|]. split.
  - destruct (proj1 (Hk n Hn)) as [H1 H2]; [done|]. rewrite Hbytes in H2 by done. split; [|lia]. rewrite length_fmap, length_drop. lia.
  - intros pre' late Hu [F1 F2]. rewrite length_take, length_reverse. assert (length users = length pre' + length late)%nat as Hlen by (by rewrite Hu, length_app).
    rewrite length_fmap in F1. assert (length late <= n)%nat; [|lia]. apply Hk; [lia|]. split; [lia|].
    rewrite Hbytes by lia. replace (length users - length late)%nat with (length pre') by lia. rewrite Hu, drop_app_length. lia.
Qed.

(** Selecting distinct positions of the conversation never fails. *)
Lemma select_loop cx l : forall seen input,
  Forall (fun x => cx_items cx !! x.1 = Some x.2) l -> NoDup (l.*1) -> Forall (fun x : nat * value => x.1 ∉ seen) l ->
  exists seen', fold_result (select_one cx) (seen, input) (l.*1) =
    Ok (seen', {| ci_items := ci_items input ++ l.*2; ci_occurrences := ci_occurrences input ++ ((fun x => default None (cx_occurrences cx !! x.1)) <$> l) |}).
Proof.
  induction l as [|[i x] l IH]; intros seen input Hl Hnd Hs; [exists seen; simpl; rewrite !app_nil_r; by destruct input|].
  apply Forall_cons in Hl as [Hi Hl], Hs as [Hsi Hs]. rewrite fmap_cons, NoDup_cons in Hnd. destruct Hnd as [Hn Hnd]. simpl in Hi, Hsi, Hn.
  rewrite fmap_cons. cbn [fold_result select_one fst]. rewrite bool_decide_eq_false_2 by done. rewrite Hi. cbn [ok_or rbind].
  destruct (IH (i :: seen) {| ci_items := ci_items input ++ [x]; ci_occurrences := ci_occurrences input ++ [default None (cx_occurrences cx !! i)] |}) as [s' Hs'].
  - done.
  - done.
  - apply Forall_forall. intros y Hy. rewrite Forall_forall in Hs. intros [Hyi|?]%elem_of_cons; [|by eapply Hs]. apply Hn, list_elem_of_fmap. by exists y.
  - exists s'. rewrite Hs'. cbn [ci_items ci_occurrences]. by rewrite <- !app_assoc.
Qed.

Lemma select_where cx (p : nat * value -> bool) appended :
  let l := List.filter p (imap pair (cx_items cx)) in
  select_input cx (l.*1) appended =
  Ok {| ci_items := l.*2 ++ appended; ci_occurrences := ((fun x => default None (cx_occurrences cx !! x.1)) <$> l) ++ replicate (length appended) None |}.
Proof.
  intros l. destruct (select_loop cx l [] {| ci_items := []; ci_occurrences := [] |}) as [s Hs].
  - apply indexed_items. intros x Hx. by apply list_elem_of_In, filter_In in Hx as [?%list_elem_of_In _].
  - eapply sublist_NoDup; [|apply fmap_sublist, list_filter_sublist]. assert ((imap pair (cx_items cx)).*1 = seq 0 (length (cx_items cx))) as ->; [|apply NoDup_seq].
    rewrite fmap_imap. rewrite <- (list_fmap_id (seq 0 _)). apply (imap_seq_0 _ id).
  - apply Forall_forall. intros x _. set_solver.
  - unfold select_input. rewrite Hs. done.
Qed.

Lemma carried_spec calls : forall ids, NoDup ids ->
  NoDup (foldl carry_id ids calls) /\
  forall id, id ∈ foldl carry_id ids calls <-> id ∈ ids \/ exists item, item ∈ calls /\ as_str (vidx item "call_id") = Some id.
Proof.
  induction calls as [|c calls IH]; intros ids Hnd; simpl; [split; [done|]; set_solver|].
  assert (NoDup (carry_id ids c) /\ forall id, id ∈ carry_id ids c <-> id ∈ ids \/ as_str (vidx c "call_id") = Some id) as [H1 H2].
  { unfold carry_id. destruct (as_str (vidx c "call_id")) as [i|]; [|split; [done|naive_solver]]. case_bool_decide as Hi.
    - split; [done|]. intros id. split; [by left|]. by intros [?|[= <-]].
    - split; [by apply NoDup_snoc|]. intros id. rewrite elem_of_app, list_elem_of_singleton. naive_solver. }
  destruct (IH _ H1) as [H3 H4]. split; [done|]. intros id. rewrite H4, H2. setoid_rewrite elem_of_cons. naive_solver.
Qed.

Definition users (cx : CompactContext) : list (value * option Occurrence) := List.filter (fun x => is_user_message x.1) (conversation cx).

Definition instructions_of (items : list value) : list value := List.filter (fun x => standing_instruction x && negb (is_handoff x)) items.

(** The latest messages of a conversation: the longest run at its end that fits. *)
Definition latest (l recent : list (value * option Occurrence)) : Prop :=
  recent `suffix_of` l /\ fits (fst <$> recent) /\
  forall late, late `suffix_of` l -> fits (fst <$> late) -> (length late <= length recent)%nat.

Definition pending_tagged (cx : CompactContext) : list (value * option Occurrence) := (fun o => (occ_item o, Some o)) <$> pending_occurrences cx.

Lemma recent_latest cx :
  latest (users cx) ((fun x => (x.2, default None (cx_occurrences cx !! x.1))) <$> recent_messages json_bytes (cx_items cx)).
Proof.
  destruct (recent_longest (cx_items cx)) as (pre & Hpre & Hfit & Hmax). unfold users. rewrite <- (filter_conversation cx is_user_message).
  set (tag := fun x : nat * value => (x.2, default None (cx_occurrences cx !! x.1))). set (us := List.filter _ _) in *.
  assert (forall l, fst <$> (tag <$> l) = snd <$> l) as Htag by (intros l; by rewrite <- list_fmap_compose). split_and!.
  - exists (tag <$> pre). by rewrite <- fmap_app, <- Hpre.
  - by rewrite Htag.
  - intros late [front Hfront] Hlate. apply fmap_app_inv in Hfront as (l1 & l2 & -> & -> & Hus). rewrite Htag in Hlate. rewrite !length_fmap.
    by eapply Hmax.
Qed.

Lemma recent_indexed items : Forall (fun x => items !! x.1 = Some x.2) (recent_messages json_bytes items).
Proof.
  apply indexed_items. intros x Hx. destruct (recent_longest items) as (pre & Hpre & _). assert (x ∈ pre ++ recent_messages json_bytes items) as Hin by set_solver.
  rewrite <- Hpre in Hin. by apply list_elem_of_In, filter_In in Hin as [?%list_elem_of_In _].
Qed.

Lemma filter_indexed {A} (items : list A) (p : nat * A -> bool) : Forall (fun x => items !! x.1 = Some x.2) (List.filter p (imap pair items)).
Proof. apply indexed_items. intros x Hx. by apply list_elem_of_In, filter_In in Hx as [?%list_elem_of_In _]. Qed.

Lemma user_not_standing x : is_user_message x = true -> standing_instruction x = false.
Proof.
  unfold is_user_message, standing_instruction, role_in, get_str. rewrite andb_true_iff, !bool_decide_eq_true. intros [_ H].
  unfold vidx. destruct (vget "role" x) as [[]|]; try done. injection H as ->. simpl. by rewrite andb_false_r.
Qed.

Lemma handoff_is_handoff summary : is_handoff (text_item "developer" (handoff_text summary)) = true.
Proof. unfold is_handoff. change (String.prefix (HANDOFF_MARKER +:+ "") (HANDOFF_MARKER +:+ (" Earlier conversation summary:" +:+ newline +:+ summary)) = true). by rewrite prefix_app. Qed.

Lemma instructions_none l : Forall (fun x => standing_instruction x = false) l -> instructions_of l = [].
Proof. intros H. apply filter_nil_iff. eapply Forall_impl; [exact H|]. by intros x ->. Qed.

Lemma instructions_app l1 l2 : instructions_of (l1 ++ l2) = instructions_of l1 ++ instructions_of l2.
Proof. apply List.filter_app. Qed.

Lemma filter_fst {A B} (p : A -> bool) (l : list (A * B)) : fst <$> List.filter (fun x => p x.1) l = List.filter p (fst <$> l).
Proof. induction l as [|x l IH]; [done|]. rewrite fmap_cons. cbn [List.filter]. destruct (p x.1); [|done]. by rewrite fmap_cons, IH. Qed.

Lemma conversation_items cx : fst <$> conversation cx = cx_items cx.
Proof. unfold conversation. rewrite fmap_imap. rewrite <- (list_fmap_id (cx_items cx)) at 2. apply (imap_const id). Qed.

Lemma instructions_idem l : instructions_of (instructions_of l) = instructions_of l.
Proof. apply filter_all. intros x Hx. by apply list_elem_of_In, filter_In in Hx as [_ ?]. Qed.

(** What a plain-text compaction keeps. The prompt is the conversation
    without its pending calls; an answer with a tool item or without text is
    refused. The window is the standing instructions (earlier handoffs dropped),
    one handoff with the summary, the longest run of latest user messages within eight
    messages and 16 KiB, the pending calls exactly, and the effort; the
    retained sources are exactly the sources of these items at their places; the
    carried calls are those pending, once each; and compacting again finds the same instructions. *)
Theorem plain_text_window text_turn cx w :
  plain_text json_bytes text_turn cx = Ok w ->
  exists prompt response recent,
    ci_items prompt = (List.filter (fun x => negb (bool_decide (x.1 ∈ pending_positions cx))) (imap pair (cx_items cx))).*2 ++ [summary_prompt] /\
    text_turn prompt = Ok response /\ Forall (fun x => is_tool_item x = false) response /\
    let summary := String.concat newline (omap assistant_text response) in
    let t := List.filter (fun x => standing_instruction x.1 && negb (is_handoff x.1)) (conversation cx) ++
             [(text_item "developer" (handoff_text summary), None)] ++ recent ++ pending_tagged cx ++ [(configuration_update (cx_effort cx), None)] in
    is_blank summary = false /\ window w = fst <$> t /\ retained w = sources t /\ latest (users cx) recent /\
    NoDup (carried w) /\ (forall id, id ∈ carried w <-> exists item, item ∈ pending_calls cx /\ as_str (vidx item "call_id") = Some id) /\
    (Forall (fun o => standing_instruction (occ_item o) = false) (pending_occurrences cx) -> instructions_of (window w) = instructions_of (cx_items cx)).
Proof.
  intros H. unfold plain_text in H. rewrite (select_where cx (fun x => negb (bool_decide (x.1 ∈ pending_positions cx)))) in H. cbn [rbind] in H.
  apply rbind_Ok in H as (response & Hr & H). destruct (existsb is_tool_item response) eqn:Et; [done|]. destruct (is_blank _) eqn:Eb; [done|]. injection H as <-.
  set (standing := List.filter (fun x : nat * value => standing_instruction x.2 && negb (is_handoff x.2)) (imap pair (cx_items cx))). set (recent := recent_messages json_bytes (cx_items cx)).
  set (tag := fun x : nat * value => (x.2, default None (cx_occurrences cx !! x.1))).
  eexists _, response, (tag <$> recent). split_and!; [|exact Hr| |]; [done|apply Forall_forall; by apply existsb_false|]. intros summary t. fold summary.
  destruct (carried_spec (pending_calls cx) [] (NoDup_nil_2)) as [Hc1 Hc2].
  pose proof (built_items cx standing ([], []) [] (conj eq_refl eq_refl) (filter_indexed _ _)) as B1. simpl app in B1.
  pose proof (recent_latest cx) as Hlatest. fold recent tag in Hlatest.
  match type of B1 with built ?a ?l => assert (built (a.1 ++ [text_item "developer" (handoff_text summary)], a.2) (l ++ [(text_item "developer" (handoff_text summary), None)])) as B2 end.
  { destruct B1 as [E1 E2]. split; simpl; [by rewrite fmap_app, E1|]. by rewrite sources_snoc, app_nil_r. }
  pose proof (built_items cx recent _ _ B2 (recent_indexed _)) as B3. pose proof (built_pending (pending_occurrences cx) _ _ B3) as [B4 B5].
  assert (t = ((((fun x => (x.2, default None (cx_occurrences cx !! x.1))) <$> standing) ++ [(text_item "developer" (handoff_text summary), None)]) ++ (tag <$> recent)
    ++ pending_tagged cx) ++ [(configuration_update (cx_effort cx), None)]) as Ht.
  { unfold t, standing. rewrite (filter_conversation cx (fun x => standing_instruction x && negb (is_handoff x))). by rewrite <- !app_assoc. }
  cbn [window retained carried]. split_and!; try done.
  - rewrite Ht, fmap_app. f_equal. rewrite app_assoc. exact B4.
  - rewrite Ht, sources_snoc, app_nil_r, app_assoc. exact B5.
  - intros id. rewrite Hc2. set_solver.
  - intros Hp. assert (instructions_of (fst <$> t) = instructions_of (cx_items cx)) as Hi; [|rewrite <- Hi; f_equal; rewrite Ht, fmap_app; f_equal; by rewrite app_assoc].
    unfold t. rewrite !fmap_app, !instructions_app. rewrite (filter_fst (fun x => standing_instruction x && negb (is_handoff x))), conversation_items.
    fold (instructions_of (cx_items cx)). rewrite instructions_idem. rewrite (instructions_none (fst <$> (tag <$> recent))), (instructions_none (fst <$> pending_tagged cx)).
    + assert (instructions_of (fst <$> [(text_item "developer" (handoff_text summary), None : option Occurrence)]) = []) as ->.
      { apply filter_nil_iff, Forall_singleton. cbn [fst]. by rewrite handoff_is_handoff, andb_false_r. }
      by rewrite !app_nil_r.
    + unfold pending_tagged. apply Forall_fmap, Forall_fmap. exact Hp.
    + apply Forall_forall. intros x Hx. apply user_not_standing. apply list_elem_of_fmap in Hx as ([y s] & -> & Hy). destruct Hlatest as [[front Hf] _].
      assert ((y, s) ∈ users cx) as Hu by (rewrite Hf; set_solver). unfold users in Hu. by apply list_elem_of_In, filter_In in Hu as [_ ?].
Qed.

(** What a server compaction keeps: after the notice, the server's items
    that are neither settings, user messages nor tool items, in order and each
    traced to its place in the answer, then every user message, the pending calls and the effort. *)
Theorem server_window compact cx w :
  server_compact compact cx = Ok w ->
  exists input answer,
    ci_items input = (List.filter (fun x => negb (is_setting x.2)) (imap pair (cx_items cx))).*2 ++ [json_object [("type", VString "compaction_trigger")]] /\
    compact input = Ok answer /\
    let kept := List.filter (fun x => server_keeps x.2) (imap pair answer) in
    let t := (compaction_notice, None) :: ((fun x => (x.2, None)) <$> kept) ++ users cx ++ pending_tagged cx ++ [(configuration_update (cx_effort cx), None)] in
    window w = fst <$> t /\ retained w = sources t /\ generated w = imap (fun k x => (S k, x.1)) kept /\
    (forall k i, (k, i) ∈ generated w -> exists x, window w !! k = Some x /\ answer !! i = Some x).
Proof.
  intros H. unfold server_compact in H. rewrite (select_where cx (fun x => negb (is_setting x.2))) in H. cbn [rbind] in H.
  apply rbind_Ok in H as (answer & Ha & H). injection H as <-. eexists _, answer. split; [|split; [exact Ha|]]; [done|]. intros kept t.
  assert (forall l acc, foldl keep_generated acc l = (acc.1 ++ l.*2, acc.2 ++ imap (fun k x => (S (length acc.2 + k), x.1)) l)) as Hkeep.
  { induction l as [|x l IH]; intros [a b]; simpl; [by rewrite !app_nil_r|]. rewrite IH. simpl. rewrite <- !app_assoc. simpl. rewrite Nat.add_0_r.
    do 3 f_equal. apply imap_ext. intros k y _. simpl. rewrite length_app. simpl. f_equal. lia. }
  rewrite Hkeep. fold kept. cbn [fst snd window retained generated length app].
  assert (built (kept.*2, []) ((fun x => (x.2, None)) <$> kept)) as B1.
  { split; simpl; [by rewrite <- list_fmap_compose|]. by rewrite sources_none. }
  pose proof (built_items cx _ _ _ B1 (filter_indexed (cx_items cx) (fun x => is_user_message x.2))) as B2.
  rewrite (filter_conversation cx is_user_message) in B2. fold (users cx) in B2. pose proof (built_pending (pending_occurrences cx) _ _ B2) as [B3 B4].
  assert (t = (compaction_notice, None) :: ((((fun x => (x.2, None)) <$> kept) ++ users cx) ++ pending_tagged cx) ++ [(configuration_update (cx_effort cx), None)]) as Ht
    by (unfold t; by rewrite <- !app_assoc).
  split_and!.
  - rewrite Ht, fmap_cons, fmap_app. simpl. do 2 f_equal. exact B3.
  - rewrite Ht, sources_cons, sources_snoc, app_nil_r. f_equal. exact B4.
  - done.
  - intros k i Hki. apply elem_of_lookup_imap in Hki as (j & x & [= -> ->] & Hj).
    pose proof (filter_indexed answer (fun x => server_keeps x.2)) as Hidx. rewrite Forall_forall in Hidx.
    exists x.2. split; [|by apply Hidx, list_elem_of_lookup_2 with j]. cbn [app lookup list_lookup]. rewrite B3, fmap_app, fmap_app, <- !app_assoc.
    apply lookup_app_l_Some. by rewrite <- list_fmap_compose, list_lookup_fmap, Hj.
Qed.
End windows.

(** ** Witness *)

Definition toy_call : value :=
  json_object [("type", VString "function_call"); ("call_id", VString "c"); ("name", VString "run"); ("arguments", VString "{}")].

Definition toy_open : Occurrence :=
  {| occ_request := "r"; occ_position := 3; occ_hash := "h"; occ_item := toy_call; output_operation := None;
     occ_origin := {| o_request := "r"; o_position := 3; o_hash := "h" |}; occ_sources := []; note := false; overlays := [] |}.

(** An instruction, an earlier handoff, a question and an open call. *)
Definition toy_context : CompactContext :=
  {| cx_items := [text_item "system" "be brief"; text_item "developer" (handoff_text "old"); text_item "user" "question"; toy_call];
     pending_calls := [toy_call]; pending_positions := [3%nat]; pending_occurrences := [toy_open];
     cx_occurrences := [None; None; None; Some toy_open]; cx_effort := Low |}.

Definition toy_turn (input : CompactionInput) : result CompactError (list value) :=
  Ok [json_object [("type", VString "message"); ("role", VString "assistant"); ("content", VString "new")]].

Definition toy_window : NewWindow :=
  match plain_text (fun _ => 100%N) toy_turn toy_context with
  | Ok w => w
  | Err _ => {| window := []; window_effort := Low; carried := []; retained := []; generated := [] |}
  end.

Lemma plain_text_window_witness :
  window toy_window = [text_item "system" "be brief"; text_item "developer" (handoff_text "new"); text_item "user" "question"; toy_call; configuration_update Low] /\
  instructions_of (window toy_window) = instructions_of (cx_items toy_context) /\ NoDup (carried toy_window).
Proof.
  split; [vm_compute; reflexivity|].
  destruct (plain_text_window (fun _ => 100%N) toy_turn toy_context toy_window ltac:(vm_compute; reflexivity))
    as (prompt & response & recent & _ & _ & _ & _ & _ & _ & _ & Hnd & _ & Hi).
  split; [apply Hi; repeat constructor|exact Hnd].
Defined.
