(* ===== verification/Presentation.v ===== *)
(** Views and forms shown to a person: the crate [harness-presentation].

    A host sends views and forms; a form's controls are filled in as a draft.
    Every one is checked before it is stored. SVG parsing and the length of a
    value's JSON are parameters. The theorems characterise the forms that are
    admitted by conditions on their nodes, and show that the draft of a form's
    initial values is accepted up to the limits on a draft's size. *)

From S2P Require Import Prelude Json SchemaModel Redaction Lists.

Inductive PresentationError :=
| InvalidView
| InvalidForm
| InvalidSvg (detail : string)
| PresentationJson (e : string).

(** ** Floats *)

(** An [f64] as a control may hold it. *)
Inductive float := Finite (f : f64) | Infinite (negative : bool) | NaN.

#[export] Instance float_eq_dec : EqDecision float.
Proof. solve_decision. Defined.

Definition is_finite (x : float) : bool := match x with Finite _ => true | _ => false end.

(** [a <= b] and [a < b]; an unordered pair is neither. *)
Definition float_le (a b : float) : bool :=
  match a, b with
  | NaN, _ | _, NaN => false
  | Finite f, Finite g => match f64_compare f g with Gt => false | _ => true end
  | Infinite true, _ | _, Infinite false => true
  | Infinite false, _ | _, Infinite true => false
  end.

Definition float_lt (a b : float) : bool := float_le a b && negb (float_le b a).

(** [n as f64] of an [i64]: the nearest of 53 bits, ties to even. *)
Definition i64_as_f64 (n : Z) : f64 :=
  let a := Z.abs n in
  let k := Z.log2 a - 52 in
  if k <=? 0 then F64 n 0 else
  let q := a / 2 ^ k in
  let r := a mod 2 ^ k in
  let half := 2 ^ (k - 1) in
  let q := if (half <? r) || (half =? r) && Z.odd q then q + 1 else q in
  F64 (Z.sgn n * q) k.

(** ** Views *)

Inductive ImageMime := Png | Jpeg | Webp.

Definition mime_str (m : ImageMime) : string :=
  match m with Png => "image/png" | Jpeg => "image/jpeg" | Webp => "image/webp" end.

Inductive MediaSource :=
| MediaData (mime : ImageMime) (base64 : string)
| MediaRetained (hash : string).

Inductive View :=
| ViewText (text : string) (truncated : bool)
| ViewMarkdown (text : string) (truncated : bool)
| ViewRow (children : list View)
| ViewColumn (children : list View)
| ViewCaption (body : View) (text : string) (truncated : bool)
| ViewSvg (source : string)
| ViewImage (source : MediaSource) (alt : string) (truncated : bool)
| ViewInspection (text : string) (has_more unavailable : bool).

Definition MAX_PRESENTATION_BYTES : N := 131072.

Definition hexdigit (c : ascii) : bool :=
  let n := N_of_ascii c in ((48 <=? n) && (n <=? 57) || (65 <=? n) && (n <=? 70) || (97 <=? n) && (n <=? 102))%N.

(** ** Forms and drafts *)

Record FormOption := { opt_id : string; opt_label : string; opt_presentation : View }.

Record FormAlternative (N : Type) := { alt_id : string; alt_label : string; alt_presentation : View; alt_form : N }.
Arguments alt_id {N}.
Arguments alt_label {N}.
Arguments alt_presentation {N}.
Arguments alt_form {N}.

Inductive FormNode :=
| PureNode
| EmptyNode
| GroupNode (children : list FormNode)
| SectionNode (title : string) (child : FormNode)
| ViewNode (presentation : View)
| TextNode (id label : string) (initial : option string)
| IntNode (id label : string) (initial : option string)
| NumberNode (id label : string) (initial : option float)
| SliderNode (id label : string) (minimum maximum initial : float)
| BoolNode (id label : string) (initial : option bool)
| ChoiceNode (id label : string) (options : list FormOption) (initial : option string)
| ManyNode (id label : string) (options : list FormOption) (initial : option (list string))
| AlternativesManyNode (id label : string) (options : list (FormAlternative FormNode)) (initial : option (list string))
| AlternativesNode (id label : string) (options : list (FormAlternative FormNode)) (initial : option string).

Record FormSpec := { version : Z; root : FormNode }.

Inductive ControlValue :=
| ControlBool (b : bool)
| ControlInteger (n : Z)
| ControlNumber (x : float)
| ControlText (s : string)
| ControlMany (l : list string)
| ControlEmpty.

Abbreviation FormDraft := (gmap string ControlValue).

Section all.
Context {E A : Type} (f : A -> result E unit).
(** A [for] loop that stops at the first error. *)
Fixpoint each (l : list A) : result E unit := match l with [] => Ok tt | x :: l => do _ <- f x; each l end.
End all.

Section fold.
Context {A B : Type} (f : A -> B -> option B).
(** [iter().all(..)] over a predicate that keeps a set. *)
Fixpoint fold_all (l : list A) (b : B) : option B := match l with [] => Some b | x :: l => b ← f x b; fold_all l b end.
End fold.

Section presentation.
(** [roxmltree]: the root element's name and namespace, or the error's text. *)
Variable parse_svg : string -> result string (string * option string).
Variable view_bytes : View -> N.

Definition validate_svg (source : string) : result PresentationError unit :=
  do '(name, namespace) <- map_err InvalidSvg (parse_svg source);
  refuse negb (bool_decide (name = "svg"))
         || match namespace with Some ns => negb (bool_decide (ns = "http://www.w3.org/2000/svg")) | None => false end
    with InvalidSvg "root element must be svg in the SVG namespace";
  Ok tt.

Fixpoint view_go (view : View) (depth : nat) : result PresentationError unit :=
  refuse (32 <? depth)%nat with InvalidView;
  match view with
  | ViewSvg source => validate_svg source
  | ViewRow children | ViewColumn children =>
      refuse (1024 <? length children)%nat with InvalidView;
      each (fun child => view_go child (S depth)) children
  | ViewCaption body _ _ => view_go body (S depth)
  | ViewImage (MediaRetained hash) _ _ =>
      refuse negb (String.length hash =? 64)%nat || negb (forallb hexdigit (bytes_of hash)) with InvalidView;
      Ok tt
  | _ => Ok tt
  end.

Definition validate_view (view : View) : result PresentationError unit :=
  refuse (MAX_PRESENTATION_BYTES <? view_bytes view)%N with InvalidView;
  view_go view 0.

(** ** Admitting a form *)

Variable form_bytes : FormSpec -> N.

Definition id_ok (id : string) : bool := negb (bool_decide (id = "")) && (String.length id <=? 128)%nat.

(** The loop over the options: their identities so far. *)
Definition option_step (x : string * View) (ids : list string) : option (list string) :=
  if id_ok x.1 && negb (bool_decide (x.1 ∈ ids)) && is_ok (validate_view x.2) then Some (x.1 :: ids) else None.

Definition selected_step (ids : list string) (id : string) (selected : list string) : option (list string) :=
  if bool_decide (id ∈ ids) && negb (bool_decide (id ∈ selected)) then Some (id :: selected) else None.

Definition options_ok (xs : list (string * View)) (initial : list string) (nonempty : bool) : bool :=
  match fold_all option_step xs [] with
  | None => false
  | Some ids =>
      (negb nonempty || (0 <? length xs)%nat) && (length xs <=? 1024)%nat
      && bool_decide (is_Some (fold_all (selected_step ids) initial []))
  end.

Definition node_id (n : FormNode) : option string :=
  match n with
  | TextNode id _ _ | IntNode id _ _ | NumberNode id _ _ | SliderNode id _ _ _ _ | AlternativesManyNode id _ _ _ | BoolNode id _ _
  | ChoiceNode id _ _ _ | ManyNode id _ _ _ | AlternativesNode id _ _ _ => Some id
  | _ => None
  end.

Definition option_views (xs : list FormOption) : list (string * View) := (fun o => (opt_id o, opt_presentation o)) <$> xs.
Definition alternative_views (xs : list (FormAlternative FormNode)) : list (string * View) := (fun o => (alt_id o, alt_presentation o)) <$> xs.

Definition digits_text (text : string) : bool :=
  let digits := match text with String "-" rest => rest | _ => text end in
  negb (bool_decide (digits = "")) && forallb (fun c => (48 <=? N_of_ascii c)%N && (N_of_ascii c <=? 57)%N) (bytes_of digits).

Definition from_list (initial : option (list string)) : list string := default [] initial.
Definition from_option' (initial : option string) : list string := match initial with Some id => [id] | None => [] end.

Fixpoint form_go (depth : nat) (n : FormNode) (ids : list string) : option (list string) :=
  if (32 <? depth)%nat then None else
  let ids := match node_id n with
             | Some id => if negb (id_ok id) || bool_decide (id ∈ ids) then None else Some (id :: ids)
             | None => Some ids
             end in
  match ids with
  | None => None
  | Some ids =>
      match n with
      | PureNode | EmptyNode | TextNode _ _ _ | NumberNode _ _ _ | BoolNode _ _ _ => Some ids
      | IntNode _ _ initial => if match initial with Some text => digits_text text | None => true end then Some ids else None
      | SliderNode _ _ minimum maximum initial =>
          if is_finite minimum && is_finite maximum && is_finite initial && float_lt minimum maximum && float_le minimum initial
             && float_le initial maximum then Some ids else None
      | AlternativesManyNode _ _ xs initial =>
          if options_ok (alternative_views xs) (from_list initial) false then fold_all (fun o => form_go (S depth) (alt_form o)) xs ids else None
      | GroupNode children => if (length children <=? 1024)%nat then fold_all (form_go (S depth)) children ids else None
      | SectionNode _ child => form_go (S depth) child ids
      | ViewNode presentation => if is_ok (validate_view presentation) then Some ids else None
      | ChoiceNode _ _ xs initial => if options_ok (option_views xs) (from_option' initial) true then Some ids else None
      | ManyNode _ _ xs initial => if options_ok (option_views xs) (from_list initial) false then Some ids else None
      | AlternativesNode _ _ xs initial =>
          if options_ok (alternative_views xs) (from_option' initial) true then fold_all (fun o => form_go (S depth) (alt_form o)) xs ids else None
      end
  end.

Definition validate_form (spec : FormSpec) : result PresentationError unit :=
  guard (version spec =? 1) && (form_bytes spec <=? MAX_PRESENTATION_BYTES)%N && bool_decide (is_Some (form_go 0 (root spec) []))
    else InvalidForm;
  Ok tt.

(** ** Admitting a draft *)

Variable draft_bytes : FormDraft -> N.

Definition control (d : FormDraft) (id : string) : option ControlValue :=
  match d !! id with Some ControlEmpty => None | v => v end.

(** [control(d, id).is_none_or(..)]. *)
Definition none_or (v : option ControlValue) (p : ControlValue -> bool) : bool := match v with None => true | Some v => p v end.

Definition distinct (l : list string) : bool := bool_decide (NoDup l).

Fixpoint draft_go (d : FormDraft) (n : FormNode) : bool :=
  match n with
  | TextNode id _ _ | IntNode id _ _ => none_or (control d id) (fun v => match v with ControlText _ => true | _ => false end)
  | NumberNode id _ _ => none_or (control d id) (fun v => match v with ControlInteger _ | ControlNumber _ => true | _ => false end)
  | BoolNode id _ _ => none_or (control d id) (fun v => match v with ControlBool _ => true | _ => false end)
  | ChoiceNode id _ options _ =>
      none_or (control d id) (fun v => match v with ControlText s => existsb (fun o => bool_decide (opt_id o = s)) options | _ => false end)
  | ManyNode id _ options _ =>
      none_or (control d id) (fun v => match v with
        | ControlMany xs => distinct xs && forallb (fun s => existsb (fun o => bool_decide (opt_id o = s)) options) xs
        | _ => false
        end)
  | SliderNode id _ minimum maximum _ =>
      none_or (control d id) (fun v => match v with
        | ControlInteger n => float_le minimum (Finite (i64_as_f64 n)) && float_le (Finite (i64_as_f64 n)) maximum
        | ControlNumber x => is_finite x && float_le minimum x && float_le x maximum
        | _ => false
        end)
  | AlternativesManyNode id _ options _ =>
      none_or (control d id) (fun v => match v with
        | ControlMany xs =>
            distinct xs
            && forallb (fun s => (fix find l := match l with
                                  | [] => false
                                  | o :: l => if bool_decide (alt_id o = s) then draft_go d (alt_form o) else find l
                                  end) options) xs
        | _ => false
        end)
  | AlternativesNode id _ options _ =>
      match control d id with
      | None => true
      | Some (ControlText s) =>
          (fix find l := match l with
                         | [] => false
                         | o :: l => if bool_decide (alt_id o = s) then draft_go d (alt_form o) else find l
                         end) options
      | Some _ => false
      end
  | GroupNode children => forallb (draft_go d) children
  | SectionNode _ child => draft_go d child
  | _ => true
  end.

Definition validate_draft (spec : FormSpec) (d : FormDraft) : result PresentationError unit :=
  refuse (1024 <? size d)%nat || (MAX_PRESENTATION_BYTES <? draft_bytes d)%N with InvalidForm;
  guard draft_go d (root spec) else InvalidForm;
  Ok tt.

(** ** Errors of a submitted form *)

Record FormError := { error_field : option string; error_message : string }.

Section errors.
(** [serde_json::from_value::<Vec<FormError>>], and the length of its JSON. *)
Variable read_errors : value -> option (list FormError).
Variable errors_bytes : list FormError -> N.

Definition bounded_errors (errors : list FormError) : result PresentationError (list FormError) :=
  refuse (1024 <? length errors)%nat || (32768 <? errors_bytes errors)%N with InvalidForm;
  Ok errors.

Definition parse_errors (v : value) : result PresentationError (list FormError) :=
  do errors <- ok_or (read_errors v) InvalidForm;
  bounded_errors errors.
End errors.
End presentation.

(** ** The nodes of a form *)

Section form_ind.
Variable P : FormNode -> Prop.
Hypothesis Hleaf : forall n, match n with GroupNode _ | SectionNode _ _ | AlternativesManyNode _ _ _ _ | AlternativesNode _ _ _ _ => False | _ => True end -> P n.
Hypothesis Hgroup : forall children, Forall P children -> P (GroupNode children).
Hypothesis Hsection : forall title child, P child -> P (SectionNode title child).
Hypothesis Hmany : forall id label options initial, Forall (fun o => P (alt_form o)) options -> P (AlternativesManyNode id label options initial).
Hypothesis Halt : forall id label options initial, Forall (fun o => P (alt_form o)) options -> P (AlternativesNode id label options initial).

Fixpoint FormNode_tree_ind (n : FormNode) : P n :=
  match n with
  | GroupNode children => Hgroup children ((fix go l : Forall P l := match l with [] => Forall_nil_2 _ | c :: l => Forall_cons_2 _ _ _ (FormNode_tree_ind c) (go l) end) children)
  | SectionNode title child => Hsection title child (FormNode_tree_ind child)
  | AlternativesManyNode id label options initial =>
      Hmany id label options initial
        ((fix go l : Forall (fun o => P (alt_form o)) l := match l with [] => Forall_nil_2 _ | o :: l => Forall_cons_2 _ _ _ (FormNode_tree_ind (alt_form o)) (go l) end) options)
  | AlternativesNode id label options initial =>
      Halt id label options initial
        ((fix go l : Forall (fun o => P (alt_form o)) l := match l with [] => Forall_nil_2 _ | o :: l => Forall_cons_2 _ _ _ (FormNode_tree_ind (alt_form o)) (go l) end) options)
  | n => Hleaf n I
  end.
End form_ind.

(** The forms directly under a node. *)
Definition subforms (n : FormNode) : list FormNode :=
  match n with
  | GroupNode children => children
  | SectionNode _ child => [child]
  | AlternativesManyNode _ _ options _ | AlternativesNode _ _ options _ => alt_form <$> options
  | _ => []
  end.

Lemma form_ind (P : FormNode -> Prop) : (forall n, Forall P (subforms n) -> P n) -> forall n, P n.
Proof.
  intros H. apply FormNode_tree_ind.
  - intros n Hn. apply H. destruct n; try done; constructor.
  - intros children Hc. by apply H.
  - intros title child Hc. apply H. by repeat constructor.
  - intros id label options initial Ho. apply H. by apply Forall_fmap.
  - intros id label options initial Ho. apply H. by apply Forall_fmap.
Qed.


Fixpoint nodes_at (depth : nat) (n : FormNode) : list (nat * FormNode) :=
  (depth, n) ::
  match n with
  | GroupNode children => flat_map (nodes_at (S depth)) children
  | SectionNode _ child => nodes_at (S depth) child
  | AlternativesManyNode _ _ options _ | AlternativesNode _ _ options _ => flat_map (fun o => nodes_at (S depth) (alt_form o)) options
  | _ => []
  end.

(** The nodes of a form, a parent before its children. *)
Definition form_nodes (n : FormNode) : list FormNode := snd <$> nodes_at 0 n.

Definition control_ids (depth : nat) (n : FormNode) : list string := omap (fun x => node_id x.2) (nodes_at depth n).

Lemma flat_map_fmap {A B C} (f : A -> B) (g : B -> list C) l : flat_map g (f <$> l) = flat_map (fun x => g (f x)) l.
Proof. induction l; csimpl; [done | by f_equal]. Qed.

Lemma nodes_at_eq depth n : nodes_at depth n = (depth, n) :: flat_map (nodes_at (S depth)) (subforms n).
Proof. destruct n; simpl; rewrite ?app_nil_r, ?flat_map_fmap; done. Qed.

Lemma omap_flat_map {A B C} (f : B -> option C) (g : A -> list B) l : omap f (flat_map g l) = flat_map (fun x => omap f (g x)) l.
Proof. induction l; csimpl; [done|]. by rewrite omap_app, IHl. Qed.

Lemma control_ids_eq depth n :
  control_ids depth n = from_option' (node_id n) ++ flat_map (control_ids (S depth)) (subforms n).
Proof.
  unfold control_ids. rewrite nodes_at_eq. csimpl. rewrite omap_flat_map. by destruct (node_id n).
Qed.

(** A fold that collects what each element brings, refusing a repetition. *)
Lemma fold_all_collects {A B} (f : A -> list B -> option (list B)) (Q : A -> Prop) (g : A -> list B) l :
  Forall (fun x => forall b b', f x b = Some b' <-> Q x /\ NoDup (g x) /\ g x ## b /\ b' = reverse (g x) ++ b) l ->
  forall b b', fold_all f l b = Some b' <->
    Forall Q l /\ NoDup (flat_map g l) /\ flat_map g l ## b /\ b' = reverse (flat_map g l) ++ b.
Proof.
  induction 1 as [|x l Hx Hl IH]; intros b b'; simpl.
  - rewrite NoDup_nil, Forall_nil. split; [intros [= ->]; repeat split; set_solver | intros (_ & _ & _ & ->); done].
  - rewrite bind_Some, Forall_cons, reverse_app, <- (assoc_L (++)), NoDup_app. setoid_rewrite Hx. setoid_rewrite IH. split.
    + intros (c & (HQ & Hn & Hd & ->) & HQl & Hnl & Hdl & ->). repeat split; try done; set_solver.
    + intros ([HQ HQl] & (Hn & Hnd & Hnl) & Hd & ->). eexists. repeat split; try done; set_solver.
Qed.

(** ** What is admitted *)

Fixpoint views_at (depth : nat) (v : View) : list (nat * View) :=
  (depth, v) ::
  match v with
  | ViewRow children | ViewColumn children => flat_map (views_at (S depth)) children
  | ViewCaption body _ _ => views_at (S depth) body
  | _ => []
  end.

Section admitted.
Variable parse_svg : string -> result string (string * option string).
Variable view_bytes : View -> N.

(** What each view of a tree of views satisfies. *)
Definition view_condition (v : View) : Prop :=
  match v with
  | ViewSvg source => exists namespace, parse_svg source = Ok ("svg", namespace)
      /\ forall ns, namespace = Some ns -> ns = "http://www.w3.org/2000/svg"
  | ViewRow children | ViewColumn children => (length children <= 1024)%nat
  | ViewImage (MediaRetained hash) _ _ => String.length hash = 64%nat /\ Forall (fun c => hexdigit c = true) (bytes_of hash)
  | _ => True
  end.

Definition view_admitted (v : View) : Prop :=
  (view_bytes v <= MAX_PRESENTATION_BYTES)%N /\ Forall (fun x => (x.1 <= 32)%nat /\ view_condition x.2) (views_at 0 v).

Definition id_condition (id : string) : Prop := id <> "" /\ (String.length id <= 128)%nat.

(** The options of a control and the ones selected at first. *)
Definition options_condition (xs : list (string * View)) (initial : list string) (nonempty : bool) : Prop :=
  Forall (fun x => id_condition x.1 /\ view_admitted x.2) xs /\ NoDup xs.*1
  /\ (nonempty = true -> xs <> []) /\ (length xs <= 1024)%nat
  /\ initial ⊆ xs.*1 /\ NoDup initial.

(** What each node of a form satisfies. *)
Definition node_condition (n : FormNode) : Prop :=
  (forall id, node_id n = Some id -> id_condition id)
  /\ match n with
     | IntNode _ _ (Some text) => digits_text text = true
     | SliderNode _ _ minimum maximum initial =>
         exists a b x, minimum = Finite a /\ maximum = Finite b /\ initial = Finite x
           /\ f64_compare a b = Lt /\ f64_compare a x <> Gt /\ f64_compare x b <> Gt
     | AlternativesManyNode _ _ xs initial => options_condition (alternative_views xs) (from_list initial) false
     | AlternativesNode _ _ xs initial => options_condition (alternative_views xs) (from_option' initial) true
     | ChoiceNode _ _ xs initial => options_condition (option_views xs) (from_option' initial) true
     | ManyNode _ _ xs initial => options_condition (option_views xs) (from_list initial) false
     | GroupNode children => (length children <= 1024)%nat
     | ViewNode presentation => view_admitted presentation
     | _ => True
     end.

Definition form_admitted (form_bytes : FormSpec -> N) (spec : FormSpec) : Prop :=
  version spec = 1 /\ (form_bytes spec <= MAX_PRESENTATION_BYTES)%N
  /\ Forall (fun x => (x.1 <= 32)%nat /\ node_condition x.2) (nodes_at 0 (root spec))
  /\ NoDup (omap node_id (form_nodes (root spec))).

(** *** Views *)

Lemma each_ok {E A} (f : A -> result E unit) l : each f l = Ok tt <-> Forall (fun x => f x = Ok tt) l.
Proof.
  induction l as [|x l IH]; simpl; [by rewrite Forall_nil|]. rewrite Forall_cons, <- IH.
  destruct (f x) as [[]|]; simpl; naive_solver.
Qed.

Lemma validate_svg_ok source : validate_svg parse_svg source = Ok tt <-> view_condition (ViewSvg source).
Proof.
  unfold validate_svg, view_condition. destruct (parse_svg source) as [[name ns]|e]; simpl; [|naive_solver].
  destruct (bool_decide_reflect (name = "svg")); simpl; [|naive_solver].
  destruct ns as [ns|]; simpl; [|naive_solver].
  destruct (bool_decide_reflect (ns = "http://www.w3.org/2000/svg")); simpl; naive_solver.
Qed.

Lemma hash_ok hash : negb (String.length hash =? 64)%nat || negb (forallb hexdigit (bytes_of hash)) = false
  <-> String.length hash = 64%nat /\ Forall (fun c => hexdigit c = true) (bytes_of hash).
Proof. rewrite orb_false_iff, !negb_false_iff, Nat.eqb_eq, forallb_forall, List.Forall_forall. done. Qed.

(** The views directly under a view, and induction on them. *)
Definition subviews (v : View) : list View :=
  match v with
  | ViewRow children | ViewColumn children => children
  | ViewCaption body _ _ => [body]
  | _ => []
  end.

Lemma view_ind (P : View -> Prop) : (forall v, Forall P (subviews v) -> P v) -> forall v, P v.
Proof.
  intros H. fix IH 1. intros v. apply H. destruct v as [| |children|children|body| | |]; simpl; try constructor.
  1, 2: induction children as [|c children IHc]; constructor; [apply IH | apply IHc].
  - apply IH.
  - constructor.
Qed.

Lemma views_at_eq depth v : views_at depth v = (depth, v) :: flat_map (views_at (S depth)) (subviews v).
Proof. destruct v; simpl; rewrite ?app_nil_r; done. Qed.

Lemma Forall_flat_map {A B} (P : B -> Prop) (g : A -> list B) l : Forall P (flat_map g l) <-> Forall (fun x => Forall P (g x)) l.
Proof. induction l; simpl; [done|]. by rewrite Forall_app, Forall_cons, IHl. Qed.

Lemma Forall_iff_on {A} (P Q : A -> Prop) l : Forall (fun x => P x <-> Q x) l -> Forall P l <-> Forall Q l.
Proof. induction 1; rewrite ?Forall_nil, ?Forall_cons; naive_solver. Qed.

(** One step of the walk. *)
Lemma view_go_eq depth v : view_go parse_svg v depth = Ok tt <->
  ((depth <= 32)%nat /\ view_condition v) /\ Forall (fun w => view_go parse_svg w (S depth) = Ok tt) (subviews v).
Proof.
  destruct v as [| |children|children|body|source|[|hash]|]; simpl view_go; destruct (Nat.ltb_spec 32 depth); simpl;
    rewrite ?Forall_nil, ?Forall_singleton; try (split; [done|]; lia); try naive_solver lia.
  1, 2: rewrite <- each_ok; destruct (Nat.ltb_spec 1024 (length children)); simpl; naive_solver lia.
  - rewrite validate_svg_ok. simpl. naive_solver lia.
  - rewrite <- hash_ok. destruct (_ || _); simpl; naive_solver lia.
Qed.

Lemma view_go_ok v : forall depth, view_go parse_svg v depth = Ok tt <-> Forall (fun x => (x.1 <= 32)%nat /\ view_condition x.2) (views_at depth v).
Proof.
  induction v as [v IH] using view_ind. intros depth. rewrite view_go_eq, views_at_eq, Forall_cons, Forall_flat_map.
  apply and_iff_compat_l, Forall_iff_on. eapply Forall_impl; [exact IH|]. simpl. intros w Hw. apply Hw.
Qed.

Lemma validate_view_ok v : validate_view parse_svg view_bytes v = Ok tt <-> view_admitted v.
Proof.
  unfold validate_view, view_admitted. rewrite <- view_go_ok. destruct (N.ltb_spec MAX_PRESENTATION_BYTES (view_bytes v)); simpl; naive_solver lia.
Qed.

Lemma view_valid v : is_ok (validate_view parse_svg view_bytes v) = true <-> view_admitted v.
Proof. rewrite is_ok_true, <- validate_view_ok. split; [intros [[] ->]; done | eauto]. Qed.

(** *** Options *)

Lemma id_ok_spec id : id_ok id = true <-> id_condition id.
Proof. unfold id_ok, id_condition. rewrite andb_true_iff, negb_true_iff, bool_decide_eq_false, Nat.leb_le. done. Qed.

(** A step that keeps the identities seen collects one new identity. *)
Lemma one_step {A} (p : A -> bool) (Q : A -> Prop) (g : A -> string) x :
  (p x = true <-> Q x) ->
  forall b b', (if p x && negb (bool_decide (g x ∈ b)) then Some (g x :: b) else None) = Some b'
    <-> Q x /\ NoDup [g x] /\ [g x] ## b /\ b' = reverse [g x] ++ b.
Proof.
  intros Hp b b'. destruct (p x); simpl; [|naive_solver].
  destruct (bool_decide_reflect (g x ∈ b)) as [Hin|Hin]; simpl.
  - split; [done|]. intros (_ & _ & Hd & _). set_solver.
  - split; [intros [= <-] | intros (_ & _ & _ & ->); done]. repeat split; [by apply Hp | apply NoDup_singleton | set_solver].
Qed.

Lemma flat_map_singletons {A B} (g : A -> B) l : flat_map (fun x => [g x]) l = g <$> l.
Proof. induction l; csimpl; congruence. Qed.

Lemma option_steps xs ids : fold_all (option_step parse_svg view_bytes) xs [] = Some ids <->
  Forall (fun x => id_condition x.1 /\ view_admitted x.2) xs /\ NoDup xs.*1 /\ ids = reverse xs.*1.
Proof.
  rewrite (fold_all_collects _ (fun x => id_condition x.1 /\ view_admitted x.2) (fun x => [x.1])).
  - rewrite flat_map_singletons, app_nil_r. split; [naive_solver|]. intros (? & ? & ?). repeat split; try done. set_solver.
  - apply Forall_true. intros x b b'. unfold option_step.
    rewrite <- andb_assoc, (andb_comm (negb _)), andb_assoc.
    apply (one_step (fun x => id_ok x.1 && is_ok (validate_view parse_svg view_bytes x.2)) (fun x => id_condition x.1 /\ view_admitted x.2) fst x).
    by rewrite andb_true_iff, id_ok_spec, view_valid.
Qed.

Lemma selected_steps ids initial : is_Some (fold_all (selected_step ids) initial []) <-> initial ⊆ ids /\ NoDup initial.
Proof.
  assert (Hs : forall b', fold_all (selected_step ids) initial [] = Some b' <->
    Forall (fun x => x ∈ ids) initial /\ NoDup initial /\ initial ## [] /\ b' = reverse initial ++ []).
  { assert (He : flat_map (fun x => [x]) initial = initial) by (etransitivity; [apply (flat_map_singletons (fun x => x)) | apply list_fmap_id]).
    intros b'. rewrite (fold_all_collects _ (fun x => x ∈ ids) (fun x => [x])); [by rewrite He|]. apply Forall_true. intros x.
    apply (one_step (fun x => bool_decide (x ∈ ids)) (fun x => x ∈ ids) (fun x => x) x), bool_decide_eq_true. }
  unfold is_Some. setoid_rewrite Hs. split; [intros (? & Hf & ? & _); by rewrite Forall_forall in Hf|].
  intros [? ?]. eexists. repeat split; try done; [by apply Forall_forall | set_solver].
Qed.

Lemma options_ok_spec xs initial nonempty :
  options_ok parse_svg view_bytes xs initial nonempty = true <-> options_condition xs initial nonempty.
Proof.
  unfold options_ok, options_condition. assert (H := option_steps xs).
  destruct (fold_all _ xs []) as [ids|].
  - destruct (proj1 (H ids) eq_refl) as (Hf & Hn & ->).
    rewrite !andb_true_iff, orb_true_iff, negb_true_iff, Nat.ltb_lt, Nat.leb_le, bool_decide_eq_true, selected_steps.
    assert (nonempty = false \/ (0 < length xs)%nat <-> (nonempty = true -> xs <> [])).
    { split; [intros [->|?] ? ->; [done | simpl in *; lia]|]. intros Hx. destruct nonempty; [right | by left].
      destruct xs; [by destruct Hx | simpl; lia]. }
    assert (initial ⊆ reverse xs.*1 <-> initial ⊆ xs.*1) by (split; intros Hs x Hx; specialize (Hs x Hx); by apply elem_of_reverse).
    tauto.
  - split; [done|]. intros (Hf & Hn & _). assert (Hx : None = Some (reverse xs.*1)); [by apply H | done].
Qed.

(** *** Forms *)

(** The check of a node by itself, after its identity. *)
Definition node_check (n : FormNode) : bool :=
  match n with
  | IntNode _ _ initial => match initial with Some text => digits_text text | None => true end
  | SliderNode _ _ minimum maximum initial =>
      is_finite minimum && is_finite maximum && is_finite initial && float_lt minimum maximum && float_le minimum initial
      && float_le initial maximum
  | AlternativesManyNode _ _ xs initial => options_ok parse_svg view_bytes (alternative_views xs) (from_list initial) false
  | AlternativesNode _ _ xs initial => options_ok parse_svg view_bytes (alternative_views xs) (from_option' initial) true
  | ChoiceNode _ _ xs initial => options_ok parse_svg view_bytes (option_views xs) (from_option' initial) true
  | ManyNode _ _ xs initial => options_ok parse_svg view_bytes (option_views xs) (from_list initial) false
  | GroupNode children => (length children <=? 1024)%nat
  | ViewNode presentation => is_ok (validate_view parse_svg view_bytes presentation)
  | _ => true
  end.

Definition id_check (n : FormNode) (ids : list string) : option (list string) :=
  match node_id n with
  | Some id => if negb (id_ok id) || bool_decide (id ∈ ids) then None else Some (id :: ids)
  | None => Some ids
  end.

Lemma fold_all_fmap {A B C} (f : B -> C -> option C) (g : A -> B) l b : fold_all f (g <$> l) b = fold_all (fun x => f (g x)) l b.
Proof. revert b. induction l as [|x l IH]; intros b; csimpl; [done|]. destruct (f (g x) b); simpl; [apply IH | done]. Qed.

Lemma form_go_eq depth n ids : form_go parse_svg view_bytes depth n ids =
  if (32 <? depth)%nat then None else
  match id_check n ids with
  | None => None
  | Some ids => if node_check n then fold_all (form_go parse_svg view_bytes (S depth)) (subforms n) ids else None
  end.
Proof.
  unfold id_check. destruct n; simpl; destruct (32 <? depth)%nat; try done; simpl;
    repeat case_match; simplify_eq; rewrite ?fold_all_fmap; simpl; try done.
  all: by destruct (form_go _ _ _ _ _).
Qed.

Lemma f64_compare_antisym a b : f64_compare b a = CompOpp (f64_compare a b).
Proof. unfold f64_compare. rewrite (Z.min_comm (expo b)). apply Z.compare_antisym. Qed.

Lemma float_lt_finite a b : float_lt (Finite a) (Finite b) = true <-> f64_compare a b = Lt.
Proof. unfold float_lt, float_le. rewrite (f64_compare_antisym a b). destruct (f64_compare a b); simpl; done. Qed.

Lemma float_le_finite a b : float_le (Finite a) (Finite b) = true <-> f64_compare a b <> Gt.
Proof. simpl. destruct (f64_compare a b); naive_solver. Qed.

Lemma slider_ok minimum maximum initial :
  is_finite minimum && is_finite maximum && is_finite initial && float_lt minimum maximum && float_le minimum initial
    && float_le initial maximum = true
  <-> exists a b x, minimum = Finite a /\ maximum = Finite b /\ initial = Finite x
        /\ f64_compare a b = Lt /\ f64_compare a x <> Gt /\ f64_compare x b <> Gt.
Proof.
  rewrite !andb_true_iff. split.
  - intros (((((Ha & Hb) & Hx) & Hlt) & Hle) & Hge). destruct minimum, maximum, initial; try done.
    eexists _, _, _. do 3 (split; [reflexivity|]). by rewrite <- float_lt_finite, <- !float_le_finite.
  - intros (a & b & x & -> & -> & -> & Hlt & Hle & Hge). rewrite float_lt_finite, !float_le_finite. done.
Qed.

Lemma node_check_spec n : (forall id, node_id n = Some id -> id_condition id) -> node_check n = true <-> node_condition n.
Proof.
  intros Hid. unfold node_condition. transitivity ((forall id, node_id n = Some id -> id_condition id) /\ node_check n = true); [tauto|].
  apply and_iff_compat_l.
  destruct n; simpl node_check; try done; rewrite ?options_ok_spec, ?slider_ok, ?view_valid, ?Nat.leb_le; try done.
  by destruct initial.
Qed.

Lemma id_check_spec n ids ids' : id_check n ids = Some ids' <->
  (forall id, node_id n = Some id -> id_condition id) /\ from_option' (node_id n) ## ids /\ ids' = from_option' (node_id n) ++ ids.
Proof.
  unfold id_check. destruct (node_id n) as [id|]; simpl.
  - destruct (id_ok id) eqn:Ho; simpl.
    + apply id_ok_spec in Ho. destruct (bool_decide_reflect (id ∈ ids)); split; try done.
      * intros (_ & Hd & _). set_solver.
      * intros [= <-]. split; [by intros ? [= <-]|]. split; [set_solver | done].
      * by intros (_ & _ & ->).
    + split; [done|]. intros (Hid & _). specialize (Hid id eq_refl). apply id_ok_spec in Hid. congruence.
  - split; [intros [= <-]; split; [done|]; split; [set_solver | done] | by intros (_ & _ & ->)].
Qed.

Lemma form_go_spec n : forall depth ids ids', form_go parse_svg view_bytes depth n ids = Some ids' <->
  Forall (fun x => (x.1 <= 32)%nat /\ node_condition x.2) (nodes_at depth n)
  /\ NoDup (control_ids depth n) /\ control_ids depth n ## ids /\ ids' = reverse (control_ids depth n) ++ ids.
Proof.
  induction n as [n IH] using form_ind. intros depth ids ids'.
  rewrite form_go_eq, nodes_at_eq, control_ids_eq, Forall_cons, Forall_flat_map, reverse_app, <- (assoc_L (++)).
  assert (Hf := fold_all_collects (form_go parse_svg view_bytes (S depth))
    (fun m => Forall (fun x => (x.1 <= 32)%nat /\ node_condition x.2) (nodes_at (S depth) m)) (control_ids (S depth)) (subforms n)).
  specialize (Hf ltac:(eapply Forall_impl; [exact IH | intros m Hm; apply Hm])).
  destruct (Nat.ltb_spec 32 depth); [split; [done | simpl; lia]|].
  destruct (id_check n ids) as [ids1|] eqn:Hi.
  - apply id_check_spec in Hi as (Hid & Hd & ->).
    assert (Hc := node_check_spec n Hid). destruct (node_check n) eqn:Hn.
    + rewrite Hf.
      assert (Hr : reverse (from_option' (node_id n)) = from_option' (node_id n)) by by destruct (node_id n).
      rewrite Hr. simpl. rewrite NoDup_app.
      assert (Hnd : NoDup (from_option' (node_id n))) by (destruct (node_id n); simpl; [apply NoDup_singleton | constructor]).
      split.
      * intros (HF & Hnl & Hdl & ->). split; [split; [split; [lia | by apply Hc] | done]|].
        split; [split; [done | split; [set_solver | done]]|]. split; [set_solver | done].
      * intros ((_ & HF) & (_ & Hx & Hnl) & Hdl & ->). split; [done|]. split; [done|]. split; [set_solver | done].
    + split; [done|]. intros ((( _ & Hx) & _) & _). by apply Hc in Hx.
  - split; [done|]. intros (((_ & [Hid _]) & _) & _ & Hd & _). simpl in *.
    assert (Hx : id_check n ids = Some (from_option' (node_id n) ++ ids)); [|congruence].
    apply id_check_spec. split; [done|]. split; [set_solver | done].
Qed.

Lemma omap_control_ids n : omap node_id (form_nodes n) = control_ids 0 n.
Proof. unfold form_nodes, control_ids. induction (nodes_at 0 n) as [|[k m] l IH]; csimpl; [done|]. by rewrite IH. Qed.

Lemma validate_form_spec form_bytes spec :
  validate_form parse_svg view_bytes form_bytes spec = Ok tt <-> form_admitted form_bytes spec.
Proof.
  unfold validate_form, form_admitted. rewrite omap_control_ids.
  transitivity (version spec = 1 /\ (form_bytes spec <= MAX_PRESENTATION_BYTES)%N /\ is_Some (form_go parse_svg view_bytes 0 (root spec) [])).
  - rewrite <- Z.eqb_eq, <- N.leb_le. case_bool_decide; destruct (_ =? _), (_ <=? _)%N; simpl; naive_solver.
  - do 2 apply and_iff_compat_l. unfold is_Some. setoid_rewrite form_go_spec. split; [naive_solver|].
    intros [Hf Hn]. eexists. split; [done|]. split; [done|]. split; [set_solver | done].
Qed.
End admitted.

(** ** A draft of initial values *)

(** The value a control starts with. *)
Definition node_initial (n : FormNode) : option (string * ControlValue) :=
  match n with
  | TextNode id _ initial | IntNode id _ initial | ChoiceNode id _ _ initial | AlternativesNode id _ _ initial => (fun s => (id, ControlText s)) <$> initial
  | NumberNode id _ initial => (fun x => (id, ControlNumber x)) <$> initial
  | SliderNode id _ _ _ initial => Some (id, ControlNumber initial)
  | BoolNode id _ initial => (fun b => (id, ControlBool b)) <$> initial
  | ManyNode id _ _ initial | AlternativesManyNode id _ _ initial => (fun l => (id, ControlMany l)) <$> initial
  | _ => None
  end.

Definition initial_draft (spec : FormSpec) : FormDraft := list_to_map (omap node_initial (form_nodes (root spec))).

Lemma node_initial_id n id v : node_initial n = Some (id, v) -> node_id n = Some id /\ v <> ControlEmpty.
Proof. destruct n; simpl; try destruct initial; naive_solver. Qed.

Lemma omap_NoDup_inj {A B} (f : A -> option B) l x y b : NoDup (omap f l) -> x ∈ l -> y ∈ l -> f x = Some b -> f y = Some b -> x = y.
Proof.
  assert (Hin : forall z l, z ∈ l -> f z = Some b -> b ∈ omap f l) by (intros z l' Hz Hf; apply list_elem_of_omap; eauto).
  induction l as [|z l IH]; csimpl; [intros _ Hx; by apply not_elem_of_nil in Hx|].
  intros Hn. rewrite !elem_of_cons. intros [->|Hx] [->|Hy] Hfx Hfy; [done | | |].
  - rewrite Hfx in Hn. apply NoDup_cons in Hn as [Hn _]. destruct Hn. eauto.
  - rewrite Hfy in Hn. apply NoDup_cons in Hn as [Hn _]. destruct Hn. eauto.
  - apply IH; try done. destruct (f z); [by apply NoDup_cons in Hn as [_ ?] | done].
Qed.

Section initial.
Variable parse_svg : string -> result string (string * option string).
Variable view_bytes : View -> N.
Variable d : FormDraft.

(** A node whose control, if the draft has it, holds its initial value. *)
Definition starts_initial (n : FormNode) : Prop :=
  node_condition parse_svg view_bytes n
  /\ forall id v, node_id n = Some id -> control d id = Some v -> node_initial n = Some (id, v).

Lemma alternative_found (options : list (FormAlternative FormNode)) s :
  s ∈ (alternative_views options).*1 -> Forall (fun n => draft_go d n = true) (alt_form <$> options) ->
  (fix find l := match l with
                 | [] => false
                 | o :: l => if bool_decide (alt_id o = s) then draft_go d (alt_form o) else find l
                 end) options = true.
Proof.
  unfold alternative_views. rewrite <- list_fmap_compose. induction options as [|o options IH]; csimpl; [intros Hs; by apply not_elem_of_nil in Hs|].
  rewrite elem_of_cons, Forall_cons. intros Hs [Ho Hl]. case_bool_decide; [done|]. apply IH; [|done]. naive_solver.
Qed.

Lemma option_found (options : list FormOption) s :
  s ∈ (option_views options).*1 -> existsb (fun o => bool_decide (opt_id o = s)) options = true.
Proof.
  unfold option_views. rewrite <- list_fmap_compose. intros (o & -> & Ho)%list_elem_of_fmap. apply existsb_exists. exists o.
  split; [by apply list_elem_of_In | by apply bool_decide_eq_true].
Qed.

Lemma starts_accepted n : starts_initial n -> Forall (fun m => draft_go d m = true) (subforms n) -> draft_go d n = true.
Proof.
  intros [[_ Hc] Hs] Hsub.
  destruct n as [| |children|title child|v|id label initial|id label initial|id label initial|id label minimum maximum initial
    |id label initial|id label options initial|id label options initial|id label options initial|id label options initial];
    simpl in Hsub, Hs |- *; try done.
  1: apply forallb_forall; intros c Hin; rewrite Forall_forall in Hsub; by apply Hsub, list_elem_of_In.
  1: by apply (Forall_inv Hsub).
  all: destruct (control d id) as [v|] eqn:Hv; simpl; [|done]; specialize (Hs id v eq_refl Hv).
  all: try (apply fmap_Some in Hs as (i & -> & [= ->])); try done.
  - injection Hs as <-. destruct Hc as (a & b & x & -> & -> & -> & _ & Hle & Hge). simpl is_finite.
    by rewrite !(proj2 (float_le_finite _ _)).
  - destruct Hc as (_ & _ & _ & _ & Hi & _). apply option_found. set_solver.
  - destruct Hc as (_ & _ & _ & _ & Hi & Hn). unfold distinct. rewrite bool_decide_eq_true_2 by done. simpl.
    apply forallb_forall. intros s Hs. apply option_found, Hi. by apply list_elem_of_In.
  - destruct Hc as (_ & _ & _ & _ & Hi & Hn). unfold distinct. rewrite bool_decide_eq_true_2 by done. simpl.
    apply forallb_forall. intros s Hs. apply alternative_found; [|done]. apply Hi. by apply list_elem_of_In.
  - destruct Hc as (_ & _ & _ & _ & Hi & _). apply alternative_found; [|done]. set_solver.
Qed.

Lemma starts_all n : forall depth, Forall (fun x => starts_initial x.2) (nodes_at depth n) -> draft_go d n = true.
Proof.
  induction n as [n IH] using form_ind. intros depth. rewrite nodes_at_eq, Forall_cons, Forall_flat_map. intros [Hn Hl].
  apply starts_accepted; [done|]. rewrite Forall_forall in *. eauto.
Qed.

Lemma initial_starts form_bytes spec :
  form_admitted parse_svg view_bytes form_bytes spec -> d ⊆ initial_draft spec -> Forall (fun x => starts_initial x.2) (nodes_at 0 (root spec)).
Proof.
  intros (_ & _ & Hc & Hn) Hd. rewrite Forall_forall in *. intros [k n] Hk. split; [by apply Hc in Hk as [_ ?]|].
  intros id v Hid Hv. unfold control in Hv. destruct (d !! id) as [w|] eqn:Hw; [|done].
  apply (lookup_weaken _ _ _ _ Hw), elem_of_list_to_map_2, list_elem_of_omap in Hd as (m & Hm & Hmi).
  destruct (node_initial_id _ _ _ Hmi) as [Hmid Hne].
  assert (v = w) as -> by (destruct w; congruence).
  assert (n = m) as ->; [|done]. eapply omap_NoDup_inj; [exact Hn | | exact Hm | exact Hid | exact Hmid].
  apply list_elem_of_fmap. by exists (k, n).
Qed.
End initial.

(** ** The claims *)

(** Which forms are admitted: [FormSpec::validate] accepts a form exactly
    when its version is 1, its JSON is within the limit, no node lies deeper
    than 32 levels, every control's identity is between 1 and 128 bytes and
    occurs once in the whole form (unselected alternatives included), and each
    node satisfies its own condition: an integer's initial text is a decimal, a
    slider's bounds are finite, increasing and hold its initial value, a
    group has at most 1024 children, and the options of a choice have distinct
    identities of that length, admitted views, and contain each initially
    selected option once. A view is admitted under the same kind of
    condition on each view of its tree. *)
Theorem form_admitted_iff parse_svg view_bytes form_bytes spec :
  (validate_form parse_svg view_bytes form_bytes spec = Ok tt <-> form_admitted parse_svg view_bytes form_bytes spec)
  /\ (validate_form parse_svg view_bytes form_bytes spec <> Ok tt -> validate_form parse_svg view_bytes form_bytes spec = Err InvalidForm)
  /\ (forall v, validate_view parse_svg view_bytes v = Ok tt <-> view_admitted parse_svg view_bytes v).
Proof.
  split; [apply validate_form_spec|]. split; [|intros v; apply validate_view_ok].
  unfold validate_form. by destruct (_ && _).
Qed.

(** A form's initial values are a valid draft: for an admitted form, any
    draft whose entries are initial values of the form's controls, all of them
    or some, is accepted exactly when it has at most 1024 entries and its JSON
    is within the limit; no check on a single control can refuse it. *)
Theorem initial_draft_accepted parse_svg view_bytes form_bytes draft_bytes spec d :
  validate_form parse_svg view_bytes form_bytes spec = Ok tt -> d ⊆ initial_draft spec ->
  validate_draft draft_bytes spec d = Ok tt <-> (size d <= 1024)%nat /\ (draft_bytes d <= MAX_PRESENTATION_BYTES)%N.
Proof.
  intros Hf Hd. apply validate_form_spec in Hf. unfold validate_draft.
  rewrite (starts_all parse_svg view_bytes d (root spec) 0) by (by eapply initial_starts).
  destruct (Nat.ltb_spec 1024 (size d)), (N.ltb_spec MAX_PRESENTATION_BYTES (draft_bytes d)); simpl; naive_solver lia.
Qed.

Definition sample_form : FormSpec :=
  {| version := 1;
     root := GroupNode
       [ SliderNode "size" "Size" (Finite (F64 0 0)) (Finite (F64 10 0)) (Finite (F64 5 0));
         SectionNode "Target"
           (AlternativesNode "target" "Target"
              [ {| alt_id := "none"; alt_label := "None"; alt_presentation := ViewText "none" false; alt_form := PureNode |};
                {| alt_id := "path"; alt_label := "Path"; alt_presentation := ViewRow [ViewText "path" false];
                   alt_form := TextNode "path" "Path" (Some "/tmp") |} ]
              (Some "path")) ] |}.

Example sample_accepted : validate_form (fun _ => Err "") (fun _ => 0%N) (fun _ => 0%N) sample_form = Ok tt.
Proof. reflexivity. Qed.

(** The same control twice is refused, even in another alternative. *)
Example repeated_refused :
  validate_form (fun _ => Err "") (fun _ => 0%N) (fun _ => 0%N)
    {| version := 1; root := GroupNode [TextNode "a" "A" None; SectionNode "" (BoolNode "a" "A" None)] |} = Err InvalidForm.
Proof. reflexivity. Qed.

Lemma form_admitted_iff_witness : form_admitted (fun _ => Err "") (fun _ => 0%N) (fun _ => 0%N) sample_form.
Proof. apply (form_admitted_iff (fun _ => Err "") (fun _ => 0%N) (fun _ => 0%N) sample_form). reflexivity. Defined.

Lemma initial_draft_accepted_witness :
  validate_draft (fun _ => 100%N) sample_form (initial_draft sample_form) = Ok tt
  /\ initial_draft sample_form !! "target" = Some (ControlText "path").
Proof.
  split; [|reflexivity].
  apply (initial_draft_accepted (fun _ => Err "") (fun _ => 0%N) (fun _ => 0%N) (fun _ => 100%N) sample_form); [reflexivity | reflexivity|].
  split; [by apply Nat.leb_le; vm_compute | done].
Defined.
