(* ===== verification/Paging.v ===== *)
(** Reading a growing table page by page.

    Several readers of the Store return entries after a cursor together with
    the cursor of the next page, and stop a page early to bound its size. The
    class states what such a reader promises; a client that follows the
    cursors from the start then sees every entry once, in order. *)

From S2P Require Import Prelude.

Section paging.
Context {E A : Type} (key : A -> Z).

Definition after_key (k : Z) (l : list A) : list A := List.filter (fun x => k <? key x) l.

(** [page after] returns a first part of the entries after the cursor, with
    no cursor when nothing is left and the last entry's otherwise. *)
Class Pager (all : list A) (page : Z -> result E (list A * option Z)) := {
  pager_sorted : StronglySorted (fun x y => key x < key y) all;
  pager_page : forall after, 0 <= after -> exists items rest next,
    page after = Ok (items, next) /\ after_key after all = items ++ rest
    /\ match next with
       | None => rest = []
       | Some k => exists x, last items = Some x /\ key x = k
       end;
  pager_positive : Forall (fun x => 0 < key x) all
}.

(** A client that follows the cursors. *)
Fixpoint walk (page : Z -> result E (list A * option Z)) (fuel : nat) (after : Z) : option (list A) :=
  match fuel with
  | O => None
  | S fuel =>
      match page after with
      | Err _ => None
      | Ok (items, None) => Some items
      | Ok (items, Some k) => app items <$> walk page fuel k
      end
  end.

Lemma after_all l : Forall (fun x => 0 < key x) l -> after_key 0 l = l.
Proof. induction 1 as [|x l Hx _ IH]; [done|]. unfold after_key in *. simpl. rewrite (proj2 (Z.ltb_lt _ _) Hx). by rewrite IH. Qed.

Lemma after_none k l : Forall (fun x => key x <= k) l -> after_key k l = [].
Proof. induction 1 as [|x l Hx _ IH]; [done|]. unfold after_key in *. simpl. rewrite (proj2 (Z.ltb_ge _ _) Hx). by rewrite IH. Qed.

Lemma after_keys k l : Forall (fun x => k < key x) l -> after_key k l = l.
Proof. induction 1 as [|x l Hx _ IH]; [done|]. unfold after_key in *. simpl. rewrite (proj2 (Z.ltb_lt _ _) Hx). by rewrite IH. Qed.

Lemma after_app k l1 l2 : after_key k (l1 ++ l2) = after_key k l1 ++ after_key k l2.
Proof. apply List.filter_app. Qed.

(** Entries after a later cursor. *)
Lemma after_later a k l : a <= k -> after_key k (after_key a l) = after_key k l.
Proof.
  intros Ha. induction l as [|x l IH]; [done|]. unfold after_key in *. simpl.
  destruct (Z.ltb_spec a (key x)); simpl; destruct (Z.ltb_spec k (key x)); rewrite ?IH; try done; lia.
Qed.

Lemma after_sorted k l : StronglySorted (fun x y => key x < key y) l -> StronglySorted (fun x y => key x < key y) (after_key k l).
Proof.
  induction 1 as [|x l Hl IH Hx]; [constructor|]. unfold after_key in *. simpl. destruct (k <? key x); [|done].
  constructor; [done|]. rewrite Forall_forall in *. intros y Hy. apply Hx. apply list_elem_of_In, filter_In in Hy as [Hy _].
  by apply list_elem_of_In.
Qed.

(** After the last entry of a first part come exactly the others. *)
Lemma after_last l1 l2 x :
  StronglySorted (fun x y => key x < key y) (l1 ++ l2) -> last l1 = Some x -> after_key (key x) (l1 ++ l2) = l2.
Proof.
  intros Hs Hl. apply last_Some in Hl as [l ->]. rewrite after_app. rewrite <- (assoc_L (++)) in Hs.
  assert (H1 : Forall (fun y => key y <= key x) (l ++ [x])).
  { apply Forall_app. split; [|by repeat constructor]. apply Forall_forall. intros y Hy.
    apply Z.lt_le_incl. apply (StronglySorted_app_1_elem_of _ _ _ _ _ Hs Hy). by left. }
  assert (H2 : Forall (fun y => key x < key y) l2).
  { apply StronglySorted_app_1_r in Hs. simpl in Hs. by apply StronglySorted_inv in Hs as [_ ?]. }
  by rewrite (after_none _ _ H1), (after_keys _ _ H2).
Qed.

Lemma walk_complete all page fuel : Pager all page ->
  forall after, 0 <= after -> (length (after_key after all) < fuel)%nat -> walk page fuel after = Some (after_key after all).
Proof.
  intros HP. induction fuel as [|fuel IH]; intros after Hpos Hlen; [lia|]. simpl.
  destruct (pager_page after Hpos) as (items & rest & next & -> & Hd & Hn). rewrite Hd in Hlen |- *.
  destruct next as [k|]; [|by rewrite Hn, app_nil_r].
  destruct Hn as (x & Hx & <-).
  assert (Hs : StronglySorted (fun x y => key x < key y) (items ++ rest)) by (rewrite <- Hd; apply after_sorted, pager_sorted).
  assert (Hin : x ∈ after_key after all) by (rewrite Hd; apply elem_of_app; left; by apply last_Some_elem_of).
  assert (after < key x) by (apply list_elem_of_In, filter_In in Hin as [_ Hin]; lia).
  assert (Hr : after_key (key x) all = rest).
  { rewrite <- (after_later after) by lia. rewrite Hd. by apply after_last. }
  rewrite IH, Hr; [done | lia|]. rewrite Hr. rewrite length_app in Hlen.
  assert (items <> []) by by intros ->. destruct items; [done | simpl in Hlen; lia].
Qed.

(** Following the cursors from zero reads the whole table. *)
Lemma walk_all all page : Pager all page -> walk page (S (length all)) 0 = Some all.
Proof.
  intros HP. assert (Ha : after_key 0 all = all) by apply after_all, pager_positive.
  rewrite <- Ha at 2. apply walk_complete; [done | done | rewrite Ha; lia].
Qed.
End paging.
