(* ===== verification/ActorMedia.v ===== *)
(** Images an actor shows: the assets a Store retains ([store/media.rs]).

    A view may carry an image as base64 text. Before it is stored the image is
    decoded, checked and kept in a table under the digest of its type and
    bytes, and the view refers to it by that digest. Each asset is written in
    a transaction of its own, so that a view that fails later leaves the assets
    before it; the functions return the table with an error too. Base64 and
    BLAKE3 are parameters. *)

From S2P Require Import Prelude Json SchemaModel Redaction Lists Presentation.

(** The errors of [StoreError] these operations return. *)
Inductive StoreFault :=
| FaultActorOutput
| FaultForm
| FaultSvg (detail : string)
| FaultJson (e : string)
| FaultMedia
| FaultAuthority (e : string)
| FaultRefused
| FaultConflictingForm
| FaultConflictingOutput
| FaultFormUnavailable
| FaultHistoryOffset.

Definition presentation_fault (e : PresentationError) : StoreFault :=
  match e with
  | InvalidView => FaultActorOutput
  | InvalidForm => FaultForm
  | InvalidSvg detail => FaultSvg detail
  | PresentationJson e => FaultJson e
  end.

(** ** Equality of views *)

#[export] Instance ImageMime_eq_dec : EqDecision ImageMime.
Proof. solve_decision. Defined.
#[export] Instance MediaSource_eq_dec : EqDecision MediaSource.
Proof. solve_decision. Defined.

#[export] Instance View_eq_dec : EqDecision View.
Proof.
  unfold EqDecision, Decision.
  refine (fix go v w {struct v} : {v = w} + {v <> w} :=
    match v, w with
    | ViewText a b, ViewText c d => cast_if_and (decide (a = c)) (decide (b = d))
    | ViewMarkdown a b, ViewMarkdown c d => cast_if_and (decide (a = c)) (decide (b = d))
    | ViewRow l, ViewRow k => cast_if ((fix gol l k {struct l} : {l = k} + {l <> k} :=
          match l, k with
          | [], [] => left eq_refl
          | x :: l', y :: k' => cast_if_and (go x y) (gol l' k')
          | _, _ => right _
          end) l k)
    | ViewColumn l, ViewColumn k => cast_if ((fix gol l k {struct l} : {l = k} + {l <> k} :=
          match l, k with
          | [], [] => left eq_refl
          | x :: l', y :: k' => cast_if_and (go x y) (gol l' k')
          | _, _ => right _
          end) l k)
    | ViewCaption x a b, ViewCaption y c d => cast_if_and3 (go x y) (decide (a = c)) (decide (b = d))
    | ViewSvg a, ViewSvg b => cast_if (decide (a = b))
    | ViewImage x a b, ViewImage y c d => cast_if_and3 (decide (x = y)) (decide (a = c)) (decide (b = d))
    | ViewInspection a b e, ViewInspection c d f => cast_if_and3 (decide (a = c)) (decide (b = d)) (decide (e = f))
    | _, _ => right _
    end); clear go; try (clear gol); abstract congruence.
Defined.

(** ** Retaining an asset *)

(** [actor_media]: type and bytes by hash. *)
Abbreviation Media := (gmap string (string * string)).

Definition MAX_MEDIA_BYTES : N := 4194304.

Definition PNG_MAGIC : string := String "137" "PNG" +:+ String "013" (String "010" (String "026" (String "010" ""))).
Definition JPEG_MAGIC : string := String "255" (String "216" (String "255" "")).

Definition magic_ok (mime bytes : string) : bool :=
  if bool_decide (mime = "image/png") then String.prefix PNG_MAGIC bytes
  else if bool_decide (mime = "image/jpeg") then String.prefix JPEG_MAGIC bytes
  else if bool_decide (mime = "image/webp") then String.prefix "RIFF" bytes && bool_decide (String.substring 8 4 bytes = "WEBP")
  else false.

Definition asset_ok (mime bytes : string) : bool :=
  negb (bool_decide (bytes = "")) && (N.of_nat (String.length bytes) <=? MAX_MEDIA_BYTES)%N
  && bool_decide (mime ∈ ["image/png"; "image/jpeg"; "image/webp"]) && magic_ok mime bytes.

(** What is digested: the type, a zero byte and the bytes. *)
Definition asset_text (mime bytes : string) : string := mime +:+ String "000" bytes.

Section state.
Context {S E A B : Type} (f : A -> S -> result E B * S).
(** A [for] loop over a function that changes a state. *)
Fixpoint map_state (l : list A) (s : S) : result E (list B) * S :=
  match l with
  | [] => (Ok [], s)
  | x :: l =>
      match f x s with
      | (Err e, s) => (Err e, s)
      | (Ok y, s) =>
          match map_state l s with
          | (Err e, s) => (Err e, s)
          | (Ok ys, s) => (Ok (y :: ys), s)
          end
      end
  end.
End state.

Section media.
Variable parse_svg : string -> result string (string * option string).
Variable view_bytes : View -> N.
Variable base64_decode : string -> option string.
Variable blake3 : string -> string.

Definition asset_hash (mime bytes : string) : string := blake3 (asset_text mime bytes).

(** [INSERT OR IGNORE]. *)
Definition keep_asset (m : Media) (asset : string * string) : Media :=
  let hash := asset_hash asset.1 asset.2 in
  match m !! hash with Some _ => m | None => <[hash := asset]> m end.

Definition retain_actor_media (mime bytes : string) (m : Media) : result StoreFault string * Media :=
  if asset_ok mime bytes then (Ok (asset_hash mime bytes), keep_asset m (mime, bytes)) else (Err FaultMedia, m).

Definition actor_media (hash : string) (m : Media) : result StoreFault (option (string * string)) :=
  refuse negb (String.length hash =? 64)%nat || negb (forallb hexdigit (bytes_of hash)) with FaultMedia;
  Ok (m !! hash).

Fixpoint retain_view_media (view : View) (m : Media) : result StoreFault View * Media :=
  match validate_view parse_svg view_bytes view with
  | Err e => (Err (presentation_fault e), m)
  | Ok _ =>
      match view with
      | ViewImage (MediaData mime base64) alt truncated =>
          if (MAX_MEDIA_BYTES * 4 / 3 + 4 <? N.of_nat (String.length base64))%N then (Err FaultMedia, m) else
          match base64_decode base64 with
          | None => (Err FaultMedia, m)
          | Some bytes =>
              match retain_actor_media (mime_str mime) bytes m with
              | (Err e, m) => (Err e, m)
              | (Ok hash, m) => (Ok (ViewImage (MediaRetained hash) alt truncated), m)
              end
          end
      | ViewRow children =>
          match map_state retain_view_media children m with
          | (Err e, m) => (Err e, m)
          | (Ok children, m) => (Ok (ViewRow children), m)
          end
      | ViewColumn children =>
          match map_state retain_view_media children m with
          | (Err e, m) => (Err e, m)
          | (Ok children, m) => (Ok (ViewColumn children), m)
          end
      | ViewCaption body text truncated =>
          match retain_view_media body m with
          | (Err e, m) => (Err e, m)
          | (Ok body, m) => (Ok (ViewCaption body text truncated), m)
          end
      | _ => (Ok view, m)
      end
  end.

(** ** What retaining a view does *)

(** The assets a view carries, in order. *)
Definition image_asset (v : View) : list (string * string) :=
  match v with
  | ViewImage (MediaData mime base64) _ _ => match base64_decode base64 with Some bytes => [(mime_str mime, bytes)] | None => [] end
  | _ => []
  end.

Fixpoint view_assets (v : View) : list (string * string) :=
  image_asset v ++
  match v with
  | ViewRow children | ViewColumn children => flat_map view_assets children
  | ViewCaption body _ _ => view_assets body
  | _ => []
  end.

(** The view with each image replaced by its reference. *)
Fixpoint lowered (v : View) : View :=
  match v with
  | ViewImage (MediaData mime base64) alt truncated =>
      match base64_decode base64 with
      | Some bytes => ViewImage (MediaRetained (asset_hash (mime_str mime) bytes)) alt truncated
      | None => v
      end
  | ViewRow children => ViewRow (lowered <$> children)
  | ViewColumn children => ViewColumn (lowered <$> children)
  | ViewCaption body text truncated => ViewCaption (lowered body) text truncated
  | _ => v
  end.

Definition image_ok (v : View) : Prop :=
  match v with
  | ViewImage (MediaData mime base64) _ _ =>
      (N.of_nat (String.length base64) <= MAX_MEDIA_BYTES * 4 / 3 + 4)%N
      /\ exists bytes, base64_decode base64 = Some bytes /\ asset_ok (mime_str mime) bytes = true
  | _ => True
  end.

(** Every view of the tree is valid by itself and its images can be kept. *)
Definition view_retainable (v : View) : Prop :=
  Forall (fun x => validate_view parse_svg view_bytes x.2 = Ok tt /\ image_ok x.2) (views_at 0 v).

Definition keep_assets (m : Media) (l : list (string * string)) : Media := foldl keep_asset m l.

Lemma view_assets_eq v : view_assets v = image_asset v ++ flat_map view_assets (subviews v).
Proof. destruct v; simpl; rewrite ?app_nil_r; done. Qed.

Lemma views_depth v : forall d e, snd <$> views_at d v = snd <$> views_at e v.
Proof.
  induction v as [v IH] using view_ind. intros d e. rewrite !views_at_eq. csimpl. f_equal.
  induction IH as [|w l Hw _ IHl]; csimpl; [done|]. by rewrite !fmap_app, (Hw (S d) (S e)), IHl.
Qed.

Lemma retainable_eq v : view_retainable v <->
  validate_view parse_svg view_bytes v = Ok tt /\ image_ok v /\ Forall view_retainable (subviews v).
Proof.
  unfold view_retainable. rewrite views_at_eq, Forall_cons, Forall_flat_map. simpl.
  assert (H : Forall (fun w => Forall (fun x => validate_view parse_svg view_bytes x.2 = Ok tt /\ image_ok x.2) (views_at 1 w)) (subviews v)
    <-> Forall (fun w => Forall (fun x => validate_view parse_svg view_bytes x.2 = Ok tt /\ image_ok x.2) (views_at 0 w)) (subviews v)).
  { apply Forall_iff_on, Forall_true. intros w.
    rewrite <- !(Forall_fmap snd (fun x => validate_view parse_svg view_bytes x = Ok tt /\ image_ok x)). by rewrite (views_depth w 1 0). }
  rewrite H. tauto.
Qed.

Lemma keep_assets_present l m : (forall a, a ∈ l -> is_Some (m !! asset_hash a.1 a.2)) -> keep_assets m l = m.
Proof.
  revert m. induction l as [|a l IH]; intros m Hl; [done|]. simpl.
  assert (Hk : keep_asset m a = m) by (unfold keep_asset; by destruct (Hl a ltac:(by left)) as [b ->]).
  rewrite Hk. apply IH. intros b Hb. apply Hl. by right.
Qed.

Lemma retainable_assets v : view_retainable v -> Forall (fun a => asset_ok a.1 a.2 = true) (view_assets v).
Proof.
  induction v as [v IH] using view_ind. rewrite retainable_eq, view_assets_eq. intros (_ & Hi & Hl). apply Forall_app. split.
  - destruct v as [| | | | | |[mime base64|]|]; simpl in *; try constructor. destruct Hi as (_ & b & -> & ?). by repeat constructor.
  - apply Forall_flat_map. rewrite Forall_forall in *. eauto.
Qed.

(** What a retained view and a refused one leave behind. *)
Definition retains {A} (P : Prop) (a : A) (assets : list (string * string)) (m : Media) (r : result StoreFault A * Media) : Prop :=
  match r with
  | (Ok b, m') => P /\ b = a /\ m' = keep_assets m assets
  | (Err _, m') => ~ P /\ exists n, Forall (fun a => asset_ok a.1 a.2 = true) (take n assets) /\ m' = keep_assets m (take n assets)
  end.

Lemma map_state_retains l :
  Forall (fun v => forall m, retains (view_retainable v) (lowered v) (view_assets v) m (retain_view_media v m)) l ->
  forall m, retains (Forall view_retainable l) (lowered <$> l) (flat_map view_assets l) m (map_state retain_view_media l m).
Proof.
  induction 1 as [|v l Hv Hl IH]; intros m; csimpl; [done|].
  specialize (Hv m). destruct (retain_view_media v m) as [[w|e] m1]; simpl in Hv |- *.
  - destruct Hv as (Hr & -> & ->). specialize (IH (keep_assets m (view_assets v))).
    destruct (map_state _ l _) as [[ws|e] m2]; simpl in IH |- *.
    + destruct IH as (Hrl & -> & ->). split; [by constructor|]. split; [done|]. unfold keep_assets. by rewrite foldl_app.
    + destruct IH as (Hrl & n & Hn & ->). split; [by intros [_ ?]%Forall_cons|]. exists (length (view_assets v) + n)%nat.
      rewrite take_app_add. unfold keep_assets. rewrite foldl_app. split; [|done]. apply Forall_app. split; [by apply retainable_assets | done].
  - destruct Hv as (Hr & n & Hn & ->). split; [by intros [? _]%Forall_cons|]. exists (n `min` length (view_assets v))%nat.
    rewrite take_app_le, <- take_take, firstn_all by lia. done.
Qed.

Lemma retain_view_spec v : forall m, retains (view_retainable v) (lowered v) (view_assets v) m (retain_view_media v m).
Proof.
  induction v as [v IH] using view_ind. intros m. assert (Hl := map_state_retains _ IH m). assert (Heq := retainable_eq v).
  destruct v as [| |children|children|body text truncated|source|[mime base64|hash] alt truncated|];
    simpl retain_view_media; destruct (validate_view _ _ _) as [[]|e] eqn:Hv.
  all: try (simpl; split; [intros Hr; apply Heq in Hr as [? _]; done | by exists 0%nat; split; [constructor | done]]).
  all: try (simpl; split; [apply Heq; repeat split; try done; constructor | done]).
  1, 2: simpl in Hl; destruct (map_state _ children m) as [[ws|e] m'] eqn:Hm; simpl in Hl |- *.
  1, 3: destruct Hl as (Hr & -> & ->); split; [by apply Heq | done].
  1, 2: destruct Hl as (Hr & n & Hn & ->); split; [by intros (_ & _ & ?)%Heq | by exists n].
  - apply Forall_inv in IH. specialize (IH m).
    destruct (retain_view_media body m) as [[w|e] m']; simpl in IH |- *.
    + destruct IH as (Hr & -> & ->). split; [apply Heq; repeat split; [by constructor..] | done].
    + destruct IH as (Hr & n & Hn & ->). split; [intros (_ & _ & Hx)%Heq; by apply Forall_inv in Hx | by exists n].
  - simpl in Heq. unfold retain_actor_media, retains.
    destruct (N.ltb_spec (MAX_MEDIA_BYTES * 4 / 3 + 4) (N.of_nat (String.length base64))).
    { split; [intros (_ & [? _] & _)%Heq; lia | exists 0%nat; split; [constructor | done]]. }
    simpl. destruct (base64_decode base64) as [bytes|]; [|split; [by intros (_ & (_ & ? & ? & _) & _)%Heq | exists 0%nat; split; [constructor | done]]].
    destruct (asset_ok _ bytes) eqn:Ha; simpl.
    + split; [|done]. apply Heq. repeat split; [lia | by exists bytes | constructor].
    + split; [|exists 0%nat; split; [constructor | done]]. intros (_ & (_ & b & [= ->] & ?) & _)%Heq. congruence.
Qed.

(** ** The table *)

(** Each asset is one of the accepted types with its marker, within the size
    limit, under its own digest. *)
Definition media_ok (m : Media) : Prop :=
  map_Forall (fun hash asset => hash = asset_hash asset.1 asset.2 /\ asset_ok asset.1 asset.2 = true) m.

Lemma keep_asset_subseteq m a : m ⊆ keep_asset m a.
Proof. unfold keep_asset. destruct (m !! _) eqn:Hm; [done | by apply insert_subseteq]. Qed.

Lemma keep_assets_subseteq l : forall m, m ⊆ keep_assets m l.
Proof. induction l as [|a l IH]; intros m; [done|]. simpl. etransitivity; [apply keep_asset_subseteq | apply IH]. Qed.

Lemma keep_assets_ok l : forall m, media_ok m -> Forall (fun a => asset_ok a.1 a.2 = true) l -> media_ok (keep_assets m l).
Proof.
  induction l as [|a l IH]; intros m Hm Hl; [done|]. apply Forall_cons in Hl as [Ha Hl]. simpl. apply IH; [|done].
  unfold keep_asset. destruct (m !! _); [done|]. by apply map_Forall_insert_2.
Qed.

(** Types hold no zero byte, so that what is digested tells them apart. *)
Lemma asset_text_inj m1 b1 m2 b2 :
  asset_ok m1 b1 = true -> asset_ok m2 b2 = true -> asset_text m1 b1 = asset_text m2 b2 -> m1 = m2 /\ b1 = b2.
Proof.
  unfold asset_ok, asset_text. rewrite !andb_true_iff, !bool_decide_eq_true. intros [[_ H1] _] [[_ H2] _].
  rewrite !elem_of_cons, elem_of_nil in H1, H2.
  destruct H1 as [->|[->|[->|[]]]], H2 as [->|[->|[->|[]]]]; simpl; intros Ht; simplify_eq; done.
Qed.

Lemma keep_assets_lookup l : forall m a, a ∈ l -> is_Some (keep_assets m l !! asset_hash a.1 a.2).
Proof.
  induction l as [|b l IH]; intros m a Ha; [by apply not_elem_of_nil in Ha|]. simpl.
  apply elem_of_cons in Ha as [->|Ha]; [|by apply IH]. unfold keep_asset.
  destruct (m !! asset_hash b.1 b.2) as [c|] eqn:Hm.
  - exists c. eapply lookup_weaken; [exact Hm | apply keep_assets_subseteq].
  - exists b. eapply lookup_weaken; [apply lookup_insert_eq | apply keep_assets_subseteq].
Qed.

(** A view without inline images is kept as it is. *)
Lemma lowered_view v : view_retainable v -> view_assets (lowered v) = [] /\ lowered (lowered v) = lowered v.
Proof.
  induction v as [v IH] using view_ind. rewrite retainable_eq. intros (_ & Hi & Hl).
  assert (Hs : flat_map view_assets (lowered <$> subviews v) = [] /\ lowered <$> (lowered <$> subviews v) = lowered <$> subviews v).
  { revert IH Hl. generalize (subviews v). intros l. induction 1 as [|w l Hw _ IHl]; csimpl; [done|].
    intros [Hwr Hlr]%Forall_cons. destruct (Hw Hwr) as [-> ->], (IHl Hlr) as [-> ->]. done. }
  destruct v as [| |children|children|body|source|[mime base64|]|]; simpl in *; try done.
  - destruct Hs as [-> ->]. done.
  - destruct Hs as [-> ->]. done.
  - rewrite app_nil_r in Hs. destruct Hs as [-> [= ->]]. done.
  - destruct Hi as (_ & b & -> & _). done.
Qed.

Lemma retain_idle w m : view_retainable w -> lowered w = w -> view_assets w = [] -> retain_view_media w m = (Ok w, m).
Proof.
  intros Hr Hl Ha. assert (H := retain_view_spec w m). unfold retains in H. rewrite Hl, Ha in H.
  destruct (retain_view_media w m) as [[b|e] m']; [by destruct H as (_ & -> & ->) | by destruct H].
Qed.

(** Retaining a view again, later, changes nothing. *)
Lemma retain_again v w m m1 m2 :
  retain_view_media v m = (Ok w, m1) -> m1 ⊆ m2 -> retain_view_media v m2 = (Ok w, m2).
Proof.
  intros Hr Hs. assert (H := retain_view_spec v m). rewrite Hr in H. destruct H as (Hv & -> & ->).
  assert (H := retain_view_spec v m2). unfold retains in H. rewrite keep_assets_present in H.
  - destruct (retain_view_media v m2) as [[b|e] m']; [by destruct H as (_ & -> & ->) | by destruct H].
  - intros a Ha. destruct (keep_assets_lookup _ m a Ha) as [b Hb]. exists b. by eapply lookup_weaken.
Qed.
End media.

(** ** The claim *)

(** Images are kept once and never lost. Retaining a view either keeps
    all its images or fails; either way assets stored before are unchanged and
    the table holds only accepted images under their own digests. It succeeds
    exactly when each view of the tree is valid by itself and each inline image
    decodes to bytes of its declared type within the limit; then every inline
    image is replaced by its reference and nothing else changes, every
    reference can be read back, to the same type and bytes unless
    two digests collide, and retaining the result again changes nothing. *)
Theorem media_retained parse_svg view_bytes base64_decode blake3 v m :
  (forall text, String.length (blake3 text) = 64%nat /\ forallb hexdigit (bytes_of (blake3 text)) = true) ->
  media_ok blake3 m ->
  let (r, m') := retain_view_media parse_svg view_bytes base64_decode blake3 v m in
  m ⊆ m' /\ media_ok blake3 m' /\
  match r with
  | Err _ => ~ view_retainable parse_svg view_bytes base64_decode v
  | Ok w =>
      view_retainable parse_svg view_bytes base64_decode v /\ w = lowered base64_decode blake3 v /\ view_assets base64_decode w = []
      /\ (forall a, a ∈ view_assets base64_decode v -> exists b,
            actor_media (asset_hash blake3 a.1 a.2) m' = Ok (Some b)
            /\ blake3 (asset_text b.1 b.2) = blake3 (asset_text a.1 a.2)
            /\ (asset_text b.1 b.2 = asset_text a.1 a.2 -> b = a))
      /\ (view_retainable parse_svg view_bytes base64_decode w ->
          retain_view_media parse_svg view_bytes base64_decode blake3 w m' = (Ok w, m'))
  end.
Proof.
  intros Hhex Hm. assert (H := retain_view_spec parse_svg view_bytes base64_decode blake3 v m).
  destruct (retain_view_media _ _ _ _ v m) as [[w|e] m']; simpl in H.
  - destruct H as (Hr & -> & ->). assert (Ha := retainable_assets _ _ _ _ Hr).
    assert (Hk : media_ok blake3 (keep_assets blake3 m (view_assets base64_decode v))) by by apply keep_assets_ok.
    destruct (lowered_view parse_svg view_bytes base64_decode blake3 v Hr) as [Hla Hll].
    split; [apply keep_assets_subseteq|]. do 2 (split; [done|]). split; [done|]. split; [done|].
    split; [|intros Hw; by apply retain_idle].
    intros a Hin. destruct (keep_assets_lookup blake3 _ m a Hin) as [b Hb]. exists b.
    destruct (Hk _ _ Hb) as [Hh Hob]. split; [|split; [done|]].
    + unfold actor_media. destruct (Hhex (asset_text a.1 a.2)) as [Hlen Hdig]. unfold asset_hash in *. by rewrite Hlen, Hdig, Hb.
    + intros Ht. rewrite Forall_forall in Ha. destruct (asset_text_inj _ _ _ _ Hob (Ha a Hin) Ht). by destruct a, b; simplify_eq/=.
  - destruct H as (Hr & n & Hn & ->). split; [apply keep_assets_subseteq|]. split; [by apply keep_assets_ok | done].
Qed.

Definition zero_hash (_ : string) : string := String.concat "" (repeat "0" 64).

Lemma media_retained_witness :
  let image := ViewImage (MediaData Jpeg "anything") "photo" false in
  let decode := fun _ : string => Some (JPEG_MAGIC +:+ "data") in
  retain_view_media (fun _ => Err "") (fun _ => 0%N) decode zero_hash (ViewRow [ViewText "a" false; image]) ∅
    = (Ok (ViewRow [ViewText "a" false; ViewImage (MediaRetained (zero_hash "")) "photo" false]),
       {[ zero_hash "" := ("image/jpeg", JPEG_MAGIC +:+ "data") ]})
  /\ actor_media (zero_hash "") {[ zero_hash "" := ("image/jpeg", JPEG_MAGIC +:+ "data") ]} = Ok (Some ("image/jpeg", JPEG_MAGIC +:+ "data")).
Proof.
  intros image decode.
  assert (Hr : retain_view_media (fun _ => Err "") (fun _ => 0%N) decode zero_hash (ViewRow [ViewText "a" false; image]) ∅
    = (Ok (ViewRow [ViewText "a" false; ViewImage (MediaRetained (zero_hash "")) "photo" false]),
       {[ zero_hash "" := ("image/jpeg", JPEG_MAGIC +:+ "data") ]})) by (vm_compute; reflexivity).
  split; [exact Hr|].
  assert (H := media_retained (fun _ => Err "") (fun _ => 0%N) decode zero_hash (ViewRow [ViewText "a" false; image]) ∅).
  rewrite Hr in H. destruct H as (_ & _ & _ & _ & _ & H & _); [by intros text; vm_compute | by intros ? ? |].
  destruct (H ("image/jpeg", JPEG_MAGIC +:+ "data")) as (b & Hb & _ & _); [by left|]. vm_compute in Hb |- *. by injection Hb as <-.
Defined.
