(* ===== verification/ActorOutput.v ===== *)
(** What an actor publishes: the outputs in the Store's event journal
    ([store/actor_output.rs]).

    The journal is a list of numbered events; its number is the row identity
    [last_insert_rowid] returns, and other components append to it too. An
    output is validated, its images are retained ([ActorMedia]), the host's
    authority is asked, and the output is appended once; a page of them is
    bounded in entries and bytes. The host's authority and the lengths of JSON
    texts are parameters. *)

From S2P Require Import Prelude Json SchemaModel Redaction Usage Observation Sse Failure StoreDb Lists Presentation ActorMedia Paging.

(** ** Data *)

Record ActorOutputOrigin := { ao_run : string; ao_native_actor : Z; ao_incarnation : Z }.

Record ActorOutputId := { display_slot : Z; page_ordinal : Z }.

Inductive ActorOutputExecution :=
| Notebook (execution : string) (input_unit_index effect_ordinal : Z)
| ActorProgram.

Record ActorDisplayPage := { page_text : string; page_expansions : list (Z * string); page_unavailable : bool; page_view : option View }.

Record ActorOutputEmission := {
  em_origin : ActorOutputOrigin;
  em_id : ActorOutputId;
  em_execution : ActorOutputExecution;
  em_conversation : option ConversationIdentity;
  em_page : ActorDisplayPage
}.

Record ActorOutputReference := { ref_origin : ActorOutputOrigin; ref_sequence : Z }.

Record StoredActorOutput := { out_reference : ActorOutputReference; out_emission : ActorOutputEmission; out_created_at : Z }.

Inductive ActorOutputCommit := Appended (row : StoredActorOutput) | Existing (row : StoredActorOutput).

Record ActorOutputHistoryPage := { hp_origin : ActorOutputOrigin; hp_outputs : list StoredActorOutput; hp_next_after : option Z }.

#[export] Instance ActorOutputOrigin_eq_dec : EqDecision ActorOutputOrigin.
Proof. solve_decision. Defined.
#[export] Instance ActorOutputId_eq_dec : EqDecision ActorOutputId.
Proof. solve_decision. Defined.
#[export] Instance ActorOutputExecution_eq_dec : EqDecision ActorOutputExecution.
Proof. solve_decision. Defined.
#[export] Instance ActorDisplayPage_eq_dec : EqDecision ActorDisplayPage.
Proof. solve_decision. Defined.
#[export] Instance ActorOutputEmission_eq_dec : EqDecision ActorOutputEmission.
Proof. solve_decision. Defined.

#[export] Instance ActorOutputOrigin_countable : Countable ActorOutputOrigin.
Proof.
  apply (inj_countable' (fun o => (ao_run o, ao_native_actor o, ao_incarnation o))
    (fun x => {| ao_run := x.1.1; ao_native_actor := x.1.2; ao_incarnation := x.2 |})).
  by intros [].
Defined.

#[export] Instance ActorOutputEmission_eta : Eta ActorOutputEmission := fun e =>
  {| em_origin := em_origin e; em_id := em_id e; em_execution := em_execution e; em_conversation := em_conversation e; em_page := em_page e |}.
#[export] Instance ActorDisplayPage_eta : Eta ActorDisplayPage := fun p =>
  {| page_text := page_text p; page_expansions := page_expansions p; page_unavailable := page_unavailable p; page_view := page_view p |}.

(** [store/forms.rs] opens a form with an event of the same journal. *)
Record ActorFormOpen := {
  fo_origin : ActorOutputOrigin;
  fo_mount_id : string;
  fo_execution : ActorOutputExecution;
  fo_conversation : option ConversationIdentity;
  fo_form : FormSpec
}.

Inductive ActorEvent :=
| OutputEvent (emission : ActorOutputEmission) (created_at : Z)
| FormOpened (opening : ActorFormOpen)
| FormUpdated (origin : ActorOutputOrigin) (mount : string) (opening_sequence : Z).

Record ActorDb := { a_media : Media; a_events : list (Z * ActorEvent); a_last : Z }.

#[export] Instance ActorDb_eta : Eta ActorDb := fun d => {| a_media := a_media d; a_events := a_events d; a_last := a_last d |}.

Definition add_event (db : ActorDb) (e : ActorEvent) : Z * ActorDb :=
  let id := a_last db + 1 in
  (id, db <| a_events ::= (fun l => l ++ [(id, e)]) |> <| a_last := id |>).

(** ** Validation *)

Definition MAX_ACTOR_TEXT_BYTES : N := 32768.
Definition MAX_ACTOR_METADATA_BYTES : N := 8192.
Definition MAX_HISTORY_BYTES : N := 262144.
Definition MAX_HISTORY_ITEMS : nat := 100.
Definition MAX_EMISSION_BYTES : N := 229376.

Definition validate_origin (o : ActorOutputOrigin) : result StoreFault unit :=
  refuse bool_decide (ao_run o = "") || (1024 <? String.length (ao_run o))%nat || (i64_max <? ao_native_actor o)
         || (i64_max <? ao_incarnation o) with FaultActorOutput;
  Ok tt.

Definition validate_execution (e : ActorOutputExecution) : result StoreFault unit :=
  match e with
  | ActorProgram => Ok tt
  | Notebook execution _ _ => guard negb (bool_decide (execution = "")) && (String.length execution <=? 256)%nat else FaultActorOutput; Ok tt
  end.

(** The keys of the expansions: each positive, in range and new. *)
Fixpoint expansions_ok (keys : list Z) (l : list (Z * string)) : bool :=
  match l with
  | [] => true
  | (key, _) :: l => negb ((key =? 0) || (i64_max <? key) || bool_decide (key ∈ keys)) && expansions_ok (key :: keys) l
  end.

(** An embedded conversation belongs to the origin's run and incarnation. *)
Definition embedded_matches (o : ActorOutputOrigin) (c : option ConversationIdentity) : bool :=
  match c with
  | Some (Embedded run _ incarnation) => bool_decide (run = ao_run o) && bool_decide (incarnation = pretty (ao_incarnation o))
  | _ => true
  end.

(** A standalone conversation belongs to this Store. *)
Definition standalone_matches (store_id : string) (c : option ConversationIdentity) : bool :=
  match c with
  | Some (Standalone store _) => bool_decide (store = store_id)
  | _ => true
  end.

Section outputs.
Variable parse_svg : string -> result string (string * option string).
Variable view_bytes : View -> N.
Variable base64_decode : string -> option string.
Variable blake3 : string -> string.
(** [serde_json::to_vec(..).len()] of the metadata, an emission and a page. *)
Variable metadata_bytes : ActorOutputEmission -> N.
Variable emission_bytes : ActorOutputEmission -> N.
Variable page_bytes : ActorOutputHistoryPage -> N.

Definition valid_view (v : View) : result StoreFault unit := map_err presentation_fault (validate_view parse_svg view_bytes v).

Definition validate_emission (e : ActorOutputEmission) : result StoreFault unit :=
  do _ <- validate_origin (em_origin e);
  do _ <- validate_execution (em_execution e);
  do _ <- match page_view (em_page e) with Some view => valid_view view | None => Ok tt end;
  refuse bool_decide (ao_run (em_origin e) = "") || (1024 <? String.length (ao_run (em_origin e)))%nat
         || (display_slot (em_id e) =? 0)
         || existsb (fun v => i64_max <? v) [ao_native_actor (em_origin e); ao_incarnation (em_origin e); display_slot (em_id e); page_ordinal (em_id e)]
         || (MAX_ACTOR_TEXT_BYTES <? N.of_nat (String.length (page_text (em_page e))))%N
         || negb (expansions_ok [] (page_expansions (em_page e)))
         || (MAX_ACTOR_METADATA_BYTES <? metadata_bytes e)%N
         || (MAX_EMISSION_BYTES <? emission_bytes e)%N with FaultActorOutput;
  guard embedded_matches (em_origin e) (em_conversation e) else FaultActorOutput;
  Ok tt.

(** Reading a row of the journal. *)
Definition output_row (sequence : Z) (e : ActorOutputEmission) (created_at : Z) : result StoreFault StoredActorOutput :=
  do _ <- validate_emission e;
  Ok {| out_reference := {| ref_origin := em_origin e; ref_sequence := sequence |}; out_emission := e; out_created_at := created_at |}.

(** ** Appending *)

Definition retain_view (view : option View) (m : Media) : result StoreFault (option View) * Media :=
  match view with
  | None => (Ok None, m)
  | Some view =>
      match retain_view_media parse_svg view_bytes base64_decode blake3 view m with
      | (Ok view, m) => (Ok (Some view), m)
      | (Err e, m) => (Err e, m)
      end
  end.

(** The columns of the unique index. *)
Definition same_output (e f : ActorOutputEmission) : bool := bool_decide (em_origin e = em_origin f) && bool_decide (em_id e = em_id f).

Fixpoint find_output (e : ActorOutputEmission) (l : list (Z * ActorEvent)) : option (Z * ActorOutputEmission * Z) :=
  match l with
  | [] => None
  | (id, OutputEvent f created_at) :: l => if same_output e f then Some (id, f, created_at) else find_output e l
  | _ :: l => find_output e l
  end.

(** The transaction. *)
Definition commit_output (authority : ActorOutputEmission -> result string bool) (now : Z) (e : ActorOutputEmission) (db : ActorDb) :
    result StoreFault (ActorOutputCommit * ActorDb) :=
  do allowed <- map_err FaultAuthority (authority e);
  guard allowed else FaultRefused;
  match find_output e (a_events db) with
  | Some (sequence, f, created_at) =>
      do stored <- output_row sequence f created_at;
      guard bool_decide (out_emission stored = e) else FaultConflictingOutput;
      Ok (Existing stored, db)
  | None =>
      let (sequence, db) := add_event db (OutputEvent e now) in
      Ok (Appended {| out_reference := {| ref_origin := em_origin e; ref_sequence := sequence |}; out_emission := e; out_created_at := now |}, db)
  end.

Definition append_actor_output (store_id : string) (authority : ActorOutputEmission -> result string bool) (now : Z) (e : ActorOutputEmission)
    (db : ActorDb) : result StoreFault ActorOutputCommit * ActorDb :=
  match validate_emission e with
  | Err fault => (Err fault, db)
  | Ok _ =>
      match retain_view (page_view (em_page e)) (a_media db) with
      | (Err fault, m) => (Err fault, db <| a_media := m |>)
      | (Ok view, m) =>
          let db := db <| a_media := m |> in
          let e := e <| em_page ::= (fun p => p <| page_view := view |>) |> in
          if negb (standalone_matches store_id (em_conversation e)) then (Err FaultActorOutput, db) else
          match commit_output authority now e db with
          | Err fault => (Err fault, db)
          | Ok (commit, db) => (Ok commit, db)
          end
      end
  end.

(** ** Reading *)

Definition actor_outputs (o : ActorOutputOrigin) (l : list (Z * ActorEvent)) : list (Z * ActorOutputEmission * Z) :=
  omap (fun x => match x.2 with
                 | OutputEvent e created_at => if bool_decide (em_origin e = o) then Some (x.1, e, created_at) else None
                 | _ => None
                 end) l.

Definition last_sequence (l : list StoredActorOutput) : option Z := (fun o => ref_sequence (out_reference o)) <$> last l.

Fixpoint page_loop (o : ActorOutputOrigin) (limit : nat) (rows : list (Z * ActorOutputEmission * Z)) (outputs : list StoredActorOutput) :
    result StoreFault (list StoredActorOutput * option Z) :=
  match rows with
  | [] => Ok (outputs, None)
  | (sequence, e, created_at) :: rows =>
      do output <- output_row sequence e created_at;
      if (length outputs =? limit)%nat then Ok (outputs, last_sequence outputs) else
      let grown := outputs ++ [output] in
      if (MAX_HISTORY_BYTES <? page_bytes {| hp_origin := o; hp_outputs := grown; hp_next_after := last_sequence grown |})%N then
        refuse (length outputs =? 0)%nat with FaultActorOutput; Ok (outputs, last_sequence outputs)
      else page_loop o limit rows grown
  end.

Definition actor_output_page (o : ActorOutputOrigin) (after : Z) (limit : nat) (db : ActorDb) : result StoreFault ActorOutputHistoryPage :=
  do _ <- validate_origin o;
  refuse (after <? 0) || (limit =? 0)%nat || (MAX_HISTORY_ITEMS <? limit)%nat with FaultHistoryOffset;
  do '(outputs, next) <- page_loop o limit (take (S limit) (List.filter (fun r => after <? r.1.1) (actor_outputs o (a_events db)))) [];
  Ok {| hp_origin := o; hp_outputs := outputs; hp_next_after := next |}.

(** ** Appending once *)

Lemma retain_view_again v w m m1 m2 : retain_view v m = (Ok w, m1) -> m1 ⊆ m2 -> retain_view v m2 = (Ok w, m2).
Proof.
  destruct v as [v|]; simpl; [|by intros [= <- <-]].
  destruct (retain_view_media _ _ _ _ v m) as [[x|e] m'] eqn:Hr; [|done]. intros [= <- <-] Hs.
  by rewrite (retain_again _ _ _ _ _ _ _ _ _ Hr Hs).
Qed.

Lemma find_output_app e l1 l2 x : find_output e l1 = Some x -> find_output e (l1 ++ l2) = Some x.
Proof. induction l1 as [|[id []] l IH]; simpl; try done. by destruct (same_output e emission). Qed.

Lemma find_output_end e l id f c : find_output e l = None -> same_output e f = true -> find_output e (l ++ [(id, OutputEvent f c)]) = Some (id, f, c).
Proof.
  intros Hl Hs. induction l as [|[i []] l IH]; simpl in *; [by rewrite Hs | | by apply IH | by apply IH].
  destruct (same_output e emission); [done | by apply IH].
Qed.

(** A database that has only grown. *)
Definition grows (a b : ActorDb) : Prop := a_media a ⊆ a_media b /\ a_events a `prefix_of` a_events b.

Definition committed_row (c : ActorOutputCommit) : StoredActorOutput := match c with Appended r | Existing r => r end.

(** What is stored for an emission: its images by reference. *)
Definition stored_emission (e : ActorOutputEmission) : ActorOutputEmission :=
  e <| em_page ::= (fun p => p <| page_view := lowered base64_decode blake3 <$> page_view p |>) |>.

Lemma retain_view_lowered v w m m1 : retain_view v m = (Ok w, m1) -> w = lowered base64_decode blake3 <$> v /\ m ⊆ m1.
Proof.
  destruct v as [v|]; simpl; [|by intros [= <- <-]].
  assert (H := retain_view_spec parse_svg view_bytes base64_decode blake3 v m).
  destruct (retain_view_media _ _ _ _ v m) as [[x|e] m']; [|done]. intros [= <- <-].
  destruct H as (_ & -> & ->). split; [done | apply keep_assets_subseteq].
Qed.

Lemma append_inv store_id authority now e db c db1 :
  append_actor_output store_id authority now e db = (Ok c, db1) ->
  validate_emission e = Ok tt /\ exists m,
    retain_view (page_view (em_page e)) (a_media db) = (Ok (lowered base64_decode blake3 <$> page_view (em_page e)), m)
    /\ standalone_matches store_id (em_conversation e) = true
    /\ commit_output authority now (stored_emission e) (db <| a_media := m |>) = Ok (c, db1).
Proof.
  unfold append_actor_output. destruct (validate_emission e) as [[]|]; [|done].
  destruct (retain_view _ _) as [[w|f] m] eqn:Hr; [|done]. destruct (retain_view_lowered _ _ _ _ Hr) as [-> _].
  fold (stored_emission e). change (em_conversation (stored_emission e)) with (em_conversation e).
  destruct (standalone_matches _ _) eqn:Hs; [|done]. simpl.
  destruct (commit_output _ _ _ _) as [[x y]|] eqn:Hc; [|done]. intros [= <- <-]. split; [done|]. by exists m.
Qed.

Lemma commit_inv authority now e db c db1 : commit_output authority now e db = Ok (c, db1) ->
  authority e = Ok true /\ a_media db1 = a_media db /\ out_emission (committed_row c) = e
  /\ find_output e (a_events db1) = Some (ref_sequence (out_reference (committed_row c)), e, out_created_at (committed_row c))
  /\ ref_origin (out_reference (committed_row c)) = em_origin e
  /\ match c with
     | Appended r => find_output e (a_events db) = None /\ (ref_sequence (out_reference r), db1) = add_event db (OutputEvent e now)
     | Existing r => db1 = db /\ validate_emission e = Ok tt
     end.
Proof.
  unfold commit_output. destruct (authority e) as [[]|]; simpl; try done.
  destruct (find_output e (a_events db)) as [[[sequence f] created]|] eqn:Hf.
  - unfold output_row. destruct (validate_emission f) as [[]|] eqn:Hv; [|done]. simpl.
    case_bool_decide as Hb; [|done]. subst f. intros [= <- <-]. simpl. repeat split; done.
  - intros [= <- <-]. simpl. repeat split; try done. apply find_output_end; [done|]. unfold same_output. by rewrite !bool_decide_eq_true_2.
Qed.
End outputs.


(** ** Reading every output *)

(** Events are numbered in order, and not past the last number given out. *)
Definition journal_wf (db : ActorDb) : Prop :=
  StronglySorted (fun x y => x.1 < y.1) (a_events db) /\ Forall (fun x => 0 < x.1 <= a_last db) (a_events db) /\ 0 <= a_last db.

Lemma add_event_wf db e : journal_wf db -> journal_wf (add_event db e).2.
Proof.
  intros (Hs & Hf & Hl). unfold add_event, journal_wf. simpl. split; [|split; [|lia]].
  - apply StronglySorted_app_2; [|done | by repeat constructor]. rewrite Forall_forall in Hf.
    intros x y Hx [->|[]%not_elem_of_nil]%elem_of_cons. apply Hf in Hx. simpl. lia.
  - apply Forall_app. split; [|repeat constructor; simpl; lia]. eapply Forall_impl; [exact Hf|]. simpl. lia.
Qed.

Section reading.
Variable parse_svg : string -> result string (string * option string).
Variable view_bytes : View -> N.
Variable metadata_bytes : ActorOutputEmission -> N.
Variable emission_bytes : ActorOutputEmission -> N.
Variable page_bytes : ActorOutputHistoryPage -> N.

Abbreviation row_ok := (fun r : Z * ActorOutputEmission * Z => validate_emission parse_svg view_bytes metadata_bytes emission_bytes r.1.2 = Ok tt).

Definition stored_row (r : Z * ActorOutputEmission * Z) : StoredActorOutput :=
  {| out_reference := {| ref_origin := em_origin r.1.2; ref_sequence := r.1.1 |}; out_emission := r.1.2; out_created_at := r.2 |}.

Definition output_sequence (o : StoredActorOutput) : Z := ref_sequence (out_reference o).

(** The page of one output fits: what a page adds to an emission is small. *)
Hypothesis page_overhead : forall o out next, (String.length (ao_run o) <= 1024)%nat -> em_origin (out_emission out) = o ->
  (page_bytes {| hp_origin := o; hp_outputs := [out]; hp_next_after := next |} <= emission_bytes (out_emission out) + 32768)%N.

Lemma page_loop_spec o limit rows : Forall (fun r => row_ok r /\ em_origin r.1.2 = o) rows -> (0 < limit)%nat -> (String.length (ao_run o) <= 1024)%nat ->
  forall outputs, (length outputs <= limit)%nat -> exists items rest next,
    page_loop parse_svg view_bytes metadata_bytes emission_bytes page_bytes o limit rows outputs = Ok (outputs ++ items, next)
    /\ stored_row <$> rows = items ++ rest
    /\ match next with
       | None => rest = [] /\ (length outputs + length rows <= limit)%nat
       | Some k => exists x, last (outputs ++ items) = Some x /\ output_sequence x = k
       end.
Proof.
  intros Hrows Hlimit Hrun. induction Hrows as [|[[sequence e] created] rows [Hv Ho] _ IH]; intros outputs Hlen; csimpl.
  { exists [], [], None. rewrite app_nil_r. repeat split; lia. }
  simpl in Hv, Ho. unfold output_row. rewrite Hv. simpl.
  assert (Hlast : forall l : list StoredActorOutput, l <> [] -> exists x, last l = Some x /\ last_sequence l = Some (output_sequence x)).
  { intros l Hl. unfold last_sequence. destruct (last l) as [x|] eqn:Hx; [by exists x | by apply last_None in Hx]. }
  destruct (Nat.eqb_spec (length outputs) limit) as [Heq|Hne].
  - destruct (Hlast outputs) as (x & Hx & ->); [intros ->; simpl in *; lia|].
    eexists [], _, (Some _). rewrite app_nil_r. split; [done|]. split; [done|]. by exists x.
  - destruct (N.ltb_spec MAX_HISTORY_BYTES (page_bytes {| hp_origin := o; hp_outputs := outputs ++ [stored_row (sequence, e, created)];
      hp_next_after := last_sequence (outputs ++ [stored_row (sequence, e, created)]) |})) as [Hbig|Hsmall].
    + unfold stored_row in Hbig. simpl in Hbig. rewrite (proj2 (N.ltb_lt _ _) Hbig). destruct outputs as [|out outputs].
      * exfalso. simpl in Hbig. assert (Hp := page_overhead o (stored_row (sequence, e, created)) (Some sequence) Hrun Ho). unfold stored_row in Hp. simpl in Hp.
        apply rbind_Ok in Hv as (_ & _ & Hv). apply rbind_Ok in Hv as (_ & _ & Hv). apply rbind_Ok in Hv as (_ & _ & Hv).
        inv_ok. apply orb_false_iff in Hg as [_ Hg]. apply N.ltb_ge in Hg. unfold MAX_EMISSION_BYTES, MAX_HISTORY_BYTES in *.
        unfold last_sequence in Hbig. simpl in Hbig. lia.
      * destruct (Hlast (out :: outputs)) as (x & Hx & ->); [done|]. eexists [], _, (Some _). rewrite app_nil_r. split; [done|]. split; [done|]. by exists x.
    + unfold stored_row in Hsmall. simpl in Hsmall. rewrite (proj2 (N.ltb_ge _ _) Hsmall).
      destruct (IH (outputs ++ [stored_row (sequence, e, created)])) as (items & rest & next & Hp & Hd & Hn); [rewrite length_app; simpl; lia|].
      exists (stored_row (sequence, e, created) :: items), rest, next. unfold stored_row in Hp at 1. simpl in Hp. rewrite Hp.
      rewrite <- (assoc_L (++)) in Hn |- *. split; [done|]. split; [by rewrite Hd|].
      destruct next; [done|]. destruct Hn as [-> Hn]. split; [done|]. rewrite length_app in Hn. simpl in *. lia.
Qed.

Lemma outputs_sorted o l : StronglySorted (fun x y => x.1 < y.1) l -> StronglySorted (fun x y => output_sequence x < output_sequence y) (stored_row <$> actor_outputs o l).
Proof.
  assert (Hin : forall x l, x ∈ stored_row <$> actor_outputs o l -> exists y, y ∈ l /\ y.1 = output_sequence x).
  { intros x l' (r & -> & (y & Hy & Hr)%list_elem_of_omap)%list_elem_of_fmap. exists y. split; [done|].
    destruct y as [id []]; simpl in Hr; try done. case_bool_decide; [|done]. by injection Hr as <-. }
  induction 1 as [|[id ev] l Hl IH Hx]; csimpl; [constructor|].
  destruct ev as [e c| |]; [|done|done]. case_bool_decide; [|done]. csimpl. constructor; [done|].
  apply Forall_forall. intros y Hy. apply Hin in Hy as (z & Hz & <-). rewrite Forall_forall in Hx. by apply Hx.
Qed.

Lemma outputs_positive o l : Forall (fun x => 0 < x.1) l -> Forall (fun x => 0 < output_sequence x) (stored_row <$> actor_outputs o l).
Proof.
  induction 1 as [|[id ev] l Hx _ IH]; csimpl; [constructor|].
  destruct ev as [e c| |]; [|done|done]. case_bool_decide; [|done]. csimpl. by constructor.
Qed.

Lemma after_rows after rows : after_key output_sequence after (stored_row <$> rows) = stored_row <$> List.filter (fun r => after <? r.1.1) rows.
Proof. induction rows as [|r rows IH]; [done|]. unfold after_key in *. csimpl. unfold output_sequence at 1. simpl. rewrite IH. by destruct (after <? r.1.1). Qed.

Definition read_page (o : ActorOutputOrigin) (limit : nat) (db : ActorDb) (after : Z) : result StoreFault (list StoredActorOutput * option Z) :=
  rmap (fun p => (hp_outputs p, hp_next_after p)) (actor_output_page parse_svg view_bytes metadata_bytes emission_bytes page_bytes o after limit db).

Lemma outputs_pager o limit db :
  journal_wf db -> validate_origin o = Ok tt -> (0 < limit <= MAX_HISTORY_ITEMS)%nat -> Forall row_ok (actor_outputs o (a_events db)) ->
  Pager output_sequence (stored_row <$> actor_outputs o (a_events db)) (read_page o limit db).
Proof.
  intros (Hs & Hf & _) Ho Hlimit Hok. split; [by apply outputs_sorted | | ].
  - intros after Hafter. unfold read_page, actor_output_page. rewrite Ho. simpl.
    rewrite (proj2 (Z.ltb_ge _ _) Hafter), (proj2 (Nat.eqb_neq _ _)), (proj2 (Nat.ltb_ge _ _)) by lia. simpl.
    set (rows := List.filter (fun r => after <? r.1.1) (actor_outputs o (a_events db))).
    assert (Hrows : Forall (fun r => row_ok r /\ em_origin r.1.2 = o) rows).
    { apply Forall_forall. intros r Hr. apply list_elem_of_In, filter_In in Hr as [Hr%list_elem_of_In _].
      rewrite Forall_forall in Hok. split; [by apply Hok|]. apply list_elem_of_omap in Hr as ([id []] & _ & Hr); try done.
      simpl in Hr. case_bool_decide; [|done]. by injection Hr as <-. }
    assert (Hrun : (String.length (ao_run o) <= 1024)%nat).
    { unfold validate_origin in Ho. inv_ok. rewrite !orb_false_iff, Nat.ltb_ge in Hg. lia. }
    destruct (page_loop_spec o limit (take (S limit) rows) ltac:(by apply Forall_take) ltac:(lia) Hrun [] ltac:(simpl; lia))
      as (items & rest & next & Hp & Hd & Hn).
    rewrite Hp. simpl. exists items, (rest ++ (stored_row <$> drop (S limit) rows)), next. split; [done|].
    split; [by rewrite after_rows, (assoc_L (++)), <- Hd, <- fmap_app, take_drop|].
    destruct next as [k|]; [done|]. destruct Hn as [-> Hn]. simpl in Hn. rewrite length_take in Hn.
    by rewrite drop_ge by lia.
  - apply outputs_positive. eapply Forall_impl; [exact Hf|]. simpl. lia.
Qed.
End reading.

(** Following the cursors from zero reads every output of an actor, each
    once and in the order of the journal, with any page limit that is accepted,
    provided each stored output can be read; a page of one output always
    fits, since the limit on an emission leaves room for what a page adds. *)
Theorem outputs_paged parse_svg view_bytes metadata_bytes emission_bytes page_bytes o limit db :
  (forall o out next, (String.length (ao_run o) <= 1024)%nat -> em_origin (out_emission out) = o ->
    (page_bytes {| hp_origin := o; hp_outputs := [out]; hp_next_after := next |} <= emission_bytes (out_emission out) + 32768)%N) ->
  journal_wf db -> validate_origin o = Ok tt -> (0 < limit <= MAX_HISTORY_ITEMS)%nat ->
  Forall (fun r => validate_emission parse_svg view_bytes metadata_bytes emission_bytes r.1.2 = Ok tt) (actor_outputs o (a_events db)) ->
  walk (read_page parse_svg view_bytes metadata_bytes emission_bytes page_bytes o limit db) (S (length (actor_outputs o (a_events db)))) 0
  = Some (stored_row <$> actor_outputs o (a_events db)).
Proof.
  intros Hp Hj Ho Hl Hok. rewrite <- (length_fmap stored_row). apply (walk_all output_sequence). by apply outputs_pager.
Qed.

(** ** The JSON length of a view *)

(** A string as [serde_json] writes it: quotes, backslash and control
    characters are escaped, everything else is copied. *)
Definition char_bytes (c : ascii) : N :=
  let n := N_of_ascii c in
  if bool_decide (n ∈ [34; 92; 8; 9; 10; 12; 13]%N) then 2 else if (n <? 32)%N then 6 else 1.

Definition json_text_bytes (s : string) : N := 2 + foldr (fun c n => (char_bytes c + n)%N) 0%N (bytes_of s).

Definition bool_bytes (b : bool) : N := if b then 4 else 5.

(** ["truncated":true,] is left out when false. *)
Definition truncated_bytes (b : bool) : N := if b then 17 else 0.

Definition source_bytes (s : MediaSource) : N :=
  match s with
  | MediaData mime base64 => (33 + json_text_bytes (mime_str mime) + json_text_bytes base64)%N     (* {"kind":"data","mime":,"base64":} *)
  | MediaRetained hash => (27 + json_text_bytes hash)%N                                       (* {"kind":"retained","hash":} *)
  end.

(** The elements of an array and the commas between them. *)
Definition array_bytes (l : list N) : N := (2 + foldr N.add 0 l + N.of_nat (pred (length l)))%N.

Fixpoint view_json_bytes (v : View) : N :=
  match v with
  | ViewText text truncated => (23 + json_text_bytes text + truncated_bytes truncated)%N
  | ViewMarkdown text truncated => (27 + json_text_bytes text + truncated_bytes truncated)%N
  | ViewRow children => (26 + array_bytes (view_json_bytes <$> children))%N
  | ViewColumn children => (29 + array_bytes (view_json_bytes <$> children))%N
  | ViewCaption body text truncated => (34 + view_json_bytes body + json_text_bytes text + truncated_bytes truncated)%N
  | ViewSvg source => (24 + json_text_bytes source)%N
  | ViewImage source alt truncated => (33 + source_bytes source + json_text_bytes alt + truncated_bytes truncated)%N
  | ViewInspection text has_more unavailable => (56 + json_text_bytes text + bool_bytes has_more + bool_bytes unavailable)%N
  end.

(** ** Examples *)

Definition sample_origin : ActorOutputOrigin := {| ao_run := "run"; ao_native_actor := 7; ao_incarnation := 1 |}.

Definition sample_emission (slot : Z) (view : option View) : ActorOutputEmission :=
  {| em_origin := sample_origin; em_id := {| display_slot := slot; page_ordinal := 0 |}; em_execution := ActorProgram; em_conversation := None;
     em_page := {| page_text := "shown"; page_expansions := [(1, "more")]; page_unavailable := false; page_view := view |} |}.

Definition view_part (e : ActorOutputEmission) : N := match page_view (em_page e) with Some v => view_json_bytes v | None => 0 end.

Definition sample_emission_bytes (e : ActorOutputEmission) : N := (1000 + view_part e)%N.

Definition sample_page_bytes (p : ActorOutputHistoryPage) : N :=
  (500 + foldr (fun o n => (500 + sample_emission_bytes (out_emission o) + n)%N) 0 (hp_outputs p))%N.

(** The smallest text with the marker of a PNG. *)
Definition tiny_png : View := ViewImage (MediaData Png "iVBORw0KGgo=") "" false.

Definition decode_png (s : string) : option string := if bool_decide (s = "iVBORw0KGgo=") then Some PNG_MAGIC else None.

Definition sample_append (e : ActorOutputEmission) (db : ActorDb) : result StoreFault ActorOutputCommit * ActorDb :=
  append_actor_output (fun _ => Err "") view_json_bytes decode_png zero_hash (fun _ => 100%N) sample_emission_bytes "store" (fun _ => Ok true) 42 e db.

Definition sample_read (o : ActorOutputOrigin) (limit : nat) (db : ActorDb) : Z -> result StoreFault (list StoredActorOutput * option Z) :=
  read_page (fun _ => Err "") view_json_bytes (fun _ => 100%N) sample_emission_bytes sample_page_bytes o limit db.

Definition no_events : ActorDb := {| a_media := ∅; a_events := []; a_last := 0 |}.

(** Many small images: references are longer than the images, so that a view
    within the limit is stored beyond it, and the actor's outputs can no longer be read. *)
Definition many_images : View := ViewColumn [ViewRow (repeat tiny_png 690); ViewRow (repeat tiny_png 690)].

Example retained_output_unreadable :
  let (r, db) := sample_append (sample_emission 1 (Some many_images)) no_events in
  is_ok r = true /\ sample_read sample_origin 100 db 0 = Err FaultActorOutput.
Proof. vm_compute. done. Qed.


Definition three_outputs : ActorDb :=
  {| a_media := ∅; a_last := 9;
     a_events := [(2, OutputEvent (sample_emission 1 None) 10); (5, FormUpdated sample_origin "m" 1);
                  (6, OutputEvent (sample_emission 2 (Some (ViewText "x" false))) 11); (8, OutputEvent (sample_emission 3 None) 12)] |}.

Lemma outputs_paged_witness :
  walk (sample_read sample_origin 2 three_outputs) 4 0
  = Some [stored_row (2, sample_emission 1 None, 10); stored_row (6, sample_emission 2 (Some (ViewText "x" false)), 11);
          stored_row (8, sample_emission 3 None, 12)].
Proof.
  apply (outputs_paged (fun _ => Err "") view_json_bytes (fun _ => 100%N) sample_emission_bytes sample_page_bytes sample_origin 2 three_outputs).
  - intros o out next _ _. unfold sample_page_bytes. simpl. lia.
  - split; [|split; [repeat constructor; simpl; lia | done]]. repeat constructor; simpl; lia.
  - reflexivity.
  - unfold MAX_HISTORY_ITEMS. lia.
  - repeat constructor.
Defined.
