(* ===== verification/ActorForms.v ===== *)
(** Forms an actor asks a person to fill in ([store/forms.rs]).

    A mounted form is a durable lease: it is opened, submitted any number of
    times, rejected with errors or answered, and ends answered, dismissed,
    cancelled or interrupted by a restart. The table of forms is a finite map
    by the identity of the mount (its JSON text is injective); a row is kept
    as JSON, so that numbers JSON cannot express are read back as absent.
    Browser operations are remembered by their identity, so that a retry is
    answered without a second effect. JSON texts and their lengths are
    parameters, as is the host's authority. *)

From S2P Require Import Prelude Json SchemaModel Redaction Usage Observation Sse Failure StoreDb Lists Presentation ActorMedia Paging ActorOutput.

(** ** Data *)

Inductive ActorFormUnavailableCause := CauseInterrupted | CauseCancelled | CauseClosed.

Inductive ActorFormAttempt :=
| AttemptSubmitted (attempt_id : string) (draft : FormDraft)
| AttemptDismissed
| AttemptUnavailable (cause : ActorFormUnavailableCause).

Inductive ActorFormState := FormOpen | FormSubmitted | FormAnswered | FormDismissed | FormCancelled | FormInterrupted.

#[export] Instance ActorFormState_eq_dec : EqDecision ActorFormState.
Proof. solve_decision. Defined.
#[export] Instance ControlValue_eq_dec : EqDecision ControlValue.
Proof. solve_decision. Defined.
#[export] Instance FormError_eq_dec : EqDecision FormError.
Proof. solve_decision. Defined.

Record StoredActorForm := {
  sf_sequence : Z;
  sf_revision : Z;
  sf_opening : ActorFormOpen;
  sf_state : ActorFormState;
  sf_attempt_id : option string;
  sf_draft : option FormDraft;
  sf_errors : list FormError;
  sf_answer : option View
}.

#[export] Instance StoredActorForm_eta : Eta StoredActorForm := fun r =>
  {| sf_sequence := sf_sequence r; sf_revision := sf_revision r; sf_opening := sf_opening r; sf_state := sf_state r;
     sf_attempt_id := sf_attempt_id r; sf_draft := sf_draft r; sf_errors := sf_errors r; sf_answer := sf_answer r |}.

#[export] Instance ActorFormOpen_eta : Eta ActorFormOpen := fun o =>
  {| fo_origin := fo_origin o; fo_mount_id := fo_mount_id o; fo_execution := fo_execution o; fo_conversation := fo_conversation o;
     fo_form := fo_form o |}.

Inductive PendingActorFormState := PendingOpen | PendingSubmitted.

Record PendingActorForm := {
  pf_mount_id : string;
  pf_sequence : Z;
  pf_revision : Z;
  pf_execution : ActorOutputExecution;
  pf_conversation : option ConversationIdentity;
  pf_state : PendingActorFormState
}.

Record PendingActorFormsPage := {
  pp_origin : ActorOutputOrigin;
  pp_revision : Z;
  pp_forms : list PendingActorForm;
  pp_next_after : option Z
}.

Definition MAX_PENDING_FORM_ITEMS : nat := 64.
Definition MAX_PENDING_FORM_BYTES : N := 65536.

Inductive SettleForm :=
| SettleReject (attempt : string) (errors : list FormError)
| SettleCommit (attempt : string) (answer : View)
| SettleClose.

(** The identity of a mount: its origin and name. *)
Abbreviation Mount := (ActorOutputOrigin * string)%type.

Record FormsDb := {
  f_actor : ActorDb;
  f_forms : gmap Mount (Z * StoredActorForm);            (* opening_sequence, presentation *)
  f_operations : gmap (Mount * string) string;           (* payload *)
  f_epoch : Z                                            (* u64 *)
}.

#[export] Instance FormsDb_eta : Eta FormsDb := fun d =>
  {| f_actor := f_actor d; f_forms := f_forms d; f_operations := f_operations d; f_epoch := f_epoch d |}.

(** ** Equality and JSON *)

(** [==] on [f64]: a NaN equals nothing. *)
Definition float_eqb (a b : float) : bool :=
  match a, b with
  | Finite f, Finite g => match f64_compare f g with Eq => true | _ => false end
  | Infinite s, Infinite t => Bool.eqb s t
  | _, _ => false
  end.

Section eqb.
Context {A B : Type} (f : A -> B -> bool).
Fixpoint list_eqb (l : list A) (k : list B) : bool :=
  match l, k with
  | [], [] => true
  | x :: l, y :: k => f x y && list_eqb l k
  | _, _ => false
  end.
Definition option_eqb (a : option A) (b : option B) : bool :=
  match a, b with
  | Some x, Some y => f x y
  | None, None => true
  | _, _ => false
  end.
End eqb.

#[export] Instance FormOption_eq_dec : EqDecision FormOption.
Proof. solve_decision. Defined.

Fixpoint node_eqb (n m : FormNode) {struct n} : bool :=
  let alternatives := list_eqb (fun o p => bool_decide (alt_id o = alt_id p) && bool_decide (alt_label o = alt_label p)
    && bool_decide (alt_presentation o = alt_presentation p) && node_eqb (alt_form o) (alt_form p)) in
  match n, m with
  | PureNode, PureNode | EmptyNode, EmptyNode => true
  | GroupNode l, GroupNode k => list_eqb node_eqb l k
  | SectionNode t c, SectionNode u d => bool_decide (t = u) && node_eqb c d
  | ViewNode v, ViewNode w => bool_decide (v = w)
  | TextNode i l x, TextNode j k y | IntNode i l x, IntNode j k y => bool_decide (i = j) && bool_decide (l = k) && bool_decide (x = y)
  | NumberNode i l x, NumberNode j k y => bool_decide (i = j) && bool_decide (l = k) && option_eqb float_eqb x y
  | SliderNode i l a b x, SliderNode j k c d y =>
      bool_decide (i = j) && bool_decide (l = k) && float_eqb a c && float_eqb b d && float_eqb x y
  | BoolNode i l x, BoolNode j k y => bool_decide (i = j) && bool_decide (l = k) && bool_decide (x = y)
  | ChoiceNode i l o x, ChoiceNode j k p y => bool_decide (i = j) && bool_decide (l = k) && bool_decide (o = p) && bool_decide (x = y)
  | ManyNode i l o x, ManyNode j k p y => bool_decide (i = j) && bool_decide (l = k) && bool_decide (o = p) && bool_decide (x = y)
  | AlternativesManyNode i l o x, AlternativesManyNode j k p y =>
      bool_decide (i = j) && bool_decide (l = k) && alternatives o p && bool_decide (x = y)
  | AlternativesNode i l o x, AlternativesNode j k p y =>
      bool_decide (i = j) && bool_decide (l = k) && alternatives o p && bool_decide (x = y)
  | _, _ => false
  end.

Definition form_eqb (a b : FormSpec) : bool := (version a =? version b) && node_eqb (root a) (root b).

Definition opening_eqb (a b : ActorFormOpen) : bool :=
  bool_decide (fo_origin a = fo_origin b) && bool_decide (fo_mount_id a = fo_mount_id b) && bool_decide (fo_execution a = fo_execution b)
  && bool_decide (fo_conversation a = fo_conversation b) && form_eqb (fo_form a) (fo_form b).

(** What is read back of a form and a draft: a number that is not finite is
    written as [null]. *)
Fixpoint reread_node (n : FormNode) : FormNode :=
  match n with
  | NumberNode id label (Some x) => NumberNode id label (if is_finite x then Some x else None)
  | GroupNode children => GroupNode (reread_node <$> children)
  | SectionNode title child => SectionNode title (reread_node child)
  | AlternativesManyNode id label options initial =>
      AlternativesManyNode id label ((fun o => {| alt_id := alt_id o; alt_label := alt_label o; alt_presentation := alt_presentation o;
                                                  alt_form := reread_node (alt_form o) |}) <$> options) initial
  | AlternativesNode id label options initial =>
      AlternativesNode id label ((fun o => {| alt_id := alt_id o; alt_label := alt_label o; alt_presentation := alt_presentation o;
                                              alt_form := reread_node (alt_form o) |}) <$> options) initial
  | n => n
  end.

Definition reread_form (f : FormSpec) : FormSpec := {| version := version f; root := reread_node (root f) |}.

Definition reread_value (v : ControlValue) : ControlValue :=
  match v with ControlNumber x => if is_finite x then v else ControlEmpty | _ => v end.

Definition reread_draft (d : FormDraft) : FormDraft := reread_value <$> d.

Definition reread (r : StoredActorForm) : StoredActorForm :=
  r <| sf_opening ::= (fun o => o <| fo_form ::= reread_form |>) |> <| sf_draft ::= fmap reread_draft |>.

Section forms.
Variable parse_svg : string -> result string (string * option string).
Variable view_bytes : View -> N.
Variable base64_decode : string -> option string.
Variable blake3 : string -> string.
(** Lengths of JSON texts. *)
Variable form_bytes : FormSpec -> N.
Variable draft_bytes : FormDraft -> N.
Variable errors_bytes : list FormError -> N.
Variable row_bytes : StoredActorForm -> N.
Variable pending_bytes : PendingActorForm -> N.
Variable empty_page_bytes : ActorOutputOrigin -> Z -> N.
(** [serde_json::to_string] of a browser operation's draft, or [null]. *)
Variable payload_text : option FormDraft -> string.

(** ** Rows *)

Definition mount_key (origin : ActorOutputOrigin) (mount : string) : result StoreFault Mount :=
  do _ <- validate_origin origin;
  refuse bool_decide (mount = "") || (256 <? String.length mount)%nat with FaultForm;
  Ok (origin, mount).

Definition submission (r : StoredActorForm) : bool := bool_decide (is_Some (sf_attempt_id r)) && bool_decide (is_Some (sf_draft r)).
Definition no_submission (r : StoredActorForm) : bool := bool_decide (sf_attempt_id r = None) && bool_decide (sf_draft r = None).

Definition state_ok (r : StoredActorForm) : bool :=
  match sf_state r with
  | FormSubmitted => submission r && bool_decide (sf_answer r = None) && bool_decide (sf_errors r = [])
  | FormAnswered => submission r && bool_decide (is_Some (sf_answer r)) && bool_decide (sf_errors r = [])
  | FormOpen | FormDismissed | FormCancelled | FormInterrupted => bool_decide (sf_answer r = None) && (submission r || no_submission r)
  end.

Definition MAX_FORM_ROW_BYTES : N := (MAX_HISTORY_BYTES - 8192)%N.

Definition valid_form (f : FormSpec) : result StoreFault unit := map_err presentation_fault (validate_form parse_svg view_bytes form_bytes f).
Definition valid_draft (f : FormSpec) (d : FormDraft) : result StoreFault unit := map_err presentation_fault (validate_draft draft_bytes f d).

Definition validate_row (r : StoredActorForm) : result StoreFault unit :=
  do _ <- mount_key (fo_origin (sf_opening r)) (fo_mount_id (sf_opening r));
  do _ <- map_err (fun _ => FaultForm) (validate_execution (fo_execution (sf_opening r)));
  refuse negb (state_ok r) || (sf_sequence r <=? 0) || (sf_revision r <? sf_sequence r) || (MAX_FORM_ROW_BYTES <? row_bytes r)%N with FaultForm;
  do _ <- valid_form (fo_form (sf_opening r));
  do _ <- map_err presentation_fault (bounded_errors errors_bytes (sf_errors r));
  do _ <- match sf_draft r with Some draft => valid_draft (fo_form (sf_opening r)) draft | None => Ok tt end;
  match sf_answer r with Some answer => valid_view parse_svg view_bytes answer | None => Ok tt end.

Definition load_form (db : FormsDb) (id : Mount) : result StoreFault StoredActorForm :=
  do '(_, row) <- ok_or (f_forms db !! id) FaultFormUnavailable;
  do _ <- validate_row row;
  do key <- mount_key (fo_origin (sf_opening row)) (fo_mount_id (sf_opening row));
  guard bool_decide (key = id) else FaultForm;
  Ok row.

Definition journal_event (db : FormsDb) (e : ActorEvent) : Z * FormsDb :=
  let (id, actor) := add_event (f_actor db) e in (id, db <| f_actor := actor |>).

(** [save]: the row is validated before it takes its new revision. *)
Definition save_form (db : FormsDb) (id : Mount) (row : StoredActorForm) : result StoreFault (StoredActorForm * FormsDb) :=
  do _ <- validate_row row;
  let (revision, db) := journal_event db (FormUpdated (fo_origin (sf_opening row)) (fo_mount_id (sf_opening row)) (sf_sequence row)) in
  let row := row <| sf_revision := revision |> in
  Ok (row, db <| f_forms ::= alter (fun x => (x.1, reread row)) id |>).

Definition signal_change (db : FormsDb) : FormsDb := db <| f_epoch ::= (fun e => (e + 1) mod 2 ^ 64) |>.

(** A write transaction: an error rolls it back; a change wakes the readers. *)
Definition form_transaction {A} (r : result StoreFault (A * bool * FormsDb)) (db : FormsDb) : result StoreFault A * FormsDb :=
  match r with
  | Err e => (Err e, db)
  | Ok (a, changed, db) => (Ok a, if changed then signal_change db else db)
  end.

(** ** Opening *)

Definition set_option_view (o : FormOption) (v : View) : FormOption := {| opt_id := opt_id o; opt_label := opt_label o; opt_presentation := v |}.

Definition keep_view (v : View) (m : Media) : result StoreFault View * Media := retain_view_media parse_svg view_bytes base64_decode blake3 v m.

Definition keep_option (o : FormOption) (m : Media) : result StoreFault FormOption * Media :=
  match keep_view (opt_presentation o) m with
  | (Err e, m) => (Err e, m)
  | (Ok v, m) => (Ok (set_option_view o v), m)
  end.

Definition map_fst {A B C} (f : A -> B) (r : result StoreFault A * C) : result StoreFault B * C := (rmap f r.1, r.2).

Fixpoint retain_node (n : FormNode) (m : Media) : result StoreFault FormNode * Media :=
  let keep_alternative o m :=
    match keep_view (alt_presentation o) m with
    | (Err e, m) => (Err e, m)
    | (Ok v, m) =>
        map_fst (fun form => {| alt_id := alt_id o; alt_label := alt_label o; alt_presentation := v; alt_form := form |})
                (retain_node (alt_form o) m)
    end in
  match n with
  | ViewNode presentation => map_fst ViewNode (keep_view presentation m)
  | GroupNode children => map_fst GroupNode (map_state retain_node children m)
  | SectionNode title child => map_fst (SectionNode title) (retain_node child m)
  | ChoiceNode id label options initial => map_fst (fun options => ChoiceNode id label options initial) (map_state keep_option options m)
  | ManyNode id label options initial => map_fst (fun options => ManyNode id label options initial) (map_state keep_option options m)
  | AlternativesNode id label options initial =>
      map_fst (fun options => AlternativesNode id label options initial) (map_state keep_alternative options m)
  | AlternativesManyNode id label options initial =>
      map_fst (fun options => AlternativesManyNode id label options initial) (map_state keep_alternative options m)
  | n => (Ok n, m)
  end.

Definition retain_form_media (f : FormSpec) (m : Media) : result StoreFault FormSpec * Media :=
  map_fst (fun root => {| version := version f; root := root |}) (retain_node (root f) m).

Definition open_transaction (authority : ActorFormOpen -> result string bool) (id : Mount) (opening : ActorFormOpen) (db : FormsDb) :
    result StoreFault (StoredActorForm * bool * FormsDb) :=
  do allowed <- map_err FaultAuthority (authority opening);
  guard allowed else FaultRefused;
  match f_forms db !! id with
  | Some _ =>
      do row <- load_form db id;
      guard opening_eqb (sf_opening row) opening else FaultConflictingForm;
      Ok (row, false, db)
  | None =>
      let (sequence, db) := journal_event db (FormOpened opening) in
      let row := {| sf_sequence := sequence; sf_revision := sequence; sf_opening := opening; sf_state := FormOpen; sf_attempt_id := None;
                    sf_draft := None; sf_errors := []; sf_answer := None |} in
      do _ <- validate_row row;
      Ok (row, true, db <| f_forms ::= insert id (sequence, reread row) |>)
  end.

Definition open_actor_form (store_id : string) (authority : ActorFormOpen -> result string bool) (opening : ActorFormOpen) (db : FormsDb) :
    result StoreFault StoredActorForm * FormsDb :=
  match mount_key (fo_origin opening) (fo_mount_id opening) with
  | Err e => (Err e, db)
  | Ok id =>
      match valid_form (fo_form opening) with
      | Err e => (Err e, db)
      | Ok _ =>
          match retain_form_media (fo_form opening) (a_media (f_actor db)) with
          | (Err e, m) => (Err e, db <| f_actor ::= (fun a => a <| a_media := m |>) |>)
          | (Ok form, m) =>
              let db := db <| f_actor ::= (fun a => a <| a_media := m |>) |> in
              let opening := opening <| fo_form := form |> in
              if negb (embedded_matches (fo_origin opening) (fo_conversation opening)) then (Err FaultForm, db)
              else if negb (standalone_matches store_id (fo_conversation opening)) then (Err FaultForm, db)
              else form_transaction (open_transaction authority id opening db) db
          end
      end
  end.

(** ** The person's operations *)

(** The row a submission or a dismissal leaves. *)
Definition browse_row (row : StoredActorForm) (operation : string) (draft : option FormDraft) : StoredActorForm :=
  match draft with
  | Some draft => row <| sf_attempt_id := Some operation |> <| sf_draft := Some draft |> <| sf_errors := [] |> <| sf_state := FormSubmitted |>
  | None => row <| sf_errors := [] |> <| sf_state := FormDismissed |>
  end.

Definition browser_transaction (id : Mount) (operation : string) (draft : option FormDraft) (db : FormsDb) :
    result StoreFault (StoredActorForm * bool * FormsDb) :=
  do row <- load_form db id;
  match f_operations db !! (id, operation) with
  | Some old => guard bool_decide (old = payload_text draft) else FaultConflictingForm; Ok (row, false, db)
  | None =>
      guard bool_decide (sf_state row = FormOpen) || (bool_decide (draft = None) && bool_decide (sf_state row = FormSubmitted)) else FaultFormUnavailable;
      do _ <- match draft with Some draft => valid_draft (fo_form (sf_opening row)) draft | None => Ok tt end;
      let db := db <| f_operations ::= insert (id, operation) (payload_text draft) |> in
      do '(row, db) <- save_form db id (browse_row row operation draft);
      Ok (row, true, db)
  end.

Definition form_browser_operation (origin : ActorOutputOrigin) (mount operation : string) (draft : option FormDraft) (db : FormsDb) :
    result StoreFault StoredActorForm * FormsDb :=
  match mount_key origin mount with
  | Err e => (Err e, db)
  | Ok id =>
      if bool_decide (operation = "") || (256 <? String.length operation)%nat then (Err FaultForm, db) else
      form_transaction (browser_transaction id operation draft db) db
  end.

(** [serde_json::from_value] of a draft, of errors and of a view. *)
Variable read_draft : value -> option FormDraft.
Variable read_errors : value -> option (list FormError).
Variable read_view : value -> option View.

Definition submit_actor_form (origin : ActorOutputOrigin) (mount operation : string) (draft : value) (db : FormsDb) : result StoreFault StoredActorForm * FormsDb :=
  match read_draft draft with
  | None => (Err FaultForm, db)
  | Some draft => form_browser_operation origin mount operation (Some draft) db
  end.

Definition dismiss_actor_form (origin : ActorOutputOrigin) (mount operation : string) (db : FormsDb) : result StoreFault StoredActorForm * FormsDb :=
  form_browser_operation origin mount operation None db.

(** ** The actor's operations *)

Definition actor_form_attempt (origin : ActorOutputOrigin) (mount : string) (db : FormsDb) : result StoreFault (option ActorFormAttempt) :=
  do id <- mount_key origin mount;
  do row <- load_form db id;
  match sf_state row with
  | FormOpen => Ok None
  | FormSubmitted =>
      do attempt <- ok_or (sf_attempt_id row) FaultForm;
      do draft <- ok_or (sf_draft row) FaultForm;
      Ok (Some (AttemptSubmitted attempt draft))
  | FormDismissed => Ok (Some AttemptDismissed)
  | FormInterrupted => Ok (Some (AttemptUnavailable CauseInterrupted))
  | FormCancelled => Ok (Some (AttemptUnavailable CauseCancelled))
  | FormAnswered => Ok (Some (AttemptUnavailable CauseClosed))
  end.

(** A settlement's effect on a row: no change with its answer, or a new row. *)
Definition settle_row (row : StoredActorForm) (settlement : SettleForm) : bool + StoredActorForm :=
  match settlement with
  | SettleCommit attempt answer =>
      if negb (bool_decide (sf_attempt_id row = Some attempt)) then inl false
      else if bool_decide (sf_state row = FormAnswered) && bool_decide (sf_answer row = Some answer) then inl true
      else if negb (bool_decide (sf_state row = FormSubmitted)) then inl false
      else inr (row <| sf_state := FormAnswered |> <| sf_answer := Some answer |> <| sf_errors := [] |>)
  | SettleReject attempt errors =>
      if negb (bool_decide (sf_attempt_id row = Some attempt)) then inl false
      else if bool_decide (sf_state row = FormOpen) && bool_decide (sf_errors row = errors) then inl true
      else if negb (bool_decide (sf_state row = FormSubmitted)) then inl false
      else inr (row <| sf_state := FormOpen |> <| sf_errors := errors |>)
  | SettleClose =>
      if negb (bool_decide (sf_state row = FormOpen) || bool_decide (sf_state row = FormSubmitted)) then inl false
      else inr (row <| sf_state := FormCancelled |>)
  end.

Definition settle_transaction (id : Mount) (settlement : SettleForm) (db : FormsDb) : result StoreFault (bool * bool * FormsDb) :=
  do row <- load_form db id;
  match settle_row row settlement with
  | inl applied => Ok (applied, false, db)
  | inr row => do '(_, db) <- save_form db id row; Ok (true, true, db)
  end.

Definition settle_actor_form (origin : ActorOutputOrigin) (mount : string) (settlement : SettleForm) (db : FormsDb) : result StoreFault bool * FormsDb :=
  match mount_key origin mount with
  | Err e => (Err e, db)
  | Ok id => form_transaction (settle_transaction id settlement db) db
  end.

Definition reject_actor_form (origin : ActorOutputOrigin) (mount attempt : string) (errors : value) (db : FormsDb) : result StoreFault bool * FormsDb :=
  match parse_errors read_errors errors_bytes errors with
  | Err e => (Err (presentation_fault e), db)
  | Ok errors => settle_actor_form origin mount (SettleReject attempt errors) db
  end.

Definition commit_actor_form (origin : ActorOutputOrigin) (mount attempt : string) (presentation : value) (db : FormsDb) : result StoreFault bool * FormsDb :=
  match read_view presentation with
  | None => (Err FaultForm, db)
  | Some view =>
      match valid_view parse_svg view_bytes view with
      | Err e => (Err e, db)
      | Ok _ =>
          match keep_view view (a_media (f_actor db)) with
          | (Err e, m) => (Err e, db <| f_actor ::= (fun a => a <| a_media := m |>) |>)
          | (Ok answer, m) => settle_actor_form origin mount (SettleCommit attempt answer) (db <| f_actor ::= (fun a => a <| a_media := m |>) |>)
          end
      end
  end.

Definition close_actor_form (origin : ActorOutputOrigin) (mount : string) (db : FormsDb) : result StoreFault bool * FormsDb :=
  settle_actor_form origin mount SettleClose db.

Definition actor_form (origin : ActorOutputOrigin) (mount : string) (db : FormsDb) : result StoreFault StoredActorForm :=
  do id <- mount_key origin mount; load_form db id.

(** ** Restart *)

Definition form_pending (r : StoredActorForm) : bool := bool_decide (sf_state r = FormOpen) || bool_decide (sf_state r = FormSubmitted).

Definition interrupt_one (db : FormsDb) (x : Mount * (Z * StoredActorForm)) : result StoreFault FormsDb :=
  do '(_, db) <- save_form db x.1 (x.2.2 <| sf_state := FormInterrupted |>); Ok db.

Definition pending_rows (db : FormsDb) : list (Mount * (Z * StoredActorForm)) := List.filter (fun x => form_pending x.2.2) (map_to_list (f_forms db)).

(** The rows in the order the query returns them, which is not specified. *)
Definition interrupt_actor_forms_for_restart (rows : list (Mount * (Z * StoredActorForm))) (db : FormsDb) : result StoreFault nat * FormsDb :=
  match fold_result interrupt_one db rows with
  | Err e => (Err e, db)
  | Ok db => (Ok (length rows), if (0 <? length rows)%nat then signal_change db else db)
  end.

(** ** Pending forms *)

Definition forms_of (o : ActorOutputOrigin) (db : FormsDb) : list (Z * StoredActorForm) :=
  List.filter (fun x => bool_decide (fo_origin (sf_opening x.2) = o)) (snd <$> map_to_list (f_forms db)).

Definition form_revision (o : ActorOutputOrigin) (db : FormsDb) : Z := foldr Z.max 0 ((fun x => sf_revision x.2) <$> forms_of o db).

Definition opening_leb (x y : Z * StoredActorForm) : Prop := x.1 <= y.1.
#[local] Instance opening_leb_dec x y : Decision (opening_leb x y).
Proof. unfold opening_leb. apply _. Defined.

(** The rows of the query, ordered by their opening. *)
Definition pending_forms (o : ActorOutputOrigin) (db : FormsDb) : list (Z * StoredActorForm) :=
  merge_sort opening_leb (List.filter (fun x => form_pending x.2) (forms_of o db)).

Definition pending_form (row : StoredActorForm) (state : PendingActorFormState) : PendingActorForm :=
  {| pf_mount_id := fo_mount_id (sf_opening row); pf_sequence := sf_sequence row; pf_revision := sf_revision row;
     pf_execution := fo_execution (sf_opening row); pf_conversation := fo_conversation (sf_opening row); pf_state := state |}.

Fixpoint pending_loop (o : ActorOutputOrigin) (limit : nat) (rows : list (Z * StoredActorForm)) (bytes : N) (forms : list PendingActorForm) :
    result StoreFault (list PendingActorForm * option Z) :=
  match rows with
  | [] => Ok (forms, None)
  | (_, row) :: rows =>
      do _ <- validate_row row;
      refuse negb (bool_decide (fo_origin (sf_opening row) = o)) with FaultForm;
      do state <- match sf_state row with FormOpen => Ok PendingOpen | FormSubmitted => Ok PendingSubmitted | _ => Err FaultForm end;
      let form := pending_form row state in
      let size := (pending_bytes form + 64)%N in
      if (length forms =? limit)%nat || (MAX_PENDING_FORM_BYTES <? bytes + size)%N then
        do previous <- ok_or (last forms) FaultForm;
        Ok (forms, Some (pf_sequence previous))
      else pending_loop o limit rows (bytes + size)%N (forms ++ [form])
  end.

Definition pending_actor_forms (o : ActorOutputOrigin) (after : Z) (limit : nat) (db : FormsDb) : result StoreFault PendingActorFormsPage :=
  do _ <- validate_origin o;
  refuse (after <? 0) || (limit =? 0)%nat || (MAX_PENDING_FORM_ITEMS <? limit)%nat with FaultHistoryOffset;
  let revision := form_revision o db in
  do '(forms, next) <- pending_loop o limit (take (S limit) (List.filter (fun x => after <? x.1) (pending_forms o db))) (empty_page_bytes o revision) [];
  Ok {| pp_origin := o; pp_revision := revision; pp_forms := forms; pp_next_after := next |}.
End forms.

(** ** What is read back *)

Section rereading.
Variable parse_svg : string -> result string (string * option string).
Variable view_bytes : View -> N.

Lemma subforms_reread n : subforms (reread_node n) = reread_node <$> subforms n.
Proof. destruct n; try done; simpl; [by destruct initial | ..]; by rewrite <- !list_fmap_compose. Qed.

Lemma node_id_reread n : node_id (reread_node n) = node_id n.
Proof. destruct n; try done. by destruct initial. Qed.

Lemma alternative_views_reread (f : FormNode -> FormNode) options :
  alternative_views ((fun o => {| alt_id := alt_id o; alt_label := alt_label o; alt_presentation := alt_presentation o; alt_form := f (alt_form o) |}) <$> options)
  = alternative_views options.
Proof. unfold alternative_views. by rewrite <- list_fmap_compose. Qed.

Lemma node_check_reread n : node_check parse_svg view_bytes (reread_node n) = node_check parse_svg view_bytes n.
Proof. destruct n; simpl; try done; rewrite ?length_fmap, ?alternative_views_reread; try done. by destruct initial. Qed.

Lemma fold_all_ext {A C} (f g : A -> C -> option C) l : Forall (fun x => forall b, f x b = g x b) l -> forall b, fold_all f l b = fold_all g l b.
Proof. induction 1 as [|x l Hx _ IH]; intros b; simpl; [done|]. rewrite Hx. destruct (g x b); simpl; [apply IH | done]. Qed.

Lemma form_go_reread n : forall depth ids, form_go parse_svg view_bytes depth (reread_node n) ids = form_go parse_svg view_bytes depth n ids.
Proof.
  induction n as [n IH] using form_ind. intros depth ids. rewrite !form_go_eq. unfold id_check.
  rewrite node_id_reread, node_check_reread, subforms_reread.
  destruct (32 <? depth)%nat; [done|]. destruct (match node_id n with Some _ => _ | None => _ end) as [ids'|]; [|done].
  destruct (node_check _ _ n); [|done]. rewrite fold_all_fmap. apply fold_all_ext. eapply Forall_impl; [exact IH|]. simpl. intros m Hm b. apply Hm.
Qed.

(** A control is read back as it was, or as empty. *)
Lemma control_reread d id : control (reread_draft d) id = None \/ control (reread_draft d) id = control d id.
Proof.
  unfold control, reread_draft. rewrite lookup_fmap. destruct (d !! id) as [v|]; simpl; [|by left].
  destruct v as [| |x| | |]; simpl; try (by right). destruct (is_finite x); [by right | by left].
Qed.

Lemma none_or_reread d id p : none_or (control d id) p = true -> none_or (control (reread_draft d) id) p = true.
Proof. by destruct (control_reread d id) as [->| ->]. Qed.

Lemma draft_go_reread d n : draft_go d n = true -> draft_go (reread_draft d) (reread_node n) = true.
Proof.
  induction n as [n IH] using form_ind.
  assert (Hfind : forall options s,
    Forall (fun n => draft_go d n = true -> draft_go (reread_draft d) (reread_node n) = true) (alt_form <$> options) ->
    (fix find l := match l with [] => false | o :: l => if bool_decide (alt_id o = s) then draft_go d (alt_form o) else find l end) options = true ->
    (fix find l := match l with [] => false | o :: l => if bool_decide (alt_id o = s) then draft_go (reread_draft d) (alt_form o) else find l end)
      ((fun o => {| alt_id := alt_id o; alt_label := alt_label o; alt_presentation := alt_presentation o; alt_form := reread_node (alt_form o) |}) <$> options) = true).
  { intros options s. induction options as [|o options IHo]; csimpl; [done|]. intros [Ho Hl]%Forall_cons.
    case_bool_decide; [by apply Ho | by apply IHo]. }
  destruct n as [| |children|title child|v|id label initial|id label initial|id label initial|id label minimum maximum initial
    |id label initial|id label options initial|id label options initial|id label options initial|id label options initial];
    simpl in IH |- *; try done; try apply none_or_reread.
  - rewrite !forallb_forall. intros H c Hc. apply list_elem_of_In, list_elem_of_fmap in Hc as (c' & -> & Hc).
    rewrite Forall_forall in IH. apply IH; [done|]. by apply H, list_elem_of_In.
  - by apply (Forall_inv IH).
  - by destruct initial; apply none_or_reread.
  - destruct (control_reread d id) as [->| ->]; [done|]. destruct (control d id) as [[]|]; simpl; try done.
    rewrite !andb_true_iff, !forallb_forall. intros [Hd Hl]. split; [done|]. intros s Hs. apply Hfind; [done | by apply Hl].
  - destruct (control_reread d id) as [->| ->]; [done|]. destruct (control d id) as [[]|]; try done. by apply Hfind.
Qed.
End rereading.

(** ** The lease a form stands for *)

(** What the operations on one mount mean, apart from how they are stored:
    the state, the last submission, the errors shown, the answer, the
    browser operations already answered and how many changes were published. *)
Record Lease := {
  l_state : ActorFormState;
  l_submission : option (string * FormDraft);
  l_errors : list FormError;
  l_answer : option View;
  l_operations : gmap string string;
  l_changes : nat
}.

Inductive FormOp :=
| OpBrowse (operation : string) (draft : option FormDraft)
| OpSettle (settlement : SettleForm).

Section lease.
Variable payload_text : option FormDraft -> string.

(** [None]: refused. The boolean: whether a settlement took effect, now or before. *)
Definition lease_step (l : Lease) (op : FormOp) : option (bool * Lease) :=
  match op with
  | OpBrowse operation draft =>
      match l_operations l !! operation with
      | Some old => if bool_decide (old = payload_text draft) then Some (true, l) else None
      | None =>
          if bool_decide (l_state l = FormOpen) || (bool_decide (draft = None) && bool_decide (l_state l = FormSubmitted)) then
            Some (true, {| l_state := if draft then FormSubmitted else FormDismissed;
                           l_submission := match draft with Some d => Some (operation, reread_draft d) | None => l_submission l end;
                           l_errors := []; l_answer := l_answer l;
                           l_operations := <[operation := payload_text draft]> (l_operations l); l_changes := S (l_changes l) |})
          else None
      end
  | OpSettle (SettleCommit attempt answer) =>
      if negb (bool_decide (fst <$> l_submission l = Some attempt)) then Some (false, l)
      else match l_state l with
           | FormAnswered => Some (bool_decide (l_answer l = Some answer), l)
           | FormSubmitted => Some (true, {| l_state := FormAnswered; l_submission := l_submission l; l_errors := []; l_answer := Some answer;
                                             l_operations := l_operations l; l_changes := S (l_changes l) |})
           | _ => Some (false, l)
           end
  | OpSettle (SettleReject attempt errors) =>
      if negb (bool_decide (fst <$> l_submission l = Some attempt)) then Some (false, l)
      else match l_state l with
           | FormOpen => Some (bool_decide (l_errors l = errors), l)
           | FormSubmitted => Some (true, {| l_state := FormOpen; l_submission := l_submission l; l_errors := errors; l_answer := l_answer l;
                                             l_operations := l_operations l; l_changes := S (l_changes l) |})
           | _ => Some (false, l)
           end
  | OpSettle SettleClose =>
      match l_state l with
      | FormOpen | FormSubmitted => Some (true, {| l_state := FormCancelled; l_submission := l_submission l; l_errors := l_errors l;
                                                   l_answer := l_answer l; l_operations := l_operations l; l_changes := S (l_changes l) |})
      | _ => Some (false, l)
      end
  end.
End lease.

Definition submitted (r : StoredActorForm) : option (string * FormDraft) :=
  a ← sf_attempt_id r; d ← sf_draft r; Some (a, reread_draft d).

Definition updates (id : Mount) (l : list (Z * ActorEvent)) : nat :=
  length (List.filter (fun e => match e.2 with FormUpdated o m _ => bool_decide ((o, m) = id) | _ => false end) l).

(** A stored form and its lease. *)
Definition represents (db : FormsDb) (id : Mount) (l : Lease) : Prop :=
  exists oseq row, f_forms db !! id = Some (oseq, row)
  /\ l_state l = sf_state row /\ l_submission l = submitted row /\ l_errors l = sf_errors row /\ l_answer l = sf_answer row
  /\ (forall operation, l_operations l !! operation = f_operations db !! (id, operation))
  /\ l_changes l = updates id (a_events (f_actor db)).

(** ** Runs of the Store *)

Section runs.
Context (parse_svg : string -> result string (string * option string)) (view_bytes : View -> N).
Context (base64_decode : string -> option string) (blake3 : string -> string).
Context (form_bytes : FormSpec -> N) (draft_bytes : FormDraft -> N) (errors_bytes : list FormError -> N) (row_bytes : StoredActorForm -> N).
Context (payload_text : option FormDraft -> string).
Context (read_draft : value -> option FormDraft) (read_errors : value -> option (list FormError)) (read_view : value -> option View).

Abbreviation row_valid := (validate_row parse_svg view_bytes form_bytes draft_bytes errors_bytes row_bytes).
Abbreviation load := (load_form parse_svg view_bytes form_bytes draft_bytes errors_bytes row_bytes).
Abbreviation save := (save_form parse_svg view_bytes form_bytes draft_bytes errors_bytes row_bytes).
Abbreviation open_form := (open_actor_form parse_svg view_bytes base64_decode blake3 form_bytes draft_bytes errors_bytes row_bytes).
Abbreviation browse := (form_browser_operation parse_svg view_bytes form_bytes draft_bytes errors_bytes row_bytes payload_text).
Abbreviation settle := (settle_actor_form parse_svg view_bytes form_bytes draft_bytes errors_bytes row_bytes).
Abbreviation restart := (interrupt_actor_forms_for_restart parse_svg view_bytes form_bytes draft_bytes errors_bytes row_bytes).

(** One operation, or anything else the Store does to the journal and the assets. *)
Inductive form_step (db : FormsDb) : FormsDb -> Prop :=
| StepOpen store_id authority opening : form_step db (open_form store_id authority opening db).2
| StepSubmit origin mount operation draft :
    form_step db (submit_actor_form parse_svg view_bytes form_bytes draft_bytes errors_bytes row_bytes payload_text read_draft origin mount operation draft db).2
| StepDismiss origin mount operation :
    form_step db (dismiss_actor_form parse_svg view_bytes form_bytes draft_bytes errors_bytes row_bytes payload_text origin mount operation db).2
| StepReject origin mount attempt errors :
    form_step db (reject_actor_form parse_svg view_bytes form_bytes draft_bytes errors_bytes row_bytes read_errors origin mount attempt errors db).2
| StepCommit origin mount attempt presentation :
    form_step db (commit_actor_form parse_svg view_bytes base64_decode blake3 form_bytes draft_bytes errors_bytes row_bytes read_view
                    origin mount attempt presentation db).2
| StepClose origin mount :
    form_step db (close_actor_form parse_svg view_bytes form_bytes draft_bytes errors_bytes row_bytes origin mount db).2
| StepRestart rows : rows ≡ₚ pending_rows db -> form_step db (restart rows db).2
| StepOther actor : a_last (f_actor db) <= a_last actor -> (journal_wf (f_actor db) -> journal_wf actor) -> form_step db (db <| f_actor := actor |>).

Definition no_forms : FormsDb := {| f_actor := no_events; f_forms := ∅; f_operations := ∅; f_epoch := 0 |}.

(** ** The changes a step can make *)

Definition journal_grows (a b : ActorDb) : Prop := a_last a <= a_last b /\ (journal_wf a -> journal_wf b).

Definition new_row (sequence : Z) (opening : ActorFormOpen) : StoredActorForm :=
  {| sf_sequence := sequence; sf_revision := sequence; sf_opening := opening; sf_state := FormOpen; sf_attempt_id := None;
     sf_draft := None; sf_errors := []; sf_answer := None |}.

Inductive form_change (db db' : FormsDb) : Prop :=
| ChangeQuiet : f_forms db' = f_forms db -> f_operations db' = f_operations db -> journal_grows (f_actor db) (f_actor db') -> form_change db db'
| ChangeOpen id opening :
    f_forms db !! id = None -> mount_key (fo_origin opening) (fo_mount_id opening) = Ok id ->
    row_valid (new_row (a_last (f_actor db) + 1) opening) = Ok tt ->
    f_forms db' = <[id := (a_last (f_actor db) + 1, reread (new_row (a_last (f_actor db) + 1) opening))]> (f_forms db) ->
    f_operations db' = f_operations db -> a_last (f_actor db') = a_last (f_actor db) + 1 -> journal_grows (f_actor db) (f_actor db') ->
    form_change db db'
| ChangeSave id oseq old row :
    f_forms db !! id = Some (oseq, old) -> form_pending old = true -> row_valid row = Ok tt ->
    sf_opening row = sf_opening old -> sf_sequence row = sf_sequence old ->
    f_forms db' = <[id := (oseq, reread (row <| sf_revision := a_last (f_actor db) + 1 |>))]> (f_forms db) ->
    f_operations db ⊆ f_operations db' ->
    (forall k, is_Some (f_operations db' !! k) -> is_Some (f_operations db !! k) \/ k.1 = id) ->
    (forall a, sf_attempt_id row = Some a -> sf_attempt_id old = Some a \/ is_Some (f_operations db' !! (id, a))) ->
    a_last (f_actor db') = a_last (f_actor db) + 1 -> journal_grows (f_actor db) (f_actor db') -> form_change db db'.

Lemma add_event_grows a e : journal_grows a (add_event a e).2 /\ a_last (add_event a e).2 = a_last a + 1.
Proof. split; [|done]. split; [simpl; lia | apply add_event_wf]. Qed.

Lemma journal_media a m : journal_grows a (a <| a_media := m |>).
Proof. by split. Qed.

Lemma load_lookup db id row : load db id = Ok row ->
  exists oseq, f_forms db !! id = Some (oseq, row) /\ row_valid row = Ok tt /\ mount_key (fo_origin (sf_opening row)) (fo_mount_id (sf_opening row)) = Ok id.
Proof.
  unfold load_form. intros H. apply rbind_Ok in H as ([oseq r] & Hl & H). apply ok_or_Ok in Hl.
  apply rbind_Ok in H as ([] & Hv & H). apply rbind_Ok in H as (key & Hk & H). case_bool_decide as Hb; [|done].
  injection H as <-. subst key. by exists oseq.
Qed.

(** A saved row is a change. *)
Lemma save_change db0 db id oseq old row row' db' :
  f_forms db0 !! id = Some (oseq, old) -> form_pending old = true -> sf_opening row = sf_opening old -> sf_sequence row = sf_sequence old ->
  f_forms db = f_forms db0 -> f_actor db = f_actor db0 -> f_operations db0 ⊆ f_operations db ->
  (forall k, is_Some (f_operations db !! k) -> is_Some (f_operations db0 !! k) \/ k.1 = id) ->
  (forall a, sf_attempt_id row = Some a -> sf_attempt_id old = Some a \/ is_Some (f_operations db !! (id, a))) ->
  save db id row = Ok (row', db') -> form_change db0 db' /\ row' = row <| sf_revision := a_last (f_actor db0) + 1 |>.
Proof.
  intros Hl Hp Ho Hs Hf Ha Hops Hnew Hatt H. unfold save_form in H. apply rbind_Ok in H as ([] & Hv & H). simpl in H.
  injection H as <- <-. rewrite Ha. split; [|done]. destruct (add_event_grows (f_actor db0) (FormUpdated (fo_origin (sf_opening row)) (fo_mount_id (sf_opening row)) (sf_sequence row))) as [Hg Hla].
  eapply ChangeSave; [exact Hl | exact Hp | exact Hv | done | done | | done | done | done | done | done].
  simpl. rewrite Hf. apply map_eq. intros k. destruct (decide (k = id)) as [->|Hk].
  - by rewrite lookup_alter_eq, Hl, lookup_insert_eq.
  - by rewrite lookup_alter_ne, lookup_insert_ne.
Qed.

Lemma signal_change_same db db' : form_change db db' -> form_change db (signal_change db').
Proof. destruct 1; [eapply ChangeQuiet | eapply ChangeOpen | eapply ChangeSave]; done. Qed.

Lemma same_change db : form_change db db.
Proof. apply ChangeQuiet; [done | done|]. split; [lia | done]. Qed.

Lemma browse_change origin mount operation draft db : form_change db (browse origin mount operation draft db).2.
Proof.
  unfold form_browser_operation. destruct (mount_key origin mount) as [id|]; [|apply same_change].
  destruct (_ || _); [apply same_change|]. unfold form_transaction, browser_transaction.
  destruct (load db id) as [row|] eqn:Hl; [|apply same_change]. apply load_lookup in Hl as (oseq & Hl & _). simpl.
  destruct (f_operations db !! (id, operation)) as [old|] eqn:Hop; [case_bool_decide; apply same_change|].
  destruct (_ || _) eqn:Hst; [|apply same_change].
  destruct (match draft with Some _ => _ | None => _ end) as [[]|]; [|apply same_change]. simpl.
  set (row' := browse_row row operation draft).
  destruct (save _ id row') as [[r db']|] eqn:Hs; [|apply same_change]. simpl. apply signal_change_same.
  eapply save_change in Hs as [Hs _]; [exact Hs | exact Hl | | by destruct draft | by destruct draft | done | done | | |].
  - unfold form_pending. apply orb_true_iff in Hst as [->|Hst]; [done|]. apply andb_true_iff in Hst as [_ ->]. by rewrite orb_true_r.
  - simpl. by apply insert_subseteq.
  - simpl. intros k Hk. destruct (decide (k = (id, operation))) as [->|Hne]; [by right|]. rewrite lookup_insert_ne in Hk by done. by left.
  - subst row'. destruct draft; simpl; [intros a [= <-]; right; by rewrite lookup_insert_eq | by left].
Qed.

Lemma settle_row_pending row settlement row' : settle_row row settlement = inr row' ->
  form_pending row = true /\ sf_opening row' = sf_opening row /\ sf_sequence row' = sf_sequence row /\ sf_attempt_id row' = sf_attempt_id row.
Proof.
  unfold settle_row, form_pending. destruct settlement; repeat case_bool_decide; simpl; intros [= <-]; done.
Qed.

Lemma settle_change origin mount settlement db : form_change db (settle origin mount settlement db).2.
Proof.
  unfold settle_actor_form. destruct (mount_key origin mount) as [id|]; [|apply same_change].
  unfold form_transaction, settle_transaction. destruct (load db id) as [row|] eqn:Hl; [|apply same_change].
  apply load_lookup in Hl as (oseq & Hl & _). simpl. destruct (settle_row row settlement) as [applied|row'] eqn:Hr; [apply same_change|].
  destruct (settle_row_pending _ _ _ Hr) as (Hp & Ho & Hs & Ha).
  destruct (save db id row') as [[r db']|] eqn:Hsave; [|apply same_change]. simpl. apply signal_change_same.
  eapply save_change in Hsave as [Hc _]; [exact Hc | exact Hl | done | done | done | done | done | done | by left|].
  intros a Hat. left. congruence.
Qed.

Lemma open_change store_id authority opening db : form_change db (open_form store_id authority opening db).2.
Proof.
  assert (Hm : forall m, form_change db (db <| f_actor ::= (fun a => a <| a_media := m |>) |>)) by (intros m; by apply ChangeQuiet).
  unfold open_actor_form. destruct (mount_key _ _) as [id|] eqn:Hk; [|apply same_change].
  destruct (valid_form _ _ _ _) as [[]|]; [|apply same_change].
  destruct (retain_form_media _ _ _ _ _ _) as [[form|e] m]; [|apply Hm]. cbv zeta.
  destruct (negb _); [apply Hm|]. destruct (negb _); [apply Hm|].
  unfold form_transaction, open_transaction. destruct (map_err _ _) as [[]|]; simpl; try apply Hm.
  destruct (f_forms db !! id) as [x|] eqn:Hl.
  - destruct (load _ id) as [row|]; [|apply Hm]. simpl. destruct (opening_eqb _ _); apply Hm.
  - destruct (row_valid _) as [[]|] eqn:Hv; [|apply Hm]. simpl. apply signal_change_same.
    eapply (ChangeOpen _ _ id (opening <| fo_form := form |>)); [exact Hl | exact Hk | exact Hv | done | done | done|].
    destruct (add_event_grows (f_actor db <| a_media := m |>) (FormOpened (opening <| fo_form := form |>))) as [Hg _]. done.
Qed.

(** What a restart does to the rows it found. *)
Lemma restart_changes rows : forall db, NoDup rows.*1 -> Forall (fun x => f_forms db !! x.1 = Some x.2 /\ form_pending x.2.2 = true) rows ->
  forall db', fold_result (interrupt_one parse_svg view_bytes form_bytes draft_bytes errors_bytes row_bytes) db rows = Ok db' -> rtc form_change db db'.
Proof.
  induction rows as [|[id [oseq old]] rows IH]; intros db Hnd Hrows db'; simpl; [by intros [= <-]|].
  apply Forall_cons in Hrows as [[Hl Hp] Hrows]. apply NoDup_cons in Hnd as [Hid Hnd]. simpl in *.
  unfold interrupt_one at 1. simpl. destruct (save db id _) as [[r db1]|] eqn:Hs; [|done]. simpl. intros Hf.
  pose proof Hs as Hs'. eapply save_change in Hs as [Hc _]; [| exact Hl | done | done | done | done | done | done | by left | by left].
  eapply rtc_l; [exact Hc|]. eapply IH; [done | | exact Hf].
  rewrite Forall_forall in Hrows |- *. intros x Hx. destruct (Hrows x Hx) as [Hlx Hpx]. split; [|done].
  unfold save_form in Hs'. apply rbind_Ok in Hs' as ([] & _ & Hs'). injection Hs' as _ <-. simpl.
  rewrite lookup_alter_ne; [done|]. intros ->. apply Hid, list_elem_of_fmap. by exists x.
Qed.

Lemma pending_rows_spec db rows : rows ≡ₚ pending_rows db ->
  NoDup rows.*1 /\ Forall (fun x => f_forms db !! x.1 = Some x.2 /\ form_pending x.2.2 = true) rows.
Proof.
  intros Hp. split.
  - rewrite Hp. unfold pending_rows. assert (Hn := NoDup_fst_map_to_list (f_forms db)). revert Hn. generalize (map_to_list (f_forms db)). intros l.
    induction l as [|x l IH]; csimpl; [done|]. intros [Hx Hn]%NoDup_cons. destruct (form_pending x.2.2); [|by apply IH]. csimpl. constructor; [|by apply IH].
    intros Hin. apply Hx. apply list_elem_of_fmap in Hin as (y & -> & Hy). apply list_elem_of_In, filter_In in Hy as [Hy _].
    apply list_elem_of_fmap. exists y. split; [done | by apply list_elem_of_In].
  - rewrite Hp. apply Forall_forall. intros [id x] Hx. apply list_elem_of_In, filter_In in Hx as [Hx Hpx]. split; [|done].
    by apply elem_of_map_to_list, list_elem_of_In.
Qed.

Lemma rtc_signal db db' : rtc form_change db db' -> rtc form_change db (signal_change db').
Proof. intros H. eapply rtc_r; [exact H|]. apply signal_change_same, same_change. Qed.

Lemma step_changes db db' : form_step db db' -> rtc form_change db db'.
Proof.
  destruct 1 as [store_id authority opening|origin mount operation draft|origin mount operation|origin mount attempt errors
    |origin mount attempt presentation|origin mount|rows Hp|actor Hl Hw].
  - apply rtc_once, open_change.
  - unfold submit_actor_form. destruct (read_draft draft); [apply rtc_once, browse_change | done].
  - apply rtc_once, browse_change.
  - unfold reject_actor_form. destruct (parse_errors _ _ _); [apply rtc_once, settle_change | done].
  - unfold commit_actor_form. destruct (read_view presentation) as [v|]; [|done]. destruct (valid_view _ _ _); [|done].
    destruct (keep_view _ _ _ _ _ _) as [[answer|e] m]; simpl.
    + eapply rtc_l; [|apply rtc_once, settle_change]. by apply ChangeQuiet.
    + apply rtc_once. by apply ChangeQuiet.
  - apply rtc_once, settle_change.
  - unfold interrupt_actor_forms_for_restart. destruct (fold_result _ db rows) as [db'|] eqn:Hf; [|done].
    destruct (pending_rows_spec _ _ Hp) as [Hnd Hrows]. simpl. destruct (0 <? length rows)%nat; [apply rtc_signal|]; by eapply restart_changes.
  - apply rtc_once. by apply ChangeQuiet.
Qed.

Lemma steps_changes db db' : rtc form_step db db' -> rtc form_change db db'.
Proof. induction 1; [done|]. etransitivity; [by apply step_changes | done]. Qed.

(** ** The invariant *)

(** What a stored row satisfies, its size apart. *)
Definition row_good (r : StoredActorForm) : Prop :=
  validate_execution (fo_execution (sf_opening r)) = Ok tt /\ state_ok r = true /\ 0 < sf_sequence r <= sf_revision r
  /\ valid_form parse_svg view_bytes form_bytes (fo_form (sf_opening r)) = Ok tt
  /\ bounded_errors errors_bytes (sf_errors r) = Ok (sf_errors r)
  /\ match sf_draft r with Some d => valid_draft draft_bytes (fo_form (sf_opening r)) d = Ok tt | None => True end
  /\ match sf_answer r with Some v => valid_view parse_svg view_bytes v = Ok tt | None => True end.

Lemma row_valid_iff r : row_valid r = Ok tt <->
  is_ok (mount_key (fo_origin (sf_opening r)) (fo_mount_id (sf_opening r))) = true /\ row_good r /\ (row_bytes r <= MAX_FORM_ROW_BYTES)%N.
Proof.
  unfold validate_row, row_good. destruct (mount_key _ _) as [id|]; simpl; [|naive_solver].
  destruct (validate_execution _) as [[]|]; simpl; [|naive_solver].
  destruct (state_ok r); simpl; [|naive_solver].
  destruct (Z.leb_spec (sf_sequence r) 0), (Z.ltb_spec (sf_revision r) (sf_sequence r)); simpl; try (split; [done | lia]).
  destruct (N.ltb_spec MAX_FORM_ROW_BYTES (row_bytes r)); simpl; [split; [done | lia]|].
  destruct (valid_form _ _ _ _) as [[]|]; simpl; [|naive_solver].
  unfold bounded_errors. destruct (_ || _); simpl; [naive_solver|].
  destruct (sf_draft r) as [d|]; [destruct (valid_draft _ _ _) as [[]|]; simpl; [|naive_solver]|];
    (destruct (sf_answer r) as [v|]; [destruct (valid_view _ _ _) as [[]|]|]); simpl; naive_solver lia.
Qed.

Record forms_good (db : FormsDb) : Prop := {
  good_journal : journal_wf (f_actor db);
  good_rows : forall id x, f_forms db !! id = Some x ->
    x.1 = sf_sequence x.2 /\ mount_key (fo_origin (sf_opening x.2)) (fo_mount_id (sf_opening x.2)) = Ok id
    /\ row_good x.2 /\ sf_revision x.2 <= a_last (f_actor db);
  good_operations : forall id operation, is_Some (f_operations db !! (id, operation)) -> is_Some (f_forms db !! id);
  good_attempts : forall id x a, f_forms db !! id = Some x -> sf_attempt_id x.2 = Some a -> is_Some (f_operations db !! (id, a));
  good_sequences : forall id1 id2 x1 x2, f_forms db !! id1 = Some x1 -> f_forms db !! id2 = Some x2 -> x1.1 = x2.1 -> id1 = id2
}.

(** Encoding what was read back gives the same text. *)
Context (form_bytes_reread : forall f, form_bytes (reread_form f) = form_bytes f).
Context (draft_bytes_reread : forall d, draft_bytes (reread_draft d) = draft_bytes d).

Lemma valid_form_reread f : valid_form parse_svg view_bytes form_bytes (reread_form f) = valid_form parse_svg view_bytes form_bytes f.
Proof. unfold valid_form, validate_form. rewrite form_bytes_reread. simpl. by rewrite form_go_reread. Qed.

Lemma size_reread d : size (reread_draft d) = size d.
Proof. apply map_size_fmap. Qed.

Lemma valid_draft_reread f d : valid_draft draft_bytes f d = Ok tt -> valid_draft draft_bytes (reread_form f) (reread_draft d) = Ok tt.
Proof.
  unfold valid_draft, validate_draft. rewrite draft_bytes_reread, size_reread. destruct (_ || _); [done|].
  destruct (draft_go d (root f)) eqn:Hg; [|done]. intros _. simpl. by rewrite draft_go_reread.
Qed.

Lemma row_good_stored r revision : row_good r -> sf_sequence r <= revision -> row_good (reread (r <| sf_revision := revision |>)).
Proof.
  intros (He & Hs & Hseq & Hf & Hb & Hd & Ha) Hr. unfold row_good. simpl. split; [done|]. split.
  { revert Hs. unfold state_ok, submission, no_submission. simpl. destruct (sf_draft r); simpl; done. }
  split; [lia|]. split; [by rewrite valid_form_reread|]. split; [done|]. split; [|done].
  destruct (sf_draft r); simpl; [by apply valid_draft_reread | done].
Qed.

Lemma rows_below db id x : forms_good db -> f_forms db !! id = Some x -> x.1 <= a_last (f_actor db).
Proof. intros Hg Hl. destruct (good_rows _ Hg _ _ Hl) as (-> & _ & (_ & _ & Hs & _) & Hr). lia. Qed.

(** Storing a row under an identity keeps the invariant. *)
Lemma good_store db db' id x :
  forms_good db -> f_forms db' = <[id := x]> (f_forms db) ->
  journal_grows (f_actor db) (f_actor db') ->
  x.1 = sf_sequence x.2 -> mount_key (fo_origin (sf_opening x.2)) (fo_mount_id (sf_opening x.2)) = Ok id -> row_good x.2 ->
  sf_revision x.2 <= a_last (f_actor db') ->
  (forall id' y, id' <> id -> f_forms db !! id' = Some y -> y.1 <> x.1) ->
  f_operations db ⊆ f_operations db' ->
  (forall k, is_Some (f_operations db' !! k) -> is_Some (f_operations db !! k) \/ k.1 = id) ->
  (forall a, sf_attempt_id x.2 = Some a -> is_Some (f_operations db' !! (id, a))) -> forms_good db'.
Proof.
  intros Hg Hf [Hlast Hwf] Hx Hk Hr Hrev Hseq Hops Hnew Hatt. split.
  - apply Hwf, Hg.
  - intros id' y. rewrite Hf, lookup_insert_Some. intros [[<- <-]|[Hne Hl]]; [done|].
    destruct (good_rows _ Hg _ _ Hl) as (? & ? & ? & ?). repeat split; try done; try apply H1. lia.
  - intros id' operation Ho. rewrite Hf. destruct (decide (id = id')) as [->|Hne]; [by rewrite lookup_insert_eq|].
    rewrite lookup_insert_ne by done. destruct (Hnew _ Ho) as [Ho'|Ho']; [by eapply good_operations | simpl in Ho'; congruence].
  - intros id' y a. rewrite Hf, lookup_insert_Some. intros [[<- <-]|[Hne Hl]] Ha; [by apply Hatt|].
    destruct (good_attempts _ Hg _ _ _ Hl Ha) as [t Ht]. exists t. by eapply lookup_weaken.
  - intros id1 id2 x1 x2. rewrite Hf, !lookup_insert_Some. intros [[<- <-]|[Hn1 H1]] [[<- <-]|[Hn2 H2]] He; try done.
    + by destruct (Hseq _ _ (not_eq_sym Hn2) H2).
    + by destruct (Hseq _ _ (not_eq_sym Hn1) H1).
    + by eapply good_sequences.
Qed.

Lemma change_good db db' : form_change db db' -> forms_good db -> forms_good db'.
Proof.
  intros Hc Hg. destruct Hc as [Hf Ho [Hl Hw] | id opening Hn Hk Hv Hf Ho Hl Hj | id oseq old row Hold Hp Hv Hop Hsq Hf Hops Hnew Hatt Hl Hj].
  - split; [apply Hw, Hg | | rewrite Ho, Hf; apply Hg | rewrite Ho, Hf; apply Hg | rewrite Hf; apply Hg].
    intros id x. rewrite Hf. intros Hx. destruct (good_rows _ Hg _ _ Hx) as (? & ? & ? & ?). repeat split; try done; try apply H1. lia.
  - apply row_valid_iff in Hv as (_ & Hr & _).
    eapply (good_store db db' id); [done | exact Hf | done | done | done | | simpl; lia | | by rewrite Ho | rewrite Ho; by left | done].
    + apply (row_good_stored (new_row (a_last (f_actor db) + 1) opening)); [done | simpl; lia].
    + intros id' y _ Hy. apply rows_below in Hy; [|done]. simpl. lia.
  - apply row_valid_iff in Hv as (_ & Hr & _). destruct (good_rows _ Hg _ _ Hold) as (Hos & Hkey & Hgo & Hrev). simpl in *.
    eapply (good_store db db' id); [done | exact Hf | done | simpl; congruence | | | simpl; lia | | done | done | ].
    + simpl. by rewrite Hop.
    + apply row_good_stored; [done|]. rewrite Hsq. destruct Hgo as (_ & _ & Hs & _). lia.
    + intros id' y Hne Hy He. simpl in He. apply Hne. eapply good_sequences; [done | exact Hy | exact Hold | done].
    + simpl. intros a Ha. destruct (Hatt a Ha) as [Ha'|Ha']; [|done]. destruct (good_attempts _ Hg _ _ _ Hold Ha') as [t Ht]. exists t. by eapply lookup_weaken.
Qed.

Lemma changes_good db db' : rtc form_change db db' -> forms_good db -> forms_good db'.
Proof. induction 1; [done|]. intros Hg. by eapply IHrtc, change_good. Qed.

Lemma no_forms_good : forms_good no_forms.
Proof. split; [by repeat constructor | | | |]; intros; simpl in *; rewrite ?lookup_empty in *; try done; by destruct H. Qed.

Lemma runs_good db : rtc form_step no_forms db -> forms_good db.
Proof. intros Hs. eapply changes_good; [by apply steps_changes | apply no_forms_good]. Qed.

(** A form's row, and what reading it gives. *)
Lemma load_good db id : forms_good db ->
  load db id = match f_forms db !! id with
               | None => Err FaultFormUnavailable
               | Some x => if (row_bytes x.2 <=? MAX_FORM_ROW_BYTES)%N then Ok x.2 else Err FaultForm
               end.
Proof.
  intros Hg. unfold load_form. destruct (f_forms db !! id) as [[oseq r]|] eqn:Hl; [|done]. simpl.
  destruct (good_rows _ Hg _ _ Hl) as (_ & Hk & Hr & _). simpl in *.
  destruct (N.leb_spec (row_bytes r) MAX_FORM_ROW_BYTES).
  - rewrite (proj2 (row_valid_iff r)) by (by rewrite Hk). simpl. rewrite Hk. simpl. by rewrite bool_decide_eq_true_2.
  - unfold validate_row. rewrite Hk. simpl. destruct Hr as (-> & -> & Hseq & _). simpl.
    rewrite (proj2 (Z.leb_gt _ _)), (proj2 (Z.ltb_ge _ _)), (proj2 (N.ltb_lt _ _)) by lia. done.
Qed.

(** ** The operations implement the lease *)

Definition run_op (o : ActorOutputOrigin) (mount : string) (op : FormOp) (db : FormsDb) : result StoreFault bool * FormsDb :=
  match op with
  | OpBrowse operation draft => map_fst (fun _ => true) (browse o mount operation draft db)
  | OpSettle settlement => settle o mount settlement db
  end.

Definition op_named (op : FormOp) : Prop :=
  match op with OpBrowse operation _ => operation <> "" /\ (String.length operation <= 256)%nat | _ => True end.

(** The form or the row an operation would store is refused. *)
Definition op_refused (row : StoredActorForm) (op : FormOp) (fault : StoreFault) : Prop :=
  match op with
  | OpBrowse operation draft =>
      (exists d, draft = Some d /\ valid_draft draft_bytes (fo_form (sf_opening row)) d = Err fault)
      \/ row_valid (browse_row row operation draft) = Err fault
  | OpSettle settlement => exists row', settle_row row settlement = inr row' /\ row_valid row' = Err fault
  end.

(** Every other mount is left alone. *)
Definition elsewhere (id : Mount) (db db' : FormsDb) : Prop := forall id' l, id' <> id -> represents db id' l -> represents db' id' l.

Lemma elsewhere_refl id db : elsewhere id db db.
Proof. by intros id' l _. Qed.
#[local] Hint Resolve elsewhere_refl : core.

Lemma reread_draft_idem d : reread_draft (reread_draft d) = reread_draft d.
Proof.
  unfold reread_draft. rewrite <- map_fmap_compose. apply map_fmap_ext. intros k v _. simpl.
  destruct v as [| |x| | |]; simpl; try done. destruct (is_finite x) eqn:Hx; simpl; by rewrite ?Hx.
Qed.

Lemma submitted_stored r revision : submitted (reread (r <| sf_revision := revision |>)) = submitted r.
Proof. unfold submitted. simpl. destruct (sf_attempt_id r); [|done]. destruct (sf_draft r); [|done]. simpl. by rewrite reread_draft_idem. Qed.

Lemma attempt_of_submission r : state_ok r = true -> fst <$> submitted r = sf_attempt_id r.
Proof.
  unfold state_ok, submitted, submission, no_submission.
  destruct (sf_attempt_id r) as [a|], (sf_draft r) as [d|]; try done; simpl; destruct (sf_state r); rewrite ?andb_false_r; done.
Qed.

Lemma updates_app id l1 l2 : updates id (l1 ++ l2) = (updates id l1 + updates id l2)%nat.
Proof. unfold updates. by rewrite List.filter_app, length_app. Qed.

Lemma save_refused db id row fault : save db id row = Err fault -> row_valid row = Err fault.
Proof. unfold save_form. destruct (row_valid row) as [[]|e]; simpl; [done | by intros [= <-]]. Qed.

(** Saving a row represents the lease of that row, and no other mount's changes. *)
Lemma save_represents db id oseq old row row' db' operations :
  f_forms db !! id = Some (oseq, old) -> mount_key (fo_origin (sf_opening row)) (fo_mount_id (sf_opening row)) = Ok id ->
  (forall operation, operations !! operation = f_operations db !! (id, operation)) ->
  save db id row = Ok (row', db') ->
  represents db' id {| l_state := sf_state row; l_submission := submitted row; l_errors := sf_errors row; l_answer := sf_answer row;
                       l_operations := operations; l_changes := S (updates id (a_events (f_actor db))) |}.
Proof.
  intros Hl Hk Hops Hs. unfold save_form in Hs. apply rbind_Ok in Hs as ([] & Hv & Hs). injection Hs as _ <-.
  unfold mount_key in Hk. inv_ok. subst id.
  exists oseq, (reread (row <| sf_revision := a_last (f_actor db) + 1 |>)). simpl.
  split; [by rewrite lookup_alter_eq, Hl|]. split; [done|]. split; [symmetry; apply (submitted_stored row)|].
  split; [done|]. split; [done|]. split; [done|]. rewrite updates_app. unfold updates at 3. simpl.
  rewrite bool_decide_eq_true_2 by done. simpl. lia.
Qed.

Lemma save_elsewhere db id row row' db' :
  mount_key (fo_origin (sf_opening row)) (fo_mount_id (sf_opening row)) = Ok id -> save db id row = Ok (row', db') -> elsewhere id db db'.
Proof.
  intros Hk Hs. unfold save_form in Hs. apply rbind_Ok in Hs as ([] & Hv & Hs). injection Hs as _ <-.
  unfold mount_key in Hk. inv_ok. subst id.
  intros id' l Hne (oseq' & row1 & Hl' & Hst & Hsub & He & Ha & Ho & Hc). exists oseq', row1. simpl.
  split; [by rewrite lookup_alter_ne|]. split_and!; try done. rewrite updates_app, Hc. unfold updates at 3. simpl.
  rewrite bool_decide_eq_false_2 by congruence. simpl. lia.
Qed.

Lemma mount_key_id o m id : mount_key o m = Ok id -> id = (o, m).
Proof. unfold mount_key. intros H. by inv_ok. Qed.

Lemma browse_represents o mount operation draft db l row :
  represents db (o, mount) l -> load db (o, mount) = Ok row -> op_named (OpBrowse operation draft) ->
  let (r, db') := run_op o mount (OpBrowse operation draft) db in
  match lease_step payload_text l (OpBrowse operation draft) with
  | None => db' = db /\ (r = Err FaultConflictingForm \/ r = Err FaultFormUnavailable)
  | Some (b, l') =>
      r = Ok b /\ represents db' (o, mount) l' /\ elsewhere (o, mount) db db'
      \/ l_changes l' = S (l_changes l) /\ db' = db /\ exists fault, r = Err fault /\ op_refused row (OpBrowse operation draft) fault
  end.
Proof.
  intros Hrep Hload [Hne Hlen]. pose proof Hrep as (oseq & row0 & Hl & Hst & Hsub & Herr & Hans & Hops & Hch).
  pose proof (load_lookup _ _ _ Hload) as (oseq' & Hl' & Hv & Hk). assert (row0 = row) as -> by congruence.
  assert (Hmk : mount_key o mount = Ok (o, mount)) by (pose proof (mount_key_id _ _ _ Hk) as [= -> ->]; done).
  unfold run_op, form_browser_operation. rewrite Hmk, bool_decide_eq_false_2, (proj2 (Nat.ltb_ge _ _)) by done. simpl.
  unfold browser_transaction. rewrite Hload. simpl. rewrite Hops.
  destruct (f_operations db !! (o, mount, operation)) as [old|] eqn:Hop.
  { case_bool_decide; simpl; [left; done | split; [done | by left]]. }
  rewrite <- Hst. destruct (_ || _) eqn:Hok; simpl; [|split; [done | by right]].
  destruct (match draft with Some d => _ | None => _ end) as [[]|fault] eqn:Hd; simpl.
  2: { right. split; [done|]. split; [done|]. exists fault. split; [done|]. left. destruct draft as [d|]; [by exists d | done]. }
  destruct (save _ _ _) as [[row' db']|fault] eqn:Hs; simpl.
  2: { right. split; [done|]. split; [done|]. exists fault. split; [done|]. right. by eapply save_refused. }
  left. split; [done|].
  assert (Hkey : mount_key (fo_origin (sf_opening (browse_row row operation draft))) (fo_mount_id (sf_opening (browse_row row operation draft))) = Ok (o, mount))
    by by destruct draft.
  assert (He := save_elsewhere _ _ _ _ _ Hkey Hs).
  eapply (save_represents _ _ oseq row _ _ _ (<[operation := payload_text draft]> (l_operations l))) in Hs as Hr; [| done | by destruct draft |].
  2: { intros op'. simpl. destruct (decide (operation = op')) as [->|Hn].
       - by rewrite !lookup_insert_eq.
       - rewrite !lookup_insert_ne by congruence. apply Hops. }
  split.
  - destruct Hr as (oseq1 & row1 & ? & Hst1 & Hsub1 & Herr1 & Hans1 & Hops1 & Hch1). exists oseq1, row1. simpl in *. rewrite Hch. split; [done|].
    destruct draft as [d|]; simpl in *; split_and!; try done; try (etransitivity; [exact Hans | exact Hans1]).
    etransitivity; [exact Hsub | exact Hsub1].
  - intros id' l1 Hid (oseq1 & row1 & Hrest). apply He; [done|]. exists oseq1, row1. simpl. destruct Hrest as (? & ? & ? & ? & ? & Ho1 & ?).
    split_and!; try done. intros op'. rewrite lookup_insert_ne by congruence. apply Ho1.
Qed.

Lemma settle_represents o mount settlement db l row :
  represents db (o, mount) l -> load db (o, mount) = Ok row ->
  let (r, db') := run_op o mount (OpSettle settlement) db in
  match lease_step payload_text l (OpSettle settlement) with
  | None => False
  | Some (b, l') =>
      r = Ok b /\ represents db' (o, mount) l' /\ elsewhere (o, mount) db db'
      \/ l_changes l' = S (l_changes l) /\ db' = db /\ exists fault, r = Err fault /\ op_refused row (OpSettle settlement) fault
  end.
Proof.
  intros Hrep Hload. pose proof Hrep as (oseq & row0 & Hl & Hst & Hsub & Herr & Hans & Hops & Hch).
  pose proof (load_lookup _ _ _ Hload) as (oseq' & Hl' & Hv & Hk). assert (row0 = row) as -> by congruence.
  assert (Hmk : mount_key o mount = Ok (o, mount)) by (pose proof (mount_key_id _ _ _ Hk) as [= -> ->]; done).
  assert (Hatt : fst <$> l_submission l = sf_attempt_id row).
  { rewrite Hsub. apply attempt_of_submission. by apply row_valid_iff in Hv as (_ & (_ & ? & _) & _). }
  (* an unchanged row *)
  assert (Hquiet : forall b, represents db (o, mount) l /\ elsewhere (o, mount) db db) by done.
  (* a changed one *)
  assert (Hchange : forall row' l', settle_row row settlement = inr row' ->
    l' = {| l_state := sf_state row'; l_submission := submitted row'; l_errors := sf_errors row'; l_answer := sf_answer row';
            l_operations := l_operations l; l_changes := S (l_changes l) |} ->
    let (r, db') := run_op o mount (OpSettle settlement) db in
    r = Ok true /\ represents db' (o, mount) l' /\ elsewhere (o, mount) db db'
    \/ l_changes l' = S (l_changes l) /\ db' = db /\ exists fault, r = Err fault /\ op_refused row (OpSettle settlement) fault).
  { intros row' l' Hr ->. unfold run_op, settle_actor_form. rewrite Hmk. unfold settle_transaction. rewrite Hload. simpl. rewrite Hr.
    destruct (save db (o, mount) row') as [[r1 db']|fault] eqn:Hs; simpl.
    - left. split; [done|]. destruct (settle_row_pending _ _ _ Hr) as (_ & Hop & _ & _).
      rewrite <- Hop in Hk. split; [|exact (save_elsewhere _ _ _ _ _ Hk Hs)].
      eapply (save_represents _ _ oseq row _ _ _ (l_operations l)) in Hs; [| done | done | done]. by rewrite Hch.
    - right. split; [done|]. split; [done|]. exists fault. split; [done|]. exists row'. split; [done|]. by eapply save_refused. }
  unfold run_op, settle_actor_form, settle_transaction in *. rewrite Hmk, Hload in *. simpl rbind in *.
  destruct settlement as [attempt errors|attempt answer|]; simpl lease_step; unfold settle_row in *; rewrite ?Hatt, ?Hst, ?Herr, ?Hans.
  - specialize (Hchange (row <| sf_state := FormOpen |> <| sf_errors := errors |>)).
    destruct (bool_decide (sf_attempt_id row = Some attempt)); simpl in *; [|by left].
    destruct (sf_state row) eqn:Hs; simpl in *; try (by left); [by destruct (bool_decide (sf_errors row = errors)); left|].
    apply Hchange; [done|]. by rewrite Hsub.
  - specialize (Hchange (row <| sf_state := FormAnswered |> <| sf_answer := Some answer |> <| sf_errors := [] |>)).
    destruct (bool_decide (sf_attempt_id row = Some attempt)); simpl in *; [|by left].
    destruct (sf_state row) eqn:Hs; simpl in *; try (by left); [|by destruct (bool_decide (sf_answer row = Some answer)); left].
    apply Hchange; [done|]. by rewrite Hsub.
  - specialize (Hchange (row <| sf_state := FormCancelled |>)).
    destruct (sf_state row) eqn:Hs; simpl in *; try (by left).
    all: apply Hchange; [done|]; by rewrite Hsub.
Qed.

(** ** Final forms *)

Lemma change_final db db' id x : form_change db db' -> f_forms db !! id = Some x -> form_pending x.2 = false -> f_forms db' !! id = Some x.
Proof.
  intros Hc Hl Hp. destruct Hc as [-> _ _|id' opening Hn _ _ -> _ _ _|id' oseq old row Ho Hpo _ _ _ -> _ _ _ _ _]; [done | |].
  - rewrite lookup_insert_ne; [done | congruence].
  - rewrite lookup_insert_ne; [done|]. intros ->. rewrite Hl in Ho. injection Ho as ->. simpl in Hp. congruence.
Qed.

Lemma changes_final db db' id x : rtc form_change db db' -> f_forms db !! id = Some x -> form_pending x.2 = false -> f_forms db' !! id = Some x.
Proof. induction 1; [done|]. intros Hl Hp. apply IHrtc; [|done]. by eapply change_final. Qed.

(** ** Restart and opening, as leases *)

Definition interrupted (l : Lease) : Lease :=
  {| l_state := FormInterrupted; l_submission := l_submission l; l_errors := l_errors l; l_answer := l_answer l;
     l_operations := l_operations l; l_changes := S (l_changes l) |}.

Lemma restart_represents rows : forall db db', forms_good db -> NoDup rows.*1 ->
  Forall (fun x => f_forms db !! x.1 = Some x.2 /\ form_pending x.2.2 = true) rows ->
  fold_result (interrupt_one parse_svg view_bytes form_bytes draft_bytes errors_bytes row_bytes) db rows = Ok db' ->
  forall id l, represents db id l -> represents db' id (if bool_decide (id ∈ rows.*1) then interrupted l else l).
Proof.
  induction rows as [|[id0 [oseq old]] rows IH]; intros db db' Hg Hnd Hrows; simpl.
  { by intros [= <-]. }
  apply Forall_cons in Hrows as [[Hl Hp] Hrows]. csimpl in *. apply NoDup_cons in Hnd as [Hid Hnd].
  unfold interrupt_one at 1. simpl. destruct (save db id0 _) as [[r db1]|] eqn:Hs; [|done]. simpl. intros Hf id l Hrep.
  assert (Hc : form_change db db1) by (eapply save_change in Hs as [Hc _]; [exact Hc | exact Hl | done..| by left | by left]).
  assert (Hrows1 : Forall (fun x => f_forms db1 !! x.1 = Some x.2 /\ form_pending x.2.2 = true) rows).
  { rewrite Forall_forall in Hrows |- *. intros x Hx. destruct (Hrows x Hx) as [Hlx Hpx]. split; [|done].
    unfold save_form in Hs. apply rbind_Ok in Hs as ([] & _ & Hs). injection Hs as _ <-. simpl.
    rewrite lookup_alter_ne; [done|]. intros ->. apply Hid, list_elem_of_fmap. by exists x. }
  destruct (good_rows _ Hg _ _ Hl) as (_ & Hk & _). simpl in Hk.
  assert (Hg1 := change_good _ _ Hc Hg). specialize (IH _ _ Hg1 Hnd Hrows1 Hf).
  destruct (decide (id = id0)) as [->|Hne].
  - destruct Hrep as (oseq' & row' & Hl' & Hst & Hsub & He & Ha & Ho & Hch). rewrite Hl in Hl'. injection Hl' as <- <-.
    eapply (save_represents _ _ oseq old _ _ _ (l_operations l)) in Hs as Hr; [| done | done | exact Ho].
    apply IH in Hr. rewrite bool_decide_eq_false_2 in Hr by done. rewrite bool_decide_eq_true_2 by by left.
    unfold interrupted. rewrite Hsub, He, Ha, Hch. exact Hr.
  - eapply save_elsewhere in Hs as He; [|exact Hk]. assert (Hr := He id l Hne Hrep).
    apply IH in Hr. erewrite bool_decide_ext; [exact Hr|]. rewrite elem_of_cons. naive_solver.
Qed.

(** What is still pending after a restart was pending before, and not found. *)
Lemma restart_leaves rows : forall db db',
  fold_result (interrupt_one parse_svg view_bytes form_bytes draft_bytes errors_bytes row_bytes) db rows = Ok db' ->
  forall id x, f_forms db' !! id = Some x -> form_pending x.2 = true -> id ∉ rows.*1 /\ f_forms db !! id = Some x.
Proof.
  induction rows as [|[id0 [oseq old]] rows IH]; intros db db'; simpl.
  { intros [= <-] id x Hl _. split; [apply not_elem_of_nil | done]. }
  unfold interrupt_one at 1. simpl. destruct (save db id0 _) as [[r db1]|] eqn:Hs; [|done]. simpl. intros Hf id x Hl Hp.
  destruct (IH _ _ Hf id x Hl Hp) as [Hn Hl1]. unfold save_form in Hs. apply rbind_Ok in Hs as ([] & _ & Hs). injection Hs as _ <-.
  simpl in Hl1. destruct (decide (id = id0)) as [->|Hne].
  - rewrite lookup_alter_eq in Hl1. destruct (f_forms db !! id0) as [y|]; [|done]. injection Hl1 as <-. done.
  - rewrite lookup_alter_ne in Hl1 by done. split; [|done]. by apply not_elem_of_cons.
Qed.

(** An opened mount starts a fresh lease. *)
Lemma open_represents store_id authority opening db row db' :
  forms_good db -> f_forms db !! (fo_origin opening, fo_mount_id opening) = None ->
  open_form store_id authority opening db = (Ok row, db') ->
  represents db' (fo_origin opening, fo_mount_id opening)
    {| l_state := FormOpen; l_submission := None; l_errors := []; l_answer := None; l_operations := ∅;
       l_changes := updates (fo_origin opening, fo_mount_id opening) (a_events (f_actor db)) |}.
Proof.
  intros Hg Hn. unfold open_actor_form. destruct (mount_key _ _) as [id|] eqn:Hk; [|done]. apply mount_key_id in Hk as ->.
  destruct (valid_form _ _ _ _) as [[]|]; [|done]. destruct (retain_form_media _ _ _ _ _ _) as [[form|e] m]; [|done]. cbv zeta.
  destruct (negb _); [done|]. destruct (negb _); [done|].
  unfold form_transaction, open_transaction. destruct (map_err _ _) as [[]|]; simpl; try done. rewrite Hn.
  destruct (row_valid _) as [[]|]; [|done]. simpl. intros [= <- <-]. simpl.
  eexists _, _. simpl. split; [apply lookup_insert_eq|]. split_and!; try done.
  - intros operation. rewrite lookup_empty. symmetry. apply eq_None_not_Some. intros Hs. apply (good_operations _ Hg) in Hs. rewrite Hn in Hs. by destruct Hs.
  - rewrite updates_app. unfold updates at 3. simpl. lia.
Qed.
End runs.
