(* ===== verification/FormClaims.v ===== *)
(** The claims about forms: what a reader sees, the lease the operations
    implement, that settled forms are final, and that the index of
    pending forms can be read completely. *)

From S2P Require Import Prelude Json SchemaModel Redaction Usage Observation Sse Failure StoreDb Lists Presentation ActorMedia Paging ActorOutput ActorForms.

Section claims.
Context (parse_svg : string -> result string (string * option string)) (view_bytes : View -> N).
Context (base64_decode : string -> option string) (blake3 : string -> string).
Context (form_bytes : FormSpec -> N) (draft_bytes : FormDraft -> N) (errors_bytes : list FormError -> N) (row_bytes : StoredActorForm -> N).
Context (pending_bytes : PendingActorForm -> N) (empty_page_bytes : ActorOutputOrigin -> Z -> N).
Context (payload_text : option FormDraft -> string).
Context (read_draft : value -> option FormDraft) (read_errors : value -> option (list FormError)) (read_view : value -> option View).
(** Encoding what was read back gives the same text. *)
Context (form_bytes_reread : forall f, form_bytes (reread_form f) = form_bytes f).
Context (draft_bytes_reread : forall d, draft_bytes (reread_draft d) = draft_bytes d).

Abbreviation step := (form_step parse_svg view_bytes base64_decode blake3 form_bytes draft_bytes errors_bytes row_bytes payload_text read_draft read_errors read_view).
Abbreviation good := (forms_good parse_svg view_bytes form_bytes draft_bytes errors_bytes).
Abbreviation load := (load_form parse_svg view_bytes form_bytes draft_bytes errors_bytes row_bytes).
Abbreviation open_form := (open_actor_form parse_svg view_bytes base64_decode blake3 form_bytes draft_bytes errors_bytes row_bytes).
Abbreviation restart := (interrupt_actor_forms_for_restart parse_svg view_bytes form_bytes draft_bytes errors_bytes row_bytes).
Abbreviation run := (run_op parse_svg view_bytes form_bytes draft_bytes errors_bytes row_bytes payload_text).

(** C33. What a run of the Store leaves in the table of forms. Every row sits
    under its own mount with a valid form, a draft and an answer valid for it,
    and fields that fit its state; it was opened before its last revision, no
    two forms share an opening, each recorded browser operation belongs to a
    mounted form, and the attempt of a row is a recorded operation. A mounted form can then
    be read exactly when its row's JSON is within the limit: saving checks that
    limit before the row takes its new revision number, so that a row one digit
    longer can be stored and no longer read. *)
Theorem forms_read_back db :
  rtc step no_forms db ->
  good db /\ forall o mount id, mount_key o mount = Ok id ->
    actor_form parse_svg view_bytes form_bytes draft_bytes errors_bytes row_bytes o mount db
    = match f_forms db !! id with
      | None => Err FaultFormUnavailable
      | Some x => if (row_bytes x.2 <=? MAX_FORM_ROW_BYTES)%N then Ok x.2 else Err FaultForm
      end.
Proof.
  intros Hs. assert (Hg : good db) by by eapply runs_good. split; [done|]. intros o mount id Hk.
  unfold actor_form. rewrite Hk. simpl. by apply load_good.
Qed.

(** C13. The operations on a form implement its lease. Opening an absent mount
    starts an open lease with nothing submitted. On a form that can be read, a
    browser operation or a settlement does what the lease says: a retried
    operation is answered without effect and a different one under the same
    name is refused; submissions are taken while the form is open, a dismissal
    also while it is submitted; an answer or a rejection counts only for the
    last attempt, and a repeated one is acknowledged. When the lease changes the row,
    the journal gets one more update and no other mount changes, unless the
    draft or the row that would be stored is invalid; then, as with every
    refusal, nothing changes. *)
Theorem form_refines_lease db :
  good db ->
  (forall store_id authority opening row db',
    f_forms db !! (fo_origin opening, fo_mount_id opening) = None -> open_form store_id authority opening db = (Ok row, db') ->
    represents db' (fo_origin opening, fo_mount_id opening)
      {| l_state := FormOpen; l_submission := None; l_errors := []; l_answer := None; l_operations := ∅;
         l_changes := updates (fo_origin opening, fo_mount_id opening) (a_events (f_actor db)) |})
  /\ forall o mount op l row, represents db (o, mount) l -> load db (o, mount) = Ok row -> op_named op ->
    let (r, db') := run o mount op db in
    match lease_step payload_text l op with
    | None => db' = db /\ (r = Err FaultConflictingForm \/ r = Err FaultFormUnavailable)
    | Some (b, l') =>
        r = Ok b /\ represents db' (o, mount) l' /\ elsewhere (o, mount) db db'
        \/ l_changes l' = S (l_changes l) /\ db' = db
           /\ exists fault, r = Err fault /\ op_refused parse_svg view_bytes form_bytes draft_bytes errors_bytes row_bytes row op fault
    end.
Proof.
  intros Hg. split; [intros; by eapply open_represents|].
  intros o mount [operation draft|settlement] l row Hr Hl Hn; [by apply browse_represents|].
  assert (H := settle_represents parse_svg view_bytes form_bytes draft_bytes errors_bytes row_bytes payload_text o mount settlement db l row Hr Hl).
  destruct (run o mount (OpSettle settlement) db) as [r db']. by destruct (lease_step payload_text l (OpSettle settlement)) as [[b l']|].
Qed.

(** C30. A settled form is final and a restart settles the rest. Whatever the
    Store does, the row of a form that is answered, dismissed, cancelled or
    interrupted never changes again. A restart that succeeds interrupts exactly
    the forms that were open or submitted, each with one published change and
    its draft kept, and returns their number; a second one finds none. *)
Theorem form_final db :
  good db ->
  (forall db' id x, rtc step db db' -> f_forms db !! id = Some x -> form_pending x.2 = false -> f_forms db' !! id = Some x)
  /\ (forall rows n db', rows ≡ₚ pending_rows db -> restart rows db = (Ok n, db') ->
      n = length (pending_rows db) /\ pending_rows db' = []
      /\ forall id l, represents db id l ->
         represents db' id (match l_state l with FormOpen | FormSubmitted => interrupted l | _ => l end)).
Proof.
  intros Hg. split.
  - intros db' id x Hs. eapply changes_final. by eapply steps_changes.
  - intros rows n db' Hp. unfold interrupt_actor_forms_for_restart.
    destruct (fold_result _ db rows) as [db1|] eqn:Hf; [|done]. intros [= <- <-].
    destruct (pending_rows_spec _ _ Hp) as [Hnd Hrows].
    assert (Hsame : forall id l, represents (if (0 <? length rows)%nat then signal_change db1 else db1) id l <-> represents db1 id l) by (by destruct (0 <? length rows)%nat).
    assert (Hl : forall id l, represents db id l -> represents db1 id (match l_state l with FormOpen | FormSubmitted => interrupted l | _ => l end)).
    { intros id l Hr. assert (H := restart_represents _ _ _ _ _ _ form_bytes_reread draft_bytes_reread rows db db1 Hg Hnd Hrows Hf id l Hr).
      destruct Hr as (oseq & row & Hl & Hst & _).
      assert (Hin : id ∈ rows.*1 <-> form_pending row = true).
      { rewrite list_elem_of_fmap. split.
        - intros ([id' x] & -> & Hx). rewrite Forall_forall in Hrows. apply Hrows in Hx as [Hx Hpx]. simpl in *. rewrite Hl in Hx. by injection Hx as <-.
        - intros Hpr. exists (id, (oseq, row)). split; [done|]. rewrite Hp. unfold pending_rows.
          apply list_elem_of_In, filter_In. split; [|done]. by apply list_elem_of_In, elem_of_map_to_list. }
      revert H. rewrite (bool_decide_ext _ (form_pending row = true) Hin). rewrite Hst. unfold form_pending.
      destruct (sf_state row); done. }
    split; [by rewrite Hp|]. split; [|intros id l Hr; apply Hsame, Hl, Hr].
    assert (Hforms : f_forms (if (0 <? length rows)%nat then signal_change db1 else db1) = f_forms db1) by by destruct (0 <? length rows)%nat.
    unfold pending_rows. rewrite Hforms. destruct (List.filter _ (map_to_list (f_forms db1))) as [|[id x] rest] eqn:Hfil; [done|]. exfalso.
    assert (Hin : In (id, x) (List.filter (fun y => form_pending y.2.2) (map_to_list (f_forms db1)))) by (rewrite Hfil; by left).
    apply filter_In in Hin as [Hin Hpx]. apply list_elem_of_In, elem_of_map_to_list in Hin.
    destruct (restart_leaves _ _ _ _ _ _ _ _ _ Hf id x Hin Hpx) as [Hn Hx]. apply Hn. apply list_elem_of_fmap. exists (id, x). split; [done|].
    rewrite Hp. apply list_elem_of_In, filter_In. split; [|done]. by apply list_elem_of_In, elem_of_map_to_list.
Qed.

(** ** The index of pending forms *)

#[local] Instance opening_leb_decision x y : Decision (opening_leb x y).
Proof. apply opening_leb_dec. Defined.
#[local] Instance opening_leb_total : Total opening_leb.
Proof. intros x y. unfold opening_leb. lia. Qed.
#[local] Instance opening_leb_trans : Transitive opening_leb.
Proof. intros x y z. unfold opening_leb. lia. Qed.

Lemma NoDup_filter_fmap {A B} (f : A -> B) (p : A -> bool) l : NoDup (f <$> l) -> NoDup (f <$> List.filter p l).
Proof.
  induction l as [|x l IH]; csimpl; [done|]. intros [Hx Hn]%NoDup_cons. destruct (p x); [|by apply IH]. csimpl. constructor; [|by apply IH].
  intros Hin. apply Hx. apply list_elem_of_fmap in Hin as (y & -> & Hy). apply list_elem_of_In, filter_In in Hy as [Hy _].
  apply list_elem_of_fmap. exists y. split; [done | by apply list_elem_of_In].
Qed.

Lemma strictly_sorted (l : list (Z * StoredActorForm)) : StronglySorted opening_leb l -> NoDup (fst <$> l) -> StronglySorted (fun x y => x.1 < y.1) l.
Proof.
  induction 1 as [|x l Hl IH Hx]; csimpl; [constructor|]. intros [Hn Hnd]%NoDup_cons. constructor; [by apply IH|].
  rewrite Forall_forall in Hx |- *. intros y Hy. specialize (Hx y Hy). unfold opening_leb in Hx.
  assert (x.1 <> y.1); [|lia]. intros He. apply Hn. rewrite He. apply list_elem_of_fmap. by exists y.
Qed.

Lemma sequences_distinct db : good db -> NoDup (fst <$> (snd <$> map_to_list (f_forms db))).
Proof.
  intros Hg. rewrite <- list_fmap_compose. apply NoDup_fmap_2_strong; [|apply NoDup_map_to_list].
  intros [id1 x1] [id2 x2] H1%elem_of_map_to_list H2%elem_of_map_to_list He. simpl in He.
  assert (id1 = id2) as -> by by eapply good_sequences. rewrite H1 in H2. by injection H2 as ->.
Qed.

(** The entry of a pending row. *)
Definition pending_entry (x : Z * StoredActorForm) : PendingActorForm :=
  pending_form x.2 (if bool_decide (sf_state x.2 = FormOpen) then PendingOpen else PendingSubmitted).

Lemma pending_forms_elem o db x : x ∈ pending_forms o db <->
  exists id, f_forms db !! id = Some x /\ fo_origin (sf_opening x.2) = o /\ form_pending x.2 = true.
Proof.
  unfold pending_forms. rewrite (merge_sort_Permutation opening_leb). unfold forms_of. rewrite list_elem_of_In, !filter_In, <- list_elem_of_In, list_elem_of_fmap, bool_decide_eq_true.
  split.
  - intros [[([id y] & -> & Hy%elem_of_map_to_list) Ho] Hp]. by exists id.
  - intros (id & Hl & Ho & Hp). split; [split; [|done] | done]. exists (id, x). by rewrite elem_of_map_to_list.
Qed.

Section reading.
Variable o : ActorOutputOrigin.
Variable limit : nat.
Variable db : FormsDb.
Hypothesis Hgood : good db.
Hypothesis Hlimit : (0 < limit <= MAX_PENDING_FORM_ITEMS)%nat.
Hypothesis Hreadable : forall x, x ∈ pending_forms o db -> (row_bytes x.2 <= MAX_FORM_ROW_BYTES)%N.
Hypothesis Hfits : forall x, x ∈ pending_forms o db ->
  (empty_page_bytes o (form_revision o db) + pending_bytes (pending_entry x) + 64 <= MAX_PENDING_FORM_BYTES)%N.

Abbreviation loop := (pending_loop parse_svg view_bytes form_bytes draft_bytes errors_bytes row_bytes pending_bytes o limit).

Lemma pending_loop_spec rows : (forall x, x ∈ rows -> x ∈ pending_forms o db) ->
  forall forms bytes, (length forms <= limit)%nat -> (forms = [] -> bytes = empty_page_bytes o (form_revision o db)) -> exists items rest next,
    loop rows bytes forms = Ok (forms ++ items, next) /\ pending_entry <$> rows = items ++ rest
    /\ match next with
       | None => rest = [] /\ (length forms + length rows <= limit)%nat
       | Some k => exists x, last (forms ++ items) = Some x /\ pf_sequence x = k
       end.
Proof.
  induction rows as [|[oseq row] rows IH]; intros Hrows forms bytes Hlen Hb; csimpl.
  { exists [], [], None. rewrite app_nil_r. repeat split; lia. }
  assert (Hin : (oseq, row) ∈ pending_forms o db) by (apply Hrows; by left).
  pose proof (Hfits _ Hin) as Hfit. pose proof (Hreadable _ Hin) as Hrb.
  apply pending_forms_elem in Hin as (id & Hl & Ho & Hp). simpl in Ho, Hp, Hrb.
  destruct (good_rows _ _ _ _ _ _ Hgood _ _ Hl) as (Hseq & Hk & Hr & _). simpl in *.
  rewrite (proj2 (row_valid_iff parse_svg view_bytes form_bytes draft_bytes errors_bytes row_bytes row)) by (by rewrite Hk). simpl.
  rewrite bool_decide_eq_true_2 by done. simpl.
  assert (Hst : match sf_state row with FormOpen => Ok PendingOpen | FormSubmitted => Ok PendingSubmitted | _ => Err FaultForm end
    = Ok (if bool_decide (sf_state row = FormOpen) then PendingOpen else PendingSubmitted)).
  { unfold form_pending in Hp. by destruct (sf_state row). }
  rewrite Hst. simpl. change (pending_form row _) with (pending_entry (oseq, row)).
  destruct ((length forms =? limit)%nat || (MAX_PENDING_FORM_BYTES <? bytes + (pending_bytes (pending_entry (oseq, row)) + 64))%N) eqn:Hstop.
  - destruct (last forms) as [y|] eqn:Hy; simpl.
    + eexists [], _, (Some _). rewrite app_nil_r. split; [done|]. split; [done|]. by exists y.
    + exfalso. apply last_None in Hy as ->. rewrite Hb in Hstop by done. apply orb_true_iff in Hstop as [Hs|Hs]; [apply Nat.eqb_eq in Hs; simpl in Hs; lia|].
      apply N.ltb_lt in Hs. lia.
  - apply orb_false_iff in Hstop as [Hs _]. apply Nat.eqb_neq in Hs.
    assert (Hrows' : forall x, x ∈ rows -> x ∈ pending_forms o db) by (intros x Hx; apply Hrows; by right).
    assert (Hlen' : (length (forms ++ [pending_entry (oseq, row)]) <= limit)%nat) by (rewrite length_app; simpl; lia).
    assert (Hne : forms ++ [pending_entry (oseq, row)] = [] ->
      (bytes + (pending_bytes (pending_entry (oseq, row)) + 64))%N = empty_page_bytes o (form_revision o db)) by (by destruct forms).
    destruct (IH Hrows' _ _ Hlen' Hne) as (items & rest & next & Hloop & Hd & Hn).
    exists (pending_entry (oseq, row) :: items), rest, next. rewrite Hloop, <- (assoc_L (++)) in *. split; [done|]. split; [by rewrite Hd|].
    destruct next; [done|]. destruct Hn as [-> Hn]. split; [done|]. rewrite length_app in Hn. simpl in *. lia.
Qed.

Definition read_pending (after : Z) : result StoreFault (list PendingActorForm * option Z) :=
  rmap (fun p => (pp_forms p, pp_next_after p))
    (pending_actor_forms parse_svg view_bytes form_bytes draft_bytes errors_bytes row_bytes pending_bytes empty_page_bytes o after limit db).

Lemma entry_sequence x : x ∈ pending_forms o db -> pf_sequence (pending_entry x) = x.1 /\ 0 < x.1.
Proof.
  intros (id & Hl & _ & _)%pending_forms_elem. destruct (good_rows _ _ _ _ _ _ Hgood _ _ Hl) as (-> & _ & (_ & _ & ? & _) & _). split; [done | lia].
Qed.

Lemma after_entries after rows : (forall x, x ∈ rows -> x ∈ pending_forms o db) ->
  after_key pf_sequence after (pending_entry <$> rows) = pending_entry <$> List.filter (fun x => after <? x.1) rows.
Proof.
  induction rows as [|x rows IH]; intros Hrows; [done|]. unfold after_key in *. rewrite fmap_cons. cbn [List.filter].
  destruct (entry_sequence x ltac:(apply Hrows; by left)) as [-> _]. rewrite IH by (intros y Hy; apply Hrows; by right).
  by destruct (after <? x.1).
Qed.

Lemma entries_sorted : StronglySorted (fun x y => pf_sequence x < pf_sequence y) (pending_entry <$> pending_forms o db).
Proof.
  assert (Hs : StronglySorted (fun x y => x.1 < y.1) (pending_forms o db)).
  { apply strictly_sorted; [apply StronglySorted_merge_sort; apply _|]. unfold pending_forms. rewrite (merge_sort_Permutation opening_leb).
    apply NoDup_filter_fmap, NoDup_filter_fmap. by apply sequences_distinct. }
  assert (Hall : forall x, x ∈ pending_forms o db -> x ∈ pending_forms o db) by done. revert Hs Hall.
  generalize (pending_forms o db) at 1 2 4. intros l. induction 1 as [|x l Hl IH Hx]; intros Hall; [constructor|].
  constructor; [apply IH; intros y Hy; apply Hall; by right|]. apply Forall_fmap. rewrite Forall_forall in Hx |- *. intros y Hy.
  change (pf_sequence (pending_entry x) < pf_sequence (pending_entry y)).
  destruct (entry_sequence x ltac:(apply Hall; by left)) as [-> _], (entry_sequence y ltac:(apply Hall; by right)) as [-> _]. by apply Hx.
Qed.

Lemma pending_pager : validate_origin o = Ok tt -> Pager pf_sequence (pending_entry <$> pending_forms o db) read_pending.
Proof.
  intros Ho. split; [apply entries_sorted | |].
  - intros after Hafter. unfold read_pending, pending_actor_forms. rewrite Ho. simpl.
    rewrite (proj2 (Z.ltb_ge _ _) Hafter), (proj2 (Nat.eqb_neq _ _)), (proj2 (Nat.ltb_ge _ _)) by lia. simpl.
    set (rows := List.filter (fun x => after <? x.1) (pending_forms o db)).
    assert (Hrows : forall x, x ∈ take (S limit) rows -> x ∈ pending_forms o db).
    { intros x Hx. apply (subseteq_take (S limit) rows) in Hx. apply list_elem_of_In, filter_In in Hx as [Hx _]. by apply list_elem_of_In. }
    destruct (pending_loop_spec _ Hrows [] (empty_page_bytes o (form_revision o db)) ltac:(simpl; lia) ltac:(done)) as (items & rest & next & Hp & Hd & Hn).
    rewrite Hp. simpl. exists items, (rest ++ (pending_entry <$> drop (S limit) rows)), next. split; [done|].
    split; [by rewrite after_entries, (assoc_L (++)), <- Hd, <- fmap_app, take_drop|].
    destruct next as [k|]; [done|]. destruct Hn as [-> Hn]. simpl in Hn. rewrite length_take in Hn. by rewrite drop_ge by lia.
  - apply Forall_fmap, Forall_forall. intros x Hx. change (0 < pf_sequence (pending_entry x)). destruct (entry_sequence x Hx) as [-> ?]. done.
Qed.

(** Following the cursors of the index from zero lists every form of an
    actor that is open or submitted, each once and in the order they were
    opened, with any page limit that is accepted, provided each of their rows can be
    read and each entry fits in a page by itself. *)
Theorem pending_paged :
  validate_origin o = Ok tt ->
  walk read_pending (S (length (pending_forms o db))) 0 = Some (pending_entry <$> pending_forms o db)
  /\ forall x, x ∈ pending_forms o db <-> exists id, f_forms db !! id = Some x /\ fo_origin (sf_opening x.2) = o /\ form_pending x.2 = true.
Proof.
  intros Ho. split; [|apply pending_forms_elem]. rewrite <- (length_fmap pending_entry). apply (walk_all pf_sequence). by apply pending_pager.
Qed.
End reading.
End claims.

(** ** Examples *)

Definition sample_text_form : FormSpec := {| version := 1; root := TextNode "f0" "Name" None |}.

Definition sample_opening (mount : string) : ActorFormOpen :=
  {| fo_origin := sample_origin; fo_mount_id := mount; fo_execution := ActorProgram; fo_conversation := None; fo_form := sample_text_form |}.

Definition sample_draft (s : string) : FormDraft := {[ "f0" := ControlText s ]}.

Definition sample_payload (d : option FormDraft) : string :=
  match d with
  | None => "null"
  | Some d => match d !! "f0" with Some (ControlText s) => "f0=" +:+ s | _ => "{}" end
  end.

(** A row whose JSON is at the limit, but for the digits of its revision. *)
Definition full_row_bytes (r : StoredActorForm) : N := (253951 + N.of_nat (String.length (pretty (sf_revision r))))%N.

Definition sample_open (row_bytes : StoredActorForm -> N) (mount : string) (db : FormsDb) : result StoreFault StoredActorForm * FormsDb :=
  open_actor_form (fun _ => Err "") view_json_bytes decode_png zero_hash (fun _ => 100%N) (fun _ => 50%N) (fun _ => 10%N) row_bytes "store"
    (fun _ => Ok true) (sample_opening mount) db.

Definition sample_submit (row_bytes : StoredActorForm -> N) (mount operation text : string) (db : FormsDb) : result StoreFault StoredActorForm * FormsDb :=
  submit_actor_form (fun _ => Err "") view_json_bytes (fun _ => 100%N) (fun _ => 50%N) (fun _ => 10%N) row_bytes sample_payload
    (fun v => sample_draft <$> as_str v) sample_origin mount operation (VString text) db.

Definition sample_step (row_bytes : StoredActorForm -> N) : FormsDb -> FormsDb -> Prop :=
  form_step (fun _ => Err "") view_json_bytes decode_png zero_hash (fun _ => 100%N) (fun _ => 50%N) (fun _ => 10%N) row_bytes sample_payload
    (fun v => sample_draft <$> as_str v) (fun _ => None) (fun _ => None).

(** Eight events of other components, a form, and a submission. *)
Definition busy : FormsDb := no_forms <| f_actor := no_events <| a_last := 8 |> |>.
Definition full_opened : FormsDb := (sample_open full_row_bytes "m" busy).2.
Definition full_submitted : FormsDb := (sample_submit full_row_bytes "m" "one" "text" full_opened).2.

Lemma full_run : rtc (sample_step full_row_bytes) no_forms full_submitted.
Proof.
  eapply rtc_l; [apply (StepOther _ _ _ _ _ _ _ _ _ _ _ _ no_forms (no_events <| a_last := 8 |>)); [done | intros _; by repeat constructor]|].
  eapply (rtc_l _ _ full_opened); [exact (StepOpen _ _ _ _ _ _ _ _ _ _ _ _ busy "store" (fun _ => Ok true) (sample_opening "m"))|].
  eapply rtc_once. exact (StepSubmit _ _ _ _ _ _ _ _ _ _ _ _ full_opened sample_origin "m" "one" (VString "text")).
Qed.

(** The form was opened and submitted, and then neither it nor the Store's
    restart can read it. *)
Example saved_form_unreadable :
  is_ok (sample_open full_row_bytes "m" busy).1 = true /\ is_ok (sample_submit full_row_bytes "m" "one" "text" full_opened).1 = true
  /\ (interrupt_actor_forms_for_restart (fun _ => Err "") view_json_bytes (fun _ => 100%N) (fun _ => 50%N) (fun _ => 10%N) full_row_bytes
        (pending_rows full_submitted) full_submitted).1 = Err FaultForm.
Proof. by vm_compute. Qed.

Lemma forms_read_back_witness :
  rtc (sample_step full_row_bytes) no_forms full_submitted
  /\ actor_form (fun _ => Err "") view_json_bytes (fun _ => 100%N) (fun _ => 50%N) (fun _ => 10%N) full_row_bytes sample_origin "m" full_submitted = Err FaultForm.
Proof.
  split; [apply full_run|].
  destruct (forms_read_back (fun _ => Err "") view_json_bytes decode_png zero_hash (fun _ => 100%N) (fun _ => 50%N) (fun _ => 10%N) full_row_bytes sample_payload
    (fun v => sample_draft <$> as_str v) (fun _ => None) (fun _ => None) ltac:(done) ltac:(done) full_submitted full_run) as [_ H].
  rewrite (H sample_origin "m" (sample_origin, "m") ltac:(vm_compute; reflexivity)). by vm_compute.
Defined.

Definition small_opened : FormsDb := (sample_open (fun _ => 500%N) "m" busy).2.

Lemma small_run : rtc (sample_step (fun _ => 500%N)) no_forms small_opened.
Proof.
  eapply rtc_l; [apply (StepOther _ _ _ _ _ _ _ _ _ _ _ _ no_forms (no_events <| a_last := 8 |>)); [done | intros _; by repeat constructor]|].
  eapply rtc_once. exact (StepOpen _ _ _ _ _ _ _ _ _ _ _ _ busy "store" (fun _ => Ok true) (sample_opening "m")).
Qed.

Lemma small_good : forms_good (fun _ => Err "") view_json_bytes (fun _ => 100%N) (fun _ => 50%N) (fun _ => 10%N) small_opened.
Proof. eapply runs_good; [done | done | apply small_run]. Qed.

Definition fresh_lease : Lease :=
  {| l_state := FormOpen; l_submission := None; l_errors := []; l_answer := None; l_operations := ∅; l_changes := 0 |}.

Lemma small_represents : represents small_opened (sample_origin, "m") fresh_lease.
Proof.
  eexists _, _. split; [vm_compute; reflexivity|]. by split_and!.
Qed.

Lemma form_refines_lease_witness :
  let (r, db') := run_op (fun _ => Err "") view_json_bytes (fun _ => 100%N) (fun _ => 50%N) (fun _ => 10%N) (fun _ => 500%N) sample_payload
                    sample_origin "m" (OpBrowse "one" (Some (sample_draft "text"))) small_opened in
  r = Ok true /\ represents db' (sample_origin, "m")
    {| l_state := FormSubmitted; l_submission := Some ("one", reread_draft (sample_draft "text")); l_errors := []; l_answer := None;
       l_operations := <["one" := "f0=text"]> ∅; l_changes := 1 |}.
Proof.
  destruct (form_refines_lease (fun _ => Err "") view_json_bytes decode_png zero_hash (fun _ => 100%N) (fun _ => 50%N) (fun _ => 10%N) (fun _ => 500%N) sample_payload
    small_opened small_good) as [_ H].
  destruct (load_form (fun _ => Err "") view_json_bytes (fun _ => 100%N) (fun _ => 50%N) (fun _ => 10%N) (fun _ => 500%N) small_opened (sample_origin, "m"))
    as [row|] eqn:Hl; [|vm_compute in Hl; discriminate Hl].
  specialize (H sample_origin "m" (OpBrowse "one" (Some (sample_draft "text"))) fresh_lease row small_represents Hl).
  destruct (run_op _ _ _ _ _ _ _ _ _ _ _) as [r db'] eqn:Hr.
  destruct H as [(Hok & Hrep & _)|(_ & _ & fault & He & _)]; [split; [done | simpl; lia] | done |].
  exfalso. assert (Hx : is_ok r = true); [|by rewrite He in Hx].
  change r with (r, db').1. rewrite <- Hr. by vm_compute.
Defined.

Lemma form_final_witness :
  exists n db', interrupt_actor_forms_for_restart (fun _ => Err "") view_json_bytes (fun _ => 100%N) (fun _ => 50%N) (fun _ => 10%N) (fun _ => 500%N)
    (pending_rows small_opened) small_opened = (Ok n, db') /\ n = 1%nat /\ pending_rows db' = [].
Proof.
  destruct (form_final (fun _ => Err "") view_json_bytes decode_png zero_hash (fun _ => 100%N) (fun _ => 50%N) (fun _ => 10%N) (fun _ => 500%N) sample_payload
    (fun v => sample_draft <$> as_str v) (fun _ => None) (fun _ => None) ltac:(done) ltac:(done) small_opened small_good) as [_ H].
  destruct (interrupt_actor_forms_for_restart _ _ _ _ _ _ _ _) as [[n|e] db'] eqn:Hr; [|vm_compute in Hr; discriminate Hr].
  exists n, db'. split; [done|]. destruct (H _ n db' (reflexivity _) Hr) as (-> & Hp & _). split; [by vm_compute | exact Hp].
Defined.

Lemma pending_paged_witness :
  walk (read_pending (fun _ => Err "") view_json_bytes (fun _ => 100%N) (fun _ => 50%N) (fun _ => 10%N) (fun _ => 500%N) (fun _ => 200%N) (fun _ _ => 100%N)
          sample_origin 1 small_opened) 2 0
  = Some (pending_entry <$> pending_forms sample_origin small_opened) /\ length (pending_forms sample_origin small_opened) = 1%nat.
Proof.
  split; [|by vm_compute].
  apply (pending_paged (fun _ => Err "") view_json_bytes (fun _ => 100%N) (fun _ => 50%N) (fun _ => 10%N) (fun _ => 500%N) (fun _ => 200%N) (fun _ _ => 100%N)
    sample_origin 1 small_opened small_good); [unfold MAX_PENDING_FORM_ITEMS; lia | by intros | by intros | reflexivity].
Defined.
