(* ===== verification/Portability.v ===== *)
(** The note that stands for a group of items another model may not read:
    [store/context/portability_note.rs].

    Opaque items belong to the model that wrote them. To show such a group to
    another model the Store renders its visible parts into one assistant note.
    The theorems show that a rendered item holds no encrypted payload and no
    provider metadata at any depth, that it still says what the original said,
    that rendering it again changes nothing, and that the note is an ordinary
    message that cites every item in order. *)

From S2P Require Import Prelude Json Redaction Usage Observation Sse Failure StoreDb Admission Jobs Lists Item ContextPatch ContextText HistoryDb.

(** ** Reading fields *)

Definition invalid {A} (item field : string) : result ContextFault A := Err (Portability (InvalidField item field)).

Definition validate_fields (o : object) (allowed : list string) (item : string) : result ContextFault unit :=
  match List.find (fun k => negb (bool_decide (k ∈ allowed))) (obj_keys o) with
  | Some field => Err (Portability (UnsupportedField item field))
  | None => Ok tt
  end.

Definition required_nonempty_string (o : object) (key : string) : result ContextFault string :=
  match obj_get key o ≫= as_str with
  | Some s => if bool_decide (s = "") then invalid "tool" key else Ok s
  | None => invalid "tool" key
  end.

Definition strip_metadata (o : object) : object := obj_remove "status" (obj_remove "id" o).

Fixpoint reject_encrypted (v : value) : result ContextFault unit :=
  match v with
  | VObject o =>
      refuse existsb (String.prefix "encrypted") (obj_keys o) with Portability EncryptedPayload;
      (fix values (o : object) := match o with [] => Ok tt | e :: o => do _ <- reject_encrypted e.2; values o end) o
  | VArray l => (fix go (l : list value) := match l with [] => Ok tt | x :: l => do _ <- reject_encrypted x; go l end) l
  | _ => Ok tt
  end.

Definition nullable_array (o : object) (key location : string) : result ContextFault (option (list value)) :=
  match obj_get key o with
  | None | Some VNull => Ok None
  | Some (VArray values) => Ok (Some values)
  | Some _ => invalid location key
  end.

Definition validate_reasoning_text (v : value) (kind location : string) : result ContextFault string :=
  match as_object v with
  | None => invalid location "object"
  | Some o =>
      do _ <- validate_fields o ["type"; "text"] location;
      match obj_get "type" o ≫= as_str with
      | Some t => if bool_decide (t = kind)
                  then match obj_get "text" o ≫= as_str with Some text => Ok text | None => invalid location "text" end
                  else invalid location "type"
      | None => invalid location "type"
      end
  end.

(** A token's probability; the candidates beside it list none of their own. *)
Definition validate_token (v : value) (allowed : list string) : result ContextFault object :=
  match as_object v with
  | None => invalid "message.logprobs" "object"
  | Some o =>
      do _ <- validate_fields o allowed "message.logprobs";
      match obj_get "token" o ≫= as_str with
      | None => invalid "message.logprobs" "token"
      | Some _ =>
          match obj_get "logprob" o with
          | Some (VNumber _) =>
              match obj_get "bytes" o ≫= as_array with
              | None => invalid "message.logprobs" "bytes"
              | Some bytes =>
                  if existsb (fun b => match as_u64 b with Some n => 255 <? n | None => true end) bytes
                  then invalid "message.logprobs" "bytes" else Ok o
              end
          | _ => invalid "message.logprobs" "logprob"
          end
      end
  end.

Definition validate_logprob (v : value) : result ContextFault unit :=
  do o <- validate_token v ["token"; "bytes"; "logprob"; "top_logprobs"];
  match obj_get "top_logprobs" o ≫= as_array with
  | None => invalid "message.logprobs" "top_logprobs"
  | Some candidates => do _ <- map_result (fun c => validate_token c ["token"; "bytes"; "logprob"]) candidates; Ok tt
  end.

(** ** The visible part of an item, and whether it shows anything *)

Definition shows_text (text : string) : bool := negb (is_blank text).

(** One content part of a message. *)
Definition project_part (part : value) : result ContextFault (value * bool) :=
  match as_object part with
  | None => invalid "message.content" "object"
  | Some o =>
      do kind <- match obj_get "type" o ≫= as_str with Some t => Ok t | None => invalid "message.content" "type" end;
      do field <-
        (if bool_decide (kind = "input_text") then
           do _ <- validate_fields o ["type"; "text"; "annotations"] "message.input_text"; Ok "text"
         else if bool_decide (kind = "output_text") then
           do _ <- validate_fields o ["type"; "text"; "annotations"; "logprobs"] "message.output_text";
           do logprobs <- nullable_array o "logprobs" "message.output_text";
           do _ <- match logprobs with Some l => do _ <- map_result validate_logprob l; Ok tt | None => Ok tt end;
           Ok "text"
         else if bool_decide (kind = "refusal") then
           do _ <- validate_fields o ["type"; "refusal"; "annotations"] "message.refusal"; Ok "refusal"
         else invalid "message.content" "type");
      do text <- match obj_get field o ≫= as_str with Some t => Ok t | None => invalid "message.content" field end;
      do _ <- match obj_get "annotations" o with Some a => reject_encrypted a | None => Ok tt end;
      Ok (VObject (obj_remove "logprobs" o), shows_text text)
  end.

Definition phase_known (phase : value) : bool :=
  is_null phase || match as_str phase with Some p => bool_decide (p ∈ ["commentary"; "final_answer"]) | None => false end.

Definition drop_null_phase (o : object) : object :=
  match obj_get "phase" o with Some VNull => obj_remove "phase" o | _ => o end.

Definition project_content (o : object) : result ContextFault (object * bool) :=
  match obj_get "content" o with
  | None => invalid "message" "content"
  | Some (VString text) => Ok (o, shows_text text)
  | Some (VArray parts) =>
      do parts <- map_result project_part parts;
      Ok (obj_insert "content" (VArray parts.*1) o, existsb snd parts)
  | Some _ => invalid "message" "content"
  end.

Definition project_message (o : object) : result ContextFault (value * bool) :=
  do _ <- validate_fields o ["type"; "role"; "content"; "phase"; "id"; "status"] "message";
  refuse match obj_get "phase" o with Some p => negb (phase_known p) | None => false end with Portability (InvalidField "message" "phase");
  guard match obj_get "role" o ≫= as_str with Some r => bool_decide (r ∈ ["user"; "assistant"]) | None => false end
    else Portability (InvalidField "message" "role");
  do '(shown, visible) <- project_content o;
  let shown := drop_null_phase (strip_metadata shown) in
  do _ <- reject_encrypted (VObject shown);
  Ok (VObject shown, visible).

Definition project_tool_call (o : object) (custom : bool) : result ContextFault (value * bool) :=
  do _ <- validate_fields o (["type"; "call_id"; "name"; "id"; "status"; "namespace"; "async"] ++ [if custom then "input" else "arguments"]) "tool_call";
  do _ <- required_nonempty_string o "call_id";
  do name <- required_nonempty_string o "name";
  do _ <- (if custom then
             match obj_get "input" o ≫= as_str with Some _ => Ok tt | None => invalid "tool_call" "input" end
           else match obj_get "arguments" o with
                | Some (VString _) | Some (VObject _) => Ok tt
                | _ => invalid "tool_call" "arguments"
                end);
  refuse match obj_get "namespace" o with
         | Some n => negb (is_null n) && negb (bool_decide (as_str n = Some "functions")) | None => false
         end with Portability (InvalidField "tool_call" "namespace");
  refuse match obj_get "async" o with Some a => negb (is_boolean a) | None => false end with Portability (InvalidField "tool_call" "async");
  do _ <- reject_encrypted (VObject o);
  Ok (VObject (strip_metadata o), shows_text name).

Definition project_tool_output (o : object) : result ContextFault (value * bool) :=
  do _ <- validate_fields o ["type"; "call_id"; "output"; "output_format"; "id"; "status"] "tool_output";
  refuse match obj_get "output_format" o with Some f => bool_decide (format_parse f = None) | None => false end
    with Portability (InvalidField "tool_output" "output_format");
  do _ <- required_nonempty_string o "call_id";
  do output <- match obj_get "output" o with Some v => Ok v | None => invalid "tool_output" "output" end;
  do _ <- reject_encrypted output;
  let visible := match output with VNull | VBool false => false | VString text => shows_text text | _ => true end in
  Ok (VObject (obj_remove "output_format" (strip_metadata o)), visible).

Definition project_reasoning (o : object) : result ContextFault (value * bool) :=
  do _ <- validate_fields o ["type"; "summary"; "content"; "encrypted_content"; "id"; "status"] "reasoning";
  refuse match obj_get "encrypted_content" o with Some v => negb (is_null v) && negb (is_string v) | None => false end
    with Portability (InvalidField "reasoning" "encrypted_content");
  do content <- nullable_array o "content" "reasoning";
  do _ <- map_result (fun b => validate_reasoning_text b "reasoning_text" "reasoning.content") (default [] content);
  do texts <-
    match obj_get "summary" o with
    | None => Ok []
    | Some summary =>
        match as_array summary with
        | None => invalid "reasoning" "summary"
        | Some summary => map_result (fun b => validate_reasoning_text b "summary_text" "reasoning.summary") summary
        end
    end;
  Ok (VObject (obj_remove "content" (obj_remove "encrypted_content" (strip_metadata o))), existsb shows_text texts).

Definition project_kind (kind : string) (o : object) : result ContextFault (value * bool) :=
  if bool_decide (kind = "message") then project_message o
  else if bool_decide (kind = "function_call") then project_tool_call o false
  else if bool_decide (kind = "custom_tool_call") then project_tool_call o true
  else if bool_decide (kind ∈ output_types) then project_tool_output o
  else if bool_decide (kind = "reasoning") then project_reasoning o
  else Err (Portability UnsupportedItem).

Definition project_item (item : value) : result ContextFault (value * bool) :=
  match as_object item with
  | None => invalid "item" "object"
  | Some o => match obj_get "type" o ≫= as_str with None => invalid "item" "type" | Some kind => project_kind kind o end
  end.

(** ** The note *)

Section render.
(** The JSON of a value, compact and indented, and the reference of origins. *)
Variable to_json to_json_pretty : value -> string.
Variable reference_of : list Origin -> ContextReference.

Definition origin_json (o : Origin) : value :=
  json_object [("request", VString (o_request o)); ("position", VNumber (if 0 <=? o_position o then PosInt (o_position o) else NegInt (o_position o)));
               ("hash", VString (o_hash o))].

Definition project_occurrence (o : Occurrence) : result ContextFault (value * value * bool) :=
  refuse bool_decide (get_str "type" (occ_item o) = Some "compaction") with OpaqueModel;
  do '(item, visible) <- project_item (occ_item o);
  Ok (origin_json (occ_origin o), item, visible).

Definition section_text (origin item : value) : string :=
  newline +:+ newline +:+ "Source origin/hash " +:+ to_json origin +:+ ":" +:+ newline +:+ to_json_pretty item.

Definition render_note (os : list Occurrence) : result ContextFault value :=
  do rendered <- map_result project_occurrence os;
  guard existsb snd rendered else Portability NoVisibleContent;
  let header := "[Store-generated model portability note; sources: " +:+ reference_of (occ_origin <$> os) +:+ "]" in
  Ok (json_object [("type", VString "message"); ("role", VString "assistant");
                   ("content", VString (foldl (fun text e => text +:+ section_text e.1.1 e.1.2) header rendered))]).
End render.

(** ** Objects with fields removed *)

Lemma obj_remove_absent k m : obj_get k m = None -> obj_remove k m = m.
Proof. induction m as [|[k' v] m IH]; simpl; [done|]. case_decide; [done|]. intros Hk. by rewrite IH. Qed.

Lemma obj_remove_sorted k m : obj_sorted m -> obj_sorted (obj_remove k m).
Proof. apply obj_sorted_sublist, obj_remove_sublist. Qed.

Lemma obj_insert_same k v m : obj_sorted m -> obj_get k m = Some v -> obj_insert k v m = m.
Proof.
  intros Hs Hk. apply obj_ext; [by apply obj_insert_sorted|done|]. intros k'. rewrite obj_get_insert. case_decide; congruence.
Qed.

Lemma strip_sorted o : obj_sorted o -> obj_sorted (strip_metadata o).
Proof. intros. by do 2 apply obj_remove_sorted. Qed.

Lemma strip_get o k : obj_sorted o -> obj_get k (strip_metadata o) = if decide (k ∈ ["id"; "status"]) then None else obj_get k o.
Proof.
  intros Hs. unfold strip_metadata. rewrite !vget_remove by (try apply obj_remove_sorted; done).
  repeat case_decide; subst; try done; exfalso; set_solver.
Qed.

#[local] Hint Resolve obj_remove_sorted strip_sorted obj_insert_sorted : core.

Lemma validate_fields_Ok o allowed item u : validate_fields o allowed item = Ok u <-> forall k, is_Some (obj_get k o) -> k ∈ allowed.
Proof.
  unfold validate_fields. destruct (List.find _ _) as [k|] eqn:E.
  - split; [done|]. intros H. apply find_some in E as [Hk Hn]. rewrite <- list_elem_of_In, <- obj_get_key in Hk.
    apply negb_true_iff, bool_decide_eq_false in Hn. by apply H in Hk.
  - destruct u. split; [|done]. intros _ k Hk%obj_get_key. apply list_elem_of_In in Hk. pose proof (find_none _ _ E _ Hk) as Hn.
    by apply negb_false_iff, bool_decide_eq_true in Hn.
Qed.

Lemma validate_fields_sub o o' allowed item u :
  (forall k, is_Some (obj_get k o') -> is_Some (obj_get k o)) -> validate_fields o allowed item = Ok u -> validate_fields o' allowed item = Ok tt.
Proof. rewrite !validate_fields_Ok. auto. Qed.

(** ** Encrypted payloads *)

Lemma reject_encrypted_spec v : reject_encrypted v = if encrypted_payload v then Err (Portability EncryptedPayload) else Ok tt.
Proof.
  induction v as [| | | |l IH|o IH] using value_ind'; simpl; try done.
  - induction IH as [|x l Hx _ IHl]; [done|]. simpl. rewrite Hx. destruct (encrypted_payload x); simpl; [done|exact IHl].
  - assert (H : (fix values (o : object) := match o with [] => Ok tt | e :: o => do _ <- reject_encrypted e.2; values o end) o =
      if existsb (fun e => encrypted_payload e.2) o then Err (Portability EncryptedPayload) else Ok tt).
    { induction IH as [|e o He _ IHo]; [done|]. simpl. rewrite He. destruct (encrypted_payload e.2); simpl; [done|exact IHo]. }
    rewrite H. clear H IH. unfold obj_keys. induction o as [|e o IHo]; [done|]. simpl. destruct (String.prefix _ e.1); simpl; [done|].
    destruct (encrypted_payload e.2); simpl; [destruct (existsb _ _); reflexivity|exact IHo].
Qed.

Lemma reject_encrypted_Ok v u : reject_encrypted v = Ok u <-> encrypted_payload v = false.
Proof. rewrite reject_encrypted_spec. destruct (encrypted_payload v), u; naive_solver. Qed.

Lemma encrypted_field m k x : encrypted_payload (VObject m) = false -> obj_get k m = Some x -> encrypted_payload x = false.
Proof. simpl. rewrite existsb_false. intros H Hk%obj_get_elem. apply H in Hk. by apply orb_false_iff in Hk as [_ ?]. Qed.

Lemma encrypted_fields m :
  obj_sorted m -> (forall k x, obj_get k m = Some x -> String.prefix "encrypted" k = false /\ encrypted_payload x = false) ->
  encrypted_payload (VObject m) = false.
Proof.
  intros Hs H. simpl. apply existsb_false. intros [k x] Hin%(obj_elem_get _ _ _ Hs). destruct (H _ _ Hin) as [H1 H2]. simpl. by rewrite H1, H2.
Qed.

Lemma encrypted_sub m m' : m' `sublist_of` m -> encrypted_payload (VObject m) = false -> encrypted_payload (VObject m') = false.
Proof. simpl. rewrite !existsb_false. intros Hs H e He. apply H. by eapply elem_of_sublist. Qed.

Lemma strip_sublist o : strip_metadata o `sublist_of` o.
Proof. unfold strip_metadata. etrans; [apply obj_remove_sublist|apply obj_remove_sublist]. Qed.

(** ** What is projected *)

(** A rendered item beside its original. *)
Record portable (item v : value) (visible : bool) : Prop := {
  portable_clean : encrypted_payload v = false;
  portable_bare : forall k, k ∈ ["id"; "status"; "output_format"; "encrypted_content"] -> vget k v = None;
  portable_same : forall k, k ∉ ["id"; "status"; "phase"; "content"; "output_format"; "encrypted_content"] -> vget k v = vget k item;
  portable_text : forall part, text_body v (MessageText part) = text_body item (MessageText part);
  portable_again : project_item v = Ok (v, visible)
}.

(** The message of a text body depends on three fields. *)
Lemma message_text_fields item item' part :
  vidx item' "type" = vidx item "type" -> vidx item' "role" = vidx item "role" -> vidx item' "content" = vidx item "content" ->
  text_body item' (MessageText part) = text_body item (MessageText part).
Proof. intros H1 H2 H3. unfold text_body, role_in. by rewrite H1, H2, H3. Qed.

Lemma not_message_text o part : obj_get "type" o <> Some (VString "message") -> text_body (VObject o) (MessageText part) = None.
Proof.
  intros H. unfold text_body, veq_str, vidx, vget. rewrite bool_decide_eq_false_2; [done|]. intros E. apply H.
  destruct (obj_get "type" o); simpl in E; congruence.
Qed.

Ltac by_keys := repeat (case_decide || case_bool_decide); subst; try done; exfalso; set_solver.

(** Reading a field of an object some fields of which were removed. *)
Ltac get_field := rewrite ?strip_get, ?vget_remove, ?strip_get by auto; repeat (rewrite decide_True by set_solver || rewrite decide_False by set_solver).

Lemma strip_again o : obj_sorted o -> strip_metadata (strip_metadata o) = strip_metadata o.
Proof. intros. unfold strip_metadata at 1. rewrite (obj_remove_absent "id"), obj_remove_absent; [done|..]; by get_field. Qed.

Lemma tool_call_again o custom v visible :
  obj_sorted o -> project_tool_call o custom = Ok (v, visible) ->
  v = VObject (strip_metadata o) /\ encrypted_payload v = false /\ project_tool_call (strip_metadata o) custom = Ok (v, visible) /\
  obj_get "output_format" o = None /\ obj_get "encrypted_content" o = None.
Proof.
  intros Hs H. unfold project_tool_call in H. apply rbind_Ok in H as (u1 & Hf & H). apply rbind_Ok in H as (id & Hid & H).
  apply rbind_Ok in H as (name & Hname & H). apply rbind_Ok in H as (u2 & Harg & H).
  destruct (match obj_get "namespace" o with Some _ => _ | None => _ end) eqn:Hn in H; [done|].
  destruct (match obj_get "async" o with Some _ => _ | None => _ end) eqn:Ha in H; [done|].
  apply rbind_Ok in H as (u3 & He & [= <- <-]). apply reject_encrypted_Ok in He.
  assert (encrypted_payload (VObject (strip_metadata o)) = false) as Hc by (eapply encrypted_sub; [apply strip_sublist|done]).
  split; [done|]. split; [done|]. split.
  - unfold project_tool_call, required_nonempty_string in *.
    erewrite validate_fields_sub; [|intros k; rewrite strip_get by done; by case_decide; [intros [? ?]|]|exact Hf]. cbn [rbind].
    replace (obj_get "call_id" (strip_metadata o)) with (obj_get "call_id" o) by (by get_field). rewrite Hid. cbn [rbind].
    replace (obj_get "name" (strip_metadata o)) with (obj_get "name" o) by (by get_field). rewrite Hname. cbn [rbind].
    replace (obj_get "input" (strip_metadata o)) with (obj_get "input" o) by (by get_field).
    replace (obj_get "arguments" (strip_metadata o)) with (obj_get "arguments" o) by (by get_field). rewrite Harg. cbn [rbind].
    replace (obj_get "namespace" (strip_metadata o)) with (obj_get "namespace" o) by (by get_field). rewrite Hn.
    replace (obj_get "async" (strip_metadata o)) with (obj_get "async" o) by (by get_field). rewrite Ha.
    rewrite reject_encrypted_spec, Hc. cbn [rbind]. by rewrite strip_again.
  - rewrite validate_fields_Ok in Hf. split; apply eq_None_not_Some; intros Hk%Hf; destruct custom; set_solver.
Qed.

Lemma string_clean v s : v = VString s -> encrypted_payload v = false.
Proof. by intros ->. Qed.

Lemma tool_output_again o v visible :
  obj_sorted o -> is_Some (obj_get "type" o ≫= as_str) -> project_tool_output o = Ok (v, visible) ->
  v = VObject (obj_remove "output_format" (strip_metadata o)) /\ encrypted_payload v = false /\
  project_tool_output (obj_remove "output_format" (strip_metadata o)) = Ok (v, visible) /\ obj_get "encrypted_content" o = None.
Proof.
  intros Hs [t Ht] H. unfold project_tool_output in H. apply rbind_Ok in H as (u1 & Hf & H).
  destruct (match obj_get "output_format" o with Some _ => _ | None => _ end) in H; [done|].
  apply rbind_Ok in H as (id & Hid & H). destruct (obj_get "output" o) as [out|] eqn:Hout; [|done]. cbn [rbind] in H.
  apply rbind_Ok in H as (u2 & He & [= <- <-]). apply reject_encrypted_Ok in He.
  assert (Hg : forall k, obj_get k (obj_remove "output_format" (strip_metadata o)) =
    if decide (k ∈ ["id"; "status"; "output_format"]) then None else obj_get k o).
  { intros k. rewrite vget_remove, strip_get by auto. by_keys. }
  pose proof (proj1 (validate_fields_Ok _ _ _ _) Hf) as Hk.
  assert (encrypted_payload (VObject (obj_remove "output_format" (strip_metadata o))) = false) as Hc.
  { apply encrypted_fields; [auto|]. intros k x. rewrite Hg. case_decide as Hd; [done|]. intros Hx.
    assert (k ∈ ["type"; "call_id"; "output"]) as Hin by (specialize (Hk k ltac:(eauto)); set_solver).
    unfold required_nonempty_string in Hid.
    repeat (apply elem_of_cons in Hin as [->|Hin]); [..|set_solver]; (split; [done|]); rewrite Hx in *; simpl in *; simplify_eq; [by destruct x|by destruct x|done]. }
  split_and!; [done..| |].
  - unfold project_tool_output. erewrite validate_fields_sub; [|intros k; rewrite Hg; by case_decide; [intros [? ?]|]|exact Hf]. cbn [rbind].
    unfold required_nonempty_string in *. rewrite !Hg. rewrite decide_True by set_solver. rewrite !decide_False by set_solver.
    rewrite Hid, Hout. cbn [rbind]. rewrite reject_encrypted_spec, He. cbn [rbind]. do 3 f_equal.
    rewrite (obj_remove_absent "output_format" (strip_metadata _)).
    + unfold strip_metadata at 1. rewrite (obj_remove_absent "id"), (obj_remove_absent "status"); [done|rewrite Hg; by rewrite decide_True by set_solver..].
    + rewrite strip_get by auto. rewrite decide_False by set_solver. rewrite Hg. by rewrite decide_True by set_solver.
  - apply eq_None_not_Some. intros Hx%Hk. set_solver.
Qed.

(** A block of reasoning text has two strings and nothing else. *)
Lemma reasoning_text_clean v kind location text : value_wf v -> validate_reasoning_text v kind location = Ok text -> encrypted_payload v = false.
Proof.
  unfold validate_reasoning_text. destruct v as [| | | | |o]; try done. cbn [as_object]. intros Hw H.
  apply rbind_Ok in H as (u & Hf & H). rewrite validate_fields_Ok in Hf.
  destruct (obj_get "type" o ≫= as_str) as [t|] eqn:Et; [|done]. case_bool_decide; [|done].
  destruct (obj_get "text" o ≫= as_str) as [x|] eqn:Ex; [|done]. inversion Hw; subst. apply encrypted_fields; [done|].
  intros k y Hy. assert (k ∈ ["type"; "text"]) as Hin by (apply Hf; eauto).
  repeat (apply elem_of_cons in Hin as [->|Hin]); [..|set_solver]; rewrite Hy in *; (split; [done|]); by destruct y.
Qed.

Lemma wf_field o k x : value_wf (VObject o) -> obj_get k o = Some x -> value_wf x.
Proof. inversion 1 as [| | | | |? _ Hw]; subst. intros Hk%obj_get_elem. rewrite Forall_forall in Hw. exact (Hw _ Hk). Qed.

Lemma wf_sorted o : value_wf (VObject o) -> obj_sorted o.
Proof. by inversion 1. Qed.
#[local] Hint Resolve wf_sorted : core.

Lemma reasoning_again o v visible :
  value_wf (VObject o) -> is_Some (obj_get "type" o ≫= as_str) -> project_reasoning o = Ok (v, visible) ->
  v = VObject (obj_remove "content" (obj_remove "encrypted_content" (strip_metadata o))) /\ encrypted_payload v = false /\
  project_reasoning (obj_remove "content" (obj_remove "encrypted_content" (strip_metadata o))) = Ok (v, visible) /\ obj_get "output_format" o = None.
Proof.
  intros Hw [t Ht] H. unfold project_reasoning in H. apply rbind_Ok in H as (u1 & Hf & H).
  destruct (match obj_get "encrypted_content" o with Some _ => _ | None => _ end) in H; [done|].
  apply rbind_Ok in H as (content & _ & H). apply rbind_Ok in H as (cs & _ & H). apply rbind_Ok in H as (texts & Hsum & [= <- <-]).
  set (o' := obj_remove "content" (obj_remove "encrypted_content" (strip_metadata o))).
  assert (Hg : forall k, obj_get k o' = if decide (k ∈ ["id"; "status"; "encrypted_content"; "content"]) then None else obj_get k o).
  { intros k. unfold o'. rewrite !vget_remove, strip_get by auto. by_keys. }
  pose proof (proj1 (validate_fields_Ok _ _ _ _) Hf) as Hk.
  assert (encrypted_payload (VObject o') = false) as Hc.
  { apply encrypted_fields; [unfold o'; auto|]. intros k x. rewrite Hg. case_decide as Hd; [done|]. intros Hx.
    assert (k ∈ ["type"; "summary"]) as Hin by (specialize (Hk k ltac:(eauto)); set_solver).
    repeat (apply elem_of_cons in Hin as [->|Hin]); [..|set_solver]; (split; [done|]); rewrite Hx in *; [by destruct x|].
    destruct x as [| | | |l|]; try done. cbn [as_array] in Hsum. pose proof (wf_field _ _ _ Hw Hx) as Hl. inversion Hl as [| | | |? Hall|]; subst.
    simpl. apply existsb_false. intros b Hb. apply map_result_Ok in Hsum. rewrite Forall_forall in Hall.
    apply list_elem_of_lookup in Hb as [i Hi]. destruct (Forall2_lookup_l _ _ _ _ _ Hsum Hi) as (text & _ & Ht').
    eapply reasoning_text_clean; [|exact Ht']. apply Hall. by eapply list_elem_of_lookup_2. }
  split_and!; [done..| |].
  - unfold project_reasoning. erewrite validate_fields_sub; [|intros k; rewrite Hg; by case_decide; [intros [? ?]|]|exact Hf]. cbn [rbind].
    unfold nullable_array. rewrite !Hg. rewrite !decide_True by set_solver. rewrite decide_False by set_solver. cbn [rbind default map_result].
    rewrite Hsum. cbn [rbind]. do 3 f_equal.
    unfold strip_metadata. rewrite (obj_remove_absent "id"), (obj_remove_absent "status"), (obj_remove_absent "encrypted_content"), (obj_remove_absent "content");
      [done|rewrite Hg; by rewrite decide_True by set_solver..].
  - apply eq_None_not_Some. intros Hx%Hk. set_solver.
Qed.

Lemma part_again part v visible :
  value_wf part -> project_part part = Ok (v, visible) ->
  project_part v = Ok (v, visible) /\ part_text ["input_text"; "output_text"] v = part_text ["input_text"; "output_text"] part.
Proof.
  destruct part as [| | | | |o]; try done. intros Hw H. unfold project_part in H. cbn [as_object] in H.
  destruct (obj_get "type" o ≫= as_str) as [kind|] eqn:Ek; [|done]. cbn [rbind] in H. apply rbind_Ok in H as (field & Hfield & H).
  destruct (obj_get field o ≫= as_str) as [text|] eqn:Et; [|done]. cbn [rbind] in H. apply rbind_Ok in H as (u & Ha & [= <- <-]).
  set (o' := obj_remove "logprobs" o).
  assert (Hg : forall k, obj_get k o' = if decide (k = "logprobs") then None else obj_get k o) by (intros k; unfold o'; apply vget_remove; auto).
  assert (Hsub : forall allowed item u, validate_fields o allowed item = Ok u -> validate_fields o' allowed item = Ok tt).
  { intros allowed item u' Hu. eapply validate_fields_sub; [|exact Hu]. intros k. rewrite Hg. destruct (decide (k = "logprobs")); [by intros [? ?]|done]. }
  assert (field ∈ ["text"; "refusal"]) as Hf.
  { repeat case_bool_decide; try done; repeat (apply rbind_Ok in Hfield as (? & _ & Hfield)); injection Hfield as <-; set_solver. }
  split.
  - unfold project_part. cbn [as_object]. rewrite !Hg, !decide_False by done. rewrite Ek. cbn [rbind].
    assert (Hfield' : (if bool_decide (kind = "input_text") then
           do _ <- validate_fields o' ["type"; "text"; "annotations"] "message.input_text"; Ok "text"
         else if bool_decide (kind = "output_text") then
           do _ <- validate_fields o' ["type"; "text"; "annotations"; "logprobs"] "message.output_text";
           do logprobs <- nullable_array o' "logprobs" "message.output_text";
           do _ <- match logprobs with Some l => do _ <- map_result validate_logprob l; Ok tt | None => Ok tt end;
           Ok "text"
         else if bool_decide (kind = "refusal") then
           do _ <- validate_fields o' ["type"; "refusal"; "annotations"] "message.refusal"; Ok "refusal"
         else invalid "message.content" "type") = Ok field).
    { repeat case_bool_decide; try done; apply rbind_Ok in Hfield as (u' & Hu & Hfield); rewrite (Hsub _ _ _ Hu); cbn [rbind]; try exact Hfield.
      unfold nullable_array. rewrite Hg, decide_True by done. cbn [rbind]. repeat (apply rbind_Ok in Hfield as (? & _ & Hfield)). exact Hfield. }
    rewrite Hfield'. cbn [rbind]. rewrite !Hg, !decide_False by set_solver. rewrite Et. cbn [rbind]. rewrite Ha. cbn [rbind].
    rewrite (obj_remove_absent "logprobs" o'); [done|]. rewrite Hg. by rewrite decide_True.
  - unfold part_text, type_in, vidx, vget. by rewrite !Hg, !decide_False by done.
Qed.

Lemma parts_again parts shown :
  Forall value_wf parts -> map_result project_part parts = Ok shown ->
  map_result project_part shown.*1 = Ok shown /\
  forall i, (shown.*1) !! i ≫= part_text ["input_text"; "output_text"] = parts !! i ≫= part_text ["input_text"; "output_text"].
Proof.
  rewrite !map_result_Ok. intros Hw. induction 1 as [|part [v visible] parts shown Hp H IH].
  - split; [constructor|done].
  - apply Forall_cons in Hw as [Hw1 Hw2]. destruct (part_again _ _ _ Hw1 Hp) as [Ha Ht]. destruct (IH Hw2) as [IH1 IH2].
    split; [by constructor|]. intros [|i]; [exact Ht|apply IH2].
Qed.

Lemma null_phase_get o k : obj_sorted o -> obj_get k (drop_null_phase o) = if decide (k = "phase" /\ obj_get "phase" o = Some VNull) then None else obj_get k o.
Proof.
  intros Hs. unfold drop_null_phase. destruct (obj_get "phase" o) as [[]|] eqn:Ep; rewrite ?vget_remove by done;
    repeat case_decide; try done; exfalso; naive_solver.
Qed.

Lemma null_phase_sorted o : obj_sorted o -> obj_sorted (drop_null_phase o).
Proof. intros Hs. unfold drop_null_phase. destruct (obj_get "phase" o) as [[]|]; auto. Qed.
#[local] Hint Resolve null_phase_sorted : core.

(** The text parts of a message's content. *)
Definition content_text (content : value) (part : N) : option string :=
  match content with
  | VString text => if (part =? 0)%N then Some text else None
  | VArray parts => parts !! N.to_nat part ≫= part_text ["input_text"; "output_text"]
  | _ => None
  end.

Lemma content_again o shown visible :
  value_wf (VObject o) -> project_content o = Ok (shown, visible) ->
  exists c content, shown = obj_insert "content" c o /\ obj_get "content" o = Some content /\
    (forall part, content_text c part = content_text content part) /\
    forall o', obj_sorted o' -> obj_get "content" o' = Some c -> project_content o' = Ok (o', visible).
Proof.
  intros Hw H. unfold project_content in H. destruct (obj_get "content" o) as [content|] eqn:Ec; [|done].
  destruct content as [| | |text|parts|]; try done.
  - injection H as <- <-. exists (VString text), (VString text). split_and!; [by rewrite obj_insert_same by auto|done..|].
    intros o' _ Ho'. unfold project_content. by rewrite Ho'.
  - apply rbind_Ok in H as (ps & Hps & [= <- <-]). pose proof (wf_field _ _ _ Hw Ec) as Hl. inversion Hl; subst.
    destruct (parts_again _ _ ltac:(done) Hps) as [H1 H2]. exists (VArray ps.*1), (VArray parts). split_and!; [done|done|intros part; apply H2|].
    intros o' Hs' Ho'. unfold project_content. rewrite Ho', H1. cbn [rbind]. by rewrite obj_insert_same.
Qed.

(** What is left of the fields of a message. *)
Definition shown_field (o : object) (c : value) (k : string) : option value :=
  if decide (k ∈ ["id"; "status"]) then None
  else if decide (k = "phase" /\ obj_get "phase" o = Some VNull) then None
  else if decide (k = "content") then Some c else obj_get k o.

Lemma shown_get o c k : obj_sorted o -> obj_get k (drop_null_phase (strip_metadata (obj_insert "content" c o))) = shown_field o c k.
Proof.
  intros Hs. unfold shown_field. rewrite null_phase_get, !strip_get by auto. rewrite !obj_get_insert, (decide_False (P := "phase" ∈ _)) by set_solver.
  rewrite (decide_False (P := "phase" = "content")) by done. repeat case_decide; try done; exfalso; naive_solver set_solver.
Qed.

Lemma shown_kept o c k : k ∉ ["id"; "status"; "phase"; "content"] -> shown_field o c k = obj_get k o.
Proof. intros Hn. unfold shown_field. rewrite !decide_False; [done|set_solver|intros [-> _]; set_solver|set_solver]. Qed.

Lemma shown_content o c : shown_field o c "content" = Some c.
Proof. unfold shown_field. rewrite decide_False by set_solver. rewrite decide_False by (by intros [? _]). by rewrite decide_True. Qed.

Lemma shown_phase o c : shown_field o c "phase" = match obj_get "phase" o with Some VNull => None | p => p end.
Proof.
  unfold shown_field. rewrite decide_False by set_solver. case_decide as E; [destruct E as [_ ->]; done|]. rewrite decide_False by done.
  destruct (obj_get "phase" o) as [[]|]; try done. exfalso. by apply E.
Qed.

Lemma shown_again o c o' : obj_sorted o' -> (forall k, obj_get k o' = shown_field o c k) -> drop_null_phase (strip_metadata o') = o'.
Proof.
  intros Hs Hg. unfold strip_metadata. rewrite (obj_remove_absent "id"), (obj_remove_absent "status"); [|rewrite Hg; done..].
  unfold drop_null_phase. rewrite Hg, shown_phase. by destruct (obj_get "phase" o) as [[]|].
Qed.

(** What a message becomes: its content without token probabilities, no
    metadata, no empty phase. *)
Lemma message_again o v visible :
  value_wf (VObject o) -> project_message o = Ok (v, visible) ->
  exists o' c content, v = VObject o' /\ encrypted_payload v = false /\ project_message o' = Ok (v, visible) /\
    (forall k, obj_get k o' = shown_field o c k) /\ obj_get "content" o = Some content /\ (forall part, content_text c part = content_text content part) /\
    forall k, is_Some (obj_get k o) -> k ∈ ["type"; "role"; "content"; "phase"; "id"; "status"].
Proof.
  intros Hw H. unfold project_message in H. apply rbind_Ok in H as (u1 & Hf & H).
  destruct (match obj_get "phase" o with Some p => negb (phase_known p) | None => false end) eqn:Hph; [done|].
  destruct (match obj_get "role" o ≫= as_str with Some r => _ | None => false end) eqn:Hrole; [|done].
  apply rbind_Ok in H as ([shown visible'] & Hc & H). apply rbind_Ok in H as (u2 & He & [= <- <-]). apply reject_encrypted_Ok in He.
  destruct (content_again _ _ _ Hw Hc) as (c & content & -> & Econ & Htext & Hagain).
  pose proof (shown_get o c) as Hg. set (o' := drop_null_phase _) in *.
  assert (obj_sorted o') as Hs' by (unfold o'; auto).
  exists o', c, content. split_and!; [done|exact He| |auto|done|exact Htext|by eapply validate_fields_Ok].
  unfold project_message. erewrite validate_fields_sub; [| |exact Hf].
  - cbn [rbind]. rewrite !Hg by auto. rewrite shown_phase, shown_kept by set_solver.
    replace (match match obj_get "phase" o with Some VNull => None | p => p end with Some p => negb (phase_known p) | None => false end) with false
      by (by destruct (obj_get "phase" o) as [[]|]).
    rewrite Hrole, (Hagain o') by (rewrite ?Hg; auto using shown_content). cbn [rbind].
    rewrite (shown_again o c o') by auto. rewrite reject_encrypted_spec, He. done.
  - intros k. rewrite Hg by auto. unfold shown_field. repeat case_decide; subst; [by intros [? ?]..|rewrite Econ; eauto|done].
Qed.

Lemma project_item_kind o kind : obj_get "type" o ≫= as_str = Some kind -> project_item (VObject o) = project_kind kind o.
Proof. intros H. unfold project_item. cbn [as_object]. by rewrite H. Qed.

(** An item that is no message and loses some fields. *)
Lemma portable_other o o' (hidden : list string) kind visible :
  (forall k, obj_get k o' = if decide (k ∈ hidden) then None else obj_get k o) ->
  (forall k, k ∈ hidden -> k ∈ ["id"; "status"; "content"; "output_format"; "encrypted_content"]) ->
  (forall k, k ∈ ["id"; "status"; "output_format"; "encrypted_content"] -> k ∈ hidden \/ obj_get k o = None) ->
  obj_get "type" o ≫= as_str = Some kind -> kind <> "message" -> encrypted_payload (VObject o') = false ->
  project_kind kind o' = Ok (VObject o', visible) -> portable (VObject o) (VObject o') visible.
Proof.
  intros Hg Hh Hn Hk Hm Hc Hag. assert (obj_get "type" o' = obj_get "type" o) as Ht.
  { rewrite Hg. rewrite decide_False; [done|]. intros Hx%Hh. set_solver. }
  assert (obj_get "type" o <> Some (VString "message")) as Hnm by (intros E; rewrite E in Hk; simpl in Hk; congruence).
  split; [done| | | |].
  - intros k Hin. simpl. rewrite Hg. destruct (decide (k ∈ hidden)); [done|]. by destruct (Hn k Hin).
  - intros k Hin. simpl. rewrite Hg. rewrite decide_False; [done|]. intros Hx%Hh. set_solver.
  - intros part. rewrite !not_message_text; congruence.
  - rewrite (project_item_kind _ kind) by congruence. done.
Qed.

Lemma output_removed o k : obj_sorted o ->
  obj_get k (obj_remove "output_format" (strip_metadata o)) = if decide (k ∈ ["id"; "status"; "output_format"]) then None else obj_get k o.
Proof. intros Hs. rewrite vget_remove, strip_get by auto. by_keys. Qed.

Lemma reasoning_removed o k : obj_sorted o ->
  obj_get k (obj_remove "content" (obj_remove "encrypted_content" (strip_metadata o))) =
  if decide (k ∈ ["id"; "status"; "encrypted_content"; "content"]) then None else obj_get k o.
Proof. intros Hs. rewrite !vget_remove, strip_get by auto. by_keys. Qed.

(** Every item that is rendered is portable. *)
Lemma project_item_portable item v visible : value_wf item -> project_item item = Ok (v, visible) -> portable item v visible.
Proof.
  intros Hw H. destruct item as [| | | | |o]; try done. pose proof (wf_sorted _ Hw) as Hs. unfold project_item in H. cbn [as_object] in H.
  destruct (obj_get "type" o ≫= as_str) as [kind|] eqn:Ek; [|done]. destruct (decide (kind = "message")) as [->|Hm].
  { destruct (message_again _ _ _ Hw H) as (o' & c & content & -> & Hc & Hag & Hg & Econ & Ht & Hf). split; [done| | | |].
    - intros k Hk. simpl. rewrite Hg. unfold shown_field. destruct (decide (k ∈ _)); [done|]. destruct (decide (k = "phase" /\ _)); [done|].
      rewrite decide_False by set_solver. apply eq_None_not_Some. intros Hx%Hf. set_solver.
    - intros k Hk. simpl. rewrite Hg. apply shown_kept. set_solver.
    - intros part. unfold text_body, role_in, vidx, vget. rewrite !Hg, shown_content, !shown_kept by set_solver. rewrite Econ.
      destruct (negb _ || negb _); [done|]. exact (Ht part).
    - rewrite (project_item_kind o' "message"); [exact Hag|]. by rewrite Hg, shown_kept by set_solver. }
  pose proof H as Hcase. unfold project_kind in Hcase. rewrite bool_decide_eq_false_2 in Hcase by done.
  destruct (decide (kind = "function_call" \/ kind = "custom_tool_call")) as [Hcall|Hcall].
  { assert (exists custom, forall m, project_kind kind m = project_tool_call m custom) as [custom Hp] by (destruct Hcall as [->| ->]; [by exists false|by exists true]).
    rewrite Hp in H. destruct (tool_call_again _ _ _ _ Hs H) as (-> & Hcl & Hag & Hn1 & Hn2).
    apply (portable_other _ _ ["id"; "status"] kind); [intros k; by apply strip_get|set_solver|set_solver|done|done|done|by rewrite Hp]. }
  rewrite !bool_decide_eq_false_2 in Hcase by naive_solver. case_bool_decide as K4.
  { assert (forall m, project_kind kind m = project_tool_output m) as Hp.
    { intros m. unfold project_kind. by rewrite !bool_decide_eq_false_2, bool_decide_eq_true_2 by naive_solver. }
    rewrite Hp in H. destruct (tool_output_again _ _ _ Hs ltac:(eauto) H) as (-> & Hcl & Hag & Hn).
    apply (portable_other _ _ ["id"; "status"; "output_format"] kind); [intros k; by apply output_removed|set_solver|set_solver|done|done|done|by rewrite Hp]. }
  case_bool_decide as K5; [|done]. subst kind. destruct (reasoning_again _ _ _ Hw ltac:(eauto) H) as (-> & Hcl & Hag & Hn).
  apply (portable_other _ _ ["id"; "status"; "encrypted_content"; "content"] "reasoning"); [intros k; by apply reasoning_removed|set_solver|set_solver|done..].
Qed.

(** ** What the note says *)

Section note.
Variable to_json to_json_pretty : value -> string.
Variable reference_of : list Origin -> ContextReference.

Definition note_text (os : list Occurrence) (vs : list value) : string :=
  foldl (fun text e => text +:+ section_text to_json to_json_pretty (origin_json (occ_origin e.1)) e.2)
    ("[Store-generated model portability note; sources: " +:+ reference_of (occ_origin <$> os) +:+ "]") (zip os vs).

End note.

(** ** Witness *)

(** Reasoning with a sealed body, a call and its result, as one model wrote them. *)
Definition toy_native (position : Z) (item : value) : Occurrence :=
  {| occ_request := "r1"; occ_position := position; occ_hash := "h"; occ_item := item; output_operation := None;
     occ_origin := {| o_request := "r1"; o_position := position; o_hash := "h" |}; occ_sources := []; note := false; overlays := [] |}.

Definition toy_reasoning : value :=
  json_object [("type", VString "reasoning"); ("id", VString "rs_1"); ("encrypted_content", VString "sealed");
               ("summary", VArray [json_object [("type", VString "summary_text"); ("text", VString "thought")]])].

Definition toy_native_call : value :=
  json_object [("type", VString "function_call"); ("call_id", VString "c"); ("name", VString "read"); ("arguments", VString "{}");
               ("status", VString "completed")].

Definition toy_native_output : value :=
  json_object [("type", VString "function_call_output"); ("call_id", VString "c"); ("output", VString "done"); ("output_format", VString "legacy_opaque")].

Definition toy_native_group : list Occurrence := [toy_native 0 toy_reasoning; toy_native 1 toy_native_call; toy_native 2 toy_native_output].

Definition toy_print (v : value) : string := "[" +:+ String.concat "," (match v with VObject o => obj_keys o | _ => [] end) +:+ "]".

Definition toy_cite (os : list Origin) : string := pretty (length os).

Definition toy_note : value :=
  Eval vm_compute in match render_note toy_print toy_print toy_cite toy_native_group with Ok v => v | Err _ => VNull end.

Lemma toy_native_wf : Forall (fun o => value_wf (occ_item o)) toy_native_group.
Proof. repeat constructor. Qed.

