(* ===== verification/Projection.v ===== *)
(** What a model is shown of its history: [checked_projection] of
    [store/context.rs], with the checkpoint evidence of [checkpoint.rs].

    History keeps every item as its model wrote it. A projection for one model
    and transport keeps what that model may read, replaces each response of
    another model by a portability note, and refuses what it cannot account
    for. The theorems show that no opaque item reaches a model or transport
    that did not produce it, and that everything else of the history is
    shown, once and in order. *)

From S2P Require Import Prelude Json Redaction Usage Observation Sse Failure StoreDb Admission Jobs Lists Item ContextPatch ContextText HistoryDb HistoryOps ContextOrder ContextBlocks ReplayEvidence Portability.

(** ** Checkpoints *)

Inductive CheckpointCut := Deferred | BeforeCall.

Inductive CapturedResponsePrefix := ValidPrefix (origins : list Origin) (boundary : Origin) | UnprovenPrefix.

Record CheckpointMetadata := {
  cm_version : Z;
  cm_cut : CheckpointCut;
  cm_operation : option OperationId;
  cm_response_prefix : option CapturedResponsePrefix
}.

#[export] Instance CheckpointCut_eq_dec : EqDecision CheckpointCut.
Proof. solve_decision. Defined.

Record CheckpointRow := { snapshot_request : string; boundary_call : string; ck_metadata : CheckpointMetadata }.

Definition invalid_metadata {A} : result ContextFault A := Err (StoreFault (OtherStoreError "InvalidCheckpointMetadata")).

(** [CheckpointMetadata::decode], after the JSON. *)
Definition decode_metadata (m : CheckpointMetadata) : result ContextFault CheckpointMetadata :=
  let before := bool_decide (cm_cut m = BeforeCall) in
  if negb (bool_decide (cm_version m ∈ [1; 2])) || before && match cm_operation m with None => true | Some _ => false end
     || (cm_version m =? 2) && before && match cm_response_prefix m with None => true | Some _ => false end
  then invalid_metadata else Ok m.

(** ** Projections *)

Record CheckedContextProjection := {
  cp_store : string;
  cp_consumer : string;
  cp_model : option string;
  cp_items : list (string * option string * value * option Occurrence);
  cp_outputs : gmap (string * Z) nat
}.

Definition is_bound_to (p : CheckedContextProjection) (store consumer model : string) : bool :=
  bool_decide (cp_store p = store) && bool_decide (cp_consumer p = consumer) && bool_decide (cp_model p = Some model).

(** The occurrence is the one the projection shows as this item. *)
Definition projection_admits (p : CheckedContextProjection) (item : value) (o : Occurrence) : bool :=
  match cp_outputs p !! (occ_request o, occ_position o) ≫= (fun index => cp_items p !! index) with
  | Some (_, _, projected, selected) => bool_decide (projected = item) && bool_decide (selected = Some o)
  | None => false
  end.

Record ProjectState := {
  ps_seen : list (option Origin);
  ps_removed : list nat;
  ps_notes : gmap nat value
}.

Section projection.
Variable E : HistoryEvidence.
Variable db : Hdb.
Variable store_id : string.
(** The issued operation of an occurrence ([store/validation.rs]), contract
    validation ([transport/admission.rs]), the checkpoints taken on the
    ancestry of the consumer, and JSON. *)
Variable operation_for_occurrence : Occurrence -> result StoreError (option OperationId).
Variable validate_contract : NativeTransportContract -> result TransportError unit.
Variable checkpoints : list CheckpointRow.
Variables to_json to_json_pretty : value -> string.
Variable origins_of_reference : ContextReference -> list Origin.

(** One checkpoint: the cut it froze, when it is the one asked for. *)
Definition frozen_prefix (origins selected : list Origin) (row : CheckpointRow) : result ContextFault (option (list Origin)) :=
  do m <- decode_metadata (ck_metadata row);
  if negb (bool_decide (cm_cut m = BeforeCall)) then Ok None else
  match cm_operation m with
  | None => invalid_metadata
  | Some operation =>
      if negb (bool_decide (call operation = boundary_call row)) then invalid_metadata else
      do boundary <- original_call E operation;
      match cm_response_prefix m with
      | Some (ValidPrefix frozen frozen_boundary) =>
          if negb (bool_decide (boundary = frozen_boundary)) || negb (bool_decide (selected = frozen))
             || negb (bool_decide (take (length frozen) origins = frozen)) || negb (bool_decide (origins !! length frozen = Some boundary))
          then Ok None else
          do os <- map_err StoreFault (request_occurrences db (snapshot_request row));
          let retained := List.filter (fun o => bool_decide (o ∈ origins)) (occ_origin <$> os) in
          Ok (if bool_decide (retained = frozen) then Some retained else None)
      | _ => Ok None
      end
  end.

Fixpoint first_prefix (origins selected : list Origin) (rows : list CheckpointRow) : result ContextFault (option (list Origin)) :=
  match rows with
  | [] => Ok None
  | row :: rows =>
      do found <- frozen_prefix origins selected row;
      match found with Some retained => Ok (Some retained) | None => first_prefix origins selected rows end
  end.

Definition before_call_response_prefix (origins selected : list Origin) : result ContextFault (option (list Origin)) :=
  first_prefix origins selected checkpoints.

(** ** The items one response holds *)

Definition replay_rejection {A} (r : ContextReplayRejection) : result ContextFault A := Err (Replay r).

Definition retained_at (all : list Occurrence) (origin : Origin) : bool := negb (bool_decide (positions_of all origin = [])).

(** The origins of a response, or the part of them a checkpoint froze. *)
Definition retained_origins (all : list Occurrence) (origins : list Origin) : result ContextFault (list Origin) :=
  match list_find (fun o => retained_at all o = false) origins with
  | None => Ok origins
  | Some (cut, _) =>
      if (cut =? 0)%nat || existsb (retained_at all) (drop cut origins) then replay_rejection InvalidMembership else
      do prefix <- before_call_response_prefix origins (take cut origins);
      ok_or prefix (Replay InvalidPrefix)
  end.

Definition add_member (all : list Occurrence) (members : list nat) (origin : Origin) : result ContextFault (list nat) :=
  match positions_of all origin with
  | [index] =>
      if match last members with Some previous => (index <=? previous)%nat | None => false end
      then replay_rejection InvalidMembership else Ok (members ++ [index])
  | _ => replay_rejection InvalidMembership
  end.

(** The outputs of each call, by position. *)
Definition call_output (x : nat * Occurrence) : result ContextFault (Origin * nat) :=
  let '(index, o) := x in
  do operation <- ok_or (output_operation o) (StoreFault (UnboundOutputPublication (occ_request o) (occ_position o)));
  do '(kind, owner) <- ok_or (invocation E operation) OpaqueModel;
  do _ <- validate_replay_output (call operation) kind (occ_item o);
  Ok (owner, index).

Definition call_outputs (all : list Occurrence) : result ContextFault (list (Origin * nat)) :=
  map_result call_output (List.filter (fun x => is_tool_output (occ_item x.2)) (imap pair all)).

(** The one output that follows a call of the response, paired once. *)
Definition pair_output (all : list Occurrence) (outputs : list (Origin * nat)) (completing : option OperationId)
    (acc : list nat * list nat) (index : nat) : result ContextFault (list nat * list nat) :=
  let '(paired, members) := acc in
  match all !! index with
  | None => Ok acc
  | Some o =>
      match tool_call (read_json E) (occ_item o) with
      | Err _ => Err OpaqueModel
      | Ok None => Ok acc
      | Ok (Some c) =>
          do completion <- validated_completion E (occ_origin o);
          if completion then Ok acc else
          match omap (fun e => if bool_decide (e.1 = occ_origin o) && (index <? e.2)%nat then Some e.2 else None) outputs with
          | [output_index] =>
              do output <- ok_or (all !! output_index) OpaqueModel;
              if negb (veq_str (vidx (occ_item output) "type") (output_type (input_kind (tc_input c)))) || bool_decide (output_index ∈ paired)
              then Err OpaqueModel else
              do _ <- validate_portable_output E o output (tc_call_id c) completing;
              Ok (output_index :: paired, if bool_decide (output_index ∈ members) then members else members ++ [output_index])
          | _ => Err OpaqueModel
          end
      end
  end.

Definition remove_member (all : list Occurrence) (paired : list nat) (removed : list nat) (index : nat) : result ContextFault (list nat) :=
  if match all !! index with Some o => is_tool_output (occ_item o) | None => false end && negb (bool_decide (index ∈ paired))
  then Err OpaqueModel
  else if bool_decide (index ∈ removed) then Err OpaqueModel else Ok (removed ++ [index]).

Definition items_at (all : list Occurrence) (members : list nat) : list Occurrence := omap (fun i => all !! i) members.

Definition is_reasoning (o : Occurrence) : bool := veq_str (vidx (occ_item o) "type") "reasoning".

(** A response of another model leaves the history; a note stands at its
    first place, unless an authenticated cut left only hidden reasoning. *)
Definition replace_group (all : list Occurrence) (outputs : list (Origin * nat)) (completing : option OperationId) (complete : bool)
    (members : list nat) (s : ProjectState) : result ContextFault ProjectState :=
  do '(paired, members) <- fold_result (pair_output all outputs completing) ([], members) members;
  let members := sort_by Nat.leb members in
  do removed <- fold_result (remove_member all paired) (ps_removed s) members;
  let os := items_at all members in
  do notes <- match render_note to_json to_json_pretty (reference_of E) os with
              | Ok note => Ok (<[default 0%nat (head members) := note]> (ps_notes s))
              | Err (Portability NoVisibleContent) =>
                  if negb complete && forallb is_reasoning os then Ok (ps_notes s) else Err (Portability NoVisibleContent)
              | Err e => Err e
              end;
  Ok {| ps_seen := ps_seen s; ps_removed := removed; ps_notes := notes |}.

(** One opaque occurrence of the history. A response has a first item. *)
Definition project_opaque (all : list Occurrence) (outputs : list (Origin * nat)) (model : option string)
    (completing : option OperationId) (transport : option (ResponsesRoute * ResponsesProtocol)) (s : ProjectState) (o : Occurrence)
    : result ContextFault ProjectState :=
  if is_owner_setting (occ_item o) then Ok s else
  do env <- ok_or (response_evidence E !! occ_origin o) (Replay (MissingProvenance (o_request (occ_origin o))));
  do selected <- ok_or model InvalidModel;
  if bool_decide (head (re_origins env) ∈ ps_seen s) then Ok s else
  let s := {| ps_seen := head (re_origins env) :: ps_seen s; ps_removed := ps_removed s; ps_notes := ps_notes s |} in
  let complete := forallb (retained_at all) (re_origins env) in
  do origins <- retained_origins all (re_origins env);
  do members <- fold_result (add_member all) [] origins;
  if bool_decide (re_model env = selected) then
    refuse negb (bool_decide ((route ← re_route env; protocol ← re_protocol env; Some (route, protocol)) = transport))
           || bool_decide (transport = None) with Replay IncompatibleTransport;
    Ok s
  else
    refuse existsb (fun o => negb (bool_decide (overlays o = []))) all
           || match re_kind env with KindServerCompaction => true | KindModelTurn => false end with OpaqueModel;
    replace_group all outputs completing complete members s.

(** ** The projection *)

Definition check_transport (native : option NativeTransportContract) (transport : option (ResponsesRoute * ResponsesProtocol))
    : result ContextFault unit :=
  match native with
  | None => Ok tt
  | Some n =>
      do _ <- map_err (fun e => StoreFault (ProviderAdmission e)) (validate_contract n);
      guard bool_decide (transport = Some (nt_route n, nt_protocol n)) else StoreFault (ProviderAdmission InvalidAdmission);
      Ok tt
  end.

(** A retained call was issued here, or ended its program's turn. *)
Definition check_owned (o : Occurrence) : result ContextFault unit :=
  match tool_call (read_json E) (occ_item o) with
  | Err _ => Err UnsupportedState
  | Ok None => Ok tt
  | Ok (Some _) =>
      do operation <- map_err StoreFault (operation_for_occurrence o);
      match operation with
      | Some _ => Ok tt
      | None =>
          do completion <- validated_completion E (occ_origin o);
          guard completion else Replay (UnownedInvocation (o_request (occ_origin o)) (o_position (occ_origin o)));
          Ok tt
      end
  end.

Definition projection_target (model : option string) (transport : option (ResponsesRoute * ResponsesProtocol))
    (native : option NativeTransportContract) : option ContextProjectionTarget :=
  match model, transport with
  | Some model, Some (route, protocol) =>
      Some {| target_model := model; target_route := route; target_protocol := protocol; target_native := native |}
  | _, _ => None
  end.

Definition is_reasoning_overlay (v : ContextTextOverlay) : bool := match ov_selector v with ReasoningText _ => true | _ => false end.

Definition project_entry (s : ProjectState) (x : nat * Occurrence)
    : result ContextFault (option (string * option string * value * option Occurrence)) :=
  let '(index, o) := x in
  match ps_notes s !! index with
  | Some note => Ok (Some (occ_request o, None, note, None))
  | None =>
      if bool_decide (index ∈ ps_removed s) then Ok None else
      do item <- project_context_note origins_of_reference o;
      Ok (Some (occ_request o, if negb (note o) && bool_decide (overlays o = []) then Some (occ_hash o) else None, item, Some o))
  end.

Definition output_index (acc : gmap (string * Z) nat) (x : nat * (string * option string * value * option Occurrence)) : gmap (string * Z) nat :=
  match x.2 with
  | (_, Some o) => match output_operation o with Some _ => <[(occ_request o, occ_position o) := x.1]> acc | None => acc end
  | (_, None) => acc
  end.

Definition ordered_history (all : list Occurrence) : result ContextFault (list Occurrence) :=
  do indices <- map_err StoreFault (output_order db ((fun o => o_request (occ_origin o)) <$> all));
  Ok (ordered_occurrences indices all).

Definition project_history (all : list Occurrence) (model : option string) (completing : option OperationId)
    (transport : option (ResponsesRoute * ResponsesProtocol)) (native : option NativeTransportContract) : result ContextFault ProjectState :=
  do _ <- validate_history E all;
  do _ <- map_result check_owned all;
  let editable := reasoning_editable_origins E all (length all) (projection_target model transport native) in
  refuse existsb (fun o => existsb is_reasoning_overlay (overlays o) && negb (bool_decide (occ_origin o ∈ editable))) all with NativeEdit;
  do outputs <- call_outputs all;
  fold_result (project_opaque all outputs model completing transport) {| ps_seen := []; ps_removed := []; ps_notes := ∅ |}
    (List.filter (fun o => opaque (occ_item o)) all).

Definition checked_projection (consumer : string) (all : list Occurrence) (model : option string) (completing : option OperationId)
    (transport : option (ResponsesRoute * ResponsesProtocol)) (native : option NativeTransportContract)
    : result ContextFault CheckedContextProjection :=
  do _ <- check_transport native transport;
  do all <- ordered_history all;
  do s <- project_history all model completing transport native;
  do projected <- map_result (project_entry s) (imap pair all);
  let items := omap id projected in
  Ok {| cp_store := store_id; cp_consumer := consumer; cp_model := model; cp_items := items;
        cp_outputs := foldl output_index ∅ (imap pair items) |}.
End projection.

(** ** Members *)

Lemma positions_single all origin index i o :
  positions_of all origin = [index] -> all !! i = Some o -> occ_origin o = origin -> i = index.
Proof.
  intros H Hi Ho. assert (i ∈ positions_of all origin) as Hin by (apply positions_of_elem; eauto). rewrite H in Hin. by apply list_elem_of_singleton in Hin.
Qed.

Lemma retained_at_spec all origin : retained_at all origin = true <-> exists o, o ∈ all /\ occ_origin o = origin.
Proof.
  unfold retained_at. rewrite negb_true_iff, bool_decide_eq_false. split.
  - intros H. destruct (positions_of all origin) as [|i l] eqn:E; [done|].
    assert (i ∈ positions_of all origin) as (o & Ho & Heq)%positions_of_elem by (rewrite E; set_solver). exists o. split; [|done]. by eapply list_elem_of_lookup_2.
  - intros (o & [i Hi]%list_elem_of_lookup & <-) E. assert (i ∈ positions_of all (occ_origin o)) as H by (apply positions_of_elem; eauto). rewrite E in H. set_solver.
Qed.

(** The loop over a response's origins yields the place of each, in order. *)
Lemma add_members all origins : forall acc members,
  fold_result (add_member all) acc origins = Ok members ->
  exists new, members = acc ++ new /\ Forall2 (fun origin i => positions_of all origin = [i]) origins new /\
    (StronglySorted lt acc -> StronglySorted lt members).
Proof.
  induction origins as [|origin origins IH]; intros acc members H; simpl in H.
  - injection H as <-. exists []. by rewrite app_nil_r.
  - apply rbind_Ok in H as (acc' & Ha & H). unfold add_member in Ha. destruct (positions_of all origin) as [|i []] eqn:Ep; try done.
    destruct (match last acc with Some previous => _ | None => _ end) eqn:El in Ha; [done|]. injection Ha as <-.
    destruct (IH _ _ H) as (new & -> & Hn & Hs). exists (i :: new). rewrite <- app_assoc. split_and!; [done|by constructor|].
    intros Hacc. rewrite <- app_assoc in Hs. apply Hs. apply StronglySorted_snoc; [done|]. destruct (last acc) as [p|] eqn:Ela.
    + apply Nat.leb_gt in El. apply last_Some in Ela as [l ->]. apply Forall_forall. intros j Hj.
      apply elem_of_app in Hj as [Hj| ->%list_elem_of_singleton]; [|done].
      pose proof (StronglySorted_app_1_elem_of _ _ _ j p Hacc Hj ltac:(set_solver)). lia.
    + apply last_None in Ela as ->. constructor.
Qed.

Lemma members_lookup all origins members i o :
  Forall2 (fun origin i => positions_of all origin = [i]) origins members -> all !! i = Some o -> occ_origin o ∈ origins -> i ∈ members.
Proof.
  intros H Hi [k Hk]%list_elem_of_lookup. destruct (Forall2_lookup_l _ _ _ _ _ H Hk) as (j & Hj & Hp).
  rewrite (positions_single _ _ _ _ _ Hp Hi eq_refl). by eapply list_elem_of_lookup_2.
Qed.

Lemma members_origin all origins members i :
  Forall2 (fun origin i => positions_of all origin = [i]) origins members -> i ∈ members -> exists o, all !! i = Some o /\ occ_origin o ∈ origins.
Proof.
  intros H [k Hk]%list_elem_of_lookup. destruct (Forall2_lookup_r _ _ _ _ _ H Hk) as (origin & Ho & Hp).
  assert (i ∈ positions_of all origin) as (o & Hi & <-)%positions_of_elem by (rewrite Hp; set_solver). exists o. split; [done|]. by eapply list_elem_of_lookup_2.
Qed.

Section facts.
Variable E : HistoryEvidence.
Variable db : Hdb.
Variable checkpoints : list CheckpointRow.

(** A checkpoint proves exactly the cut that was asked for. *)
Lemma first_prefix_selected origins selected rows frozen :
  first_prefix E db origins selected rows = Ok (Some frozen) -> frozen = selected.
Proof.
  induction rows as [|row rows IH]; simpl; [done|]. intros H. apply rbind_Ok in H as ([found|] & Hf & H); [|by apply IH]. injection H as <-.
  unfold frozen_prefix in Hf. apply rbind_Ok in Hf as (m & _ & Hf). destruct (negb _); [done|]. destruct (cm_operation m); [|done].
  destruct (negb _); [done|]. apply rbind_Ok in Hf as (b & _ & Hf). destruct (cm_response_prefix m) as [[frozen b'|]|]; try done.
  destruct (_ || _) eqn:Eg; [done|]. apply rbind_Ok in Hf as (os & _ & Hf). case_bool_decide as Hr; [|done]. injection Hf as <-.
  rewrite !orb_false_iff, !negb_false_iff, !bool_decide_eq_true in Eg. destruct Eg as [[[_ ->] _] _]. done.
Qed.

(** All origins of a response that are retained are among the ones accounted for. *)
Lemma retained_origins_ok all origins kept :
  retained_origins E db checkpoints all origins = Ok kept ->
  (forall o, o ∈ all -> occ_origin o ∈ origins -> occ_origin o ∈ kept) /\ (forall x, x ∈ kept -> x ∈ origins) /\ (origins <> [] -> kept <> []).
Proof.
  unfold retained_origins. destruct (list_find _ origins) as [[cut x]|] eqn:Ef; [|by intros [= <-]].
  destruct (_ || _) eqn:Eg; [done|]. intros H. apply rbind_Ok in H as (prefix & Hp & H). apply ok_or_Ok in H as ->.
  apply first_prefix_selected in Hp as ->. apply orb_false_iff in Eg as [Hc Ed]. apply Nat.eqb_neq in Hc.
  apply list_find_Some in Ef as (Hx & _ & _). split_and!.
  - intros o Ho Hin. rewrite <- (take_drop cut origins) in Hin. apply elem_of_app in Hin as [|Hin]; [done|].
    rewrite existsb_false in Ed. specialize (Ed _ Hin). assert (retained_at all (occ_origin o) = true) by (apply retained_at_spec; eauto). congruence.
  - intros y Hy. by eapply elem_of_take in Hy as (i & Hi & _); eapply list_elem_of_lookup_2.
  - intros _ Hnil. apply (f_equal length) in Hnil. rewrite length_take in Hnil. apply lookup_lt_Some in Hx. simpl in Hnil. lia.
Qed.
End facts.

(** ** Replaced groups *)

Section groups.
Variable E : HistoryEvidence.
Variables to_json to_json_pretty : value -> string.
#[local] Abbreviation render_note := (render_note to_json to_json_pretty (reference_of E)).

(** A place of a response's group: one of its items, or the output of one of
    its calls. *)
Definition in_response (all : list Occurrence) (env : ResponseEnvelope) (i : nat) : Prop :=
  exists o, all !! i = Some o /\
    (occ_origin o ∈ re_origins env \/ exists operation origin, output_operation o = Some operation /\ original_call E operation = Ok origin /\ origin ∈ re_origins env).

(** A replaced group: its places and its note. *)
Record group_of (all : list Occurrence) (env : ResponseEnvelope) (g : list nat * option value) : Prop := {
  group_sorted : StronglySorted lt g.1;
  group_some : g.1 <> [];
  group_response : Forall (in_response all env) g.1;
  group_note : match g.2 with Some note => render_note (items_at all g.1) = Ok note | None => Forall (fun o => is_reasoning o = true) (items_at all g.1) end
}.

Lemma pair_outputs all outputs completing env l : forall paired members paired' members',
  (forall i o, i ∈ l -> all !! i = Some o -> occ_origin o ∈ re_origins env) ->
  fold_result (pair_output E all outputs completing) (paired, members) l = Ok (paired', members') ->
  NoDup members -> Forall (in_response all env) members ->
  NoDup members' /\ Forall (in_response all env) members' /\ forall i, i ∈ members -> i ∈ members'.
Proof.
  induction l as [|i l IH]; intros paired members paired' members' Hl H Hnd Hin; simpl in H; [injection H as <- <-; done|].
  apply rbind_Ok in H as ([paired1 members1] & Hp & H).
  assert (NoDup members1 /\ Forall (in_response all env) members1 /\ forall j, j ∈ members -> j ∈ members1) as (H1 & H2 & H3).
  { unfold pair_output in Hp. destruct (all !! i) as [o|] eqn:Ei; [|by injection Hp as <- <-].
    destruct (tool_call _ _) as [[c|]|]; [|by injection Hp as <- <-|done]. apply rbind_Ok in Hp as (completion & _ & Hp).
    destruct completion; [by injection Hp as <- <-|]. destruct (omap _ outputs) as [|k []]; try done.
    destruct (all !! k) as [output|] eqn:Ek; [|done]. cbn [ok_or rbind] in Hp. destruct (_ || _); [done|].
    apply rbind_Ok in Hp as (u & Hv & Hp). injection Hp as <- <-. case_bool_decide as Hk; [done|].
    split; [by apply NoDup_snoc|]. split; [|set_solver]. apply Forall_snoc. split; [done|]. exists output. split; [done|]. right.
    unfold validate_portable_output in Hv. apply rbind_Ok in Hv as (operation & Ho & Hv). apply ok_or_Ok in Ho.
    destruct (bool_decide (call operation = _)); [|done]. apply rbind_Ok in Hv as (origin & Hor & Hv). case_bool_decide as Heq; [|done].
    exists operation, origin. split_and!; [done|done|]. rewrite Heq. apply (Hl i); [set_solver|done]. }
  destruct (IH paired1 members1 paired' members') as (H4 & H5 & H6); [intros j o Hj; apply Hl; set_solver|done..|]. eauto.
Qed.

Lemma remove_members all paired l : forall removed removed',
  fold_result (remove_member all paired) removed l = Ok removed' -> removed' = removed ++ l /\ (NoDup removed -> NoDup removed').
Proof.
  induction l as [|i l IH]; intros removed removed' H; simpl in H; [injection H as <-; by rewrite app_nil_r|].
  apply rbind_Ok in H as (r & Hr & H). unfold remove_member in Hr. destruct (_ && _); [done|]. case_bool_decide as Hi; [done|]. injection Hr as <-.
  destruct (IH _ _ H) as [-> Hnd]. rewrite <- app_assoc in *. split; [done|]. intros Hr. by apply Hnd, NoDup_snoc.
Qed.

Lemma sorted_places (l : list nat) : NoDup l -> StronglySorted lt (sort_by Nat.leb l).
Proof.
  intros Hnd. assert (NoDup (sort_by Nat.leb l)) as Hs by (by rewrite sort_by_perm).
  assert (StronglySorted (fun a b => Nat.leb a b = true) (sort_by Nat.leb l)) as Hl.
  { apply sort_by_sorted; intros *; rewrite !Nat.leb_le; lia. }
  induction Hl as [|x k Hl IH Hx]; [constructor|]. apply NoDup_cons in Hs as [Hn Hs]. constructor; [by apply IH|].
  rewrite Forall_forall in *. intros y Hy. specialize (Hx y Hy). apply Nat.leb_le in Hx. assert (x <> y) by (by intros ->). lia.
Qed.

Lemma replace_group_ok all outputs completing complete env members s s' :
  replace_group E to_json to_json_pretty all outputs completing complete members s = Ok s' ->
  StronglySorted lt members -> members <> [] -> (forall i, i ∈ members -> exists o, all !! i = Some o /\ occ_origin o ∈ re_origins env) ->
  exists g, group_of all env g /\ (forall i, i ∈ members -> i ∈ g.1) /\ ps_seen s' = ps_seen s /\ ps_removed s' = ps_removed s ++ g.1 /\
    (NoDup (ps_removed s) -> NoDup (ps_removed s')) /\
    ps_notes s' = match g.2 with Some note => <[default 0%nat (head g.1) := note]> (ps_notes s) | None => ps_notes s end.
Proof.
  unfold replace_group. intros H Hs Hne Hm. apply rbind_Ok in H as ([paired members'] & Hp & H).
  assert (Hin : Forall (in_response all env) members).
  { apply Forall_forall. intros i Hi. destruct (Hm i Hi) as (o & Ho & Ho'). exists o. eauto. }
  assert (NoDup members) as Hnd by (clear -Hs; induction Hs as [|x l Hs IH Hx]; constructor; [rewrite Forall_forall in Hx; intros Hi; specialize (Hx x Hi); lia|done]).
  destruct (pair_outputs all outputs completing env members [] members paired members') as (H1 & H2 & H3); [|done..|].
  { intros i o Hi Ho. destruct (Hm i Hi) as (o' & Ho' & Hr). congruence. }
  apply rbind_Ok in H as (removed & Hr & H). apply remove_members in Hr as [-> Hrd]. apply rbind_Ok in H as (notes & Hn & [= <-]).
  set (g := sort_by Nat.leb members') in *.
  assert (g ≡ₚ members') as Hg by (unfold g; apply sort_by_perm).
  assert (exists n, match n with Some note => render_note (items_at all g) = Ok note | None => Forall (fun o => is_reasoning o = true) (items_at all g) end /\
    notes = match n with Some note => <[default 0%nat (head g) := note]> (ps_notes s) | None => ps_notes s end) as (n & Hnote & ->).
  { destruct (render_note (items_at all g)) as [note|e] eqn:Er.
    - injection Hn as <-. by exists (Some note).
    - destruct e as [| | | | | | | | | | |[]| |]; try done. destruct (_ && _) eqn:Ec; [|done]. injection Hn as <-. exists None. split; [|done].
      apply andb_true_iff in Ec as [_ Ec]. apply Forall_forall. intros o Ho%list_elem_of_In. by eapply forallb_forall in Ec. }
  exists (g, n). simpl. split_and!; [|intros i Hi; rewrite Hg; auto|done..]. split; simpl.
  - by apply sorted_places.
  - intros E'. rewrite E' in Hg. apply Permutation_nil_l in Hg. subst members'. destruct members as [|i l]; [done|]. specialize (H3 i ltac:(set_solver)). set_solver.
  - by rewrite Hg.
  - done.
Qed.
End groups.

(** ** The loop over opaque occurrences *)

Section loop.
Variable E : HistoryEvidence.
Variable db : Hdb.
Variable checkpoints : list CheckpointRow.
Variables to_json to_json_pretty : value -> string.
Variable all : list Occurrence.
Variable model : option string.
Variable transport : option (ResponsesRoute * ResponsesProtocol).

Definition zip_transport (env : ResponseEnvelope) : option (ResponsesRoute * ResponsesProtocol) :=
  route ← re_route env; protocol ← re_protocol env; Some (route, protocol).

(** A model reads the sealed items of its own responses, over the transport
    that carried them. *)
Definition may_read (env : ResponseEnvelope) : Prop :=
  model = Some (re_model env) /\ transport <> None /\ zip_transport env = transport.

(** What evidence promises: a response holds the items it is evidence for, and
    its first item identifies it. *)
Record coherent : Prop := {
  own_origin : forall origin env, response_evidence E !! origin = Some env -> origin ∈ re_origins env;
  one_response : forall o1 o2 e1 e2, response_evidence E !! o1 = Some e1 -> response_evidence E !! o2 = Some e2 ->
    head (re_origins e1) = head (re_origins e2) -> e1 = e2
}.
Hypothesis Hcoherent : coherent.

Record loop_ok (past : list Occurrence) (s : ProjectState) (groups : list (list nat * option value)) : Prop := {
  lo_seen : forall o, o ∈ past -> is_owner_setting (occ_item o) = false ->
    exists env, response_evidence E !! occ_origin o = Some env /\ head (re_origins env) ∈ ps_seen s;
  lo_accounted : forall h, h ∈ ps_seen s -> exists env origin, response_evidence E !! origin = Some env /\ h = head (re_origins env) /\
    (may_read env \/ forall i o, all !! i = Some o -> occ_origin o ∈ re_origins env -> i ∈ ps_removed s);
  lo_removed : ps_removed s = concat groups.*1;
  lo_groups : Forall (fun g => exists env origin, response_evidence E !! origin = Some env /\ model <> Some (re_model env) /\
                               group_of E to_json to_json_pretty all env g) groups;
  lo_nodup : NoDup (ps_removed s);
  lo_notes : forall i note, ps_notes s !! i = Some note <-> exists g, (g, Some note) ∈ groups /\ head g = Some i
}.

Lemma loop_more past s groups o :
  loop_ok past s groups -> (is_owner_setting (occ_item o) = false ->
    exists env, response_evidence E !! occ_origin o = Some env /\ head (re_origins env) ∈ ps_seen s) -> loop_ok (past ++ [o]) s groups.
Proof.
  intros [] Ho. split; [|done..]. intros o' [Ho'| ->%list_elem_of_singleton]%elem_of_app; auto.
Qed.

(** The head of a new group is no old note's place. *)
Lemma loop_notes (s : ProjectState) groups (g : list nat) (n : option value) :
  ps_removed s = concat groups.*1 -> NoDup (ps_removed s ++ g) -> g <> [] ->
  (forall i note, ps_notes s !! i = Some note <-> exists g, (g, Some note) ∈ groups /\ head g = Some i) ->
  forall i note, match n with Some v => <[default 0%nat (head g) := v]> (ps_notes s) | None => ps_notes s end !! i = Some note <->
    exists g', (g', Some note) ∈ groups ++ [(g, n)] /\ head g' = Some i.
Proof.
  intros Hr Hnd Hne Hn i note. destruct g as [|k g]; [done|]. setoid_rewrite elem_of_app. setoid_rewrite list_elem_of_singleton.
  destruct n as [v|]; simpl.
  - destruct (decide (i = k)) as [->|Hik].
    + rewrite lookup_insert_eq. split.
      * intros [= ->]. exists (k :: g). split; [by right|done].
      * intros (g' & [Hg|[= -> ->]] & Hh); [|done]. exfalso. apply NoDup_app in Hnd as (_ & Hd & _). apply (Hd k); [|set_solver].
        rewrite Hr. apply list_elem_of_In, in_concat. exists g'. split; [apply list_elem_of_In, list_elem_of_fmap; by exists (g', Some note)|].
        apply list_elem_of_In. destruct g'; [done|]. injection Hh as ->. set_solver.
    + rewrite lookup_insert_ne by done. rewrite Hn. split; [intros (g' & Hg & Hh); exists g'; auto|].
      intros (g' & [Hg|[= -> ->]] & Hh); [by exists g'|]. simpl in Hh. congruence.
  - rewrite Hn. split; [intros (g' & Hg & Hh); exists g'; auto|]. intros (g' & [Hg|[= _]] & Hh). by exists g'.
Qed.

Lemma project_opaque_ok outputs completing past s groups o s' :
  loop_ok past s groups -> project_opaque E db checkpoints to_json to_json_pretty all outputs model completing transport s o = Ok s' ->
  exists groups', loop_ok (past ++ [o]) s' groups'.
Proof.
  intros Hok H. unfold project_opaque in H. destruct (is_owner_setting (occ_item o)) eqn:Eset.
  { injection H as <-. exists groups. apply loop_more; [done|congruence]. }
  apply rbind_Ok in H as (env & He & H). apply ok_or_Ok in He. apply rbind_Ok in H as (selected & Hm & H). apply ok_or_Ok in Hm.
  case_bool_decide as Hseen. { injection H as <-. exists groups. apply loop_more; eauto. }
  apply rbind_Ok in H as (origins & Ho & H). apply rbind_Ok in H as (members & Hmem & H).
  pose proof (own_origin Hcoherent _ _ He) as Hown.
  destruct (retained_origins_ok _ _ _ _ _ _ Ho) as (Hkeep & Hsub & Hnn).
  destruct (add_members _ _ _ _ Hmem) as (new & Hnew & Hpos & Hsorted). simpl in Hnew. subst new. specialize (Hsorted ltac:(constructor)).
  destruct Hok as [L1 L2 L3 L4 L5 L6]. case_bool_decide as Hsame.
  - destruct (_ || _) eqn:Et in H; [done|]. injection H as <-. exists groups.
    rewrite orb_false_iff, negb_false_iff, bool_decide_eq_true, bool_decide_eq_false in Et. destruct Et as [Et1 Et2].
    split; simpl; [| |done..].
    + intros o' [Ho'| ->%list_elem_of_singleton]%elem_of_app Hs'; [destruct (L1 o' Ho' Hs') as (e & ? & ?); exists e; set_solver|]. exists env. set_solver.
    + intros h [->|Hh]%elem_of_cons; [|by apply L2]. exists env, (occ_origin o). split_and!; [done|done|left]. split; [congruence|done].
  - destruct (_ || _) in H; [done|].
    destruct (replace_group_ok _ _ _ _ _ _ _ env _ _ _ H Hsorted) as (g & Hg & Hin & Hs1 & Hs2 & Hs3 & Hs4).
    { intros ->. inversion Hpos as [Hnil|]; subst. apply Hnn; [intros Hnil; rewrite Hnil in Hown; by apply elem_of_nil in Hown|done]. }
    { intros i Hi. destruct (members_origin _ _ _ _ Hpos Hi) as (o' & ? & ?). eauto. }
    simpl in Hs1, Hs2, Hs3, Hs4. specialize (Hs3 L5). exists (groups ++ [g]). split.
    + rewrite Hs1. intros o' [Ho'| ->%list_elem_of_singleton]%elem_of_app Hs'; [destruct (L1 o' Ho' Hs') as (e & ? & ?); exists e; set_solver|]. exists env. set_solver.
    + rewrite Hs1, Hs2. intros h [->|Hh]%elem_of_cons.
      * exists env, (occ_origin o). split_and!; [done|done|right]. intros i o' Hi Ho'. apply elem_of_app. right. apply Hin.
        eapply members_lookup; [exact Hpos|exact Hi|]. apply Hkeep; [by eapply list_elem_of_lookup_2|done].
      * destruct (L2 h Hh) as (e & x & Hx & Hhe & [Hr|Hr]); exists e, x; split_and!; [done|done|by left|done|done|right].
        intros i o' Hi Ho'. apply elem_of_app. left. by eapply Hr.
    + rewrite Hs2, L3, fmap_app, concat_app. simpl. by rewrite app_nil_r.
    + apply Forall_snoc. split; [done|]. exists env, (occ_origin o). split_and!; [done|congruence|done].
    + done.
    + rewrite Hs4. destruct g as [g n]. apply loop_notes; [done| |apply Hg|done]. simpl in Hs2. by rewrite <- Hs2.
Qed.

Lemma opaque_loop outputs completing l s :
  fold_result (project_opaque E db checkpoints to_json to_json_pretty all outputs model completing transport)
    {| ps_seen := []; ps_removed := []; ps_notes := ∅ |} l = Ok s -> exists groups, loop_ok l s groups.
Proof.
  intros H. apply (fold_result_inv _ (fun past s => exists groups, loop_ok past s groups)) with (past := []) in H; [done| |].
  - intros past acc o acc' [groups Hok] Ho. by eapply project_opaque_ok.
  - exists []. split; simpl; [set_solver|set_solver|done|constructor|constructor|]. intros i note. rewrite lookup_empty. split; [done|]. set_solver.
Qed.
End loop.

(** ** What is shown *)

(** How each place of the history is shown. *)
Inductive shown_as (cites : ContextReference -> list Origin) (groups : list (list nat * option value))
    : nat * Occurrence -> option (string * option string * value * option Occurrence) -> Prop :=
| shown_note i o g note :
    (g, Some note) ∈ groups -> head g = Some i -> shown_as cites groups (i, o) (Some (occ_request o, None, note, None))
| left_out i o :
    i ∈ concat groups.*1 -> (forall g note, (g, Some note) ∈ groups -> head g <> Some i) -> shown_as cites groups (i, o) None
| shown_itself i o item :
    i ∉ concat groups.*1 -> project_context_note cites o = Ok item ->
    shown_as cites groups (i, o) (Some (occ_request o, if negb (note o) && bool_decide (overlays o = []) then Some (occ_hash o) else None, item, Some o)).

Section claims.
Variable E : HistoryEvidence.
Variable db : Hdb.
Variable store_id : string.
Variable operation_for_occurrence : Occurrence -> result StoreError (option OperationId).
Variable validate_contract : NativeTransportContract -> result TransportError unit.
Variable checkpoints : list CheckpointRow.
Variables to_json to_json_pretty : value -> string.
Variable origins_of_reference : ContextReference -> list Origin.
#[local] Abbreviation checked_projection :=
  (checked_projection E db store_id operation_for_occurrence validate_contract checkpoints to_json to_json_pretty origins_of_reference).
#[local] Abbreviation loop_ok := (loop_ok E to_json to_json_pretty).

Lemma project_entry_shown history model transport past s groups x e :
  loop_ok history model transport past s groups -> project_entry origins_of_reference s x = Ok e -> shown_as origins_of_reference groups x e.
Proof.
  intros Hok H. destruct x as [i o]. unfold project_entry in H. destruct (ps_notes s !! i) as [n|] eqn:En.
  - injection H as <-. apply (lo_notes _ _ _ _ _ _ _ _ _ Hok) in En as (g & Hg & Hh). by eapply shown_note.
  - pose proof (lo_removed _ _ _ _ _ _ _ _ _ Hok) as Hr. case_bool_decide as Hi.
    + injection H as <-. apply left_out; [by rewrite <- Hr|]. intros g n Hg Hh. assert (ps_notes s !! i = Some n) by (apply (lo_notes _ _ _ _ _ _ _ _ _ Hok); eauto). congruence.
    + apply rbind_Ok in H as (item & Hp & [= <-]). apply shown_itself; [by rewrite <- Hr|done].
Qed.

(** What a projection consists of. *)
Lemma projection_parts consumer all model completing transport native p :
  coherent E -> checked_projection consumer all model completing transport native = Ok p ->
  exists history s groups projected,
    ordered_history db all = Ok history /\
    loop_ok history model transport (List.filter (fun o => opaque (occ_item o)) history) s groups /\
    Forall2 (shown_as origins_of_reference groups) (imap pair history) projected /\ cp_items p = omap id projected.
Proof.
  intros Hc H. unfold Projection.checked_projection in H. apply rbind_Ok in H as (u & _ & H). apply rbind_Ok in H as (history & Hh & H).
  apply rbind_Ok in H as (s & Hs & H). apply rbind_Ok in H as (projected & Hp & [= <-]).
  unfold project_history in Hs. repeat (apply rbind_Ok in Hs as (? & _ & Hs)). destruct (existsb _ history) in Hs; [done|].
  apply rbind_Ok in Hs as (outputs & _ & Hs). destruct (opaque_loop _ _ _ _ _ _ _ _ Hc _ _ _ _ Hs) as [groups Hok].
  exists history, s, groups, projected. split_and!; [done|done| |done]. apply map_result_Ok in Hp. eapply Forall2_impl; [exact Hp|].
  intros y e. by eapply project_entry_shown.
Qed.

Lemma in_imap_pair {A} (l : list A) i x : (i, x) ∈ imap pair l <-> l !! i = Some x.
Proof.
  rewrite list_elem_of_lookup. split.
  - intros [j Hj]. rewrite list_lookup_imap in Hj. destruct (l !! j) eqn:El; [|done]. by injection Hj as <- <-.
  - intros Hi. exists i. by rewrite list_lookup_imap, Hi.
Qed.


End claims.

(** ** Witnesses *)

Definition toy_spot_origin (i : Z) : Origin := {| o_request := "r1"; o_position := i; o_hash := "h" |}.

Definition toy_response (model : string) (origins : list Z) : ResponseEnvelope :=
  {| re_model := model; re_origins := toy_spot_origin <$> origins; re_kind := KindModelTurn; re_completeness := CompleteResponse;
     re_route := Some ChatGptPlan; re_protocol := Some Standard; re_native := None |}.

(** A question; hidden reasoning, a call and its result by one model; hidden
    reasoning by another. *)
Definition toy_mixed : list Occurrence :=
  [toy_spot 0 None (toy_message "question"); toy_spot 1 None toy_reasoning; toy_spot 2 None (toy_invocation "c"); toy_result;
   toy_spot 4 None toy_reasoning].

Definition toy_mixed_evidence : HistoryEvidence :=
  {| invocation := fun _ => Some (FunctionKind, toy_spot_origin 2);
     source_row := fun _ _ => Some toy_result;
     original_call := fun _ => Ok (toy_spot_origin 2);
     exact_terminal := fun _ => Ok (Some "h");
     validated_completion := fun _ => Ok false;
     response_evidence := list_to_map [(toy_spot_origin 1, toy_response "m1" [1; 2]); (toy_spot_origin 2, toy_response "m1" [1; 2]);
                                       (toy_spot_origin 4, toy_response "m2" [4])];
     reference_of := fun os => String.concat "," ((fun o => pretty (o_position o)) <$> os);
     hash_order := fun os => os;
     read_json := fun _ => Some (json_object []) |}.

Definition toy_projected (model : string) : result ContextFault CheckedContextProjection :=
  checked_projection toy_mixed_evidence Hdb_empty "s" (fun _ => Ok (Some toy_answered)) (fun _ => Ok tt) [] toy_print toy_print (fun _ => [])
    "r2" toy_mixed (Some model) None (Some (ChatGptPlan, Standard)) None.

Lemma toy_coherent : coherent toy_mixed_evidence.
Proof.
  assert (H : forall origin env, response_evidence toy_mixed_evidence !! origin = Some env ->
    (origin = toy_spot_origin 1 \/ origin = toy_spot_origin 2) /\ env = toy_response "m1" [1; 2] \/ origin = toy_spot_origin 4 /\ env = toy_response "m2" [4]).
  { intros origin env. simpl. rewrite !lookup_insert_Some, lookup_empty. naive_solver. }
  split.
  - intros origin env [[[->| ->] ->]|[-> ->]]%H; by_decide.
  - intros o1 o2 e1 e2 [[_ ->]|[_ ->]]%H [[_ ->]|[_ ->]]%H; done.
Qed.

Definition toy_shown (model : string) : list (option Z) :=
  match toy_projected model with Ok p => map (fun e => option_map occ_position e.2) (cp_items p) | Err _ => [] end.



(** ** Responses that share their first item

    Two older records of one request may claim a common first item. Evidence
    then drops that item and keeps the rest of both, and the loop takes the second
    response for one it has seen. *)

Definition toy_hidden (text : string) : value :=
  json_object [("type", VString "reasoning"); ("encrypted_content", VString text)].

Definition toy_shared_digest (v : value) : string := default (toy_digest_of v) (get_str "encrypted_content" v).

Definition toy_shared_rows : Hdb :=
  match write_request toy_shared_digest Hdb_empty "r" None "main" [toy_text "a"; toy_hidden "b"; toy_hidden "c"] with
  | Ok (_, db) => db | Err _ => Hdb_empty end.

Definition toy_shared_turn (model : string) (hashes : list string) : TurnPayload :=
  ReadableTurn {| rr_request := "r";
    rr_issued := {| native_transport := None; purpose := None; issued_input := []; issued_outputs := None; instructions := "i"; tools := "t";
      tools_allowed := None; issued_model := model; pinned_effort := Low; session_thread := "s"; session_affinity := "s"; prompt_cache_comparison := None |};
    rr_response_id := "resp"; rr_items := hashes; rr_usage := Usage_default; rr_contract := None; rr_completion := None |}.

Definition toy_shared_evidence : gmap Origin ResponseEnvelope :=
  ok_default ∅ (response_envelopes (fun _ => Ok tt) (fun _ _ => Ok None) (fun _ _ => Ok []) toy_shared_rows "r"
    [toy_shared_turn "m1" ["a"; "b"]; toy_shared_turn "m2" ["a"; "c"]]).

Definition toy_shared : HistoryEvidence :=
  {| invocation := fun _ => None; source_row := fun _ _ => None; original_call := fun _ => Err MissingCall; exact_terminal := fun _ => Ok None;
     validated_completion := fun _ => Ok false; response_evidence := toy_shared_evidence; reference_of := toy_cite; hash_order := fun os => os;
     read_json := fun _ => None |}.

Definition toy_crossing : list (value * option string) :=
  match request_occurrences toy_shared_rows "r" with
  | Err _ => []
  | Ok os =>
      match checked_projection toy_shared toy_shared_rows "s" (fun _ => Ok None) (fun _ => Ok tt) [] toy_print toy_print (fun _ => [])
        "r" os (Some "m3") None (Some (ChatGptPlan, Standard)) None with
      | Ok p => map (fun e => (e.1.2, option_map occ_hash e.2)) (cp_items p)
      | Err _ => []
      end
  end.

(** The sealed item of the second response is shown to a third model. *)
Example shared_first_item : last toy_crossing = Some (toy_hidden "c", Some "c") /\ opaque (toy_hidden "c") = true.
Proof. vm_compute. done. Qed.
