(* ===== verification/Agents.v ===== *)
(** Agents: their paths, the verbs a model calls and the capability a job
    holds ([agents.rs]).

    A verb's arguments are checked and turned into one operation of the
    [AgentToolService]; the service itself is the runtime's, so that a call is
    its operation. The tools advertised for the verbs are JSON schemas of the
    dialect [SchemaModel] reads. The theorems relate the two: what the
    advertised schema admits is what the dispatcher takes, up to conditions on
    the values a schema cannot state. *)

From S2P Require Import Prelude Json SchemaModel SchemaNormal Schema Redaction Usage Observation Sse Client Failure StoreDb Lists Item Mailbox Finalize Requests ToolSurface.

(** ** Paths *)

(** [str::split('/')]. *)
Fixpoint split_slash (s : string) : list string :=
  match s with
  | EmptyString => [""]
  | String c s =>
      if bool_decide (c = "/"%char) then "" :: split_slash s
      else match split_slash s with w :: l => String c w :: l | [] => [String c ""] end
  end.

(** [replace('-', "_")]. *)
Fixpoint unkebab (s : string) : string :=
  match s with
  | EmptyString => ""
  | String c s => String (if bool_decide (c = "-"%char) then "_"%char else c) (unkebab s)
  end.

Definition component_byte (c : ascii) : bool :=
  let n := N_of_ascii c in
  ((97 <=? n) && (n <=? 122) || (48 <=? n) && (n <=? 57) || (n =? 95) || (n =? 45))%N.

Definition component_ok (s : string) : bool := negb (bool_decide (s = "")) && forallb component_byte (bytes_of s).

(** The error carries the text that was refused. *)
Definition normalize_component (text component : string) : result string string :=
  guard component_ok component else text; Ok (unkebab component).

Definition parse_path (path : string) : result string string :=
  do body <- ok_or (strip_prefix "/" path) path;
  do components <- map_result (normalize_component path) (split_slash body);
  Ok ("/" +:+ String.concat "/" components).

Definition is_canonical (path : string) : bool := match parse_path path with Ok p => bool_decide (p = path) | Err _ => false end.

Definition normalize_task_name (name : string) : result string string := normalize_component name name.

(** ** Contracts and sources *)

Record Contract := {
  clauses : list string;
  acceptance : list string;
  owned_paths : list string;
  must_not : list string;
  introduces : list string;
  consumes : list string;
  boundaries : list string;
  reply : option value
}.

Inductive SpawnSource := SpawnPrompt | SpawnHere | SpawnCheckpoint (name : string).

Record AgentInvocation := { inv_request : string; inv_call : string }.

Inductive AgentOperationOrigin :=
| JobOrigin (request call_id : string)
| ModelDispatchOrigin (request call_id : string).

Definition model_dispatch_origin (invocation : option AgentInvocation) : option AgentOperationOrigin :=
  (fun i => ModelDispatchOrigin (inv_request i) (inv_call i)) <$> invocation.

(** The calls of [AgentToolService]. *)
Inductive AgentOperation :=
| SpawnAgent (parent task_name : string) (from : SpawnSource) (contract : Contract) (invocation : option AgentInvocation)
| SendMessage (sender target message : string)
| FollowupTask (sender target : string) (contract : Contract)
| WaitAgent (agent : string)
| TakeCheckpoint (agent name : string)
| SetEffort (agent : string) (effort : Effort)
| ListAgents (agent : string) (prefix : option string)
| InterruptAgent (agent target : string).

(** The errors of the dispatcher; [serde]'s own texts are left out. *)
Inductive AgentVerbError :=
| CallerNotCanonical
| MissingString (key : string)
| MissingField (key : string)
| NotAnObject
| UnknownFields
| BadPath (path : string)
| InvalidSource
| SourceNeedsName
| CheckpointNeedsName
| UnknownSourceKind
| InvalidContract
| InvalidEffort
| InvalidPrefix
| UnknownVerb (name : string).

Section agents.
(** [serde_json::from_str]. *)
Variable parse_json : string -> option value.

Definition string_of (v : value) : option string := match v with VString s => Some s | _ => None end.

(** [Vec<String>]. *)
Definition strings_of (v : value) : option (list string) := as_array v ≫= mapM string_of.

(** [deserialize_reply_schema]. *)
Definition reply_schema_of (v : value) : option (option value) :=
  match v with
  | VNull => Some None
  | VString encoded => Some <$> parse_json encoded
  | stored => Some (Some stored)
  end.

Definition contract_fields : list string := ["clauses"; "acceptance"; "owned"; "must_not"; "introduces"; "consumes"; "boundaries"; "reply"].

(** A struct from its field values: from an object without other fields,
    or from an array in the order of the fields. *)
Definition contract_from (field : nat -> option value) : option Contract :=
  clauses ← field 0%nat ≫= strings_of; acceptance ← field 1%nat ≫= strings_of; owned ← field 2%nat ≫= strings_of;
  must_not ← field 3%nat ≫= strings_of; introduces ← field 4%nat ≫= strings_of; consumes ← field 5%nat ≫= strings_of;
  boundaries ← field 6%nat ≫= strings_of; reply ← match field 7%nat with None => Some None | Some v => reply_schema_of v end;
  Some {| clauses := clauses; acceptance := acceptance; owned_paths := owned; must_not := must_not; introduces := introduces;
          consumes := consumes; boundaries := boundaries; reply := reply |}.

Definition contract_of (v : value) : option Contract :=
  match v with
  | VObject o =>
      if forallb (fun e => bool_decide (e.1 ∈ contract_fields)) o
      then contract_from (fun i => contract_fields !! i ≫= fun k => obj_get k o) else None
  | VArray l => if (length l <=? 8)%nat then contract_from (fun i => l !! i) else None
  | _ => None
  end.

(** [SpawnSourceInput]: the kind and the name. *)
Definition optional_string (v : value) : option (option string) := match v with VNull => Some None | VString s => Some (Some s) | _ => None end.

Definition source_of (v : value) : option (string * option string) :=
  match v with
  | VObject o =>
      if forallb (fun e => bool_decide (e.1 ∈ ["kind"; "name"])) o then
        kind ← obj_get "kind" o ≫= string_of;
        name ← match obj_get "name" o with None => Some None | Some v => optional_string v end;
        Some (kind, name)
      else None
  | VArray [k; n] => kind ← string_of k; name ← optional_string n; Some (kind, name)
  | _ => None
  end.

(** ** The dispatcher *)

Definition exact_keys (args : value) (allowed : list string) : result AgentVerbError unit :=
  do o <- ok_or (as_object args) NotAnObject;
  refuse existsb (fun e => negb (bool_decide (e.1 ∈ allowed))) o with UnknownFields;
  Ok tt.

Definition string_field (args : value) (key : string) : result AgentVerbError string := ok_or (get_str key args) (MissingString key).

Definition path_field (args : value) (key : string) : result AgentVerbError string :=
  do raw <- string_field args key;
  map_err BadPath (parse_path raw).

Definition spawn_source (kind : string) (name : option string) : result AgentVerbError SpawnSource :=
  if bool_decide (kind = "checkpoint") then
    match name with
    | Some name => refuse bool_decide (name = "") with CheckpointNeedsName; Ok (SpawnCheckpoint name)
    | None => Err CheckpointNeedsName
    end
  else match name with
       | Some _ => Err UnknownSourceKind
       | None => if bool_decide (kind = "prompt") then Ok SpawnPrompt else if bool_decide (kind = "here") then Ok SpawnHere else Err UnknownSourceKind
       end.

Definition contract_field (args : value) : result AgentVerbError Contract :=
  do task <- ok_or (vget "task" args) (MissingField "task");
  ok_or (contract_of task) InvalidContract.

Definition dispatch_agent_verb (agent : string) (invocation : option AgentInvocation) (name : string) (args : value) : result AgentVerbError AgentOperation :=
  guard is_canonical agent else CallerNotCanonical;
  if bool_decide (name = "spawn_agent") then
    do _ <- exact_keys args ["task_name"; "from"; "task"];
    do task_name <- string_field args "task_name";
    do task_name <- map_err BadPath (normalize_task_name task_name);
    do from <- ok_or (vget "from" args) (MissingField "from");
    do '(kind, source) <- ok_or (source_of from) InvalidSource;
    do _ <- ok_or (vget "name" from) SourceNeedsName;
    do from <- spawn_source kind source;
    do contract <- contract_field args;
    Ok (SpawnAgent agent task_name from contract invocation)
  else if bool_decide (name = "send_message") then
    do _ <- exact_keys args ["target"; "message"];
    do target <- path_field args "target";
    do message <- string_field args "message";
    Ok (SendMessage agent target message)
  else if bool_decide (name = "followup_task") then
    do _ <- exact_keys args ["target"; "task"];
    do target <- path_field args "target";
    do contract <- contract_field args;
    Ok (FollowupTask agent target contract)
  else if bool_decide (name = "wait_agent") then
    do _ <- exact_keys args [];
    Ok (WaitAgent agent)
  else if bool_decide (name = "checkpoint") then
    do _ <- exact_keys args ["name"];
    do name <- string_field args "name";
    Ok (TakeCheckpoint agent name)
  else if bool_decide (name = "set_effort") then
    do _ <- exact_keys args ["effort"];
    do effort <- ok_or (vget "effort" args) (MissingField "effort");
    do effort <- ok_or (effort_parse effort) InvalidEffort;
    Ok (SetEffort agent effort)
  else if bool_decide (name = "list_agents") then
    do _ <- exact_keys args ["path_prefix"];
    do prefix <- match vget "path_prefix" args with
                 | None | Some VNull => Ok None
                 | Some (VString raw) => rmap Some (map_err BadPath (parse_path raw))
                 | _ => Err InvalidPrefix
                 end;
    Ok (ListAgents agent prefix)
  else if bool_decide (name = "interrupt_agent") then
    do _ <- exact_keys args ["target"];
    do target <- path_field args "target";
    Ok (InterruptAgent agent target)
  else Err (UnknownVerb name).
End agents.

(** ** The capability of a job *)

Inductive JobVerbError :=
| MissingRequest
| MissingBackend
| JobCancelled
| JobRefused (text : string)
| JobService (text : string).

(** [JobVerbs]: whether a service is bound, whether the job was cancelled,
    and the bounded progress channel. *)
Record JobVerbs := {
  jv_backend : bool;
  jv_caller : string;
  jv_invocation : option AgentInvocation;
  jv_cancelled : bool;
  jv_closed : bool;
  jv_capacity : nat;
  jv_progress : list value
}.

Definition job_origin (j : JobVerbs) : option AgentOperationOrigin := (fun i => JobOrigin (inv_request i) (inv_call i)) <$> jv_invocation j.

Definition ready (j : JobVerbs) : result JobVerbError AgentInvocation :=
  refuse jv_cancelled j with JobCancelled;
  guard jv_backend j else MissingBackend;
  ok_or (jv_invocation j) MissingRequest.

(** The race of the cancellation with the operation: [None] when the token
    was cancelled before the operation finished. *)
Definition cancellable {T} (finished : option (result string T)) : result JobVerbError T :=
  match finished with
  | None => Err JobCancelled
  | Some r => map_err JobService r
  end.

(** The operation the job starts; the caller awaits it with [cancellable]. *)
Definition job_spawn_agent (j : JobVerbs) (task_name : string) (from : SpawnSource) (contract : Contract) : result JobVerbError AgentOperation :=
  do invocation <- ready j;
  do task_name <- map_err (fun e => JobRefused ("invalid agent path: " +:+ e)) (normalize_task_name task_name);
  Ok (SpawnAgent (jv_caller j) task_name from contract (Some invocation)).

(** [trim_end_matches('/')]. *)
Fixpoint trim_slashes (s : string) : string :=
  match s with
  | EmptyString => ""
  | String c s => let t := trim_slashes s in if bool_decide (c = "/"%char) && bool_decide (t = "") then "" else String c t
  end.

Definition has_slash (s : string) : bool := existsb (fun c => bool_decide (c = "/"%char)) (bytes_of s).

Definition child_of (parent child : string) : bool :=
  match strip_prefix (trim_slashes parent +:+ "/") child with
  | Some suffix => negb (bool_decide (suffix = "")) && negb (has_slash suffix)
  | None => false
  end.

Definition job_send_message (j : JobVerbs) (target message : string) : result JobVerbError AgentOperation :=
  do _ <- ready j;
  refuse negb (is_canonical target) || negb (child_of (jv_caller j) target || child_of target (jv_caller j))
    with JobRefused "target must be a directly related parent or child agent";
  Ok (SendMessage (jv_caller j) target message).

Definition job_envelope (j : JobVerbs) (v : value) : result JobVerbError JobVerbs :=
  refuse jv_cancelled j with JobCancelled;
  refuse jv_closed j with JobCancelled;
  guard (length (jv_progress j) <? jv_capacity j)%nat else JobRefused "progress queue is full";
  Ok {| jv_backend := jv_backend j; jv_caller := jv_caller j; jv_invocation := jv_invocation j; jv_cancelled := jv_cancelled j;
        jv_closed := jv_closed j; jv_capacity := jv_capacity j; jv_progress := jv_progress j ++ [v] |}.

(** ** The tools of the verbs *)

Definition verb_function (name description : string) (parameters : value) : value := wire_declaration name description parameters.

Definition verb_object (properties : list (string * value)) (required : list string) : value :=
  json_object [("type", VString "object"); ("properties", json_object properties); ("required", VArray (VString <$> required));
               ("additionalProperties", VBool false)].

Definition verb_strings : value := json_object [("type", VString "array"); ("items", string_schema)].

Definition verb_nullable : list (string * value) := [("type", VArray [VString "string"; VString "null"])].

Definition verb_contract : value :=
  verb_object [("clauses", verb_strings); ("acceptance", verb_strings); ("owned", verb_strings); ("must_not", verb_strings); ("introduces", verb_strings);
          ("consumes", verb_strings); ("boundaries", verb_strings); ("reply", json_object verb_nullable)]
    ["clauses"; "acceptance"; "owned"; "must_not"; "introduces"; "consumes"; "boundaries"; "reply"].

Definition verb_choice (texts : list string) : value := json_object [("type", VString "string"); ("enum", VArray (VString <$> texts))].

Definition verb_source : value :=
  verb_object [("kind", verb_choice ["prompt"; "here"; "checkpoint"]); ("name", json_object verb_nullable)] ["kind"; "name"].

Definition verb_prefix : value :=
  json_object (verb_nullable ++ [("description", VString "Task-path prefix filter without a trailing slash. Omit to list all live agents.")]).

(** The name and the parameters of each verb. *)
Definition verb_parameters : list (string * value) :=
  [("spawn_agent", verb_object [("task_name", string_schema); ("from", verb_source); ("task", verb_contract)] ["task_name"; "from"; "task"]);
   ("send_message", verb_object [("target", string_schema); ("message", string_schema)] ["target"; "message"]);
   ("followup_task", verb_object [("target", string_schema); ("task", verb_contract)] ["target"; "task"]);
   ("wait_agent", verb_object [] []);
   ("checkpoint", verb_object [("name", string_schema)] ["name"]);
   ("set_effort", verb_object [("effort", verb_choice ["low"; "medium"; "high"])] ["effort"]);
   ("list_agents", verb_object [("path_prefix", verb_prefix)] ["path_prefix"]);
   ("interrupt_agent", verb_object [("target", string_schema)] ["target"])].

Definition verb_quote : string := String "034"%char "".

Definition verb_descriptions : list string :=
  ["Spawns an agent to work on the specified task. If your current task is `/root/task1` and you spawn_agent with task_name "
     +:+ verb_quote +:+ "task_3" +:+ verb_quote +:+
     " the new agent will have canonical task name `/root/task1/task_3`. Task names use lowercase letters, digits, and underscores; kebab-case is normalized. The agent receives the specified contract. `from` selects prompt, here, or a named checkpoint.";
   "Send a message to an existing agent. Does not trigger a new turn.";
   "Send a follow-up task to an existing non-root target agent and trigger a turn if it is idle.";
   "Wait for a pending tool call to complete, a message from another agent, or new user input. Results arrive on their original calls and messages in their envelopes; this tool returns only what resumed you. Do not wait for results that have already arrived.";
   "Create a named checkpoint at the current completed request boundary.";
   "Set reasoning effort for the next request by appending a positional configuration update. A second change before a request replaces the first.";
   "List live agents in the current root thread tree. Optionally filter by task-path prefix.";
   "Interrupt an agent's current turn, if any, and return its previous status. The agent remains available for messages and follow-up tasks."].

Definition verb_tool_schemas : list value :=
  zip_with (fun '(name, parameters) description => verb_function name description parameters) verb_parameters verb_descriptions.

(** [Provider::all_tools]: one tool of the loop. *)
Definition stamp_tool (tool_scheduling : string -> ToolScheduling) (tool : value) : value :=
  match tool with
  | VObject o =>
      let name := obj_get "name" o ≫= as_str in
      if bool_decide (name = Some "wait_agent") then VObject (obj_remove "async" o)
      else VObject (obj_insert "async" (VBool (bool_decide (tool_scheduling (default "" name) = AsyncTool))) o)
  | v => v
  end.

Definition all_tools (tool_scheduling : string -> ToolScheduling) (tools : list value) : list value :=
  stamp_tool tool_scheduling <$> verb_tool_schemas ++ tools.

(** ** Canonical paths *)

Definition path_of (cs : list string) : string := "/" +:+ String.concat "/" cs.

(** A component in its own form: its bytes are allowed and none is a dash. *)
Definition canonical_byte (c : ascii) : bool := component_byte c && negb (bool_decide (c = "-"%char)).

Definition canonical_component (s : string) : bool := negb (bool_decide (s = "")) && forallb canonical_byte (bytes_of s).

Lemma split_slash_cons s : exists w l, split_slash s = w :: l.
Proof.
  destruct s as [|c s]; simpl; [eauto|]. case_bool_decide; [eauto|]. destruct (split_slash s); eauto.
Qed.

Lemma concat_cons2 w x l : String.concat "/" (w :: x :: l) = w +:+ "/" +:+ String.concat "/" (x :: l).
Proof. done. Qed.

Lemma concat_split s : String.concat "/" (split_slash s) = s.
Proof.
  induction s as [|c s IH]; [done|]. simpl. destruct (split_slash_cons s) as (w & l & E). case_bool_decide as Hc.
  - rewrite E, concat_cons2, <- E, IH. by subst.
  - rewrite E. rewrite E in IH. destruct l as [|x l]; [by simpl in *; subst|]. rewrite concat_cons2 in IH |- *. rewrite <- IH. done.
Qed.

Lemma has_slash_cons c s : has_slash (String c s) = bool_decide (c = "/"%char) || has_slash s.
Proof. done. Qed.

Lemma split_plain s : has_slash s = false -> split_slash s = [s].
Proof.
  induction s as [|c s IH]; [done|]. rewrite has_slash_cons, orb_false_iff. intros [Hc Hs]. simpl. by rewrite Hc, (IH Hs).
Qed.

Lemma split_app w s : has_slash w = false -> split_slash (w +:+ "/" +:+ s) = w :: split_slash s.
Proof.
  induction w as [|c w IH]; [done|]. rewrite has_slash_cons, orb_false_iff. intros [Hc Hs]. simpl. by rewrite Hc, (IH Hs).
Qed.

Lemma split_concat cs : cs <> [] -> Forall (fun c => has_slash c = false) cs -> split_slash (String.concat "/" cs) = cs.
Proof.
  intros Hne H. induction H as [|c cs Hc H IH]; [done|]. destruct cs as [|d cs]; [by apply split_plain|].
  rewrite concat_cons2, split_app, IH by done. done.
Qed.

Lemma bytes_forall (P : ascii -> bool) s : forallb P (bytes_of s) = true <-> forall c, c ∈ bytes_of s -> P c = true.
Proof. rewrite forallb_forall. by setoid_rewrite list_elem_of_In. Qed.

Lemma unkebab_bytes s : bytes_of (unkebab s) = (fun c => if bool_decide (c = "-"%char) then "_"%char else c) <$> bytes_of s.
Proof. induction s as [|c s IH]; [done|]. unfold bytes_of in *. simpl. by rewrite IH. Qed.

Lemma unkebab_canonical s : component_ok s = true -> canonical_component (unkebab s) = true.
Proof.
  unfold component_ok, canonical_component. rewrite !andb_true_iff, !bytes_forall. intros [Hne H]. split; [by destruct s|].
  intros c Hc. rewrite unkebab_bytes in Hc. apply list_elem_of_fmap in Hc as (x & -> & Hx). specialize (H _ Hx). unfold canonical_byte.
  destruct (bool_decide_reflect (x = "-"%char)) as [|E]; [done|]. by rewrite H, bool_decide_eq_false_2.
Qed.

Lemma canonical_ok s : canonical_component s = true -> component_ok s = true /\ unkebab s = s.
Proof.
  unfold component_ok, canonical_component. rewrite !andb_true_iff, !bytes_forall. intros [Hne H].
  split; [split; [done|]; intros c Hc; specialize (H _ Hc); by apply andb_true_iff in H as [? _]|].
  clear Hne. induction s as [|c s IH]; [done|]. simpl. assert (canonical_byte c = true) as Hc by (apply H; left).
  apply andb_true_iff in Hc as [_ Hc]. apply negb_true_iff in Hc. rewrite Hc. f_equal. apply IH. intros x Hx. apply H. by right.
Qed.

Lemma component_canonical s : component_ok s = true -> unkebab s = s -> canonical_component s = true.
Proof. intros H E. rewrite <- E. by apply unkebab_canonical. Qed.

Lemma string_append_length a b : String.length (a +:+ b) = (String.length a + String.length b)%nat.
Proof. induction a; simpl; [done|]. by rewrite IHa. Qed.

Lemma substring_all s : String.substring 0 (String.length s) s = s.
Proof. induction s; simpl; [done|]. by rewrite IHs. Qed.

Lemma strip_prefix_Some p s t : strip_prefix p s = Some t <-> s = p +:+ t.
Proof.
  unfold strip_prefix. revert s. induction p as [|c p IH]; intros s.
  - cbn. rewrite Nat.sub_0_r, substring_all. change ("" +:+ t) with t. destruct s; cbn; split; congruence.
  - change (String c p +:+ t) with (String c (p +:+ t)). destruct s as [|d s]; simpl; [done|].
    destruct (ascii_dec c d) as [->|Hn]; [|split; [done|congruence]]. rewrite IH. split; congruence.
Qed.

Lemma component_no_slash s : component_ok s = true -> has_slash s = false.
Proof.
  unfold component_ok, has_slash. intros [_ H]%andb_true_iff. rewrite forallb_forall in H. apply not_true_is_false.
  intros (c & Hc & E)%existsb_exists. apply bool_decide_eq_true in E as ->. by specialize (H _ Hc).
Qed.

Lemma normalize_components text cs ds :
  map_result (normalize_component text) cs = Ok ds <-> Forall (fun c => component_ok c = true) cs /\ ds = unkebab <$> cs.
Proof.
  rewrite map_result_Ok. unfold normalize_component. split.
  - induction 1 as [|c d cs ds Hc _ [IH ->]]; [done|]. destruct (component_ok c) eqn:E; [|done]. injection Hc as <-. split; [by constructor|done].
  - intros [H ->]. induction H as [|c cs Hc _ IH]; simpl; constructor; [by rewrite Hc|done].
Qed.

Lemma parse_path_Ok p q :
  parse_path p = Ok q <-> exists cs, cs <> [] /\ Forall (fun c => component_ok c = true) cs /\ p = path_of cs /\ q = path_of (unkebab <$> cs).
Proof.
  unfold parse_path. split.
  - intros H. apply rbind_Ok in H as (body & Hb & H). apply ok_or_Ok, strip_prefix_Some in Hb as ->. apply rbind_Ok in H as (cs & Hm & [= <-]).
    apply normalize_components in Hm as [Hcs ->]. exists (split_slash body). destruct (split_slash_cons body) as (w & l & E).
    split_and!; [by rewrite E|done|unfold path_of; by rewrite concat_split|done].
  - intros (cs & Hne & Hcs & -> & ->). unfold path_of. rewrite (proj2 (strip_prefix_Some "/" _ (String.concat "/" cs))) by done. cbn [ok_or rbind].
    rewrite split_concat by (first [done | eapply Forall_impl; [exact Hcs|apply component_no_slash]]).
    by rewrite (proj2 (normalize_components _ cs (unkebab <$> cs))).
Qed.

Lemma canonical_list cs : Forall (fun c => canonical_component c = true) cs -> unkebab <$> cs = cs /\ Forall (fun c => component_ok c = true) cs.
Proof.
  intros H. split.
  - induction H as [|c cs Hc H IH]; [done|]. rewrite fmap_cons, IH. by rewrite (proj2 (canonical_ok c Hc)).
  - eapply Forall_impl; [exact H|]. intros c Hc. by apply canonical_ok.
Qed.

Lemma path_of_inj cs ds :
  cs <> [] -> ds <> [] -> Forall (fun c => has_slash c = false) cs -> Forall (fun c => has_slash c = false) ds -> path_of cs = path_of ds -> cs = ds.
Proof.
  intros ? ? ? ? [= E]. change (String.concat "/" cs = String.concat "/" ds) in E. by rewrite <- (split_concat cs), <- (split_concat ds), E.
Qed.

Lemma is_canonical_iff p : is_canonical p = true <-> exists cs, cs <> [] /\ Forall (fun c => canonical_component c = true) cs /\ p = path_of cs.
Proof.
  unfold is_canonical. split.
  - destruct (parse_path p) as [q|] eqn:E; [|done]. intros ->%bool_decide_eq_true. apply parse_path_Ok in E as (cs & Hne & Hcs & -> & Hq).
    exists cs. split_and!; [done| |done]. assert (unkebab <$> cs = cs) as Hu.
    { apply path_of_inj; [by destruct cs|done| | |done].
      - apply Forall_fmap. eapply Forall_impl; [exact Hcs|]. intros c Hc. by apply component_no_slash, canonical_ok, unkebab_canonical.
      - eapply Forall_impl; [exact Hcs|apply component_no_slash]. }
    apply Forall_lookup. intros i c Hi. rewrite Forall_lookup in Hcs. apply component_canonical; [by apply (Hcs i)|].
    assert ((unkebab <$> cs) !! i = Some c) as Hf by (by rewrite Hu). rewrite list_lookup_fmap, Hi in Hf. by injection Hf.
  - intros (cs & Hne & Hcs & ->). destruct (canonical_list _ Hcs) as [Hu Hcs']. rewrite (proj2 (parse_path_Ok (path_of cs) (path_of cs))).
    + by apply bool_decide_eq_true_2.
    + exists cs. by rewrite Hu.
Qed.

Lemma path_of_app cs c : cs <> [] -> path_of (cs ++ [c]) = path_of cs +:+ "/" +:+ c.
Proof.
  intros Hne. unfold path_of. by rewrite concat_snoc, text_assoc.
Qed.

(** ** Parents and children *)

Lemma trim_app a b : b <> "" -> trim_slashes b = b -> trim_slashes (a +:+ b) = a +:+ b.
Proof.
  intros Hb Ht. induction a as [|c a IH]; [done|]. change (String c a +:+ b) with (String c (a +:+ b)). simpl. rewrite IH.
  rewrite (bool_decide_eq_false_2 (a +:+ b = "")), andb_false_r; [done|]. by destruct a, b.
Qed.

Lemma trim_plain s : has_slash s = false -> trim_slashes s = s.
Proof.
  induction s as [|c s IH]; [done|]. rewrite has_slash_cons, orb_false_iff. intros [Hc Hs]. simpl. by rewrite Hc, (IH Hs).
Qed.

Lemma component_nonempty s : component_ok s = true -> s <> "".
Proof. by destruct s. Qed.

Lemma trim_path cs : cs <> [] -> Forall (fun c => component_ok c = true) cs -> trim_slashes (path_of cs) = path_of cs.
Proof.
  intros Hne H. destruct (exists_last Hne) as (ds & c & ->). apply Forall_app in H as [_ H%Forall_inv].
  pose proof (component_nonempty _ H) as Hc. pose proof (trim_plain _ (component_no_slash _ H)) as Ht.
  destruct (decide (ds = [])) as [->|Hds]; [by apply (trim_app "/")|]. rewrite path_of_app by done.
  rewrite <- text_assoc. by apply trim_app.
Qed.

Lemma child_of_path cs t :
  cs <> [] -> Forall (fun c => component_ok c = true) cs ->
  child_of (path_of cs) t = true <-> exists c, c <> "" /\ has_slash c = false /\ t = path_of (cs ++ [c]).
Proof.
  intros Hne H. unfold child_of. rewrite trim_path by done. setoid_rewrite path_of_app; [|done]. setoid_rewrite <- text_assoc.
  destruct (strip_prefix _ t) as [c|] eqn:E.
  - apply strip_prefix_Some in E as ->. rewrite andb_true_iff, !negb_true_iff, bool_decide_eq_false. split; [naive_solver|].
    intros (d & Hd & Hs & Eq). assert (strip_prefix (path_of cs +:+ "/") ((path_of cs +:+ "/") +:+ c) = Some d) as Hc by (by apply strip_prefix_Some).
    rewrite (proj2 (strip_prefix_Some _ _ c)) in Hc by done. by injection Hc as ->.
  - split; [done|]. intros (c & _ & _ & ->). by rewrite (proj2 (strip_prefix_Some _ _ c)) in E.
Qed.

Lemma canonical_parts cs :
  Forall (fun c => canonical_component c = true) cs -> Forall (fun c => component_ok c = true) cs /\ Forall (fun c => has_slash c = false) cs.
Proof.
  intros H. destruct (canonical_list _ H) as [_ Hok]. split; [done|]. eapply Forall_impl; [exact Hok|apply component_no_slash].
Qed.

Lemma ready_Ok j i : ready j = Ok i <-> jv_cancelled j = false /\ jv_backend j = true /\ jv_invocation j = Some i.
Proof. unfold ready. destruct (jv_cancelled j), (jv_backend j); rewrite ?ok_or_Ok; naive_solver. Qed.


Definition toy_verbs : JobVerbs :=
  {| jv_backend := true; jv_caller := "/root/task_1"; jv_invocation := Some {| inv_request := "r"; inv_call := "c" |}; jv_cancelled := false;
     jv_closed := false; jv_capacity := 4; jv_progress := [] |}.


(** ** What the advertised schemas admit *)

(** The object a schema admits has exactly the declared keys, each with an
    admitted value. *)
Definition members (ps o : object) : Prop :=
  obj_sorted o /\ Forall (fun e => e.1 ∈ obj_keys ps) o /\
  forall k q, (k, q) ∈ ps -> exists c, obj_get k o = Some c /\ value_wf c /\ validate_value c q "$" = Ok tt.

Lemma admitted_members ps v p :
  NoDup (obj_keys ps) -> value_wf v -> validate_value v (object_schema ps) p = Ok tt -> exists o, v = VObject o /\ members ps o.
Proof.
  intros Hnd Hwf (o & -> & Hl & Hall)%validate_object_schema. exists o. split; [done|]. inversion Hwf as [| | | | |? Hs Hc]; subst.
  split_and!; [done| |].
  - assert (obj_keys ps ≡ₚ obj_keys o) as Hperm.
    { apply submseteq_length_Permutation; [|unfold obj_keys; rewrite !length_fmap; lia]. apply NoDup_submseteq; [done|].
      intros x ([k q] & -> & Hx)%list_elem_of_fmap. destruct (Hall _ _ Hx) as (c & Hg & _). apply obj_get_key. by exists c. }
    apply Forall_forall. intros [k v] Hin. rewrite Hperm. apply list_elem_of_fmap. by exists (k, v).
  - intros k q Hin. destruct (Hall _ _ Hin) as (c & Hg & Hv). exists c. split_and!; [done| |by eapply validate_value_path].
    by apply (value_wf_get k o).
Qed.

Lemma exact_keys_members ps o allowed : members ps o -> obj_keys ps ⊆ allowed -> exact_keys (VObject o) allowed = Ok tt.
Proof.
  intros (_ & Hk & _) Hsub. unfold exact_keys. cbn [as_object ok_or rbind].
  assert (existsb (fun e => negb (bool_decide (e.1 ∈ allowed))) o = false) as ->; [|done]. apply not_true_is_false.
  intros (e & Hin%list_elem_of_In & He)%existsb_exists. apply negb_true_iff, bool_decide_eq_false in He. rewrite Forall_forall in Hk. set_solver.
Qed.

Definition nullable_normal : value := VObject [("anyOf", VArray [string_schema; VObject [("type", VString "null")]])].

Lemma validate_nullable v p : validate_value v nullable_normal p = Ok tt -> v = VNull \/ exists s, v = VString s.
Proof.
  intros (n & Hn & H)%validate_any_of. apply elem_of_cons in Hn as [->|Hn%list_elem_of_singleton]; [|subst n].
  - apply validate_string in H as (s & -> & _). right. eauto.
  - rewrite validate_value_eq in H. destruct v; [by left|done..].
Qed.

Lemma validate_strings v p : validate_value v (VObject [("items", string_schema); ("type", VString "array")]) p = Ok tt -> is_Some (strings_of v).
Proof.
  rewrite validate_value_eq. unfold validate_value_body. destruct v as [| | | |l|]; try done. cbn -[validate_value imap_result_from string_schema length_within].
  unfold validate_array. destruct (length_within _ _ _ _); [|done]. destruct (imap_result _ l) as [ys|] eqn:E; [|done]. intros _.
  apply imap_result_from_Ok in E as [Hl Hi]. unfold strings_of. cbn. apply mapM_is_Some, Forall_lookup. intros i x Hx.
  destruct (lookup_lt_is_Some_2 ys i) as [[] Hy]; [apply lookup_lt_Some in Hx; lia|]. specialize (Hi _ _ _ Hx Hy). 
  apply validate_string in Hi as (s & -> & _). by eexists.
Qed.

Lemma get_str_vget k v s : vget k v = Some (VString s) -> get_str k v = Some s.
Proof. unfold get_str. by intros ->. Qed.

Definition strings_normal : value := VObject [("items", string_schema); ("type", VString "array")].

Definition choice_normal (texts : list string) : value := VObject [("enum", VArray (VString <$> texts)); ("type", VString "string")].

Definition contract_normal : object :=
  [("acceptance", strings_normal); ("boundaries", strings_normal); ("clauses", strings_normal); ("consumes", strings_normal);
   ("introduces", strings_normal); ("must_not", strings_normal); ("owned", strings_normal); ("reply", nullable_normal)].

Definition source_normal : object := [("kind", choice_normal ["prompt"; "here"; "checkpoint"]); ("name", nullable_normal)].

Definition normal_parameters : list (string * object) :=
  [("spawn_agent", [("from", object_schema source_normal); ("task", object_schema contract_normal); ("task_name", string_schema)]);
   ("send_message", [("message", string_schema); ("target", string_schema)]);
   ("followup_task", [("target", string_schema); ("task", object_schema contract_normal)]);
   ("wait_agent", []);
   ("checkpoint", [("name", string_schema)]);
   ("set_effort", [("effort", choice_normal ["low"; "medium"; "high"])]);
   ("list_agents", [("path_prefix", nullable_normal)]);
   ("interrupt_agent", [("target", string_schema)])].

Lemma parameters_normal :
  (fun '(name, schema) => (name, normalize_schema_mode schema "$" StrictWire)) <$> verb_parameters =
  (fun '(name, ps) => (name, Ok (object_schema ps))) <$> normal_parameters.
Proof. vm_compute. reflexivity. Qed.

Lemma verb_normal name schema n :
  (name, schema) ∈ verb_parameters -> normalize_schema_mode schema "$" StrictWire = Ok n -> exists ps, n = object_schema ps /\ (name, ps) ∈ normal_parameters.
Proof.
  intros Hin Hn. assert ((name, Ok n) ∈ (fun '(name, ps) => (name, @Ok SchemaError _ (object_schema ps))) <$> normal_parameters) as H.
  { rewrite <- parameters_normal. apply list_elem_of_fmap. exists (name, schema). by rewrite Hn. }
  apply list_elem_of_fmap in H as ([name' ps] & [= -> ->] & H). eauto.
Qed.

Section values.
Variable parse_json : string -> option value.

(** The conditions on the values that a schema does not state. *)
Definition reply_ok (task : value) : bool :=
  match vidx task "reply" with VString encoded => bool_decide (is_Some (parse_json encoded)) | _ => true end.

Definition path_ok (v : value) : bool := match v with VString raw => is_ok (parse_path raw) | _ => true end.

Definition source_ok (from : value) : bool :=
  match vidx from "name" with
  | VString name => veq_str (vidx from "kind") "checkpoint" && negb (bool_decide (name = ""))
  | _ => negb (veq_str (vidx from "kind") "checkpoint")
  end.

Definition values_ok (name : string) (args : value) : bool :=
  if bool_decide (name = "spawn_agent") then
    match vidx args "task_name" with VString t => component_ok t | _ => true end && source_ok (vidx args "from") && reply_ok (vidx args "task")
  else if bool_decide (name = "followup_task") then path_ok (vidx args "target") && reply_ok (vidx args "task")
  else if bool_decide (name ∈ ["send_message"; "interrupt_agent"]) then path_ok (vidx args "target")
  else if bool_decide (name = "list_agents") then path_ok (vidx args "path_prefix")
  else true.

Lemma contract_admitted v p :
  value_wf v -> validate_value v (object_schema contract_normal) p = Ok tt -> bool_decide (is_Some (contract_of parse_json v)) = reply_ok v.
Proof.
  intros Hwf Hv. apply admitted_members in Hv as (o & -> & Hs & Hk & Hm); [|by_decide|done].
  assert (forall k, k ∈ ["acceptance"; "boundaries"; "clauses"; "consumes"; "introduces"; "must_not"; "owned"] ->
            exists l, (obj_get k o ≫= strings_of) = Some l) as Hstr.
  { intros k Hin. assert ((k, strings_normal) ∈ contract_normal) as Hps.
    { repeat (apply elem_of_cons in Hin as [->|Hin]; [by_decide|]). set_solver. }
    destruct (Hm _ _ Hps) as (c & -> & _ & Hc). apply validate_strings in Hc as [l Hl]. eauto. }
  destruct (Hm "reply" nullable_normal) as (r & Hr & _ & Hrv); [by_decide|].
  unfold contract_of. assert (forallb (fun e => bool_decide (e.1 ∈ contract_fields)) o = true) as ->.
  { apply forallb_forall. intros e He%list_elem_of_In. rewrite Forall_forall in Hk. apply bool_decide_eq_true. specialize (Hk _ He).
    unfold contract_normal, contract_fields in *. set_solver. }
  unfold contract_from, reply_ok, vidx. cbn [contract_fields lookup list_lookup mbind option_bind vget]. rewrite Hr.
  repeat match goal with |- context [obj_get ?k o] => let l := fresh "l" in destruct (Hstr k ltac:(by_decide)) as [l ->] end. cbn [mbind option_bind default].
  apply validate_nullable in Hrv as [->|[s ->]]; [done|]. cbn. by destruct (parse_json s).
Qed.
End values.

Lemma validate_choice v texts p : validate_value v (choice_normal texts) p = Ok tt -> exists s, v = VString s /\ s ∈ texts.
Proof. intros (s & -> & Hs)%(validate_enum v _ (VString <$> texts))%list_elem_of_fmap; [by exists s|done..]. Qed.

Lemma source_admitted v p :
  value_wf v -> validate_value v (object_schema source_normal) p = Ok tt ->
  exists kind name, source_of v = Some (kind, name) /\ is_Some (vget "name" v) /\ is_ok (spawn_source kind name) = source_ok v.
Proof.
  intros Hwf Hv. apply admitted_members in Hv as (o & -> & Hs & Hk & Hm); [|by_decide|done].
  destruct (Hm "kind" (choice_normal ["prompt"; "here"; "checkpoint"])) as (k & Hk1 & _ & Hk2); [by_decide|].
  destruct (Hm "name" nullable_normal) as (n & Hn1 & _ & Hn2); [by_decide|]. apply validate_choice in Hk2 as (kind & -> & Hkind).
  apply validate_nullable in Hn2. unfold source_of, source_ok, vidx. cbn [vget]. rewrite Hk1, Hn1.
  assert (forallb (fun e => bool_decide (e.1 ∈ ["kind"; "name"])) o = true) as ->.
  { apply forallb_forall. intros e He%list_elem_of_In. rewrite Forall_forall in Hk. apply bool_decide_eq_true. by specialize (Hk _ He). }
  assert (kind = "prompt" \/ kind = "here" \/ kind = "checkpoint") as Hcases by set_solver.
  destruct Hn2 as [->|[s ->]]; cbn; eexists kind, _; (split_and!; [done|by eexists|]).
  - by destruct Hcases as [->|[->| ->]].
  - destruct Hcases as [->|[->| ->]]; [done..|]. unfold spawn_source, veq_str. cbn. destruct s; done.
Qed.

(** The operation's verb, and the agent it is done for. *)
Definition operation_verb (op : AgentOperation) : string * string :=
  match op with
  | SpawnAgent parent _ _ _ _ => ("spawn_agent", parent)
  | SendMessage sender _ _ => ("send_message", sender)
  | FollowupTask sender _ _ => ("followup_task", sender)
  | WaitAgent agent => ("wait_agent", agent)
  | TakeCheckpoint agent _ => ("checkpoint", agent)
  | SetEffort agent _ => ("set_effort", agent)
  | ListAgents agent _ => ("list_agents", agent)
  | InterruptAgent agent _ => ("interrupt_agent", agent)
  end.

(** The agents an operation names besides its own. *)
Definition operation_targets (op : AgentOperation) : list string :=
  match op with
  | SendMessage _ target _ | FollowupTask _ target _ | InterruptAgent _ target => [target]
  | SpawnAgent parent task_name _ _ _ => [parent +:+ "/" +:+ task_name]
  | ListAgents _ (Some prefix) => [prefix]
  | _ => []
  end.

Lemma path_field_ok args key s : vget key args = Some (VString s) -> is_ok (path_field args key) = is_ok (parse_path s).
Proof. intros H. unfold path_field, string_field. rewrite (get_str_vget _ _ _ H). cbn. by destruct (parse_path s). Qed.

Lemma contract_field_ok parse_json args task :
  vget "task" args = Some task -> is_ok (contract_field parse_json args) = bool_decide (is_Some (contract_of parse_json task)).
Proof. intros H. unfold contract_field. rewrite H. cbn. by destruct (contract_of parse_json task). Qed.

Lemma is_ok_rbind_and {E A B} (r : result E A) (k : A -> result E B) b : (forall a, is_ok (k a) = b) -> is_ok (rbind r k) = is_ok r && b.
Proof. intros H. destruct r; [apply H|done]. Qed.

Lemma is_ok_rbind_last {E A B} (r : result E A) (k : A -> result E B) : (forall a, is_ok (k a) = true) -> is_ok (rbind r k) = is_ok r.
Proof. intros H. rewrite (is_ok_rbind_and r k true H). apply andb_true_r. Qed.

Lemma is_ok_map_err {E F A} (f : E -> F) (r : result E A) : is_ok (map_err f r) = is_ok r.
Proof. by destruct r. Qed.

Lemma normalize_task_ok t : is_ok (normalize_task_name t) = component_ok t.
Proof. unfold normalize_task_name, normalize_component. by destruct (component_ok t). Qed.

(** Evaluate the comparisons of literals in the goal. *)
Ltac eval_names :=
  repeat match goal with
  | |- context [@bool_decide ?P ?d] =>
      let r := eval vm_compute in (@bool_decide P d) in
      match r with true => idtac | false => idtac end; change (@bool_decide P d) with r
  end.

Section admitted_verbs.
Variable parse_json : string -> option value.
Variable agent : string.
Variable invocation : option AgentInvocation.
Hypothesis Hagent : is_canonical agent = true.

Lemma verb_spawn o :
  members [("from", object_schema source_normal); ("task", object_schema contract_normal); ("task_name", string_schema)] o ->
  is_ok (dispatch_agent_verb parse_json agent invocation "spawn_agent" (VObject o)) = values_ok parse_json "spawn_agent" (VObject o).
Proof.
  intros Ho. unfold dispatch_agent_verb, values_ok. rewrite Hagent. rewrite !(bool_decide_eq_true_2 ("spawn_agent" = "spawn_agent")) by done.
  rewrite (exact_keys_members _ _ _ Ho) by by_decide. cbn [rbind].
  destruct Ho as (_ & _ & Hm). destruct (Hm "task_name" string_schema) as (t & Ht & _ & (name & -> & _)%validate_string); [by_decide|].
  destruct (Hm "from" (object_schema source_normal)) as (from & Hf & Hwf & Hfv); [by_decide|].
  destruct (Hm "task" (object_schema contract_normal)) as (task & Hta & Hwt & Htv); [by_decide|].
  apply source_admitted in Hfv as (kind & source & Hs1 & [n Hs2] & Hs3); [|done]. apply (contract_admitted parse_json) in Htv; [|done].
  unfold string_field. rewrite (get_str_vget "task_name" _ name) by done. cbn [ok_or rbind].
  replace (vidx (VObject o) "task_name") with (VString name) by (unfold vidx; cbn [vget]; by rewrite Ht).
  replace (vidx (VObject o) "from") with from by (unfold vidx; cbn [vget]; by rewrite Hf).
  replace (vidx (VObject o) "task") with task by (unfold vidx; cbn [vget]; by rewrite Hta).
  rewrite <- andb_assoc, <- normalize_task_ok, <- (is_ok_map_err BadPath). apply is_ok_rbind_and. intros a.
  cbn [vget]. rewrite Hf. cbn [ok_or rbind]. rewrite Hs1. cbn [ok_or rbind]. rewrite Hs2. cbn [ok_or rbind]. rewrite <- Hs3.
  apply is_ok_rbind_and. intros src. rewrite <- Htv, <- (contract_field_ok parse_json (VObject o)) by done.
  by apply is_ok_rbind_last.
Qed.

Lemma parse_path_canonical p q : parse_path p = Ok q -> is_canonical q = true.
Proof.
  intros (cs & Hne & Hcs & _ & ->)%parse_path_Ok. apply is_canonical_iff. exists (unkebab <$> cs). split_and!; [by destruct cs| |done].
  apply Forall_fmap. eapply Forall_impl; [exact Hcs|apply unkebab_canonical].
Qed.

Lemma task_name_canonical t c : normalize_task_name t = Ok c -> canonical_component c = true.
Proof. unfold normalize_task_name, normalize_component. destruct (component_ok t) eqn:E; [|done]. intros [= <-]. by apply unkebab_canonical. Qed.

Lemma child_canonical c : canonical_component c = true -> is_canonical (agent +:+ "/" +:+ c) = true.
Proof.
  intros Hc. apply is_canonical_iff in Hagent as (cs & Hne & Hcs & ->). rewrite <- path_of_app by done. apply is_canonical_iff.
  exists (cs ++ [c]). split_and!; [by destruct cs| |done]. apply Forall_app. by repeat constructor.
Qed.

Lemma members_text ps o key :
  members ps o -> (key, string_schema) ∈ ps ->
  exists s, vget key (VObject o) = Some (VString s) /\ vidx (VObject o) key = VString s /\ string_field (VObject o) key = Ok s.
Proof.
  intros (_ & _ & Hm) H. destruct (Hm _ _ H) as (c & Hc & _ & (s & -> & _)%validate_string). exists s. unfold vidx, string_field, get_str. cbn [vget].
  by rewrite Hc.
Qed.

Lemma verb_admitted name ps o :
  (name, ps) ∈ normal_parameters -> members ps o ->
  is_ok (dispatch_agent_verb parse_json agent invocation name (VObject o)) = values_ok parse_json name (VObject o).
Proof.
  intros Hin Ho. repeat (apply elem_of_cons in Hin as [[= -> ->]|Hin]); try by apply elem_of_nil in Hin.
  { by apply verb_spawn. }
  all: unfold dispatch_agent_verb; unfold values_ok; rewrite Hagent; eval_names; cbn beta iota.
  all: rewrite (exact_keys_members _ _ _ Ho) by by_decide; cbn [rbind].
  all: try (destruct (members_text _ _ "target" Ho) as (target & Ht & Htv & _); [by_decide|]; rewrite Htv).
  - destruct (members_text _ _ "message" Ho) as (message & _ & _ & ->); [by_decide|].
    rewrite is_ok_rbind_last by done. by apply path_field_ok.
  - destruct Ho as (_ & _ & Hm). destruct (Hm "task" (object_schema contract_normal)) as (task & Hta & Hwt & Hc); [by_decide|].
    apply (contract_admitted parse_json) in Hc; [|done]. replace (vidx (VObject o) "task") with task by (unfold vidx; cbn [vget]; by rewrite Hta).
    cbn [path_ok]. rewrite <- Hc, <- (contract_field_ok parse_json (VObject o)), <- (path_field_ok _ _ _ Ht) by done. apply is_ok_rbind_and. intros t. by apply is_ok_rbind_last.
  - done.
  - by destruct (members_text _ _ "name" Ho) as (s & _ & _ & ->); [by_decide|].
  - destruct Ho as (_ & _ & Hm). destruct (Hm "effort" (choice_normal ["low"; "medium"; "high"])) as (e & He & _ & (s & -> & Hs)%validate_choice); [by_decide|].
    cbn [vget]. rewrite He. assert (s = "low" \/ s = "medium" \/ s = "high") as [->|[->| ->]] by set_solver; done.
  - destruct Ho as (_ & _ & Hm). destruct (Hm "path_prefix" nullable_normal) as (e & He & _ & Hv%validate_nullable); [by_decide|].
    unfold vidx. cbn [vget]. rewrite He. destruct Hv as [->|[s ->]]; [done|]. cbn. by destruct (parse_path s).
  - rewrite is_ok_rbind_last by done. by apply path_field_ok.
Qed.

Lemma verb_operation name args op :
  dispatch_agent_verb parse_json agent invocation name args = Ok op ->
  operation_verb op = (name, agent) /\ Forall (fun p => is_canonical p = true) (operation_targets op).
Proof.
  intros H. assert (forall key t, path_field args key = Ok t -> is_canonical t = true) as Hp.
  { unfold path_field. intros key t Hk. inv_ok. destruct (parse_path _) as [q|] eqn:E; [|done]. injection Hk as <-. by eapply parse_path_canonical. }
  unfold dispatch_agent_verb in H. rewrite Hagent in H.
  destruct (bool_decide_reflect (name = "spawn_agent")) as [->|_].
  { apply rbind_Ok in H as (? & _ & H). apply rbind_Ok in H as (t0 & _ & H). apply rbind_Ok in H as (t & Ht & H). apply rbind_Ok in H as (? & _ & H).
    apply rbind_Ok in H as ([kind source] & _ & H). inv_ok. subst op. split; [done|]. repeat constructor. cbn.
    destruct (normalize_task_name t0) as [c|] eqn:Et; [|done]. injection Ht as <-. by eapply child_canonical, task_name_canonical. }
  destruct (bool_decide_reflect (name = "send_message")) as [->|_]; [inv_ok; subst op; split; [done|repeat constructor; by eapply Hp]|].
  destruct (bool_decide_reflect (name = "followup_task")) as [->|_]; [inv_ok; subst op; split; [done|repeat constructor; by eapply Hp]|].
  destruct (bool_decide_reflect (name = "wait_agent")) as [->|_]; [inv_ok; by subst op|].
  destruct (bool_decide_reflect (name = "checkpoint")) as [->|_]; [inv_ok; by subst op|].
  destruct (bool_decide_reflect (name = "set_effort")) as [->|_]; [inv_ok; by subst op|].
  destruct (bool_decide_reflect (name = "list_agents")) as [->|_].
  { apply rbind_Ok in H as (? & _ & H). apply rbind_Ok in H as (prefix & Hx & H). injection H as <-. split; [done|].
    destruct prefix as [q|]; [|done]. repeat constructor. destruct (vget "path_prefix" args) as [[| | |raw| |]|]; try done.
    destruct (parse_path raw) as [q'|] eqn:E; [|done]. injection Hx as <-. by eapply parse_path_canonical. }
  destruct (bool_decide_reflect (name = "interrupt_agent")) as [->|_]; [inv_ok; subst op; split; [done|repeat constructor; by eapply Hp]|done].
Qed.
End admitted_verbs.

Lemma verb_tools_declared :
  Forall (fun t => (tool_name t, vidx t "parameters") ∈ verb_parameters /\ strict_tool t = Ok tt /\ is_agent_verb (tool_name t) = true) verb_tool_schemas.
Proof.
  unfold verb_tool_schemas. simpl. repeat (apply Forall_cons; split; [split_and!; [by_decide|vm_compute; reflexivity..]|]). constructor.
Qed.


Definition toy_send_tool : value := default VNull (verb_tool_schemas !! 1%nat).

Definition toy_send_args : value := json_object [("target", VString "/root/review-worker"); ("message", VString "hello")].

Lemma toy_send_args_wf : value_wf toy_send_args.
Proof. repeat (constructor; simpl). Qed.


(** ** The complete tool list *)

(** The verb that waits is never asynchronous, every other declaration says
    how it is scheduled. *)
Lemma all_tools_stamped sched tools :
  Forall value_wf tools ->
  Forall (fun t => match t with
                   | VObject o =>
                       obj_get "async" o =
                       if bool_decide (obj_get "name" o ≫= as_str = Some "wait_agent") then None
                       else Some (VBool (bool_decide (sched (default "" (obj_get "name" o ≫= as_str)) = AsyncTool)))
                   | _ => True
                   end) (all_tools sched tools).
Proof.
  intros Hwf. assert (Forall value_wf (verb_tool_schemas ++ tools)) as H.
  { apply Forall_app. split; [|done]. unfold verb_tool_schemas. repeat (constructor; simpl). }
  unfold all_tools. apply Forall_fmap. eapply Forall_impl; [exact H|]. intros t Ht. destruct t as [| | | | |o]; try done. cbn.
  inversion Ht; subst. case_bool_decide as E.
  - rewrite (obj_get_remove_ne "async" "name") by done. rewrite (bool_decide_eq_true_2 _ E). by apply obj_get_remove_eq.
  - rewrite (obj_get_insert_ne "async" "name") by done. rewrite (bool_decide_eq_false_2 _ E). apply obj_get_insert_eq.
Qed.
