(* ===== verification/Claims.v ===== *)
(** Claims: who waits for the output of an operation, and the output it got
    ([store/mod.rs], [store/terminal.rs], [store/validation.rs]).

    A request that issues a tool call holds a claim on the operation; a copy of the
    conversation holds a copy of the claim. A claim is pending until the
    operation is settled, for all claimants at once, or until its own claimant
    gives it up. The theorems show that the claims of one operation never
    disagree: it is settled once, with one output, and stays so. *)

From S2P Require Import Prelude Json Redaction Usage Observation Sse Failure StoreDb Admission Jobs Lists Item ContextPatch ContextText HistoryDb HistoryOps HistoryProofs HistoryClaims.

#[export] Instance ClaimRow_eta : Eta ClaimRow := fun r =>
  {| claim_operation := claim_operation r; claim_request := claim_request r; claim_state := claim_state r; output_hash := output_hash r;
     terminal_json := terminal_json r |}.

#[export] Instance ClaimRow_eq_dec : EqDecision ClaimRow.
Proof. solve_decision. Defined.

(** The rows: conversation, bindings of embedded actors, claims in the order
    of their insertion, and the owner columns of a request (run,
    incarnation, round phase). *)
Record ClaimDb := {
  k_hist : Hdb;
  k_bindings : gmap string (string * string);
  k_claims : list ClaimRow;
  k_owners : gmap string (option string * option string * option string)
}.

#[export] Instance ClaimDb_eta : Eta ClaimDb := fun d =>
  {| k_hist := k_hist d; k_bindings := k_bindings d; k_claims := k_claims d; k_owners := k_owners d |}.

Definition ambiguous_call {A} : result StoreError A := Err (OtherStoreError "AmbiguousReplayCall").
Definition malformed_call : StoreError := OtherStoreError "MalformedReplayCall".
Definition missing_call : StoreError := OtherStoreError "MissingCheckpointCall".

Section claims.
(** The digest of an item's encoding, [serde_json::from_str] and the Store's
    own identity. *)
Variable item_hash : value -> string.
Variable read_json : string -> option value.
Variable store_id : string.

(** ** Invocations *)

Definition is_call_of (call_ : string) (item : value) : bool :=
  veq_str (vidx item "call_id") call_ && type_in item ["function_call"; "custom_tool_call"].

(** The rows of a request that hold a call with this identifier. *)
Definition call_rows (db : Hdb) (r call_ : string) : list (Z * string * value) :=
  List.filter (fun x => is_call_of call_ x.2)
    (omap (fun e => pair (e.1, row_hash e.2) <$> h_items db !! row_hash e.2) (by_key (rows_of db r))).

Definition parse_call (item : value) : result StoreError ToolCall :=
  do parsed <- map_err (fun _ => malformed_call) (tool_call read_json item);
  ok_or parsed malformed_call.

Definition invocation_item (db : Hdb) (r call_ : string) : result StoreError (option ToolCall) :=
  fold_result (fun found row =>
    do parsed <- parse_call row.2;
    match found with Some _ => ambiguous_call | None => Ok (Some parsed) end) None (call_rows db r call_).

Definition invocation_kind (db : Hdb) (r call_ : string) : result StoreError (option ToolKind) :=
  rmap (fmap (fun c => input_kind (tc_input c))) (invocation_item db r call_).

(** [original_call]: the one row that issued the operation. *)
Definition original_call (db : Hdb) (operation : OperationId) : result ContextFault Origin :=
  do found <- map_err StoreFault (invocation_item db (op_request operation) (call operation));
  do _ <- ok_or found MissingCall;
  do row <- ok_or (head (call_rows db (op_request operation) (call operation))) (StoreFault (Sql "Query returned no rows"));
  Ok {| o_request := op_request operation; o_position := row.1.1; o_hash := row.1.2 |}.

(** ** Identities *)

Definition identity_for_branch (db : ClaimDb) (branch_ : string) : ConversationIdentity :=
  match k_bindings db !! branch_ with
  | Some (run_, incarnation_) => Embedded run_ branch_ incarnation_
  | None => Standalone store_id branch_
  end.

Definition validate_identity (db : ClaimDb) (identity : ConversationIdentity) : result StoreError unit :=
  refuse negb (bool_decide (identity_for_branch db (identity_actor identity) = identity)) with OperationOriginMismatch; Ok tt.

Definition operation_for_request (db : ClaimDb) (r call_ : string) : result StoreError OperationId :=
  do node <- ok_or (h_requests (k_hist db) !! r) (MissingRequest r);
  Ok {| origin := identity_for_branch db (node_branch node); op_request := r; call := call_ |}.

(** ** Rows of claims *)

Definition claims_on (db : ClaimDb) (operation : OperationId) : list ClaimRow :=
  List.filter (fun row => bool_decide (claim_operation row = operation)) (k_claims db).

Definition claim_at (db : ClaimDb) (operation : OperationId) (r : string) : option ClaimRow :=
  List.find (fun row => bool_decide (claim_operation row = operation) && bool_decide (claim_request row = r)) (k_claims db).

(** [INSERT INTO claims]. *)
Definition insert_claim (db : ClaimDb) (row : ClaimRow) : result StoreError ClaimDb :=
  if bool_decide (is_Some (claim_at db (claim_operation row) (claim_request row))) then unique_key
  else if negb (bool_decide (is_Some (h_requests (k_hist db) !! op_request (claim_operation row))))
          || negb (bool_decide (is_Some (h_requests (k_hist db) !! claim_request row)))
          || match output_hash row with Some h => negb (bool_decide (is_Some (h_items (k_hist db) !! h))) | None => false end
  then foreign_key
  else Ok (db <| k_claims ::= (fun rows => rows ++ [row]) |>).

Definition pending_claim (operation : OperationId) (r : string) : ClaimRow :=
  {| claim_operation := operation; claim_request := r; claim_state := "pending"; output_hash := None; terminal_json := None |}.

Definition claim_waits (row : ClaimRow) : bool := bool_decide (claim_state row = "pending").

Definition claim_op (db : ClaimDb) (operation : OperationId) (r : string) : result StoreError ClaimDb :=
  do expected <- (if bool_decide (r = op_request operation) then operation_for_request db r (call operation) else Err OperationOriginMismatch);
  refuse negb (bool_decide (operation = expected)) with OperationOriginMismatch;
  refuse bool_decide (is_Some (claim_at db operation r)) with OtherStoreError "DuplicateClaim";
  insert_claim db (pending_claim operation r).

Definition claim_call (db : ClaimDb) (call_ r : string) : result StoreError (OperationId * ClaimDb) :=
  do operation <- operation_for_request db r call_;
  do db <- claim_op db operation r;
  Ok (operation, db).

(** ** Outcomes *)

(** [json_extract(json,'$.output_format')] and its decoding. *)
Definition stored_format (db : Hdb) (hash : string) : result StoreError OutputFormat :=
  do item <- ok_or (h_items db !! hash) (MissingReplayItem hash);
  match vget "output_format" item with
  | None | Some VNull => Ok LegacyOpaque
  | Some (VString s) => ok_or (format_parse (VString s)) (OtherStoreError "json")
  | Some (VArray _ | VObject _) => Err (OtherStoreError "json")
  | Some (VBool _ | VNumber _) => Err (Sql "Invalid column type")
  end.

Definition operation_terminal (db : ClaimDb) (operation : OperationId) : result StoreError (option (string * TerminalOutcome * OutputFormat)) :=
  settled_terminal (stored_format (k_hist db)) (k_claims db) operation.

Definition validate_output (call_ : string) (kind : ToolKind) (item : value) : result StoreError unit :=
  guard veq_str (vidx item "type") (output_type kind) && veq_str (vidx item "call_id") call_
    else OtherStoreError "ReplayOutputKindMismatch";
  Ok tt.

(** [UPDATE claims SET state='settled' .. WHERE .. state='pending'], and the
    number of rows it changes. *)
Definition settle_claim_row (operation : OperationId) (hash : string) (terminal : TerminalOutcome) (format : OutputFormat) (row : ClaimRow) : ClaimRow :=
  if bool_decide (claim_operation row = operation) && claim_waits row
  then row <| claim_state := "settled" |> <| output_hash := Some hash |> <| terminal_json := Some (terminal, format) |>
  else row.

Definition settle_claim_rows (db : ClaimDb) (operation : OperationId) (hash : string) (terminal : TerminalOutcome) (format : OutputFormat) : nat * ClaimDb :=
  (length (List.filter claim_waits (claims_on db operation)),
   db <| k_claims ::= fmap (settle_claim_row operation hash terminal format) |>).

Definition settle_claims_with_format (db : ClaimDb) (operation : OperationId) (item : value) (terminal : TerminalOutcome) (format : OutputFormat)
    : result StoreError (nat * ClaimDb) :=
  do item_format <- ok_or (output_format item) (OtherStoreError "json");
  refuse negb (bool_decide (item_format = format)) with ConflictingReplayOutcome operation;
  do kind <- invocation_kind (k_hist db) (op_request operation) (call operation);
  do kind <- ok_or kind missing_call;
  do _ <- validate_output (call operation) kind item;
  let '(h, hist) := put_item item_hash (k_hist db) item in
  let db := db <| k_hist := hist |> in
  do previous <- operation_terminal db operation;
  refuse match previous with Some t => negb (bool_decide (t = (h, terminal, format))) | None => false end
    with ConflictingReplayOutcome operation;
  Ok (settle_claim_rows db operation h terminal format).

Definition settle_claims (db : ClaimDb) (operation : OperationId) (item : value) (terminal : TerminalOutcome) : result StoreError (nat * ClaimDb) :=
  settle_claims_with_format db operation item terminal LegacyOpaque.

Section outputs.
(** [serde_json::to_string]. *)
Variable to_string : value -> string.

Definition write_job_output_with_format (db : ClaimDb) (operation : OperationId) (kind : ToolKind) (output : JobOutput) (format : OutputFormat)
    : result StoreError (nat * ClaimDb) :=
  settle_claims_with_format db operation (tool_output_with_format to_string (call operation) kind output format) (terminal_of output) format.

(** ** Interruption *)

Definition interrupt_row (operation : OperationId) (r : string) (terminal : option (TerminalOutcome * OutputFormat)) (row : ClaimRow) : ClaimRow :=
  if bool_decide (claim_operation row = operation) && bool_decide (claim_request row = r) && claim_waits row
  then row <| claim_state := "interrupted" |> <| terminal_json := from_option Some (terminal_json row) terminal |>
  else row.

Definition interrupt_rows (db : ClaimDb) (operation : OperationId) (r : string) (terminal : option (TerminalOutcome * OutputFormat)) : nat * ClaimDb :=
  (length (List.filter (fun row => bool_decide (claim_request row = r) && claim_waits row) (claims_on db operation)),
   db <| k_claims ::= fmap (interrupt_row operation r terminal) |>).

Definition interrupt_operation_claim (db : ClaimDb) (operation : OperationId) (r : string) : nat * ClaimDb := interrupt_rows db operation r None.

Definition interrupt_unstarted_operation_claim (db : ClaimDb) (operation : OperationId) (r : string) : result StoreError (nat * ClaimDb) :=
  refuse negb (bool_decide (op_request operation = r)) with OperationOriginMismatch;
  Ok (interrupt_rows db operation r (Some (NotStarted, LegacyOpaque))).

Definition interrupt_claim (db : ClaimDb) (call_ r : string) : result StoreError (nat * ClaimDb) :=
  match List.filter (fun row => bool_decide (claim_request row = r) && bool_decide (call (claim_operation row) = call_)) (k_claims db) with
  | [] => Ok (0%nat, db)
  | [row] => Ok (interrupt_operation_claim db (claim_operation row) r)
  | _ => ambiguous_call
  end.

(** ** Replaying a claim *)

Inductive ClaimState := ClaimPending | ClaimSettled | ClaimInterrupted.

#[export] Instance ClaimState_eq_dec : EqDecision ClaimState.
Proof. solve_decision. Defined.

Definition exact_claim_state (db : ClaimDb) (operation : OperationId) (claimant : string) : result StoreError (option ClaimState) :=
  match claim_state <$> claim_at db operation claimant with
  | None => Ok None
  | Some s =>
      if bool_decide (s = "pending") then Ok (Some ClaimPending)
      else if bool_decide (s = "settled") then Ok (Some ClaimSettled)
      else if bool_decide (s = "interrupted") then Ok (Some ClaimInterrupted)
      else Err (UnsupportedReplayOutcome operation)
  end.

Definition replay_claim (db : ClaimDb) (operation : OperationId) (claimant : string) : result StoreError (option RecordedToolOutput) :=
  do kind <- invocation_kind (k_hist db) (op_request operation) (call operation);
  match kind with
  | None => Ok None
  | Some kind =>
      do state <- exact_claim_state db operation claimant;
      match state with
      | Some ClaimInterrupted =>
          Ok (Some {| ro_item := tool_output to_string (call operation) kind OutInterrupted; ro_terminal := InterruptedOutcome;
                      ro_format := LegacyOpaque |})
      | Some ClaimPending | None => Ok None
      | Some ClaimSettled =>
          do terminal <- operation_terminal db operation;
          match terminal with
          | None => Ok None
          | Some (hash, terminal, format) =>
              do item <- ok_or (h_items (k_hist db) !! hash) (MissingReplayItem hash);
              do _ <- validate_output (call operation) kind item;
              do item_format <- ok_or (output_format item) (OtherStoreError "json");
              refuse negb (bool_decide (item_format = format)) with ConflictingReplayOutcome operation;
              Ok (Some {| ro_item := item; ro_terminal := terminal; ro_format := format |})
          end
      end
  end.

(** [observed_outcome]: the recorded outcome, or the issuing claim's interruption. *)
Definition observed_outcome (db : ClaimDb) (operation : OperationId) : result StoreError (option TerminalOutcome) :=
  do settled <- operation_terminal db operation;
  match settled with
  | Some (_, terminal, _) => Ok (Some terminal)
  | None =>
      Ok match claim_at db operation (op_request operation) with
         | Some row => if bool_decide (claim_state row = "interrupted")
                       then Some (from_option fst InterruptedOutcome (terminal_json row)) else None
         | None => None
         end
  end.

Definition has_completed_output (db : ClaimDb) (operation : OperationId) : result StoreError bool :=
  do state <- exact_claim_state db operation (op_request operation);
  if negb (bool_decide (state = Some ClaimSettled)) then Ok false else
  do terminal <- operation_terminal db operation;
  Ok match terminal with Some (_, (Success | FailureOutcome _), _) => true | _ => false end.
End outputs.

(** ** Issued operations *)

Definition recorded_operation (db : ClaimDb) (r call_ : string) : result StoreError (option OperationId) :=
  do found <- invocation_item (k_hist db) r call_;
  match found with
  | None => Ok None
  | Some _ =>
      match List.filter (fun row => bool_decide (op_request (claim_operation row) = r) && bool_decide (claim_request row = r)
                                    && bool_decide (call (claim_operation row) = call_)) (k_claims db) with
      | [] => Ok None
      | [row] => Ok (Some (claim_operation row))
      | _ => ambiguous_call
      end
  end.

(** The issuing row of one operation: its original claim joined with the calls
    of its request. *)
Definition issue_operation (db : ClaimDb) (ledger : gmap OperationId (ToolCall * Origin)) (operation : OperationId)
    : result StoreError (gmap OperationId (ToolCall * Origin)) :=
  if negb (bool_decide (is_Some (claim_at db operation (op_request operation)))) then Ok ledger else
  fold_result (fun ledger row =>
    do parsed <- map_err (fun _ => malformed_call) (tool_call read_json row.2);
    do parsed <- ok_or parsed missing_call;
    if bool_decide (is_Some (ledger !! operation)) then ambiguous_call else
    Ok (<[operation := (parsed, {| o_request := op_request operation; o_position := row.1.1; o_hash := row.1.2 |})]> ledger))
    ledger (call_rows (k_hist db) (op_request operation) (call operation)).

Definition invocations_for_operations (db : ClaimDb) (operations : list OperationId) : result StoreError (gmap OperationId (ToolCall * Origin)) :=
  fold_result (issue_operation db) ∅ (remove_dups operations).

Definition operation_for_occurrence (db : ClaimDb) (o : Occurrence) : result StoreError (option OperationId) :=
  do parsed <- map_err (fun _ => malformed_call) (tool_call read_json (occ_item o));
  match parsed with
  | None => Ok None
  | Some c =>
      do operation <- recorded_operation db (o_request (occ_origin o)) (tc_call_id c);
      match operation with
      | None => Ok None
      | Some operation =>
          do issued <- invocations_for_operations db [operation];
          refuse negb (bool_decide (snd <$> issued !! operation = Some (occ_origin o))) with OperationOriginMismatch;
          Ok (Some operation)
      end
  end.

(** ** Inherited claims *)

(** The recursive query: ancestors on the same branch, to a compaction
    boundary. [None] is a query that never ends. *)
Fixpoint branch_lineage (fuel : nat) (db : Hdb) (r : string) : option (list string) :=
  match fuel with
  | O => None
  | S fuel =>
      match h_requests db !! r with
      | None => Some []
      | Some node =>
          if bool_decide (is_Some (h_session db !! compaction_key r)) then Some [r]
          else match node_parent node with
               | None => Some [r]
               | Some p =>
                   if bool_decide (node_branch <$> h_requests db !! p = Some (node_branch node))
                   then cons r <$> branch_lineage fuel db p else Some [r]
               end
      end
  end.

Definition claim_lineage (db : Hdb) (r : string) : option (list string) := branch_lineage (S (size (h_requests db))) db r.

(** The claim of the nearest request that holds one. *)
Definition nearest_claim (db : ClaimDb) (operation : OperationId) (l : list string) : option ClaimRow := head (omap (claim_at db operation) l).

Definition endless {A} : result StoreError A := Err (Sql "interrupted").

(** [copy_nearest_claim]: whether a claim was copied. *)
Definition copy_nearest_claim (db : ClaimDb) (operation : OperationId) (consumer target : string) : result StoreError (bool * ClaimDb) :=
  match claim_lineage (k_hist db) consumer with
  | None => endless
  | Some l =>
      match nearest_claim db operation l with
      | None => Ok (false, db)
      | Some row => do db <- insert_claim db (row <| claim_request := target |>); Ok (true, db)
      end
  end.

Inductive ClaimSource := FromConsumer (consumer : string) | Restored (consumer historical : string).

Definition source_consumer (s : ClaimSource) : string := match s with FromConsumer c | Restored c _ => c end.
Definition source_historical (s : ClaimSource) : option string := match s with FromConsumer _ => None | Restored _ h => Some h end.

Definition carry_operation_claim (db : ClaimDb) (operation : OperationId) (source : ClaimSource) (target : string) : result ContextFault ClaimDb :=
  do '(copied, db) <- map_err StoreFault (copy_nearest_claim db operation (source_consumer source) target);
  if (copied : bool) then Ok db else
  match source_historical source with
  | None => Err ProtectedGroup
  | Some historical =>
      do '(copied, db) <- map_err StoreFault (copy_nearest_claim db operation historical target);
      if (copied : bool) then Ok db else
      match claim_at db operation (op_request operation) with
      | Some row => map_err StoreFault (insert_claim db (row <| claim_request := target |>))
      | None => Err ProtectedGroup
      end
  end.

(** [claims_on_branch_lineage]: the nearest claim of each operation. *)
Definition claims_on_branch_lineage (db : ClaimDb) (r branch_ : string) : option (list ClaimRow) :=
  if bool_decide (node_branch <$> h_requests (k_hist db) !! r = Some branch_) then
    (fun l => omap (fun operation => nearest_claim db operation l) (remove_dups (claim_operation <$> k_claims db))) <$> claim_lineage (k_hist db) r
  else Some [].

(** [pending_at]: pending claims of the retained lineage. *)
Definition pending_at (db : ClaimDb) (r : string) : option (list ClaimRow) :=
  (fun l => List.filter (fun row => bool_decide (claim_request row ∈ l) && claim_waits row) (k_claims db)) <$> full_lineage (k_hist db) true r.

Definition recover_pending (db : ClaimDb) : list ClaimRow := List.filter claim_waits (k_claims db).
End claims.

(** ** The claims of an operation agree *)

Definition is_settled (row : ClaimRow) : bool := bool_decide (claim_state row = "settled").

(** The outcome a settled row records. *)
Definition row_outcome (row : ClaimRow) : option (string * TerminalOutcome * OutputFormat) :=
  match output_hash row, terminal_json row with Some h, Some (t, f) => Some (h, t, f) | _, _ => None end.

Definition claim_key (row : ClaimRow) : OperationId * string := (claim_operation row, claim_request row).

Record claims_ok (db : ClaimDb) : Prop := {
  ok_keys : NoDup (claim_key <$> k_claims db);
  ok_states row : row ∈ k_claims db -> claim_state row ∈ ["pending"; "settled"; "interrupted"];
  ok_settled row : row ∈ k_claims db -> is_settled row = true ->
    exists h t f, row_outcome row = Some (h, t, f) /\ stored_format (k_hist db) h = Ok f;
  ok_agree row row' : row ∈ k_claims db -> row' ∈ k_claims db -> claim_operation row = claim_operation row' ->
    is_settled row = true -> is_settled row' = true -> row_outcome row = row_outcome row';
  ok_closed row row' : row ∈ k_claims db -> row' ∈ k_claims db -> claim_operation row = claim_operation row' ->
    is_settled row = true -> claim_waits row' = false;
  ok_original row : row ∈ k_claims db -> exists row', row' ∈ k_claims db /\ claim_key row' = (claim_operation row, op_request (claim_operation row))
}.

Lemma settled_fold format_of operation c l found :
  Forall (fun row => row_outcome row = Some c) l -> (format_of c.1.1 = Ok c.2) -> (found = None \/ found = Some c) ->
  fold_result (agree_terminal format_of operation) found l = Ok (match l with [] => found | _ => Some c end).
Proof.
  intros H Hf. revert found. induction H as [|row l Hrow _ IH]; intros found Hfound; [done|]. cbn [fold_result].
  unfold row_outcome in Hrow. destruct (output_hash row) as [h|] eqn:Eh; [|done].
  destruct (terminal_json row) as [[t f]|] eqn:Et; [|done]. injection Hrow as <-. simpl in Hf. assert (agree_terminal format_of operation found row = Ok (Some (h, t, f))) as ->; [|cbn [rbind]; rewrite IH by (by right); by destruct l].
  unfold agree_terminal. rewrite Eh, Et. rewrite Hf. cbn [rbind]. rewrite bool_decide_eq_true_2 by done. cbn [negb].
  assert (match found with Some previous => negb (bool_decide (previous = (h, t, f))) | None => false end = false) as ->.
  { destruct Hfound as [->| ->]; [done|]. by rewrite bool_decide_eq_true_2. }
  done.
Qed.

Section invariant.
Variable item_hash : value -> string.
Variable read_json : string -> option value.
Variable store_id : string.
Variable to_string : value -> string.

Definition settled_of (db : ClaimDb) (operation : OperationId) : list ClaimRow :=
  List.filter (fun row => bool_decide (claim_operation row = operation) && is_settled row) (k_claims db).

Lemma settled_of_elem db operation row :
  row ∈ settled_of db operation <-> row ∈ k_claims db /\ claim_operation row = operation /\ is_settled row = true.
Proof.
  unfold settled_of. rewrite list_elem_of_In, filter_In, <- list_elem_of_In, andb_true_iff, bool_decide_eq_true. done.
Qed.

Lemma terminal_exact db operation :
  claims_ok db -> operation_terminal db operation = Ok (match settled_of db operation with [] => None | row :: _ => row_outcome row end).
Proof.
  intros H. unfold operation_terminal, settled_terminal.
  change (List.filter _ (k_claims db)) with (settled_of db operation). destruct (settled_of db operation) as [|row l] eqn:E; [done|].
  assert (forall row', row' ∈ row :: l -> row' ∈ k_claims db /\ claim_operation row' = operation /\ is_settled row' = true) as Hin.
  { intros row' Hrow. rewrite <- E in Hrow. by apply settled_of_elem. }
  destruct (Hin row) as (H1 & H2 & H3); [left|]. destruct (ok_settled _ H _ H1 H3) as (h & t & f & Ho & Hf). rewrite Ho.
  apply (settled_fold _ _ (h, t, f) (row :: l) None); [|done|by left]. apply Forall_forall. intros row' Hrow.
  destruct (Hin _ Hrow) as (G1 & G2 & G3). rewrite <- Ho. apply (ok_agree _ H); congruence.
Qed.

Lemma terminal_Some db operation t :
  claims_ok db -> operation_terminal db operation = Ok (Some t) <->
  exists row, row ∈ k_claims db /\ claim_operation row = operation /\ is_settled row = true /\ row_outcome row = Some t.
Proof.
  intros H. rewrite terminal_exact by done. split.
  - destruct (settled_of db operation) as [|row l] eqn:E; [done|]. intros [= Ho]. exists row.
    assert (row ∈ settled_of db operation) as Hin by (rewrite E; left). apply settled_of_elem in Hin. naive_solver.
  - intros (row & H1 & H2 & H3 & Ho). assert (row ∈ settled_of db operation) as Hin by (by apply settled_of_elem).
    destruct (settled_of db operation) as [|row' l] eqn:E; [by apply elem_of_nil in Hin|]. f_equal. rewrite <- Ho.
    assert (row' ∈ settled_of db operation) as Hin' by (rewrite E; left). apply settled_of_elem in Hin' as (G1 & G2 & G3).
    apply (ok_agree _ H); congruence.
Qed.

Lemma claim_at_Some db operation r row :
  claim_at db operation r = Some row -> row ∈ k_claims db /\ claim_key row = (operation, r).
Proof.
  unfold claim_at. intros [H1 H2]%List.find_some. apply andb_true_iff in H2 as [?%bool_decide_eq_true ?%bool_decide_eq_true].
  split; [by apply list_elem_of_In|]. unfold claim_key. congruence.
Qed.

Lemma claim_at_None db operation r : claim_at db operation r = None <-> (operation, r) ∉ claim_key <$> k_claims db.
Proof.
  unfold claim_at. split.
  - intros H (row & E & Hin)%list_elem_of_fmap. apply list_elem_of_In in Hin. pose proof (List.find_none _ _ H row Hin) as Hn.
    unfold claim_key in E. injection E as -> ->. by rewrite !bool_decide_eq_true_2 in Hn.
  - intros H. destruct (List.find _ _) as [row|] eqn:E; [|done]. exfalso. apply H. apply list_elem_of_fmap. exists row.
    by apply claim_at_Some in E as [? <-].
Qed.

Lemma claim_at_elem db row : claims_ok db -> row ∈ k_claims db -> claim_at db (claim_operation row) (claim_request row) = Some row.
Proof.
  intros H Hin. destruct (claim_at db _ _) as [row'|] eqn:E.
  - apply claim_at_Some in E as [Hin' Hk]. f_equal. apply list_elem_of_lookup in Hin as [i Hi]. apply list_elem_of_lookup in Hin' as [j Hj].
    assert (i = j) as ->; [|congruence]. eapply (NoDup_lookup _ _ _ (claim_key row) (ok_keys _ H)); rewrite list_lookup_fmap.
    + by rewrite Hi.
    + rewrite Hj. simpl. by rewrite Hk.
  - exfalso. apply claim_at_None in E. apply E, list_elem_of_fmap. by exists row.
Qed.

(** What a step may do to the claims before it: a claim that is no longer
    pending does not change, and none is lost. *)
Definition claims_grow (db db' : ClaimDb) : Prop :=
  h_items (k_hist db) ⊆ h_items (k_hist db') /\
  forall row, row ∈ k_claims db -> exists row', row' ∈ k_claims db' /\ claim_key row' = claim_key row /\ (claim_waits row = false -> row' = row).

#[local] Instance claims_grow_preorder : PreOrder claims_grow.
Proof.
  split.
  - intros db. split; [done|]. intros row H. by exists row.
  - intros a b c [I1 H1] [I2 H2]. split; [by etrans|]. intros row Hr. destruct (H1 _ Hr) as (r1 & G1 & K1 & S1). destruct (H2 _ G1) as (r2 & G2 & K2 & S2).
    exists r2. split_and!; [done|congruence|]. intros Hp. specialize (S1 Hp). subst r1. by apply S2.
Qed.

Lemma stored_format_items db db' h f : h_items db ⊆ h_items db' -> stored_format db h = Ok f -> stored_format db' h = Ok f.
Proof.
  unfold stored_format. intros Hs H. apply rbind_Ok in H as (item & Hi & H). apply ok_or_Ok in Hi. by rewrite (lookup_weaken _ _ _ _ Hi Hs).
Qed.

(** New items and requests leave the claims as they are. *)
Lemma rows_step db hist bindings owners :
  h_items (k_hist db) ⊆ h_items hist ->
  let db' := {| k_hist := hist; k_bindings := bindings; k_claims := k_claims db; k_owners := owners |} in
  claims_grow db db' /\ (claims_ok db -> claims_ok db').
Proof.
  intros Hs db'. split; [split; [done|]; intros row Hr; by exists row|]. intros [K S T A C O]. split; try done.
  intros row Hr Hset. destruct (T _ Hr Hset) as (h & t & f & Ho & Hf). exists h, t, f. split; [done|]. by eapply stored_format_items.
Qed.

Definition copy_or_issue (db : ClaimDb) (row : ClaimRow) : Prop :=
  (exists source, source ∈ k_claims db /\ row = source <| claim_request := claim_request row |>) \/
  row = pending_claim (claim_operation row) (op_request (claim_operation row)).

Lemma insert_claim_inv db row db' :
  insert_claim db row = Ok db' -> claim_key row ∉ claim_key <$> k_claims db /\ db' = db <| k_claims ::= (fun rows => rows ++ [row]) |>.
Proof.
  unfold insert_claim, unique_key, foreign_key. case_bool_decide as E; [done|]. destruct (_ || _); [done|]. intros [= <-]. split; [|done].
  apply (claim_at_None db (claim_operation row) (claim_request row)). destruct (claim_at _ _ _); [|done]. exfalso. apply E. by eexists.
Qed.

Lemma insert_claim_step db row db' :
  copy_or_issue db row -> insert_claim db row = Ok db' -> claims_grow db db' /\ (claims_ok db -> claims_ok db').
Proof.
  intros Hrow [Hnew ->]%insert_claim_inv. split.
  { split; [done|]. intros x Hx. exists x. split; [|done]. simpl. apply elem_of_app. by left. }
  intros [K S T A C O]. destruct Hrow as [(source & Hsrc & Hcopy)|Hissue].
  - (* a copy agrees with its source *)
    assert (claim_operation row = claim_operation source /\ claim_state row = claim_state source /\ row_outcome row = row_outcome source)
      as (Hop & Hst & Hout) by (rewrite Hcopy; done).
    assert (forall x, x ∈ k_claims db ++ [row] -> exists y, y ∈ k_claims db /\ claim_operation x = claim_operation y /\ claim_state x = claim_state y /\
              row_outcome x = row_outcome y) as Hall.
    { intros x [Hx| ->%list_elem_of_singleton]%elem_of_app; [by exists x|by exists source]. }
    assert (forall x y, claim_state x = claim_state y -> is_settled x = is_settled y /\ claim_waits x = claim_waits y) as Hs
      by (intros x y E; unfold is_settled, claim_waits; by rewrite E).
    split; simpl.
    + rewrite fmap_app. apply NoDup_app. split_and!; [done| |apply NoDup_singleton]. intros k Hk ->%list_elem_of_singleton. done.
    + intros x Hx. destruct (Hall _ Hx) as (y & Hy & _ & -> & _). by apply S.
    + intros x Hx Hset. destruct (Hall _ Hx) as (y & Hy & _ & E & ->). rewrite (proj1 (Hs _ _ E)) in Hset. by apply T.
    + intros x x' Hx Hx' Eop Hset Hset'. destruct (Hall _ Hx) as (y & Hy & E1 & E2 & ->). destruct (Hall _ Hx') as (y' & Hy' & E1' & E2' & ->).
      rewrite (proj1 (Hs _ _ E2)) in Hset. rewrite (proj1 (Hs _ _ E2')) in Hset'. apply A; congruence.
    + intros x x' Hx Hx' Eop Hset. destruct (Hall _ Hx) as (y & Hy & E1 & E2 & _). destruct (Hall _ Hx') as (y' & Hy' & E1' & E2' & _).
      rewrite (proj1 (Hs _ _ E2)) in Hset. rewrite (proj2 (Hs _ _ E2')). apply (C y); congruence.
    + intros x Hx. destruct (Hall _ Hx) as (y & Hy & E & _). destruct (O _ Hy) as (z & Hz & Kz). exists z. rewrite E. split; [|done]. apply elem_of_app. by left.
  - (* the first claim of its operation *)
    assert (forall x, x ∈ k_claims db -> claim_operation x <> claim_operation row) as Hfirst.
    { intros x Hx E. destruct (O _ Hx) as (z & Hz & Kz). apply Hnew, list_elem_of_fmap. exists z. split; [|done].
      rewrite Kz, E. rewrite Hissue at 1. done. }
    assert (is_settled row = false) as Hns by (rewrite Hissue; done).
    split; simpl.
    + rewrite fmap_app. apply NoDup_app. split_and!; [done| |apply NoDup_singleton]. intros k Hk ->%list_elem_of_singleton. done.
    + intros x [Hx| ->%list_elem_of_singleton]%elem_of_app; [by apply S|]. rewrite Hissue. left.
    + intros x [Hx| ->%list_elem_of_singleton]%elem_of_app Hset; [by apply T|congruence].
    + intros x x' [Hx| ->%list_elem_of_singleton]%elem_of_app [Hx'| ->%list_elem_of_singleton]%elem_of_app Eop Hset Hset'; try congruence. by apply A.
    + intros x x' [Hx| ->%list_elem_of_singleton]%elem_of_app [Hx'| ->%list_elem_of_singleton]%elem_of_app Eop Hset; try congruence.
      * by apply (C x).
      * by destruct (Hfirst _ Hx).
    + intros x [Hx| ->%list_elem_of_singleton]%elem_of_app.
      * destruct (O _ Hx) as (z & Hz & Kz). exists z. split; [|done]. apply elem_of_app. by left.
      * exists row. split; [apply elem_of_app; right; left|]. rewrite Hissue at 1. done.
Qed.

(** ** Settlement and interruption *)

Lemma map_step db (f : ClaimRow -> ClaimRow) :
  (forall row, claim_key (f row) = claim_key row) -> (forall row, claim_waits row = false -> f row = row) ->
  claims_grow db (db <| k_claims ::= fmap f |>).
Proof.
  intros Hk Hf. split; [done|]. intros row Hr. exists (f row). split_and!; [|done|by apply Hf]. simpl. apply list_elem_of_fmap. eauto.
Qed.

Lemma map_keys db (f : ClaimRow -> ClaimRow) :
  (forall row, claim_key (f row) = claim_key row) -> claims_ok db ->
  NoDup (claim_key <$> (f <$> k_claims db)) /\
  forall row, row ∈ f <$> k_claims db ->
    exists row', row' ∈ f <$> k_claims db /\ claim_key row' = (claim_operation row, op_request (claim_operation row)).
Proof.
  intros Hk H. split.
  - replace (claim_key <$> (f <$> k_claims db)) with (claim_key <$> k_claims db); [apply H|].
    rewrite <- list_fmap_compose. apply list_fmap_ext. intros i x _. simpl. by rewrite Hk.
  - intros row (x & -> & Hx)%list_elem_of_fmap. destruct (ok_original _ H _ Hx) as (z & Hz & Kz). exists (f z). split; [apply list_elem_of_fmap; eauto|].
    rewrite Hk, Kz. pose proof (Hk x) as E. unfold claim_key in E. by injection E as -> _.
Qed.

Lemma state_exclusive row : claim_waits row = true -> is_settled row = false.
Proof. unfold claim_waits, is_settled. intros ->%bool_decide_eq_true. done. Qed.

Lemma settle_claim_row_key operation h t f row : claim_key (settle_claim_row operation h t f row) = claim_key row.
Proof. unfold settle_claim_row. by destruct (_ && _). Qed.

Lemma settle_claim_row_id operation h t f row : claim_waits row = false -> settle_claim_row operation h t f row = row.
Proof. unfold settle_claim_row. intros ->. by rewrite andb_false_r. Qed.

Lemma settle_claim_row_cases operation h t f row :
  settle_claim_row operation h t f row = row /\ (claim_operation row = operation -> claim_waits row = false) \/
  claim_operation row = operation /\ is_settled (settle_claim_row operation h t f row) = true /\ row_outcome (settle_claim_row operation h t f row) = Some (h, t, f) /\
  claim_state (settle_claim_row operation h t f row) = "settled".
Proof.
  unfold settle_claim_row. case_bool_decide as E; simpl; [|by left]. destruct (claim_waits row); [right; done|by left].
Qed.

Lemma settle_rows_ok db operation h t f :
  claims_ok db -> stored_format (k_hist db) h = Ok f ->
  (forall row, row ∈ k_claims db -> claim_operation row = operation -> is_settled row = true -> row_outcome row = Some (h, t, f)) ->
  claims_ok (settle_claim_rows db operation h t f).2.
Proof.
  intros H Hfmt Hprev. pose proof (map_keys _ _ (settle_claim_row_key operation h t f) H) as [HK HO]. destruct H as [K S T A C O].
  assert (forall x, claim_operation (settle_claim_row operation h t f x) = claim_operation x) as Hop.
  { intros x. pose proof (settle_claim_row_key operation h t f x) as E. unfold claim_key in E. by injection E as -> _. }
  split; simpl; [done| | | | |done].
  - intros row (x & -> & Hx)%list_elem_of_fmap. destruct (settle_claim_row_cases operation h t f x) as [[-> _]|(_ & _ & _ & ->)]; [by apply S|set_solver].
  - intros row (x & -> & Hx)%list_elem_of_fmap Hset. destruct (settle_claim_row_cases operation h t f x) as [[E _]|(_ & _ & -> & _)]; [|by exists h, t, f].
    rewrite E in *. by apply T.
  - intros r1 r2 (x & -> & Hx)%list_elem_of_fmap (y & -> & Hy)%list_elem_of_fmap Eop Hs1 Hs2. rewrite !Hop in Eop.
    destruct (settle_claim_row_cases operation h t f x) as [[E1 _]|(O1 & _ & E1 & _)], (settle_claim_row_cases operation h t f y) as [[E2 _]|(O2 & _ & E2 & _)];
      rewrite E1, E2 in *; [by apply A| | |done].
    + apply Hprev; congruence.
    + symmetry. apply Hprev; congruence.
  - intros r1 r2 (x & -> & Hx)%list_elem_of_fmap (y & -> & Hy)%list_elem_of_fmap Eop Hs1. rewrite !Hop in Eop.
    destruct (settle_claim_row_cases operation h t f y) as [[E2 P2]|(O2 & S2 & _)].
    + rewrite E2. destruct (settle_claim_row_cases operation h t f x) as [[E1 _]|(O1 & _)]; [rewrite E1 in Hs1; by apply (C x)|]. apply P2. congruence.
    + destruct (claim_waits (settle_claim_row operation h t f y)) eqn:Ep; [|done]. apply state_exclusive in Ep. congruence.
Qed.

Lemma interrupt_row_key operation r o row : claim_key (interrupt_row operation r o row) = claim_key row.
Proof. unfold interrupt_row. by destruct (_ && _). Qed.

Lemma interrupt_row_id operation r o row : claim_waits row = false -> interrupt_row operation r o row = row.
Proof. unfold interrupt_row. intros ->. by rewrite andb_false_r. Qed.

Lemma interrupt_row_cases operation r o row :
  interrupt_row operation r o row = row \/
  is_settled (interrupt_row operation r o row) = false /\ claim_waits (interrupt_row operation r o row) = false /\
  claim_state (interrupt_row operation r o row) = "interrupted".
Proof. unfold interrupt_row. destruct (_ && _); [by right|by left]. Qed.

Lemma interrupt_rows_ok db operation r o : claims_ok db -> claims_ok (interrupt_rows db operation r o).2.
Proof.
  intros H. pose proof (map_keys _ _ (interrupt_row_key operation r o) H) as [HK HO]. destruct H as [K S T A C O].
  assert (forall x, claim_operation (interrupt_row operation r o x) = claim_operation x) as Hop.
  { intros x. pose proof (interrupt_row_key operation r o x) as E. unfold claim_key in E. by injection E as -> _. }
  split; simpl; [done| | | | |done].
  - intros row (x & -> & Hx)%list_elem_of_fmap. destruct (interrupt_row_cases operation r o x) as [->|(_ & _ & ->)]; [by apply S|set_solver].
  - intros row (x & -> & Hx)%list_elem_of_fmap Hset. destruct (interrupt_row_cases operation r o x) as [E|(E & _)]; [rewrite E in *; by apply T|congruence].
  - intros r1 r2 (x & -> & Hx)%list_elem_of_fmap (y & -> & Hy)%list_elem_of_fmap Eop Hs1 Hs2. rewrite !Hop in Eop.
    destruct (interrupt_row_cases operation r o x) as [E1|(E1 & _)], (interrupt_row_cases operation r o y) as [E2|(E2 & _)]; try congruence.
    rewrite E1, E2 in *. by apply A.
  - intros r1 r2 (x & -> & Hx)%list_elem_of_fmap (y & -> & Hy)%list_elem_of_fmap Eop Hs1. rewrite !Hop in Eop.
    destruct (interrupt_row_cases operation r o y) as [E2|(_ & E2 & _)]; [|done]. rewrite E2.
    destruct (interrupt_row_cases operation r o x) as [E1|(E1 & _)]; [|congruence]. rewrite E1 in Hs1. by apply (C x).
Qed.

(** No other stored item has this item's digest. *)
Definition digest_free (db : ClaimDb) (item : value) : Prop := forall v, h_items (k_hist db) !! item_hash item = Some v -> v = item.

(** The format is absent or a text. Every output the harness writes is so. *)
Definition plain_format (item : value) : bool := match vget "output_format" item with None | Some (VString _) => true | _ => false end.

Lemma put_item_stored db item :
  (forall v, h_items db !! item_hash item = Some v -> v = item) ->
  h_items (put_item item_hash db item).2 !! item_hash item = Some item /\ h_items db ⊆ h_items (put_item item_hash db item).2 /\
  h_rows (put_item item_hash db item).2 = h_rows db.
Proof.
  intros Hc. unfold put_item. simpl. destruct (h_items db !! item_hash item) as [v|] eqn:E; simpl.
  - by rewrite (Hc v eq_refl) in E.
  - split_and!; [apply lookup_insert_eq|by apply insert_subseteq|done].
Qed.

Lemma plain_stored db item f :
  h_items db !! item_hash item = Some item -> plain_format item = true -> output_format item = Some f -> stored_format db (item_hash item) = Ok f.
Proof.
  unfold stored_format, plain_format, output_format. intros -> Hp Hf. cbn [ok_or rbind].
  destruct (vget "output_format" item) as [[| | |s| |]|]; try done; [|by injection Hf as ->]. by rewrite Hf.
Qed.

Lemma settle_inv db operation item t f n db' :
  settle_claims_with_format item_hash read_json db operation item t f = Ok (n, db') ->
  let db1 := db <| k_hist := (put_item item_hash (k_hist db) item).2 |> in
  output_format item = Some f /\
  (exists kind, invocation_kind read_json (k_hist db) (op_request operation) (call operation) = Ok (Some kind) /\ validate_output (call operation) kind item = Ok tt) /\
  (exists previous, operation_terminal db1 operation = Ok previous /\ (forall o, previous = Some o -> o = (item_hash item, t, f))) /\
  (n, db') = settle_claim_rows db1 operation (item_hash item) t f.
Proof.
  intros H db1. unfold settle_claims_with_format in H. apply rbind_Ok in H as (f' & Hf & H). apply ok_or_Ok in Hf.
  destruct (negb _) eqn:Eg in H; [done|]. apply negb_false_iff, bool_decide_eq_true in Eg. subst f'.
  apply rbind_Ok in H as (k & Hk & H). apply rbind_Ok in H as (kind & Ho & H). apply ok_or_Ok in Ho. subst k. apply rbind_Ok in H as ([] & Hv & H).
  change (put_item item_hash (k_hist db) item) with (item_hash item, (put_item item_hash (k_hist db) item).2) in H. cbn beta iota zeta in H.
  fold db1 in H. apply rbind_Ok in H as (previous & Hp & H). split_and!; [done|by exists kind| |].
  - exists previous. split; [done|]. intros o ->. destruct (negb _) eqn:E in H; [done|]. by apply negb_false_iff, bool_decide_eq_true in E.
  - destruct (match previous with Some _ => _ | None => _ end); [done|]. by apply Ok_inj in H.
Qed.

Lemma settle_step db operation item t f n db' :
  digest_free db item -> plain_format item = true ->
  settle_claims_with_format item_hash read_json db operation item t f = Ok (n, db') -> claims_grow db db' /\ (claims_ok db -> claims_ok db').
Proof.
  intros Hc Hp H. apply settle_inv in H as (Hf & _ & (previous & Hprev & Ht) & E). destruct (put_item_stored _ _ Hc) as (Hi & Hs & _).
  set (db1 := db <| k_hist := _ |>) in *. assert (db' = (settle_claim_rows db1 operation (item_hash item) t f).2) as -> by (by rewrite <- E).
  destruct (rows_step db (k_hist db1) (k_bindings db) (k_owners db) Hs) as [G1 K1].
  change {| k_hist := k_hist db1; k_bindings := k_bindings db; k_claims := k_claims db; k_owners := k_owners db |} with db1 in G1, K1. split.
  - etrans; [exact G1|]. apply map_step; [apply settle_claim_row_key|apply settle_claim_row_id].
  - intros Hok. specialize (K1 Hok). apply settle_rows_ok; [done|by apply plain_stored|]. intros row Hr Hop Hset.
    destruct (ok_settled _ K1 _ Hr Hset) as (h & t' & f' & Ho & _). rewrite Ho. f_equal. apply Ht.
    assert (operation_terminal db1 operation = Ok (Some (h, t', f'))) as Hq by (apply terminal_Some; eauto). congruence.
Qed.

Lemma nearest_elem db operation l row : nearest_claim db operation l = Some row -> row ∈ k_claims db /\ claim_operation row = operation.
Proof.
  unfold nearest_claim. intros H. assert (row ∈ omap (claim_at db operation) l) as (r & _ & Hr)%list_elem_of_omap.
  { destruct (omap _ l); [done|]. injection H as ->. left. }
  apply claim_at_Some in Hr as [? Hk]. split; [done|]. unfold claim_key in Hk. by injection Hk.
Qed.

Lemma copy_step db row r db' :
  row ∈ k_claims db -> insert_claim db (row <| claim_request := r |>) = Ok db' -> claims_grow db db' /\ (claims_ok db -> claims_ok db').
Proof. intros Hr H. eapply insert_claim_step; [|exact H]. left. by exists row. Qed.

Lemma copy_nearest_step db operation consumer target b db' :
  copy_nearest_claim db operation consumer target = Ok (b, db') -> claims_grow db db' /\ (claims_ok db -> claims_ok db').
Proof.
  unfold copy_nearest_claim. destruct (claim_lineage _ _) as [l|]; [|done]. destruct (nearest_claim db operation l) as [row|] eqn:E.
  - intros H. apply rbind_Ok in H as (db1 & H & [= <- <-]). apply nearest_elem in E as [? _]. by eapply copy_step.
  - by intros [= <- <-].
Qed.

Lemma carry_step db operation source target db' :
  carry_operation_claim db operation source target = Ok db' -> claims_grow db db' /\ (claims_ok db -> claims_ok db').
Proof.
  unfold carry_operation_claim. intros H. apply rbind_Ok in H as ([b db1] & H1 & H).
  destruct (copy_nearest_claim _ _ _ _) as [[b1 d1]|] eqn:E1; [|done]. injection H1 as -> ->. apply copy_nearest_step in E1 as [G1 K1].
  destruct b; [by injection H as <-|]. destruct (source_historical source) as [hist|]; [|done]. apply rbind_Ok in H as ([b2 db2] & H2 & H).
  destruct (copy_nearest_claim db1 _ _ _) as [[b3 d3]|] eqn:E2; [|done]. injection H2 as -> ->. apply copy_nearest_step in E2 as [G2 K2].
  assert (claims_grow db db2 /\ (claims_ok db -> claims_ok db2)) as [G3 K3] by (split; [by etrans|auto]).
  destruct b2; [by injection H as <-|]. destruct (claim_at db2 _ _) as [row|] eqn:Er; [|done]. apply claim_at_Some in Er as [Hr _].
  destruct (insert_claim db2 _) as [d4|] eqn:E4; [|done]. injection H as <-. destruct (copy_step _ _ _ _ Hr E4) as [G4 K4]. split; [by etrans|auto].
Qed.

(** ** Runs *)

(** The output item a claim replays as, for publication. *)
Definition replay_item (db : ClaimDb) (operation : OperationId) (r : string) : result StoreError (option value) :=
  rmap (fmap ro_item) (replay_claim read_json to_string db operation r).

(** One committed transaction on claims, or on the rows they refer to. *)
Inductive claim_step (db db' : ClaimDb) : Prop :=
| claim_rows hist owners : extends (k_hist db) hist -> db' = db <| k_hist := hist |> <| k_owners := owners |> -> claim_step db db'
| claim_bind bindings : db' = db <| k_bindings := bindings |> -> claim_step db db'
| claim_issue call_ r operation : claim_call store_id db call_ r = Ok (operation, db') -> claim_step db db'
| claim_settle operation item t f n :
    digest_free db item -> plain_format item = true ->
    settle_claims_with_format item_hash read_json db operation item t f = Ok (n, db') -> claim_step db db'
| claim_interrupt operation r n : interrupt_operation_claim db operation r = (n, db') -> claim_step db db'
| claim_unstarted operation r n : interrupt_unstarted_operation_claim db operation r = Ok (n, db') -> claim_step db db'
| claim_interrupt_call call_ r n : interrupt_claim db call_ r = Ok (n, db') -> claim_step db db'
| claim_carry operation source target : carry_operation_claim db operation source target = Ok db' -> claim_step db db'.

Lemma interrupt_step db operation r o n db' :
  interrupt_rows db operation r o = (n, db') -> claims_grow db db' /\ (claims_ok db -> claims_ok db').
Proof.
  intros H. assert (db' = (interrupt_rows db operation r o).2) as -> by (by rewrite H). split; [|apply interrupt_rows_ok].
  apply map_step; [apply interrupt_row_key|apply interrupt_row_id].
Qed.

Lemma claim_step_ok db db' : claim_step db db' -> claims_grow db db' /\ (claims_ok db -> claims_ok db').
Proof.
  intros [hist owners [_ Hi _ _ _ _] ->|bindings ->|call_ r operation H|operation item t f n Hc Hp H|operation r n H|operation r n H|call_ r n H|operation source target H].
  - exact (rows_step db hist (k_bindings db) owners Hi).
  - exact (rows_step db (k_hist db) bindings (k_owners db) (reflexivity _)).
  - unfold claim_call in H. apply rbind_Ok in H as (op & _ & H). apply rbind_Ok in H as (db1 & H & [= <- <-]). unfold claim_op in H.
    apply rbind_Ok in H as (expected & He & H). destruct (bool_decide (r = op_request op)) eqn:Er; [|done]. apply bool_decide_eq_true in Er. subst r.
    destruct (negb _); [done|]. destruct (bool_decide _); [done|]. eapply insert_claim_step; [|exact H]. by right.
  - by eapply settle_step.
  - by eapply interrupt_step.
  - unfold interrupt_unstarted_operation_claim in H. destruct (negb _); [done|]. apply Ok_inj in H. by eapply interrupt_step.
  - unfold interrupt_claim in H. destruct (List.filter _ _) as [|row [|]]; [by injection H as <- <-| |done]. apply Ok_inj in H. by eapply interrupt_step.
  - by eapply carry_step.
Qed.

Lemma claim_steps_ok db db' : rtc claim_step db db' -> claims_grow db db' /\ (claims_ok db -> claims_ok db').
Proof.
  induction 1 as [db|a b c Hab _ [G K]]; [done|]. destruct (claim_step_ok _ _ Hab) as [G' K']. split; [by etrans|auto].
Qed.

Lemma no_claims_ok db : k_claims db = [] -> claims_ok db.
Proof. intros E. split; rewrite ?E; try (intros; set_solver). constructor. Qed.

Lemma grow_terminal db db' operation t :
  claims_grow db db' -> claims_ok db -> claims_ok db' -> operation_terminal db operation = Ok (Some t) -> operation_terminal db' operation = Ok (Some t).
Proof.
  intros [_ G] K K' (row & Hr & Hop & Hs & Ho)%terminal_Some; [|done]. apply terminal_Some; [done|]. destruct (G _ Hr) as (row' & Hr' & _ & E).
  rewrite E in Hr'; [by exists row|]. destruct (claim_waits row) eqn:Ep; [|done]. apply state_exclusive in Ep. congruence.
Qed.

(** Repeating a settlement changes no claim; a different one is refused. *)
Lemma settle_again db operation o item t f n db' :
  claims_ok db -> operation_terminal db operation = Ok (Some o) -> settle_claims_with_format item_hash read_json db operation item t f = Ok (n, db') ->
  o = (item_hash item, t, f) /\ n = 0%nat /\ k_claims db' = k_claims db.
Proof.
  intros K Ho (_ & _ & (previous & Hp & Ht) & E)%settle_inv. set (db1 := db <| k_hist := _ |>) in *.
  assert (forall row, row ∈ k_claims db -> claim_operation row = operation -> claim_waits row = false) as Hnone.
  { apply terminal_Some in Ho as (row & Hr & Hop & Hs & _); [|done]. intros row' Hr' Hop'. apply (ok_closed _ K row); congruence. }
  assert (h_items (k_hist db) ⊆ h_items (k_hist db1)) as Hi.
  { unfold db1, put_item. simpl. destruct (h_items (k_hist db) !! _) eqn:Ei; simpl; [done|by apply insert_subseteq]. }
  destruct (rows_step db (k_hist db1) (k_bindings db) (k_owners db) Hi) as [G1 K1]. specialize (K1 K).
  change {| k_hist := k_hist db1; k_bindings := k_bindings db; k_claims := k_claims db; k_owners := k_owners db |} with db1 in G1, K1.
  pose proof (grow_terminal _ _ _ _ G1 K K1 Ho) as Ho1. rewrite Ho1 in Hp. injection Hp as <-. unfold settle_claim_rows in E. injection E as -> ->. split_and!.
  - by apply Ht.
  - change (length (List.filter claim_waits (claims_on db operation)) = 0%nat). rewrite (proj2 (filter_nil_iff _ _)); [done|].
    apply Forall_forall. intros row Hr. unfold claims_on in Hr. apply list_elem_of_In, filter_In in Hr as [Hr Hop]. apply list_elem_of_In in Hr.
    apply Hnone; [done|]. by apply bool_decide_eq_true in Hop.
  - simpl. rewrite <- (list_fmap_id (k_claims db)) at 2. apply list_fmap_ext. intros i row Hrow. apply list_elem_of_lookup_2 in Hrow.
    unfold settle_claim_row. case_bool_decide as Eo; [|done]. by rewrite (Hnone _ Hrow Eo).
Qed.


Lemma call_rows_items db db' r call_ :
  (forall p row, rows_of db r !! p = Some row -> is_Some (h_items db !! row_hash row)) -> rows_of db' r = rows_of db r -> h_items db ⊆ h_items db' ->
  call_rows db' r call_ = call_rows db r call_.
Proof.
  intros Hw Hr Hi. unfold call_rows. f_equal. rewrite Hr.
  assert (forall e, e ∈ by_key (rows_of db r) -> h_items db' !! row_hash e.2 = h_items db !! row_hash e.2) as He.
  { intros [p row] Hin. apply by_key_elem in Hin. destruct (Hw _ _ Hin) as [v Hv]. simpl. rewrite Hv. by eapply lookup_weaken. }
  apply list_omap_ext, Forall_Forall2_diag, Forall_forall. intros e Hin. by rewrite He.
Qed.

Lemma replay_settled db operation r row kind h item t f :
  claims_ok db -> invocation_kind read_json (k_hist db) (op_request operation) (call operation) = Ok (Some kind) ->
  claim_at db operation r = Some row -> is_settled row = true -> row_outcome row = Some (h, t, f) -> h_items (k_hist db) !! h = Some item ->
  validate_output (call operation) kind item = Ok tt -> output_format item = Some f ->
  replay_claim read_json to_string db operation r = Ok (Some {| ro_item := item; ro_terminal := t; ro_format := f |}).
Proof.
  intros K Hk Hat Hs Ho Hi Hv Hf. unfold replay_claim, exact_claim_state. rewrite Hk, Hat. cbn [rbind fmap option_fmap option_map].
  unfold is_settled in Hs. pose proof Hs as Hs'. apply bool_decide_eq_true in Hs'. rewrite Hs'. eval_decide.
  rewrite (bool_decide_eq_false_2 ("settled" = "pending")), (bool_decide_eq_true_2 ("settled" = "settled")) by done. cbn [rbind].
  apply claim_at_Some in Hat as [Hin Hkey]. unfold claim_key in Hkey. injection Hkey as Hop _.
  rewrite (proj2 (terminal_Some db operation (h, t, f) K)) by (by exists row). cbn [rbind]. rewrite Hi. cbn [ok_or rbind]. rewrite Hv. cbn [rbind].
  rewrite Hf. cbn [ok_or rbind]. by rewrite bool_decide_eq_true_2.
Qed.

Lemma replay_interrupted db operation r row kind :
  invocation_kind read_json (k_hist db) (op_request operation) (call operation) = Ok (Some kind) ->
  claim_at db operation r = Some row -> claim_state row = "interrupted" ->
  replay_claim read_json to_string db operation r =
  Ok (Some {| ro_item := tool_output to_string (call operation) kind OutInterrupted; ro_terminal := InterruptedOutcome; ro_format := LegacyOpaque |}).
Proof. intros Hk Hat Hs. unfold replay_claim, exact_claim_state. rewrite Hk, Hat. cbn [rbind fmap option_fmap option_map]. by rewrite Hs. Qed.

(** Where a settlement leaves the claim of one request. *)
Lemma settled_claim db operation item t f n db' r row :
  claims_ok db -> digest_free db item -> plain_format item = true ->
  settle_claims_with_format item_hash read_json db operation item t f = Ok (n, db') -> claim_at db operation r = Some row ->
  exists row', claim_at db' operation r = Some row' /\
    (claim_state row = "interrupted" /\ row' = row \/
     claim_state row <> "interrupted" /\ is_settled row' = true /\ row_outcome row' = Some (item_hash item, t, f)).
Proof.
  intros K Hc Hp H Hrow. destruct (settle_step _ _ _ _ _ _ _ Hc Hp H) as [[_ G] K']. specialize (K' K). apply claim_at_Some in Hrow as [Hin Hkey].
  unfold claim_key in Hkey. injection Hkey as Hop Hreq. destruct (claim_waits row) eqn:Ep.
  - apply settle_inv in H as (_ & _ & _ & E). unfold settle_claim_rows in E. injection E as _ Edb. exists (settle_claim_row operation (item_hash item) t f row).
    assert (settle_claim_row operation (item_hash item) t f row ∈ k_claims db') as Hin'.
    { rewrite Edb. simpl. apply list_elem_of_fmap. by exists row. }
    pose proof (claim_at_elem _ _ K' Hin') as Hat. pose proof (settle_claim_row_key operation (item_hash item) t f row) as Hk. unfold claim_key in Hk.
    injection Hk as E1 E2. rewrite E1, E2, Hop, Hreq in Hat. split; [done|right].
    destruct (settle_claim_row_cases operation (item_hash item) t f row) as [[_ Hn]|(_ & Hs & Ho & _)]; [specialize (Hn Hop); congruence|].
    split_and!; try done. unfold claim_waits in Ep. apply bool_decide_eq_true in Ep. by rewrite Ep.
  - exists row. destruct (G _ Hin) as (row' & Hin' & _ & Esame). rewrite (Esame Ep) in Hin'.
    split; [rewrite <- Hop, <- Hreq; by apply claim_at_elem|]. pose proof (ok_states _ K _ Hin) as Hst. unfold claim_waits in Ep. apply bool_decide_eq_false in Ep.
    assert (claim_state row = "settled" \/ claim_state row = "interrupted") as [Es|Es] by set_solver; [right|by left].
    assert (is_settled row = true) as Hset by (unfold is_settled; by apply bool_decide_eq_true). split_and!; [by rewrite Es|done|].
    destruct (ok_settled _ K _ Hin Hset) as (h & t' & f' & Ho & _). rewrite Ho. f_equal.
    eapply settle_again; [exact K| |exact H]. apply terminal_Some; eauto.
Qed.

(** Settling an operation reaches every claimant. Whoever held a claim on it
    replays the one output item with its outcome and format, except a claimant that
    had given up, which keeps its interruption. *)
Theorem settled_everywhere db operation item t f n db' r row :
  history_wf item_hash (k_hist db) -> claims_ok db -> digest_free db item -> plain_format item = true ->
  settle_claims_with_format item_hash read_json db operation item t f = Ok (n, db') -> claim_at db operation r = Some row ->
  exists kind, invocation_kind read_json (k_hist db) (op_request operation) (call operation) = Ok (Some kind) /\
    replay_claim read_json to_string db' operation r =
    Ok (Some (if bool_decide (claim_state row = "interrupted")
              then {| ro_item := tool_output to_string (call operation) kind OutInterrupted; ro_terminal := InterruptedOutcome; ro_format := LegacyOpaque |}
              else {| ro_item := item; ro_terminal := t; ro_format := f |})).
Proof.
  intros Hwf K Hc Hp H Hrow. destruct (settled_claim _ _ _ _ _ _ _ _ _ K Hc Hp H Hrow) as (row' & Hat & Hcase).
  pose proof (proj2 (settle_step _ _ _ _ _ _ _ Hc Hp H) K) as K'. apply settle_inv in H as (Hf & (kind & Hk & Hv) & _ & E). exists kind. split; [done|].
  destruct (put_item_stored _ _ Hc) as (Hi & Hs & Hrows). unfold settle_claim_rows in E. injection E as _ Edb.
  assert (k_hist db' = (put_item item_hash (k_hist db) item).2) as Eh by (by rewrite Edb).
  assert (invocation_kind read_json (k_hist db') (op_request operation) (call operation) = Ok (Some kind)) as Hk'.
  { rewrite <- Hk, Eh. unfold invocation_kind, invocation_item. rewrite (call_rows_items (k_hist db)); [done| | |done].
    - intros p x Hx. by apply (wf_rows _ _ Hwf) in Hx as [_ ?].
    - unfold rows_of. by rewrite Hrows. }
  destruct Hcase as [[Es ->]|(Es & Hset & Ho)].
  - rewrite bool_decide_eq_true_2 by done. by eapply replay_interrupted.
  - rewrite bool_decide_eq_false_2 by done. eapply replay_settled; try done. by rewrite Eh.
Qed.
End invariant.

(** ** Witnesses *)

Definition toy_type_hash (v : value) : string := default "" (as_str (vidx v "type")).
Definition toy_read (_ : string) : option value := Some (VObject []).

Definition toy_issued_call : value :=
  json_object [("type", VString "function_call"); ("call_id", VString "c"); ("name", VString "probe"); ("arguments", VString "{}")].

Definition toy_settlement : value := tool_output (fun _ => "{}") "c" FunctionKind (OutCompleted (Ok (VObject []))).

(** A request that issued one call, and a child of it. *)
Definition toy_claim_rows : result StoreError Hdb :=
  do '(_, db) <- write_request toy_type_hash Hdb_empty "r1" None "/root" [toy_issued_call];
  create_request db "r2" (Some "r1") "/root".

Definition toy_unclaimed : ClaimDb :=
  {| k_hist := match toy_claim_rows with Ok h => h | Err _ => Hdb_empty end; k_bindings := ∅; k_claims := []; k_owners := ∅ |}.

Definition toy_op : OperationId := {| origin := Standalone "s" "/root"; op_request := "r1"; call := "c" |}.

(** The claim, its copy on the child, and the settlement of both. *)
Definition toy_claimed : ClaimDb :=
  match claim_call "s" toy_unclaimed "c" "r1" with
  | Ok (_, db) => match carry_operation_claim db toy_op (FromConsumer "r1") "r2" with Ok db => db | Err _ => toy_unclaimed end
  | Err _ => toy_unclaimed
  end.

Definition toy_settled_claims : ClaimDb :=
  match settle_claims_with_format toy_type_hash toy_read toy_claimed toy_op toy_settlement Success LegacyOpaque with Ok (_, db) => db | Err _ => toy_claimed end.

Lemma toy_free : digest_free toy_type_hash toy_claimed toy_settlement.
Proof. intros v H. vm_compute in H. done. Qed.

Lemma toy_claimed_run : rtc (claim_step toy_type_hash toy_read "s") toy_unclaimed toy_claimed.
Proof.
  eapply rtc_l; [eapply (claim_issue _ _ _ _ _ "c" "r1" toy_op); vm_compute; reflexivity|].
  eapply rtc_once, (claim_carry _ _ _ _ _ toy_op (FromConsumer "r1") "r2"). vm_compute. reflexivity.
Qed.

Lemma toy_settled_run : rtc (claim_step toy_type_hash toy_read "s") toy_unclaimed toy_settled_claims.
Proof.
  eapply rtc_r; [exact toy_claimed_run|]. eapply (claim_settle _ _ _ _ _ toy_op toy_settlement Success LegacyOpaque 2); [exact toy_free|vm_compute; reflexivity|].
  vm_compute. reflexivity.
Qed.


Lemma toy_rows_wf : history_wf toy_type_hash (k_hist toy_claimed).
Proof.
  assert (rtc (history_step toy_type_hash (fun _ _ => Ok None)) Hdb_empty (k_hist toy_claimed)) as H; [|apply (steps_keep _ _ _ _ H), empty_wf].
  destruct (write_request toy_type_hash Hdb_empty "r1" None "/root" [toy_issued_call]) as [[[] db1]|] eqn:E1; [|vm_compute in E1; discriminate].
  eapply rtc_l; [by eapply step_write|]. apply rtc_once. eapply (step_create _ _ _ _ "r2" (Some "r1") "/root").
  vm_compute in E1. injection E1 as <-. vm_compute. reflexivity.
Qed.

Lemma settled_everywhere_witness :
  replay_claim toy_read (fun _ => "{}") toy_settled_claims toy_op "r2" = Ok (Some {| ro_item := toy_settlement; ro_terminal := Success; ro_format := LegacyOpaque |}).
Proof.
  destruct (settled_everywhere toy_type_hash toy_read "s" (fun _ => "{}") toy_claimed toy_op toy_settlement Success LegacyOpaque 2 toy_settled_claims "r2"
    (pending_claim toy_op "r2") toy_rows_wf (proj2 (claim_steps_ok _ _ _ _ _ toy_claimed_run) (no_claims_ok toy_unclaimed eq_refl)) toy_free eq_refl) as (kind & _ & H);
    [vm_compute; reflexivity|vm_compute; reflexivity|]. exact H.
Defined.

(** An output whose format is written as a variant object is accepted, and
    the operation can no longer be read. *)
Definition toy_odd_output : value := set_field "output_format" (VObject [("legacy_opaque", VNull)]) toy_settlement.

Example odd_format_unreadable :
  exists db, settle_claims_with_format toy_type_hash toy_read toy_claimed toy_op toy_odd_output Success LegacyOpaque = Ok (2%nat, db) /\
    operation_terminal db toy_op = Err (OtherStoreError "json").
Proof. eexists. split; vm_compute; reflexivity. Qed.
