(* ===== verification/HostDb.v ===== *)
(** The rows of one Store together, and the part of it that knows about
    agents and about hosts: agents and their heads ([store/mod.rs]), bindings of
    embedded actors, the seeds of their conversations ([store/embedded.rs]) and
    the requests of their rounds ([store/embedded_round.rs]).

    [StoreRows] puts the conversation, claims and admission rows of the other
    files side by side. Inference admission works on its own view of them,
    [gate_db]. *)

From S2P Require Import Prelude Json SchemaModel Requests Agents Redaction Usage Observation Sse Failure StoreDb InferenceGate Admission Jobs Lists Item ContextPatch ContextText HistoryDb HistoryOps HistoryProofs HistoryClaims Claims.

(** ** Rows *)

Record AgentRow := {
  agent_parent : option string;
  agent_head : option string;
  agent_contract : value;
  agent_source : value;                               (* fork_source *)
  agent_state : string
}.

#[export] Instance AgentRow_eta : Eta AgentRow := fun a =>
  {| agent_parent := agent_parent a; agent_head := agent_head a; agent_contract := agent_contract a; agent_source := agent_source a;
     agent_state := agent_state a |}.

(** [InferenceState] of [store/context.rs]. *)
Record InferenceState := {
  st_generation : Z;
  st_model : option string;
  st_route : option ResponsesRoute;
  st_protocol : option ResponsesProtocol;
  st_native : option NativeTransportContract
}.

Definition InferenceState_default : InferenceState :=
  {| st_generation := 0; st_model := None; st_route := None; st_protocol := None; st_native := None |}.

(** Inputs and seeds are keyed by the host identity and the operation; rows of
    [session_state] under [harness:context:] and [harness:run-account:] are
    tables of their own, the first with the version of the stored JSON. *)
Record StoreRows := {
  s_claims : ClaimDb;
  s_agents : gmap string AgentRow;
  s_interrupted : gmap string StreamInterruption;
  s_inference : gmap (string * string) (Z * Gate);
  s_retries : gmap (string * string) Z;
  s_intents : gmap Z IntentRow;
  s_commands : gmap (string * string) CommandRow;
  s_inputs : gmap (HostIdentity * string) (Z * string);        (* envelope, item hash *)
  s_seeds : gmap (HostIdentity * string) (string * string);    (* request, manifest hash *)
  s_contexts : gmap ConversationIdentity (Z * InferenceState);
  s_accounts : gmap string string
}.

#[export] Instance StoreRows_eta : Eta StoreRows := fun d =>
  {| s_claims := s_claims d; s_agents := s_agents d; s_interrupted := s_interrupted d; s_inference := s_inference d;
     s_retries := s_retries d; s_intents := s_intents d; s_commands := s_commands d; s_inputs := s_inputs d; s_seeds := s_seeds d;
     s_contexts := s_contexts d; s_accounts := s_accounts d |}.

Definition s_hist (db : StoreRows) : Hdb := k_hist (s_claims db).
Definition set_hist (db : StoreRows) (hist : Hdb) : StoreRows := db <| s_claims ::= (fun c => c <| k_hist := hist |>) |>.
Definition s_bindings (db : StoreRows) : gmap string (string * string) := k_bindings (s_claims db).

Inductive EmbeddedError :=
| StoreFailure (e : StoreError)
| HostRefused (reason : string)
| Binding (reason : string)
| ConflictingInput
| ConflictingSeed
| SeedRequiresFreshConversation.

(** ** The view of inference admission *)

Definition request_row (db : ClaimDb) (r : string) (node : RequestNode) : RequestRow :=
  let '(run_, incarnation_, phase) := default (None, None, None) (k_owners db !! r) in
  {| parent_id := node_parent node; branch := node_branch node; embedded_run := run_; embedded_incarnation := incarnation_; round_phase := phase |}.

(** An item whose format cannot be read is an error for every reader. *)
Definition readable_format (hist : Hdb) (h : string) : option (option OutputFormat) :=
  match stored_format hist h with Ok f => Some (Some f) | Err _ => None end.

Definition gate_db (db : StoreRows) : Db :=
  let hist := s_hist db in
  {| bindings := s_bindings db;
     agents := agent_head <$> s_agents db;
     requests := map_imap (fun r node => Some (request_row (s_claims db) r node)) (h_requests hist);
     model_interrupted := s_interrupted db;
     claims := k_claims (s_claims db);
     item_formats := map_imap (fun h _ => readable_format hist h) (h_items hist);
     provider_items := dom (filter (fun e => e.2 <> ∅) (h_outputs hist));
     provider_requests := (fun p => state_name (p_state p)) <$> h_provider hist;
     envelopes := (fun m => {| recipient := mail_recipient m; delivered_request := mail_delivered m |}) <$> h_mail hist;
     inference := s_inference db;
     retry_lineage := s_retries db;
     intents := s_intents db;
     commands := s_commands db |}.

(** The tables inference admission writes, unless it publishes a projection. *)
Definition with_gate (db : StoreRows) (g : Db) : StoreRows :=
  db <| s_inference := inference g |> <| s_retries := retry_lineage g |> <| s_intents := intents g |>.

Definition bound (db : StoreRows) (identity : HostIdentity) : bool := matches_binding (gate_db db) identity.

Definition embedded_identity (h : HostIdentity) : ConversationIdentity := Embedded (run h) (actor h) (incarnation h).

(** ** Agents *)

(** A path segment the Store takes: no dash, which a path a model writes may
    still have. *)
Definition store_component (s : string) : bool :=
  negb (bool_decide (s = "")) && forallb (fun c => component_byte c && negb (bool_decide (c = "-"%char))) (bytes_of s).

Definition validate_agent_path (path : string) (parent : option string) : result StoreError unit :=
  let segs := split_slash (default "" (strip_prefix "/" path)) in
  let relation :=
    match parent with
    | None => bool_decide (path = "/root")
    | Some p =>
        match strip_prefix p path with
        | Some suffix => match strip_prefix "/" suffix with Some name => negb (has_slash name) && store_component name | None => false end
        | None => false
        end
    end in
  refuse negb (String.prefix "/" path) || existsb (fun s => negb (store_component s)) segs || negb relation
    with OtherStoreError "InvalidAgentPath";
  Ok tt.

Section host.
(** The digest of an item's encoding; [self.store_id]; the JSON of origins
    that makes a reference; URL parsing and clocks for transport contracts. *)
Variable item_hash : value -> string.
Variable store_id : string.
Variable reference_of : list Origin -> ContextReference.
Variable parse_url : string -> option Url.
Variable loopback_ip : string -> bool.
Variable instant_admits : Z -> bool.

(** [INSERT INTO agents], with its foreign keys. *)
Definition insert_agent (db : StoreRows) (path : string) (row : AgentRow) : result StoreError StoreRows :=
  if bool_decide (is_Some (s_agents db !! path)) then unique_key
  else if match agent_parent row with Some p => negb (bool_decide (is_Some (s_agents db !! p))) | None => false end
       || match agent_head row with Some h => negb (bool_decide (is_Some (h_requests (s_hist db) !! h))) | None => false end
  then foreign_key
  else Ok (db <| s_agents ::= <[path := row]> |>).

Definition active_agent (parent head : option string) (contract source : value) : AgentRow :=
  {| agent_parent := parent; agent_head := head; agent_contract := contract; agent_source := source; agent_state := "active" |}.

Definition admit_agent (db : StoreRows) (path : string) (parent head : option string) (contract source : value)
    : result StoreError (AgentRow * StoreRows) :=
  do _ <- validate_agent_path path parent;
  refuse match parent with Some p => negb (bool_decide (is_Some (s_agents db !! p))) | None => false end
    with OtherStoreError "MissingAgentParent";
  do _ <- match head with
          | Some h => guard bool_decide (is_Some (h_requests (s_hist db) !! h)) else MissingRequest h; Ok tt
          | None => Ok tt
          end;
  let row := active_agent parent head contract source in
  do db <- insert_agent db path row;
  Ok (row, db).

(** The insertion of an undelivered envelope. *)
Definition send_envelope (db : StoreRows) (sender recipient_ class : string) (item : value) : result StoreError (Z * StoreRows) :=
  do '(id, hist) <- add_envelope item_hash (s_hist db) sender recipient_ class item None;
  Ok (id, set_hist db hist).

Definition admit_agent_with_envelope (db : StoreRows) (path : string) (parent head : option string) (contract source : value)
    (sender recipient_ class : string) (item : value) : result StoreError (AgentRow * Z * StoreRows) :=
  do '(row, db) <- admit_agent db path parent head contract source;
  do '(id, db) <- send_envelope db sender recipient_ class item;
  Ok (row, id, db).

(** [UPDATE agents SET head_request .. WHERE path AND head_request IS expected]:
    whether a row was changed. *)
Definition swap_head (db : StoreRows) (path : string) (expected current : option string) : result StoreError (bool * StoreRows) :=
  match s_agents db !! path with
  | Some row =>
      if bool_decide (agent_head row = expected) then
        if match current with Some h => negb (bool_decide (is_Some (h_requests (s_hist db) !! h))) | None => false end then foreign_key
        else Ok (true, db <| s_agents ::= <[path := row <| agent_head := current |>]> |>)
      else Ok (false, db)
  | None => Ok (false, db)
  end.

Definition advance_agent_head (db : StoreRows) (path : string) (expected current : option string) : result StoreError (bool * StoreRows) :=
  swap_head db path expected current.

Inductive CompletionCommit := CompletionHeadMismatch | CompletionCommitted (envelope_id : option Z).

Definition complete_agent_with_publication (db : StoreRows) (path : string) (expected : option string) (current : string)
    (parent_answer : option (string * value)) : result StoreError (CompletionCommit * StoreRows) :=
  do '(changed, db) <- swap_head db path expected (Some current);
  if negb changed then Ok (CompletionHeadMismatch, db)
  else match parent_answer with
       | Some (parent, answer) =>
           do '(id, db) <- send_envelope db path parent "AtBoundary" answer;
           Ok (CompletionCommitted (Some id), db)
       | None => Ok (CompletionCommitted None, db)
       end.

(** The virtual parent of the root: the human's mailbox. *)
Definition decode_parent (path : string) (row : AgentRow) : option string :=
  match agent_parent row with
  | Some p => Some p
  | None => if bool_decide (path = "/root") then Some "/operator" else None
  end.

(** ** Bindings *)

Definition embedded_binding_matches (db : StoreRows) (identity : HostIdentity) : bool := bound db identity.

Definition embedded_agent_head (db : StoreRows) (identity : HostIdentity) : result StoreError (option string) :=
  guard bound db identity else InvalidEmbeddedBinding;
  do row <- ok_or (s_agents db !! actor identity) InvalidEmbeddedBinding;
  Ok (agent_head row).

(** What the host answers when asked whether it authorises a first binding. *)
Definition bind_embedded_actor_authorized (db : StoreRows) (identity : HostIdentity) (parent : option string)
    (authority : option (result string bool)) : result EmbeddedError StoreRows :=
  refuse bool_decide (run identity = "") || bool_decide (incarnation identity = "") with Binding "empty run or incarnation";
  do _ <- map_err StoreFailure (validate_agent_path (actor identity) parent);
  do _ <- match authority with
          | Some answer =>
              do valid <- map_err HostRefused answer;
              guard valid else Binding "initial binding lacks retained run and startup authority"; Ok tt
          | None => Ok tt
          end;
  match s_bindings db !! actor identity with
  | Some _ => guard bound db identity else Binding "actor path belongs to another run/incarnation"; Ok db
  | None =>
      do db <- match s_agents db !! actor identity with
               | Some row =>
                   guard veq_str (vidx (agent_source row) "kind") "checkpoint"
                     else Binding "existing standalone actor cannot become an embedded actor";
                   Ok db
               | None =>
                   map_err StoreFailure (insert_agent db (actor identity)
                     (active_agent parent None (VObject []) (json_object [("kind", VString "embedded")])))
               end;
      Ok (db <| s_claims ::= (fun c => c <| k_bindings ::= <[actor identity := (run identity, incarnation identity)]> |>) |>)
  end.

Definition bind_embedded_actor (db : StoreRows) (identity : HostIdentity) (parent : option string) : result EmbeddedError StoreRows :=
  bind_embedded_actor_authorized db identity parent None.

Definition bind_initial_embedded_binding (db : StoreRows) (identity : HostIdentity) (parent : option string) (authority : result string bool)
    : result EmbeddedError StoreRows := bind_embedded_actor_authorized db identity parent (Some authority).

(** ** The state of a conversation ([store/context.rs]) *)

Definition unsupported_state {A} : result StoreError A := Err (ContextError "UnsupportedState").

Definition context_state (db : StoreRows) (identity : ConversationIdentity) : result StoreError InferenceState :=
  match s_contexts db !! identity with
  | None => Ok InferenceState_default
  | Some (version, state) =>
      if negb (bool_decide (version ∈ [1; 2; 3])) then unsupported_state
      else
        do _ <- match st_native state with
                | Some native =>
                    do _ <- map_err ProviderAdmission (validate_contract parse_url loopback_ip instant_admits native);
                    guard bool_decide ((Some (nt_route native), Some (nt_protocol native)) = (st_route state, st_protocol state))
                      else ProviderAdmission InvalidAdmission;
                    Ok tt
                | None => Ok tt
                end;
        if negb (version =? 3) && bool_decide (is_Some (st_native state)) then unsupported_state else Ok state
  end.

Definition save_state (db : StoreRows) (identity : ConversationIdentity) (state : InferenceState) : StoreRows :=
  db <| s_contexts ::= <[identity := (3, state)]> |>.

Definition transfer_embedded_state (db : StoreRows) (predecessor successor : HostIdentity) : result StoreError StoreRows :=
  do state <- context_state db (embedded_identity predecessor);
  let db := save_state db (embedded_identity successor) state in
  Ok (db <| s_contexts ::= delete (embedded_identity predecessor) |>).

Inductive BindingSuccessorCommit := Installed | AlreadyInstalled.

(** [authority] is what the host answers about this succession. *)
Definition transfer_embedded_binding (db : StoreRows) (predecessor successor : HostIdentity) (authority : result string bool)
    : result EmbeddedError (BindingSuccessorCommit * StoreRows) :=
  refuse bool_decide (run predecessor = "") || bool_decide (incarnation predecessor = "") || bool_decide (incarnation successor = "")
         || negb (bool_decide (run predecessor = run successor)) || negb (bool_decide (actor predecessor = actor successor))
         || bool_decide (incarnation predecessor = incarnation successor)
    with Binding "invalid exact successor binding transition";
  do valid <- map_err HostRefused authority;
  guard valid else Binding "successor binding lacks retained run and journal authority";
  if bound db successor then Ok (AlreadyInstalled, db)
  else if bound db predecessor then
    do db <- map_err StoreFailure (transfer_embedded_state db predecessor successor);
    Ok (Installed, db <| s_claims ::= (fun c => c <| k_bindings ::= <[actor predecessor := (run predecessor, incarnation successor)]> |>) |>)
  else Err (Binding "successor binding conflicts with its exact predecessor").

(** ** Seeds *)

Definition conversation_started (db : StoreRows) (path : string) : result StoreError bool :=
  match s_agents db !! path with
  | Some row =>
      Ok (bool_decide (is_Some (agent_head row))
          || existsb (fun e => bool_decide (node_branch e.2 = path)) (map_to_list (h_requests (s_hist db)))
          || existsb (fun e => bool_decide (mail_recipient e.2 = path)) (map_to_list (h_mail (s_hist db))))
  | None => no_rows
  end.

Definition request_references (hist : Hdb) (r : string) : result StoreError (list ContextReference) :=
  do os <- request_occurrences hist r;
  Ok ((fun o => reference_of [occ_origin o]) <$> os).

(** One round of the loop that stores a seed's items. *)
Definition seed_item (r : string) (acc : Z * Hdb) (x : value * bool) : result StoreError (Z * Hdb) :=
  let '(p, hist) := acc in
  let '(h, hist) := put_item item_hash hist x.1 in
  do hist <- insert_row hist r p
    {| row_hash := h; row_source_request := None; row_source_position := None; row_sources := []; row_note := x.2; row_overlays := [];
       row_operation := None |};
  Ok (p + 1, hist).

(** [fresh] is the request's new UUID. *)
Definition seed_embedded_context_items (db : StoreRows) (identity : HostIdentity) (operation_id : string) (manifest : value)
    (items : list (value * bool)) (fresh : string) : result EmbeddedError (string * list ContextReference * StoreRows) :=
  refuse bool_decide (operation_id = "") with Binding "empty context seed operation ID";
  guard bound db identity else Binding "context seed target is not bound to this host";
  let '(hash, hist) := put_item item_hash (s_hist db) manifest in
  let db := set_hist db hist in
  match s_seeds db !! (identity, operation_id) with
  | Some (request, previous_hash) =>
      refuse negb (bool_decide (hash = previous_hash)) with ConflictingSeed;
      do references <- map_err StoreFailure (request_references (s_hist db) request);
      Ok (request, references, db)
  | None =>
      do started <- map_err StoreFailure (conversation_started db (actor identity));
      refuse started with SeedRequiresFreshConversation;
      do _ <- map_err StoreFailure
        (map_result (fun e => require_ordinary e.2.1 fresh (Z.of_nat e.1)) (imap pair items));
      do hist <- map_err StoreFailure (insert_request (s_hist db) fresh None (actor identity));
      do '(_, hist) <- map_err StoreFailure (fold_result (seed_item fresh) (0, hist) items);
      do '(_, db) <- map_err StoreFailure (swap_head (set_hist db hist) (actor identity) None (Some fresh));
      let db := db <| s_seeds ::= <[(identity, operation_id) := (fresh, hash)]> |> in
      do references <- map_err StoreFailure (request_references (s_hist db) fresh);
      Ok (fresh, references, db)
  end.

Definition seed_embedded_context (db : StoreRows) (identity : HostIdentity) (operation_id : string) (item : value) (fresh : string)
    : result EmbeddedError (string * StoreRows) :=
  do '(request, _, db) <- seed_embedded_context_items db identity operation_id item [(item, false)] fresh;
  Ok (request, db).

Record InitialContextPublication := {
  icp_issuer : HostIdentity;
  icp_operation_id : string;
  icp_request : string;
  icp_caller_seed : option string;
  icp_authored_seed : option string;
  icp_caller_reference : option ContextReference;
  icp_authored_reference : option ContextReference
}.

Definition initial_context_receipt (issuer : HostIdentity) (operation_id request : string) (caller_seed authored_seed : option string)
    (references : list ContextReference) : result EmbeddedError InitialContextPublication :=
  do caller_reference <-
    match caller_seed with
    | Some _ => do r <- ok_or (head references) (Binding "caller seed occurrence is unavailable"); Ok (Some r)
    | None => Ok None
    end;
  do authored_reference <-
    match authored_seed with
    | Some text =>
        if bool_decide (text = "") then Ok None
        else do r <- ok_or (references !! (if caller_seed then 1 else 0)%nat) (Binding "authored seed occurrence is unavailable"); Ok (Some r)
    | None => Ok None
    end;
  Ok {| icp_issuer := issuer; icp_operation_id := operation_id; icp_request := request; icp_caller_seed := caller_seed;
        icp_authored_seed := authored_seed; icp_caller_reference := caller_reference; icp_authored_reference := authored_reference |}.

Definition seed_text (text : option string) : value := match text with Some t => VString t | None => VNull end.

Definition seed_manifest (caller_seed authored_seed : option string) : value :=
  json_object [("type", VString "initial_context_seed"); ("version", VNumber (PosInt 1)); ("caller_seed", seed_text caller_seed);
               ("authored_seed", seed_text authored_seed)].

Definition seed_message (text : string) : value :=
  json_object [("type", VString "message"); ("role", VString "user"); ("content", VString text)].

Definition seed_items (caller_seed authored_seed : option string) : list (value * bool) :=
  match caller_seed with Some text => [(seed_message text, false)] | None => [] end ++
  match authored_seed with Some text => if bool_decide (text = "") then [] else [(seed_message text, true)] | None => [] end.

Definition seed_initial_context (db : StoreRows) (identity : HostIdentity) (operation_id : string) (caller_seed authored_seed : option string)
    (fresh : string) : result EmbeddedError (InitialContextPublication * StoreRows) :=
  do '(request, references, db) <-
    seed_embedded_context_items db identity operation_id (seed_manifest caller_seed authored_seed) (seed_items caller_seed authored_seed) fresh;
  do publication <- initial_context_receipt identity operation_id request caller_seed authored_seed references;
  Ok (publication, db).

(** [InitialContextSeedManifest]: no other field; an optional field may be
    absent. Returns version and seeds. *)
Definition manifest_kind (v : value) : option unit :=
  match v with
  | VString s => if bool_decide (s = "initial_context_seed") then Some tt else None
  | VObject [(k, VNull)] => if bool_decide (k = "initial_context_seed") then Some tt else None
  | _ => None
  end.

Definition manifest_version (v : value) : option Z :=
  match v with VNumber (PosInt n) => if n <=? 4294967295 then Some n else None | _ => None end.

Definition manifest_text (o : option value) : option (option string) :=
  match o with None => Some None | Some v => optional_string v end.

Definition read_manifest (v : value) : option (Z * option string * option string) :=
  match v with
  | VObject o =>
      if forallb (fun k => bool_decide (k ∈ ["type"; "version"; "caller_seed"; "authored_seed"])) (obj_keys o) then
        _ ← obj_get "type" o ≫= manifest_kind; version ← obj_get "version" o ≫= manifest_version;
        caller ← manifest_text (obj_get "caller_seed" o); authored_ ← manifest_text (obj_get "authored_seed" o);
        Some (version, caller, authored_)
      else None
  | VArray [k; n; c; a] =>
      _ ← manifest_kind k; version ← manifest_version n; caller ← optional_string c; authored_ ← optional_string a;
      Some (version, caller, authored_)
  | _ => None
  end.

Definition initial_context_publication (db : StoreRows) (receiver issuer : HostIdentity) (operation_id : string)
    : result EmbeddedError (option InitialContextPublication) :=
  refuse negb (bool_decide (run receiver = run issuer)) || negb (bool_decide (actor receiver = actor issuer)) || negb (bound db receiver)
    with Binding "initial context receipt belongs to another conversation";
  match s_seeds db !! (issuer, operation_id) with
  | Some (request, hash) =>
      match h_items (s_hist db) !! hash with
      | Some manifest =>
          do '(version, caller_seed, authored_seed) <- ok_or (read_manifest manifest) (StoreFailure (OtherStoreError "json"));
          refuse negb (version =? 1) with Binding "unsupported initial context publication format";
          do references <- map_err StoreFailure (request_references (s_hist db) request);
          do publication <- initial_context_receipt issuer operation_id request caller_seed authored_seed references;
          Ok (Some publication)
      | None => Ok None
      end
  | None => Ok None
  end.

(** ** Requests of a round *)

Definition request_output_origin (db : StoreRows) (r : string) : result StoreError ConversationIdentity :=
  match h_requests (s_hist db) !! r with
  | Some node =>
      let row := request_row (s_claims db) r node in
      match embedded_run row, embedded_incarnation row with
      | Some run_, Some incarnation_ => Ok (Embedded run_ (node_branch node) incarnation_)
      | None, None => Ok (Standalone store_id (node_branch node))
      | _, _ => Err UnownedEmbeddedRequest
      end
  | None => no_rows
  end.

Definition write_embedded_request (db : StoreRows) (identity : HostIdentity) (request : string) (parent : option string) (items : list value)
    : result StoreError StoreRows :=
  do current <- frontier (gate_db db) identity;
  refuse negb (bool_decide (frontier_head current = parent)) with InvalidEmbeddedFrontier;
  do hist <- insert_request (s_hist db) request parent (actor identity);
  do '(_, _, hist) <- fold_result (append_authored item_hash request) ([], 0, hist) (authored items);
  Ok (set_hist db hist
      <| s_claims ::= (fun c => c <| k_owners ::= <[request := (Some (run identity), Some (incarnation identity), Some "pending")]> |>) |>).
End host.
