(* ===== verification/HostCommands.v ===== *)
(** Commands and inputs of a host: [store/embedded_commands.rs],
    [store/account_selection.rs] and the input half of [store/embedded.rs].

    A browser command is retained before it is acknowledged, claimed once,
    carried out by the host and settled with a receipt. An input becomes one
    envelope of its actor, in the transaction that decides whether inference
    may continue with it. *)

From S2P Require Import Prelude Json SchemaModel Requests Agents Redaction Usage Observation Sse Failure StoreDb InferenceGate Admission Jobs Lists Item ContextPatch ContextText HistoryDb HistoryOps HistoryProofs HistoryClaims Claims HostDb.

Inductive InputObservation := ObservedAdmitted | ObservedIncluded (request : string).

Record EmbeddedCommandRecord := {
  rec_operation : string;
  rec_command : HostCommand;
  rec_state : EmbeddedCommandState;
  rec_envelope : option Z;
  rec_receipt : option CommandReceipt;
  rec_observation : option InputObservation
}.

Definition command_target (c : HostCommand) : HostIdentity :=
  match c with SelectAccount t _ | Input t _ | Interrupt t _ | Retire t | Recover t _ _ => t end.

Section commands.
Context `{ProjectionOwner}.
Variable item_hash : value -> string.
Variable store_id : string.

(** ** Reading *)

Definition observed_input (db : StoreRows) (envelope : option Z) : result StoreError (option InputObservation) :=
  match envelope with
  | None => Ok None
  | Some id =>
      do mail <- ok_or (h_mail (s_hist db) !! id) InvalidCommandState;
      Ok (Some match mail_delivered mail with None => ObservedAdmitted | Some r => ObservedIncluded r end)
  end.

Definition read_command (db : StoreRows) (run_ operation : string) : result StoreError (option EmbeddedCommandRecord) :=
  match s_commands db !! (run_, operation) with
  | None => Ok None
  | Some row =>
      do observation <- observed_input db (command_envelope row);
      Ok (Some {| rec_operation := operation; rec_command := command row; rec_state := command_state row;
                  rec_envelope := command_envelope row; rec_receipt := receipt row; rec_observation := observation |})
  end.

(** [read(..)?.ok_or(InvalidCommandState)?]. *)
Definition require_command (db : StoreRows) (run_ operation : string) : result StoreError EmbeddedCommandRecord :=
  do found <- read_command db run_ operation; ok_or found InvalidCommandState.

Definition embedded_command := read_command.

Definition command_rows (db : StoreRows) (run_ : string) (state : EmbeddedCommandState) : list (string * CommandRow) :=
  omap (fun e => if bool_decide (e.1.1 = run_) && bool_decide (command_state e.2 = state) then Some (e.1.2, e.2) else None)
    (map_to_list (s_commands db)).

Definition queued_embedded_commands (db : StoreRows) (run_ : string) : result StoreError (list EmbeddedCommandRecord) :=
  map_result (fun e => require_command db run_ e.1)
    (sort_by (fun a b => command_rowid a.2 <=? command_rowid b.2) (command_rows db run_ CmdQueued)).

(** ** Writing *)

(** The [rowid] SQLite gives the next row. *)
Definition next_rowid (db : StoreRows) : Z :=
  foldr (fun e acc => Z.max (command_rowid e.2) acc) 0 (map_to_list (s_commands db)) + 1.

Definition put_command (db : StoreRows) (run_ operation : string) (row : CommandRow) : StoreRows :=
  db <| s_commands ::= <[(run_, operation) := row]> |>.

Definition enqueue_embedded_command (db : StoreRows) (operation : string) (c : HostCommand)
    : result StoreError (EmbeddedCommandRecord * StoreRows) :=
  let run_ := run (command_target c) in
  do existing <- read_command db run_ operation;
  match existing with
  | Some existing => refuse negb (bool_decide (rec_command existing = c)) with ConflictingCommand; Ok (existing, db)
  | None =>
      let db := put_command db run_ operation
        {| command := c; command_state := CmdQueued; receipt := None; command_envelope := None; command_rowid := next_rowid db |} in
      do record <- require_command db run_ operation;
      Ok (record, db)
  end.

Definition claim_embedded_command (db : StoreRows) (run_ operation : string) : result StoreError (option EmbeddedCommandRecord * StoreRows) :=
  match s_commands db !! (run_, operation) with
  | Some row =>
      if bool_decide (command_state row = CmdQueued) then
        let db := put_command db run_ operation (row <| command_state := CmdDispatching |>) in
        do record <- require_command db run_ operation;
        Ok (Some record, db)
      else Ok (None, db)
  | None => Ok (None, db)
  end.

(** [UPDATE embedded_commands SET state, outcome .. AND state='dispatching']:
    [None] when no row was changed. *)
Definition settle_dispatching (db : StoreRows) (run_ operation : string) (state : EmbeddedCommandState) (written : CommandReceipt) : option StoreRows :=
  match s_commands db !! (run_, operation) with
  | Some row =>
      if bool_decide (command_state row = CmdDispatching)
      then Some (put_command db run_ operation (row <| command_state := state |> <| receipt := Some written |>)) else None
  | None => None
  end.

Definition lost_reason : string := "Host process lost after command claim; dispatch outcome is unknown.".

(** One command of the start-up loop. *)
Definition recover_command (run_ : string) (db : StoreRows) (operation : string) : result StoreError StoreRows :=
  do record <- require_command db run_ operation;
  Ok (default db (settle_dispatching db run_ operation CmdUnconfirmed
    {| command_id := operation; outcome := CommandUnconfirmed (command_target (rec_command record)) lost_reason |})).

Definition recover_embedded_command_claims (db : StoreRows) (run_ : string) : result StoreError (nat * StoreRows) :=
  let claimed := (command_rows db run_ CmdDispatching).*1 in
  do db <- fold_result (recover_command run_) db claimed;
  Ok (length claimed, db).

Definition record_embedded_command_wake_error (db : StoreRows) (run_ operation error : string) : result StoreError (CommandReceipt * StoreRows) :=
  do record <- require_command db run_ operation;
  guard bool_decide (rec_state record = CmdInputAdmitted) else InvalidCommandState;
  do r <- ok_or (rec_receipt record) InvalidCommandState;
  match outcome r with
  | CommandAdmitted continuation target envelope_id _ =>
      let written := {| command_id := command_id r; outcome := CommandAdmitted continuation target envelope_id (Some error) |} in
      do row <- ok_or (s_commands db !! (run_, operation)) InvalidCommandState;
      Ok (written, put_command db run_ operation (row <| receipt := Some written |>))
  | _ => Err InvalidCommandState
  end.

(** The state a reported outcome settles, and whether it fits the command. *)
Definition settled_state (out : CommandReceiptOutcome) : result StoreError EmbeddedCommandState :=
  match out with
  | ControlRequested _ _ => Ok CmdControlRequested
  | CommandRefused _ _ => Ok CmdRefused
  | CommandUnconfirmed _ _ => Ok CmdUnconfirmed
  | CommandAdmitted _ _ _ _ | RecoveryAuthorized _ _ _ _ | ContinuationRefused _ _ _ | AccountSelected _ _ => Err InvalidCommandState
  end.

Definition fits_command (c : HostCommand) (out : CommandReceiptOutcome) : bool :=
  match out with
  | ControlRequested target control =>
      bool_decide (target = command_target c)
      && match c, control with Retire _, ControlRetire | Interrupt _ _, ControlInterrupt => true | _, _ => false end
  | CommandRefused target _ => match target with Some t => bool_decide (t = command_target c) | None => true end
  | CommandUnconfirmed target _ => bool_decide (target = command_target c)
  | _ => false
  end.

Definition settle_embedded_command (db : StoreRows) (run_ operation : string) (out : CommandReceiptOutcome)
    : result StoreError (CommandReceipt * StoreRows) :=
  do state <- settled_state out;
  let written := {| command_id := operation; outcome := out |} in
  do record <- require_command db run_ operation;
  match rec_receipt record with
  | Some previous => guard bool_decide (previous = written) else InvalidCommandState; Ok (previous, db)
  | None =>
      refuse negb (fits_command (rec_command record) out) || negb (bool_decide (rec_state record = CmdDispatching)) with InvalidCommandState;
      do db <- ok_or (settle_dispatching db run_ operation state written) InvalidCommandState;
      Ok (written, db)
  end.

(** ** Accounts of a run *)

Definition run_account (db : StoreRows) (run_ : string) : option string := s_accounts db !! run_.

Definition initialize_run_account (db : StoreRows) (run_ launch : string) : result StoreError (string * StoreRows) :=
  let db := match s_accounts db !! run_ with Some _ => db | None => db <| s_accounts ::= <[run_ := launch]> |> end in
  do account <- ok_or (run_account db run_) InvalidCommandState;
  Ok (account, db).

(** [is_available] and [contains] observe the saved accounts; the first is
    asked before the transaction, of the command as it was retained then. *)
Definition select_run_account (db : StoreRows) (run_ operation : string) (is_available contains : string -> bool)
    : result StoreError (CommandReceipt * StoreRows) :=
  do record <- require_command db run_ operation;
  match rec_command record with
  | SelectAccount target account_id =>
      match rec_receipt record with
      | Some previous => Ok (previous, db)
      | None =>
          refuse negb (bool_decide (run target = run_)) || negb (bool_decide (rec_state record = CmdDispatching)) with InvalidCommandState;
          let '(state, out, db) :=
            if is_available account_id && contains account_id && bool_decide (is_Some (run_account db run_)) then
              (CmdAccountSelected, AccountSelected target account_id, db <| s_accounts ::= <[run_ := account_id]> |>)
            else (CmdRefused, CommandRefused (Some target) "Saved account is unavailable in this run.", db) in
          let written := {| command_id := operation; outcome := out |} in
          do db <- ok_or (settle_dispatching db run_ operation state written) InvalidCommandState;
          Ok (written, db)
      end
  | _ => Err InvalidCommandState
  end.

(** ** Inputs *)

Inductive InputAdmission := NewInput (envelope : Z) | RetainedInput (envelope : Z).

Definition admission_envelope (a : InputAdmission) : Z := match a with NewInput id | RetainedInput id => id end.

Definition admit_embedded_input_tx (db : StoreRows) (identity : HostIdentity) (operation_id sender : string) (item : value)
    : result EmbeddedError (InputAdmission * StoreRows) :=
  guard bound db identity else Binding "input target is not bound to this host";
  let '(hash, hist) := put_item item_hash (s_hist db) item in
  let db := set_hist db hist in
  (* joined with the envelope of the input *)
  match (e ← s_inputs db !! (identity, operation_id); m ← h_mail (s_hist db) !! e.1; Some (e, mail_sender m)) with
  | Some (id, previous_hash, previous_sender) =>
      refuse negb (bool_decide (hash = previous_hash)) || negb (bool_decide (sender = previous_sender)) with ConflictingInput;
      Ok (RetainedInput id, db)
  | None =>
      do '(id, db) <- map_err StoreFailure (send_envelope item_hash db sender (actor identity) "user" item);
      if bool_decide (is_Some (s_inputs db !! (identity, operation_id))) then map_err StoreFailure unique_key
      else Ok (NewInput id, db <| s_inputs ::= <[(identity, operation_id) := (id, hash)]> |>)
  end.

(** The continuation of inference, over the rows admission sees. *)
Definition continue_input (db : StoreRows) (identity : HostIdentity) (envelope : Z) (operation : string)
    : result EmbeddedError (InputContinuation * StoreRows) :=
  do '(out, g) <- map_err StoreFailure (admit_input_continuation_tx store_id (gate_db db) identity envelope operation);
  Ok (out, with_gate db g).

(** [fresh] is the operation's new UUID. *)
Definition admit_embedded_input (db : StoreRows) (identity : HostIdentity) (operation_id sender : string) (item : value) (fresh : string)
    : result EmbeddedError (Z * StoreRows) :=
  refuse bool_decide (operation_id = "") with Binding "empty input operation ID";
  do '(admission, db) <- admit_embedded_input_tx db identity operation_id sender item;
  match admission with
  | NewInput envelope => do '(_, db) <- continue_input db identity envelope fresh; Ok (envelope, db)
  | RetainedInput envelope => Ok (envelope, db)
  end.

Definition read_input_continuation (db : StoreRows) (envelope : Z) : option InputContinuation := intent_outcome <$> s_intents db !! envelope.

Inductive CommandInputAdmission := NewCommandInput (r : CommandReceipt) | RetainedCommandInput (r : CommandReceipt).

Definition admit_embedded_command_input (db : StoreRows) (identity : HostIdentity) (operation text : string)
    : result EmbeddedError (CommandInputAdmission * StoreRows) :=
  do row <- ok_or (s_commands db !! (run identity, operation)) (StoreFailure InvalidCommandState);
  refuse negb (bool_decide (command row = Input identity text)) with StoreFailure ConflictingCommand;
  if bool_decide (command_state row = CmdInputAdmitted) then
    do r <- ok_or (receipt row) (StoreFailure InvalidCommandState);
    Ok (RetainedCommandInput r, db)
  else
    guard bool_decide (command_state row = CmdDispatching) else StoreFailure InvalidCommandState;
    do '(admission, db) <- admit_embedded_input_tx db identity operation "operator" (user_text text);
    let envelope := admission_envelope admission in
    do '(continuation, db) <-
      match admission with
      | NewInput _ => do '(out, db) <- continue_input db identity envelope operation; Ok (Some out, db)
      | RetainedInput _ => Ok (read_input_continuation db envelope, db)
      end;
    let written := {| command_id := operation; outcome := CommandAdmitted continuation (Some identity) envelope None |} in
    Ok (NewCommandInput written,
        put_command db (run identity) operation
          (row <| command_state := CmdInputAdmitted |> <| command_envelope := Some envelope |> <| receipt := Some written |>)).

Inductive EmbeddedInputState := InputMissing | InputAdmitted | InputIncluded (request : string).

Definition embedded_input_state (db : StoreRows) (identity : HostIdentity) (operation_id : string) : result EmbeddedError EmbeddedInputState :=
  match s_inputs db !! (identity, operation_id) with
  | None =>
      guard bound db identity else Binding "input target has no retained operation or current binding"; Ok InputMissing
  | Some (envelope, _) =>
      match h_mail (s_hist db) !! envelope with
      | Some m =>
          guard bool_decide (mail_recipient m = actor identity) else Binding "input operation is not owned by this host";
          Ok match mail_delivered m with None => InputAdmitted | Some r => InputIncluded r end
      | None => Err (Binding "input operation is not owned by this host")
      end
  end.
End commands.
