(* ===== verification/HostClaims.v ===== *)
(** What the Store guarantees its hosts, over every sequence of transactions:
    a command is handed out at most once and keeps its receipt, and an input is
    one envelope.

    [host_step] is one committed transaction of any component. [command_move] is
    the abstract life of one command; every transaction refines it. *)

From S2P Require Import Prelude Json SchemaModel Requests Agents Redaction Usage Observation Sse Failure StoreDb InferenceGate GateRefinement GateClaims Admission Jobs Lists Item ContextPatch ContextText HistoryDb HistoryOps HistoryProofs HistoryClaims Claims HostDb HostCommands.

(** ** Admission leaves the other rows alone *)

(** The rows admission does not write. *)
Definition rest (g : Db) : Db := g <| inference := ∅ |> <| retry_lineage := ∅ |> <| intents := ∅ |>.

Lemma gate_with db g : rest g = rest (gate_db db) -> gate_db (with_gate db g) = g.
Proof. destruct g. unfold rest, gate_db, with_gate. upd_simpl. intros [= -> -> -> -> -> -> -> -> -> ->]. done. Qed.

Section frame.
Context `{ProjectionOwner}.
Variable store_id : string.

Lemma initialize_rest db identity g s db' : initialize db identity = Ok (g, s, db') -> rest db' = rest db.
Proof. intros (_ & _ & _ & _ & ->)%initialize_moves. done. Qed.

Lemma write_rest db identity g s : rest (write db identity g s) = rest db.
Proof. done. Qed.

(** Open the [initialize] an operation starts with, keeping its frame. *)
Ltac open_rest Hop :=
  let g := fresh "g" in let s := fresh "s" in let d := fresh "d" in let Hi := fresh "Hi" in let E := fresh "E" in
  apply rbind_Ok in Hop as ([[g s] d] & Hi & Hop); pose proof (initialize_rest _ _ _ _ _ Hi) as E.

Lemma block_rest db identity request reason b db' : block_tx db identity request reason = Ok (b, db') -> rest db' = rest db.
Proof.
  unfold block_tx. intros Hop. open_rest Hop. apply rbind_Ok in Hop as (f & _ & Hop).
  destruct (negb _); [done|]. rewrite <- E.
  destruct s; try (destruct (_ && _); [by injection Hop as _ <-|]); inv_ok; by injection Hop as _ <-.
Qed.

Lemma grant_rest db identity expected op r db' : grant_tx store_id db identity expected op Exact = Ok (r, db') -> rest db' = rest db.
Proof.
  unfold grant_tx. intros Hop. open_rest Hop. unfold publish_recovery_projection in Hop. inv_ok.
  destruct x2 as [[h rc] d2]. injection Hop as _ <-. inv_ok. injection Hr2 as _ _ <-. by rewrite write_rest.
Qed.

Lemma mark_rest db identity expected reason b db' : mark_continuation_refusal db identity expected reason = Ok (b, db') -> rest db' = rest db.
Proof.
  unfold mark_continuation_refusal. intros Hop. open_rest Hop. rewrite <- E.
  destruct s; try (by injection Hop as _ <-); (destruct (_ && _); [|by injection Hop as _ <-]); inv_ok; by injection Hop as _ <-.
Qed.

Lemma checked_grant_rest db identity b op out db' : checked_exact_grant store_id db identity b op = Ok (out, db') -> rest db' = rest db.
Proof.
  unfold checked_exact_grant. destruct (grant_tx _ _ _ _ _ _) as [[r d]|e] eqn:Hg; [intros [= _ <-]; by eapply grant_rest|].
  destruct (refusal e); [|done]. intros Hop. apply rbind_Ok in Hop as ([o d] & Hm & [= _ <-]). by eapply mark_rest.
Qed.

Lemma admit_input_rest db identity envelope op out db' :
  admit_input_continuation_tx store_id db identity envelope op = Ok (out, db') -> rest db' = rest db.
Proof.
  unfold admit_input_continuation_tx. destruct (intents db !! envelope); [by intros [= _ <-]|]. intros Hop. open_rest Hop.
  apply rbind_Ok in Hop as ([[att o] d2] & Hr & [= _ <-]). rewrite <- E. trans (rest d2); [done|].
  destruct s; try (by injection Hr as _ _ <-); apply rbind_Ok in Hr as ([o' d3] & Hr & [= _ _ <-]); by eapply checked_grant_rest.
Qed.

(** The transactions of admission that publish no projection and settle no
    command. *)
Inductive admission_step (db db' : Db) : Prop :=
| adm_state identity r : embedded_inference_state db identity = Ok (r, db') -> admission_step db db'
| adm_select identity r : select_embedded_round store_id db identity = Ok (r, db') -> admission_step db db'
| adm_begin identity expected selected fresh r : begin_inference store_id db identity expected selected fresh = Ok (r, db') -> admission_step db db'
| adm_finish a d : finish_embedded_inference db a d = Ok (tt, db') -> admission_step db db'
| adm_block identity request reason r : block_embedded_inference db identity request reason = Ok (r, db') -> admission_step db db'
| adm_host_loss run_ n : recover_embedded_inference_after_host_loss db run_ = Ok (n, db') -> admission_step db db'
| adm_continue a fresh r : continue_queued_input store_id db a fresh = Ok (r, db') -> admission_step db db'
| adm_reserve identity expected now r : reserve_automatic_retry store_id db identity expected now = Ok (r, db') -> admission_step db db'
| adm_activate identity retry fresh r : activate_automatic_retry store_id db identity retry fresh = Ok (r, db') -> admission_step db db'
| adm_cancel identity retry : cancel_automatic_retry db identity retry = Ok (tt, db') -> admission_step db db'.

Lemma admission_store_step db db' : admission_step db db' -> store_step store_id db db'.
Proof. intros []; eauto using store_step. Qed.

Lemma host_loss_rest ids n db n' db' : fold_result recover_one (n, db) ids = Ok (n', db') -> rest db' = rest db.
Proof.
  intros Hf. eapply (fold_result_inv recover_one (fun _ acc => rest acc.2 = rest db) ids) with (past := []) in Hf; [exact Hf| |done].
  intros past [n1 d1] identity [n2 d2] E1 Hop. simpl in *. rewrite <- E1. clear E1 Hf. unfold recover_one in Hop. open_rest Hop.
  apply rbind_Ok in Hop as (f & _ & Hop). rewrite <- E. destruct (match s with Running _ _ => _ | _ => _ end); [|by injection Hop as _ <-].
  destruct (frontier_head f); apply rbind_Ok in Hop as ([b d3] & Hb & [= _ <-]); [by eapply block_rest|done].
Qed.

Lemma admission_rest db db' : admission_step db db' -> rest db' = rest db.
Proof.
  intros [id r Ho|id r Ho|id e se f r Ho|a d Ho|id q re r Ho|r n Ho|a f r Ho|id e now r Ho|id rt f r Ho|id rt Ho].
  - unfold embedded_inference_state in Ho. open_rest Ho. by injection Ho as _ <-.
  - unfold select_embedded_round in Ho. open_rest Ho. inv_ok. by injection Ho as _ <-.
  - apply begin_inference_spec in Ho as (g & s & d & Hi%initialize_rest & _ & -> & _). by rewrite write_rest.
  - unfold finish_embedded_inference in Ho. open_rest Ho. rewrite <- E. destruct s; try done; [|by injection Ho as <-].
    destruct (_ && _); [|done]. injection Ho as <-. by destruct d.
  - unfold block_embedded_inference in Ho. inv_ok. by eapply block_rest.
  - by eapply host_loss_rest.
  - unfold continue_queued_input in Ho. open_rest Ho. rewrite <- E. destruct (existsb _ _); [|by injection Ho as _ <-].
    destruct s; try by injection Ho as _ <-. apply rbind_Ok in Ho as ([out d2] & Hg & [= _ <-]). by rewrite (checked_grant_rest _ _ _ _ _ _ Hg).
  - unfold reserve_automatic_retry in Ho. open_rest Ho. rewrite <- E. destruct s; try by injection Ho as _ <-.
    destruct (_ || _); [by injection Ho as _ <-|]. destruct (escaped _ _); [by injection Ho as _ <-|]. inv_ok.
    destruct (2 <=? _); [by injection Ho as _ <-|]. destruct (publish_recovery_projection _ _ _ _ _) as [p|er]; [by injection Ho as _ <-|].
    destruct (refusal er); [|done]. inv_ok. by injection Ho as _ <-.
  - unfold activate_automatic_retry in Ho. open_rest Ho. rewrite <- E. destruct s; try by injection Ho as _ <-.
    + destruct (_ && _ && _); [|by injection Ho as _ <-]. apply rbind_Ok in Ho as ([out d2] & Hg & [= _ <-]). by eapply checked_grant_rest.
    + destruct (_ && _); by injection Ho as _ <-.
  - unfold cancel_automatic_retry in Ho. open_rest Ho. rewrite <- E. destruct (match s with AutoRetry _ _ _ _ => _ | _ => _ end); [|by injection Ho as <-].
    apply rbind_Ok in Ho as ([b d2] & Hb & [= <-]). by eapply block_rest.
Qed.
End frame.

(** ** Mail *)

(** Mail is never lost or altered; it can be marked delivered. *)
Record mail_kept (h h' : Hdb) : Prop := {
  mk_rows id m : h_mail h !! id = Some m -> exists d, h_mail h' !! id = Some (m <| mail_delivered := d |>);
  mk_next : h_next_mail h <= h_next_mail h';
  mk_new id : is_Some (h_mail h' !! id) -> is_Some (h_mail h !! id) \/ h_next_mail h <= id < h_next_mail h'
}.

#[export] Instance mail_kept_preorder : PreOrder mail_kept.
Proof.
  split.
  - intros h. split; [|done|by left]. intros id m Hm. exists (mail_delivered m). by destruct m.
  - intros a b c [R1 N1 W1] [R2 N2 W2]. split; [|lia|].
    + intros id m Hm. destruct (R1 _ _ Hm) as [d Hd]. destruct (R2 _ _ Hd) as [d' Hd']. exists d'. by destruct m.
    + intros id [H|H]%W2; [|right; lia]. apply W1 in H as [H|H]; [by left|right; lia].
Qed.

(** Most writers leave the mail alone. *)
Lemma same_mail h h' : h_mail h' = h_mail h -> h_next_mail h' = h_next_mail h -> mail_kept h h'.
Proof.
  intros E1 E2. split; rewrite ?E1, ?E2; [|done|by left]. intros id m Hm. exists (mail_delivered m). by destruct m.
Qed.

Definition mails (h : Hdb) : gmap Z MailRow * Z := (h_mail h, h_next_mail h).

Lemma mails_kept h h' : mails h' = mails h -> mail_kept h h'.
Proof. intros [= E1 E2]. by apply same_mail. Qed.

Section mail.
Variable item_hash : value -> string.

Lemma put_item_mails h item : mails (put_item item_hash h item).2 = mails h.
Proof. unfold put_item. simpl. by destruct (h_items h !! _). Qed.

Lemma put_item_mail h item : h_mail (put_item item_hash h item).2 = h_mail h.
Proof. exact (f_equal fst (put_item_mails h item)). Qed.

Lemma insert_row_mails h r p row h' : insert_row h r p row = Ok h' -> mails h' = mails h.
Proof. unfold insert_row, unique_key, foreign_key. repeat (case_match; [done|]). by intros [= <-]. Qed.

Lemma publish_item_mails h r p hash item e : mails (publish_item h r p hash item e) = mails h.
Proof. unfold publish_item. by destruct (is_configuration_update item). Qed.

Lemma insert_request_mails h id parent b h' : insert_request h id parent b = Ok h' -> mails h' = mails h.
Proof. unfold insert_request, unique_key, foreign_key. repeat case_match; try done; by intros [= <-]. Qed.

Lemma append_authored_mails r l acc acc' : fold_result (append_authored item_hash r) acc l = Ok acc' -> mails acc'.2 = mails acc.2.
Proof.
  intros Hf. eapply (fold_result_inv _ (fun _ a => mails a.2 = mails acc.2) l) with (past := []) in Hf; [exact Hf| |done].
  intros past [[hs p] h] item [[hs' p'] h'] E1 Hop. cbn [snd] in E1 |- *. rewrite <- E1. unfold append_authored in Hop. inv_ok.
  pose proof (put_item_mails h item) as E2. destruct (put_item item_hash h item) as [hh h2]. inv_ok. injection Hop as _ _ <-.
  rewrite publish_item_mails, (insert_row_mails _ _ _ _ _ Hr0). exact E2.
Qed.

(** Open the [put_item] of a hypothesis. *)
Ltac open_put :=
  match goal with
  | H : context [put_item item_hash ?h ?item] |- _ =>
      let E := fresh "E" in pose proof (put_item_mails h item) as E; destruct (put_item item_hash h item) as [? ?]; cbn [snd] in E
  end.

Lemma set_effort_mails h r e x h' : set_effort_tx item_hash h r e = Ok (x, h') -> mails h' = mails h.
Proof.
  unfold set_effort_tx. intros Hop. destruct (bool_decide _); [|done]. apply rbind_Ok in Hop as ([p h1] & Hd & Hop).
  assert (mails h1 = mails h) as E1.
  { destruct (last _) as [[p' previous]|]; [|by injection Hd as _ <-]. destruct (is_configuration_update _); [|by injection Hd as _ <-].
    apply rbind_Ok in Hd as (h2 & Hd & [= _ <-]). unfold delete_row, foreign_key in Hd. destruct (existsb _ _); [done|]. by injection Hd as <-. }
  open_put. inv_ok. injection Hop as _ <-. rewrite (insert_row_mails _ _ _ _ _ Hr). congruence.
Qed.

Lemma append_item_mails h r index item b h' : append_item item_hash h r index item = Ok (b, h') -> mails h' = mails h.
Proof.
  unfold append_item. intros Hop. inv_ok. open_put. destruct (outputs_of _ _ !! index) as [[p prior]|]; inv_ok.
  - by injection Hop as _ <-.
  - injection Hop as _ <-. apply insert_row_mails in Hr1. destruct (bool_decide _); rewrite ?publish_item_mails; unfold mails in *; simpl in *; congruence.
Qed.

Lemma own_items_mails r l acc acc' : fold_result (own_item item_hash r) acc l = Ok acc' -> mails acc'.2 = mails acc.2.
Proof.
  intros Hf. eapply (fold_result_inv _ (fun _ a => mails a.2 = mails acc.2) l) with (past := []) in Hf; [exact Hf| |done].
  intros past [[n hs] h] item [[n' hs'] h'] E1 Hop. cbn [snd] in E1 |- *. rewrite <- E1. unfold own_item in Hop.
  apply rbind_Ok in Hop as ([b h1] & Ha & Hop). open_put. injection Hop as _ _ <-. apply append_item_mails in Ha. congruence.
Qed.

Lemma record_turn_mails h store i resp items usage e h' : record_provider_turn item_hash h store i resp items usage = Ok (e, h') -> mails h' = mails h.
Proof.
  unfold record_provider_turn. intros Hop. inv_ok. destruct x1 as [[n hs] h1]. apply own_items_mails in Hr1. simpl in Hr1. inv_ok.
  destruct (completion_event _); inv_ok; [by injection Hop as _ <-|]. unfold record_event in Hop. injection Hop as _ <-. exact Hr1.
Qed.

Lemma append_tx_mails rc h operation claimant r x h' : append_tx item_hash rc h operation claimant r = Ok (x, h') -> mails h' = mails h.
Proof.
  unfold append_tx. intros Hop. inv_ok. open_put. repeat (case_match; inv_ok; try done).
  - injection Hop as _ <-. rewrite publish_item_mails, (insert_row_mails _ _ _ _ _ Hr1). done.
  - by injection Hop as _ <-.
Qed.

Lemma attach_mails r l acc acc' : fold_result (attach_envelope r) acc l = Ok acc' -> mails acc'.2 = mails acc.2.
Proof.
  intros Hf. eapply (fold_result_inv _ (fun _ a => mails a.2 = mails acc.2) l) with (past := []) in Hf; [exact Hf| |done].
  intros past [[vs p] h] e [[vs' p'] h'] E1 Hop. cbn [snd] in E1 |- *. rewrite <- E1. unfold attach_envelope in Hop. inv_ok.
  destruct (is_configuration_update _); inv_ok; [by injection Hop as _ _ <-|]. injection Hop as _ _ <-.
  unfold publish_envelope in Hr2. inv_ok. subst. rewrite publish_item_mails. by eapply insert_row_mails.
Qed.

Lemma deliver_kept r h id : mail_kept h (deliver r h id).
Proof.
  split; [|done|]; unfold deliver; simpl.
  - intros i m Hm. destruct (decide (i = id)) as [->|Hne].
    + rewrite lookup_alter_eq, Hm. simpl. destruct (mail_delivered m) as [d|] eqn:Ed; [exists (Some d)|by exists (Some r)]. rewrite <- Ed. by destruct m.
    + rewrite lookup_alter_ne by done. exists (mail_delivered m). by destruct m.
  - intros i Hi. left. by rewrite lookup_alter_is_Some in Hi.
Qed.

Lemma delivers_kept r h ids : mail_kept h (foldl (deliver r) h ids).
Proof. revert h. induction ids as [|id ids IH]; intros h; simpl; [done|]. etrans; [apply deliver_kept|apply IH]. Qed.

(** Where new mail goes: no row is there yet. *)
Definition mail_bounded (h : Hdb) : Prop := forall id, is_Some (h_mail h !! id) -> id < h_next_mail h.

Lemma mail_kept_bounded h h' : mail_kept h h' -> mail_bounded h -> mail_bounded h'.
Proof. intros [_ N W] B id Hid. apply W in Hid as [Hid|Hid]; [|lia]. specialize (B id Hid). lia. Qed.

Lemma add_envelope_spec h sender recipient_ class item d id h' :
  add_envelope item_hash h sender recipient_ class item d = Ok (id, h') ->
  id = h_next_mail h /\ h_next_mail h' = h_next_mail h + 1 /\
  h_mail h' = <[id := {| mail_sender := sender; mail_recipient := recipient_; mail_class := class; mail_hash := item_hash item; mail_delivered := d |}]> (h_mail h).
Proof.
  unfold add_envelope, put_item, foreign_key. intros Hop. destruct (h_items h !! _); case_match; try done; by injection Hop as <- <-.
Qed.

Lemma add_envelope_items h sender recipient_ class item d id h' :
  add_envelope item_hash h sender recipient_ class item d = Ok (id, h') -> h_items h ⊆ h_items h'.
Proof.
  unfold add_envelope, put_item, foreign_key. intros Hop. destruct (h_items h !! _) eqn:E; case_match; try done; injection Hop as _ <-; simpl;
    [done|by apply insert_subseteq].
Qed.

Lemma add_envelope_kept h sender recipient_ class item d id h' :
  mail_bounded h -> add_envelope item_hash h sender recipient_ class item d = Ok (id, h') -> mail_kept h h'.
Proof.
  intros B (-> & En & Em)%add_envelope_spec. split; rewrite ?En, ?Em; [|lia|].
  - intros i m Hm. rewrite lookup_insert_ne; [exists (mail_delivered m); by destruct m|].
    intros <-. assert (h_next_mail h < h_next_mail h) by (apply B; eauto). lia.
  - intros i [m [[<- _]|[_ Hm]]%lookup_insert_Some]; [right; lia|left; eauto].
Qed.

(** Every writer of the conversation keeps the mail. *)
Lemma history_mail rc h h' : mail_bounded h -> history_step item_hash rc h h' -> mail_kept h h'.
Proof.
  intros B [id parent branch Ho|r parent branch items u Ho|r items hs Ho|r e x Ho|agent e ->|agent r x Ho|sender recipient_ class item d id Ho
         |recipient_ r items Ho|store r record contract i Ho|store i index item b H0 Ho|r state u Ho|store i resp_id items usage event Ho
         |operation claimant r item x b Ho].
  - by eapply mails_kept, insert_request_mails.
  - unfold write_request in Ho. inv_ok. destruct x0 as [[hs p] h1]. injection Ho as _ <-. apply mails_kept.
    apply append_authored_mails in Hr0. apply insert_request_mails in Hr. simpl in Hr0. congruence.
  - unfold append_items in Ho. inv_ok. destruct x as [[hs' p] h1]. injection Ho as _ <-. apply mails_kept. by apply append_authored_mails in Hr.
  - by eapply mails_kept, set_effort_mails.
  - by apply same_mail.
  - unfold apply_pending_effort in Ho. destruct (h_session h !! _); [|by injection Ho as _ <-]. inv_ok. destruct x1 as [hh h1].
    injection Ho as _ <-. apply mails_kept. apply set_effort_mails in Hr0. exact Hr0.
  - by eapply add_envelope_kept.
  - unfold append_unread_envelopes in Ho. inv_ok. destruct x0 as [[vs p] h1]. injection Ho as _ <-. apply attach_mails in Hr0.
    etrans; [by apply mails_kept|apply delivers_kept].
  - unfold issue_provider_request, foreign_key in Ho. destruct (h_provider h !! r); inv_ok; [by injection Ho as _ <-|].
    destruct (bool_decide _); [|done]. injection Ho as _ <-. by apply same_mail.
  - unfold append_provider_done in Ho. inv_ok. by eapply mails_kept, append_item_mails.
  - unfold stop_provider_response in Ho. destruct state; try done; injection Ho as _ <-; by apply same_mail.
  - by eapply mails_kept, record_turn_mails.
  - by eapply mails_kept, append_tx_mails.
Qed.
End mail.

(** ** The life of a command *)

(** A receipt settles the command it answers, in the state that names it. *)
Definition settles (c : HostCommand) (state : EmbeddedCommandState) (out : CommandReceiptOutcome) : Prop :=
  match out with
  | ControlRequested target control =>
      state = CmdControlRequested /\ (c = Retire target /\ control = ControlRetire \/ exists round, c = Interrupt target round /\ control = ControlInterrupt)
  | CommandRefused target _ => state = CmdRefused /\ (forall t, target = Some t -> t = command_target c)
  | CommandUnconfirmed target _ => state = CmdUnconfirmed /\ target = command_target c
  | RecoveryAuthorized target block mode _ => state = CmdRecoveryAuthorized /\ c = Recover target block mode
  | ContinuationRefused target block _ => state = CmdRefused /\ exists mode, c = Recover target block mode
  | AccountSelected target account => state = CmdAccountSelected /\ c = SelectAccount target account
  | CommandAdmitted _ _ _ _ => False
  end.

Lemma fits_settles c state out : settled_state out = Ok state -> fits_command c out = true -> settles c state out.
Proof.
  destruct out; simpl; try done; intros [= <-].
  - intros [->%bool_decide_eq_true Hc]%andb_true_iff. split; [done|]. destruct c, control; try done; simpl; eauto.
  - by intros ->%bool_decide_eq_true.
  - intros Hfit. split; [done|]. intros t ->. by apply bool_decide_eq_true in Hfit.
Qed.

Definition queued_row (c : HostCommand) (rowid : Z) : CommandRow :=
  {| command := c; command_state := CmdQueued; receipt := None; command_envelope := None; command_rowid := rowid |}.

(** The abstract machine of the command under one key. *)
Inductive command_move (k : string * string) : option CommandRow -> option CommandRow -> Prop :=
| move_enqueue c rowid : run (command_target c) = k.1 -> command_move k None (Some (queued_row c rowid))
| move_claim row : command_state row = CmdQueued -> command_move k (Some row) (Some (row <| command_state := CmdDispatching |>))
| move_settle row state out :
    command_state row = CmdDispatching -> receipt row = None -> settles (command row) state out ->
    command_move k (Some row) (Some (row <| command_state := state |> <| receipt := Some {| command_id := k.2; outcome := out |} |>))
| move_admit row target text continuation envelope :
    command_state row = CmdDispatching -> receipt row = None -> command row = Input target text ->
    command_move k (Some row) (Some (row <| command_state := CmdInputAdmitted |> <| command_envelope := Some envelope |>
      <| receipt := Some {| command_id := k.2; outcome := CommandAdmitted continuation (Some target) envelope None |} |>))
| move_wake row continuation target envelope error error' :
    command_state row = CmdInputAdmitted ->
    receipt row = Some {| command_id := k.2; outcome := CommandAdmitted continuation target envelope error |} ->
    command_move k (Some row) (Some (row <| receipt := Some {| command_id := k.2; outcome := CommandAdmitted continuation target envelope (Some error') |} |>)).

Abbreviation command_moves k := (rtc (command_move k)).

(** A state that takes no further work. *)
Definition command_final (s : EmbeddedCommandState) : bool := match s with CmdQueued | CmdDispatching => false | _ => true end.

(** What holds of a command at every moment of its life. *)
Definition command_ok (k : string * string) (row : CommandRow) : Prop :=
  run (command_target (command row)) = k.1 /\
  match receipt row with
  | None => command_final (command_state row) = false /\ command_envelope row = None
  | Some r =>
      command_id r = k.2 /\
      match outcome r with
      | CommandAdmitted _ target envelope _ =>
          command_state row = CmdInputAdmitted /\ command_envelope row = Some envelope /\
          exists identity text, target = Some identity /\ command row = Input identity text
      | out => settles (command row) (command_state row) out /\ command_envelope row = None
      end
  end.

(** A receipt as it was first given: a later failure to wake the actor is noted on it. *)
Definition without_wake (r : CommandReceipt) : CommandReceipt :=
  match outcome r with
  | CommandAdmitted continuation target envelope _ => {| command_id := command_id r; outcome := CommandAdmitted continuation target envelope None |}
  | _ => r
  end.

(** What a command keeps from one moment to a later one. *)
Definition command_later (a b : CommandRow) : Prop :=
  command b = command a /\ command_rowid b = command_rowid a /\
  (command_state a <> CmdQueued -> command_state b <> CmdQueued) /\
  forall r, receipt a = Some r -> command_state b = command_state a /\ command_envelope b = command_envelope a /\
    exists r', receipt b = Some r' /\ without_wake r' = without_wake r.

#[export] Instance command_later_preorder : PreOrder command_later.
Proof.
  split; [intros a; split_and!; [done..|]; intros r Hr; split_and!; [done..|by exists r]|].
  intros a b c (C1 & O1 & Q1 & R1) (C2 & O2 & Q2 & R2). split_and!; [congruence..|auto|].
  intros r Hr. destruct (R1 _ Hr) as (S1 & E1 & r1 & Hr1 & W1). destruct (R2 _ Hr1) as (S2 & E2 & r2 & Hr2 & W2).
  split_and!; [congruence..|]. exists r2. split; [done|congruence].
Qed.

Lemma settles_final c s out : settles c s out -> command_final s = true /\ s <> CmdInputAdmitted.
Proof. destruct out; simpl; try done; intros [-> _]; done. Qed.

Lemma move_ok k o row' : command_move k o (Some row') -> (forall row, o = Some row -> command_ok k row) -> command_ok k row'.
Proof.
  intros Hm Hok. inversion Hm as [c rowid Hrun|row Hs|row state out Hs Hr Hset|row target text cont e Hs Hr Hc|row cont target e er er' Hs Hr]; subst;
    unfold command_ok; upd_simpl; [done|..].
  - destruct (Hok _ eq_refl) as [Hrun Hrest]. split; [done|]. destruct (receipt row) as [r|] eqn:Hr; [|by destruct Hrest].
    destruct Hrest as [_ Hrest]. exfalso. destruct (outcome r); rewrite Hs in Hrest; simpl in Hrest; naive_solver.
  - destruct (Hok _ eq_refl) as [Hrun Hrest]. rewrite Hr in Hrest. split; [done|]. split; [done|]. destruct out; [split; [done|apply Hrest]..| | | |]; try done;
      split; try done; apply Hrest.
  - destruct (Hok _ eq_refl) as [Hrun _]. split; [done|]. split; [done|]. split_and!; [done..|]. by exists target, text.
  - destruct (Hok _ eq_refl) as [Hrun Hrest]. rewrite Hr in Hrest. simpl in Hrest. naive_solver.
Qed.

Lemma move_later k row o' : command_ok k row -> command_move k (Some row) o' -> exists row', o' = Some row' /\ command_later row row'.
Proof.
  intros Hok Hm. inversion Hm as [|? Hs|? state out Hs Hr Hset|? target text cont e Hs Hr Hc|? cont target e er er' Hs Hr]; subst;
    (eexists; split; [reflexivity|]); unfold command_later; upd_simpl; split_and!; try done.
  - intros r Hr. destruct Hok as [_ Hrest]. rewrite Hr in Hrest. destruct Hrest as [_ Hrest]. exfalso.
    destruct (outcome r); rewrite Hs in Hrest; simpl in Hrest; naive_solver.
  - intros _. apply settles_final in Hset as [Hf _]. by destruct state.
  - intros r Hr'. congruence.
  - intros r Hr'. congruence.
  - intros r Hr'. split_and!; [done..|]. eexists. split; [done|]. rewrite Hr in Hr'. by injection Hr' as <-.
Qed.

Lemma moves_ok k o o' :
  command_moves k o o' -> (forall row, o = Some row -> command_ok k row) ->
  (forall row, o' = Some row -> command_ok k row) /\ forall row, o = Some row -> exists row', o' = Some row' /\ command_later row row'.
Proof.
  induction 1 as [o|o1 o2 o3 Hm _ IH]; intros Hok; [split; [done|]; intros row ->; by exists row|].
  destruct IH as [Hok3 Hlater].
  { intros row ->. by eapply move_ok. }
  split; [done|]. intros row ->. destruct (move_later _ _ _ (Hok _ eq_refl) Hm) as (row2 & -> & L2).
  destruct (Hlater _ eq_refl) as (row3 & -> & L3). exists row3. split; [done|]. by etrans.
Qed.

(** ** Commands over transactions *)

Definition commands_ok (db : StoreRows) : Prop := forall k row, s_commands db !! k = Some row -> command_ok k row.

(** Every command moves by its machine, and an envelope is real when a command names it. *)
Definition is_mail (db : StoreRows) (e : Z) : Prop := is_Some (h_mail (s_hist db) !! e).

Record commands_move (db db' : StoreRows) : Prop := {
  cm_moves k : command_moves k (s_commands db !! k) (s_commands db' !! k);
  cm_mail e : is_mail db e -> is_mail db' e;
  cm_envelopes k row' e : s_commands db' !! k = Some row' -> command_envelope row' = Some e ->
    is_mail db' e \/ exists row, s_commands db !! k = Some row /\ command_envelope row = Some e
}.

Definition envelopes_ok (db : StoreRows) : Prop :=
  forall k row e, s_commands db !! k = Some row -> command_envelope row = Some e -> is_mail db e.

#[export] Instance commands_move_preorder : PreOrder commands_move.
Proof.
  split; [intros db; split; [done..|eauto]|]. intros a b c [M1 E1 N1] [M2 E2 N2]. split; [|auto|].
  - intros k. etrans; [apply M1|apply M2].
  - intros k row' e Hrow He. destruct (N2 _ _ _ Hrow He) as [?|(row & Hrow1 & He1)]; [by left|].
    destruct (N1 _ _ _ Hrow1 He1) as [?|?]; [left; auto|by right].
Qed.

Lemma commands_move_ok db db' : commands_move db db' -> commands_ok db -> commands_ok db'.
Proof. intros [Hm _ _] Hok k. apply (moves_ok _ _ _ (Hm k)). apply Hok. Qed.

Lemma commands_move_envelopes db db' : commands_move db db' -> envelopes_ok db -> envelopes_ok db'.
Proof. intros [_ He Hn] Hok k row' e Hrow Hr. destruct (Hn _ _ _ Hrow Hr) as [?|(row & ? & ?)]; eauto. Qed.

Lemma same_commands db db' : s_commands db' = s_commands db -> (forall e, is_mail db e -> is_mail db' e) -> commands_move db db'.
Proof. intros E Hm. split; [by rewrite E|done|]. rewrite E. eauto. Qed.

Lemma put_move db run_ op row :
  command_move (run_, op) (s_commands db !! (run_, op)) (Some row) ->
  (forall e, command_envelope row = Some e -> is_mail db e \/ exists old, s_commands db !! (run_, op) = Some old /\ command_envelope old = Some e) ->
  commands_move db (put_command db run_ op row).
Proof.
  intros Hm He. unfold put_command. split.
  - intros k. upd_simpl. destruct (decide (k = (run_, op))) as [->|Hne]; [rewrite lookup_insert_eq; by apply rtc_once|by rewrite lookup_insert_ne].
  - done.
  - intros k row' e. upd_simpl. intros [[<- <-]|[_ Hrow]]%lookup_insert_Some; [apply He|eauto].
Qed.

Lemma dispatching_unsettled db k row : commands_ok db -> s_commands db !! k = Some row -> command_state row = CmdDispatching -> receipt row = None.
Proof.
  intros Hok Hrow Hs. destruct (Hok _ _ Hrow) as [_ Hrest]. destruct (receipt row) as [r|]; [|done]. destruct Hrest as [_ Hrest].
  exfalso. destruct (outcome r); rewrite Hs in Hrest; simpl in Hrest; naive_solver.
Qed.

Lemma settle_dispatching_moves db run_ op state out db' :
  commands_ok db -> (forall row, s_commands db !! (run_, op) = Some row -> settles (command row) state out) ->
  settle_dispatching db run_ op state {| command_id := op; outcome := out |} = Some db' -> commands_move db db'.
Proof.
  intros Hok Hset H. unfold settle_dispatching in H. destruct (s_commands db !! _) as [row|] eqn:Hrow; [|done].
  destruct (bool_decide _) eqn:Hs; [|done]. apply bool_decide_eq_true in Hs. injection H as <-. apply put_move; rewrite Hrow; [|upd_simpl; eauto].
  apply (move_settle (run_, op)); [done| |by apply Hset]. by eapply dispatching_unsettled.
Qed.

(** What a reader of a command returns is its row. *)
Lemma require_command_row db run_ op r :
  require_command db run_ op = Ok r ->
  exists row, s_commands db !! (run_, op) = Some row /\ rec_command r = command row /\ rec_state r = command_state row /\
    rec_receipt r = receipt row /\ rec_operation r = op.
Proof.
  unfold require_command, read_command. intros H. apply rbind_Ok in H as (found & H & Hf). apply ok_or_Ok in Hf as ->.
  destruct (s_commands db !! _) as [row|]; [|done]. apply rbind_Ok in H as (o & _ & [= <-]). by exists row.
Qed.

Section command_ops.
Context `{ProjectionOwner}.
Variable item_hash : value -> string.
Variable store_id : string.

Lemma enqueue_moves db op c r db' : enqueue_embedded_command db op c = Ok (r, db') -> commands_move db db'.
Proof.
  unfold enqueue_embedded_command. intros Ho. apply rbind_Ok in Ho as ([old|] & Hr & Ho); inv_ok; [by injection Ho as _ <-|].
  injection Ho as _ <-. apply put_move; [|done]. unfold read_command in Hr. destruct (s_commands db !! _) as [row|]; [inv_ok; done|].
  by apply (move_enqueue (_, _)).
Qed.

Lemma claim_moves db run_ op r db' : claim_embedded_command db run_ op = Ok (r, db') -> commands_move db db'.
Proof.
  unfold claim_embedded_command. destruct (s_commands db !! _) as [row|] eqn:Hrow; [|by intros [= _ <-]].
  destruct (bool_decide _) eqn:Hs; [|by intros [= _ <-]]. intros Ho. inv_ok. injection Ho as _ <-. apply put_move; rewrite Hrow; [|upd_simpl; eauto].
  apply move_claim. by apply bool_decide_eq_true in Hs.
Qed.

Lemma recover_commands_moves db run_ n db' : commands_ok db -> recover_embedded_command_claims db run_ = Ok (n, db') -> commands_move db db'.
Proof.
  intros Hok Ho. unfold recover_embedded_command_claims in Ho. inv_ok. injection Ho as _ <-.
  eapply (fold_result_inv _ (fun _ d => commands_move db d)) with (past := []) in Hr; [exact Hr| |done].
  intros past d op d' Hd Ho. etrans; [exact Hd|]. pose proof (commands_move_ok _ _ Hd Hok) as Hok'. unfold recover_command in Ho.
  apply rbind_Ok in Ho as (r & Hreq & [= <-]). apply require_command_row in Hreq as (row & Hrow & Hc & _).
  destruct (settle_dispatching _ _ _ _ _) as [d2|] eqn:Hset; [|done]. eapply settle_dispatching_moves; [done| |exact Hset].
  intros row' Hrow'. rewrite Hrow in Hrow'. injection Hrow' as <-. simpl. by rewrite Hc.
Qed.

Lemma wake_moves db run_ op error r db' : commands_ok db -> record_embedded_command_wake_error db run_ op error = Ok (r, db') -> commands_move db db'.
Proof.
  unfold record_embedded_command_wake_error. intros Hok Ho. apply rbind_Ok in Ho as (rec & Hreq & Ho). inv_ok.
  apply require_command_row in Hreq as (row & Hrow & _ & Hst & Hrc & _). rewrite Hrc in Hr. destruct x as [id out]. simpl in Ho.
  destruct out; try done. inv_ok. rewrite Hrow in Hr0. injection Hr0 as <-. injection Ho as _ <-. apply put_move; rewrite Hrow; [|upd_simpl; eauto].
  apply bool_decide_eq_true in Hg. destruct (Hok _ _ Hrow) as [_ Hrest]. rewrite Hr in Hrest. destruct Hrest as [E _]. simpl in E. subst id.
  eapply (move_wake (run_, op)); [congruence|done].
Qed.

Lemma settle_command_moves db run_ op out r db' : commands_ok db -> settle_embedded_command db run_ op out = Ok (r, db') -> commands_move db db'.
Proof.
  unfold settle_embedded_command. intros Hok Ho. apply rbind_Ok in Ho as (state & Hst & Ho). apply rbind_Ok in Ho as (rec & Hreq & Ho).
  apply require_command_row in Hreq as (row & Hrow & Hc & _ & _). destruct (rec_receipt rec); inv_ok; [by injection Ho as _ <-|].
  injection Ho as _ <-. eapply settle_dispatching_moves; [done| |exact Hr]. intros row' Hrow'. rewrite Hrow in Hrow'. injection Hrow' as <-.
  apply orb_false_elim in Hg as [Hfit _]. apply negb_false_iff in Hfit. rewrite Hc in Hfit. by apply fits_settles.
Qed.

Lemma select_moves db run_ op av co r db' : commands_ok db -> select_run_account db run_ op av co = Ok (r, db') -> commands_move db db'.
Proof.
  unfold select_run_account. intros Hok Ho. apply rbind_Ok in Ho as (rec & Hreq & Ho). apply require_command_row in Hreq as (row & Hrow & Hc & _).
  destruct (rec_command rec) as [target account| | | |]; try done. destruct (rec_receipt rec); [by injection Ho as _ <-|]. inv_ok.
  assert (forall row', s_commands db !! (run_, op) = Some row' -> row' = row) as Huniq by congruence. destruct (_ && _ && _); inv_ok; injection Ho as _ <-.
  - transitivity (db <| s_accounts ::= <[run_ := account]> |>); [by apply same_commands|].
    eapply settle_dispatching_moves; [exact Hok| |exact Hr]. intros row' ->%Huniq. simpl. by rewrite <- Hc.
  - eapply settle_dispatching_moves; [exact Hok| |exact Hr]. intros row' ->%Huniq. simpl. rewrite <- Hc. split; [done|]. by intros t [= <-].
Qed.

(** What the admission of an input found and did. *)
Definition user_mail (identity : HostIdentity) (sender : string) (item : value) : MailRow :=
  {| mail_sender := sender; mail_recipient := actor identity; mail_class := "user"; mail_hash := item_hash item; mail_delivered := None |}.

Lemma set_hist_hist db h : s_hist (set_hist db h) = h.
Proof. done. Qed.

Lemma admit_tx_spec db identity op sender item a db' :
  admit_embedded_input_tx item_hash db identity op sender item = Ok (a, db') ->
  bound db identity = true /\
  match a with
  | RetainedInput id =>
      s_inputs db !! (identity, op) = Some (id, item_hash item) /\
      (exists m, h_mail (s_hist db) !! id = Some m /\ mail_sender m = sender) /\ db' = set_hist db (put_item item_hash (s_hist db) item).2
  | NewInput id =>
      s_inputs db !! (identity, op) = None /\ id = h_next_mail (s_hist db) /\
      h_mail (s_hist db') = <[id := user_mail identity sender item]> (h_mail (s_hist db)) /\ h_next_mail (s_hist db') = id + 1 /\
      h_items (s_hist db) ⊆ h_items (s_hist db') /\
      db' = set_hist db (s_hist db') <| s_inputs := <[(identity, op) := (id, item_hash item)]> (s_inputs db) |>
  end.
Proof.
  unfold admit_embedded_input_tx. intros Ho. destruct (bound db identity); [|done]. split; [done|].
  pose proof (put_item_mails item_hash (s_hist db) item) as Em. assert (h_items (s_hist db) ⊆ h_items (put_item item_hash (s_hist db) item).2) as Hi.
  { unfold put_item. simpl. destruct (h_items _ !! _) eqn:E; simpl; [done|by apply insert_subseteq]. }
  assert ((put_item item_hash (s_hist db) item).1 = item_hash item) as Eh by done.
  destruct (put_item item_hash (s_hist db) item) as [hash h1]. cbn [fst snd] in *. subst hash. injection Em as Em En.
  change (s_inputs (set_hist db h1)) with (s_inputs db) in Ho. change (s_hist (set_hist db h1)) with h1 in Ho. rewrite Em in Ho.
  destruct (s_inputs db !! (identity, op)) as [[id h]|] eqn:Ein; cbn [mbind option_bind fst] in Ho.
  - destruct (h_mail (s_hist db) !! id) as [m|] eqn:Hm; cbn [mbind option_bind] in Ho; inv_ok.
    + injection Ho as <- <-. apply orb_false_elim in Hg as [H1 H2]. apply negb_false_iff, bool_decide_eq_true in H1, H2. subst. eauto.
    + destruct x as [i d]. unfold send_envelope in Hr. destruct (add_envelope _ _ _ _ _ _ _) as [[i' h']|]; [|done]. injection Hr as _ <-.
      change (s_inputs (set_hist _ h')) with (s_inputs db) in Ho. by rewrite Ein, bool_decide_eq_true_2 in Ho by eauto.
  - inv_ok. destruct x as [i d]. unfold send_envelope in Hr. destruct (add_envelope _ _ _ _ _ _ _) as [[i' h']|] eqn:Ha; [|done]. injection Hr as <- <-.
    change (s_inputs (set_hist _ h')) with (s_inputs db) in Ho. rewrite Ein, bool_decide_eq_false_2 in Ho by (by intros []). injection Ho as <- <-.
    pose proof (add_envelope_items _ _ _ _ _ _ _ _ _ Ha) as Hit. apply add_envelope_spec in Ha as (-> & En' & Em').
    change (s_hist (set_hist db h1)) with h1 in *. split_and!; [done|congruence| |exact En'| |done].
    + change (h_mail h' = <[h_next_mail h1 := user_mail identity sender item]> (h_mail (s_hist db))). by rewrite Em', Em.
    + change (h_items (s_hist db) ⊆ h_items h'). by etrans.
Qed.

Lemma continue_input_spec db identity e op out db' :
  continue_input store_id db identity e op = Ok (out, db') ->
  exists g, admit_input_continuation_tx store_id (gate_db db) identity e op = Ok (out, g) /\ db' = with_gate db g.
Proof. unfold continue_input. intros Ho. apply rbind_Ok in Ho as ([o g] & Hg & [= <- <-]). destruct (admit_input_continuation_tx _ _ _ _ _) as [[]|]; [|done]. injection Hg as <- <-. eauto. Qed.

Lemma command_input_spec db identity op text a db' :
  admit_embedded_command_input item_hash store_id db identity op text = Ok (a, db') ->
  exists row, s_commands db !! (run identity, op) = Some row /\ command row = Input identity text /\
    match a with
    | RetainedCommandInput r => command_state row = CmdInputAdmitted /\ receipt row = Some r /\ db' = db
    | NewCommandInput r =>
        command_state row = CmdDispatching /\ exists adm d1 d2 continuation,
          admit_embedded_input_tx item_hash db identity op "operator" (user_text text) = Ok (adm, d1) /\
          (match adm with
           | NewInput e => exists out, continue_input store_id d1 identity e op = Ok (out, d2) /\ continuation = Some out
           | RetainedInput e => d2 = d1 /\ continuation = read_input_continuation d1 e
           end) /\
          r = {| command_id := op; outcome := CommandAdmitted continuation (Some identity) (admission_envelope adm) None |} /\
          db' = put_command d2 (run identity) op (row <| command_state := CmdInputAdmitted |> <| command_envelope := Some (admission_envelope adm) |> <| receipt := Some r |>)
    end.
Proof.
  unfold admit_embedded_command_input. intros Ho. inv_ok. exists x. apply negb_false_iff, bool_decide_eq_true in Hg. split; [done|]. split; [done|].
  destruct (bool_decide (command_state x = CmdInputAdmitted)) eqn:Hs; inv_ok.
  - injection Ho as <- <-. apply bool_decide_eq_true in Hs. done.
  - apply bool_decide_eq_true in Hg0. destruct x0 as [adm d1]. apply rbind_Ok in Ho as ([cont d2] & Hc & [= <- <-]). split; [done|].
    exists adm, d1, d2, cont. split_and!; try done. destruct adm; [|by injection Hc as <- <-]. apply rbind_Ok in Hc as ([o d] & Hc & [= <- <-]). eauto.
Qed.

Lemma admit_tx_mail db identity op sender item a db' :
  admit_embedded_input_tx item_hash db identity op sender item = Ok (a, db') -> is_mail db' (admission_envelope a) /\ forall e, is_mail db e -> is_mail db' e.
Proof.
  intros [_ Ha]%admit_tx_spec. unfold is_mail. destruct a as [id|id]; simpl.
  - destruct Ha as (_ & _ & -> & _). split; [rewrite lookup_insert_eq; by eexists|]. intros e He. rewrite lookup_insert_is_Some.
    destruct (decide (id = e)); auto.
  - destruct Ha as (_ & (m & Hm & _) & ->). rewrite set_hist_hist, (put_item_mail item_hash (s_hist db) item). eauto.
Qed.

Lemma command_input_moves db identity op text a db' :
  commands_ok db -> admit_embedded_command_input item_hash store_id db identity op text = Ok (a, db') -> commands_move db db'.
Proof.
  intros Hok (row & Hrow & Hc & Ha)%command_input_spec. destruct a as [r|r]; [|by destruct Ha as (_ & _ & ->)].
  destruct Ha as (Hs & adm & d1 & d2 & cont & Htx & Hcont & -> & ->). destruct (admit_tx_mail _ _ _ _ _ _ _ Htx) as [He Hm].
  assert (s_commands d1 = s_commands db) as E1.
  { apply admit_tx_spec in Htx as [_ Htx]. destruct adm; [destruct Htx as (_ & _ & _ & _ & _ & ->)|destruct Htx as (_ & _ & ->)]; done. }
  assert (s_commands d2 = s_commands d1 /\ s_hist d2 = s_hist d1) as [E2 E3].
  { destruct adm; [|by destruct Hcont as [-> _]]. destruct Hcont as (out & (g & _ & ->)%continue_input_spec & _). done. }
  transitivity d2; [apply same_commands; [congruence|]; unfold is_mail in *; by rewrite E3|]. apply put_move; rewrite E2, E1, Hrow.
  - eapply (move_admit (_, _)); [done| |done]. by eapply dispatching_unsettled.
  - upd_simpl. intros e [= <-]. left. unfold is_mail in *. by rewrite E3.
Qed.

Lemma authorize_command_moves db identity op r db' :
  commands_ok db -> (forall e, is_mail db e -> is_mail db' e) ->
  authorize_embedded_recovery store_id (gate_db db) identity op = Ok (r, gate_db db') -> commands_move db db'.
Proof.
  unfold authorize_embedded_recovery. intros Hok Hmail Ho. inv_ok. rename x into row. change (s_commands db !! (run identity, op) = Some row) in Hr.
  destruct (command row) as [| | | |target eb mode] eqn:Hcmd; try done. inv_ok. apply negb_false_iff, bool_decide_eq_true in Hg. subst target.
  destruct (receipt row) eqn:Hrc. { apply Ok_inj, (f_equal (fun x => commands x.2)) in Ho. by apply same_commands. }
  inv_ok. destruct x as [[st out] d1]. assert (commands d1 = s_commands db /\ settles (command row) st out) as [Hc Hset].
  { destruct (authorize_grant _ _ _ _ _ _) as [[o d]|e] eqn:Ha.
    - injection Hr0 as <- <- <-. unfold authorize_grant in Ha. apply rbind_Ok in Ha as ([[g s] d2] & Hi & Ha). inv_ok. destruct x as [r' d3].
      injection Ha as <- <-. apply grant_commands in Hr0. apply initialize_moves in Hi as (_ & _ & _ & _ & Hdb).
      split; [rewrite Hr0, Hdb; done|]. by rewrite Hcmd.
    - destruct (refusal e) as [reason|]; [|done]. apply rbind_Ok in Hr0 as (d2 & Hd & [= <- <- <-]). split.
      + case_decide; [by injection Hd as <-|]. apply rbind_Ok in Hd as ([b d3] & Hd & [= <-]). by apply mark_commands in Hd.
      + rewrite Hcmd. split; [done|]. by exists mode. }
  rewrite Hc, Hr in Ho. inv_ok. pose proof (f_equal (fun x => commands x.2) Ho) as E.
  transitivity (put_command db (run identity) op (row <| command_state := st |> <| receipt := Some {| command_id := op; outcome := out |} |>)).
  - apply put_move; rewrite Hr; [|upd_simpl; eauto]. eapply (move_settle (_, _)); [by apply bool_decide_eq_true in Hg0|done|done].
  - apply same_commands; [|done]. unfold put_command. upd_simpl. by rewrite <- E, Hc.
Qed.
End command_ops.

(** ** One Store, all its transactions *)

(** What another component does to the conversation rows: items stay, mail is
    at most delivered, and bindings are not its business. *)
Record grows (c c' : ClaimDb) : Prop := {
  gr_items : h_items (k_hist c) ⊆ h_items (k_hist c');
  gr_mail : mail_bounded (k_hist c) -> mail_kept (k_hist c) (k_hist c');
  gr_bindings : k_bindings c' = k_bindings c
}.

Section host_steps.
Context `{ProjectionOwner}.
Variable item_hash : value -> string.
Variable store_id : string.
Variable reference_of : list Origin -> ContextReference.
Variable parse_url : string -> option Url.
Variable loopback_ip : string -> bool.
Variable instant_admits : Z -> bool.

(** The conversation's own transactions are such. *)
Lemma history_grows rc c h :
  history_wf item_hash (k_hist c) -> history_step item_hash rc (k_hist c) h -> grows c (c <| k_hist := h |>).
Proof.
  intros Hwf Hs. split; [|intros B; by eapply history_mail|done]. by apply (step_keeps _ _ _ _ Hs Hwf).
Qed.

Inductive host_step (db db' : StoreRows) : Prop :=
| host_rows c agents_ interrupted :
    grows (s_claims db) c -> db' = db <| s_claims := c |> <| s_agents := agents_ |> <| s_interrupted := interrupted |> -> host_step db db'
| host_context identity state : db' = save_state db identity state -> host_step db db'
| host_admission g : admission_step store_id (gate_db db) g -> db' = with_gate db g -> host_step db db'
| host_authorize identity op r :
    authorize_embedded_recovery store_id (gate_db db) identity op = Ok (r, gate_db db') -> grows (s_claims db) (s_claims db') ->
    s_inputs db' = s_inputs db -> s_seeds db' = s_seeds db -> host_step db db'
| host_bind identity parent authority : bind_embedded_actor_authorized db identity parent authority = Ok db' -> host_step db db'
| host_transfer predecessor successor authority r :
    transfer_embedded_binding parse_url loopback_ip instant_admits db predecessor successor authority = Ok (r, db') -> host_step db db'
| host_seed identity op manifest items fresh r :
    seed_embedded_context_items item_hash reference_of db identity op manifest items fresh = Ok (r, db') -> host_step db db'
| host_request identity request parent items : write_embedded_request item_hash db identity request parent items = Ok db' -> host_step db db'
| host_enqueue op c r : enqueue_embedded_command db op c = Ok (r, db') -> host_step db db'
| host_claim run_ op r : claim_embedded_command db run_ op = Ok (r, db') -> host_step db db'
| host_recover run_ n : recover_embedded_command_claims db run_ = Ok (n, db') -> host_step db db'
| host_wake run_ op error r : record_embedded_command_wake_error db run_ op error = Ok (r, db') -> host_step db db'
| host_settle run_ op out r : settle_embedded_command db run_ op out = Ok (r, db') -> host_step db db'
| host_account run_ launch r : initialize_run_account db run_ launch = Ok (r, db') -> host_step db db'
| host_select run_ op available contains r : select_run_account db run_ op available contains = Ok (r, db') -> host_step db db'
| host_input identity op sender item fresh e : admit_embedded_input item_hash store_id db identity op sender item fresh = Ok (e, db') -> host_step db db'
| host_command_input identity op text a : admit_embedded_command_input item_hash store_id db identity op text = Ok (a, db') -> host_step db db'.

(** What every reachable Store satisfies. *)
Record host_ok (db : StoreRows) : Prop := {
  ho_commands : commands_ok db;
  ho_envelopes : envelopes_ok db;
  ho_mail : mail_bounded (s_hist db);
  ho_inputs i op e h : s_inputs db !! (i, op) = Some (e, h) ->
    exists m, h_mail (s_hist db) !! e = Some m /\ mail_recipient m = actor i /\ mail_class m = "user" /\ mail_hash m = h;
  ho_distinct k k' e h h' : s_inputs db !! k = Some (e, h) -> s_inputs db !! k' = Some (e, h') -> k = k'
}.

(** What a transaction keeps. *)
Record host_grows (db db' : StoreRows) : Prop := {
  hg_items : h_items (s_hist db) ⊆ h_items (s_hist db');
  hg_mail : mail_kept (s_hist db) (s_hist db');
  hg_inputs : s_inputs db ⊆ s_inputs db';
  hg_seeds : s_seeds db ⊆ s_seeds db';
  hg_commands : commands_move db db'
}.

#[local] Instance host_grows_preorder : PreOrder host_grows.
Proof. split; [intros db; by split|]. intros a b c [] []. split; by etrans. Qed.

Lemma kept_mail h h' e : mail_kept h h' -> is_Some (h_mail h !! e) -> is_Some (h_mail h' !! e).
Proof. intros [R _ _] [m Hm]. destruct (R _ _ Hm) as [d Hd]. by eexists. Qed.

Lemma inputs_kept db db' :
  host_ok db -> mail_kept (s_hist db) (s_hist db') -> forall i op e h, s_inputs db !! (i, op) = Some (e, h) ->
  exists m, h_mail (s_hist db') !! e = Some m /\ mail_recipient m = actor i /\ mail_class m = "user" /\ mail_hash m = h.
Proof.
  intros Hok Hk i op e h Hin. destruct (ho_inputs _ Hok _ _ _ _ Hin) as (m & Hm & Hrest). destruct (mk_rows _ _ Hk _ _ Hm) as [d Hd].
  eexists. split; [exact Hd|]. by destruct m.
Qed.

(** A transaction that admits no input. *)
Lemma quiet_ok db db' :
  host_ok db -> h_items (s_hist db) ⊆ h_items (s_hist db') -> mail_kept (s_hist db) (s_hist db') -> s_inputs db' = s_inputs db ->
  s_seeds db ⊆ s_seeds db' -> commands_move db db' -> host_grows db db' /\ host_ok db'.
Proof.
  intros Hok Hi Hm Ein Hs Hc. split; [split; try done; by rewrite Ein|]. split.
  - by eapply commands_move_ok, ho_commands.
  - by eapply commands_move_envelopes, ho_envelopes.
  - by eapply mail_kept_bounded, ho_mail.
  - intros i op e h. rewrite Ein. by eapply inputs_kept.
  - intros k k' e h h'. rewrite Ein. by eapply ho_distinct.
Qed.

(** A transaction that leaves commands and conversation alone. *)
Lemma frame_ok db db' :
  host_ok db -> s_hist db' = s_hist db -> s_inputs db' = s_inputs db -> s_seeds db' = s_seeds db -> s_commands db' = s_commands db ->
  host_grows db db' /\ host_ok db'.
Proof.
  intros Hok Eh Ei Es Ec. apply quiet_ok; rewrite ?Eh, ?Es; try done. apply same_commands; [done|]. unfold is_mail. by rewrite Eh.
Qed.

(** A command's own transaction. *)
Lemma command_step_ok db db' :
  host_ok db -> s_hist db' = s_hist db -> s_inputs db' = s_inputs db -> s_seeds db' = s_seeds db -> commands_move db db' ->
  host_grows db db' /\ host_ok db'.
Proof. intros Hok Eh Ei Es Hc. apply quiet_ok; rewrite ?Eh, ?Es; done. Qed.

(** The rows the operations on commands do not touch. *)
Definition frame (db : StoreRows) := (s_claims db, s_inputs db, s_seeds db).

Lemma frame_command db db' : host_ok db -> frame db' = frame db -> commands_move db db' -> host_grows db db' /\ host_ok db'.
Proof. unfold frame. intros Hok [= Ec Ei Es] Hm. apply command_step_ok; try done. unfold s_hist. by rewrite Ec. Qed.

Lemma settle_dispatching_frame db run_ op st r db' : settle_dispatching db run_ op st r = Some db' -> frame db' = frame db.
Proof. unfold settle_dispatching. repeat case_match; try done. by intros [= <-]. Qed.

Lemma recover_frame db run_ n db' : recover_embedded_command_claims db run_ = Ok (n, db') -> frame db' = frame db.
Proof.
  unfold recover_embedded_command_claims. intros Ho. inv_ok. injection Ho as _ <-.
  eapply (fold_result_inv _ (fun _ d => frame d = frame db)) with (past := []) in Hr; [exact Hr| |done].
  intros past d op d' Hd Ho. unfold recover_command in Ho. apply rbind_Ok in Ho as (r & _ & [= <-]). rewrite <- Hd.
  destruct (settle_dispatching _ _ _ _ _) eqn:Hset; [|done]. by eapply settle_dispatching_frame.
Qed.

Lemma command_steps_frame db db' :
  (exists op c r, enqueue_embedded_command db op c = Ok (r, db')) \/ (exists run_ op r, claim_embedded_command db run_ op = Ok (r, db')) \/
  (exists run_ op error r, record_embedded_command_wake_error db run_ op error = Ok (r, db')) \/
  (exists run_ op out r, settle_embedded_command db run_ op out = Ok (r, db')) \/
  (exists run_ op av co r, select_run_account db run_ op av co = Ok (r, db')) -> frame db' = frame db.
Proof.
  intros [(op & c & r & Ho)|[(run_ & op & r & Ho)|[(run_ & op & error & r & Ho)|[(run_ & op & out & r & Ho)|(run_ & op & av & co & r & Ho)]]]].
  - unfold enqueue_embedded_command in Ho. apply rbind_Ok in Ho as ([old|] & _ & Ho); inv_ok; by injection Ho as _ <-.
  - unfold claim_embedded_command in Ho. destruct (s_commands db !! _); [|by injection Ho as _ <-]. destruct (bool_decide _); inv_ok; by injection Ho as _ <-.
  - unfold record_embedded_command_wake_error in Ho. inv_ok. destruct (outcome _); try done. inv_ok. by injection Ho as _ <-.
  - unfold settle_embedded_command in Ho. inv_ok. destruct (rec_receipt _); inv_ok; injection Ho as _ <-; [done|by eapply settle_dispatching_frame].
  - unfold select_run_account in Ho. inv_ok. destruct (rec_command _); try done. destruct (rec_receipt _); [by injection Ho as _ <-|]. inv_ok.
    destruct (_ && _ && _); inv_ok; injection Ho as _ <-; by apply settle_dispatching_frame in Hr0.
Qed.

(** The admission of an input, and its own commitment to the gate. *)
Lemma admit_tx_ok db identity op sender item a db' :
  host_ok db -> admit_embedded_input_tx item_hash db identity op sender item = Ok (a, db') -> host_grows db db' /\ host_ok db'.
Proof.
  intros Hok Ha. destruct (admit_tx_mail _ _ _ _ _ _ _ _ Ha) as [_ Hmail]. apply admit_tx_spec in Ha as [_ Ha]. destruct a as [id|id].
  - destruct Ha as (Hnone & -> & Em & En & Hi & Edb). set (e := h_next_mail (s_hist db)) in *.
    assert (h_mail (s_hist db) !! e = None) as Hfree.
    { destruct (_ !! e) eqn:Hm; [|done]. assert (e < e) by (apply (ho_mail _ Hok); by eexists). lia. }
    assert (mail_kept (s_hist db) (s_hist db')) as Hk.
    { split; rewrite ?En, ?Em; [|lia|].
      - intros i m Hm. rewrite lookup_insert_ne by congruence. exists (mail_delivered m). by destruct m.
      - intros i [m [[<- _]|[_ Hm]]%lookup_insert_Some]; [right; subst e; lia|left; eauto]. }
    assert (s_inputs db' = <[(identity, op) := (e, item_hash item)]> (s_inputs db)) as Ein by (by rewrite Edb).
    assert (commands_move db db') as Hc by (apply same_commands; [by rewrite Edb|done]).
    split; [split; try done; [rewrite Ein; by apply insert_subseteq|by rewrite Edb]|]. split.
    + by eapply commands_move_ok, ho_commands.
    + by eapply commands_move_envelopes, ho_envelopes.
    + by eapply mail_kept_bounded, ho_mail.
    + intros i o e' h. rewrite Ein. intros [[Ek Ev]|[_ Hin]]%lookup_insert_Some; [|by eapply inputs_kept]. injection Ek as <- <-. injection Ev as <- <-.
      rewrite Em, lookup_insert_eq. eexists. split; [done|]. done.
    + assert (forall k h, s_inputs db !! k = Some (e, h) -> False) as Hno.
      { intros [i o] h Hin. destruct (ho_inputs _ Hok _ _ _ _ Hin) as (m & Hm & _). congruence. }
      intros k k' e' h h'. rewrite Ein. intros [[<- E1]|[_ H1]]%lookup_insert_Some [[<- E2]|[_ H2]]%lookup_insert_Some; [done|..|by eapply ho_distinct].
      * injection E1 as <- _. by apply Hno in H2.
      * injection E2 as <- _. by apply Hno in H1.
  - destruct Ha as (_ & _ & ->). apply quiet_ok; try done.
    + rewrite set_hist_hist. unfold put_item. simpl. destruct (h_items _ !! _) eqn:E; simpl; [done|by apply insert_subseteq].
    + rewrite set_hist_hist. by apply mails_kept, put_item_mails.
    + by apply same_commands.
Qed.

Lemma with_gate_ok db g : host_ok db -> host_grows db (with_gate db g) /\ host_ok (with_gate db g).
Proof. intros Hok. by apply frame_ok. Qed.

Lemma admit_input_ok db identity op sender item fresh e db' :
  host_ok db -> admit_embedded_input item_hash store_id db identity op sender item fresh = Ok (e, db') -> host_grows db db' /\ host_ok db'.
Proof.
  unfold admit_embedded_input. intros Hok Ho. inv_ok. destruct x as [a d1]. destruct (admit_tx_ok _ _ _ _ _ _ _ Hok Hr) as [G1 K1].
  destruct a; inv_ok; [|by injection Ho as _ <-]. destruct x as [out d2]. injection Ho as _ <-.
  apply continue_input_spec in Hr0 as (g & _ & ->). destruct (with_gate_ok d1 g K1) as [G2 K2]. split; [by etrans|done].
Qed.

Lemma command_input_ok db identity op text a db' :
  host_ok db -> admit_embedded_command_input item_hash store_id db identity op text = Ok (a, db') -> host_grows db db' /\ host_ok db'.
Proof.
  intros Hok Ha. pose proof (command_input_moves _ _ _ _ _ _ _ _ (ho_commands _ Hok) Ha) as Hm. apply command_input_spec in Ha as (row & _ & _ & Ha).
  destruct a as [r|r]; [|by destruct Ha as (_ & _ & ->)]. destruct Ha as (_ & adm & d1 & d2 & cont & Htx & Hcont & -> & ->).
  destruct (admit_tx_ok _ _ _ _ _ _ _ Hok Htx) as [G1 K1]. assert (host_grows d1 d2 /\ host_ok d2) as [G2 K2].
  { destruct adm; [|by destruct Hcont as [-> _]]. destruct Hcont as (out & (g & _ & ->)%continue_input_spec & _). by apply with_gate_ok. }
  assert (host_grows db d2) as [I M N S C] by (by etrans). split; [by split|]. split; [by eapply commands_move_ok, Hok|by eapply commands_move_envelopes, Hok|..]; apply K2.
Qed.

(** Items stay and the mail is left alone. *)
Definition stores (h h' : Hdb) : Prop := mails h' = mails h /\ h_items h ⊆ h_items h'.

#[local] Instance stores_preorder : PreOrder stores.
Proof. split; [done|]. intros a b c [M1 I1] [M2 I2]. split; [congruence|by etrans]. Qed.

Lemma put_item_stores h item : stores h (put_item item_hash h item).2.
Proof. split; [apply put_item_mails|]. unfold put_item. simpl. destruct (h_items h !! _) eqn:E; simpl; [done|by apply insert_subseteq]. Qed.

Lemma insert_row_stores h r p row h' : insert_row h r p row = Ok h' -> stores h h'.
Proof. intros Ho. split; [by eapply insert_row_mails|]. unfold insert_row, unique_key, foreign_key in Ho. repeat (case_match; [done|]). by injection Ho as <-. Qed.

Lemma insert_request_stores h id parent b h' : insert_request h id parent b = Ok h' -> stores h h'.
Proof.
  intros Ho. split; [by eapply insert_request_mails|]. unfold insert_request, unique_key, foreign_key in Ho.
  repeat case_match; try done; by injection Ho as <-.
Qed.

Lemma publish_item_stores h r p hash item e : stores h (publish_item h r p hash item e).
Proof. split; [apply publish_item_mails|]. unfold publish_item. by destruct (is_configuration_update item). Qed.

Lemma seed_items_stores r l acc acc' : fold_result (seed_item item_hash r) acc l = Ok acc' -> stores acc.2 acc'.2.
Proof.
  intros Hf. eapply (fold_result_inv _ (fun _ a => stores acc.2 a.2) l) with (past := []) in Hf; [exact Hf| |done].
  intros past [p h] x [p' h'] E1 Hop. cbn [snd] in E1 |- *. etrans; [exact E1|]. unfold seed_item in Hop.
  pose proof (put_item_stores h x.1) as E2. destruct (put_item item_hash h x.1) as [hh h2]. apply rbind_Ok in Hop as (h3 & Hi & [= _ <-]).
  etrans; [exact E2|]. by eapply insert_row_stores.
Qed.

Lemma append_authored_stores r l acc acc' : fold_result (append_authored item_hash r) acc l = Ok acc' -> stores acc.2 acc'.2.
Proof.
  intros Hf. eapply (fold_result_inv _ (fun _ a => stores acc.2 a.2) l) with (past := []) in Hf; [exact Hf| |done].
  intros past [[hs p] h] item [[hs' p'] h'] E1 Hop. cbn [snd] in E1 |- *. etrans; [exact E1|]. unfold append_authored in Hop.
  apply rbind_Ok in Hop as (u & _ & Hop). pose proof (put_item_stores h item) as E2. destruct (put_item item_hash h item) as [hh h2].
  apply rbind_Ok in Hop as (h3 & Hi & [= _ _ <-]). etrans; [exact E2|]. etrans; [by eapply insert_row_stores|]. apply publish_item_stores.
Qed.

Lemma stores_ok db db' :
  host_ok db -> stores (s_hist db) (s_hist db') -> s_inputs db' = s_inputs db -> s_seeds db ⊆ s_seeds db' -> s_commands db' = s_commands db ->
  host_grows db db' /\ host_ok db'.
Proof.
  intros Hok [Hm Hi] Ei Es Ec. apply quiet_ok; try done; [by apply mails_kept|]. apply same_commands; [done|]. unfold is_mail.
  injection Hm as -> _. done.
Qed.

Lemma swap_head_rows db path expected current b db' :
  swap_head db path expected current = Ok (b, db') -> db' = db <| s_agents := s_agents db' |>.
Proof. unfold swap_head, foreign_key. intros Ho. repeat case_match; try done; injection Ho as _ <-; by destruct db. Qed.

Lemma seed_ok db identity op manifest items fresh r db' :
  host_ok db -> seed_embedded_context_items item_hash reference_of db identity op manifest items fresh = Ok (r, db') -> host_grows db db' /\ host_ok db'.
Proof.
  unfold seed_embedded_context_items. intros Hok Ho. inv_ok. pose proof (put_item_stores (s_hist db) manifest) as S1.
  destruct (put_item item_hash (s_hist db) manifest) as [hash h1]. cbn [snd] in S1.
  change (s_seeds (set_hist db h1)) with (s_seeds db) in Ho. destruct (s_seeds db !! _) as [[q prev]|] eqn:Es; inv_ok.
  - injection Ho as _ <-. by apply stores_ok.
  - apply map_err_Ok in Hr1, Hr2. destruct x2 as [p h3]. cbn beta iota in Ho. inv_ok. destruct x2 as [b d]. inv_ok. injection Ho as _ <-.
    apply map_err_Ok in Hr3. pose proof (swap_head_rows _ _ _ _ _ _ Hr3) as Ed.
    apply stores_ok; [done| | | |]; try (by rewrite Ed).
    + change (stores (s_hist db) (s_hist d)). rewrite Ed. etrans; [exact S1|]. etrans; [by eapply insert_request_stores|]. by apply seed_items_stores in Hr2.
    + upd_simpl. rewrite Ed. by apply insert_subseteq.
Qed.

Lemma write_request_ok db identity request parent items db' :
  host_ok db -> write_embedded_request item_hash db identity request parent items = Ok db' -> host_grows db db' /\ host_ok db'.
Proof.
  unfold write_embedded_request. intros Hok Ho. inv_ok. destruct x1 as [[hs p] h]. injection Ho as <-. apply stores_ok; try done.
  change (stores (s_hist db) h). etrans; [by eapply insert_request_stores|]. by apply append_authored_stores in Hr1.
Qed.

Lemma bind_ok db identity parent authority db' :
  host_ok db -> bind_embedded_actor_authorized db identity parent authority = Ok db' -> host_grows db db' /\ host_ok db'.
Proof.
  unfold bind_embedded_actor_authorized. intros Hok Ho. inv_ok. destruct (s_bindings db !! _); inv_ok; [by subst|]. subst db'.
  assert (exists agents_, x1 = db <| s_agents := agents_ |>) as [agents_ ->].
  { destruct (s_agents db !! _); inv_ok; [subst; exists (s_agents x1); by destruct x1|]. apply map_err_Ok in Hr1.
    unfold insert_agent, unique_key, foreign_key in Hr1. repeat (case_match; [done|]). injection Hr1 as <-. by eexists. }
  by apply frame_ok.
Qed.

Lemma transfer_ok db predecessor successor authority r db' :
  host_ok db -> transfer_embedded_binding parse_url loopback_ip instant_admits db predecessor successor authority = Ok (r, db') ->
  host_grows db db' /\ host_ok db'.
Proof.
  unfold transfer_embedded_binding, transfer_embedded_state. intros Hok Ho. inv_ok. destruct (bound db successor); [by injection Ho as _ <-|].
  destruct (bound db predecessor); [|done]. inv_ok. apply map_err_Ok in Hr0. inv_ok. subst. injection Ho as _ <-. by apply frame_ok.
Qed.

Lemma host_step_ok db db' : host_step db db' -> host_ok db -> host_grows db db' /\ host_ok db'.
Proof.
  intros Hs Hok. pose proof (ho_commands _ Hok) as Hc.
  destruct Hs as [c a i G ->|identity state ->|g Ha ->|identity op r Ha G Ei Es|identity parent au Ho|p s au r Ho|identity op m items f r Ho|identity q pa items Ho
    |op c r Ho|run_ op r Ho|run_ n Ho|run_ op er r Ho|run_ op out r Ho|run_ l r Ho|run_ op av co r Ho|identity op se item f e Ho|identity op text a Ho].
  - destruct G as [Gi Gm _]. specialize (Gm (ho_mail _ Hok)). apply quiet_ok; try done. apply same_commands; [done|]. intros e. by apply kept_mail.
  - by apply frame_ok.
  - by apply with_gate_ok.
  - destruct G as [Gi Gm _]. specialize (Gm (ho_mail _ Hok)). apply quiet_ok; try done; [by rewrite Es|].
    eapply authorize_command_moves; [done| |exact Ha]. intros e. by apply kept_mail.
  - by eapply bind_ok.
  - by eapply transfer_ok.
  - by eapply seed_ok.
  - by eapply write_request_ok.
  - apply frame_command; [done|apply command_steps_frame; eauto 10|by eapply enqueue_moves].
  - apply frame_command; [done|apply command_steps_frame; eauto 10|by eapply claim_moves].
  - apply frame_command; [done|by eapply recover_frame|by eapply recover_commands_moves].
  - apply frame_command; [done|apply command_steps_frame; eauto 10|by eapply wake_moves].
  - apply frame_command; [done|apply command_steps_frame; eauto 10|by eapply settle_command_moves].
  - unfold initialize_run_account in Ho. inv_ok. injection Ho as _ <-. destruct (s_accounts db !! run_); by apply frame_ok.
  - apply frame_command; [done|apply command_steps_frame; eauto 20|by eapply select_moves].
  - by eapply admit_input_ok.
  - by eapply command_input_ok.
Qed.

Abbreviation host_steps := (rtc host_step).

Lemma host_steps_ok db db' : host_steps db db' -> host_ok db -> host_grows db db' /\ host_ok db'.
Proof.
  induction 1 as [db|a b c Hs _ IH]; intros Hok; [done|]. destruct (host_step_ok _ _ Hs Hok) as [G1 K1]. destruct (IH K1) as [G2 K2]. split; [by etrans|done].
Qed.

(** A Store without commands, inputs and mail. *)
Definition host_fresh (db : StoreRows) : Prop := s_commands db = ∅ /\ s_inputs db = ∅ /\ h_mail (s_hist db) = ∅.

Lemma fresh_ok db : host_fresh db -> host_ok db.
Proof.
  intros (E1 & E2 & E3). split.
  - intros k row. by rewrite E1, lookup_empty.
  - intros k row e. by rewrite E1, lookup_empty.
  - intros id [m Hm]. by rewrite E3, lookup_empty in Hm.
  - intros i op e h. by rewrite E2, lookup_empty.
  - intros k k' e h h'. by rewrite E2, lookup_empty.
Qed.

(** ** Commands *)

Lemma read_total db run_ op row :
  host_ok db -> s_commands db !! (run_, op) = Some row ->
  exists r, read_command db run_ op = Ok (Some r) /\ rec_command r = command row /\ rec_state r = command_state row /\ rec_receipt r = receipt row.
Proof.
  intros Hok Hrow. unfold read_command, observed_input. rewrite Hrow. destruct (command_envelope row) as [e|] eqn:He.
  - destruct (ho_envelopes _ Hok _ _ _ Hrow He) as [m Hm]. rewrite Hm. cbn [ok_or rbind]. by eexists.
  - cbn [rbind]. by eexists.
Qed.

(** C10. The Store carries out the life of a command. Over any transactions of
    any component a command moves only by its machine: it is queued, claimed, and settled
    once, by a receipt that fits it; an admitted input names a real envelope; and a
    retained command can always be read. *)
Theorem commands_refine db0 db db' run_ op :
  host_fresh db0 -> host_steps db0 db -> host_steps db db' ->
  command_moves (run_, op) (s_commands db !! (run_, op)) (s_commands db' !! (run_, op)) /\
  forall row, s_commands db' !! (run_, op) = Some row ->
    command_ok (run_, op) row /\ (forall e, command_envelope row = Some e -> is_mail db' e) /\
    exists r, read_command db' run_ op = Ok (Some r) /\ rec_command r = command row /\ rec_state r = command_state row /\ rec_receipt r = receipt row.
Proof.
  intros Hf H1 H2. destruct (host_steps_ok _ _ H1 (fresh_ok _ Hf)) as [_ K1]. destruct (host_steps_ok _ _ H2 K1) as [G2 K2].
  split; [apply (cm_moves _ _ (hg_commands _ _ G2))|]. intros row Hrow. split_and!.
  - by apply (ho_commands _ K2).
  - intros e. by eapply ho_envelopes.
  - by apply read_total.
Qed.

Lemma command_persists db db' run_ op row :
  host_ok db -> host_steps db db' -> s_commands db !! (run_, op) = Some row ->
  exists row', s_commands db' !! (run_, op) = Some row' /\ command_later row row'.
Proof.
  intros Hok Hs Hrow. destruct (host_steps_ok _ _ Hs Hok) as [G _].
  apply (moves_ok _ _ _ (cm_moves _ _ (hg_commands _ _ G) (run_, op))); [|done]. intros row0 Hrow0. by apply (ho_commands _ Hok).
Qed.

Lemma claim_spec db run_ op r db1 :
  claim_embedded_command db run_ op = Ok (Some r, db1) ->
  exists row, s_commands db1 !! (run_, op) = Some row /\ command_state row = CmdDispatching /\ command row = rec_command r.
Proof.
  unfold claim_embedded_command. destruct (s_commands db !! _) as [row|] eqn:Hrow; [|done]. destruct (bool_decide _); [|done]. intros Ho.
  apply rbind_Ok in Ho as (rec & Hreq & [= <- <-]). apply require_command_row in Hreq as (row' & Hrow' & -> & _).
  exists row'. split_and!; [done| |done]. unfold put_command in Hrow'. upd_simpl. rewrite lookup_insert_eq in Hrow'. by injection Hrow' as <-.
Qed.

(** C2. A command is handed to the host at most once. After it was claimed no
    later claim succeeds, whatever happened in between; sending it again
    returns what was retained, sending another under its name is refused, both
    without effect; and a receipt once given stays, up to a note that the
    actor could not be woken. *)
Theorem command_once db0 db run_ op r db1 db2 :
  host_fresh db0 -> host_steps db0 db -> claim_embedded_command db run_ op = Ok (Some r, db1) -> host_steps db1 db2 ->
  claim_embedded_command db2 run_ op = Ok (None, db2) /\
  (forall c, run (command_target c) = run_ ->
    if bool_decide (c = rec_command r) then exists r', enqueue_embedded_command db2 op c = Ok (r', db2) /\ rec_command r' = c
    else enqueue_embedded_command db2 op c = Err ConflictingCommand) /\
  forall row rc db3, s_commands db2 !! (run_, op) = Some row -> receipt row = Some rc -> host_steps db2 db3 ->
    exists row' rc', s_commands db3 !! (run_, op) = Some row' /\ command_state row' = command_state row /\
      receipt row' = Some rc' /\ without_wake rc' = without_wake rc.
Proof.
  intros Hf H1 Hcl H2. destruct (host_steps_ok _ _ H1 (fresh_ok _ Hf)) as [_ K]. destruct (host_step_ok _ _ (host_claim _ _ _ _ _ Hcl) K) as [_ K1].
  destruct (host_steps_ok _ _ H2 K1) as [_ K2]. apply claim_spec in Hcl as (row1 & Hrow1 & Hs1 & Hc1).
  destruct (command_persists _ _ _ _ _ K1 H2 Hrow1) as (row2 & Hrow2 & Ec & _ & Hq & _). split_and!.
  - unfold claim_embedded_command. rewrite Hrow2, bool_decide_eq_false_2; [done|]. apply Hq. by rewrite Hs1.
  - intros c Hrun. unfold enqueue_embedded_command. rewrite Hrun. destruct (read_total _ _ _ _ K2 Hrow2) as (r2 & -> & E2 & _).
    cbn [rbind]. rewrite E2, Ec, Hc1. case_bool_decide as E; case_bool_decide as E'; simpl; try congruence. exists r2. split; [done|congruence].
  - intros row rc db3 Hrow Hrc H3. destruct (command_persists _ _ _ _ _ K2 H3 Hrow) as (row3 & Hrow3 & _ & _ & _ & L).
    destruct (L _ Hrc) as (Es & _ & rc' & Hrc' & Ew). by exists row3, rc'.
Qed.

(** ** Inputs *)

Lemma put_item_known h item : h_items h !! item_hash item = Some item -> put_item item_hash h item = (item_hash item, h).
Proof. unfold put_item. by intros ->. Qed.

Lemma set_hist_id db : set_hist db (s_hist db) = db.
Proof. by destruct db as [[] ? ? ? ? ? ? ? ? ? ?]. Qed.

(** A retained input answers every later attempt. *)
Lemma input_again db identity op sender item e m :
  bound db identity = true -> s_inputs db !! (identity, op) = Some (e, item_hash item) -> h_mail (s_hist db) !! e = Some m -> mail_sender m = sender ->
  op <> "" -> (forall item' sender' fresh, (item_hash item', sender') <> (item_hash item, sender) ->
    admit_embedded_input item_hash store_id db identity op sender' item' fresh = Err ConflictingInput) /\
  (h_items (s_hist db) !! item_hash item = Some item -> forall fresh, admit_embedded_input item_hash store_id db identity op sender item fresh = Ok (e, db)).
Proof.
  intros Hb Hin Hm Hse Hop. unfold admit_embedded_input, admit_embedded_input_tx. rewrite (bool_decide_eq_false_2 (op = "")), Hb by done. split.
  - intros item' sender' fresh Hne. pose proof (put_item_mail item_hash (s_hist db) item') as Em.
    assert ((put_item item_hash (s_hist db) item').1 = item_hash item') as Eh by done. destruct (put_item item_hash (s_hist db) item') as [hh h1]. cbn [fst snd] in *.
    change (s_inputs (set_hist db h1)) with (s_inputs db). rewrite Hin. cbn [mbind option_bind fst]. rewrite set_hist_hist, Em, Hm. cbn [mbind option_bind].
    subst hh. rewrite Hse. destruct (negb _ || _) eqn:E; [done|]. exfalso. apply Hne. apply orb_false_elim in E as [E1 E2].
    apply negb_false_iff, bool_decide_eq_true in E1, E2. congruence.
  - intros Hi fresh. rewrite put_item_known by done. rewrite set_hist_id, Hin. cbn [mbind option_bind fst]. rewrite Hm. cbn [mbind option_bind].
    rewrite Hse, !bool_decide_eq_true_2 by done. done.
Qed.

Lemma admitted_input db identity op sender item fresh e db' :
  host_ok db -> admit_embedded_input item_hash store_id db identity op sender item fresh = Ok (e, db') ->
  op <> "" /\ s_inputs db' !! (identity, op) = Some (e, item_hash item) /\ exists m, h_mail (s_hist db') !! e = Some m /\ mail_sender m = sender.
Proof.
  unfold admit_embedded_input. intros Hok Ho. inv_ok. destruct x as [a d1]. split; [by apply bool_decide_eq_false in Hg|].
  apply admit_tx_spec in Hr as [_ Ha]. destruct a as [id|id]; inv_ok.
  - destruct x as [out d2]. injection Ho as <- <-. apply continue_input_spec in Hr as (g & _ & ->). destruct Ha as (_ & _ & Em & _ & _ & Ed).
    split; [change (s_inputs d1 !! (identity, op) = Some (id, item_hash item)); rewrite Ed; apply lookup_insert_eq|].
    change (exists m, h_mail (s_hist d1) !! id = Some m /\ mail_sender m = sender). rewrite Em, lookup_insert_eq. by eexists.
  - injection Ho as <- <-. destruct Ha as (Hin & Hm & ->). split; [done|]. by rewrite set_hist_hist, put_item_mail.
Qed.

(** C12. An input is one envelope. Once admitted it stays in its actor's mailbox
    under its operation, as the text and sender it came with and as nobody
    else's input; while the host is bound, sending it again returns the same
    envelope and changes nothing, and sending anything else under its
    operation is refused. *)
Theorem input_once db0 db identity op sender item fresh e db1 db2 :
  host_fresh db0 -> host_steps db0 db -> admit_embedded_input item_hash store_id db identity op sender item fresh = Ok (e, db1) -> host_steps db1 db2 ->
  (exists m, h_mail (s_hist db2) !! e = Some m /\ mail_recipient m = actor identity /\ mail_sender m = sender /\ mail_hash m = item_hash item /\
    embedded_input_state db2 identity op = Ok match mail_delivered m with None => InputAdmitted | Some q => InputIncluded q end) /\
  (forall k h, s_inputs db2 !! k = Some (e, h) -> k = (identity, op)) /\
  (bound db2 identity = true ->
    (forall item' sender' fresh', (item_hash item', sender') <> (item_hash item, sender) ->
      admit_embedded_input item_hash store_id db2 identity op sender' item' fresh' = Err ConflictingInput) /\
    (h_items (s_hist db2) !! item_hash item = Some item ->
      forall fresh', admit_embedded_input item_hash store_id db2 identity op sender item fresh' = Ok (e, db2))).
Proof.
  intros Hf H1 Ho H2. destruct (host_steps_ok _ _ H1 (fresh_ok _ Hf)) as [_ K]. destruct (admit_input_ok _ _ _ _ _ _ _ _ K Ho) as [_ K1].
  destruct (admitted_input _ _ _ _ _ _ _ _ K Ho) as (Hop & Hin & m1 & Hm1 & Hse1). destruct (host_steps_ok _ _ H2 K1) as [G2 K2].
  pose proof (lookup_weaken _ _ _ _ Hin (hg_inputs _ _ G2)) as Hin2. destruct (ho_inputs _ K2 _ _ _ _ Hin2) as (m2 & Hm2 & Hrec & _ & Hh).
  assert (mail_sender m2 = sender) as Hse2.
  { destruct (mk_rows _ _ (hg_mail _ _ G2) _ _ Hm1) as [d Hd]. rewrite Hm2 in Hd. injection Hd as ->. by destruct m1. }
  split_and!.
  - exists m2. split_and!; try done. unfold embedded_input_state. by rewrite Hin2, Hm2, bool_decide_eq_true_2.
  - intros k h Hk. by eapply ho_distinct.
  - intros Hb. by eapply input_again.
Qed.

(** ** Inference admission in the whole Store *)

Definition gate_tables (db : StoreRows) := (s_inference db, s_retries db).

Lemma other_step db db' : gate_tables db' = gate_tables db -> rtc (store_step store_id) (gate_db db) (gate_db db').
Proof. intros [= E1 E2]. by apply rtc_once, step_other. Qed.

Lemma admit_tx_tables db identity op sender item a db' :
  admit_embedded_input_tx item_hash db identity op sender item = Ok (a, db') -> gate_tables db' = gate_tables db.
Proof. intros [_ Ha]%admit_tx_spec. destruct a; [destruct Ha as (_ & _ & _ & _ & _ & ->)|destruct Ha as (_ & _ & ->)]; done. Qed.

Lemma continue_gate db identity e op out db' :
  continue_input store_id db identity e op = Ok (out, db') -> rtc (store_step store_id) (gate_db db) (gate_db db').
Proof.
  intros (g & Hg & ->)%continue_input_spec. rewrite gate_with by (by eapply admit_input_rest). by eapply rtc_once, step_admit.
Qed.

Lemma settle_dispatching_tables db run_ op st r db' : settle_dispatching db run_ op st r = Some db' -> gate_tables db' = gate_tables db.
Proof. unfold settle_dispatching. repeat case_match; try done. by intros [= <-]. Qed.

(** Every transaction is, for the gate, one of its own or none of its business. *)
Lemma host_step_gate db db' : host_step db db' -> rtc (store_step store_id) (gate_db db) (gate_db db').
Proof.
  intros [c a i G ->|identity state ->|g Ha ->|identity op r Ha G Ei Es|identity parent au Ho|p s au r Ho|identity op m items f r Ho|identity q pa items Ho
    |op c r Ho|run_ op r Ho|run_ n Ho|run_ op er r Ho|run_ op out r Ho|run_ l r Ho|run_ op av co r Ho|identity op se item f e Ho|identity op text a Ho].
  - by apply other_step.
  - by apply other_step.
  - rewrite gate_with by (by eapply admission_rest). by apply rtc_once, admission_store_step.
  - by eapply rtc_once, step_authorize.
  - apply other_step. unfold bind_embedded_actor_authorized in Ho. inv_ok. destruct (s_bindings db !! _); inv_ok; subst; [done|].
    destruct (s_agents db !! _); inv_ok; [by subst|]. apply map_err_Ok in Hr1. unfold insert_agent, unique_key, foreign_key in Hr1.
    repeat (case_match; [done|]). by injection Hr1 as <-.
  - apply other_step. unfold transfer_embedded_binding, transfer_embedded_state in Ho. inv_ok. destruct (bound db s); [by injection Ho as _ <-|].
    destruct (bound db p); [|done]. inv_ok. apply map_err_Ok in Hr0. inv_ok. subst. by injection Ho as _ <-.
  - apply other_step. unfold seed_embedded_context_items in Ho. inv_ok. destruct (put_item item_hash (s_hist db) m) as [hash h1].
    change (s_seeds (set_hist db h1)) with (s_seeds db) in Ho. destruct (s_seeds db !! _) as [[q prev]|]; inv_ok; [by injection Ho as _ <-|].
    destruct x2 as [p h3]. cbn beta iota in Ho. inv_ok. destruct x2 as [b d]. inv_ok. injection Ho as _ <-. apply map_err_Ok, swap_head_rows in Hr3. by rewrite Hr3.
  - apply other_step. unfold write_embedded_request in Ho. inv_ok. destruct x1 as [[hs p] h]. by injection Ho as <-.
  - apply other_step. unfold enqueue_embedded_command in Ho. apply rbind_Ok in Ho as ([old|] & _ & Ho); inv_ok; by injection Ho as _ <-.
  - apply other_step. unfold claim_embedded_command in Ho. destruct (s_commands db !! _); [|by injection Ho as _ <-].
    destruct (bool_decide _); inv_ok; by injection Ho as _ <-.
  - apply other_step. unfold recover_embedded_command_claims in Ho. inv_ok. injection Ho as _ <-.
    eapply (fold_result_inv _ (fun _ d => gate_tables d = gate_tables db)) with (past := []) in Hr; [exact Hr| |done].
    intros past d op d' Hd Ho. unfold recover_command in Ho. apply rbind_Ok in Ho as (r & _ & [= <-]). rewrite <- Hd.
    destruct (settle_dispatching _ _ _ _ _) eqn:Hset; [|done]. by eapply settle_dispatching_tables.
  - apply other_step. unfold record_embedded_command_wake_error in Ho. inv_ok. destruct (outcome _); try done. inv_ok. by injection Ho as _ <-.
  - apply other_step. unfold settle_embedded_command in Ho. inv_ok. destruct (rec_receipt _); inv_ok; injection Ho as _ <-; [done|].
    by eapply settle_dispatching_tables.
  - apply other_step. unfold initialize_run_account in Ho. inv_ok. injection Ho as _ <-. by destruct (s_accounts db !! run_).
  - apply other_step. unfold select_run_account in Ho. inv_ok. destruct (rec_command _); try done. destruct (rec_receipt _); [by injection Ho as _ <-|]. inv_ok.
    destruct (_ && _ && _); inv_ok; injection Ho as _ <-; by apply settle_dispatching_tables in Hr0.
  - unfold admit_embedded_input in Ho. inv_ok. destruct x as [a d1]. apply admit_tx_tables in Hr. etrans; [by apply other_step|].
    destruct a; inv_ok; [|by injection Ho as _ <-]. destruct x as [out d2]. injection Ho as _ <-. by eapply continue_gate.
  - apply command_input_spec in Ho as (row & _ & _ & Ha). destruct a as [r|r]; [|by destruct Ha as (_ & _ & ->)].
    destruct Ha as (_ & adm & d1 & d2 & cont & Htx%admit_tx_tables & Hcont & -> & ->). etrans; [by apply other_step|]. trans (gate_db d2); [|by apply other_step].
    destruct adm; [destruct Hcont as (out & Hcont & _); by eapply continue_gate|by destruct Hcont as [-> _]].
Qed.

(** C11. What inference admission guarantees holds in the whole Store: while every component commits its transactions,
    an actor's gate still moves only by the steps of the abstract machine, and the budget of automatic
    retries is kept; admitting an input grants a continuation in the transaction that stores its envelope. *)
Theorem admission_composed db db' k :
  host_steps db db' -> budget (gate_db db) ->
  gate_steps (s_inference db !! k) (s_inference db' !! k) /\ budget (gate_db db').
Proof.
  intros Hs Hb. assert (rtc (store_step store_id) (gate_db db) (gate_db db')) as Hg.
  { clear Hb. induction Hs as [db|a b c Hab _ IH]; [done|]. etrans; [by apply host_step_gate|exact IH]. }
  destruct (store_steps_refine _ _ _ Hg Hb) as [Hk Hb']. split; [apply (Hk k)|auto].
Qed.
End host_steps.

(** ** Witnesses *)

#[local] Existing Instance plain_owner.

Definition store_empty : StoreRows :=
  {| s_claims := {| k_hist := Hdb_empty; k_bindings := ∅; k_claims := []; k_owners := ∅ |}; s_agents := ∅; s_interrupted := ∅; s_inference := ∅;
     s_retries := ∅; s_intents := ∅; s_commands := ∅; s_inputs := ∅; s_seeds := ∅; s_contexts := ∅; s_accounts := ∅ |}.

Definition root_host : HostIdentity := {| run := "r"; actor := "/root"; incarnation := "i" |}.

Definition get_ok {E A} (d : A) (r : result E A) : A := match r with Ok a => a | Err _ => d end.

(** Bound; then a command queued, claimed and admitted. *)
Definition toy_host : StoreRows := get_ok store_empty (bind_embedded_actor store_empty root_host None).
Definition toy_command : HostCommand := Input root_host "hi".
Definition toy_queued_host : StoreRows := (get_ok ({| rec_operation := ""; rec_command := toy_command; rec_state := CmdQueued; rec_envelope := None; rec_receipt := None; rec_observation := None |}, store_empty)
  (enqueue_embedded_command toy_host "op" toy_command)).2.
Definition toy_claimed_host : StoreRows := (get_ok (None, store_empty) (claim_embedded_command toy_queued_host "r" "op")).2.
Definition toy_admitted_host : StoreRows :=
  (get_ok (RetainedCommandInput {| command_id := ""; outcome := CommandRefused None "" |}, store_empty)
    (admit_embedded_command_input toy_type_hash "s" toy_claimed_host root_host "op" "hi")).2.

Abbreviation toy_step := (host_step toy_type_hash "s" (fun _ => "") (fun _ => None) (fun _ => false) (fun _ => true)).

Lemma toy_bound_run : rtc toy_step store_empty toy_host.
Proof. apply rtc_once. eapply (host_bind _ _ _ _ _ _ _ _ root_host None None). vm_compute. reflexivity. Qed.

Lemma toy_queued_run : rtc toy_step store_empty toy_queued_host.
Proof. eapply rtc_r; [exact toy_bound_run|]. eapply (host_enqueue _ _ _ _ _ _ _ _ "op" toy_command). vm_compute. reflexivity. Qed.

Lemma toy_admitted_run : rtc toy_step toy_claimed_host toy_admitted_host.
Proof. apply rtc_once. eapply (host_command_input _ _ _ _ _ _ _ _ root_host "op" "hi"). vm_compute. reflexivity. Qed.

Lemma store_empty_fresh : host_fresh store_empty.
Proof. done. Qed.

Lemma commands_refine_witness :
  exists r, read_command toy_admitted_host "r" "op" = Ok (Some r) /\ rec_state r = CmdInputAdmitted /\ rec_observation r = Some ObservedAdmitted.
Proof.
  destruct (commands_refine toy_type_hash "s" (fun _ => "") (fun _ => None) (fun _ => false) (fun _ => true) store_empty toy_claimed_host toy_admitted_host "r" "op" store_empty_fresh)
    as [_ Hrow]; [|exact toy_admitted_run|].
  - eapply rtc_r; [exact toy_queued_run|]. eapply (host_claim _ _ _ _ _ _ _ _ "r" "op"). vm_compute. reflexivity.
  - destruct (s_commands toy_admitted_host !! ("r", "op")) as [row|] eqn:E; [|vm_compute in E; discriminate].
    destruct (Hrow row eq_refl) as (_ & _ & r & Hr & _). exists r. split; [exact Hr|]. vm_compute in Hr. injection Hr as <-. by split.
Defined.

Lemma command_once_witness : claim_embedded_command toy_admitted_host "r" "op" = Ok (None, toy_admitted_host).
Proof.
  destruct (claim_embedded_command toy_queued_host "r" "op") as [[[rec|] d]|] eqn:E; [|vm_compute in E; discriminate..].
  assert (d = toy_claimed_host) as -> by (unfold toy_claimed_host; by rewrite E).
  destruct (command_once toy_type_hash "s" (fun _ => "") (fun _ => None) (fun _ => false) (fun _ => true) store_empty toy_queued_host "r" "op" rec toy_claimed_host toy_admitted_host
    store_empty_fresh toy_queued_run E toy_admitted_run) as [Hclaim _]. exact Hclaim.
Defined.

Lemma input_once_witness : exists db1,
  admit_embedded_input toy_type_hash "s" toy_host root_host "in" "operator" (user_text "hi") "f" = Ok (1, db1) /\
  admit_embedded_input toy_type_hash "s" db1 root_host "in" "operator" (user_text "hi") "g" = Ok (1, db1).
Proof.
  destruct (admit_embedded_input toy_type_hash "s" toy_host root_host "in" "operator" (user_text "hi") "f") as [[e db1]|] eqn:E; [|vm_compute in E; discriminate].
  pose proof E as E'. vm_compute in E'. injection E' as <- Edb. exists db1. split; [done|].
  destruct (input_once toy_type_hash "s" (fun _ => "") (fun _ => None) (fun _ => false) (fun _ => true) store_empty toy_host root_host "in" "operator" (user_text "hi") "f" 1 db1 db1
    store_empty_fresh toy_bound_run E (rtc_refl _ _)) as (_ & _ & Hagain). apply Hagain; rewrite <- Edb; vm_compute; reflexivity.
Defined.

Lemma admission_composed_witness :
  gate_steps None (s_inference toy_admitted_host !! ("r", "/root")) /\ s_inference toy_admitted_host !! ("r", "/root") = Some (0, Idle).
Proof.
  split; [|vm_compute; reflexivity].
  destruct (admission_composed toy_type_hash "s" (fun _ => "") (fun _ => None) (fun _ => false) (fun _ => true) toy_claimed_host toy_admitted_host ("r", "/root") toy_admitted_run)
    as [Hg _]; [|exact Hg]. by apply no_retries.
Defined.
