(* ===== verification/HostBinding.v ===== *)
(** Bindings and seeds over the transactions of [HostClaims]: what a successor
    inherits and its predecessor loses, and that the first context of a
    conversation reads back. *)

From S2P Require Import Prelude Json SchemaModel Requests Agents Redaction Usage Observation Sse Failure StoreDb InferenceGate GateRefinement GateClaims Admission Jobs Lists Item ContextPatch ContextText HistoryDb HistoryOps HistoryProofs HistoryClaims Claims HostDb HostCommands HostClaims.

Section binding.
Context `{ProjectionOwner}.
Variable item_hash : value -> string.
Variable store_id : string.
Variable reference_of : list Origin -> ContextReference.
Variable parse_url : string -> option Url.
Variable loopback_ip : string -> bool.
Variable instant_admits : Z -> bool.

Abbreviation state_of := (context_state parse_url loopback_ip instant_admits).
Abbreviation transfer := (transfer_embedded_binding parse_url loopback_ip instant_admits).
Abbreviation host_steps := (rtc (host_step item_hash store_id reference_of parse_url loopback_ip instant_admits)).

(** ** Succession *)

Lemma state_saved db identity state : state_of db identity = Ok state ->
  forall db' identity', s_contexts db' !! identity' = Some (3, state) -> state_of db' identity' = Ok state.
Proof.
  intros Hst db' identity' Hl. unfold context_state in *. rewrite Hl. rewrite (bool_decide_eq_true_2 (3 ∈ [1; 2; 3])) by set_solver. cbn [negb].
  change (3 =? 3) with true. cbn [negb andb]. destruct (s_contexts db !! identity) as [[v st]|]; [|by injection Hst as <-].
  destruct (negb (bool_decide (v ∈ _))); [done|]. apply rbind_Ok in Hst as (u & Hn & Hst).
  destruct (negb (v =? 3) && _); [done|]. injection Hst as <-. by rewrite Hn.
Qed.

Lemma transfer_inv db p s authority db' :
  transfer db p s authority = Ok (Installed, db') ->
  run p = run s /\ actor p = actor s /\ incarnation p <> incarnation s /\ bound db p = true /\
  exists state, state_of db (embedded_identity p) = Ok state /\
    db' = db <| s_contexts := delete (embedded_identity p) (<[embedded_identity s := (3, state)]> (s_contexts db)) |>
             <| s_claims ::= (fun c => c <| k_bindings ::= <[actor p := (run p, incarnation s)]> |>) |>.
Proof.
  unfold transfer_embedded_binding, transfer_embedded_state. intros Ho. inv_ok.
  rewrite !orb_false_iff in Hg. destruct Hg as ((((_ & _) & Hr1) & Hr2) & Hr3). apply negb_false_iff, bool_decide_eq_true in Hr1, Hr2.
  apply bool_decide_eq_false in Hr3. destruct (bound db s); [done|]. destruct (bound db p); [|done]. inv_ok. apply map_err_Ok in Hr0. inv_ok. subst.
  injection Ho as <-. split_and!; try done. eexists. split; [done|]. done.
Qed.

Lemma bound_iff db identity : bound db identity = true <-> s_bindings db !! actor identity = Some (run identity, incarnation identity).
Proof.
  unfold bound, matches_binding. change (bindings (gate_db db)) with (s_bindings db). destruct (s_bindings db !! _) as [[r i]|]; [|done].
  rewrite andb_true_iff, !bool_decide_eq_true. naive_solver.
Qed.


(** ** Seeds *)

(** The foreign key of a request's rows. *)
Definition rows_have_items (h : Hdb) : Prop := forall r p row, rows_of h r !! p = Some row -> is_Some (h_items h !! row_hash row).

Lemma wf_have_items h : history_wf item_hash h -> rows_have_items h.
Proof. intros Hwf r p row Hrow. by apply (wf_rows _ _ Hwf) in Hrow as [_ ?]. Qed.

Lemma put_item_have h item : rows_have_items h -> rows_have_items (put_item item_hash h item).2.
Proof.
  intros Hh r p row Hrow. unfold put_item in *. simpl in *. destruct (h_items h !! item_hash item); [by eapply Hh|]. simpl.
  apply Hh in Hrow as [v Hv]. rewrite lookup_insert_is_Some. destruct (decide (item_hash item = row_hash row)); [by left|right; split; [done|by eexists]].
Qed.

Lemma insert_row_have h r p row h' : rows_have_items h -> insert_row h r p row = Ok h' -> rows_have_items h'.
Proof.
  intros Hh Ho. unfold insert_row, unique_key, foreign_key in Ho. destruct (bool_decide (is_Some (rows_of h r !! p))); [done|].
  destruct (negb _ || negb _) eqn:E; [done|]. apply orb_false_elim in E as [_ E]. apply negb_false_iff, bool_decide_eq_true in E.
  injection Ho as <-. intros r' p' row'. unfold rows_of at 1. simpl. destruct (decide (r' = r)) as [->|Hne].
  - rewrite lookup_insert_eq. simpl. intros [[_ <-]|[_ Hrow]]%lookup_insert_Some; [done|by eapply Hh].
  - rewrite lookup_insert_ne by done. apply Hh.
Qed.

Lemma insert_request_have h id parent b h' : rows_have_items h -> insert_request h id parent b = Ok h' -> rows_have_items h'.
Proof. intros Hh Ho. unfold insert_request, unique_key, foreign_key in Ho. repeat case_match; try done; by injection Ho as <-. Qed.

Lemma seed_items_have r l acc acc' : rows_have_items acc.2 -> fold_result (seed_item item_hash r) acc l = Ok acc' -> rows_have_items acc'.2.
Proof.
  intros Hh Hf. eapply (fold_result_inv _ (fun _ a => rows_have_items a.2) l) with (past := []) in Hf; [exact Hf| |done].
  intros past [p h] x [p' h'] E1 Hop. cbn [snd] in E1 |- *. unfold seed_item in Hop. pose proof (put_item_have h x.1 E1) as E2.
  destruct (put_item item_hash h x.1) as [hh h2]. apply rbind_Ok in Hop as (h3 & Hi & [= _ <-]). by eapply insert_row_have.
Qed.

(** References depend on the rows of the request alone. *)
Lemma references_stable h h' r :
  rows_have_items h -> h_items h ⊆ h_items h' -> rows_of h' r = rows_of h r -> request_references reference_of h' r = request_references reference_of h r.
Proof.
  intros Hh Hi Hr. unfold request_references, request_occurrences. rewrite Hr. do 2 f_equal.
  apply list_omap_ext, Forall_Forall2_diag, Forall_forall. intros [p row] Hin. apply by_key_elem in Hin. destruct (Hh _ _ _ Hin) as [v Hv].
  unfold occurrence. by rewrite Hv, (lookup_weaken _ _ _ _ Hv Hi).
Qed.

Lemma manifest_reads_back c a : read_manifest (seed_manifest c a) = Some (1, c, a).
Proof. by destruct c, a. Qed.

Lemma seed_items_spec db identity op manifest items fresh q refs db' :
  rows_have_items (s_hist db) -> (forall v, h_items (s_hist db) !! item_hash manifest = Some v -> v = manifest) ->
  seed_embedded_context_items item_hash reference_of db identity op manifest items fresh = Ok (q, refs, db') ->
  op <> "" /\ s_seeds db' !! (identity, op) = Some (q, item_hash manifest) /\ h_items (s_hist db') !! item_hash manifest = Some manifest /\
  rows_have_items (s_hist db') /\ request_references reference_of (s_hist db') q = Ok refs.
Proof.
  intros Hh Hfree Ho. unfold seed_embedded_context_items in Ho. inv_ok. split; [by apply bool_decide_eq_false in Hg|].
  pose proof (put_item_have _ manifest Hh) as Hh1. assert (h_items (put_item item_hash (s_hist db) manifest).2 !! item_hash manifest = Some manifest) as Hm.
  { unfold put_item. simpl. destruct (h_items (s_hist db) !! _) as [v|] eqn:E; [by rewrite E, (Hfree v eq_refl)|]. apply lookup_insert_eq. }
  assert ((put_item item_hash (s_hist db) manifest).1 = item_hash manifest) as Eh by done.
  destruct (put_item item_hash (s_hist db) manifest) as [hash h1]. cbn [fst snd] in *. subst hash.
  change (s_seeds (set_hist db h1)) with (s_seeds db) in Ho. destruct (s_seeds db !! _) as [[q' prev]|] eqn:Es; inv_ok.
  - apply map_err_Ok in Hr. injection Ho as <- <- <-. apply negb_false_iff, bool_decide_eq_true in Hg1. subst prev. done.
  - apply map_err_Ok in Hr1, Hr2. destruct x2 as [p h3]. cbn beta iota in Ho. inv_ok. destruct x2 as [b d]. inv_ok. injection Ho as <- <- <-.
    apply map_err_Ok in Hr3, Hr4. pose proof (swap_head_rows _ _ _ _ _ _ Hr3) as Ed.
    assert (s_hist (d <| s_seeds ::= <[(identity, op) := (fresh, item_hash manifest)]> |>) = h3) as Eh3 by (by rewrite Ed).
    rewrite Eh3 in *. pose proof (insert_request_have _ _ _ _ _ Hh1 Hr1) as Hh2. assert (stores h1 x1) as [_ I2] by (by eapply insert_request_stores).
    pose proof (seed_items_have _ _ (0, x1) _ Hh2 Hr2) as Hh3. assert (stores x1 h3) as [_ I3] by (by apply seed_items_stores in Hr2).
    split_and!; try done; [apply lookup_insert_eq|]. eapply lookup_weaken; [exact Hm|]. by etrans.
Qed.

(** The first context of a conversation reads back. What was published when an
    actor was seeded is, after any further transactions that append nothing to the seed,
    what every host of the actor's run reads under the issuer's operation;
    seeding again with the same texts returns it without effect, and other texts
    are refused. *)
Theorem seed_reads_back db identity op caller authored_ fresh publication db1 db2 receiver :
  host_ok db -> rows_have_items (s_hist db) ->
  (forall v, h_items (s_hist db) !! item_hash (seed_manifest caller authored_) = Some v -> v = seed_manifest caller authored_) ->
  seed_initial_context item_hash reference_of db identity op caller authored_ fresh = Ok (publication, db1) -> host_steps db1 db2 ->
  rows_of (s_hist db2) (icp_request publication) = rows_of (s_hist db1) (icp_request publication) ->
  run receiver = run identity -> actor receiver = actor identity -> bound db2 receiver = true ->
  icp_caller_seed publication = caller /\ icp_authored_seed publication = authored_ /\
  initial_context_publication reference_of db2 receiver identity op = Ok (Some publication) /\
  (bound db2 identity = true ->
    (forall fresh', seed_initial_context item_hash reference_of db2 identity op caller authored_ fresh' = Ok (publication, db2)) /\
    forall caller' authored' fresh', item_hash (seed_manifest caller' authored') <> item_hash (seed_manifest caller authored_) ->
      seed_initial_context item_hash reference_of db2 identity op caller' authored' fresh' = Err ConflictingSeed).
Proof.
  intros Hok Hh Hfree Hs H2 Hrows Hrun Hact Hb. unfold seed_initial_context in Hs. apply rbind_Ok in Hs as ([[q refs] d] & Hs & Hp).
  apply rbind_Ok in Hp as (pub & Hp & [= -> ->]). destruct (seed_ok _ _ _ _ _ _ _ _ _ _ Hok Hs) as [_ K1].
  destruct (seed_items_spec _ _ _ _ _ _ _ _ _ Hh Hfree Hs) as (Hop & Hseed & Hman & Hh1 & Hrefs). destruct (host_steps_ok _ _ _ _ _ _ _ _ H2 K1) as [G2 _].
  assert (icp_request publication = q /\ icp_caller_seed publication = caller /\ icp_authored_seed publication = authored_) as (Eq & Ec & Eau).
  { unfold initial_context_receipt in Hp. inv_ok. by subst. }
  rewrite Eq in Hrows. pose proof (lookup_weaken _ _ _ _ Hseed (hg_seeds _ _ G2)) as Hseed2. pose proof (lookup_weaken _ _ _ _ Hman (hg_items _ _ G2)) as Hman2.
  pose proof (references_stable _ _ q Hh1 (hg_items _ _ G2) Hrows) as Hrefs2. rewrite Hrefs in Hrefs2. split_and!; [done..| |].
  - unfold initial_context_publication. rewrite !bool_decide_eq_true_2, Hb by done. cbn [negb orb]. rewrite Hseed2, Hman2, manifest_reads_back.
    cbn [ok_or rbind]. change (1 =? 1) with true. cbn [negb]. rewrite Hrefs2. cbn [map_err rbind]. by rewrite Hp.
  - intros Hbi. unfold seed_initial_context, seed_embedded_context_items. rewrite bool_decide_eq_false_2, Hbi by done. split.
    + intros fresh'. rewrite (put_item_known item_hash) by done. rewrite set_hist_id, Hseed2, bool_decide_eq_true_2 by done. cbn [negb].
      rewrite Hrefs2. cbn [map_err rbind]. by rewrite Hp.
    + intros c' a' fresh' Hne. assert ((put_item item_hash (s_hist db2) (seed_manifest c' a')).1 = item_hash (seed_manifest c' a')) as Eh by done.
      destruct (put_item item_hash (s_hist db2) (seed_manifest c' a')) as [hh h3]. cbn [fst] in Eh. subst hh.
      change (s_seeds (set_hist db2 h3)) with (s_seeds db2). rewrite Hseed2. by rewrite bool_decide_eq_false_2.
Qed.
End binding.

(** ** Witnesses *)

#[local] Existing Instance plain_owner.

Definition root_successor : HostIdentity := {| run := "r"; actor := "/root"; incarnation := "j" |}.


Definition toy_positions (os : list Origin) : ContextReference := String.concat "," ((fun o => pretty (o_position o)) <$> os).

Lemma seed_reads_back_witness : exists publication db1,
  seed_initial_context toy_type_hash toy_positions toy_host root_host "seed" (Some "task") (Some "note") "q" = Ok (publication, db1) /\
  initial_context_publication toy_positions db1 root_host root_host "seed" = Ok (Some publication) /\
  icp_caller_reference publication = Some "0" /\ icp_authored_reference publication = Some "1".
Proof.
  destruct (seed_initial_context toy_type_hash toy_positions toy_host root_host "seed" (Some "task") (Some "note") "q") as [[publication db1]|] eqn:E;
    [|vm_compute in E; discriminate].
  assert (rows_have_items (s_hist toy_host)) as Hh. { intros r p row Hrow. vm_compute in Hrow. discriminate. }
  pose proof E as E'. vm_compute in E'. injection E' as Ep Ed. exists publication, db1. split; [done|]. split.
  - apply (seed_reads_back toy_type_hash "s" toy_positions (fun _ => None) (fun _ => false) (fun _ => true) toy_host root_host "seed" (Some "task") (Some "note") "q"
      publication db1 db1 root_host); try done.
    + apply (host_steps_ok _ _ _ _ _ _ _ _ toy_bound_run), fresh_ok, store_empty_fresh.
    + rewrite <- Ed. vm_compute. reflexivity.
  - rewrite <- Ep. by split.
Defined.
