(* ===== verification/ContextCommit.v ===== *)
(** Committing an edited context: [begin_context] and [commit_context_tx] of
    [store/context.rs].

    A snapshot is taken at a pending call and names the head and generation
    it was taken at. A commit of a draft of it is one transaction: it checks
    that nothing moved, rewrites the prefix, settles the call, checks that the
    result can be projected, installs a new head when the text changed, carries
    the claims of retained calls over, and records a receipt with a frozen copy
    for later children. Replaying a recorded commit and patch transactions take
    other branches of the same function and are not modelled. *)

From S2P Require Import Prelude Json Redaction Usage Observation Sse Failure StoreDb InferenceGate Admission Jobs Lists Item ContextPatch ContextText HistoryDb HistoryOps HistoryProofs HistoryClaims ContextOrder ContextBlocks ContextEdit Claims HostDb Projection.

(** ** Data *)

Record ContextSnapshot := {
  sn_document : ContextDocument;
  sn_generation : Z;
  sn_head : string;
  sn_operation : OperationId;
  sn_prefix : list Occurrence;
  sn_blocks : list StoredBlock;
  sn_store : string;
  sn_seal : OperationId * string * Z
}.

Record ContextDraft := { dr_document : ContextDocument; next_model : option string; next_effort : option Effort }.

Record ContextCommitReceipt := { rc_head : string; rc_generation : Z; rc_changed : bool; rc_model : option string }.

Record PrefixEvidence := {
  pe_hash : string;
  pe_sources : list ContextReference;
  pe_note : bool;
  pe_overlays : list ContextTextOverlay;
  pe_origin : option Origin
}.

(** A receipt keeps its candidate as JSON; equal texts are equal drafts. *)
Record ReceiptRecord := {
  rr_version : Z;
  rr_next_effort : option Effort;
  rr_deferred_head : string;
  rr_prefix : list PrefixEvidence;
  rr_candidate : ContextDraft;
  rr_operation : OperationId;
  rr_output : string;
  rr_receipt : ContextCommitReceipt
}.

#[export] Instance ContextDocument_eq_dec : EqDecision ContextDocument.
Proof. solve_decision. Defined.
#[export] Instance ContextDraft_eq_dec : EqDecision ContextDraft.
Proof. solve_decision. Defined.

(** All rows of the Store, and the [context_commit] events in order. *)
Record ContextRows := { c_store : StoreRows; c_receipts : list ReceiptRecord }.

#[export] Instance ContextRows_eta : Eta ContextRows := fun d => {| c_store := c_store d; c_receipts := c_receipts d |}.

Definition c_hist (db : ContextRows) : Hdb := s_hist (c_store db).
Definition with_hist (db : ContextRows) (hist : Hdb) : ContextRows := db <| c_store ::= (fun s => set_hist s hist) |>.
Definition with_claims (db : ContextRows) (claims : ClaimDb) : ContextRows := db <| c_store ::= (fun s => s <| s_claims := claims |>) |>.

Section commit.
(** The digest of an item's encoding, JSON, the Store's identity, contract
    validation, and the readers of other components at a state of the rows. *)
Variable item_hash : value -> string.
Variable read_json : string -> option value.
Variable to_string : value -> string.
Variable store_id : string.
Variable parse_url : string -> option Url.
Variable loopback_ip : string -> bool.
Variable instant_admits : Z -> bool.
Variable to_json_pretty : value -> string.
Variable origins_of_reference : ContextReference -> list Origin.
Variable evidence : StoreRows -> HistoryEvidence.
(** The checkpoints on the ancestry of a request. *)
Variable checkpoints : StoreRows -> string -> list CheckpointRow.

#[local] Abbreviation context_state := (context_state parse_url loopback_ip instant_admits).
#[local] Abbreviation invocation_item := (invocation_item read_json).
#[local] Abbreviation original_call := (Claims.original_call read_json).

(** ** Reading *)

Definition read_history (hist : Hdb) (head : string) : result ContextFault (list Occurrence) :=
  match history hist head true with
  | None => Err (StoreFault (Sql "interrupted"))
  | Some os => map_err StoreFault os
  end.

Definition optional_projection_target (db : StoreRows) (identity : ConversationIdentity) : result ContextFault (option ContextProjectionTarget) :=
  do state <- map_err StoreFault (context_state db identity);
  Ok match st_model state, st_route state, st_protocol state with
     | Some model, Some route, Some protocol =>
         Some {| target_model := model; target_route := route; target_protocol := protocol; target_native := st_native state |}
     | _, _, _ => None
     end.

(** The claim of the issuing request itself. *)
Definition own_claim (db : ClaimDb) (operation : OperationId) : option ClaimRow := claim_at db operation (op_request operation).

(** ** Snapshots *)

Definition begin_context (db : ContextRows) (operation : OperationId) (head : string) : result ContextFault ContextSnapshot :=
  let hist := c_hist db in
  do _ <- map_err StoreFault (validate_identity store_id (s_claims (c_store db)) (origin operation));
  do node <- ok_or (h_requests hist !! head) (StoreFault (MissingRequest head));
  refuse negb (bool_decide (node_branch node = identity_actor (origin operation))) with StoreFault OperationOriginMismatch;
  refuse negb (bool_decide (claim_state <$> own_claim (s_claims (c_store db)) operation = Some "pending"))
    with StoreFault (OtherStoreError "CheckpointBoundaryNotPending");
  do call_origin <- original_call hist operation;
  do all <- read_history hist head;
  match positions_of all call_origin with
  | [cut] =>
      do target <- optional_projection_target (c_store db) (origin operation);
      do stored <- blocks (evidence (c_store db)) all cut target;
      do state <- map_err StoreFault (context_state (c_store db) (origin operation));
      Ok {| sn_document := {| doc_blocks := block <$> stored |}; sn_generation := st_generation state; sn_head := head;
            sn_operation := operation; sn_prefix := take cut all; sn_blocks := stored; sn_store := store_id;
            sn_seal := (operation, head, st_generation state) |}
  | _ => Err MissingCall
  end.

(** ** Receipts *)

Definition receipt_rows (db : ContextRows) (operation : OperationId) : list ReceiptRecord :=
  List.filter (fun r => bool_decide (op_request (rr_operation r) = op_request operation) && bool_decide (call (rr_operation r) = call operation))
    (c_receipts db).

(** What [receipt] refuses; a record of version 5 belongs to a patch transaction. *)
Definition record_refused (record : ReceiptRecord) (operation : OperationId) : bool :=
  negb (bool_decide (rr_version record ∈ [2; 3; 4])) || negb (bool_decide (rr_operation record = operation))
  || ((4 <=? rr_version record)
      && existsb (fun e => match pe_origin e with Some o => negb (bool_decide (o_hash o = pe_hash e)) | None => true end) (rr_prefix record))
  || ((rr_version record =? 2) && existsb (fun e => negb (bool_decide (pe_overlays e = []))) (rr_prefix record)).

Definition find_receipt (db : ContextRows) (operation : OperationId) : result ContextFault (option ReceiptRecord) :=
  match receipt_rows db operation with
  | [] => Ok None
  | [record] =>
      refuse record_refused record operation with UnsupportedState;
      Ok (Some record)
  | _ => Err UnsupportedState
  end.

Definition context_receipt (db : ContextRows) (operation : OperationId) : result ContextFault (option ContextCommitReceipt) :=
  rmap (fmap rr_receipt) (find_receipt db operation).

(** Drafts of version 2 had no visible texts in native blocks. *)
Definition without_texts (b : ContextBlock) : ContextBlock :=
  match b with NativeBlock r kind pv protected_ _ => NativeBlock r kind pv protected_ [] | TextBlock _ _ _ _ => b end.

Definition texts_submitted (snapshot : ContextSnapshot) (b : ContextBlock) : bool :=
  match b with
  | NativeBlock r _ _ _ texts =>
      bool_decide (texts = [])
      || existsb (fun original => match block original with
                                  | NativeBlock r' _ _ _ texts' => bool_decide (r' = r) && bool_decide (texts' = texts)
                                  | TextBlock _ _ _ _ => false end) (sn_blocks snapshot)
  | TextBlock _ _ _ _ => true
  end.

Definition legacy_draft (d : ContextDraft) : ContextDraft :=
  {| dr_document := {| doc_blocks := without_texts <$> doc_blocks (dr_document d) |}; next_model := next_model d; next_effort := next_effort d |}.

Definition legacy_candidate_matches (candidate draft : ContextDraft) (snapshot : ContextSnapshot) : bool :=
  forallb (texts_submitted snapshot) (doc_blocks (dr_document draft)) && bool_decide (legacy_draft candidate = legacy_draft draft).

Definition equivalent (record : ReceiptRecord) (draft : ContextDraft) (snapshot : ContextSnapshot) : bool :=
  bool_decide (rr_candidate record = draft)
  || ((rr_version record =? 2) && legacy_candidate_matches (rr_candidate record) draft snapshot).

(** ** Occurrences and claims of a copied window *)

Definition insert_occurrence (hist : Hdb) (r : string) (p : Z) (o : Occurrence) : result StoreError Hdb :=
  do _ <- validate_occurrence o;
  refuse is_tool_output (occ_item o) && bool_decide (output_operation o = None) with UnboundOutputPublication (occ_request o) (occ_position o);
  insert_row hist r p
    {| row_hash := occ_hash o; row_source_request := Some (o_request (occ_origin o)); row_source_position := Some (o_position (occ_origin o));
       row_sources := occ_sources o; row_note := note o; row_overlays := overlays o; row_operation := output_operation o |}.

Definition insert_occurrences (hist : Hdb) (r : string) (os : list Occurrence) : result StoreError Hdb :=
  fold_result (fun hist x => insert_occurrence hist r (Z.of_nat x.1) x.2) hist (imap pair os).

(** [INSERT INTO session_state] of the boundary of a request. *)
Definition mark_boundary (hist : Hdb) (r : string) : result StoreError Hdb :=
  if bool_decide (is_Some (h_session hist !! compaction_key r)) then unique_key
  else Ok (hist <| h_session ::= <[compaction_key r := VBool true]> |>).

Inductive NativeClaimTransfer := Current | RestoreReferences.

(** The principal an operation was issued to, as its request records it. *)
Definition principal_matches (db : ClaimDb) (operation : OperationId) : bool :=
  match h_requests (k_hist db) !! op_request operation with
  | None => false
  | Some node =>
      let '(run_, incarnation_, _) := default (None, None, None) (k_owners db !! op_request operation) in
      match origin operation with
      | Standalone store actor_ =>
          bool_decide (store = store_id) && bool_decide (actor_ = node_branch node) && bool_decide (run_ = None) && bool_decide (incarnation_ = None)
      | Embedded owner actor_ incarnation =>
          bool_decide (actor_ = node_branch node) && negb (bool_decide (owner = "")) && negb (bool_decide (incarnation = ""))
          && match run_ with Some r => bool_decide (r = owner) | None => true end
          && match incarnation_ with Some i => bool_decide (i = incarnation) | None => true end
      end
  end.

Definition carry_claim (db : ClaimDb) (operation : OperationId) (source : ClaimSource) (head : string) (os : list Occurrence)
    : result ContextFault ClaimDb :=
  do issuing <- original_call (k_hist db) operation;
  refuse negb (length (List.filter (fun o => bool_decide (occ_origin o = issuing)) os) =? 1)%nat with ProtectedGroup;
  carry_operation_claim db operation source head.

(** Where the claim of a retained call is copied from: its published output
    names a historical source. *)
Definition claim_source (os : list Occurrence) (operation : OperationId) (o : Occurrence) (consumer : string) (transfer : NativeClaimTransfer)
    : result ContextFault ClaimSource :=
  match List.filter (fun x => bool_decide (output_operation x = Some operation)) os with
  | [publication] => Ok (Restored consumer (o_request (occ_origin publication)))
  | [] => Ok match transfer with Current => FromConsumer consumer | RestoreReferences => Restored consumer (occ_request o) end
  | _ => Err ProtectedGroup
  end.

Definition carry_native (E : HistoryEvidence) (os : list Occurrence) (consumer head : string) (transfer : NativeClaimTransfer)
    (acc : list OperationId * ClaimDb) (o : Occurrence) : result ContextFault (list OperationId * ClaimDb) :=
  let '(carried, db) := acc in
  match tool_call read_json (occ_item o) with
  | Err _ => Err UnsupportedState
  | Ok None => Ok acc
  | Ok (Some c) =>
      let issuer := o_request (occ_origin o) in
      let rows := List.filter (fun row => bool_decide (claim_request row = issuer) && bool_decide (op_request (claim_operation row) = issuer)
                                          && bool_decide (call (claim_operation row) = tc_call_id c)) (k_claims db) in
      do completion <- match rows with [] => validated_completion E (occ_origin o) | _ => Ok false end;
      if (completion : bool) then Ok acc else
      match rows with
      | [row] =>
          let operation := claim_operation row in
          do issuing <- original_call (k_hist db) operation;
          refuse negb (bool_decide (issuing = occ_origin o)) with InvalidReference;
          refuse negb (principal_matches db operation) with StoreFault OperationOriginMismatch;
          if bool_decide (operation ∈ carried) then Ok acc else
          do source <- claim_source os operation o consumer transfer;
          do db <- carry_claim db operation source head os;
          Ok (operation :: carried, db)
      | _ => Err ProtectedGroup
      end
  end.

Definition carry_native_claims (E : HistoryEvidence) (db : ClaimDb) (os : list Occurrence) (consumer head : string) (transfer : NativeClaimTransfer)
    : result ContextFault (list OperationId * ClaimDb) :=
  fold_result (carry_native E os consumer head transfer) ([], db) os.

Definition insert_snapshot_request (hist : Hdb) (snapshot : string) (source : option string) (branch : string) : result StoreError Hdb :=
  do hist <- insert_request hist snapshot source branch;
  mark_boundary hist snapshot.

(** A bounded copy of the committed context, for children that are deferred. *)
Definition freeze_committed_context (db : ContextRows) (head snapshot : string) : result ContextFault ContextRows :=
  do hist <- map_err StoreFault (insert_snapshot_request (c_hist db) snapshot (Some head) ("harness:context-release:" +:+ snapshot));
  let db := with_hist db hist in
  do all <- read_history hist head;
  do _ <- validate_history (evidence (c_store db)) all;
  do hist <- map_err StoreFault (insert_occurrences hist snapshot all);
  let db := with_hist db hist in
  do '(_, claims) <- carry_native_claims (evidence (c_store db)) (s_claims (c_store db)) all head snapshot Current;
  Ok (with_claims db claims).

(** ** Committing *)

Definition check_projection (db : StoreRows) (consumer : string) : list Occurrence -> option string -> option OperationId ->
    option (ResponsesRoute * ResponsesProtocol) -> option NativeTransportContract -> result ContextFault CheckedContextProjection :=
  checked_projection (evidence db) (s_hist db) store_id (operation_for_occurrence read_json (s_claims db))
    (validate_contract parse_url loopback_ip instant_admits) (checkpoints db consumer) to_string to_json_pretty origins_of_reference consumer.

Definition blank_model (m : option string) : bool := match m with Some m => is_blank m | None => false end.

(** What two prefixes are compared by. *)
Definition text_of (o : Occurrence) : string * list ContextReference * bool * list ContextTextOverlay :=
  (occ_hash o, occ_sources o, note o, overlays o).

(** The blocks of the ancestry, oldest first, up to the issuing call. *)
Definition historic_blocks (db : StoreRows) (operation : OperationId) (call_origin : Origin) : result ContextFault (list StoredBlock) :=
  match full_lineage (s_hist db) false (op_request operation) with
  | None => Err (StoreFault (Sql "interrupted"))
  | Some lineage =>
      do bs <- map_result (fun ancestor =>
        do os <- read_history (s_hist db) ancestor;
        let cut := match positions_of os call_origin with n :: _ => n | [] => length os end in
        do target <- optional_projection_target db (origin operation);
        blocks (evidence db) os cut target) (reverse lineage);
      Ok (concat bs)
  end.

(** The references and sources the snapshot itself offers. *)
Definition current_refs (snapshot : ContextSnapshot) : list ContextReference := omap (fun b => block_reference (block b)) (sn_blocks snapshot).
Definition current_sources (snapshot : ContextSnapshot) : list ContextReference := sn_prefix snapshot ≫= occ_sources.

Definition historical_needed (snapshot : ContextSnapshot) (b : ContextBlock) : bool :=
  match b with
  | NativeBlock r _ _ _ _ | TextBlock (Some r) _ _ _ => negb (bool_decide (r ∈ current_refs snapshot))
  | TextBlock None _ _ sources =>
      existsb (fun r => negb (bool_decide (r ∈ current_refs snapshot)) && negb (bool_decide (r ∈ current_sources snapshot))) sources
  end.

(** Settling the committing call itself. *)
Definition settle_success (db : ClaimDb) (operation : OperationId) (hash : string) : result ContextFault ClaimDb :=
  do item <- ok_or (h_items (k_hist db) !! hash) (StoreFault (Sql "Query returned no rows"));
  do format <- ok_or (output_format item) (StoreFault (OtherStoreError "json"));
  do previous <- map_err StoreFault (operation_terminal db operation);
  refuse match previous with Some t => negb (bool_decide (t = (hash, Success, format))) | None => false end
    with StoreFault (ConflictingReplayOutcome operation);
  let '(n, db) := settle_claim_rows db operation hash Success format in
  if (n =? 0)%nat then Err Conflict else Ok db.

(** [output_publication::append_tx] over the claims of this state. *)
Definition publish_output (db : ContextRows) (operation : OperationId) (r : string) : result ContextFault ContextRows :=
  do '(_, _, _, hist) <- map_err StoreFault
    (append_tx item_hash (replay_item read_json to_string (s_claims (c_store db))) (c_hist db) operation (op_request operation) r);
  Ok (with_hist db hist).

(** An occurrence of the new head that has no row of its own yet. *)
Definition assign_origin (head : string) (x : nat * Occurrence) : Occurrence :=
  let '(position, o) := x in
  if bool_decide (o_request (occ_origin o) = "")
  then o <| occ_origin := {| o_request := head; o_position := Z.of_nat position; o_hash := o_hash (occ_origin o) |} |>
  else o.

Definition prefix_evidence (head : string) (x : nat * Occurrence) : PrefixEvidence :=
  let '(position, o) := x in
  {| pe_hash := occ_hash o; pe_sources := occ_sources o; pe_note := note o; pe_overlays := overlays o;
     pe_origin := Some (if bool_decide (o_request (occ_origin o) = "")
                        then {| o_request := head; o_position := Z.of_nat position; o_hash := occ_hash o |} else occ_origin o) |}.

(** [INSERT INTO requests SELECT ..]: a child of the old head with its branch
    and owner. *)
Definition insert_successor (db : ContextRows) (head old : string) : result StoreError ContextRows :=
  match h_requests (c_hist db) !! old with
  | None => Ok db
  | Some node =>
      do hist <- insert_request (c_hist db) head (Some old) (node_branch node);
      let db := with_hist db hist in
      Ok (with_claims db (s_claims (c_store db) <| k_owners ::= (fun m => match m !! old with Some x => <[head := x]> m | None => m end) |>))
  end.

(** The new head: the window row by row, its boundary, and the claims of its calls. *)
Definition install_window (db : ContextRows) (snapshot : ContextSnapshot) (window : list Occurrence) (pending : list OperationId) (head : string)
    : result ContextFault ContextRows :=
  do db <- map_err StoreFault (insert_successor db head (sn_head snapshot));
  let window := assign_origin head <$> imap pair window in
  do hist <- map_err StoreFault (insert_occurrences (c_hist db) head window);
  do hist <- map_err StoreFault (mark_boundary hist head);
  let db := with_hist db hist in
  do '(carried, claims) <- carry_native_claims (evidence (c_store db)) (s_claims (c_store db)) window (sn_head snapshot) head RestoreReferences;
  guard forallb (fun operation => bool_decide (operation ∈ carried)) (pending ++ [sn_operation snapshot]) else ProtectedGroup;
  Ok (with_claims db claims).

(** The checks that nothing moved since the snapshot; the history and the state found. *)
Definition check_current (db : StoreRows) (snapshot : ContextSnapshot) : result ContextFault (InferenceState * list Occurrence * Origin) :=
  let identity := origin (sn_operation snapshot) in
  do state <- map_err StoreFault (context_state db identity);
  refuse negb (bool_decide (st_generation state = sn_generation snapshot)) with Conflict;
  do _ <- match identity with
          | Embedded run_ actor_ incarnation_ =>
              do f <- map_err StoreFault (frontier (gate_db db) {| run := run_; actor := actor_; incarnation := incarnation_ |});
              guard bool_decide (frontier_head f = Some (sn_head snapshot)) else Conflict;
              Ok tt
          | Standalone _ _ => Ok tt
          end;
  do all <- read_history (s_hist db) (sn_head snapshot);
  guard bool_decide (take (length (sn_prefix snapshot)) all = sn_prefix snapshot) else Conflict;
  do call_origin <- original_call (s_hist db) (sn_operation snapshot);
  guard bool_decide (occ_origin <$> all !! length (sn_prefix snapshot) = Some call_origin) else Conflict;
  Ok (state, all, call_origin).

(** The draft as occurrences. *)
Definition rewrite_prefix (db : ContextRows) (snapshot : ContextSnapshot) (draft : ContextDraft) (call_origin : Origin)
    : result ContextFault (list Occurrence * ContextRows) :=
  do historic <- (if existsb (historical_needed snapshot) (doc_blocks (dr_document draft))
                  then historic_blocks (c_store db) (sn_operation snapshot) call_origin else Ok []);
  do '(rewritten, hist) <- rewrite_draft (evidence (c_store db)) item_hash (sn_blocks snapshot) (available_blocks (sn_blocks snapshot) historic)
                             (c_hist db) (dr_document draft);
  Ok (rewritten, with_hist db hist).

(** The call settled and its output published on the old head. *)
Definition settle_call (db : ContextRows) (snapshot : ContextSnapshot) (hash : string) : result ContextFault (Occurrence * ContextRows) :=
  do claims <- settle_success (s_claims (c_store db)) (sn_operation snapshot) hash;
  do db <- publish_output (with_claims db claims) (sn_operation snapshot) (sn_head snapshot);
  do all <- read_history (c_hist db) (sn_head snapshot);
  match List.filter (fun o => bool_decide (output_operation o = Some (sn_operation snapshot))) all with
  | [published] => Ok (published, db)
  | _ => Err UnsupportedState
  end.

Definition apply_effort (db : ContextRows) (head actor_ : string) (effort : option Effort) : result ContextFault ContextRows :=
  match effort with
  | None => Ok db
  | Some e =>
      do '(_, hist) <- map_err StoreFault (set_effort_tx item_hash (c_hist db) head e);
      Ok (with_hist db (hist <| h_session ::= delete (pending_effort_key actor_) |>))
  end.

(** The rest of a commit, once the output item is stored and no receipt exists.
    [fresh] are the new identifiers; [cancelled] is asked before the checks,
    before installing and at the end. *)
Definition commit_fresh (db : ContextRows) (snapshot : ContextSnapshot) (draft : ContextDraft) (pending : list OperationId) (hash : string)
    (fresh : string * string) (cancelled : bool * bool * bool) : result ContextFault (ContextCommitReceipt * ContextRows) :=
  let '(cancelled_early, cancelled_checked, cancelled_late) := cancelled in
  let operation := sn_operation snapshot in
  refuse cancelled_early with CancelledCommit;
  do '(state, all, call_origin) <- check_current (c_store db) snapshot;
  do '(rewritten, db) <- rewrite_prefix db snapshot draft call_origin;
  refuse blank_model (next_model draft) with InvalidModel;
  let suffix := drop (length (sn_prefix snapshot)) all in
  do '(published, db) <- settle_call db snapshot hash;
  let selected := match next_model draft with Some m => Some m | None => st_model state end in
  do _ <- check_projection (c_store db) (sn_head snapshot) (rewritten ++ suffix ++ [published]) selected (Some operation)
            (match st_route state, st_protocol state with Some route, Some protocol => Some (route, protocol) | _, _ => None end) (st_native state);
  refuse cancelled_checked with CancelledCommit;
  let text_changed := negb (bool_decide (text_of <$> rewritten = text_of <$> sn_prefix snapshot)) in
  let model_changed := match next_model draft with Some m => negb (bool_decide (st_model state = Some m)) | None => false end in
  let changed := text_changed || model_changed || bool_decide (is_Some (next_effort draft)) in
  let head := if text_changed then fresh.1 else sn_head snapshot in
  do db <- (if text_changed then install_window db snapshot (rewritten ++ suffix ++ [published]) pending head else Ok db);
  do generation <- (if changed then ok_or (checked_add_u64 (st_generation state) 1) UnsupportedState else Ok (st_generation state));
  let state := {| st_generation := generation; st_model := match next_model draft with Some m => Some m | None => st_model state end;
                  st_route := st_route state; st_protocol := st_protocol state; st_native := st_native state |} in
  let db := db <| c_store ::= (fun s => save_state s (origin operation) state) |> in
  do db <- publish_output db operation head;
  do db <- apply_effort db head (identity_actor (origin operation)) (next_effort draft);
  let receipt := {| rc_head := head; rc_generation := generation; rc_changed := changed; rc_model := st_model state |} in
  do db <- freeze_committed_context db head fresh.2;
  let record := {| rr_version := 4; rr_next_effort := next_effort draft; rr_deferred_head := fresh.2;
                   rr_prefix := prefix_evidence head <$> imap pair rewritten; rr_candidate := draft; rr_operation := operation;
                   rr_output := hash; rr_receipt := receipt |} in
  let db := with_hist db (snd (record_event (c_hist db) {| event_request := Some head; event_body := OtherEvent "context_commit" |})) in
  refuse cancelled_late with CancelledCommit;
  Ok (receipt, db <| c_receipts ::= (fun rs => rs ++ [record]) |>).

Definition sealed (snapshot : ContextSnapshot) : bool :=
  bool_decide (sn_store snapshot = store_id)
  && bool_decide (sn_seal snapshot = (sn_operation snapshot, sn_head snapshot, sn_generation snapshot)).

Definition commit_context (db : ContextRows) (snapshot : ContextSnapshot) (draft : ContextDraft) (output : JobOutput) (pending : list OperationId)
    (format : OutputFormat) (fresh : string * string) (cancelled : bool * bool * bool) : result ContextFault (ContextCommitReceipt * ContextRows) :=
  let operation := sn_operation snapshot in
  guard sealed snapshot else InvalidReference;
  guard match output with OutCompleted (Ok _) => true | _ => false end else IneligibleCommit;
  do _ <- map_err StoreFault (validate_identity store_id (s_claims (c_store db)) (origin operation));
  do found <- map_err StoreFault (invocation_item (c_hist db) (op_request operation) (call operation));
  do invocation <- ok_or found MissingCall;
  let '(hash, hist) := put_item item_hash (c_hist db)
    (tool_output_with_format to_string (call operation) (input_kind (tc_input invocation)) output format) in
  let db := with_hist db hist in
  do existing <- find_receipt db operation;
  match existing with
  | Some record =>
      guard bool_decide (rr_output record = hash) && equivalent record draft snapshot else StoreFault (ConflictingReplayOutcome operation);
      Ok (rr_receipt record, db)
  | None => commit_fresh db snapshot draft pending hash fresh cancelled
  end.
End commit.
