(* ===== verification/ContextSteps.v ===== *)
(** What the parts of a commit may do to the rows: occurrences keep the digest
    of their origin under edits, a new request's rows are its occurrences
    in order, and every step of a commit [advances] the Store. *)

From S2P Require Import Prelude Json Redaction Usage Observation Sse Failure StoreDb InferenceGate Admission Jobs Lists Item ContextPatch ContextText HistoryDb HistoryOps HistoryProofs HistoryClaims ContextOrder ContextBlocks ContextEdit Claims HostDb Projection ContextCommit.

(** ** Occurrences carry the digest of their origin *)

Definition hash_bound (o : Occurrence) : Prop := o_hash (occ_origin o) = occ_hash o.

Lemma set_overlay_of o sel text o' : set_overlay o sel text = Ok o' -> overlay_of o o'.
Proof. unfold set_overlay. intros H. apply rbind_Ok in H as (t & _ & [= <-]). by destruct o. Qed.

Lemma put_item_session item_hash hist item : h_session (put_item item_hash hist item).2 = h_session hist.
Proof. unfold put_item. simpl. by destruct (h_items hist !! _). Qed.

(** A property of occurrences that their overlays do not matter to. *)
Section overlaid.
Variable P : Occurrence -> Prop.
Hypothesis Hoverlay : forall o o', overlay_of o o' -> P o -> P o'.

Lemma edited_native_from E stored candidate os :
  Forall P (items stored) -> edited_native E stored candidate = Ok os -> Forall P os.
Proof.
  intros Hs. unfold edited_native. destruct (block stored); [done|]. destruct candidate as [|r0 kind0 submitted protected0 texts0]; [done|].
  destruct (negb _); [done|]. intros H. apply rbind_Ok in H as (s & Hf & H). apply rbind_Ok in H as (removed & _ & H).
  assert (Forall P (fs_items s)) as Hfs.
  { apply (fold_result_inv _ (fun _ s => Forall P (fs_items s))) with (past := []) in Hf; [done| |done]. clear -Hoverlay.
    intros _ s f s' Hs Hf. unfold edit_field in Hf. apply rbind_Ok in Hf as ([index old] & _ & Hf). destruct (_ || _); [done|].
    apply rbind_Ok in Hf as (os & Ho & [= <-]). simpl. case_bool_decide; [by injection Ho as <-|]. destruct (editable old); [|done].
    apply rbind_Ok in Ho as ([k o] & Hk & Ho). apply ok_or_Ok in Hk. apply rbind_Ok in Ho as (o' & Ho & [= <-]).
    apply Forall_insert; [done|]. eapply Hoverlay; [by eapply set_overlay_of|].
    apply list_find_Some in Hk as (Hk & _). by eapply Forall_lookup_1. }
  assert (os = List.filter (fun o => negb (bool_decide (ContextBlocks.reference E [o] ∈ removed))) (fs_items s)) as ->.
  { case_bool_decide; [by injection H|]. apply rbind_Ok in H as (shown & _ & H). by destruct (bool_decide _); [injection H|]. }
  apply Forall_forall. intros o Ho. rewrite Forall_forall in Hfs. apply list_elem_of_In, filter_In in Ho as [Ho _]. by apply Hfs, list_elem_of_In.
Qed.

Lemma rewrite_draft_from E item_hash snapshot available db doc os db' :
  (forall h item sources, P (new_note h item sources)) -> Forall (fun b => Forall P (items b)) available ->
  rewrite_draft E item_hash snapshot available db doc = Ok (os, db') ->
  Forall P os /\ keeps item_hash db db' /\ h_session db' = h_session db.
Proof.
  intros Hnew Ha H. unfold rewrite_draft in H. apply rbind_Ok in H as (s & Hs & H). destruct (forallb _ _); [|done]. injection H as <- <-.
  apply (fold_result_inv _ (fun _ s => Forall P (rewritten s) /\ keeps item_hash db (draft_db s) /\ h_session (draft_db s) = h_session db)) with (past := []) in Hs; [done| |by split_and!].
  clear s Hs. intros _ s b s' (HP & Hk & Hses) Hb. unfold rewrite_block in Hb. destruct b as [[r|] role text sources|r kind0 pv protected0 texts].
  - apply rbind_Ok in Hb as ([i stored] & Hf & Hb). apply ok_or_Ok, list_find_Some in Hf as (Hi & _).
    destruct (bool_decide _); [done|]. destruct (block stored); [|done]. destruct (_ || _); [done|].
    apply rbind_Ok in Hb as (o & Ho & Hb). apply ok_or_Ok in Ho. apply rbind_Ok in Hb as (projected & _ & Hb). apply rbind_Ok in Hb as (o' & Ho' & [= <-]).
    simpl. split; [|done]. apply Forall_app. split; [done|]. repeat constructor.
    assert (P o) as Hpo. { rewrite Forall_lookup in Ha. specialize (Ha _ _ Hi). rewrite Forall_forall in Ha. apply Ha. by apply head_Some_elem_of. }
    case_bool_decide; [by injection Ho' as <-|]. eapply Hoverlay; [by eapply set_overlay_of|done].
  - destruct (forallb _ _); [|done]. destruct (put_item _ _ _) as [h d] eqn:Ep. injection Hb as <-. simpl. split.
    + apply Forall_app. split; [done|]. repeat constructor. apply Hnew.
    + replace d with (put_item item_hash (draft_db s) (note_item role text)).2 by (by rewrite Ep).
      rewrite put_item_session. split; [etrans; [exact Hk|apply put_item_keeps]|done].
  - apply rbind_Ok in Hb as ([i stored] & Hf & Hb). apply ok_or_Ok, list_find_Some in Hf as (Hi & _).
    apply rbind_Ok in Hb as (edited & He & Hb). destruct (_ && _); [done|]. destruct (bool_decide _); [done|].
    match type of Hb with (if ?c then _ else _) = _ => destruct c; [done|] end. injection Hb as <-.
    rewrite Forall_lookup in Ha. pose proof (edited_native_from _ _ _ _ (Ha _ _ Hi) He) as Hpe.
    destruct (_ <? _)%nat; simpl; (split; [by apply Forall_app|done]).
Qed.
End overlaid.

Lemma hash_bound_overlay o o' : overlay_of o o' -> hash_bound o -> hash_bound o'.
Proof. by intros ->. Qed.

Lemma ordered_perm indices retained : ordered_occurrences indices retained ≡ₚ retained.
Proof.
  pose proof (arranged_spec indices retained) as Harr. unfold ordered_occurrences. rewrite emit_perm; [apply Harr|]. by rewrite (at_perm _ _ _ _ Harr).
Qed.

(** What a reader returns was made from rows and items. *)
Lemma read_history_from hist head_ os :
  read_history hist head_ = Ok os -> Forall (fun o => (exists r e, occurrence hist r e = Some o) /\ is_ok (validate_occurrence o) = true) os.
Proof.
  unfold read_history, history. intros H. destruct (retained_history hist head_ true) as [retained|] eqn:Er; [|done]. simpl in H.
  destruct retained as [retained|e0]; [|done]. simpl in H.
  destruct (output_order _ _) as [indices|]; [|done]. injection H as <-. rewrite ordered_perm.
  unfold retained_history in Er. destruct (h_requests hist !! head_); [|done]. destruct (full_lineage _ _ _) as [l|]; [|done].
  injection Er as Er. unfold query_occurrences in Er. apply map_result_Ok in Er. apply Forall_forall. intros o Ho.
  apply list_elem_of_lookup in Ho as [i Hi]. destruct (Forall2_lookup_r _ _ _ _ _ Er Hi) as (x0 & Hx & Hv).
  apply rbind_Ok in Hv as (? & Hv & [= <-]). apply list_elem_of_lookup_2, list_elem_of_bind in Hx as (r0 & Hx & _).
  apply list_elem_of_omap in Hx as (e & _ & He). split; [eauto|by rewrite Hv].
Qed.

Lemma read_history_bound hist head_ os : read_history hist head_ = Ok os -> Forall hash_bound os.
Proof.
  intros H. eapply Forall_impl; [by eapply read_history_from|]. intros o ((r & [p row] & He) & _). simpl in He.
  destruct (h_items hist !! _); [|done]. by injection He as <-.
Qed.

(** A published output is not a setting, and its item is stored. *)
Lemma published_item hist head_ os o operation :
  read_history hist head_ = Ok os -> o ∈ os -> output_operation o = Some operation ->
  h_items hist !! occ_hash o = Some (occ_item o) /\ is_configuration_update (occ_item o) = false.
Proof.
  intros H Ho Hop. apply read_history_from in H. rewrite Forall_forall in H. destruct (H _ Ho) as [(r & [p row] & He) Hv]. split.
  - simpl in He. destruct (h_items hist !! _) eqn:E; [|done]. by injection He as <-.
  - unfold validate_occurrence, ownership in Hv. rewrite Hop in Hv. destruct (is_tool_output (occ_item o)) eqn:Et; [|done].
    unfold is_tool_output, type_in, output_types in Et. unfold is_configuration_update, item_type.
    apply bool_decide_eq_false. intros Hc. revert Et. unfold vidx. unfold get_str in Hc.
    destruct (vget "type" (occ_item o)) as [v|]; [|done]. simpl in *. rewrite Hc. done.
Qed.

Lemma blocks_bound E all cut target bs :
  (cut <= length all)%nat -> blocks E all cut target = Ok bs -> Forall hash_bound all -> Forall (fun b => Forall hash_bound (items b)) bs.
Proof.
  intros Hl H Ha. destruct (blocks_ok E all cut target bs Hl H) as (Hc & _). apply (Forall_take _ cut) in Ha. rewrite <- Hc in Ha.
  clear -Ha. induction bs as [|b bs IH]; [constructor|]. simpl in Ha. apply Forall_app in Ha as [? ?]. constructor; [done|by apply IH].
Qed.

(** ** The rows of a new request *)

Definition occurrence_row (o : Occurrence) : ItemRow :=
  {| row_hash := occ_hash o; row_source_request := Some (o_request (occ_origin o)); row_source_position := Some (o_position (occ_origin o));
     row_sources := occ_sources o; row_note := note o; row_overlays := overlays o; row_operation := output_operation o |}.

(** The rows of [r] are exactly these occurrences, from position 0. *)
Definition rows_are (hist : Hdb) (r : string) (os : list Occurrence) : Prop :=
  next_position (rows_of hist r) = Z.of_nat (length os) /\
  forall i o, os !! i = Some o -> rows_of hist r !! Z.of_nat i = Some (occurrence_row o).

(** No compaction boundary is lost. *)
Definition boundaries_kept (hist hist' : Hdb) : Prop :=
  forall r, is_Some (h_session hist !! compaction_key r) -> is_Some (h_session hist' !! compaction_key r).

Lemma same_session_kept hist hist' : h_session hist' = h_session hist -> boundaries_kept hist hist'.
Proof. intros H r. by rewrite H. Qed.

Section rows.
Variable item_hash : value -> string.

Lemma fresh_rows hist r : history_wf item_hash hist -> h_requests hist !! r = None -> rows_of hist r = ∅.
Proof.
  intros Hwf Hr. apply map_eq. intros p. rewrite lookup_empty. apply eq_None_not_Some. intros [row Hrow].
  destruct (wf_rows _ _ Hwf _ _ _ Hrow) as [[n Hn] _]. congruence.
Qed.

Lemma insert_occurrence_inv hist r p o hist' :
  insert_occurrence hist r p o = Ok hist' -> insert_row hist r p (occurrence_row o) = Ok hist'.
Proof. unfold insert_occurrence. intros H. apply rbind_Ok in H as (u & _ & H). by destruct (_ && _). Qed.

Lemma insert_occurrences_from r os : forall n hist hist' done_,
  fold_result (fun hist x => insert_occurrence hist r (Z.of_nat x.1) x.2) hist (imap (fun i o => ((n + i)%nat, o)) os) = Ok hist' ->
  history_wf item_hash hist -> rows_are hist r done_ -> length done_ = n ->
  (history_wf item_hash hist' /\ extends hist hist') /\ rows_are hist' r (done_ ++ os) /\
  (forall r', r' <> r -> rows_of hist' r' = rows_of hist r') /\ hist' = hist <| h_rows := h_rows hist' |>.
Proof.
  induction os as [|o os IH]; intros n hist hist' past H Hwf Hrows Hn; simpl in H.
  - injection H as <-. rewrite app_nil_r. split_and!; [done|done|done|done|by destruct hist].
  - apply rbind_Ok in H as (mid & Ho & H). rewrite Nat.add_0_r in Ho. apply insert_occurrence_inv in Ho.
    destruct Hrows as [Hnext Hold]. destruct (insert_row_keeps item_hash _ _ _ _ _ Ho) as [[Hwf' He] Hp]; [by rewrite Hnext, Hn|done|].
    assert (forall p, rows_of mid r !! p = <[Z.of_nat n := occurrence_row o]> (rows_of hist r) !! p) as Hmid.
    { apply insert_row_inv in Ho as (_ & _ & _ & ->). intros p. by rewrite rows_set, decide_True. }
    destruct (IH (S n) mid hist' (past ++ [o])) as (Hk & Hr & Hother & Heq).
    + rewrite <- H. f_equal. apply imap_ext. intros i x _. simpl. f_equal. lia.
    + done.
    + split; [rewrite Hp, length_app; simpl; lia|]. intros i x Hx. rewrite Hmid. destruct (decide (i = n)) as [->|Hne].
      * rewrite lookup_app_r, <- Hn, Nat.sub_diag in Hx by lia. injection Hx as <-. by rewrite lookup_insert_eq.
      * rewrite lookup_insert_ne by lia. apply Hold. apply lookup_lt_Some in Hx as Hlt. rewrite length_app in Hlt. simpl in Hlt.
        by rewrite lookup_app_l in Hx by lia.
    + rewrite length_app. simpl. lia.
    + rewrite <- app_assoc in Hr. simpl in Hr. apply insert_row_inv in Ho as (_ & _ & _ & Emid). split; [|split; [|split]].
      * split; [apply Hk|]. etrans; [exact He|apply Hk].
      * done.
      * intros r' Hne. rewrite Hother by done. subst mid. by rewrite rows_set, decide_False.
      * rewrite Heq, Emid. by destruct hist.
Qed.

Lemma insert_occurrences_ok hist r os hist' :
  insert_occurrences hist r os = Ok hist' -> history_wf item_hash hist -> rows_of hist r = ∅ ->
  (history_wf item_hash hist' /\ extends hist hist') /\ rows_are hist' r os /\
  (forall r', r' <> r -> rows_of hist' r' = rows_of hist r') /\ hist' = hist <| h_rows := h_rows hist' |>.
Proof.
  intros H Hwf Hr. apply (insert_occurrences_from r os 0 hist hist' []) ; [exact H|done| |done]. split; [by rewrite Hr|]. done.
Qed.

Lemma insert_row_session hist r p row hist' : insert_row hist r p row = Ok hist' -> h_session hist' = h_session hist.
Proof. by intros (_ & _ & _ & ->)%insert_row_inv. Qed.

Lemma append_tx_session replay_claim hist operation claimant r item h b hist' :
  append_tx item_hash replay_claim hist operation claimant r = Ok (item, h, b, hist') -> h_session hist' = h_session hist.
Proof.
  unfold append_tx. intros H. apply rbind_Ok in H as (retained & _ & H). apply rbind_Ok in H as (it & _ & H).
  pose proof (put_item_session item_hash hist it) as Hs. destruct (put_item item_hash hist it) as [h' hist1]. simpl in Hs.
  destruct (_ <$> take 2 _) as [|previous [|]]; [| |done].
  - destruct (bool_decide _); [|done]. apply rbind_Ok in H as (hist2 & Hins & [= <- <- <- <-]). apply insert_row_session in Hins.
    unfold publish_item. destruct (is_configuration_update it); simpl; congruence.
  - destruct (bool_decide _); [|done]. by injection H as <- <- <- <-.
Qed.

Lemma set_effort_session hist r e h hist' : set_effort_tx item_hash hist r e = Ok (h, hist') -> h_session hist' = h_session hist.
Proof.
  unfold set_effort_tx. intros H. destruct (bool_decide _); [|done]. apply rbind_Ok in H as ([p hist1] & Hp & H).
  assert (h_session hist1 = h_session hist) as E1.
  { destruct (last _) as [[q previous]|]; [|by injection Hp as _ <-]. destruct (is_configuration_update previous); [|by injection Hp as _ <-].
    apply rbind_Ok in Hp as (d & Hd & [= _ <-]). unfold delete_row in Hd. destruct (existsb _ _); [done|]. by injection Hd as <-. }
  pose proof (put_item_session item_hash hist1 (configuration_update e)) as E2. destruct (put_item item_hash hist1 _) as [h' hist2]. simpl in E2.
  apply rbind_Ok in H as (hist3 & Hins & [= <- <-]). apply insert_row_session in Hins. congruence.
Qed.

Lemma mark_boundary_inv hist r hist' :
  mark_boundary hist r = Ok hist' -> hist' = hist <| h_session ::= <[compaction_key r := VBool true]> |>.
Proof. unfold mark_boundary. case_bool_decide; [done|]. by intros [= <-]. Qed.

Lemma mark_boundary_kept hist r hist' : mark_boundary hist r = Ok hist' -> boundaries_kept hist hist'.
Proof. intros ->%mark_boundary_inv r' Hr. simpl. apply lookup_insert_is_Some'. by right. Qed.

Lemma mark_boundary_keeps hist r hist' : mark_boundary hist r = Ok hist' -> keeps item_hash hist hist'.
Proof. intros ->%mark_boundary_inv. by apply inert_keeps. Qed.

(** After an item that is not a setting, an effort is a new row. *)
Lemma set_effort_appends hist r e h hist' p row item :
  set_effort_tx item_hash hist r e = Ok (h, hist') -> history_wf item_hash hist ->
  next_position (rows_of hist r) = p + 1 -> rows_of hist r !! p = Some row -> h_items hist !! row_hash row = Some item ->
  is_configuration_update item = false ->
  rows_of hist' r = <[p + 1 := plain_row (item_hash (configuration_update e))]> (rows_of hist r).
Proof.
  intros H Hwf Hnext Hp Hi Hc. unfold set_effort_tx in H. destruct (bool_decide _) in H; [|done].
  set (joined := omap _ (by_key (rows_of hist r))) in H.
  assert ((p, item) ∈ joined) as Hin.
  { apply list_elem_of_omap. exists (p, row). split; [by apply by_key_elem|]. simpl. by rewrite Hi. }
  destruct (last joined) as [[q previous]|] eqn:El; [|apply last_None in El; rewrite El in Hin; set_solver].
  pose proof (last_joined item_hash _ _ _ _ Hwf El) as Hq. assert (q = p) as -> by lia.
  assert (previous = item) as ->.
  { apply last_Some_elem_of, list_elem_of_omap in El as ([q qrow] & Hq' & E). simpl in E. apply fmap_Some in E as (v & Hv & [= -> ->]).
    apply by_key_elem in Hq'. congruence. }
  rewrite Hc in H. cbn [rbind] in H. pose proof (put_item_rows item_hash hist (configuration_update e) r) as Hput.
  destruct (put_item item_hash hist (configuration_update e)) as [h' hist1] eqn:Ep. simpl in Hput.
  assert (h' = item_hash (configuration_update e)) as -> by (unfold put_item in Ep; by simplify_eq).
  apply rbind_Ok in H as (hist2 & Hins & [= <- <-]). apply insert_row_inv in Hins as (_ & _ & _ & ->).
  by rewrite rows_set, decide_True, Hput.
Qed.

Lemma insert_request_inv hist id parent branch_ hist' :
  insert_request hist id parent branch_ = Ok hist' ->
  h_requests hist !! id = None /\ hist' = hist <| h_requests ::= <[id := {| node_parent := parent; node_branch := branch_ |}]> |>.
Proof.
  unfold insert_request, unique_key, foreign_key. case_bool_decide as Hid; [done|]. intros H. split; [by apply eq_None_not_Some|].
  destruct parent as [p|]; [|by injection H]. destruct (existsb _ _); [done|]. destruct (negb _); [done|]. by injection H.
Qed.
End rows.

(** ** What a commit may do to the Store *)

(** Everything but the claims, the conversation rows and the states of contexts. *)
Definition other_rows (s : StoreRows) : StoreRows :=
  s <| s_claims := {| k_hist := Hdb_empty; k_bindings := k_bindings (s_claims s); k_claims := []; k_owners := ∅ |} |> <| s_contexts := ∅ |>.

Section advances.
Variable item_hash : value -> string.

Record advanced (db db' : ContextRows) : Prop := {
  av_wf : history_wf item_hash (c_hist db');
  av_rows : extends (c_hist db) (c_hist db');
  av_boundaries : boundaries_kept (c_hist db) (c_hist db');
  av_claims : claims_grow (s_claims (c_store db)) (s_claims (c_store db'));
  av_claims_ok : claims_ok (s_claims (c_store db)) -> claims_ok (s_claims (c_store db'));
  av_owners r : is_Some (h_requests (c_hist db) !! r) -> k_owners (s_claims (c_store db')) !! r = k_owners (s_claims (c_store db)) !! r;
  av_other : other_rows (c_store db') = other_rows (c_store db);
  av_receipts : c_receipts db `prefix_of` c_receipts db'
}.

Definition advances (db db' : ContextRows) : Prop := history_wf item_hash (c_hist db) -> advanced db db'.

#[export] Instance advances_preorder : PreOrder advances.
Proof.
  split.
  - intros db Hwf. split; try done; [by intros r|]. split; [done|]. intros row Hr. by exists row.
  - intros a b c H1 H2 Ha. destruct (H1 Ha) as [Wb E1 B1 C1 O1 K1 T1 R1]. destruct (H2 Wb) as [Wc E2 B2 C2 O2 K2 T2 R2].
    split; [done|by etrans|by intros r Hr; apply B2; apply B1|by eapply claims_grow_preorder|auto| |by etrans|by etrans].
    intros r Hr. rewrite K2, K1; [done|done|]. destruct Hr as [node Hr]. exists node. by eapply lookup_weaken, ext_requests.
Qed.

Lemma hist_advances db hist : keeps item_hash (c_hist db) hist -> boundaries_kept (c_hist db) hist -> advances db (with_hist db hist).
Proof.
  intros Hk Hb Hwf. destruct (Hk Hwf) as [Hwf' He]. pose proof (ext_items _ _ He) as Hi. destruct db as [s rs]. destruct s as [k]. destruct k as [h b l o].
  destruct (rows_step {| k_hist := h; k_bindings := b; k_claims := l; k_owners := o |} hist b o Hi) as [G K]. by split.
Qed.

(** Claims over the same rows. *)
Definition same_rows (k k' : ClaimDb) : Prop := k_hist k' = k_hist k /\ k_bindings k' = k_bindings k /\ k_owners k' = k_owners k.

Lemma claims_advances db k :
  same_rows (s_claims (c_store db)) k -> claims_grow (s_claims (c_store db)) k -> (claims_ok (s_claims (c_store db)) -> claims_ok k) ->
  advances db (with_claims db k).
Proof.
  intros (H1 & H2 & H3) G K Hwf. destruct db as [s rs]. split; unfold c_hist, s_hist in *; simpl in *; rewrite ?H1, ?H3; try done; [by intros r|].
  unfold other_rows. simpl. by rewrite H2.
Qed.

Lemma insert_claim_same k row k' : insert_claim k row = Ok k' -> same_rows k k'.
Proof. by intros (_ & ->)%insert_claim_inv. Qed.

Lemma same_rows_trans a b c : same_rows a b -> same_rows b c -> same_rows a c.
Proof. intros (? & ? & ?) (? & ? & ?). split_and!; congruence. Qed.

(** The claim carried to a new head, beside all claims before. *)
Definition carried_at (operation : OperationId) (target : string) (k k' : ClaimDb) : Prop :=
  same_rows k k' /\ claims_grow k k' /\ (claims_ok k -> claims_ok k') /\ (operation, target) ∈ claim_key <$> k_claims k'.

Lemma copy_nearest_same k operation consumer target b k' :
  copy_nearest_claim k operation consumer target = Ok (b, k') ->
  same_rows k k' /\ (b = true -> (operation, target) ∈ claim_key <$> k_claims k').
Proof.
  unfold copy_nearest_claim. destruct (claim_lineage _ _) as [l|]; [|done]. destruct (nearest_claim k operation l) as [row|] eqn:En; [|by intros [= <- <-]].
  intros H. apply rbind_Ok in H as (d & H & [= <- <-]). apply nearest_elem in En as [_ Eo]. split; [by eapply insert_claim_same|]. intros _.
  apply insert_claim_inv in H as (_ & ->). simpl. rewrite fmap_app, elem_of_app. right. simpl. unfold claim_key. simpl. rewrite Eo. left.
Qed.

Lemma carry_operation_at k operation source target k' :
  carry_operation_claim k operation source target = Ok k' -> carried_at operation target k k'.
Proof.
  intros H. destruct (carry_step _ _ _ _ _ H) as [G K].
  cut (same_rows k k' /\ (operation, target) ∈ claim_key <$> k_claims k'); [by intros [? ?]|]. unfold carry_operation_claim in H.
  apply rbind_Ok in H as ([b1 k1] & H1 & H). apply map_err_Ok in H1 as E1.
  apply copy_nearest_same in E1 as [S1 A1]. destruct b1; [injection H as <-; auto|]. destruct (source_historical source) as [historical|]; [|done].
  apply rbind_Ok in H as ([b2 k2] & H2 & H). apply map_err_Ok in H2 as E2.
  apply copy_nearest_same in E2 as [S2 A2]. destruct b2; [injection H as <-; eauto using same_rows_trans|].
  destruct (claim_at k2 _ _) as [row|] eqn:Er; [|done]. apply claim_at_Some in Er as [_ Ek].
  apply map_err_Ok in H as E3. split.
  - eauto using same_rows_trans, insert_claim_same.
  - apply insert_claim_inv in E3 as (_ & ->). simpl. rewrite fmap_app, elem_of_app. right. unfold claim_key in Ek. injection Ek as <- _. left.
Qed.
End advances.
