(* ===== verification/ContextClaims.v ===== *)
(** What the commit of an edited context guarantees.

    A commit keeps the conversation rows well formed and only appends to them,
    settles its call for every claimant and loses no claim; it happens once, its
    receipt can always be read again, and a snapshot taken before it can
    no longer be committed; and the new head holds exactly the rewritten window. *)

From S2P Require Import Prelude Json Redaction Usage Observation Sse Failure StoreDb InferenceGate Admission Jobs Lists Item ContextPatch ContextText HistoryDb HistoryOps HistoryProofs HistoryClaims ContextOrder ContextBlocks ContextEdit Claims HostDb Projection ContextCommit ContextSteps.

(** ** The parts of a commit *)

Section commit.
Variable item_hash : value -> string.
Variable read_json : string -> option value.
Variable to_string : value -> string.
Variable store_id : string.
Variable parse_url : string -> option Url.
Variable loopback_ip : string -> bool.
Variable instant_admits : Z -> bool.
Variable to_json_pretty : value -> string.
Variable origins_of_reference : ContextReference -> list Origin.
Variable evidence : StoreRows -> HistoryEvidence.
Variable checkpoints : StoreRows -> string -> list CheckpointRow.
#[local] Abbreviation history_wf := (history_wf item_hash).
#[local] Abbreviation advanced := (advanced item_hash).
#[local] Abbreviation advances := (advances item_hash).

(** Claims of a loop that carries them to one head. *)
Definition carried_all (target : string) (k0 : ClaimDb) (acc : list OperationId * ClaimDb) : Prop :=
  same_rows k0 acc.2 /\ claims_grow k0 acc.2 /\ (claims_ok k0 -> claims_ok acc.2) /\
  Forall (fun operation => (operation, target) ∈ claim_key <$> k_claims acc.2) acc.1.

Lemma grow_key k k' key : claims_grow k k' -> key ∈ claim_key <$> k_claims k -> key ∈ claim_key <$> k_claims k'.
Proof. intros [_ G] (row & -> & Hr)%list_elem_of_fmap. destruct (G _ Hr) as (row' & Hr' & Hk & _). apply list_elem_of_fmap. eauto. Qed.

Lemma carry_native_ok E os consumer target transfer k0 acc o acc' :
  carried_all target k0 acc -> carry_native read_json store_id E os consumer target transfer acc o = Ok acc' -> carried_all target k0 acc'.
Proof.
  destruct acc as [carried k]. intros Hall H. unfold carry_native in H. destruct (tool_call _ _) as [[c|]|]; [|by injection H as <-|done].
  apply rbind_Ok in H as (completion & _ & H). destruct completion; [by injection H as <-|].
  destruct (List.filter _ _) as [|row [|]]; [done| |done]. apply rbind_Ok in H as (issuing & _ & H).
  destruct (negb _) in H; [done|]. destruct (negb _) in H; [done|]. destruct (bool_decide _) in H; [by injection H as <-|].
  apply rbind_Ok in H as (source & _ & H). apply rbind_Ok in H as (k' & Hk & [= <-]). unfold carry_claim in Hk.
  apply rbind_Ok in Hk as (? & _ & Hk). destruct (negb _) in Hk; [done|]. apply carry_operation_at in Hk as (S' & G' & O' & A').
  destruct Hall as (S & G & O & A). split; [by eapply same_rows_trans|]. split; [by eapply claims_grow_preorder|]. split; [auto|].
  simpl. constructor; [done|]. eapply Forall_impl; [exact A|]. intros operation. by apply grow_key.
Qed.

Lemma carry_native_claims_ok E k os consumer target transfer carried k' :
  carry_native_claims read_json store_id E k os consumer target transfer = Ok (carried, k') -> carried_all target k (carried, k').
Proof.
  intros H. apply (fold_result_inv _ (fun _ acc => carried_all target k acc)) with (past := []) in H; [done| |].
  - intros _ acc o acc'. apply carry_native_ok.
  - split; [done|]. split; [by apply claims_grow_preorder|]. split; [done|constructor].
Qed.

Lemma carried_advances db target carried k : carried_all target (s_claims (c_store db)) (carried, k) -> advances db (with_claims db k).
Proof. intros (S & G & O & _). by apply claims_advances. Qed.

(** *** A frozen copy *)

Lemma freeze_ok db head snapshot db' :
  freeze_committed_context read_json store_id evidence db head snapshot = Ok db' -> history_wf (c_hist db) ->
  advanced db db' /\ h_requests (c_hist db) !! snapshot = None /\ (forall r, r <> snapshot -> rows_of (c_hist db') r = rows_of (c_hist db) r) /\
  s_contexts (c_store db') = s_contexts (c_store db) /\ c_receipts db' = c_receipts db.
Proof.
  intros H Hwf. unfold freeze_committed_context in H. apply rbind_Ok in H as (hist1 & H1 & H). apply rbind_Ok in H as (all & _ & H).
  apply rbind_Ok in H as (u & _ & H). apply rbind_Ok in H as (hist3 & H3 & H). apply rbind_Ok in H as ([carried k] & H4 & [= <-]).
  apply map_err_Ok in H1 as E1. apply map_err_Ok in H3 as E3.
  unfold insert_snapshot_request in E1. apply rbind_Ok in E1 as (hist0 & E0 & E1). pose proof (insert_request_keeps item_hash _ _ _ _ _ E0) as K0.
  apply insert_request_inv in E0 as [Hnone E0]. pose proof (mark_boundary_keeps item_hash _ _ _ E1) as K1.
  assert (advances db (with_hist db hist1)) as A1.
  { apply hist_advances; [by etrans|]. intros r Hr. apply (mark_boundary_kept _ _ _ E1). by rewrite E0. }
  apply mark_boundary_inv in E1. pose proof (av_wf _ _ _ (A1 Hwf)) as W1.
  set (db1 := with_hist db hist1) in *. assert (c_hist db1 = hist1) as Eh1 by done.
  assert (forall r, rows_of hist1 r = rows_of (c_hist db) r) as Hsame by (intros r; by rewrite E1, E0).
  destruct (insert_occurrences_ok item_hash _ _ _ _ E3) as ((W3 & X3) & _ & Hother & Eq3); [done|change (rows_of hist1 snapshot = ∅); rewrite Hsame; by eapply fresh_rows|].
  assert (advances db1 (with_hist db1 hist3)) as A3 by (apply hist_advances; [done|by rewrite Eq3; apply same_session_kept]). apply carry_native_claims_ok in H4.
  split; [|split; [done|split; [|done]]].
  - revert Hwf. fold (advances db (with_claims (with_hist db1 hist3) k)). etrans; [exact A1|]. etrans; [exact A3|]. by eapply carried_advances.
  - intros r Hr. destruct H4 as ((Ek & _) & _). unfold c_hist, s_hist. simpl in *. rewrite Ek. simpl. rewrite Hother by done. apply Hsame.
Qed.
(** *** Settling and publishing *)

Lemma settle_success_ok k operation hash item f k' :
  h_items (k_hist k) !! hash = Some item -> plain_format item = true -> output_format item = Some f ->
  settle_success k operation hash = Ok k' ->
  same_rows k k' /\ claims_grow k k' /\
  (claims_ok k -> claims_ok k' /\ operation_terminal k' operation = Ok (Some (hash, Success, f))).
Proof.
  intros Hi Hp Hf H. unfold settle_success in H. rewrite Hi in H. cbn [ok_or rbind] in H. rewrite Hf in H. cbn [ok_or rbind] in H.
  apply rbind_Ok in H as (previous & Hprev & H). apply map_err_Ok in Hprev as Et.
  destruct (match previous with Some _ => _ | None => _ end) eqn:Eg in H; [done|]. unfold settle_claim_rows in H.
  destruct (_ =? 0)%nat eqn:En in H; [done|]. injection H as <-. split; [done|]. split; [apply map_step; [apply settle_claim_row_key|apply settle_claim_row_id]|].
  intros Hok. assert (stored_format (k_hist k) hash = Ok f) as Hs.
  { unfold stored_format. rewrite Hi. cbn [ok_or rbind]. unfold plain_format, output_format in *.
    clear -Hp Hf. destruct (vget "output_format" item) as [v|]; [|by injection Hf as ->]. destruct v; try done. by rewrite Hf. }
  assert (claims_ok (settle_claim_rows k operation hash Success f).2) as Hok'.
  { apply (settle_rows_ok read_json); [done|done|]. intros row Hr Hop Hset. destruct (ok_settled _ Hok _ Hr Hset) as (h' & t' & f' & Ho & _). rewrite Ho. f_equal.
    assert (operation_terminal k operation = Ok (Some (h', t', f'))) as Hq by (apply (terminal_Some read_json store_id); eauto). rewrite Et in Hq. injection Hq as ->.
    by apply negb_false_iff, bool_decide_eq_true in Eg. }
  split; [exact Hok'|]. apply (terminal_Some read_json store_id); [exact Hok'|]. apply Nat.eqb_neq in En.
  destruct (List.filter claim_waits (claims_on k operation)) as [|row l] eqn:Er; [done|].
  assert (In row (List.filter claim_waits (claims_on k operation))) as Hin by (rewrite Er; by left).
  apply filter_In in Hin as [Hin Hw]. unfold claims_on in Hin. apply filter_In in Hin as [Hin Hop]. apply bool_decide_eq_true in Hop.
  exists (settle_claim_row operation hash Success f row).
  destruct (settle_claim_row_cases operation hash Success f row) as [[_ Hno]|(_ & H2 & H3 & _)]; [specialize (Hno Hop); congruence|].
  split; [simpl; apply list_elem_of_fmap; exists row; split; [done|by apply list_elem_of_In]|]. split; [|done].
  pose proof (settle_claim_row_key operation hash Success f row) as E. unfold claim_key in E. by injection E as -> _.
Qed.

Lemma publish_ok db operation r db' :
  publish_output item_hash read_json to_string db operation r = Ok db' -> history_wf (c_hist db) ->
  advanced db db' /\ s_contexts (c_store db') = s_contexts (c_store db) /\ c_receipts db' = c_receipts db /\
  k_claims (s_claims (c_store db')) = k_claims (s_claims (c_store db)) /\
  (forall r', r' <> r -> rows_of (c_hist db') r' = rows_of (c_hist db) r') /\
  ((exists p row, rows_of (c_hist db) r !! p = Some row /\ row_operation row = Some operation) -> rows_of (c_hist db') r = rows_of (c_hist db) r).
Proof.
  intros H Hwf. unfold publish_output in H. apply rbind_Ok in H as ([[[item h] b] hist] & Ha & [= <-]).
  apply map_err_Ok in Ha as Ex.
  assert (advances db (with_hist db hist)) as Adv by (apply hist_advances; [by eapply append_tx_keeps|by eapply same_session_kept, append_tx_session]).
  split; [by apply Adv|]. split; [done|]. split; [done|]. split; [done|]. change (c_hist (with_hist db hist)) with hist.
  unfold append_tx in Ex. apply rbind_Ok in Ex as (retained & _ & Ex). apply rbind_Ok in Ex as (it & _ & Ex).
  pose proof (put_item_rows item_hash (c_hist db) it) as Hput. destruct (put_item item_hash (c_hist db) it) as [h' hist1]. simpl in Hput.
  destruct (List.filter (owned_by operation) (by_key (rows_of hist1 r))) as [|previous l] eqn:El; simpl in Ex.
  - destruct (bool_decide _) in Ex; [|done]. apply rbind_Ok in Ex as (hist2 & Hins & Ex). injection Ex as <- <- <- <-. split.
    + intros r' Hne. rewrite publish_item_rows. apply insert_row_inv in Hins as (_ & _ & _ & ->). by rewrite rows_set, decide_False.
    + intros (p & row & Hrow & Hop). exfalso. rewrite Hput in El. assert (In (p, row) []) as []; rewrite <- El. apply filter_In. split.
      * apply list_elem_of_In. by apply by_key_elem.
      * unfold owned_by. by apply bool_decide_eq_true.
  - destruct l; [|done]. simpl in Ex. destruct (bool_decide _) in Ex; [|done]. injection Ex as <- <- <- <-. split; [intros r' _|intros _]; apply Hput.
Qed.
Lemma settle_call_ok db snapshot hash published db' item f :
  settle_call item_hash read_json to_string db snapshot hash = Ok (published, db') -> history_wf (c_hist db) ->
  h_items (c_hist db) !! hash = Some item -> plain_format item = true -> output_format item = Some f ->
  advanced db db' /\ s_contexts (c_store db') = s_contexts (c_store db) /\ c_receipts db' = c_receipts db /\
  output_operation published = Some (sn_operation snapshot) /\
  (h_items (c_hist db') !! occ_hash published = Some (occ_item published) /\ is_configuration_update (occ_item published) = false) /\
  (claims_ok (s_claims (c_store db)) -> operation_terminal (s_claims (c_store db')) (sn_operation snapshot) = Ok (Some (hash, Success, f))).
Proof.
  intros H Hwf Hi Hp Hf. unfold settle_call in H. apply rbind_Ok in H as (k & Hk & H). apply rbind_Ok in H as (db1 & Hpub & H).
  apply rbind_Ok in H as (all & Hall & H). destruct (List.filter _ _) as [|x [|]] eqn:El; [done| |done]. injection H as -> ->.
  destruct (settle_success_ok _ _ _ _ _ _ Hi Hp Hf Hk) as (S1 & G1 & K1).
  assert (advances db (with_claims db k)) as A1 by (apply claims_advances; [done|done|intros Hok; by apply K1]).
  pose proof (A1 Hwf) as A1'. destruct (publish_ok _ _ _ _ Hpub (av_wf _ _ _ A1')) as (A2 & C2 & R2 & _).
  assert (published ∈ all /\ output_operation published = Some (sn_operation snapshot)) as [Hin Hop].
  { assert (In published (List.filter (fun o => bool_decide (output_operation o = Some (sn_operation snapshot))) all)) as Hx by (rewrite El; by left).
    apply filter_In in Hx as [Hx ?%bool_decide_eq_true]. split; [by apply list_elem_of_In|done]. }
  split; [revert Hwf; change (advances db db'); etrans; [exact A1|by intros _]|]. split; [done|]. split; [done|]. split; [done|].
  split; [by eapply published_item|]. intros Hok. destruct (K1 Hok) as [Hok1 Ht].
  eapply (grow_terminal read_json store_id); [exact (av_claims _ _ _ A2)|done|by apply (av_claims_ok _ _ _ A2)|exact Ht].
Qed.

(** *** The rewritten prefix *)

Lemma historic_bound s operation call_origin bs :
  historic_blocks parse_url loopback_ip instant_admits evidence s operation call_origin = Ok bs -> Forall (fun b => Forall hash_bound (items b)) bs.
Proof.
  unfold historic_blocks. destruct (full_lineage _ _ _) as [l|]; [|done]. intros H. apply rbind_Ok in H as (bss & H & [= <-]).
  apply map_result_Ok in H. apply Forall_concat. induction H as [|r bs l' bss Hr _ IH]; [constructor|]. constructor; [|exact IH].
  apply rbind_Ok in Hr as (os & Hos & Hr). apply rbind_Ok in Hr as (target & _ & Hr). eapply blocks_bound; [|exact Hr|by eapply read_history_bound].
  destruct (positions_of os call_origin) as [|n ns] eqn:En; [lia|]. assert (n ∈ positions_of os call_origin) as Hn by (rewrite En; left).
  apply positions_of_elem in Hn as (o & Ho & _). apply lookup_lt_Some in Ho. lia.
Qed.

Lemma rewrite_prefix_ok db snapshot draft call_origin os db' :
  rewrite_prefix item_hash parse_url loopback_ip instant_admits evidence db snapshot draft call_origin = Ok (os, db') ->
  Forall (fun b => Forall hash_bound (items b)) (sn_blocks snapshot) ->
  Forall hash_bound os /\ (exists hist, db' = with_hist db hist /\ keeps item_hash (c_hist db) hist /\ h_session hist = h_session (c_hist db)).
Proof.
  intros H Hs. unfold rewrite_prefix in H. apply rbind_Ok in H as (historic & Hh & H). apply rbind_Ok in H as ([os' hist] & Hr & [= -> <-]).
  assert (Forall (fun b => Forall hash_bound (items b)) historic) as Hhb.
  { destruct (existsb _ _); [by eapply historic_bound|injection Hh as <-; constructor]. }
  assert (Forall (fun b => Forall hash_bound (items b)) (available_blocks (sn_blocks snapshot) historic)) as Ha.
  { destruct (available_app (sn_blocks snapshot) historic) as (rest & -> & Hrest). apply Forall_app. split; [done|].
    rewrite Forall_forall in Hrest, Hhb. apply Forall_forall. auto. }
  destruct (rewrite_draft_from hash_bound hash_bound_overlay _ _ _ _ _ _ _ _ (fun _ _ _ => eq_refl) Ha Hr) as (HF & Hk).
  split; [done|by exists hist].
Qed.
(** *** The new head *)

Lemma install_ok db snapshot window pending head db' node :
  install_window read_json store_id evidence db snapshot window pending head = Ok db' -> history_wf (c_hist db) ->
  h_requests (c_hist db) !! sn_head snapshot = Some node ->
  advanced db db' /\ s_contexts (c_store db') = s_contexts (c_store db) /\ c_receipts db' = c_receipts db /\
  h_requests (c_hist db) !! head = None /\
  h_requests (c_hist db') !! head = Some {| node_parent := Some (sn_head snapshot); node_branch := node_branch node |} /\
  h_session (c_hist db') !! compaction_key head = Some (VBool true) /\
  rows_are (c_hist db') head (assign_origin head <$> imap pair window) /\
  Forall (fun operation => (operation, head) ∈ claim_key <$> k_claims (s_claims (c_store db'))) (pending ++ [sn_operation snapshot]).
Proof.
  intros H Hwf Hnode. unfold install_window in H. apply rbind_Ok in H as (db1 & H1 & H). apply rbind_Ok in H as (hist2 & H2 & H).
  apply rbind_Ok in H as (hist3 & H3 & H). apply rbind_Ok in H as ([carried k] & H4 & H).
  destruct (forallb _ _) eqn:Epend in H; [|done]. injection H as <-.
  apply map_err_Ok in H1 as E1. unfold insert_successor in E1. rewrite Hnode in E1.
  apply rbind_Ok in E1 as (hist1 & Hins & [= <-]). pose proof (insert_request_keeps item_hash _ _ _ _ _ Hins) as K1.
  apply insert_request_inv in Hins as [Hnone E1]. set (db1 := with_claims _ _) in *.
  assert (Eh1 : c_hist db1 = hist1) by done.
  assert (advances db db1) as A1.
  { intros W. destruct (hist_advances item_hash db hist1 K1 (same_session_kept _ _ (f_equal h_session E1)) W) as [W1 X1 B1 G1 O1 N1 T1 R1]. split; try done.
    - intros Hok. destruct (O1 Hok). by split.
    - intros r Hr. unfold db1. simpl. destruct (k_owners _ !! sn_head snapshot) as [x|]; [|done]. rewrite lookup_insert_ne; [done|].
      intros <-. rewrite Hnone in Hr. by destruct Hr. }
  pose proof (A1 Hwf) as A1'. pose proof (av_wf _ _ _ A1') as W1. rewrite Eh1 in *.
  apply map_err_Ok in H2 as E2. apply map_err_Ok in H3 as E3.
  destruct (insert_occurrences_ok item_hash _ _ _ _ E2 W1) as ((W2 & X2) & Hrows & _ & Eq2).
  { rewrite E1. change (rows_of (c_hist db) head = ∅). by eapply fresh_rows. }
  pose proof (mark_boundary_keeps item_hash _ _ _ E3) as K3. pose proof (mark_boundary_kept _ _ _ E3) as B3. apply mark_boundary_inv in E3.
  assert (advances db1 (with_hist db1 hist3)) as A3 
    by (apply hist_advances; [intros _; destruct (K3 W2); split; [done|by etrans]|intros r Hr; apply B3; by rewrite Eq2]).
  apply carry_native_claims_ok in H4. pose proof H4 as (S4 & _ & _ & F4). destruct S4 as (Eh4 & _). simpl in Eh4.
  assert (c_hist (with_claims (with_hist db1 hist3) k) = hist3) as -> by exact Eh4.
  split; [revert Hwf; change (advances db (with_claims (with_hist db1 hist3) k)); etrans; [exact A1|]; etrans; [exact A3|by eapply carried_advances]|].
  split; [done|]. split; [done|]. split; [done|]. split; [|split; [|split]].
  - rewrite E3. simpl. rewrite Eq2. simpl. rewrite E1. simpl. by rewrite lookup_insert_eq.
  - rewrite E3. simpl. by rewrite lookup_insert_eq.
  - rewrite E3. exact Hrows.
  - apply Forall_forall. intros operation Hop. rewrite forallb_forall in Epend. apply list_elem_of_In, Epend, bool_decide_eq_true in Hop.
    rewrite Forall_forall in F4. by apply F4.
Qed.

Lemma effort_ok db head actor_ effort db' :
  apply_effort item_hash db head actor_ effort = Ok db' -> history_wf (c_hist db) ->
  advanced db db' /\ s_contexts (c_store db') = s_contexts (c_store db) /\ c_receipts db' = c_receipts db /\
  k_claims (s_claims (c_store db')) = k_claims (s_claims (c_store db)) /\
  (forall p row item, next_position (rows_of (c_hist db) head) = p + 1 -> rows_of (c_hist db) head !! p = Some row ->
     h_items (c_hist db) !! row_hash row = Some item -> is_configuration_update item = false ->
     rows_of (c_hist db') head =
     match effort with
     | None => rows_of (c_hist db) head
     | Some e => <[p + 1 := plain_row (item_hash (configuration_update e))]> (rows_of (c_hist db) head)
     end).
Proof.
  intros H Hwf. destruct effort as [e|]; simpl in H; [|injection H as <-; split; [by apply advances_preorder|done]].
  apply rbind_Ok in H as ([h hist] & H & [= <-]). apply map_err_Ok in H as E.
  assert (keeps item_hash (c_hist db) (hist <| h_session ::= delete (pending_effort_key actor_) |>)) as Hk.
  { etrans; [by eapply set_effort_keeps|]. by apply inert_keeps. }
  split; [apply hist_advances; [done| |done]|split; [done|split; [done|split; [done|]]]].
  { intros r Hr. simpl. rewrite lookup_delete_ne by done. by rewrite (set_effort_session item_hash _ _ _ _ _ E). }
  intros p row item Hn Hr Hi Hc.
  change (rows_of hist head = <[p + 1 := plain_row (item_hash (configuration_update e))]> (rows_of (c_hist db) head)). by eapply set_effort_appends.
Qed.
(** *** After the window *)

(** The rows of a head once it is complete: the window, then an effort. *)
Definition completed (hist : Hdb) (head : string) (window : list Occurrence) (effort : option Effort) : Prop :=
  (forall i o, window !! i = Some o -> rows_of hist head !! Z.of_nat i = Some (occurrence_row o)) /\
  match effort with
  | None => next_position (rows_of hist head) = Z.of_nat (length window)
  | Some e => rows_of hist head !! Z.of_nat (length window) = Some (plain_row (item_hash (configuration_update e))) /\
              next_position (rows_of hist head) = Z.of_nat (length window) + 1
  end.

(** The window ends with the output of the operation, stored and no setting. *)
Definition ends_with (hist : Hdb) (operation : OperationId) (window : list Occurrence) : Prop :=
  exists o item, last window = Some o /\ output_operation o = Some operation /\ h_items hist !! occ_hash o = Some item /\
    is_configuration_update item = false.

Lemma finish_ok db d1 d2 d3 operation head actor_ effort snapshot :
  publish_output item_hash read_json to_string db operation head = Ok d1 -> apply_effort item_hash d1 head actor_ effort = Ok d2 ->
  freeze_committed_context read_json store_id evidence d2 head snapshot = Ok d3 ->
  history_wf (c_hist db) ->
  advanced db d3 /\ s_contexts (c_store d3) = s_contexts (c_store db) /\ c_receipts d3 = c_receipts db /\
  (forall window, is_Some (h_requests (c_hist db) !! head) -> rows_are (c_hist db) head window -> ends_with (c_hist db) operation window ->
     completed (c_hist d3) head window effort).
Proof.
  intros H1 H2 H3 W0. destruct (publish_ok _ _ _ _ H1 W0) as (A1 & C1 & R1 & _ & _ & P1). pose proof (av_wf _ _ _ A1) as W1.
  destruct (effort_ok _ _ _ _ _ H2 W1) as (A2 & C2 & R2 & _ & P2). pose proof (av_wf _ _ _ A2) as W2.
  destruct (freeze_ok _ _ _ _ H3 W2) as (A3 & N3 & P3 & C3 & R3). split.
  { revert W0. change (advances db d3). do 2 (etrans; [by intros _|]). by intros _. }
  split; [congruence|]. split; [congruence|]. intros window Hreq [Hnext Hrows] (o & item & Hlast & Hop & Hitem & Hset).
  rewrite last_lookup in Hlast. pose proof (Hrows _ _ Hlast) as Hrow. pose proof (lookup_lt_Some _ _ _ Hlast) as Hlt.
  unfold completed. rewrite P3.
  2: { intros ->. destruct Hreq as [node Hreq]. eapply lookup_weaken in Hreq; [|exact (ext_requests _ _ (av_rows _ _ _ A1))].
       eapply lookup_weaken in Hreq; [|exact (ext_requests _ _ (av_rows _ _ _ A2))]. congruence. }
  assert (rows_of (c_hist d1) head = rows_of (c_hist db) head) as E1 by (apply P1; exists (Z.of_nat (pred (length window))); eauto).
  rewrite <- E1 in Hrows, Hrow, Hnext. eapply lookup_weaken in Hitem; [|exact (ext_items _ _ (av_rows _ _ _ A1))].
  assert (next_position (rows_of (c_hist d1) head) = Z.of_nat (pred (length window)) + 1) as Hn by lia.
  specialize (P2 _ _ _ Hn Hrow Hitem Hset). rewrite P2. destruct effort as [e|]; [|done].
  replace (Z.of_nat (pred (length window)) + 1) with (Z.of_nat (length window)) by lia. split; [|split; [by rewrite lookup_insert_eq|]].
  - intros i x Hx. apply lookup_lt_Some in Hx as Hi. rewrite lookup_insert_ne by lia. by apply Hrows.
  - pose proof (wf_dense _ _ W1 head) as Hd. rewrite (next_position_dense _ Hd) in Hnext. rewrite <- Hnext.
    rewrite (next_position_dense _ (dense_insert _ _ Hd)). rewrite map_size_insert_None; [lia|].
    apply eq_None_not_Some. intros Hs. apply Hd in Hs. lia.
Qed.
(** *** A first commit *)

#[local] Abbreviation context_state := (context_state parse_url loopback_ip instant_admits).
#[local] Abbreviation commit_fresh :=
  (commit_fresh item_hash read_json to_string store_id parse_url loopback_ip instant_admits to_json_pretty origins_of_reference evidence checkpoints).
#[local] Abbreviation commit_context :=
  (commit_context item_hash read_json to_string store_id parse_url loopback_ip instant_admits to_json_pretty origins_of_reference evidence checkpoints).
#[local] Abbreviation rewrite_prefix := (rewrite_prefix item_hash parse_url loopback_ip instant_admits evidence).

(** The new head beside the old one. *)
Record installed (db : ContextRows) (old head : string) (window : list Occurrence) (effort : option Effort) (operations : list OperationId)
    (db' : ContextRows) : Prop := {
  in_fresh : h_requests (c_hist db) !! head = None;
  in_node : exists node, h_requests (c_hist db) !! old = Some node /\
              h_requests (c_hist db') !! head = Some {| node_parent := Some old; node_branch := node_branch node |};
  in_boundary : is_Some (h_session (c_hist db') !! compaction_key head);
  in_window : completed (c_hist db') head (assign_origin head <$> imap pair window) effort;
  in_claims : Forall (fun operation => (operation, head) ∈ claim_key <$> k_claims (s_claims (c_store db'))) operations
}.

Definition text_differs (snapshot : ContextSnapshot) (rewritten : list Occurrence) : bool :=
  negb (bool_decide (text_of <$> rewritten = text_of <$> sn_prefix snapshot)).

(** The model, when the draft names one. *)
Definition selected_model (draft : ContextDraft) (state : InferenceState) : option string :=
  match next_model draft with Some m => Some m | None => st_model state end.

Definition commit_changes (snapshot : ContextSnapshot) (draft : ContextDraft) (state : InferenceState) (rewritten : list Occurrence) : bool :=
  text_differs snapshot rewritten || negb (bool_decide (selected_model draft state = st_model state)) || bool_decide (is_Some (next_effort draft)).

Definition receipt_for (snapshot : ContextSnapshot) (draft : ContextDraft) (state : InferenceState) (rewritten : list Occurrence) (fresh_head : string)
    : ContextCommitReceipt :=
  {| rc_head := if text_differs snapshot rewritten then fresh_head else sn_head snapshot;
     rc_generation := st_generation state + (if commit_changes snapshot draft state rewritten then 1 else 0);
     rc_changed := commit_changes snapshot draft state rewritten; rc_model := selected_model draft state |}.

Definition state_after (state : InferenceState) (receipt : ContextCommitReceipt) : InferenceState :=
  {| st_generation := rc_generation receipt; st_model := rc_model receipt; st_route := st_route state; st_protocol := st_protocol state;
     st_native := st_native state |}.

(** What a first commit did. *)
Record made_commit (db : ContextRows) (snapshot : ContextSnapshot) (draft : ContextDraft) (pending : list OperationId) (hash : string)
    (f : OutputFormat) (fresh : string * string) (state : InferenceState) (all rewritten : list Occurrence) (published : Occurrence)
    (receipt : ContextCommitReceipt) (db' : ContextRows) : Prop := {
  mc_advanced : advanced db db';
  mc_state : context_state (c_store db) (origin (sn_operation snapshot)) = Ok state /\ st_generation state = sn_generation snapshot;
  mc_history : read_history (c_hist db) (sn_head snapshot) = Ok all /\ take (length (sn_prefix snapshot)) all = sn_prefix snapshot;
  mc_rewritten : exists origin_ d, rewrite_prefix db snapshot draft origin_ = Ok (rewritten, d);
  mc_bound : Forall hash_bound rewritten;
  mc_published : output_operation published = Some (sn_operation snapshot);
  mc_receipt : receipt = receipt_for snapshot draft state rewritten fresh.1;
  mc_contexts : s_contexts (c_store db') = <[origin (sn_operation snapshot) := (3, state_after state receipt)]> (s_contexts (c_store db));
  mc_receipts : c_receipts db' = c_receipts db ++
    [{| rr_version := 4; rr_next_effort := next_effort draft; rr_deferred_head := fresh.2;
        rr_prefix := prefix_evidence (rc_head receipt) <$> imap pair rewritten; rr_candidate := draft; rr_operation := sn_operation snapshot;
        rr_output := hash; rr_receipt := receipt |}];
  mc_installed : text_differs snapshot rewritten = true ->
    installed db (sn_head snapshot) fresh.1 (rewritten ++ drop (length (sn_prefix snapshot)) all ++ [published]) (next_effort draft)
      (pending ++ [sn_operation snapshot]) db';
  mc_settled : claims_ok (s_claims (c_store db)) ->
    operation_terminal (s_claims (c_store db')) (sn_operation snapshot) = Ok (Some (hash, Success, f))
}.

Lemma read_history_node hist head_ os : read_history hist head_ = Ok os -> is_Some (h_requests hist !! head_).
Proof. unfold read_history, history, retained_history. by destruct (h_requests hist !! head_). Qed.

Lemma model_differs_eq draft state :
  match next_model draft with Some m => negb (bool_decide (st_model state = Some m)) | None => false end =
  negb (bool_decide (selected_model draft state = st_model state)).
Proof.
  unfold selected_model. destruct (next_model draft) as [m|]; [|by rewrite bool_decide_eq_true_2]. f_equal. apply bool_decide_ext. split; congruence.
Qed.

Lemma assigned_row head x : occ_hash (assign_origin head x) = occ_hash x.2 /\ output_operation (assign_origin head x) = output_operation x.2.
Proof. destruct x as [p o]. unfold assign_origin. by case_bool_decide. Qed.

Lemma window_ends hist head rewritten suffix published operation :
  output_operation published = Some operation -> h_items hist !! occ_hash published = Some (occ_item published) ->
  is_configuration_update (occ_item published) = false ->
  ends_with hist operation (assign_origin head <$> imap pair (rewritten ++ suffix ++ [published])).
Proof.
  intros Hop Hi Hc. exists (assign_origin head (length (rewritten ++ suffix), published)), (occ_item published).
  destruct (assigned_row head (length (rewritten ++ suffix), published)) as [E1 E2]. split_and!; [|by rewrite E2|by rewrite E1|done].
  rewrite app_assoc, imap_app, fmap_app, last_app. simpl. by rewrite Nat.add_0_r.
Qed.
Lemma check_current_ok s snapshot state all call_origin :
  check_current read_json parse_url loopback_ip instant_admits s snapshot = Ok (state, all, call_origin) ->
  context_state s (origin (sn_operation snapshot)) = Ok state /\ st_generation state = sn_generation snapshot /\
  read_history (s_hist s) (sn_head snapshot) = Ok all /\ take (length (sn_prefix snapshot)) all = sn_prefix snapshot.
Proof.
  unfold check_current. intros H. apply rbind_Ok in H as (state' & Hs & H). apply map_err_Ok in Hs. destruct (negb _) eqn:Eg in H; [done|]. apply negb_false_iff, bool_decide_eq_true in Eg.
  apply rbind_Ok in H as (u & _ & H). apply rbind_Ok in H as (all' & Hall & H). destruct (bool_decide _) eqn:Et in H; [|done].
  apply bool_decide_eq_true in Et. apply rbind_Ok in H as (o & _ & H). destruct (bool_decide _) in H; [|done]. by injection H as -> -> ->.
Qed.

Lemma state_advances db identity state : advances db (db <| c_store ::= (fun s => save_state s identity state) |>).
Proof. intros Hwf. destruct db as [s rs]. destruct s. split; try done; [by intros r|]. split; [done|]. intros row Hr. by exists row. Qed.

Definition recorded (db : ContextRows) (head : string) (record : ReceiptRecord) : ContextRows :=
  with_hist db (snd (record_event (c_hist db) {| event_request := Some head; event_body := OtherEvent "context_commit" |}))
    <| c_receipts ::= (fun rs => rs ++ [record]) |>.

Lemma recorded_advances db head record : advances db (recorded db head record).
Proof.
  intros Hwf. destruct (hist_advances item_hash db (snd (record_event (c_hist db) {| event_request := Some head; event_body := OtherEvent "context_commit" |})))
    as [W X B C O K T R]; [apply record_event_keeps|by apply same_session_kept|done|]. split; try done. simpl. by apply prefix_app_r.
Qed.

(** The rows of a new head once it is recorded. *)
Lemma recorded_installed db db2 db3 d3 db6 snapshot head window pending effort record :
  h_requests (c_hist db) ⊆ h_requests (c_hist db2) -> is_Some (h_requests (c_hist db) !! sn_head snapshot) -> history_wf (c_hist db2) ->
  install_window read_json store_id evidence db2 snapshot window pending head = Ok db3 ->
  c_hist d3 = c_hist db3 -> s_claims (c_store d3) = s_claims (c_store db3) -> advanced d3 db6 ->
  completed (c_hist db6) head (assign_origin head <$> imap pair window) effort ->
  installed db (sn_head snapshot) head window effort (pending ++ [sn_operation snapshot]) (recorded db6 head record).
Proof.
  intros Hsub [node Hnode] W2 Hinst Eh Ec A6 Hdone. pose proof (lookup_weaken _ _ _ _ Hnode Hsub) as Hnode2.
  destruct (install_ok _ _ _ _ _ _ _ Hinst W2 Hnode2) as (A3 & _ & _ & Hnone & Hhead & Hb & _ & Hclaims).
  split; [by eapply lookup_weaken_None|exists node; split; [done|]| |exact Hdone|].
  - change (h_requests (c_hist db6) !! head = Some {| node_parent := Some (sn_head snapshot); node_branch := node_branch node |}).
    rewrite <- Eh in Hhead. eapply lookup_weaken; [exact Hhead|exact (ext_requests _ _ (av_rows _ _ _ A6))].
  - change (is_Some (h_session (c_hist db6) !! compaction_key head)). apply (av_boundaries _ _ _ A6). rewrite Eh. eauto.
  - eapply Forall_impl; [exact Hclaims|]. intros operation. simpl. rewrite <- Ec. apply grow_key. exact (av_claims _ _ _ A6).
Qed.

Lemma commit_fresh_made db snapshot draft pending hash fresh cancelled receipt db' item f :
  commit_fresh db snapshot draft pending hash fresh cancelled = Ok (receipt, db') -> history_wf (c_hist db) ->
  Forall (fun b => Forall hash_bound (items b)) (sn_blocks snapshot) ->
  h_items (c_hist db) !! hash = Some item -> plain_format item = true -> output_format item = Some f ->
  exists state all rewritten published, made_commit db snapshot draft pending hash f fresh state all rewritten published receipt db'.
Proof.
  unfold ContextCommit.commit_fresh. destruct cancelled as [[c1 c2] c3]. intros H W0 Hs Hi Hp Hf. destruct c1; [done|].
  apply rbind_Ok in H as ([[state all] call_origin] & Hcur & H). apply rbind_Ok in H as ([rewritten db1] & Hrew & H).
  destruct (blank_model _); [done|]. apply rbind_Ok in H as ([published db2] & Hset & H). apply rbind_Ok in H as (u & _ & H). destruct c2; [done|].
  rewrite model_differs_eq in H. fold (text_differs snapshot rewritten) (commit_changes snapshot draft state rewritten) in H.
  apply rbind_Ok in H as (db3 & Hinst & H). apply rbind_Ok in H as (generation & Hgen & H). set (d3 := db3 <| c_store ::= _ |>) in H.
  apply rbind_Ok in H as (db4 & Hpub & H). apply rbind_Ok in H as (db5 & Heff & H). apply rbind_Ok in H as (db6 & Hfrz & H).
  destruct c3; [done|]. injection H as <- <-.
  apply check_current_ok in Hcur as (Hst & Hgeneration & Hall & Htake). pose proof (rewrite_prefix_ok _ _ _ _ _ _ Hrew Hs) as (Hbound & hist1 & E1 & K1 & S1).
  assert (advances db db1) as A1 by (rewrite E1; apply hist_advances; [done|by apply same_session_kept]).
  specialize (A1 W0). pose proof (av_wf _ _ _ A1) as W1.
  assert (h_items (c_hist db1) !! hash = Some item) as Hi1 by (eapply lookup_weaken; [exact Hi|exact (ext_items _ _ (av_rows _ _ _ A1))]).
  destruct (settle_call_ok _ _ _ _ _ _ _ Hset W1 Hi1 Hp Hf) as (A2 & C2 & R2 & Hop & (Hpi & Hpc) & Hterm). pose proof (av_wf _ _ _ A2) as W2.
  set (window := rewritten ++ drop (length (sn_prefix snapshot)) all ++ [published]) in *.
  set (head := if text_differs snapshot rewritten then fresh.1 else sn_head snapshot) in *.
  assert (generation = st_generation state + (if commit_changes snapshot draft state rewritten then 1 else 0)) as ->.
  { destruct (commit_changes _ _ _ _); [apply ok_or_Ok in Hgen; by apply checked_add_u64_Some in Hgen as [-> _]|injection Hgen as <-; lia]. }
  destruct (read_history_node _ _ _ Hall) as [node Hnode0].
  assert (h_requests (c_hist db2) !! sn_head snapshot = Some node) as Hnode2.
  { eapply lookup_weaken; [|exact (ext_requests _ _ (av_rows _ _ _ A2))]. eapply lookup_weaken; [exact Hnode0|exact (ext_requests _ _ (av_rows _ _ _ A1))]. }
  assert (advances db2 db3 /\ s_contexts (c_store db3) = s_contexts (c_store db2) /\ c_receipts db3 = c_receipts db2) as (A3 & C3 & R3).
  { destruct (text_differs snapshot rewritten); [|by injection Hinst as <-].
    destruct (install_ok _ _ _ _ _ _ _ Hinst W2 Hnode2) as (A3 & C3 & R3 & _). by split; [intros _|]. }
  assert (advances db2 d3) as A3' by (etrans; [exact A3|apply state_advances]). pose proof (av_wf _ _ _ (A3' W2)) as W3.
  destruct (finish_ok _ _ _ _ _ _ _ _ _ Hpub Heff Hfrz W3) as (A6 & C6 & R6 & Hdone).
  assert (forall record, advances db2 (recorded db6 head record)) as Adv.
  { intros record. etrans; [exact A3'|]. etrans; [intros _; exact A6|]. apply recorded_advances. }
  exists state, all, rewritten, published. split; try done.
  - refine ((_ : advances db (recorded db6 head _)) W0). etrans; [intros _; exact A1|]. etrans; [intros _; exact A2|]. apply Adv.
  - eauto.
  - change (s_contexts (c_store db6) = <[origin (sn_operation snapshot) := (3, state_after state (receipt_for snapshot draft state rewritten fresh.1))]> (s_contexts (c_store db))).
    rewrite C6. unfold d3. simpl. by rewrite C3, C2, E1.
  - simpl. rewrite R6. unfold d3. simpl. by rewrite R3, R2, E1.
  - intros Ht. unfold head in *. rewrite Ht in *. apply (recorded_installed db db2 db3 d3 db6); [|by eexists|exact W2|exact Hinst|done|done|exact A6|].
    + etrans; [exact (ext_requests _ _ (av_rows _ _ _ A1))|exact (ext_requests _ _ (av_rows _ _ _ A2))].
    + destruct (install_ok _ _ _ _ _ _ _ Hinst W2 Hnode2) as (A3'' & _ & _ & _ & Hhead & _ & Hrows & _).
      apply Hdone; [by eexists|exact Hrows|]. eapply window_ends; [done| |done].
      eapply lookup_weaken; [exact Hpi|exact (ext_items _ _ (av_rows _ _ _ A3''))].
  - intros Hok. pose proof (av_claims_ok _ _ _ A1 Hok) as Hok1. pose proof (av_claims_ok _ _ _ A2 Hok1) as Hok2.
    match goal with |- operation_terminal (s_claims (c_store ?d)) _ = _ => pose proof (Adv _ W2 : advanced db2 d) as Af end.
    eapply (grow_terminal read_json store_id); [exact (av_claims _ _ _ Af)|done|by apply (av_claims_ok _ _ _ Af)|by apply Hterm].
Qed.
(** ** Any commit *)

#[local] Abbreviation begin_context := (begin_context read_json store_id parse_url loopback_ip instant_admits evidence).

Lemma begin_context_ok db operation head_ snapshot :
  begin_context db operation head_ = Ok snapshot ->
  sn_operation snapshot = operation /\ sealed store_id snapshot = true /\ Forall (fun b => Forall hash_bound (items b)) (sn_blocks snapshot).
Proof.
  unfold ContextCommit.begin_context. intros H. apply rbind_Ok in H as (u & _ & H). apply rbind_Ok in H as (node & _ & H).
  destruct (negb _) in H; [done|]. destruct (negb _) in H; [done|]. apply rbind_Ok in H as (o & _ & H). apply rbind_Ok in H as (all & Hall & H).
  destruct (positions_of all o) as [|cut [|]] eqn:Ep; [done| |done]. apply rbind_Ok in H as (target & _ & H). apply rbind_Ok in H as (stored & Hb & H).
  apply rbind_Ok in H as (state & _ & [= <-]). split; [done|]. split; [unfold sealed; simpl; by rewrite !bool_decide_eq_true_2|]. simpl.
  eapply blocks_bound; [|exact Hb|by eapply read_history_bound]. assert (cut ∈ positions_of all o) as Hin by (rewrite Ep; left).
  apply positions_of_elem in Hin as (x & Hx & _). apply lookup_lt_Some in Hx. lia.
Qed.

(** The item a commit stores for its call. *)
Definition output_item (snapshot : ContextSnapshot) (invocation_ : ToolCall) (output : JobOutput) (format : OutputFormat) : value :=
  tool_output_with_format to_string (call (sn_operation snapshot)) (input_kind (tc_input invocation_)) output format.

Definition with_item (db : ContextRows) (item : value) : ContextRows := with_hist db (put_item item_hash (c_hist db) item).2.

(** No other stored item has the digest of this output. *)
Definition output_free (db : ContextRows) (snapshot : ContextSnapshot) (output : JobOutput) (format : OutputFormat) : Prop :=
  forall invocation_, digest_free item_hash (s_claims (c_store db)) (output_item snapshot invocation_ output format).

Lemma output_item_format snapshot invocation_ output format :
  plain_format (output_item snapshot invocation_ output format) = true /\ output_format (output_item snapshot invocation_ output format) = Some format.
Proof. unfold output_item. by destruct (input_kind (tc_input invocation_)), format. Qed.

Lemma with_item_advances db item : advances db (with_item db item).
Proof. apply hist_advances; [apply put_item_keeps|apply same_session_kept, put_item_session]. Qed.

Lemma commit_cases db snapshot draft output pending format fresh cancelled receipt db' :
  commit_context db snapshot draft output pending format fresh cancelled = Ok (receipt, db') ->
  exists invocation_, invocation_item read_json (c_hist db) (op_request (sn_operation snapshot)) (call (sn_operation snapshot)) = Ok (Some invocation_) /\
  let item := output_item snapshot invocation_ output format in
  (exists record, find_receipt db (sn_operation snapshot) = Ok (Some record) /\ rr_output record = item_hash item /\
     equivalent record draft snapshot = true /\ receipt = rr_receipt record /\ db' = with_item db item) \/
  (find_receipt db (sn_operation snapshot) = Ok None /\
     commit_fresh (with_item db item) snapshot draft pending (item_hash item) fresh cancelled = Ok (receipt, db')).
Proof.
  unfold ContextCommit.commit_context. intros H. destruct (sealed _ _); [|done]. destruct (match output with OutCompleted _ => _ | _ => _ end); [|done].
  apply rbind_Ok in H as (u & _ & H). apply rbind_Ok in H as (found & Hf & H). apply map_err_Ok in Hf.
  apply rbind_Ok in H as (invocation_ & Hi & H). apply ok_or_Ok in Hi. subst found. exists invocation_. split; [done|]. set (item := output_item snapshot invocation_ output format).
  change (put_item item_hash (c_hist db) _) with (item_hash item, (put_item item_hash (c_hist db) item).2) in H. cbn beta iota zeta in H.
  fold (with_item db item) in H. apply rbind_Ok in H as (existing & He & H). change (find_receipt db (sn_operation snapshot) = Ok existing) in He.
  destruct existing as [record|]; [left|by right]. exists record. destruct (_ && _) eqn:Eg in H; [|done].
  apply andb_true_iff in Eg as [?%bool_decide_eq_true ?]. by injection H as <- <-.
Qed.
(** A first commit of a snapshot, once its output item is stored. *)
Lemma first_commit db0 db snapshot draft output pending format fresh cancelled receipt db' head_ :
  begin_context db0 (sn_operation snapshot) head_ = Ok snapshot -> history_wf (c_hist db) -> output_free db snapshot output format ->
  find_receipt db (sn_operation snapshot) = Ok None ->
  commit_context db snapshot draft output pending format fresh cancelled = Ok (receipt, db') ->
  exists invocation_ state all rewritten published,
    invocation_item read_json (c_hist db) (op_request (sn_operation snapshot)) (call (sn_operation snapshot)) = Ok (Some invocation_) /\
    let item := output_item snapshot invocation_ output format in
    made_commit (with_item db item) snapshot draft pending (item_hash item) format fresh state all rewritten published receipt db'.
Proof.
  intros (_ & _ & Hs)%begin_context_ok W0 Hfree Hnone H. destruct (commit_cases _ _ _ _ _ _ _ _ _ _ H) as (invocation_ & Hinv & [(record & Hr & _)|[_ Hf]]);
    [congruence|]. set (item := output_item snapshot invocation_ output format) in *. destruct (output_item_format snapshot invocation_ output format) as [Hp Hfmt].
  destruct (commit_fresh_made _ _ _ _ _ _ _ _ _ item format Hf) as (state & all & rewritten & published & Hm); try done.
  - exact (av_wf _ _ _ (with_item_advances db item W0)).
  - destruct (put_item_stored item_hash (c_hist db) item) as [Hi _]; [apply Hfree|exact Hi].
  - by exists invocation_, state, all, rewritten, published.
Qed.

(** C20. A commit never breaks the Store and loses nothing. Whatever a commit of
    a snapshot returns, the conversation rows stay well formed and only grow, no
    compaction boundary goes, the claims stay consistent and none that is settled
    or interrupted changes, the owners of requests stay, receipts are only
    appended, and no other table but the state of the conversation changes. *)
Theorem commit_keeps db0 db snapshot draft output pending format fresh cancelled receipt db' head_ :
  begin_context db0 (sn_operation snapshot) head_ = Ok snapshot -> history_wf (c_hist db) -> claims_ok (s_claims (c_store db)) ->
  output_free db snapshot output format ->
  commit_context db snapshot draft output pending format fresh cancelled = Ok (receipt, db') ->
  advanced db db' /\ claims_ok (s_claims (c_store db')) /\
  forall identity, identity <> origin (sn_operation snapshot) -> s_contexts (c_store db') !! identity = s_contexts (c_store db) !! identity.
Proof.
  intros Hb W0 Hok Hfree H. destruct (commit_cases _ _ _ _ _ _ _ _ _ _ H) as (invocation_ & _ & [(record & _ & _ & _ & _ & ->)|[Hnone _]]).
  - pose proof (with_item_advances db (output_item snapshot invocation_ output format) W0) as A. split; [done|]. split; [by apply (av_claims_ok _ _ _ A)|done].
  - destruct (first_commit _ _ _ _ _ _ _ _ _ _ _ _ Hb W0 Hfree Hnone H) as (i & state & all & rewritten_ & published & _ & M).
    assert (advanced db db') as A.
    { refine ((_ : advances db db') W0). etrans; [apply with_item_advances|]. intros _. exact (mc_advanced _ _ _ _ _ _ _ _ _ _ _ _ _ M). }
    split; [done|]. split; [by apply (av_claims_ok _ _ _ A)|]. intros identity Hne. rewrite (mc_contexts _ _ _ _ _ _ _ _ _ _ _ _ _ M). by rewrite lookup_insert_ne.
Qed.

Lemma find_none db operation : find_receipt db operation = Ok None -> receipt_rows db operation = [].
Proof. unfold find_receipt. destruct (receipt_rows db operation) as [|r [|]]; [done| |done]. by destruct (record_refused _ _). Qed.

Lemma evidence_bound head rewritten : Forall hash_bound rewritten ->
  existsb (fun e => match pe_origin e with Some o => negb (bool_decide (o_hash o = pe_hash e)) | None => true end) (prefix_evidence head <$> imap pair rewritten) = false.
Proof.
  intros H. apply existsb_false. intros e (x & -> & Hx)%list_elem_of_fmap. apply elem_of_lookup_imap in Hx as (i & o & -> & Ho). simpl.
  rewrite Forall_lookup in H. specialize (H _ _ Ho). apply negb_false_iff, bool_decide_eq_true. by case_bool_decide.
Qed.

(** The receipt of a first commit can be read. *)
Lemma made_receipt db snapshot draft pending hash f fresh state all rewritten published receipt db' :
  find_receipt db (sn_operation snapshot) = Ok None ->
  made_commit db snapshot draft pending hash f fresh state all rewritten published receipt db' ->
  exists record, find_receipt db' (sn_operation snapshot) = Ok (Some record) /\ rr_output record = hash /\
    (forall d s, equivalent record d s = bool_decide (draft = d)) /\ rr_receipt record = receipt.
Proof.
  intros Hnone%find_none M. unfold find_receipt, receipt_rows in *. rewrite (mc_receipts _ _ _ _ _ _ _ _ _ _ _ _ _ M), List.filter_app, Hnone. simpl.
  rewrite !bool_decide_eq_true_2 by done. simpl. unfold record_refused. simpl. rewrite evidence_bound by exact (mc_bound _ _ _ _ _ _ _ _ _ _ _ _ _ M).
  rewrite !bool_decide_eq_true_2 by set_solver. simpl. eexists. split; [done|]. split; [done|]. split; [|done].
  intros d s. unfold equivalent. simpl. by rewrite orb_false_r.
Qed.

Lemma find_same db db' operation : receipt_rows db' operation = receipt_rows db operation -> find_receipt db' operation = find_receipt db operation.
Proof. unfold find_receipt. by intros ->. Qed.
(** A commit that finds a receipt repeats it or refuses. *)
Lemma repeated_commit db snapshot draft output pending format fresh cancelled record :
  find_receipt db (sn_operation snapshot) = Ok (Some record) ->
  (forall receipt db', commit_context db snapshot draft output pending format fresh cancelled = Ok (receipt, db') ->
     receipt = rr_receipt record /\ equivalent record draft snapshot = true /\ exists item, item_hash item = rr_output record /\ db' = with_item db item) /\
  (sealed store_id snapshot = true -> (exists v, output = OutCompleted (Ok v)) ->
   validate_identity store_id (s_claims (c_store db)) (origin (sn_operation snapshot)) = Ok tt ->
   forall invocation_, invocation_item read_json (c_hist db) (op_request (sn_operation snapshot)) (call (sn_operation snapshot)) = Ok (Some invocation_) ->
     item_hash (output_item snapshot invocation_ output format) = rr_output record -> equivalent record draft snapshot = true ->
     commit_context db snapshot draft output pending format fresh cancelled = Ok (rr_receipt record, with_item db (output_item snapshot invocation_ output format))).
Proof.
  intros Hf. split.
  - intros receipt db' H. destruct (commit_cases _ _ _ _ _ _ _ _ _ _ H) as (i & _ & [(r & Hr & Ho & Hd & -> & ->)|[Hn _]]); [|congruence].
    rewrite Hf in Hr. injection Hr as <-. split; [done|]. split; [done|]. by eexists.
  - intros Hseal [v ->] Hid i Hi Ho Heq. unfold ContextCommit.commit_context. rewrite Hseal, Hid, Hi. cbn [map_err rbind ok_or].
    set (item := output_item snapshot i (OutCompleted (Ok v)) format) in *.
    change (put_item item_hash (c_hist db) _) with (item_hash item, (put_item item_hash (c_hist db) item).2). cbn beta iota zeta.
    fold (with_item db item). change (find_receipt (with_item db item) (sn_operation snapshot)) with (find_receipt db (sn_operation snapshot)).
    rewrite Hf. cbn [rbind]. by rewrite bool_decide_eq_true_2, Heq.
Qed.

(** A snapshot of another generation is refused. *)
Lemma stale_commit db snapshot draft output pending format fresh cancelled version state :
  find_receipt db (sn_operation snapshot) = Ok None -> s_contexts (c_store db) !! origin (sn_operation snapshot) = Some (version, state) ->
  st_generation state <> sn_generation snapshot ->
  is_err (commit_context db snapshot draft output pending format fresh cancelled) = true.
Proof.
  intros Hf Hc Hne. destruct (commit_context _ _ _ _ _ _ _ _) as [[receipt db']|e] eqn:H; [|done].
  destruct (commit_cases _ _ _ _ _ _ _ _ _ _ H) as (i & _ & [(r & Hr & _)|[_ Hfresh]]); [congruence|].
  unfold ContextCommit.commit_fresh in Hfresh. destruct cancelled as [[[] c2] c3]; [done|]. apply rbind_Ok in Hfresh as ([[state' all] o] & Hcur & _).
  apply check_current_ok in Hcur as (Hst & Hg & _). unfold HostDb.context_state in Hst. change (c_store (with_item db _)) with
    (set_hist (c_store db) (put_item item_hash (c_hist db) (output_item snapshot i output format)).2) in Hst. simpl in Hst. rewrite Hc in Hst.
  destruct (negb _) in Hst; [done|]. apply rbind_Ok in Hst as (u & _ & Hst). destruct (_ && _) in Hst; [done|]. injection Hst as ->. done.
Qed.

(** C6. An edit is committed once. After a first commit returned a receipt, reading the
    receipt gives it back, and it stays so while the receipts of the
    operation do: any further commit of the operation returns the same receipt, for
    the same draft and output only, and does nothing but store the output item
    again; and the same commit, repeated, is answered. And when
    the commit changed anything, no other snapshot taken at the same generation
    can be committed until the state of the conversation is written again. *)
Theorem commit_once db0 db snapshot draft output pending format fresh cancelled receipt db' head_ :
  begin_context db0 (sn_operation snapshot) head_ = Ok snapshot -> history_wf (c_hist db) -> output_free db snapshot output format ->
  find_receipt db (sn_operation snapshot) = Ok None ->
  commit_context db snapshot draft output pending format fresh cancelled = Ok (receipt, db') ->
  exists hash, (forall later, receipt_rows later (sn_operation snapshot) = receipt_rows db' (sn_operation snapshot) ->
    context_receipt later (sn_operation snapshot) = Ok (Some receipt) /\
    (forall snapshot2 draft2 output2 pending2 format2 fresh2 cancelled2 receipt2 later', sn_operation snapshot2 = sn_operation snapshot ->
       commit_context later snapshot2 draft2 output2 pending2 format2 fresh2 cancelled2 = Ok (receipt2, later') ->
       receipt2 = receipt /\ draft2 = draft /\ exists item, item_hash item = hash /\ later' = with_item later item) /\
    (forall pending2 fresh2 cancelled2,
       validate_identity store_id (s_claims (c_store later)) (origin (sn_operation snapshot)) = Ok tt ->
       invocation_item read_json (c_hist later) (op_request (sn_operation snapshot)) (call (sn_operation snapshot)) =
       invocation_item read_json (c_hist db) (op_request (sn_operation snapshot)) (call (sn_operation snapshot)) ->
       is_ok (commit_context later snapshot draft output pending2 format fresh2 cancelled2) = true)) /\
  (rc_changed receipt = true ->
   forall later snapshot2 draft2 output2 pending2 format2 fresh2 cancelled2,
     s_contexts (c_store later) = s_contexts (c_store db') -> origin (sn_operation snapshot2) = origin (sn_operation snapshot) ->
     sn_generation snapshot2 = sn_generation snapshot -> find_receipt later (sn_operation snapshot2) = Ok None ->
     is_err (commit_context later snapshot2 draft2 output2 pending2 format2 fresh2 cancelled2) = true).
Proof.
  intros Hb W0 Hfree Hnone H. destruct (first_commit _ _ _ _ _ _ _ _ _ _ _ _ Hb W0 Hfree Hnone H) as (i & state & all & rw & published & Hi & M).
  set (item := output_item snapshot i output format) in *. exists (item_hash item). destruct (made_receipt (with_item db item) _ _ _ _ _ _ _ _ _ _ _ _ Hnone M) as (record & Hr & Ho & Hd & He).
  split.
  - intros later Hsame%find_same. rewrite Hr in Hsame. split; [unfold context_receipt; rewrite Hsame; simpl; by rewrite He|]. split.
    + intros snapshot2 draft2 output2 pending2 format2 fresh2 cancelled2 receipt2 later' Hop H2. rewrite <- Hop in Hsame.
      destruct (repeated_commit _ _ draft2 output2 pending2 format2 fresh2 cancelled2 _ Hsame) as [Hrep _].
      destruct (Hrep _ _ H2) as (-> & Heq & Hex). rewrite Hd in Heq. apply bool_decide_eq_true in Heq. rewrite He. rewrite Ho in Hex. done.
    + intros pending2 fresh2 cancelled2 Hid Hinv. rewrite Hi in Hinv. destruct (repeated_commit _ _ draft output pending2 format fresh2 cancelled2 _ Hsame) as [_ Hrep].
      rewrite (Hrep (proj1 (proj2 (begin_context_ok _ _ _ _ Hb))) ) with (invocation_ := i); try done.
      * unfold ContextCommit.commit_context in H. destruct (sealed _ _); [|done]. destruct output as [[v|]| | | |]; try done. by eexists.
      * rewrite Hd. by apply bool_decide_eq_true.
  - intros Hch later snapshot2 draft2 output2 pending2 format2 fresh2 cancelled2 Hctx Horigin Hgen Hnone2.
    destruct (mc_state _ _ _ _ _ _ _ _ _ _ _ _ _ M) as [_ Hg]. pose proof (mc_receipt _ _ _ _ _ _ _ _ _ _ _ _ _ M) as Hrc.
    eapply stale_commit; [done|rewrite Hctx, Horigin, (mc_contexts _ _ _ _ _ _ _ _ _ _ _ _ _ M), lookup_insert_eq; done|].
    rewrite Hgen, <- Hg, Hrc. simpl. rewrite Hrc in Hch. simpl in Hch. rewrite Hch. lia.
Qed.
End commit.

(** ** Witnesses *)

Definition toy_edit_hash (v : value) : string :=
  default "" (as_str (vidx v "type")) +:+ ":" +:+ default "" (as_str (vidx v "content")) +:+ default "" (as_str (vidx v "call_id")).

(** Two questions and the call that edits them. *)
Definition toy_edit_rows : Hdb :=
  match write_request toy_edit_hash Hdb_empty "r1" None "/root" [user_text "question"; user_text "again"; toy_issued_call] with
  | Ok (_, db) => db | Err _ => Hdb_empty end.

Definition toy_edit_unclaimed : ClaimDb := {| k_hist := toy_edit_rows; k_bindings := ∅; k_claims := []; k_owners := ∅ |}.

Definition toy_edit_claims : ClaimDb := match claim_call "s" toy_edit_unclaimed "c" "r1" with Ok (_, k) => k | Err _ => toy_edit_unclaimed end.

Definition toy_edit_store : ContextRows :=
  {| c_store := {| s_claims := toy_edit_claims; s_agents := ∅; s_interrupted := ∅; s_inference := ∅; s_retries := ∅; s_intents := ∅;
                   s_commands := ∅; s_inputs := ∅; s_seeds := ∅; s_contexts := ∅; s_accounts := ∅ |};
     c_receipts := [] |}.

Definition toy_edit_call : Origin := {| o_request := "r1"; o_position := 2; o_hash := "function_call:c" |}.

Definition toy_edit_reader (s : StoreRows) : HistoryEvidence :=
  {| ContextBlocks.invocation := fun _ => Some (FunctionKind, toy_edit_call);
     source_row := fun r p => List.find (fun o => (occ_position o =? p)%Z) (match request_occurrences (s_hist s) r with Ok os => os | Err _ => [] end);
     ContextBlocks.original_call := fun _ => Ok toy_edit_call;
     ContextBlocks.exact_terminal := fun _ => Ok (Some "function_call_output:c");
     validated_completion := fun _ => Ok false; response_evidence := ∅;
     reference_of := fun os => String.concat "," ((fun o => o_request o +:+ pretty (o_position o)) <$> os);
     hash_order := fun os => os; read_json := fun _ => Some (json_object []) |}.

Definition toy_blank_snapshot : ContextSnapshot :=
  {| sn_document := {| doc_blocks := [] |}; sn_generation := 0; sn_head := ""; sn_operation := toy_op; sn_prefix := []; sn_blocks := [];
     sn_store := ""; sn_seal := (toy_op, "", 0) |}.

Definition toy_begin : result ContextFault ContextSnapshot :=
  begin_context toy_read "s" (fun _ => None) (fun _ => true) (fun _ => true) toy_edit_reader toy_edit_store toy_op "r1".

Definition toy_taken : ContextSnapshot := Eval vm_compute in match toy_begin with Ok s => s | Err _ => toy_blank_snapshot end.

(** The first question reworded, for another model with less effort. *)
Definition toy_edit_draft : ContextDraft :=
  {| dr_document := {| doc_blocks := match doc_blocks (sn_document toy_taken) with
                                     | TextBlock r role _ sources :: rest => TextBlock r role "reworded" sources :: rest
                                     | l => l end |};
     next_model := Some "m"; next_effort := Some Low |}.

Definition toy_commit (db : ContextRows) (draft : ContextDraft) : result ContextFault (ContextCommitReceipt * ContextRows) :=
  commit_context toy_edit_hash toy_read (fun _ => "{}") "s" (fun _ => None) (fun _ => true) (fun _ => true) (fun _ => "") (fun _ => [])
    toy_edit_reader (fun _ _ => []) db toy_taken draft (OutCompleted (Ok (VObject []))) [] LegacyOpaque ("r2", "r3") (false, false, false).

Definition toy_receipt : ContextCommitReceipt := {| rc_head := "r2"; rc_generation := 1; rc_changed := true; rc_model := Some "m" |}.

Definition toy_committed : ContextRows := match toy_commit toy_edit_store toy_edit_draft with Ok (_, db) => db | Err _ => toy_edit_store end.

Lemma toy_commit_eq : toy_commit toy_edit_store toy_edit_draft = Ok (toy_receipt, toy_committed).
Proof. vm_compute. reflexivity. Qed.

Lemma toy_begin_eq : toy_begin = Ok toy_taken.
Proof. vm_compute. reflexivity. Qed.

Lemma toy_edit_wf : history_wf toy_edit_hash (c_hist toy_edit_store).
Proof.
  assert (rtc (history_step toy_edit_hash (fun _ _ => Ok None)) Hdb_empty (c_hist toy_edit_store)) as H; [|exact (proj1 (steps_keep _ _ _ _ H (empty_wf _)))].
  apply rtc_once. eapply (step_write _ _ _ _ "r1" None "/root" [user_text "question"; user_text "again"; toy_issued_call]). vm_compute. reflexivity.
Qed.

Lemma toy_edit_claims_ok : claims_ok (s_claims (c_store toy_edit_store)).
Proof.
  assert (rtc (claim_step toy_edit_hash toy_read "s") toy_edit_unclaimed toy_edit_claims) as H.
  { apply rtc_once. eapply (claim_issue _ _ _ _ _ "c" "r1" toy_op). vm_compute. reflexivity. }
  exact (proj2 (claim_steps_ok _ _ _ _ _ H) (no_claims_ok toy_edit_unclaimed eq_refl)).
Qed.

Lemma toy_output_free : output_free toy_edit_hash (fun _ => "{}") toy_edit_store toy_taken (OutCompleted (Ok (VObject []))) LegacyOpaque.
Proof. intros i v. unfold output_item. destruct (input_kind (tc_input i)); intros H; vm_compute in H; done. Qed.

Lemma commit_keeps_witness : history_wf toy_edit_hash (c_hist toy_committed) /\ claims_ok (s_claims (c_store toy_committed)).
Proof.
  destruct (commit_keeps toy_edit_hash toy_read (fun _ => "{}") "s" (fun _ => None) (fun _ => true) (fun _ => true) (fun _ => "") (fun _ => [])
    toy_edit_reader (fun _ _ => []) toy_edit_store toy_edit_store toy_taken toy_edit_draft (OutCompleted (Ok (VObject []))) [] LegacyOpaque ("r2", "r3")
    (false, false, false) toy_receipt toy_committed "r1" toy_begin_eq toy_edit_wf toy_edit_claims_ok toy_output_free toy_commit_eq) as (A & K & _).
  split; [exact (av_wf _ _ _ A)|exact K].
Defined.

Lemma commit_once_witness : context_receipt toy_committed toy_op = Ok (Some toy_receipt) /\ is_ok (toy_commit toy_committed toy_edit_draft) = true.
Proof.
  destruct (commit_once toy_edit_hash toy_read (fun _ => "{}") "s" (fun _ => None) (fun _ => true) (fun _ => true) (fun _ => "") (fun _ => [])
    toy_edit_reader (fun _ _ => []) toy_edit_store toy_edit_store toy_taken toy_edit_draft (OutCompleted (Ok (VObject []))) [] LegacyOpaque ("r2", "r3")
    (false, false, false) toy_receipt toy_committed "r1" toy_begin_eq toy_edit_wf toy_output_free eq_refl toy_commit_eq) as (hash & H & _).
  destruct (H toy_committed eq_refl) as (H1 & _ & H3). split; [exact H1|]. unfold toy_commit. apply (H3 [] ("r2", "r3") (false, false, false)); vm_compute; reflexivity.
Defined.

